(* ===== verification/_CoqProject ===== *)
-Q . S2P
Prelude.v
GoStd.v
Regex.v
Pipeline.v
Graph.v
Compiler.v
RunModel.v
MemoryStore.v
Scheduler.v
RunSpec.v
PlanFacts.v
MemoryRefine.v
LeaseStore.v
MemoryLease.v
Scenario.v
MemoryProps.v
CompilerProps.v
Authorization.v
Redaction.v
Codecs.v
Database.v
PgStore.v
Identity.v
PgActions.v
CommitStatus.v
CommitStatusProps.v
Logs.v
PgRefine.v
PgSubmit.v
PgRuns.v
PgLease.v
PgScenario.v
PgProps.v
LogsProps.v
GithubHook.v
Automation.v
Hub.v
PgAutomation.v
GithubCI.v
GithubCIFacts.v
HubScenario.v
GithubCIProps.v
AutomationProps.v
RunnerAuth.v
PgRunnerIdentity.v
RunnerIdentityFacts.v
RunnerIdentityProps.v
WorkProtocol.v
WorkClient.v
WorkServer.v
WorkDatabase.v
WorkFacts.v
WorkSystem.v
WorkInv.v
WorkSteps.v
WorkTrace.v
WorkHandshake.v
WorkProps.v
Secrets.v
SignIn.v
SignInService.v
SignInFacts.v
SignInEffects.v
SignInProps.v
Projects.v
ProjectsFacts.v
ProjectsProps.v
GithubClient.v
Integration.v
IntegrationService.v
GithubApp.v
IntegrationFacts.v
IntegrationProps.v
GithubAppProps.v
FileSystem.v
RunnerFiles.v
RunnerFilesFacts.v
RunnerFilesProps.v
RunnerPki.v
RunnerPkiProps.v
