(* ===== verification/Prelude.v ===== *)
(** * YuanCI: a verification development

    YuanCI is a continuous-integration system.  A control plane receives webhooks of a source
    code host, compiles the pipeline of a commit into a plan, stores the run and its jobs in
    PostgreSQL, hands the jobs to runners over a certificate-bound gRPC stream and reports
    the result as a commit status.  Runners execute the jobs and stream their logs back.
    This development models the decisions of that code, from the source under src/internal,
    as executable functions, and proves what makes them correct.

    ** The parts and how they meet

    A push arrives as a signed webhook (GithubHook.v), is stored in an inbox (Hub.v)
    and turned into a run by an orchestrator (GithubCI.v) that reads the
    automation of the project (Automation.v, PgAutomation.v), compiles the pipeline
    (Pipeline.v, Graph.v, Compiler.v) and commits the run.  Sessions
    (Identity.v) whose grants allow it (Authorization.v) create, cancel and rerun runs
    (PgActions.v).  A run store holds runs and jobs: the one in memory (MemoryStore.v) and the
    one in PostgreSQL (PgStore.v over the tables of Database.v).  A runner enrols with a token
    and a certificate (RunnerAuth.v, PgRunnerIdentity.v); on its Work stream (WorkProtocol.v)
    the control plane (WorkServer.v) claims jobs for it and the work loop of the runner
    (WorkClient.v) accepts, starts, executes and completes them.  Output passes a redacting
    writer (Redaction.v) and the log protocol (Logs.v).  The statuses of commits leave through
    an outbox (CommitStatus.v).  The owner sets the installation up with a bootstrap code and a
    provider of identities; people sign in through that provider and are given what they were
    granted (SignIn.v, SignInService.v), with the secrets of the providers sealed (Secrets.v);
    a session then reads the projects and runs it may see page by page (Projects.v).  An
    administrator configures the App of GitHub, proves an account there and imports its
    repositories (Integration.v, IntegrationService.v over the client of GithubClient.v); the
    credentials of the App then read pipelines for the orchestrator, go with assignments to
    runners and post the statuses of the outbox (GithubApp.v).  The certificate with which a
    runner opens its stream lives in files that its enrolment creates and its rotations
    replace (RunnerFiles.v over the file system of FileSystem.v); the issuer of these
    certificates is made by a command and loaded by the control plane (RunnerPki.v).

    ** Files

    Generic: Prelude.v (errors, lists, counting, maps in the order of Go), GoStd.v, Regex.v,
    Codecs.v (what the code uses of Go's standard library).

    - RunModel.v: internal/run/state.go, store.go, runner_store.go, logs.go.
    - Pipeline.v, Graph.v, Compiler.v: internal/pipeline; CompilerProps.v.
    - MemoryStore.v: internal/run/store.go, runner_memory.go, recovery_memory.go.
      Scheduler.v is the abstract scheduler, RunSpec.v what a run record promises;
      PlanFacts.v takes a valid pipeline to a valid submission; MemoryRefine.v is the
      simulation, LeaseStore.v the lease protocol as a class of operations with laws,
      MemoryLease.v its instance; Scenario.v, MemoryProps.v.
    - Database.v, PgStore.v, PgActions.v, Identity.v: internal/store/postgres (store.go,
      runner_jobs.go, runner_recovery.go, run_actions.go, run_rerun.go, authorized_runs.go,
      identity.go) and internal/identity/session.go.  PgRefine.v, PgSubmit.v, PgRuns.v: the
      simulation of every transaction; PgLease.v: the instance of LeaseStore.v;
      PgScenario.v, PgProps.v.
    - CommitStatus.v, CommitStatusProps.v: internal/commitstatus and commit_status.go.
    - Logs.v, LogsProps.v: the log buffer of the runner, handleLog and AppendLogChunk.
    - Redaction.v: internal/runner/redaction.go.  Authorization.v: internal/authorization.
    - GithubHook.v, Hub.v: the requests of GitHub, the tables and the inbox.  Automation.v,
      PgAutomation.v, AutomationProps.v.  GithubCI.v: internal/githubci and its transactions;
      GithubCIFacts.v: the interleavings of the inbox; HubScenario.v, GithubCIProps.v.
    - RunnerAuth.v, PgRunnerIdentity.v, RunnerIdentityFacts.v, RunnerIdentityProps.v:
      internal/runnerauth and runner_identity.go.
    - WorkProtocol.v, WorkClient.v, WorkServer.v: api/runner/v1, internal/runner/work.go and
      source.go, internal/runnergrpc/server.go and auth.go.  WorkSystem.v composes all
      runners, streams and the database into one step relation; WorkDatabase.v
      and WorkFacts.v say what each side does, WorkInv.v and WorkSteps.v prove the invariant,
      WorkTrace.v traces completions to executions, WorkHandshake.v runs one assignment over
      the interface of the store; WorkProps.v.
    - Secrets.v: internal/secrets/crypto.go.  SignIn.v: internal/identity (oauth.go and, as
      far as providers are configured, github.go and gitee.go), oauth.go and provisioning.go
      of internal/store/postgres, with their tables and constraints.  SignInService.v:
      internal/provisioning/service.go and the callback of internal/httpapi/oauth.go; it
      interleaves all of these operations, the expiry of flows and the changes of other
      tables; SignInFacts.v keeps the invariant, SignInEffects.v says what each operation may
      change; SignInProps.v.
    - Projects.v, ProjectsFacts.v, ProjectsProps.v: internal/project/project.go and
      projects.go of internal/store/postgres (cursors and the lists of projects and runs).
    - GithubClient.v, Integration.v, IntegrationService.v: internal/integration (types.go,
      github.go, service.go), integration.go and github_runtime.go of internal/store/postgres.
      GithubApp.v: internal/githubapp/service.go, internal/commitstatus/github.go and the
      routers of cmd/yuanci-server/scm.go.  IntegrationFacts.v interleaves the transactions
      of the integration with those of SignInService.v and keeps the invariant;
      IntegrationProps.v, GithubAppProps.v.
    - FileSystem.v: files, directories and programs of calls that fail or never return, with a
      predicate transformer for what holds at every moment.  RunnerFiles.v:
      internal/runner/credentials.go as such programs; RunnerFilesFacts.v says what each of
      them may do to the files; RunnerFilesProps.v.  RunnerPki.v: InitializePKI of
      internal/runnerauth/pki.go and internal/runnergrpc/pki.go; RunnerPkiProps.v.

    ** What the theorems show

    - Scheduling: both stores refine the abstract scheduler, so a job is released only after
      its dependencies succeeded, a blocked job always waits for an active one, finished runs
      keep their status, and run records agree with their jobs.
    - Leases: claims respect requirements, order and capacity; a lease is exclusive and lost
      to nobody; receipt, start and completion succeed in order and nothing else does.
    - The Work protocol: no job is executed twice whatever breaks, every completion reports
      an execution under its own lease, runners stay within their capacity, an assignment
      leads to an execution, the claim loop ends, assignments decode to what was encoded.
    - Webhooks: only authentic events enter the inbox, are attempted at most twelve times,
      by one worker at a time, and end in a run of the scheduler or in a named outcome.
    - Automation is enabled only with a validated pipeline.  Pipelines: cycles are found,
      accepted ones compile, limits stay in bounds.
    - Access: the decision function is equivalent to declarative rules.  Identities of
      runners: the registry stays well-formed, enrolments are bounded, revocation is final,
      rotation hands over, an enrolled runner authenticates.
    - Sign-in: the setup happens once and by the holder of the code, a configuration becomes
      active only through its owner, a flow is consumed once, a session belongs to the identity
      that the provider reported, memberships come from grants, a saved secret opens for its
      purpose and identifier only.
    - The GitHub integration: an import needs the proof of an administrator, brings in what
      was asked for and adopts nothing; a new configuration ends what was authorized before;
      the webhook secret survives it; requests for a pipeline stay in the repository and the
      commit, and checkout credentials are limited to reading one repository.
    - Following the cursors of a list visits exactly the projects, or runs, that the session
      may see, each once and in order.
    - The credentials of a runner appear at once and complete, the next start loads what was
      enrolled, a rotation repeats one request until its answer is stored and keeps an
      identity, except that a backup is all there is between its two renames.  A new PKI is
      complete or leaves nothing behind, and the server loads what was made.
    - Logs arrive in order despite retransmission; redaction does not depend on the chunks and
      emits no secret; final commit statuses are true.
    - Theorems named in the findings show where the code does not do what it means to.

    ** Conventions

    A UUID is a number (only equality matters; its text is a parameter with the laws that a
    proof needs), a time is in nanoseconds.  A transaction is a function from the database to
    the database and a result, and leaves the database alone when it fails; row locks taken
    with SKIP LOCKED are a parameter, and transactions that wait for each other are run one
    after the other.  The order in which Go visits a map is a parameter (class MapOrder) or
    part of the event.  Random values, the clock and the answers of remote services are
    arguments.  Digests, codecs, the JSON and YAML decoders, net/url and crypto/x509 are
    parameters, and so is the transport of the requests to GitHub; what is assumed of the
    sealing of secrets is an equation for the finitely many keys, nonces and purposes in use,
    so the hypotheses have instances.

    Fuel and bounds: the search for cycles carries fuel for every node and the theorems show
    that it never runs out; the loop of the retry delay has a closed form; claim_loop takes
    fuel, and the free slots of the runner plus one are enough; the listing of a page takes as
    many rounds as there are projects, which is proved enough; the pages of an import take the
    hundred rounds, and those of the installations the ten, that bound the loops of the code;
    regular expressions are decided by derivatives and need none.

    The composed system (WorkSystem.v) assumes one control plane process, streams that deliver
    in order until they break, at most one handler per runner as beginSession ensures, that
    the handler of a stream which the runner left before it began does nothing, and that a
    newly drawn lease token differs from the earlier ones.  Everything else may happen at any
    moment: streams break, runners restart without memory, leases expire, handlers of broken
    streams go on with what has arrived, other transactions run between any two steps.

    A program on files (FileSystem.v) is run on a list of draws, one for each call; the process
    dies when they are used up.  So a statement for all lists of draws holds for every failure
    at every call and for a crash at every moment; nobody else changes the files meanwhile.

    ** Not modelled

    Routing and encoding of the HTTP API, the web interface, configuration and commands (I/O
    around the modelled decisions); generated protocol code (its messages are records); the
    provider of identities (its answers are arguments), the cookies of the browser; the
    integration with Gitee, whose place behind the routers is a parameter; the client of
    scm/github that no command uses; the Docker executor and Git checkouts; context deadlines
    and tickers, whose effect appears as events that may happen at any time; the loss of power,
    after which a file system may forget what was written. *)

From stdpp Require Export base tactics list gmap strings sorting.
From Stdlib Require Export ZArith Lia Ascii.
From Stdlib Require String.

(** ** Scope and notations *)

Declare Scope go_scope.
Delimit Scope go_scope with go.
#[global] Open Scope Z_scope.
#[global] Open Scope stdpp_scope.
#[global] Open Scope go_scope.

(** A [uuid.UUID] is compared for equality only, so a number stands for it;
    [uuid.Nil] is the all-zero identifier. *)
Abbreviation uuid := N (only parsing).
Abbreviation uuid_Nil := 0%N (only parsing).

(** A [time.Time] is the number of nanoseconds since the Unix epoch and a
    [time.Duration] a number of nanoseconds. *)
Abbreviation time := Z (only parsing).
Abbreviation duration := Z (only parsing).

Definition Nanosecond : duration := 1.
Definition Microsecond : duration := 1000 * Nanosecond.
Definition Millisecond : duration := 1000 * Microsecond.
Definition Second : duration := 1000 * Millisecond.
Definition Minute : duration := 60 * Second.
Definition Hour : duration := 60 * Minute.

(** The zero [time.Time]: 1 January of year 1, UTC. *)
Definition time_zero : time := - (62135596800 * Second).

(** ** Fallible code *)

(** A Go pair [(value, error)]: [Ok] when the error is nil. *)
Inductive result (E A : Type) : Type :=
| Ok (a : A)
| Err (e : E).
Arguments Ok {E A} a.
Arguments Err {E A} e.

#[export] Instance result_eq_dec {E A} `{EqDecision E, EqDecision A} :
  EqDecision (result E A).
Proof. solve_decision. Defined.

Definition rbind {E A B} (r : result E A) (k : A → result E B) : result E B :=
  match r with Ok a => k a | Err e => Err e end.

Notation "'let?' x ':=' r 'in' k" := (rbind r (λ x, k))
  (at level 10, x binder, r at level 100, k at level 200) : go_scope.

(** [if guard { return err }] followed by the rest of the body. *)
Notation "'fail_if' c 'with' e ';;' k" := (if c then Err e else k)
  (at level 10, c at level 99, e at level 99, k at level 200,
   format "'[v' 'fail_if'  c  'with'  e  ';;' '/' k ']'") : go_scope.

Definition is_ok {E A} (r : result E A) : bool :=
  match r with Ok _ => true | Err _ => false end.

(** Go's [==] on a type with decidable equality, and its negation. *)
Notation "a =? b" := (bool_decide (a = b)) (at level 70) : go_scope.
Notation "a <>? b" := (negb (bool_decide (a = b))) (at level 70) : go_scope.

(** ** Generic lemmas *)

Create HintDb yuanci.

Section Lists.
Context {A : Type}.

(** Apply [f] to the first element of [l] that satisfies [p]: the loop
    [for i := range l { if p(l[i]) { l[i] = f(l[i]); return } }]. *)
Fixpoint update_first (p : A → bool) (f : A → A) (l : list A) : list A :=
  match l with
  | [] => []
  | x :: l => if p x then f x :: l else x :: update_first p f l
  end.

(** Apply [f] to every element of [l] that satisfies [p]. *)
Definition update_all (p : A → bool) (f : A → A) (l : list A) : list A :=
  (λ x, if p x then f x else x) <$> l.

(** The index of the first element that satisfies [p]. *)
Fixpoint find_index (p : A → bool) (l : list A) : option nat :=
  match l with
  | [] => None
  | x :: l => if p x then Some 0%nat else S <$> find_index p l
  end.

Lemma length_update_all p f (l : list A) : length (update_all p f l) = length l.
Proof. apply length_fmap. Qed.

Lemma length_update_first p f (l : list A) : length (update_first p f l) = length l.
Proof. induction l as [|x l IH]; simpl; [done|]. destruct (p x); simpl; congruence. Qed.

Lemma lookup_update_all p f (l : list A) i :
  update_all p f l !! i = (λ x, if p x then f x else x) <$> l !! i.
Proof. apply list_lookup_fmap. Qed.

Lemma find_index_Some p (l : list A) i :
  find_index p l = Some i ↔
  ∃ x, l !! i = Some x ∧ p x = true ∧ ∀ j y, (j < i)%nat → l !! j = Some y → p y = false.
Proof.
  revert i. induction l as [|x l IH]; intros i; simpl.
  { split; [done|]. intros (x & Hx & _). done. }
  destruct (p x) eqn:Hp.
  - split.
    + intros [= <-]. exists x. repeat split; [done..|]. intros; lia.
    + intros (y & Hy & Hpy & Hmin). destruct i as [|i]; [done|].
      specialize (Hmin 0%nat x ltac:(lia) eq_refl). congruence.
  - rewrite fmap_Some. split.
    + intros (i' & Hi' & ->). apply IH in Hi' as (y & Hy & Hpy & Hmin).
      exists y. repeat split; [done..|]. intros [|j] z Hj Hz; simplify_eq/=; [done|].
      eapply Hmin; [|done]. lia.
    + intros (y & Hy & Hpy & Hmin). destruct i as [|i]; simpl in Hy; [congruence|].
      exists i. split; [|done]. apply IH. exists y. repeat split; [done..|].
      intros j z Hj Hz. eapply (Hmin (S j) z); [lia|done].
Qed.

Lemma find_index_None p (l : list A) :
  find_index p l = None ↔ ∀ x, x ∈ l → p x = false.
Proof.
  induction l as [|x l IH]; simpl.
  { split; [|done]. intros _ x Hx. by apply not_elem_of_nil in Hx. }
  destruct (p x) eqn:Hp.
  - split; [done|]. intros H. specialize (H x). rewrite H in Hp; [done|]. by left.
  - rewrite fmap_None, IH. split.
    + intros H y [->|Hy]%elem_of_cons; auto.
    + intros H y Hy. apply H. by right.
Qed.
Lemma NoDup_key_unique `{EqDecision K} (key : A → K) (l : list A) x y :
  NoDup (key <$> l) → x ∈ l → y ∈ l → key x = key y → x = y.
Proof.
  intros Hnd [i Hi]%list_elem_of_lookup [k Hk]%list_elem_of_lookup Heq.
  assert (i = k) as ->; [|congruence].
  eapply (NoDup_lookup _ i k (key x) Hnd); rewrite list_lookup_fmap, ?Hi, ?Hk; simpl; congruence.
Qed.

Lemma update_all_none p f (l : list A) :
  (∀ x, x ∈ l → p x = false) → update_all p f l = l ∧ List.filter p l = [].
Proof.
  intros Hp. unfold update_all. induction l as [|x l IH]; [done|].
  destruct IH as [IH1 IH2]; [intros; apply Hp; by right|].
  cbn [fmap list_fmap List.filter]. rewrite (Hp x) by left. split; [|done]. by f_equal.
Qed.

(** [UPDATE ... WHERE key = k AND ...]: with unique keys at most one row changes. *)
Lemma update_one {K} (key : A → K) k p f (l : list A) :
  NoDup (key <$> l) → (∀ x, p x = true → key x = k) →
  ((∀ x, x ∈ l → p x = false) ∧ update_all p f l = l ∧ List.filter p l = []) ∨
  (∃ i x, l !! i = Some x ∧ p x = true ∧ update_all p f l = alter f i l ∧ List.filter p l = [x]).
Proof.
  intros Hnd Hp. induction l as [|x l IH]; [left; split; [by intros x ?%not_elem_of_nil|done]|].
  apply NoDup_cons in Hnd as [Hx Hnd]. unfold update_all. cbn [fmap list_fmap List.filter].
  destruct (p x) eqn:Hpx.
  - right. exists 0%nat, x. assert (Hl : ∀ y, y ∈ l → p y = false).
    { intros y Hy. apply not_true_is_false. intros Hpy. apply Hx.
      rewrite (Hp x Hpx), <-(Hp y Hpy). by apply list_elem_of_fmap_2. }
    destruct (update_all_none p f l Hl) as [Hu Hf]. unfold update_all in Hu. by rewrite Hu, Hf.
  - destruct (IH Hnd) as [(Hl & Hu & Hf)|(i & y & Hy & Hpy & Hu & Hf)].
    + left. unfold update_all in Hu. rewrite Hu, Hf. split; [|done]. intros y [->|Hy]%elem_of_cons; auto.
    + right. exists (S i), y. unfold update_all in Hu. by rewrite Hu, Hf.
Qed.

(** A separator that does not occur in the first parts splits a list in one way. *)
Lemma app_sep_inj (c : A) (l1 l1' l2 l2' : list A) :
  Forall (λ x, x ≠ c) l1 → Forall (λ x, x ≠ c) l1' → l1 ++ c :: l2 = l1' ++ c :: l2' → l1 = l1' ∧ l2 = l2'.
Proof.
  intros H1. revert l1'.
  induction H1 as [|x l1 Hx H1 IH]; intros ? [|x' l1' Hx' H1'] Heq; simplify_eq/=; [done|].
  by destruct (IH l1') as [-> ->].
Qed.
End Lists.

Lemma fmap_update_all {A B} (h : A → B) p q f g (l : list A) :
  (∀ x, x ∈ l → p x = q (h x)) → (∀ x, h (f x) = g (h x)) →
  h <$> update_all p f l = update_all q g (h <$> l).
Proof.
  intros Hpq Hfg. unfold update_all. rewrite <-!list_fmap_compose.
  apply list_fmap_ext. intros i x Hx. simpl.
  rewrite (Hpq x) by by eapply list_elem_of_lookup_2. by destruct (q (h x)).
Qed.

(** A column that an update does not touch. *)
Lemma fmap_update_keep {A B} (g : A → B) p f (l : list A) :
  (∀ x, g (f x) = g x) → g <$> update_all p f l = g <$> l.
Proof.
  intros Hg. unfold update_all. rewrite <-list_fmap_compose. apply list_fmap_ext. intros i x _. simpl.
  by destruct (p x).
Qed.

(** ** Counting *)

Definition count {A} (p : A → bool) (l : list A) : Z := Z.of_nat (length (List.filter p l)).

Lemma mjoin_cons {A} (x : list A) l : mjoin (x :: l) = x ++ mjoin l.
Proof. done. Qed.

Lemma count_cons {A} (p : A → bool) x l : count p (x :: l) = (if p x then 1 else 0) + count p l.
Proof. unfold count. simpl. destruct (p x); simpl; lia. Qed.

Lemma count_ext {A} (p q : A → bool) l : (∀ x, x ∈ l → p x = q x) → count p l = count q l.
Proof.
  induction l as [|x l IH]; intros Hpq; [done|]. rewrite !count_cons, (Hpq x), IH; [done| |left].
  intros y Hy. apply Hpq. by right.
Qed.

Lemma count_fmap {A B} (f : A → B) p (l : list A) : count p (f <$> l) = count (p ∘ f) l.
Proof. induction l as [|x l IH]; [done|]. rewrite fmap_cons, !count_cons, IH. done. Qed.

Lemma count_nonneg {A} (p : A → bool) l : 0 ≤ count p l.
Proof. unfold count. lia. Qed.

Lemma count_indices {A} (p : A → bool) (l : list A) :
  count (λ i, default false (p <$> l !! i)) (seq 0 (length l)) = count p l.
Proof.
  induction l as [|x l IH]; [done|]. cbn [length seq]. rewrite !count_cons, <-IH. simpl. f_equal.
  rewrite <-fmap_S_seq, count_fmap. by apply count_ext.
Qed.

Lemma count_filter {A} (p : A → bool) (l : list A) :
  Z.of_nat (length (filter (λ x, p x = true) l)) = count p l.
Proof.
  induction l as [|x l IH]; [done|]. rewrite filter_cons, count_cons, <-IH.
  case_decide as Hp; destruct (p x); try done. simpl. lia.
Qed.

Lemma count_alter {A} (p : A → bool) f i x (l : list A) :
  l !! i = Some x → count p (alter f i l)
    = count p l - (if p x then 1 else 0) + (if p (f x) then 1 else 0).
Proof.
  revert i. induction l as [|y l IH]; intros [|i] Hx; simplify_eq/=; rewrite !count_cons; [lia|].
  rewrite (IH i Hx). lia.
Qed.

(** ** Automation *)

(** Case analysis on every [if] and [match] in sight, closing absurd cases. *)
Ltac break_step :=
  match goal with
  | H : context [match ?x with _ => _ end] |- _ => destruct x eqn:?; try discriminate
  | |- context [match ?x with _ => _ end] => destruct x eqn:?; try discriminate
  end.
Ltac break_all := repeat (break_step; simplify_eq/=).

(** Turn boolean conditions of the code into propositions. *)
Ltac bools :=
  repeat match goal with
  | H : (_ && _) = true |- _ => apply andb_true_iff in H; destruct H
  | H : (_ || _) = false |- _ => apply orb_false_iff in H; destruct H
  | H : (_ && _) = false |- _ => apply andb_false_iff in H
  | H : (_ || _) = true |- _ => apply orb_true_iff in H
  | H : negb _ = true |- _ => apply negb_true_iff in H
  | H : negb _ = false |- _ => apply negb_false_iff in H
  | H : bool_decide _ = true |- _ => apply bool_decide_eq_true in H
  | H : bool_decide _ = false |- _ => apply bool_decide_eq_false in H
  end.

(** ** Iteration over Go maps *)

(** The order in which [for k, v := range m] visits a map is unspecified; an
    instance fixes one, and theorems hold for every instance. *)
Class MapOrder : Type := {
  range : ∀ {A : Type}, gmap string A → list (string * A);
  range_perm : ∀ {A : Type} (m : gmap string A), range m ≡ₚ map_to_list m;
}.

Lemma elem_of_range `{MapOrder} {A} (m : gmap string A) k v : (k, v) ∈ range m ↔ m !! k = Some v.
Proof. by rewrite range_perm, elem_of_map_to_list. Qed.

(** The order of the finite-map library, for concrete runs. *)
Definition library_order : MapOrder := {|
  range := λ A m, map_to_list m;
  range_perm := λ A m, Permutation_refl _;
|}.
