(* ===== verification/GoStd.v ===== *)
(** The parts of Go's standard library that the program's own code calls: [strings],
    [strconv] and the anchored patterns of [regexp] on byte strings, and
    [time.ParseDuration].  A Go string is a sequence of bytes, here a [string] of [ascii]. *)

From Stdlib Require String.
From Stdlib Require Import SpecFloat.
From S2P Require Import Prelude.

(** ** package strings *)

Abbreviation chars := String.list_ascii_of_string.
Abbreviation of_chars := String.string_of_list_ascii.
Abbreviation bytes := (list ascii).

Lemma of_chars_chars s : of_chars (chars s) = s.
Proof. apply String.string_of_list_ascii_of_string. Qed.
Lemma chars_of_chars l : chars (of_chars l) = l.
Proof. apply String.list_ascii_of_string_of_list_ascii. Qed.
#[export] Instance chars_inj : Inj (=) (=) chars.
Proof. intros s t H. by rewrite <-(of_chars_chars s), H, of_chars_chars. Qed.
Lemma chars_app s t : chars (s +:+ t) = chars s ++ chars t.
Proof.
  induction s as [|c s IH]; [done|]. change (c :: chars (s +:+ t) = c :: (chars s ++ chars t)). congruence. Qed.

(** [len(s)] *)
Definition len (s : string) : Z := Z.of_nat (String.length s).

Lemma len_chars s : len s = Z.of_nat (length (chars s)).
Proof. unfold len. f_equal. induction s; simpl; congruence. Qed.

Fixpoint has_prefix (p l : bytes) : bool :=
  match p, l with
  | [], _ => true
  | a :: p, b :: l => (a =? b) && has_prefix p l
  | _ :: _, [] => false
  end.

Lemma has_prefix_spec p l : has_prefix p l = true ↔ p `prefix_of` l.
Proof.
  revert l. induction p as [|a p IH]; intros l; simpl.
  { split; [|done]. intros _. apply prefix_nil. }
  destruct l as [|b l].
  { split; [done|]. intros H%prefix_nil_not. done. }
  rewrite andb_true_iff, bool_decide_eq_true, IH. split.
  - intros [-> ?]. by apply prefix_cons.
  - intros H. split; [by eapply prefix_cons_inv_1|by eapply prefix_cons_inv_2].
Qed.

Definition HasPrefix (s p : string) : bool := has_prefix (chars p) (chars s).
Definition HasSuffix (s p : string) : bool := has_prefix (reverse (chars p)) (reverse (chars s)).

Definition TrimPrefix (s p : string) : string :=
  if HasPrefix s p then of_chars (drop (length (chars p)) (chars s)) else s.
Definition TrimSuffix (s p : string) : string :=
  if HasSuffix s p then of_chars (take (length (chars s) - length (chars p)) (chars s)) else s.

Lemma TrimPrefix_app p s : TrimPrefix (p +:+ s) p = s ∧ HasPrefix (p +:+ s) p = true.
Proof.
  assert (Hp : HasPrefix (p +:+ s) p = true).
  { unfold HasPrefix. rewrite chars_app. apply has_prefix_spec. by exists (chars s). }
  split; [|done]. unfold TrimPrefix. rewrite Hp, chars_app, drop_app_length. apply of_chars_chars.
Qed.

(** [strings.ContainsAny(s, cs)] for ASCII [cs]. *)
Definition ContainsAny (s cs : string) : bool :=
  existsb (λ c, existsb (λ d, c =? d) (chars cs)) (chars s).
(** [strings.ContainsRune(s, c)] for an ASCII rune [c]. *)
Definition ContainsRune (s : string) (c : ascii) : bool := existsb (λ d, d =? c) (chars s).

Fixpoint contains (sub l : bytes) : bool :=
  has_prefix sub l || match l with [] => false | _ :: l => contains sub l end.
Definition Contains (s sub : string) : bool := contains (chars sub) (chars s).

(** [strings.Split(s, sep)] for a one-byte separator. *)
Fixpoint split_bytes (sep : ascii) (l cur : bytes) : list string :=
  match l with
  | [] => [of_chars (reverse cur)]
  | c :: l =>
    if c =? sep then of_chars (reverse cur) :: split_bytes sep l []
    else split_bytes sep l (c :: cur)
  end.
Definition Split (s : string) (sep : ascii) : list string := split_bytes sep (chars s) [].

Fixpoint Join (parts : list string) (sep : string) : string :=
  match parts with
  | [] => ""
  | [p] => p
  | p :: parts => p +:+ sep +:+ Join parts sep
  end.

Definition Repeat (s : string) (n : nat) : string := of_chars (mjoin (replicate n (chars s))).

(** White space of [strings.TrimSpace]: the Unicode White_Space code points, as
    the byte sequences that encode them in UTF-8. *)
Definition white_space : list bytes :=
  map (map ascii_of_nat)
  [[9]; [10]; [11]; [12]; [13]; [32]; [194; 133]; [194; 160]; [225; 154; 128];
   [226; 128; 128]; [226; 128; 129]; [226; 128; 130]; [226; 128; 131]; [226; 128; 132];
   [226; 128; 133]; [226; 128; 134]; [226; 128; 135]; [226; 128; 136]; [226; 128; 137];
   [226; 128; 138]; [226; 128; 168]; [226; 128; 169]; [226; 128; 175]; [226; 129; 159];
   [227; 128; 128]]%nat.

Fixpoint trim_left (spaces : list bytes) (fuel : nat) (l : bytes) : bytes :=
  match fuel with
  | O => l
  | S fuel =>
    match filter (λ w, has_prefix w l = true) spaces with
    | [] => l
    | w :: _ => trim_left spaces fuel (drop (length w) l)
    end
  end.

(** Every round of [trim_left] removes at least one byte, so the length of the
    input bounds the number of rounds. *)
Definition TrimSpace (s : string) : string :=
  let l := trim_left white_space (length (chars s)) (chars s) in
  of_chars (reverse (trim_left (reverse <$> white_space) (length l) (reverse l))).

(** [strings.Fields]: the parts between runs of white space; a round consumes one
    space or one byte. *)
Fixpoint fields (fuel : nat) (l cur : bytes) : list string :=
  let emit rest := if (length cur =? 0)%nat then rest else of_chars (reverse cur) :: rest in
  match fuel with
  | O => emit []
  | S fuel =>
    match filter (λ w, has_prefix w l = true) white_space with
    | w :: _ => emit (fields fuel (drop (length w) l) [])
    | [] => match l with [] => emit [] | c :: l => fields fuel l (c :: cur) end
    end
  end.
Definition Fields (s : string) : list string := fields (length (chars s)) (chars s) [].

Definition upper_byte (c : ascii) : ascii :=
  let n := nat_of_ascii c in
  if (97 <=? n)%nat && (n <=? 122)%nat then ascii_of_nat (n - 32) else c.
Definition lower_byte (c : ascii) : ascii :=
  let n := nat_of_ascii c in
  if (65 <=? n)%nat && (n <=? 90)%nat then ascii_of_nat (n + 32) else c.

(** [strings.ToUpper]: ASCII letters, and the two code points outside ASCII whose
    upper case is an ASCII letter, U+0131 (dotless i) and U+017F (long s).  A code
    point whose upper case lies outside ASCII is left as it is. *)
Fixpoint to_upper (l : bytes) : bytes :=
  match l with
  | [] => []
  | c :: l' =>
    match l' with
    | d :: l'' =>
      if (nat_of_ascii c =? 196)%nat && (nat_of_ascii d =? 177)%nat then "I"%char :: to_upper l''
      else if (nat_of_ascii c =? 197)%nat && (nat_of_ascii d =? 191)%nat then "S"%char :: to_upper l''
      else upper_byte c :: to_upper l'
    | [] => upper_byte c :: to_upper l'
    end
  end.
Definition ToUpper (s : string) : string := of_chars (to_upper (chars s)).

(** [strings.ToLower] on ASCII letters. *)
Definition ToLower (s : string) : string := of_chars (lower_byte <$> chars s).

(** [strings.EqualFold] on ASCII strings. *)
Definition EqualFold (s t : string) : bool := ToLower s =? ToLower t.

(** ** package strconv *)

Definition digit (c : ascii) : option Z :=
  let n := Z.of_nat (nat_of_ascii c) in
  if (48 <=? n) && (n <=? 57) then Some (n - 48) else None.

(** The value of a string of decimal digits. *)
Fixpoint parse_digits (l : bytes) (acc : Z) : option Z :=
  match l with
  | [] => Some acc
  | c :: l => match digit c with Some d => parse_digits l (acc * 10 + d) | None => None end
  end.

Definition max_int64 : Z := 2 ^ 63 - 1.
Definition min_int64 : Z := - 2 ^ 63.

(** [strconv.ParseInt(s, 10, 64)]; [None] is a non-nil error (syntax or range). *)
Definition ParseInt (s : string) : option Z :=
  let '(neg, ds) :=
    match chars s with
    | c :: l => if c =? "-"%char then (true, l) else if c =? "+"%char then (false, l) else (false, c :: l)
    | [] => (false, [])
    end in
  match ds with
  | [] => None
  | _ =>
    match parse_digits ds 0 with
    | None => None
    | Some n =>
      let v := if (neg : bool) then - n else n in
      if (min_int64 <=? v) && (v <=? max_int64) then Some v else None
    end
  end.

Definition digit_char (d : Z) : ascii := ascii_of_nat (Z.to_nat (48 + d)).

Fixpoint format_digits (fuel : nat) (n : Z) (acc : bytes) : bytes :=
  match fuel with
  | O => acc
  | S fuel =>
    let acc := digit_char (n mod 10) :: acc in
    if n <? 10 then acc else format_digits fuel (n / 10) acc
  end.

(** [strconv.FormatInt(v, 10)]; twenty digits are enough for 64 bits. *)
Definition FormatInt (v : Z) : string :=
  of_chars (if v <? 0 then "-"%char :: format_digits 20 (- v) [] else format_digits 20 v []).

Lemma digit_digit_char d : 0 ≤ d < 10 → digit (digit_char d) = Some d.
Proof.
  intros Hd. unfold digit, digit_char.
  rewrite nat_ascii_embedding by lia. rewrite Z2Nat.id by lia.
  replace ((48 <=? 48 + d) && (48 + d <=? 57)) with true; [f_equal; lia|].
  symmetry. apply andb_true_iff. lia.
Qed.

Lemma digit_bounds c d : digit c = Some d → 0 ≤ d < 10.
Proof. unfold digit. intros H. break_all. bools. lia. Qed.

Lemma parse_digits_nonneg l acc n : 0 ≤ acc → parse_digits l acc = Some n → acc ≤ n.
Proof.
  revert acc. induction l as [|c l IH]; intros acc Hacc; simpl; [intros; simplify_eq; lia|].
  destruct (digit c) as [d|] eqn:Hd; [|done]. intros H.
  apply digit_bounds in Hd. apply IH in H; lia.
Qed.

(** The digits that [format_digits] writes read back as the number. *)
Lemma parse_format_digits fuel n acc :
  0 ≤ n < 10 ^ Z.of_nat fuel →
  ∀ k, parse_digits (format_digits fuel n acc) k
     = parse_digits acc (k * 10 ^ Z.of_nat (length (format_digits fuel n acc) - length acc) + n)
     ∧ (length acc < length (format_digits fuel n acc) ∨ fuel = 0%nat)%nat.
Proof.
  revert n acc. induction fuel as [|fuel IH]; intros n acc Hn k.
  { simpl. rewrite Nat.sub_diag. change (10 ^ Z.of_nat 0) with 1 in *. split; [|lia].
    f_equal. lia. }
  cbn [format_digits]. assert (Hm := Z.mod_pos_bound n 10 ltac:(lia)).
  destruct (Z.ltb_spec n 10) as [Hlt|Hge].
  - cbn [parse_digits length]. rewrite digit_digit_char by lia.
    rewrite Z.mod_small by lia. split; [|lia]. f_equal.
    replace (S (length acc) - length acc)%nat with 1%nat by lia. lia.
  - assert (Hfuel : fuel ≠ 0%nat).
    { intros ->. change (10 ^ Z.of_nat 1) with 10 in Hn. lia. }
    destruct (IH (n / 10) (digit_char (n mod 10) :: acc)) with (k := k) as [-> Hlen].
    { rewrite Nat2Z.inj_succ, Z.pow_succ_r in Hn by lia.
      split; [apply Z.div_pos; lia|apply Z.div_lt_upper_bound; lia]. }
    destruct Hlen as [Hlen|]; [|done]. cbn [parse_digits length] in *.
    rewrite digit_digit_char by lia. split; [|lia]. f_equal.
    set (m := length (format_digits fuel (n / 10) (digit_char (n mod 10) :: acc))) in *.
    replace (m - length acc)%nat with (S (m - S (length acc))) by lia.
    rewrite Nat2Z.inj_succ, Z.pow_succ_r by lia.
    pose proof (Z.div_mod n 10 ltac:(lia)). lia.
Qed.

(** Decimal text written for a non-negative [int64] reads back as the number. *)
Lemma ParseInt_FormatInt_nonneg v : 0 ≤ v ≤ max_int64 → ParseInt (FormatInt v) = Some v.
Proof.
  intros Hv. unfold max_int64 in Hv. unfold FormatInt, ParseInt.
  destruct (Z.ltb_spec v 0); [lia|]. rewrite chars_of_chars.
  pose proof (parse_format_digits 20 v [] ltac:(lia) 0) as [Hp Hlen].
  destruct (format_digits 20 v []) as [|c l] eqn:Hf; [simpl in Hlen; lia|].
  assert (∃ d, digit c = Some d) as [d Hd].
  { cbn [parse_digits] in Hp. destruct (digit c); [by eexists|done]. }
  assert (c ≠ "-"%char ∧ c ≠ "+"%char) as [Hm Hpl].
  { split; intros ->; done. }
  rewrite !bool_decide_eq_false_2 by done.
  rewrite Hp. cbn [parse_digits]. rewrite Z.mul_0_l, Z.add_0_l.
  unfold min_int64, max_int64.
  replace ((- 2 ^ 63 <=? v) && (v <=? 2 ^ 63 - 1)) with true; [done|].
  symmetry. apply andb_true_iff. lia.
Qed.

(** ** net/url *)

(** [url.URL], as far as the code reads it. *)
Record parsedURL := mkParsedURL {
  pu_Scheme : string;
  pu_Host : string;
  pu_Hostname : string;
  pu_Path : string;
  pu_Opaque : string;
  pu_RawPath : string;
  pu_RawQuery : string;
  pu_ForceQuery : bool;
  pu_Fragment : string;
  pu_User : bool;        (** the pointer is set *)
}.

(** * [time.ParseDuration] of Go's standard library, with its [uint64] overflow
    checks and its [float64] arithmetic for fractions (IEEE binary64 through the
    Standard Library's [SpecFloat]). *)

(** ** float64 *)

Definition float64 : Type := spec_float.
Definition float64_of_Z (n : Z) : float64 := binary_normalize 53 1024 n 0 false.
Definition float64_mul : float64 → float64 → float64 := SFmul 53 1024.
Definition float64_div : float64 → float64 → float64 := SFdiv 53 1024.
Definition float64_add : float64 → float64 → float64 := SFadd 53 1024.
Definition float64_sub : float64 → float64 → float64 := SFsub 53 1024.
Definition float64_lt : float64 → float64 → bool := SFltb.

(** Conversion of a finite non-negative [float64] to [uint64]: truncation. *)
Definition uint64_of_float64 (f : float64) : Z :=
  match f with
  | S754_finite false m e => Z.shiftl (Zpos m) e
  | _ => 0
  end.

(** ** Duration text *)

(** [leadingInt]: consumes digits; [None] is an overflow. *)
Fixpoint leadingInt (l : bytes) (x : Z) : option (Z * bytes) :=
  match l with
  | [] => Some (x, [])
  | c :: l' =>
    match digit c with
    | None => Some (x, l)
    | Some d =>
      if 2 ^ 63 / 10 <? x then None
      else let x := x * 10 + d in
           if 2 ^ 63 <? x then None else leadingInt l' x
    end
  end.

(** [leadingFraction]: digits beyond the precision are consumed and ignored. *)
Fixpoint leadingFraction (l : bytes) (x scale : Z) (overflow : bool) : Z * Z * bytes :=
  match l with
  | [] => (x, scale, [])
  | c :: l' =>
    match digit c with
    | None => (x, scale, l)
    | Some d =>
      if overflow then leadingFraction l' x scale true
      else if (2 ^ 63 - 1) / 10 <? x then leadingFraction l' x scale true
      else let y := x * 10 + d in
           if 2 ^ 63 <? y then leadingFraction l' x scale true
           else leadingFraction l' y (scale * 10) false
    end
  end.

Fixpoint take_unit (l : bytes) : bytes * bytes :=
  match l with
  | [] => ([], [])
  | c :: l' =>
    if (c =? "."%char) || (if digit c is Some _ then true else false) then ([], l)
    else let '(u, r) := take_unit l' in (c :: u, r)
  end.

Definition unitMap (u : bytes) : option duration :=
  if u =? chars "ns" then Some Nanosecond
  else if u =? chars "us" then Some Microsecond
  else if u =? map ascii_of_nat [194; 181; 115]%nat then Some Microsecond
  else if u =? map ascii_of_nat [206; 188; 115]%nat then Some Microsecond
  else if u =? chars "ms" then Some Millisecond
  else if u =? chars "s" then Some Second
  else if u =? chars "m" then Some Minute
  else if u =? chars "h" then Some Hour
  else None.

(** One [number unit] group: its value in nanoseconds and the rest of the text. *)
Definition duration_group (l : bytes) : option (Z * bytes) :=
  match l with
  | [] => None
  | c :: _ =>
    if negb ((c =? "."%char) || (if digit c is Some _ then true else false)) then None
    else match leadingInt l 0 with
    | None => None
    | Some (v, l1) =>
      let pre := negb (length l =? length l1)%nat in
      let '(f, scale, l2, post) :=
        match l1 with
        | d :: l1' =>
          if d =? "."%char then
            let '(f, scale, l2) := leadingFraction l1' 0 1 false in
            (f, scale, l2, negb (length l1' =? length l2)%nat)
          else (0, 1, l1, false)
        | [] => (0, 1, l1, false)
        end in
      if negb pre && negb post then None
      else let '(u, l3) := take_unit l2 in
      match u with
      | [] => None
      | _ =>
        match unitMap u with
        | None => None
        | Some unit =>
          if 2 ^ 63 / unit <? v then None
          else let v := v * unit in
          let v :=
            if 0 <? f then
              v + uint64_of_float64
                    (float64_mul (float64_of_Z f) (float64_div (float64_of_Z unit) (float64_of_Z scale)))
            else v in
          if (0 <? f) && (2 ^ 63 <? v) then None else Some (v, l3)
        end
      end
    end
  end.

(** The loop of [ParseDuration]; a group consumes at least one byte, so the
    length of the text bounds the number of rounds. *)
Fixpoint duration_groups (fuel : nat) (l : bytes) (d : Z) : option Z :=
  match l, fuel with
  | [], _ => Some d
  | _, O => None
  | _, S fuel =>
    match duration_group l with
    | None => None
    | Some (v, l) => let d := d + v in if 2 ^ 63 <? d then None else duration_groups fuel l d
    end
  end.

Definition ParseDuration (s : string) : option duration :=
  let '(neg, l) :=
    match chars s with
    | c :: l => if (c =? "-"%char) || (c =? "+"%char) then (c =? "-"%char, l) else (false, c :: l)
    | [] => (false, [])
    end in
  if l =? chars "0" then Some 0
  else match l with
  | [] => None
  | _ =>
    match duration_groups (length l) l 0 with
    | None => None
    | Some d =>
      if neg : bool then Some (- d)
      else if 2 ^ 63 - 1 <? d then None else Some d
    end
  end.

Example ParseDuration_10m : ParseDuration "10m" = Some (10 * Minute).
Proof. vm_compute. reflexivity. Qed.
Example ParseDuration_1h30 : ParseDuration "-1.5h30m.5s" = Some (- (120 * Minute + 500 * Millisecond)).
Proof. vm_compute. reflexivity. Qed.
Example ParseDuration_third : ParseDuration "0.3333333333333333333h" = Some 1200000000000.
Proof. vm_compute. reflexivity. Qed.
Example ParseDuration_plain : ParseDuration "10" = None.
Proof. vm_compute. reflexivity. Qed.

(** ** Times *)

(** [t.Sub(u)] saturates. *)
Definition Sub (t u : time) : duration := Z.max min_int64 (Z.min max_int64 (t - u)).

(** [time.Unix(seconds, 0)]; the internal seconds, which count from the year 1, wrap
    around. *)
Definition wrap64 (n : Z) : Z := (n + 2 ^ 63) mod 2 ^ 64 - 2 ^ 63.
Definition Unix (seconds : Z) : time := wrap64 (seconds + 62135596800) * Second - 62135596800 * Second.

(** [d.Seconds()] *)
Definition Seconds (d : duration) : float64 :=
  float64_add (float64_of_Z (Z.quot d Second)) (float64_div (float64_of_Z (Z.rem d Second)) (float64_of_Z Second)).
