(* ===== verification/Regex.v ===== *)
(** Anchored regular expressions, as [regexp.MatchString] decides them for the
    patterns of the program: byte classes, sequences, alternatives, options,
    counted and unbounded repetition between [^] and [$].  [re_match] takes
    Brzozowski derivatives; [re_match_spec] relates it to the language of the
    expression. *)

From S2P Require Import Prelude GoStd.

Inductive regex : Type :=
| RNone
| REps
| RClass (p : ascii → bool)
| RSeq (r1 r2 : regex)
| RAlt (r1 r2 : regex)
| RStar (r : regex).

Inductive matches : regex → bytes → Prop :=
| m_eps : matches REps []
| m_class p c : p c = true → matches (RClass p) [c]
| m_seq r1 r2 l1 l2 : matches r1 l1 → matches r2 l2 → matches (RSeq r1 r2) (l1 ++ l2)
| m_alt_l r1 r2 l : matches r1 l → matches (RAlt r1 r2) l
| m_alt_r r1 r2 l : matches r2 l → matches (RAlt r1 r2) l
| m_star_nil r : matches (RStar r) []
| m_star_cons r l1 l2 : matches r l1 → matches (RStar r) l2 → matches (RStar r) (l1 ++ l2).

(** [r?], [r+], and [r{0,n}], [r{n}]. *)
Definition ROpt (r : regex) : regex := RAlt REps r.
Definition RPlus (r : regex) : regex := RSeq r (RStar r).
Fixpoint RUpTo (n : nat) (r : regex) : regex :=
  match n with O => REps | S n => ROpt (RSeq r (RUpTo n r)) end.
Fixpoint RTimes (n : nat) (r : regex) : regex :=
  match n with O => REps | S n => RSeq r (RTimes n r) end.

Definition in_range (lo hi : ascii) (c : ascii) : bool :=
  ((nat_of_ascii lo <=? nat_of_ascii c) && (nat_of_ascii c <=? nat_of_ascii hi))%nat.
Definition is_upper (c : ascii) : bool := in_range "A" "Z" c.
Definition is_lower (c : ascii) : bool := in_range "a" "z" c.
Definition is_digit (c : ascii) : bool := in_range "0" "9" c.
Definition is_alnum (c : ascii) : bool := is_upper c || is_lower c || is_digit c.
Definition one_of (s : string) (c : ascii) : bool := existsb (λ d, c =? d) (chars s).

Fixpoint nullable (r : regex) : bool :=
  match r with
  | RNone | RClass _ => false
  | REps | RStar _ => true
  | RSeq r1 r2 => nullable r1 && nullable r2
  | RAlt r1 r2 => nullable r1 || nullable r2
  end.

(** Constructors that absorb [RNone] and [REps], so that derivatives stay small. *)
Definition mk_seq (r1 r2 : regex) : regex :=
  match r1, r2 with
  | RNone, _ => RNone
  | REps, r => r
  | r1, r2 => RSeq r1 r2
  end.
Definition mk_alt (r1 r2 : regex) : regex :=
  match r1, r2 with
  | RNone, r => r
  | r, RNone => r
  | r1, r2 => RAlt r1 r2
  end.

Fixpoint deriv (c : ascii) (r : regex) : regex :=
  match r with
  | RNone | REps => RNone
  | RClass p => if p c then REps else RNone
  | RSeq r1 r2 =>
    let d := mk_seq (deriv c r1) r2 in
    if nullable r1 then mk_alt d (deriv c r2) else d
  | RAlt r1 r2 => mk_alt (deriv c r1) (deriv c r2)
  | RStar r => mk_seq (deriv c r) (RStar r)
  end.

Fixpoint re_match_bytes (r : regex) (l : bytes) : bool :=
  match l with
  | [] => nullable r
  | c :: l => re_match_bytes (deriv c r) l
  end.
Definition re_match (r : regex) (s : string) : bool := re_match_bytes r (chars s).

Lemma nullable_spec r : nullable r = true ↔ matches r [].
Proof.
  induction r as [| |p|r1 IH1 r2 IH2|r1 IH1 r2 IH2|r IH]; simpl.
  - split; [done|]. inversion 1.
  - split; [constructor|done].
  - split; [done|]. inversion 1.
  - rewrite andb_true_iff, IH1, IH2. split.
    + intros [H1 H2]. by apply (m_seq _ _ [] []).
    + inversion 1 as [| |? ? l1 l2 ? ? Ha Hb| | | |]; subst.
      destruct l1, l2; done.
  - rewrite orb_true_iff, IH1, IH2. split.
    + intros []; by constructor.
    + inversion 1; auto.
  - split; [constructor|done].
Qed.

Lemma mk_seq_spec r1 r2 l : matches (mk_seq r1 r2) l ↔ matches (RSeq r1 r2) l.
Proof.
  destruct r1; simpl; try done.
  - split; [inversion 1|]. inversion 1 as [| |? ? ? ? Ha| | | |]; inversion Ha.
  - split; [apply (m_seq REps _ [])|]; [constructor|].
    inversion 1 as [| |? ? ? ? Ha| | | |]; by inversion Ha.
Qed.

Lemma mk_alt_spec r1 r2 l : matches (mk_alt r1 r2) l ↔ matches (RAlt r1 r2) l.
Proof.
  assert (Hl : ∀ r, matches (RAlt RNone r) l ↔ matches r l).
  { split; [|apply m_alt_r]. inversion 1 as [| | |? ? ? Ha| | |]; [inversion Ha|done]. }
  assert (Hr : ∀ r, matches (RAlt r RNone) l ↔ matches r l).
  { split; [|apply m_alt_l]. inversion 1 as [| | | |? ? ? Ha| |]; [done|inversion Ha]. }
  destruct r1, r2; cbn [mk_alt]; rewrite ?Hl, ?Hr; done.
Qed.

Lemma matches_seq_cons c r1 r2 l :
  matches (RSeq r1 r2) (c :: l) ↔
  (matches r1 [] ∧ matches r2 (c :: l)) ∨
  (∃ l1 l2, l = l1 ++ l2 ∧ matches r1 (c :: l1) ∧ matches r2 l2).
Proof.
  split.
  - inversion 1 as [| |? ? l1 l2 Ha Hb Hc| | | |]; subst.
    destruct l1 as [|d l1]; simplify_eq/=; [by left|]. right. eauto.
  - intros [[H1 H2]|(l1 & l2 & -> & H1 & H2)].
    + by apply (m_seq _ _ []).
    + by apply (m_seq _ _ (c :: l1)).
Qed.

Lemma matches_star_cons c r l :
  matches (RStar r) (c :: l) ↔
  ∃ l1 l2, l = l1 ++ l2 ∧ matches r (c :: l1) ∧ matches (RStar r) l2.
Proof.
  split.
  - intros H. remember (RStar r) as r' eqn:Hr. remember (c :: l) as l' eqn:Hl.
    revert Hr l Hl. induction H as [| | | | | |r1 l1 l2 H1 _ H2 IH]; intros; simplify_eq/=.
    destruct l1 as [|d l1]; simplify_eq/=; [eauto|]. eauto.
  - intros (l1 & l2 & -> & H1 & H2). by apply (m_star_cons _ (c :: l1)).
Qed.

Lemma deriv_spec c r l : matches (deriv c r) l ↔ matches r (c :: l).
Proof.
  revert l. induction r as [| |p|r1 IH1 r2 IH2|r1 IH1 r2 IH2|r IH]; intros l; cbn [deriv].
  - split; inversion 1.
  - split; inversion 1.
  - destruct (p c) eqn:Hp.
    + split; inversion 1; subst; by constructor.
    + split; inversion 1; congruence.
  - rewrite matches_seq_cons, <-nullable_spec.
    assert (Hs : matches (mk_seq (deriv c r1) r2) l ↔
      ∃ l1 l2, l = l1 ++ l2 ∧ matches r1 (c :: l1) ∧ matches r2 l2).
    { rewrite mk_seq_spec. split.
      - inversion 1 as [| |? ? l1 l2 Ha Hb| | | |]; subst. exists l1, l2. by rewrite <-IH1.
      - intros (l1 & l2 & -> & H1%IH1 & H2). by constructor. }
    destruct (nullable r1).
    + rewrite mk_alt_spec, <-Hs, <-IH2. split.
      * inversion 1; auto.
      * intros [[_ ?]|?]; by constructor.
    + rewrite Hs. split; [by right|]. by intros [[? _]|].
  - rewrite mk_alt_spec. split.
    + inversion 1; subst; constructor; by (apply IH1 || apply IH2).
    + inversion 1; subst; constructor; by (apply IH1 || apply IH2).
  - rewrite mk_seq_spec, matches_star_cons. split.
    + inversion 1 as [| |? ? l1 l2 Ha Hb| | | |]; subst. exists l1, l2. by rewrite <-IH.
    + intros (l1 & l2 & -> & H1%IH & H2). by constructor.
Qed.

(** The matcher decides membership in the language of the expression. *)
Lemma re_match_bytes_spec r l : re_match_bytes r l = true ↔ matches r l.
Proof.
  revert r. induction l as [|c l IH]; intros r; simpl.
  - apply nullable_spec.
  - by rewrite IH, deriv_spec.
Qed.

Lemma re_match_spec r s : re_match r s = true ↔ matches r (chars s).
Proof. apply re_match_bytes_spec. Qed.

(** Every byte of a match lies in the alphabet of the expression. *)
Fixpoint over (P : ascii → Prop) (r : regex) : Prop :=
  match r with
  | RNone | REps => True
  | RClass p => ∀ c, p c = true → P c
  | RSeq r1 r2 | RAlt r1 r2 => over P r1 ∧ over P r2
  | RStar r => over P r
  end.

Lemma matches_over P r l : over P r → matches r l → Forall P l.
Proof.
  intros Ho H. revert Ho. induction H; simpl; intros Ho; try (by constructor); destruct_and?.
  - constructor; auto.
  - apply Forall_app; auto.
  - auto.
  - auto.
  - apply Forall_app; auto.
Qed.

Lemma over_upto P n p : (∀ c, p c = true → P c) → over P (RUpTo n (RClass p)).
Proof. intros HP. induction n; simpl; auto. Qed.
Lemma over_times P n p : (∀ c, p c = true → P c) → over P (RTimes n (RClass p)).
Proof. intros HP. induction n; simpl; auto. Qed.

Lemma matches_upto_length n p l : matches (RUpTo n (RClass p)) l → (length l ≤ n)%nat.
Proof.
  revert l. induction n as [|n IH]; intros l; simpl; [inversion 1; simpl; lia|].
  inversion 1 as [| | |? ? ? Ha|? ? ? Ha| |]; subst; [inversion Ha; simpl; lia|].
  inversion Ha as [| |? ? l1 l2 Hc Hr| | | |]; subst. inversion Hc; subst.
  apply IH in Hr. simpl. lia.
Qed.

Lemma matches_times_length n p l : matches (RTimes n (RClass p)) l → length l = n.
Proof.
  revert l. induction n as [|n IH]; intros l; simpl; [by inversion 1|].
  inversion 1 as [| |? ? l1 l2 Hc Hr| | | |]; subst. inversion Hc; subst.
  apply IH in Hr. simpl. lia.
Qed.

(** Proofs go through [re_match_spec]; [vm_compute] still evaluates the matcher. *)
#[global] Opaque re_match.
