(* ===== verification/Pipeline.v ===== *)
(** internal/pipeline: the data model of pipeline v1 (types.go). *)

From S2P Require Import Prelude GoStd.

(** A Go map is a [gmap]; a map that the code compares with [nil] is an [option]. *)

Record Concurrency := mkConcurrency {
  cc_Group : string;
  cc_Limit : Z;
  cc_CancelPrevious : bool;
}.

Record Trigger := mkTrigger {
  tr_Event : string;
  tr_Branches : list string;
  tr_Paths : list string;
}.

Record Service := mkService {
  sv_Name : string;
  sv_Image : string;
  sv_Environment : gmap string string;
}.

Record Step := mkStep {
  sp_Name : string;
  sp_Image : string;
  sp_Commands : list string;
  sp_WorkingDir : string;
  sp_Environment : gmap string string;
  sp_Timeout : string;
}.

Record Resources := mkResources {
  rs_CPU : string;
  rs_Memory : string;
  rs_PIDs : Z;
  rs_Disk : string;
  rs_Privileged : bool;
}.

Record RunnerRequirements := mkRequirements {
  rr_OS : string;
  rr_Architecture : string;
  rr_Executor : string;
  rr_Labels : option (gmap string string);
}.

Record Job := mkJob {
  jb_Name : string;
  jb_Image : string;
  jb_DependsOn : list string;
  jb_Timeout : string;
  jb_Retry : Z;
  jb_Environment : gmap string string;
  jb_Secrets : list string;
  jb_Services : list Service;
  jb_Matrix : gmap string (list string);
  jb_Resources : Resources;
  jb_RunsOn : RunnerRequirements;
  jb_Steps : list Step;
}.

Record Stage := mkStage {
  sg_Name : string;
  sg_DependsOn : list string;
  sg_Jobs : list Job;
}.

Record Pipeline := mkPipeline {
  pl_Version : string;
  pl_Name : string;
  pl_Concurrency : option Concurrency;
  pl_Triggers : list Trigger;
  pl_Environment : gmap string string;
  pl_Stages : list Stage;
}.

Record PlanJob := mkPlanJob {
  pj_Name : string;
  pj_Image : string;
  pj_DependsOn : list string;
  pj_Timeout : duration;
  pj_Retry : Z;
  pj_Matrix : gmap string (list string);
  pj_Environment : gmap string string;
  pj_Services : list Service;
  pj_Resources : Resources;
  pj_RunsOn : RunnerRequirements;
  pj_RequiredDiskBytes : Z;
  pj_Secrets : list string;
  pj_Steps : list Step;
}.

Record PlanStage := mkPlanStage {
  ps_Name : string;
  ps_DependsOn : list string;
  ps_Jobs : list PlanJob;
}.

Record Plan := mkPlan {
  pn_Version : string;
  pn_Name : string;
  pn_ConfigSHA256 : string;
  pn_CompiledAt : time;
  pn_Stages : list PlanStage;
}.

Definition APIVersion : string := "v1".

(** The labels as the code reads them: a nil map has no entry. *)
Definition labels_of (r : RunnerRequirements) : gmap string string := default ∅ (rr_Labels r).

#[export] Instance Service_eq_dec : EqDecision Service.
Proof. solve_decision. Defined.
#[export] Instance Step_eq_dec : EqDecision Step.
Proof. solve_decision. Defined.
#[export] Instance Resources_eq_dec : EqDecision Resources.
Proof. solve_decision. Defined.
#[export] Instance RunnerRequirements_eq_dec : EqDecision RunnerRequirements.
Proof. solve_decision. Defined.
#[export] Instance PlanJob_eq_dec : EqDecision PlanJob.
Proof. solve_decision. Defined.
