(* ===== verification/Graph.v ===== *)
(** internal/pipeline/compiler.go, [hasCycle]: depth-first search with three
    colours over a dependency graph, and its correctness: the search terminates
    and answers [true] exactly on cyclic graphs, whatever the iteration order. *)

From stdpp Require Import relations.
From S2P Require Import Prelude.

Abbreviation graph := (gmap string (list string)).

(** The map [state]: an absent node is [unseen]. *)
Inductive color := visiting | visited.
#[export] Instance color_eq_dec : EqDecision color.
Proof. solve_decision. Defined.
Abbreviation colors := (gmap string color).

(** [graph[node]]: a missing node has no successor. *)
Definition successors (g : graph) (n : string) : list string := default [] (g !! n).

(** [for _, next := range ns { if visit(next) { return true } }]; [None] is
    exhausted fuel. *)
Fixpoint visit_all (visit : string → colors → option (bool * colors))
    (ns : list string) (state : colors) : option (bool * colors) :=
  match ns with
  | [] => Some (false, state)
  | n :: ns =>
    match visit n state with
    | Some (false, state) => visit_all visit ns state
    | r => r
    end
  end.

Fixpoint visit (g : graph) (fuel : nat) (node : string) (state : colors) : option (bool * colors) :=
  match state !! node with
  | Some visiting => Some (true, state)
  | Some visited => Some (false, state)
  | None =>
    match fuel with
    | O => None
    | S fuel =>
      match visit_all (visit g fuel) (successors g node) (<[node := visiting]> state) with
      | Some (false, state) => Some (false, <[node := visited]> state)
      | r => r
      end
    end
  end.

(** Every node that the graph mentions, as a key or as a successor. *)
Definition nodes (g : graph) : gset string :=
  dom g ∪ list_to_set (mjoin (snd <$> map_to_list g)).

(** The search from every key.  A recursive call colours an unseen node, so the
    number of nodes bounds the depth of the recursion. *)
Definition search `{MapOrder} (g : graph) : option (bool * colors) :=
  visit_all (visit g (size (nodes g))) (fst <$> range g) ∅.
Definition hasCycle `{MapOrder} (g : graph) : bool :=
  match search g with Some (b, _) => b | None => true end.

(** *** Specification *)

Definition edge (g : graph) (a b : string) : Prop := b ∈ successors g a.
Definition cyclic (g : graph) : Prop := ∃ n, tc (edge g) n n.
(** [a] comes after [b]: every chain of dependencies that starts in [a] is finite. *)
Definition settled (g : graph) : string → Prop := Acc (flip (edge g)).

Lemma settled_not_cyclic g n : settled g n → ¬ tc (edge g) n n.
Proof.
  induction 1 as [n _ IH]. intros Hc.
  inversion Hc as [? ? He|? m ? He Hr]; subst.
  - by apply (IH n He).
  - apply (IH m He). eapply tc_r; [exact Hr|done].
Qed.

Section Search.
Context (g : graph).

(** Nodes on the recursion stack reach [n]. *)
Definition stack_reaches (state : colors) (n : string) : Prop :=
  ∀ v, state !! v = Some visiting → tc (edge g) v n.
Definition visited_settled (state : colors) : Prop :=
  ∀ v, state !! v = Some visited → settled g v.
(** What a call that answers [false] leaves: the same stack, and no visited
    node forgotten. *)
Definition extends (s s' : colors) : Prop :=
  (∀ v, s' !! v = Some visiting ↔ s !! v = Some visiting) ∧
  (∀ v, s !! v = Some visited → s' !! v = Some visited).

Lemma extends_refl s : extends s s.
Proof. done. Qed.
Lemma extends_trans s1 s2 s3 : extends s1 s2 → extends s2 s3 → extends s1 s3.
Proof. intros [H1 H2] [H3 H4]. split; [|auto]. intros v. by rewrite H3, H1. Qed.

(** The contract of one call of the closure [visit]. *)
Definition visit_ok (n : string) (s : colors) (r : option (bool * colors)) : Prop :=
  match r with
  | Some (true, _) => cyclic g
  | Some (false, s') => s' !! n = Some visited ∧ visited_settled s' ∧ extends s s'
  | None => True
  end.

Lemma visit_all_ok f ns s :
  (∀ n s, n ∈ ns → stack_reaches s n → visited_settled s → visit_ok n s (f n s)) →
  (∀ n, n ∈ ns → stack_reaches s n) → visited_settled s →
  match visit_all f ns s with
  | Some (true, _) => cyclic g
  | Some (false, s') =>
    (∀ n, n ∈ ns → s' !! n = Some visited) ∧ visited_settled s' ∧ extends s s'
  | None => True
  end.
Proof.
  intros Hf. revert s. induction ns as [|n ns IH]; intros s Hs Hv; simpl.
  { split; [|split]; [|done|apply extends_refl]. by intros n ?%not_elem_of_nil. }
  pose proof (Hf n s ltac:(left) (Hs n ltac:(left)) Hv) as Hn.
  destruct (f n s) as [[[] s1]|]; simpl in Hn; [done| |done].
  destruct Hn as (Hn & Hv1 & He).
  assert (Hs1 : ∀ m, m ∈ ns → stack_reaches s1 m).
  { intros m Hm v Hv'. apply Hs; [by right|]. by apply He. }
  specialize (IH (λ n s H, Hf n s ltac:(by right)) s1 Hs1 Hv1).
  destruct (visit_all f ns s1) as [[[] s2]|]; [done| |done].
  destruct IH as (Hall & Hv2 & He2). split; [|split]; [|done|by eapply extends_trans].
  intros m [->|Hm]%elem_of_cons; [by apply He2|auto].
Qed.

Lemma push_stack s n m :
  s !! n = None → stack_reaches s n → m ∈ successors g n →
  stack_reaches (<[n := visiting]> s) m.
Proof.
  intros Hn Hs Hm v. destruct (decide (v = n)) as [->|Hne]; [by constructor|].
  rewrite lookup_insert_ne by done. intros Hvis. eapply tc_r; [by apply Hs|done].
Qed.

Lemma push_visited s n : visited_settled s → visited_settled (<[n := visiting]> s).
Proof.
  intros Hv v. destruct (decide (v = n)) as [->|]; [by rewrite lookup_insert_eq|].
  rewrite lookup_insert_ne by done. apply Hv.
Qed.

Lemma pop_ok s s' n :
  s !! n = None → (∀ m, m ∈ successors g n → s' !! m = Some visited) →
  visited_settled s' → extends (<[n := visiting]> s) s' →
  visit_ok n s (Some (false, <[n := visited]> s')).
Proof.
  intros Hn Hsucc Hv' [Hvis Hold]. simpl. rewrite lookup_insert_eq. split; [done|]. split.
  - intros v. destruct (decide (v = n)) as [->|Hne].
    + intros _. constructor. intros m Hm. apply Hv', Hsucc. exact Hm.
    + rewrite lookup_insert_ne by done. apply Hv'.
  - split; intros v; specialize (Hvis v); specialize (Hold v); revert Hvis Hold;
      (destruct (decide (v = n)) as [->|Hne];
       [rewrite ?lookup_insert_eq, ?Hn; naive_solver|by rewrite !lookup_insert_ne by done]).
Qed.

Lemma visit_sound fuel n s :
  stack_reaches s n → visited_settled s → visit_ok n s (visit g fuel n s).
Proof.
  revert n s. induction fuel as [|fuel IH]; intros n s Hs Hv; simpl;
    (destruct (s !! n) as [[]|] eqn:Hn;
     [exists n; by apply Hs|by split; [|split; [|apply extends_refl]]|]); [done|].
  pose proof (visit_all_ok (visit g fuel) (successors g n) (<[n:=visiting]> s)
    (λ m s1 _, IH m s1) (λ m, push_stack s n m Hn Hs) (push_visited s n Hv)) as Hall.
  destruct (visit_all _ _ _) as [[[] s']|]; [done| |done].
  destruct Hall as (Hsucc & Hv' & He). by apply pop_ok.
Qed.

(** *** Termination *)

Lemma elem_of_nodes_key n ns : g !! n = Some ns → n ∈ nodes g.
Proof. intros H. apply elem_of_union_l. by eapply elem_of_dom_2. Qed.

Lemma elem_of_nodes_succ n m : m ∈ successors g n → m ∈ nodes g.
Proof.
  unfold successors. destruct (g !! n) as [ns|] eqn:Hn; simpl; [|by intros ?%not_elem_of_nil].
  intros Hm. apply elem_of_union_r, elem_of_list_to_set, list_elem_of_join.
  exists ns. split; [done|]. apply list_elem_of_fmap. exists (n, ns). split; [done|].
  by apply elem_of_map_to_list.
Qed.

Definition unseen (s : colors) : nat := size (nodes g ∖ dom s).

Lemma unseen_mono s s' : dom s ⊆ dom s' → (unseen s' ≤ unseen s)%nat.
Proof. intros H. unfold unseen. apply subseteq_size. set_solver. Qed.

Lemma unseen_insert s n c :
  n ∈ nodes g → s !! n = None → (unseen (<[n := c]> s) < unseen s)%nat.
Proof.
  intros Hn Hs%not_elem_of_dom. unfold unseen. apply subset_size.
  rewrite dom_insert_L. set_solver.
Qed.

Definition grows (s : colors) (r : option (bool * colors)) : Prop :=
  match r with Some (_, s') => dom s ⊆ dom s' | None => False end.

Lemma visit_all_grows f ns s k :
  (∀ n s, n ∈ ns → (unseen s ≤ k)%nat → grows s (f n s)) →
  (unseen s ≤ k)%nat → grows s (visit_all f ns s).
Proof.
  intros Hf. revert s. induction ns as [|n ns IH]; intros s Hk; simpl; [set_solver|].
  pose proof (Hf n s ltac:(left) Hk) as Hn.
  destruct (f n s) as [[[] s1]|]; simpl in *; [done| |done].
  assert (Hk1 : (unseen s1 ≤ k)%nat) by (etransitivity; [by apply unseen_mono|done]).
  specialize (IH (λ n s H, Hf n s ltac:(by right)) s1 Hk1).
  destruct (visit_all f ns s1) as [[? s2]|]; simpl in *; [set_solver|done].
Qed.

Lemma visit_grows fuel n s :
  n ∈ nodes g → (unseen s ≤ fuel)%nat → grows s (visit g fuel n s).
Proof.
  revert n s. induction fuel as [|fuel IH]; intros n s Hn Hk; simpl;
    destruct (s !! n) as [[]|] eqn:Hs; try (simpl; set_solver).
  - pose proof (unseen_insert s n visiting Hn Hs). lia.
  - pose proof (unseen_insert s n visiting Hn Hs) as Hlt.
    pose proof (visit_all_grows (visit g fuel) (successors g n) (<[n:=visiting]> s) fuel) as Hg.
    assert (dom s ⊆ dom (<[n:=visiting]> s)) by (rewrite dom_insert_L; set_solver).
    destruct (visit_all _ _ _) as [[[] s']|]; simpl in *;
      [| |apply Hg; [|lia]; intros m s1 Hm; apply IH; by eapply elem_of_nodes_succ].
    + etransitivity; [done|]. apply Hg; [|lia].
      intros m s1 Hm. apply IH. by eapply elem_of_nodes_succ.
    + rewrite dom_insert_L. etransitivity; [|apply union_subseteq_r].
      etransitivity; [done|]. apply Hg; [|lia].
      intros m s1 Hm. apply IH. by eapply elem_of_nodes_succ.
Qed.
End Search.

(** The fuel is enough: the search always produces an answer. *)
Lemma search_total `{MapOrder} g : ∃ b s, search g = Some (b, s).
Proof.
  pose proof (visit_all_grows g (visit g (size (nodes g))) (fst <$> range g) ∅ (size (nodes g))) as Hg.
  unfold search. destruct (visit_all _ _ _) as [[b s]|]; [by eauto|]. exfalso. apply Hg.
  - intros n s Hn. apply visit_grows. apply list_elem_of_fmap in Hn as ([k ns] & -> & Hk).
    by eapply elem_of_nodes_key, elem_of_range.
  - unfold unseen. apply subseteq_size. set_solver.
Qed.

Lemma hasCycle_true `{MapOrder} g : hasCycle g = true → cyclic g.
Proof.
  intros Hc. unfold hasCycle in Hc. destruct (search_total g) as (b & s & Hr).
  rewrite Hr in Hc. subst b.
  pose proof (visit_all_ok g (visit g (size (nodes g))) (fst <$> range g) ∅) as Hok.
  unfold search in Hr. rewrite Hr in Hok. apply Hok.
  - intros. by apply visit_sound.
  - intros n _ v. by rewrite lookup_empty.
  - intros v. by rewrite lookup_empty.
Qed.

Lemma hasCycle_false `{MapOrder} g : hasCycle g = false → ∀ n, settled g n.
Proof.
  intros Hc. unfold hasCycle in Hc. destruct (search_total g) as (b & s & Hr).
  rewrite Hr in Hc. subst b.
  pose proof (visit_all_ok g (visit g (size (nodes g))) (fst <$> range g) ∅) as Hok.
  unfold search in Hr. rewrite Hr in Hok. destruct Hok as (Hall & Hv & _).
  - intros. by apply visit_sound.
  - intros n _ v. by rewrite lookup_empty.
  - intros v. by rewrite lookup_empty.
  - intros n. destruct (g !! n) as [ns|] eqn:Hn.
    + apply Hv, Hall, list_elem_of_fmap. exists (n, ns). split; [done|]. by apply elem_of_range.
    + constructor. intros m Hm. unfold flip, edge, successors in Hm. rewrite Hn in Hm.
      by apply not_elem_of_nil in Hm.
Qed.

Lemma hasCycle_false_iff `{MapOrder} g : hasCycle g = false ↔ ∀ n, settled g n.
Proof.
  split; [apply hasCycle_false|]. intros Hs. destruct (hasCycle g) eqn:Hc; [|done].
  destruct (hasCycle_true g Hc) as [n Hn]. by destruct (settled_not_cyclic g n (Hs n)).
Qed.
