(* ===== verification/Compiler.v ===== *)
(** internal/pipeline/compiler.go: validation and compilation of pipeline v1. *)

From S2P Require Import Prelude GoStd Regex Pipeline Graph.

(** [^[a-zA-Z0-9][a-zA-Z0-9._-]{0,62}$] *)
Definition namePattern : regex :=
  RSeq (RClass is_alnum) (RUpTo 62 (RClass (λ c, is_alnum c || one_of "._-" c))).
(** [^[A-Za-z0-9][A-Za-z0-9._/-]{0,127}$] *)
Definition runnerLabelPattern : regex :=
  RSeq (RClass is_alnum) (RUpTo 127 (RClass (λ c, is_alnum c || one_of "._/-" c))).
(** [^[A-Za-z_][A-Za-z0-9_]*$] *)
Definition environmentNamePattern : regex :=
  RSeq (RClass (λ c, is_upper c || is_lower c || one_of "_" c))
       (RStar (RClass (λ c, is_alnum c || one_of "_" c))).

(** ** Errors *)

Record ValidationError := mkValidationError { ve_Path : string; ve_Message : string }.
Abbreviation ValidationErrors := (list ValidationError).

Definition ValidationError_Error (e : ValidationError) : string :=
  if ve_Path e =? "" then ve_Message e else ve_Path e +:+ ": " +:+ ve_Message e.
Definition ValidationErrors_Error (e : ValidationErrors) : string :=
  Join (ValidationError_Error <$> e) "; ".

(** [fmt.Sprintf("%s[%d]", path, i)] *)
Definition indexed (path : string) (i : nat) : string :=
  path +:+ "[" +:+ FormatInt (Z.of_nat i) +:+ "]".

(** The verb [%q] on ASCII text; bytes outside ASCII are copied. *)
Definition quote_byte (c : ascii) : bytes :=
  let n := nat_of_ascii c in
  let hex d := if (d <? 10)%nat then ascii_of_nat (48 + d) else ascii_of_nat (87 + d) in
  if (n =? 34)%nat || (n =? 92)%nat then ["\"%char; c]
  else match n with
  | 7%nat => ["\"; "a"]%char
  | 8%nat => ["\"; "b"]%char
  | 9%nat => ["\"; "t"]%char
  | 10%nat => ["\"; "n"]%char
  | 11%nat => ["\"; "v"]%char
  | 12%nat => ["\"; "f"]%char
  | 13%nat => ["\"; "r"]%char
  | _ => if ((n <? 32) || (n =? 127))%nat
         then ["\"; "x"]%char ++ [hex (n / 16)%nat; hex (n mod 16)%nat] else [c]
  end.
Definition quoted (s : string) : string :=
  of_chars ([ascii_of_nat 34] ++ mjoin (quote_byte <$> chars s) ++ [ascii_of_nat 34]).

(** ** Sizes and timeouts *)

Definition units : list (string * Z) :=
  [("TIB", 2 ^ 40); ("GIB", 2 ^ 30); ("MIB", 2 ^ 20); ("KIB", 2 ^ 10);
   ("TB", 1000000000000); ("GB", 1000000000); ("MB", 1000000); ("KB", 1000)].

Fixpoint parse_with_units (us : list (string * Z)) (upper : string) : result string Z :=
  match us with
  | [] =>
    match ParseInt upper with
    | Some value =>
      if (value <? 0) || (2 ^ 50 <? value)
      then Err "must use bytes or KB/MB/GB/TB/KiB/MiB/GiB/TiB" else Ok value
    | None => Err "must use bytes or KB/MB/GB/TB/KiB/MiB/GiB/TiB"
    end
  | (suffix, multiplier) :: us =>
    if HasSuffix upper suffix then
      match ParseInt (TrimSpace (TrimSuffix upper suffix)) with
      | Some value =>
        if (value <? 0) || (2 ^ 50 / multiplier <? value)
        then Err "must be a non-negative size no larger than 1 PiB"
        else Ok (wrap64 (value * multiplier))
      | None => Err "must be a non-negative size no larger than 1 PiB"
      end
    else parse_with_units us upper
  end.

Definition parseByteSize (raw : string) : result string Z :=
  if raw =? "" then Ok 0 else parse_with_units units (ToUpper (TrimSpace raw)).

Definition parseTimeout (raw : string) : result string duration :=
  if raw =? "" then Ok (30 * Minute)
  else match ParseDuration raw with
  | None => Err "must be a Go duration such as 10m or 1h"
  | Some value =>
    if (value <? Second) || (24 * Hour <? value) then Err "must be between 1s and 24h" else Ok value
  end.

(** ** Validation *)

Section Validate.
Context `{MapOrder}.

Definition env_valid (kv : string * string) : bool :=
  let '(key, value) := kv in
  negb (negb (re_match environmentNamePattern key) || (128 <? len key) || (32768 <? len value)
        || ContainsRune value (ascii_of_nat 0)).

(** The loop of [ValidateServices]; [names] holds the lower-case aliases seen. *)
Fixpoint validate_services (i : nat) (names : gset string) (services : list Service)
    : ValidationErrors :=
  match services with
  | [] => []
  | service :: services =>
    let path := indexed "services" i in
    let alias := ToLower (sv_Name service) in
    let image := sv_Image service in
    (if negb (re_match namePattern (sv_Name service)) || bool_decide (alias ∈ names)
     then [mkValidationError (path +:+ ".name") "must be valid and unique within the job (case insensitive)"]
     else []) ++
    (if (image =? "") || (512 <? len image) || HasPrefix image "-"
        || ContainsAny image (of_chars (map ascii_of_nat [32; 9; 13; 10; 0]%nat))
     then [mkValidationError (path +:+ ".image") "must be a non-empty image reference, not an option"]
     else []) ++
    (if 128 <? Z.of_nat (size (sv_Environment service))
     then [mkValidationError (path +:+ ".environment") "must contain at most 128 variables"]
     else []) ++
    (if existsb (λ kv, negb (env_valid kv)) (range (sv_Environment service))
     then [mkValidationError (path +:+ ".environment") "contains an invalid variable"]
     else []) ++
    validate_services (S i) ({[alias]} ∪ names) services
  end.

Definition ValidateServices (services : list Service) : ValidationErrors :=
  if 16 <? Z.of_nat (length services)
  then [mkValidationError "services" "must contain at most 16 services"]
  else validate_services 0 ∅ services.

Definition validateDependencies (path : string) (names : gset string)
    (dependencies : gmap string (list string)) : ValidationErrors :=
  mjoin ((λ '(name, values),
    mjoin ((λ dependency,
      if dependency =? name
      then [mkValidationError (path +:+ "." +:+ name +:+ ".depends_on") "cannot depend on itself"]
      else if bool_decide (dependency ∈ names) then []
      else [mkValidationError (path +:+ "." +:+ name +:+ ".depends_on")
              ("references unknown dependency " +:+ quoted dependency)]) <$> (values : list string)))
    <$> range dependencies) ++
  (if hasCycle dependencies then [mkValidationError path "dependency graph contains a cycle"] else []).

Definition validate_step (jobPath : string) (job : Job) (j : nat) (step : Step) : ValidationErrors :=
  let stepPath := indexed (jobPath +:+ ".steps") j in
  (if negb (re_match namePattern (sp_Name step))
   then [mkValidationError (stepPath +:+ ".name") "is invalid"] else []) ++
  (if (sp_Image step =? "") && (jb_Image job =? "")
   then [mkValidationError (stepPath +:+ ".image") "is required when the job has no default image"] else []) ++
  (if (length (sp_Commands step) =? 0)%nat
   then [mkValidationError (stepPath +:+ ".commands") "must not be empty"] else []).

(** One turn of the loop over [{"os", "architecture", "executor"}]. *)
Definition validate_requirement (jobPath field value : string) : ValidationErrors :=
  if (64 <? len value) || ((value <>? "") && negb (re_match namePattern value))
  then [mkValidationError (jobPath +:+ ".runs_on." +:+ field) "is invalid"] else [].

(** The body of the loop of [validateJobs] after the name checks. *)
Definition validate_job_body (jobPath : string) (job : Job) : ValidationErrors :=
  ((λ problem, mkValidationError (jobPath +:+ "." +:+ ve_Path problem) (ve_Message problem))
    <$> ValidateServices (jb_Services job)) ++
  (if (length (jb_Steps job) =? 0)%nat
   then [mkValidationError (jobPath +:+ ".steps") "must contain at least one step"] else []) ++
  (if (jb_Retry job <? 0) || (5 <? jb_Retry job)
   then [mkValidationError (jobPath +:+ ".retry") "must be between 0 and 5"] else []) ++
  (if rs_Privileged (jb_Resources job)
   then [mkValidationError (jobPath +:+ ".resources.privileged")
           "is forbidden in pipeline v1; use an administrator-approved runner policy"] else []) ++
  (match parseByteSize (rs_Disk (jb_Resources job)) with
   | Err e => [mkValidationError (jobPath +:+ ".resources.disk") e] | Ok _ => [] end) ++
  mjoin ((λ '(field, value), validate_requirement jobPath field value) <$>
    range (list_to_map [("os", rr_OS (jb_RunsOn job));
                        ("architecture", rr_Architecture (jb_RunsOn job));
                        ("executor", rr_Executor (jb_RunsOn job))] : gmap string string)) ++
  (if 64 <? Z.of_nat (size (labels_of (jb_RunsOn job)))
   then [mkValidationError (jobPath +:+ ".runs_on.labels") "must contain at most 64 labels"] else []) ++
  (if existsb (λ '(key, value), (256 <? len value) || negb (re_match runnerLabelPattern key))
              (range (labels_of (jb_RunsOn job)))
   then [mkValidationError (jobPath +:+ ".runs_on.labels") "contains an invalid label"] else []) ++
  (if jb_Timeout job <>? ""
   then match parseTimeout (jb_Timeout job) with
        | Err e => [mkValidationError (jobPath +:+ ".timeout") e] | Ok _ => [] end
   else []) ++
  mjoin (imap (validate_step jobPath job) (jb_Steps job)).

(** The loops over named elements: an invalid name or a repeated one is a
    problem, and the name enters the set either way. *)
Fixpoint validate_named {A} (name : A → string) (problem : nat → string → ValidationErrors)
    (body : nat → A → ValidationErrors) (duplicate : string) (i : nat) (names : gset string)
    (l : list A) : ValidationErrors :=
  match l with
  | [] => []
  | x :: l =>
    (if negb (re_match namePattern (name x)) then problem i "is invalid"
     else if bool_decide (name x ∈ names) then problem i duplicate else []) ++
    body i x ++
    validate_named name problem body duplicate (S i) ({[name x]} ∪ names) l
  end.

Definition job_deps (jobs : list Job) : gmap string (list string) :=
  foldl (λ deps job, <[jb_Name job := jb_DependsOn job]> deps) ∅ jobs.

Definition validateJobs (path : string) (jobs : list Job) : ValidationErrors :=
  if (length jobs =? 0)%nat
  then [mkValidationError (path +:+ ".jobs") "must contain at least one job"]
  else
    validate_named jb_Name
      (λ i m, [mkValidationError (indexed (path +:+ ".jobs") i +:+ ".name") m])
      (λ i, validate_job_body (indexed (path +:+ ".jobs") i))
      "must be unique within its stage" 0 ∅ jobs ++
    validateDependencies (path +:+ ".jobs") (list_to_set (jb_Name <$> jobs)) (job_deps jobs).

Definition stageDependencies (stages : list Stage) : gmap string (list string) :=
  foldl (λ result stage, <[sg_Name stage := sg_DependsOn stage]> result) ∅ stages.

Definition allowedEvents : list string := ["push"; "pull_request"; "tag"; "manual"; "cron"; "api"].

Definition Validate (value : Pipeline) : ValidationErrors :=
  (if pl_Version value <>? APIVersion then [mkValidationError "version" "must be v1"] else []) ++
  (if negb (re_match namePattern (pl_Name value))
   then [mkValidationError "name" "must be 1-63 letters, numbers, dots, underscores or hyphens"] else []) ++
  (if (length (pl_Stages value) =? 0)%nat
   then [mkValidationError "stages" "must contain at least one stage"] else []) ++
  (match pl_Concurrency value with
   | Some c =>
     (if cc_Group c =? "" then [mkValidationError "concurrency.group" "is required"] else []) ++
     (if (cc_Limit c <? 0) || (100 <? cc_Limit c)
      then [mkValidationError "concurrency.limit" "must be between 0 and 100"] else [])
   | None => []
   end) ++
  validate_named sg_Name
    (λ i m, [mkValidationError (indexed "stages" i +:+ ".name") m])
    (λ i stage, validateJobs (indexed "stages" i) (sg_Jobs stage))
    "must be unique" 0 ∅ (pl_Stages value) ++
  validateDependencies "stages" (list_to_set (sg_Name <$> pl_Stages value))
    (stageDependencies (pl_Stages value)) ++
  mjoin (imap (λ i trigger,
    if bool_decide (tr_Event trigger ∈ allowedEvents) then []
    else [mkValidationError (indexed "triggers" i +:+ ".event") "is not supported"])
    (pl_Triggers value)).
End Validate.

(** ** Compilation *)

Inductive CompileError :=
| DecodeError
| InvalidPipeline (problems : ValidationErrors)
| CanonicalizeError
| InvalidJob (problem : ValidationError).

Definition compile_job (stage : Stage) (job : Job) : result CompileError PlanJob :=
  match parseTimeout (jb_Timeout job) with
  | Err e => Err (InvalidJob (mkValidationError
      ("stage." +:+ sg_Name stage +:+ ".job." +:+ jb_Name job +:+ ".timeout") e))
  | Ok timeout =>
    match parseByteSize (rs_Disk (jb_Resources job)) with
    | Err e => Err (InvalidJob (mkValidationError
        ("stage." +:+ sg_Name stage +:+ ".job." +:+ jb_Name job +:+ ".resources.disk") e))
    | Ok diskBytes =>
      let r := jb_RunsOn job in
      let runsOn := {|
        rr_OS := if rr_OS r =? "" then "linux" else rr_OS r;
        rr_Architecture := rr_Architecture r;
        rr_Executor := if rr_Executor r =? "" then "docker" else rr_Executor r;
        rr_Labels := Some (labels_of r) |} in
      Ok {| pj_Name := jb_Name job; pj_Image := jb_Image job; pj_DependsOn := jb_DependsOn job;
            pj_Timeout := timeout; pj_Retry := jb_Retry job; pj_Matrix := jb_Matrix job;
            pj_Environment := jb_Environment job; pj_Services := jb_Services job;
            pj_Resources := jb_Resources job; pj_RunsOn := runsOn; pj_RequiredDiskBytes := diskBytes;
            pj_Secrets := jb_Secrets job; pj_Steps := jb_Steps job |}
    end
  end.

(** A loop that appends one result per element and returns at the first error. *)
Fixpoint rmap {E A B} (f : A → result E B) (l : list A) : result E (list B) :=
  match l with
  | [] => Ok []
  | x :: l => let? y := f x in let? ys := rmap f l in Ok (y :: ys)
  end.

Definition compile_stage (stage : Stage) : result CompileError PlanStage :=
  let? jobs := rmap (compile_job stage) (sg_Jobs stage) in
  Ok {| ps_Name := sg_Name stage; ps_DependsOn := sg_DependsOn stage; ps_Jobs := jobs |}.

Section Compile.
Context `{MapOrder}.
(** [yaml.v3] with [KnownFields], [encoding/json] and the hexadecimal SHA-256
    digest, which the code calls. *)
Variable yaml_decode : string → option Pipeline.
Variable json_marshal : Pipeline → option string.
Variable sha256_hex : string → string.

Definition Parse (source : string) : result CompileError Pipeline :=
  match yaml_decode source with Some value => Ok value | None => Err DecodeError end.

Definition Compile (source : string) (now : time) : result CompileError Plan :=
  let? value := Parse source in
  match Validate value with
  | (_ :: _) as problems => Err (InvalidPipeline problems)
  | [] =>
    match json_marshal value with
    | None => Err CanonicalizeError
    | Some canonical =>
      let? stages := rmap compile_stage (pl_Stages value) in
      Ok {| pn_Version := pl_Version value; pn_Name := pl_Name value;
            pn_ConfigSHA256 := sha256_hex canonical; pn_CompiledAt := now; pn_Stages := stages |}
    end
  end.
End Compile.

(** ** Lemmas *)

Lemma wrap64_small n : - 2 ^ 63 ≤ n < 2 ^ 63 → wrap64 n = n.
Proof. intros. unfold wrap64. rewrite Z.mod_small by lia. lia. Qed.

Lemma parse_with_units_bounds us upper v :
  Forall (λ u, 0 < u.2 ≤ 2 ^ 40) us →
  parse_with_units us upper = Ok v → 0 ≤ v ≤ 2 ^ 50.
Proof.
  induction 1 as [|[suffix m] us Hm _ IH]; cbn [parse_with_units].
  - destruct (ParseInt upper) as [n|]; [|done]. intros. break_all. bools. lia.
  - destruct (HasSuffix upper suffix); [|done].
    destruct (ParseInt _) as [n|]; [|done].
    destruct ((n <? 0) || (2 ^ 50 / m <? n)) eqn:Hn; [done|]. intros [= <-]. bools.
    simpl in Hm. assert (n * m ≤ 2 ^ 50 / m * m) by (apply Z.mul_le_mono_nonneg_r; lia).
    pose proof (Z.mul_div_le (2 ^ 50) m ltac:(lia)).
    rewrite wrap64_small; lia.
Qed.

Lemma units_bounds : Forall (λ u, 0 < u.2 ≤ 2 ^ 40) units.
Proof. repeat constructor; simpl; lia. Qed.

Lemma parseByteSize_ok raw v : parseByteSize raw = Ok v → 0 ≤ v ≤ 2 ^ 50.
Proof.
  unfold parseByteSize. case_bool_decide; [intros [= <-]; lia|].
  apply parse_with_units_bounds, units_bounds.
Qed.

Lemma parseTimeout_ok raw v : parseTimeout raw = Ok v → Second ≤ v ≤ 24 * Hour.
Proof.
  unfold parseTimeout, Second, Hour, Minute, Second, Millisecond, Microsecond, Nanosecond.
  case_bool_decide; [intros [= <-]; lia|].
  destruct (ParseDuration raw); [|done]. intros. break_all. bools. lia.
Qed.

Lemma rmap_Ok {E A B} (f : A → result E B) l ys :
  rmap f l = Ok ys ↔ Forall2 (λ x y, f x = Ok y) l ys.
Proof.
  revert ys. induction l as [|x l IH]; intros ys; simpl.
  - split; [intros [= <-]; constructor|by inversion 1].
  - destruct (f x) as [y|e] eqn:Hx; simpl.
    + destruct (rmap f l) as [ys'|e]; simpl.
      * split; [intros [= <-]; constructor; [done|by apply IH]|].
        inversion 1 as [|? ? ? ? H1 H2]; subst. apply IH in H2. congruence.
      * split; [done|]. inversion 1 as [|? ? ? ? H1 H2]; subst. by apply IH in H2.
    + split; [done|]. inversion 1; congruence.
Qed.

Lemma rmap_total {E A B} (f : A → result E B) l :
  (∀ x, x ∈ l → ∃ y, f x = Ok y) → ∃ ys, rmap f l = Ok ys.
Proof.
  induction l as [|x l IH]; intros Hl; simpl; [by eexists|].
  destruct (Hl x ltac:(left)) as [y ->]. destruct IH as [ys ->]; [|by eexists].
  intros z Hz. apply Hl. by right.
Qed.

Lemma app_nil_iff {A} (l1 l2 : list A) : l1 ++ l2 = [] ↔ l1 = [] ∧ l2 = [].
Proof. split; [apply app_nil|]. intros [-> ->]. done. Qed.

Lemma mjoin_nil_iff {A} (l : list (list A)) : mjoin l = [] ↔ ∀ x, x ∈ l → x = [].
Proof.
  induction l as [|y l IH]; simpl.
  - split; [|done]. intros _ x Hx. by apply not_elem_of_nil in Hx.
  - rewrite app_nil_iff, IH. split.
    + intros [-> Hl] x [->|Hx]%elem_of_cons; auto.
    + intros Hl. split; [apply Hl; left|]. intros x Hx. apply Hl. by right.
Qed.

Lemma when_nil {A} (b : bool) (x : list A) : x ≠ [] → (if b then x else []) = [] ↔ b = false.
Proof. destruct b; naive_solver. Qed.

(** The map built by a loop of assignments, when the keys are distinct. *)
Lemma lookup_assignments {A} (key : A → string) (value : A → list string) l (m : gmap string (list string)) x :
  NoDup (key <$> l) → x ∈ l →
  foldl (λ m x, <[key x := value x]> m) m l !! key x = Some (value x).
Proof.
  revert m. induction l as [|y l IH]; intros m Hnd Hx; simpl in *.
  { by apply not_elem_of_nil in Hx. }
  apply NoDup_cons in Hnd as [Hy Hnd]. apply elem_of_cons in Hx as [->|Hx]; [|by apply IH].
  clear IH. revert m. assert (∀ m : gmap string (list string), m !! key y = Some (value y) →
    foldl (λ m x, <[key x:=value x]> m) m l !! key y = Some (value y)) as Hk.
  { clear Hnd. induction l as [|z l IH]; intros m Hm; simpl; [done|].
    rewrite fmap_cons, elem_of_cons in Hy. apply IH; [naive_solver|].
    rewrite lookup_insert_ne by naive_solver. done. }
  intros m. apply Hk. by rewrite lookup_insert_eq.
Qed.

Lemma lookup_assignments_inv {A} (key : A → string) (value : A → list string) l (m : gmap string (list string)) k v :
  foldl (λ m x, <[key x := value x]> m) m l !! k = Some v →
  m !! k = Some v ∨ ∃ x, x ∈ l ∧ key x = k ∧ value x = v.
Proof.
  revert m. induction l as [|y l IH]; intros m; simpl; [by left|].
  intros [Hm|(x & Hx & ?)]%IH; [|right; exists x; split; [by right|done]].
  destruct (decide (key y = k)) as [<-|Hne].
  - rewrite lookup_insert_eq in Hm. right. exists y. split; [by left|]. naive_solver.
  - rewrite lookup_insert_ne in Hm by done. by left.
Qed.

Section Validation_lemmas.
Context `{MapOrder}.

Lemma validateDependencies_nil path names deps :
  validateDependencies path names deps = [] →
  (∀ n ds d, deps !! n = Some ds → d ∈ ds → d ≠ n ∧ d ∈ names) ∧ (∀ n, settled deps n).
Proof.
  unfold validateDependencies. rewrite app_nil_iff. intros [Hd Hc]. split.
  - intros n ds d Hn Hin. rewrite mjoin_nil_iff in Hd.
    assert (Hn' : (n, ds) ∈ range deps) by by apply elem_of_range.
    specialize (Hd _ (list_elem_of_fmap_2 _ _ _ Hn')). simpl in Hd. rewrite mjoin_nil_iff in Hd.
    specialize (Hd _ (list_elem_of_fmap_2 _ _ _ Hin)). simpl in Hd.
    case_bool_decide; [done|]. case_bool_decide; [done|done].
  - apply when_nil in Hc; [|done]. by apply hasCycle_false.
Qed.

Lemma validate_named_nil {A} (name : A → string) problem body duplicate i names l :
  (∀ i m, problem i m ≠ []) →
  validate_named name problem body duplicate i names l = [] →
  NoDup (name <$> l) ∧ (∀ x, x ∈ l → name x ∉ names) ∧
  (∀ x, x ∈ l → re_match namePattern (name x) = true) ∧
  (∀ j x, l !! j = Some x → body (i + j)%nat x = []).
Proof.
  intros Hp. revert i names. induction l as [|x l IH]; intros i names; simpl.
  { intros _. split; [constructor|].
    split; [|split]; [by intros x ?%not_elem_of_nil..|]. intros j x Hj. by rewrite lookup_nil in Hj. }
  rewrite !app_nil_iff. intros (Hx & Hb & Hl). apply IH in Hl as (Hnd & Hn & Hm & Hbody).
  destruct (re_match namePattern (name x)) eqn:Hre; simpl in Hx; [|by destruct (Hp i "is invalid")].
  case_bool_decide as Hin; [by destruct (Hp i duplicate)|]. clear Hx.
  split; [|split; [|split]].
  - constructor; [|done]. intros (y & Heq & Hy)%list_elem_of_fmap.
    apply Hn in Hy. set_solver.
  - intros y [->|Hy]%elem_of_cons; [done|]. apply Hn in Hy. set_solver.
  - intros y [->|Hy]%elem_of_cons; auto.
  - intros [|j] y Hy; simplify_eq/=; [by rewrite Nat.add_0_r|].
    rewrite Nat.add_succ_r. by apply Hbody.
Qed.

(** What a list of jobs without problems satisfies. *)
Record jobs_valid (jobs : list Job) : Prop := {
  jv_nonempty : jobs ≠ [];
  jv_unique : NoDup (jb_Name <$> jobs);
  jv_names : ∀ j, j ∈ jobs → re_match namePattern (jb_Name j) = true;
  jv_deps : ∀ j d, j ∈ jobs → d ∈ jb_DependsOn j → d ∈ jb_Name <$> jobs;
  jv_acyclic : ∀ n, settled (job_deps jobs) n;
  jv_body : ∀ j, j ∈ jobs → ∃ path, validate_job_body path j = [];
}.

Lemma validateJobs_nil path jobs : validateJobs path jobs = [] → jobs_valid jobs.
Proof.
  unfold validateJobs. destruct (Nat.eqb_spec (length jobs) 0) as [|Hlen]; [done|].
  rewrite app_nil_iff. intros [Hn Hd].
  apply validate_named_nil in Hn as (Hnd & _ & Hm & Hb); [|done].
  apply validateDependencies_nil in Hd as [Hd Hs]. split; try assumption.
  - by intros ->.
  - intros j d Hj Hdj. apply (elem_of_list_to_set (C := gset string)).
    eapply (Hd (jb_Name j) (jb_DependsOn j)); [|done]. by apply lookup_assignments.
  - intros j (k & Hk)%list_elem_of_lookup. eexists. by apply (Hb k).
Qed.

(** What an accepted pipeline satisfies. *)
Record pipeline_valid (value : Pipeline) : Prop := {
  pv_version : pl_Version value = APIVersion;
  pv_name : re_match namePattern (pl_Name value) = true;
  pv_stages : pl_Stages value ≠ [];
  pv_unique : NoDup (sg_Name <$> pl_Stages value);
  pv_names : ∀ s, s ∈ pl_Stages value → re_match namePattern (sg_Name s) = true;
  pv_deps : ∀ s d, s ∈ pl_Stages value → d ∈ sg_DependsOn s → d ∈ sg_Name <$> pl_Stages value;
  pv_acyclic : ∀ n, settled (stageDependencies (pl_Stages value)) n;
  pv_jobs : ∀ s, s ∈ pl_Stages value → jobs_valid (sg_Jobs s);
  pv_events : ∀ t, t ∈ pl_Triggers value → tr_Event t ∈ allowedEvents;
}.

Lemma Validate_nil value : Validate value = [] → pipeline_valid value.
Proof.
  unfold Validate. rewrite !app_nil_iff. intros (Hv & Hn & Hs & _ & Hl & Hd & Ht).
  apply when_nil in Hv; [|done]. apply when_nil in Hn; [|done]. apply when_nil in Hs; [|done].
  bools. apply validate_named_nil in Hl as (Hnd & _ & Hm & Hb); [|done].
  apply validateDependencies_nil in Hd as [Hd Hset]. split; try assumption.
  - intros Heq. by rewrite Heq in Hs.
  - intros s d Hs' Hds. apply (elem_of_list_to_set (C := gset string)).
    eapply (Hd (sg_Name s) (sg_DependsOn s)); [|done]. by apply lookup_assignments.
  - intros s (k & Hk)%list_elem_of_lookup. by eapply validateJobs_nil, (Hb k).
  - intros t (k & Hk)%list_elem_of_lookup. rewrite mjoin_nil_iff in Ht.
    specialize (Ht _ (list_elem_of_lookup_2 _ k _ (eq_trans (list_lookup_imap _ _ _) (f_equal _ Hk)))).
    simpl in Ht. by case_bool_decide.
Qed.

Lemma compile_job_valid stage path job :
  validate_job_body path job = [] → ∃ pj, compile_job stage job = Ok pj.
Proof.
  unfold validate_job_body. rewrite !app_nil_iff. intros (_ & _ & _ & _ & Hd & _ & _ & _ & Ht & _).
  unfold compile_job. destruct (parseByteSize _) as [disk|]; [|done].
  destruct (parseTimeout (jb_Timeout job)) as [t|] eqn:Hto; [by eexists|].
  case_bool_decide as Hempty; [|done]. rewrite Hempty in Hto. done.
Qed.

Lemma compile_stages_valid value :
  pipeline_valid value → ∃ stages, rmap compile_stage (pl_Stages value) = Ok stages.
Proof.
  intros Hv. apply rmap_total. intros s Hs. unfold compile_stage.
  destruct (rmap_total (compile_job s) (sg_Jobs s)) as [ys ->]; [|by eexists].
  intros j Hj. destruct (jv_body _ (pv_jobs _ Hv s Hs) j Hj) as [path Hp].
  by eapply compile_job_valid.
Qed.
End Validation_lemmas.
