(* ===== verification/RunModel.v ===== *)
(** internal/run: statuses and their transition tables (state.go), and the records, requests
    and validation functions that the stores share. *)

From S2P Require Import Prelude GoStd Regex Pipeline Compiler.

(** * internal/run/state.go: run and job statuses and their transition tables. *)

Inductive Status :=
| StatusQueued | StatusRunning | StatusWaitingApproval
| StatusSucceeded | StatusFailed | StatusCanceled.

Inductive JobStatus :=
| JobBlocked | JobQueued | JobAssigned | JobRunning
| JobSucceeded | JobFailed | JobCanceled | JobSkipped.

#[export] Instance Status_eq_dec : EqDecision Status.
Proof. solve_decision. Defined.
#[export] Instance JobStatus_eq_dec : EqDecision JobStatus.
Proof. solve_decision. Defined.

(** The map [transitions]: the statuses reachable in one step. *)
Definition transitions (from : Status) : list Status :=
  match from with
  | StatusQueued => [StatusRunning; StatusCanceled]
  | StatusRunning => [StatusWaitingApproval; StatusSucceeded; StatusFailed; StatusCanceled]
  | StatusWaitingApproval => [StatusRunning; StatusFailed; StatusCanceled]
  | _ => []
  end.

Definition Terminal (s : Status) : bool :=
  (s =? StatusSucceeded) || (s =? StatusFailed) || (s =? StatusCanceled).

(** [true] when the Go function returns a nil error. *)
Definition ValidateTransition (from to : Status) : bool := bool_decide (to ∈ transitions from).

Definition job_transitions (from : JobStatus) : list JobStatus :=
  match from with
  | JobBlocked => [JobQueued; JobCanceled; JobSkipped]
  | JobQueued => [JobAssigned; JobCanceled; JobSkipped]
  | JobAssigned => [JobRunning; JobQueued; JobCanceled]
  | JobRunning => [JobSucceeded; JobFailed; JobCanceled]
  | _ => []
  end.

Definition ValidateJobTransition (from to : JobStatus) : bool :=
  bool_decide (to ∈ job_transitions from).

(** Not yet finished: the statuses that keep a run open. *)
Definition job_open (s : JobStatus) : bool :=
  (s =? JobBlocked) || (s =? JobQueued) || (s =? JobAssigned) || (s =? JobRunning).

(** Leased to a runner. *)
Definition job_leased (s : JobStatus) : bool := (s =? JobAssigned) || (s =? JobRunning).

(** The terminal statuses a completion may report. *)
Definition job_outcome (s : JobStatus) : bool :=
  (s =? JobSucceeded) || (s =? JobFailed) || (s =? JobCanceled).

(** A terminal run status has no successor, and every other status has one. *)
Lemma Terminal_no_transition s : Terminal s = true ↔ transitions s = [].
Proof. destruct s; split; done. Qed.

Lemma job_outcome_closed s : job_outcome s = true → job_open s = false.
Proof. by destruct s. Qed.

(** * internal/run: the records, requests and validation functions that the stores
    share (store.go, runner_store.go, recovery.go, logs.go). *)

Inductive RunError :=
| ErrLeaseInvalid
| ErrJobNotFound
| ErrInvalidRunnerRequest
| ErrInvalidRecoveryLimit
| ErrInvalidTerminalStatus   (** "invalid terminal job status" *)
| ErrDecodePlan              (** "decode plan: ..." *)
| ErrRunExists               (** "run already exists" *)
| ErrInvalidLogChunk
| ErrLogSequence
| ErrLogLimit
| ErrLogExpired
| ErrRunConflict
| ErrForbidden               (** authorization.ErrForbidden *)
| ErrUnauthenticated         (** identity.ErrUnauthenticated *)
| ErrStatusInvalid           (** commitstatus.ErrInvalid *)
| ErrIncompleteSource        (** "source-backed job has incomplete repository metadata" *)
| ErrDetailLimit             (** "Run detail limit exceeded" *)
| ErrSessionLifetime         (** "invalid session lifetime" *)
| ErrDatabase.               (** a constraint of the database was violated *)
#[export] Instance RunError_eq_dec : EqDecision RunError.
Proof. solve_decision. Defined.

(** ** store.go *)

(** [Record]: a run. *)
Record RunRecord := mkRun {
  rn_ID : uuid;
  rn_ProjectID : option uuid;
  rn_CreatedBy : option uuid;
  rn_PipelineVersionID : option uuid;
  rn_IdempotencyKey : string;
  rn_PipelineName : string;
  rn_Event : string;
  rn_Ref : string;
  rn_CommitSHA : string;
  rn_Status : Status;
  rn_ConfigSHA256 : string;
  rn_Plan : string;
  rn_CreatedAt : time;
  rn_StartedAt : option time;
  rn_FinishedAt : option time;
}.

Definition with_status (st : Status) (r : RunRecord) : RunRecord :=
  mkRun (rn_ID r) (rn_ProjectID r) (rn_CreatedBy r) (rn_PipelineVersionID r) (rn_IdempotencyKey r)
    (rn_PipelineName r) (rn_Event r) (rn_Ref r) (rn_CommitSHA r) st (rn_ConfigSHA256 r) (rn_Plan r)
    (rn_CreatedAt r) (rn_StartedAt r) (rn_FinishedAt r).
Definition with_started (t : option time) (r : RunRecord) : RunRecord :=
  mkRun (rn_ID r) (rn_ProjectID r) (rn_CreatedBy r) (rn_PipelineVersionID r) (rn_IdempotencyKey r)
    (rn_PipelineName r) (rn_Event r) (rn_Ref r) (rn_CommitSHA r) (rn_Status r) (rn_ConfigSHA256 r)
    (rn_Plan r) (rn_CreatedAt r) t (rn_FinishedAt r).
Definition with_finished (t : option time) (r : RunRecord) : RunRecord :=
  mkRun (rn_ID r) (rn_ProjectID r) (rn_CreatedBy r) (rn_PipelineVersionID r) (rn_IdempotencyKey r)
    (rn_PipelineName r) (rn_Event r) (rn_Ref r) (rn_CommitSHA r) (rn_Status r) (rn_ConfigSHA256 r)
    (rn_Plan r) (rn_CreatedAt r) (rn_StartedAt r) t.

Record SourceCheckout := mkSource {
  sc_RepositoryUUID : uuid;
  sc_Provider : string;
  sc_RepositoryID : string;
  sc_CloneURL : string;
  sc_CommitSHA : string;
}.

Record Assignment := mkAssignment {
  as_JobID : uuid;
  as_RunID : uuid;
  as_StageName : string;
  as_JobName : string;
  as_Attempt : Z;
  as_LeaseToken : string;
  as_LeaseExpires : time;
  as_Spec : PlanJob;
  as_Source : option SourceCheckout;
}.

Definition with_lease (token : string) (expires : time) (a : Assignment) : Assignment :=
  mkAssignment (as_JobID a) (as_RunID a) (as_StageName a) (as_JobName a) (as_Attempt a)
    token expires (as_Spec a) (as_Source a).

(** ** runner_store.go *)

Definition RunnerLeaseDuration : duration := 30 * Second.
Definition MaximumHeartbeatJobCount : Z := 256.

Record RunnerDescriptor := mkRunner {
  rd_ID : uuid;
  rd_PoolType : string;
  rd_OS : string;
  rd_Architecture : string;
  rd_Executor : string;
  rd_Labels : gmap string string;
  rd_Capacity : Z;
  rd_AvailableDiskBytes : Z;
  rd_ProtocolVersion : Z;
}.

Record LeaseRequest := mkLease {
  lr_RunnerID : uuid;
  lr_JobID : uuid;
  lr_LeaseToken : string;
}.

Record LeaseState := mkLeaseState { ls_JobID : uuid; ls_LeaseExpires : time }.

Record ActiveLease := mkActive {
  al_JobID : uuid;
  al_LeaseToken : string;
  al_State : string;
}.

Record HeartbeatRequest := mkHeartbeat {
  hb_Runner : RunnerDescriptor;
  hb_ActiveJobs : list ActiveLease;
}.

Record LeaseResult := mkLeaseResult {
  le_JobID : uuid;
  le_Renewed : bool;
  le_LeaseExpires : time;
  le_CancelReason : string;
}.

Record HeartbeatResult := mkHeartbeatResult {
  hr_LeaseExpires : time;
  hr_Jobs : list LeaseResult;
}.

Record RunnerCompletion := mkCompletion {
  rc_RunnerID : uuid;
  rc_JobID : uuid;
  rc_LeaseToken : string;
  rc_Status : JobStatus;
}.

(** The duplicate check of [ValidateHeartbeatRequest]: [seen] holds earlier jobs. *)
Fixpoint active_jobs_valid (seen : gset uuid) (jobs : list ActiveLease) : bool :=
  match jobs with
  | [] => true
  | a :: jobs =>
    negb ((al_JobID a =? uuid_Nil) || (al_LeaseToken a =? "")
          || ((al_State a <>? "received") && (al_State a <>? "running")))
    && negb (bool_decide (al_JobID a ∈ seen))
    && active_jobs_valid ({[al_JobID a]} ∪ seen) jobs
  end.

Definition label_valid (kv : string * string) : bool :=
  re_match runnerLabelPattern kv.1 && negb (256 <? len kv.2).

(** [true] when [ValidateHeartbeatRequest] returns nil. *)
Definition ValidateHeartbeatRequest `{MapOrder} (request : HeartbeatRequest) : bool :=
  let runner := hb_Runner request in
  let n := Z.of_nat (length (hb_ActiveJobs request)) in
  negb ((rd_ID runner =? uuid_Nil)
    || ((rd_PoolType runner <>? "standard") && (rd_PoolType runner <>? "privileged")
        && (rd_PoolType runner <>? "deployment"))
    || (rd_OS runner =? "") || (64 <? len (rd_OS runner))
    || (rd_Architecture runner =? "") || (64 <? len (rd_Architecture runner))
    || (rd_Executor runner =? "") || (64 <? len (rd_Executor runner))
    || (rd_Capacity runner <? 1) || (256 <? rd_Capacity runner)
    || (rd_AvailableDiskBytes runner <? 0) || (rd_ProtocolVersion runner <? 1)
    || (2 <? rd_ProtocolVersion runner)
    || (128 <? Z.of_nat (size (rd_Labels runner)))
    || (MaximumHeartbeatJobCount <? n) || (rd_Capacity runner <? n))
  && forallb label_valid (range (rd_Labels runner))
  && active_jobs_valid ∅ (hb_ActiveJobs request).

(** [validateLeaseRequest] of runner_memory.go. *)
Definition validateLeaseRequest (request : LeaseRequest) : bool :=
  negb ((lr_RunnerID request =? uuid_Nil) || (lr_JobID request =? uuid_Nil)
        || (lr_LeaseToken request =? "")).

(** Runner and job requirements, [runnerMatches] of runner_memory.go.  A label
    that the runner does not have reads as the empty string. *)
Definition runnerMatches `{MapOrder} (spec : PlanJob) (runner : RunnerDescriptor) : bool :=
  negb ((rd_PoolType runner <>? "standard")
    || (rr_OS (pj_RunsOn spec) <>? rd_OS runner)
    || (rr_Executor (pj_RunsOn spec) <>? rd_Executor runner)
    || ((rr_Architecture (pj_RunsOn spec) <>? "")
        && (rr_Architecture (pj_RunsOn spec) <>? rd_Architecture runner))
    || (rd_AvailableDiskBytes runner <? pj_RequiredDiskBytes spec))
  && forallb (λ '(key, value), (default "" (rd_Labels runner !! key)) =? value)
       (range (labels_of (pj_RunsOn spec))).

(** ** recovery.go *)

Definition MaximumRecoveryBatch : Z := 100.

Record RecoveryResult := mkRecovery { rv_Requeued : Z; rv_Failed : Z }.

(** ** logs.go *)

Definition MaxLogChunkBytes : Z := Z.shiftl 32 10.
Definition MaxJobLogBytes : Z := Z.shiftl 16 20.
Definition MaxJobLogChunks : Z := 8192.
Definition LogRetention : duration := 7 * 24 * Hour.

Record LogChunk := mkChunk {
  lc_Lease : LeaseRequest;
  lc_Sequence : Z;
  lc_Step : Z;
  lc_Stream : string;
  lc_Data : bytes;
  lc_Truncated : bool;
}.

(** [true] when [ValidateLogChunk] returns nil. *)
Definition ValidateLogChunk (c : LogChunk) : bool :=
  let data := Z.of_nat (length (lc_Data c)) in
  negb ((lr_RunnerID (lc_Lease c) =? uuid_Nil) || (lr_JobID (lc_Lease c) =? uuid_Nil)
    || (len (lr_LeaseToken (lc_Lease c)) =? 0) || (512 <? len (lr_LeaseToken (lc_Lease c)))
    || (lc_Sequence c <? 1) || (MaxJobLogChunks <? lc_Sequence c)
    || (lc_Step c <? 0) || (1023 <? lc_Step c)
    || ((lc_Stream c <>? "stdout") && (lc_Stream c <>? "stderr"))
    || (MaxLogChunkBytes <? data)
    || (negb (lc_Truncated c) && (data =? 0))
    || (lc_Truncated c && (data <>? 0))).

(** ** Lemmas *)

Section RunModel_lemmas.
Context `{MapOrder}.

(** What a matching runner provides, requirement by requirement. *)
Lemma runnerMatches_spec spec runner :
  runnerMatches spec runner = true ↔
  rd_PoolType runner = "standard" ∧
  rr_OS (pj_RunsOn spec) = rd_OS runner ∧
  rr_Executor (pj_RunsOn spec) = rd_Executor runner ∧
  (rr_Architecture (pj_RunsOn spec) = "" ∨
   rr_Architecture (pj_RunsOn spec) = rd_Architecture runner) ∧
  pj_RequiredDiskBytes spec ≤ rd_AvailableDiskBytes runner ∧
  (∀ k v, labels_of (pj_RunsOn spec) !! k = Some v → default "" (rd_Labels runner !! k) = v).
Proof.
  unfold runnerMatches.
  rewrite andb_true_iff, forallb_forall, negb_true_iff, !orb_false_iff, andb_false_iff.
  rewrite !negb_false_iff, !bool_decide_eq_true, Z.ltb_ge.
  assert (∀ P : string * string → Prop,
    (∀ x, In x (range (labels_of (pj_RunsOn spec))) → P x) ↔
    (∀ k v, labels_of (pj_RunsOn spec) !! k = Some v → P (k, v))) as ->.
  { intros P. split.
    - intros HP k v Hk. apply HP, list_elem_of_In. by apply elem_of_range.
    - intros HP [k v] Hin. apply HP, elem_of_range. by apply list_elem_of_In. }
  setoid_rewrite bool_decide_eq_true. tauto.
Qed.

Lemma active_jobs_valid_spec seen jobs :
  active_jobs_valid seen jobs = true →
  NoDup (al_JobID <$> jobs) ∧ (∀ a, a ∈ jobs → (al_JobID a ∉ seen) ∧ (al_LeaseToken a ≠ "")).
Proof.
  revert seen. induction jobs as [|a jobs IH]; intros seen; cbn [active_jobs_valid].
  { intros _. split; [constructor|]. by intros a ?%not_elem_of_nil. }
  intros Hv. bools. destruct (IH _ H1) as [Hnd Hall]. split.
  - constructor; [|done]. intros (b & Heq & Hb)%list_elem_of_fmap.
    apply Hall in Hb as [Hb _]. set_solver.
  - intros b [->|Hb]%elem_of_cons; [done|]. apply Hall in Hb as [Hb Ht]. set_solver.
Qed.
End RunModel_lemmas.
