(* ===== verification/MemoryStore.v ===== *)
(** internal/run: the in-memory store (store.go, runner_memory.go,
    recovery_memory.go).  Every method holds the mutex for its whole body, so an
    operation is a function from the state before to the state after.

    The slice [jobs] holds pointers to mutable jobs and is never reordered, so a
    pointer is an index in it.  [ms_now] is the value the field [now] returns;
    it is read as one instant during a call and advances between calls. *)

From S2P Require Import Prelude GoStd RunModel Pipeline.

(** ** State *)

Record memoryJob := mkMemoryJob {
  mj_assignment : Assignment;
  mj_key : string;
  mj_dependencies : list string;
  mj_status : JobStatus;
  mj_runnerID : uuid;
  mj_acceptedAt : option time;
  mj_leaseRenewed : option time;
}.

Record MemoryStore := mkMemoryStore {
  ms_records : list RunRecord;
  ms_jobs : list memoryJob;
  ms_runners : gmap uuid RunnerDescriptor;
  ms_now : time;
}.

Definition NewMemoryStore (now : time) : MemoryStore := mkMemoryStore [] [] ∅ now.

Definition mj_id (j : memoryJob) : uuid := as_JobID (mj_assignment j).
Definition mj_run (j : memoryJob) : uuid := as_RunID (mj_assignment j).
Definition mj_token (j : memoryJob) : string := as_LeaseToken (mj_assignment j).
Definition mj_expires (j : memoryJob) : time := as_LeaseExpires (mj_assignment j).

Definition job_with_status (st : JobStatus) (j : memoryJob) : memoryJob :=
  mkMemoryJob (mj_assignment j) (mj_key j) (mj_dependencies j) st (mj_runnerID j)
    (mj_acceptedAt j) (mj_leaseRenewed j).
Definition job_with_lease (token : string) (expires : time) (j : memoryJob) : memoryJob :=
  mkMemoryJob (with_lease token expires (mj_assignment j)) (mj_key j) (mj_dependencies j)
    (mj_status j) (mj_runnerID j) (mj_acceptedAt j) (mj_leaseRenewed j).
Definition job_with_runner (r : uuid) (j : memoryJob) : memoryJob :=
  mkMemoryJob (mj_assignment j) (mj_key j) (mj_dependencies j) (mj_status j) r
    (mj_acceptedAt j) (mj_leaseRenewed j).
Definition job_with_accepted (t : option time) (j : memoryJob) : memoryJob :=
  mkMemoryJob (mj_assignment j) (mj_key j) (mj_dependencies j) (mj_status j) (mj_runnerID j)
    t (mj_leaseRenewed j).
Definition job_with_renewed (t : option time) (j : memoryJob) : memoryJob :=
  mkMemoryJob (mj_assignment j) (mj_key j) (mj_dependencies j) (mj_status j) (mj_runnerID j)
    (mj_acceptedAt j) t.

Definition set_records (rs : list RunRecord) (m : MemoryStore) : MemoryStore :=
  mkMemoryStore rs (ms_jobs m) (ms_runners m) (ms_now m).
Definition set_jobs (js : list memoryJob) (m : MemoryStore) : MemoryStore :=
  mkMemoryStore (ms_records m) js (ms_runners m) (ms_now m).
Definition set_runners (rs : gmap uuid RunnerDescriptor) (m : MemoryStore) : MemoryStore :=
  mkMemoryStore (ms_records m) (ms_jobs m) rs (ms_now m).
(** An assignment through the pointer with index [i]. *)
Definition update_job (i : nat) (f : memoryJob → memoryJob) (m : MemoryStore) : MemoryStore :=
  set_jobs (alter f i (ms_jobs m)) m.

(** ** store.go *)

(** [stageJobs]: the keys of the jobs of each stage, in order. *)
Definition stage_keys (stages : list PlanStage) : gmap string (list string) :=
  foldl (λ sj stage, foldl (λ sj job,
      <[ps_Name stage := default [] (sj !! ps_Name stage)
                         ++ [ps_Name stage +:+ "/" +:+ pj_Name job]]> sj)
    sj (ps_Jobs stage)) ∅ stages.

Definition job_dependencies (sj : gmap string (list string)) (stage : PlanStage) (job : PlanJob)
    : list string :=
  mjoin ((λ d, default [] (sj !! d)) <$> ps_DependsOn stage)
  ++ ((λ d, ps_Name stage +:+ "/" +:+ d) <$> pj_DependsOn job).

Definition stage_job_pairs (stages : list PlanStage) : list (PlanStage * PlanJob) :=
  mjoin ((λ stage, (λ job, (stage, job)) <$> ps_Jobs stage) <$> stages).

Definition new_job (runID id : uuid) (sj : gmap string (list string)) (stage : PlanStage)
    (job : PlanJob) : memoryJob :=
  let dependencies := job_dependencies sj stage job in
  {| mj_assignment := {| as_JobID := id; as_RunID := runID; as_StageName := ps_Name stage;
       as_JobName := pj_Name job; as_Attempt := 1; as_LeaseToken := ""; as_LeaseExpires := time_zero;
       as_Spec := job; as_Source := None |};
     mj_key := ps_Name stage +:+ "/" +:+ pj_Name job;
     mj_dependencies := dependencies;
     mj_status := if (length dependencies =? 0)%nat then JobQueued else JobBlocked;
     mj_runnerID := uuid_Nil; mj_acceptedAt := None; mj_leaseRenewed := None |}.

(** The jobs that a plan adds; the [i]-th call of [uuid.New] returns [ids i]. *)
Definition plan_jobs (runID : uuid) (ids : nat → uuid) (stages : list PlanStage) : list memoryJob :=
  imap (λ i '(stage, job), new_job runID (ids i) (stage_keys stages) stage job)
    (stage_job_pairs stages).

Definition Create (json_unmarshal : string → option Plan) (ids : nat → uuid)
    (record : RunRecord) (m : MemoryStore) : MemoryStore * result RunError RunRecord :=
  match json_unmarshal (rn_Plan record) with
  | None => (m, Err ErrDecodePlan)
  | Some plan =>
    if existsb (λ existing, rn_ID existing =? rn_ID record) (ms_records m) then (m, Err ErrRunExists)
    else (set_jobs (ms_jobs m ++ plan_jobs (rn_ID record) ids (pn_Stages plan))
            (set_records (record :: ms_records m) m), Ok record)
  end.

Definition List_ (limit : Z) (m : MemoryStore) : list RunRecord :=
  let n := Z.of_nat (length (ms_records m)) in
  let limit := if (limit <=? 0) || (n <? limit) then n else limit in
  take (Z.to_nat limit) (ms_records m).

Definition setRunStatus (runID : uuid) (st : Status) (m : MemoryStore) : MemoryStore :=
  set_records (update_first (λ r, rn_ID r =? runID) (with_status st) (ms_records m)) m.

Definition setRunStarted (runID : uuid) (m : MemoryStore) : MemoryStore :=
  set_records (update_first (λ r, (rn_ID r =? runID) && (rn_StartedAt r =? None))
    (with_started (Some (ms_now m))) (ms_records m)) m.

Definition leaseDuration (jobTimeout : duration) : duration :=
  (if jobTimeout <=? 0 then 30 * Minute else jobTimeout) + 5 * Minute.

(** [ClaimJob]; [token] is the value of [randomToken()]. *)
Definition ClaimJob (token : string) (m : MemoryStore) : MemoryStore * option Assignment :=
  match find_index (λ j, mj_status j =? JobQueued) (ms_jobs m) with
  | None => (m, None)
  | Some i =>
    match ms_jobs m !! i with
    | None => (m, None)
    | Some job =>
      let expires := ms_now m + leaseDuration (pj_Timeout (as_Spec (mj_assignment job))) in
      let job' := job_with_lease token expires (job_with_status JobAssigned job) in
      let m := update_job i (λ _, job') m in
      let m := setRunStatus (mj_run job) StatusRunning (setRunStarted (mj_run job) m) in
      (m, Some (mj_assignment job'))
    end
  end.

Definition findJob (id : uuid) (m : MemoryStore) : option nat :=
  find_index (λ j, mj_id j =? id) (ms_jobs m).

Definition validLease (now : time) (job : memoryJob) (token : string) : bool :=
  (now <? mj_expires job) && (mj_token job =? token).

Definition StartJob (id : uuid) (token : string) (m : MemoryStore) : MemoryStore * result RunError unit :=
  match findJob id m with
  | None => (m, Err ErrJobNotFound)
  | Some i =>
    match ms_jobs m !! i with
    | None => (m, Err ErrJobNotFound)
    | Some job =>
      if negb (validLease (ms_now m) job token) || (mj_status job <>? JobAssigned)
      then (m, Err ErrLeaseInvalid)
      else (update_job i (job_with_status JobRunning) m, Ok tt)
    end
  end.

(** [states]: the last status recorded under each key of the run. *)
Definition key_states (runID : uuid) (jobs : list memoryJob) : gmap string JobStatus :=
  foldl (λ states job, if mj_run job =? runID then <[mj_key job := mj_status job]> states else states)
    ∅ jobs.

Definition deps_succeeded (states : gmap string JobStatus) (job : memoryJob) : bool :=
  forallb (λ dependency, states !! dependency =? Some JobSucceeded) (mj_dependencies job).

Definition unblock (runID : uuid) (m : MemoryStore) : MemoryStore :=
  let states := key_states runID (ms_jobs m) in
  set_jobs (update_all (λ job, (mj_run job =? runID) && (mj_status job =? JobBlocked)
                               && deps_succeeded states job)
              (job_with_status JobQueued) (ms_jobs m)) m.

(** The loops that mark what has not started of a failed run. *)
Definition skip_pending (runID : uuid) (m : MemoryStore) : MemoryStore :=
  set_jobs (update_all (λ job, (mj_run job =? runID)
                               && ((mj_status job =? JobBlocked) || (mj_status job =? JobQueued)))
              (job_with_status JobSkipped) (ms_jobs m)) m.

Definition setRunFinished (runID : uuid) (m : MemoryStore) : MemoryStore :=
  set_records (update_first (λ r, rn_ID r =? runID) (with_finished (Some (ms_now m))) (ms_records m)) m.

Definition run_jobs (runID : uuid) (jobs : list memoryJob) : list memoryJob :=
  filter (λ job, mj_run job = runID) jobs.

(** The final status of a run whose jobs have these statuses. *)
Definition final_status (statuses : list JobStatus) : Status :=
  if bool_decide (JobFailed ∈ statuses) then StatusFailed
  else if bool_decide (JobCanceled ∈ statuses) then StatusCanceled
  else StatusSucceeded.

Definition finalizeRun (runID : uuid) (m : MemoryStore) : MemoryStore :=
  let statuses := mj_status <$> run_jobs runID (ms_jobs m) in
  if existsb job_open statuses then m
  else setRunFinished runID (setRunStatus runID (final_status statuses) m).

(** What [CompleteJob] and [CompleteRunnerJob] do after recording the outcome. *)
Definition after_completion (runID : uuid) (outcome : JobStatus) (m : MemoryStore) : MemoryStore :=
  finalizeRun runID (if outcome =? JobSucceeded then unblock runID m else skip_pending runID m).

Definition CompleteJob (id : uuid) (token : string) (status : JobStatus) (m : MemoryStore)
    : MemoryStore * result RunError unit :=
  if negb (job_outcome status) then (m, Err ErrInvalidTerminalStatus)
  else match findJob id m with
  | None => (m, Err ErrJobNotFound)
  | Some i =>
    match ms_jobs m !! i with
    | None => (m, Err ErrJobNotFound)
    | Some job =>
      if negb (validLease (ms_now m) job token) || negb (job_leased (mj_status job))
      then (m, Err ErrLeaseInvalid)
      else
        let m := update_job i (λ j, job_with_lease "" (mj_expires j) (job_with_status status j)) m in
        (after_completion (mj_run job) status m, Ok tt)
    end
  end.

(** ** runner_memory.go *)

Definition leaseAlive (now : time) (job : memoryJob) : bool := now <? mj_expires job.

Definition validRunnerLease (now : time) (job : memoryJob) (runnerID : uuid) (token : string) : bool :=
  (mj_runnerID job =? runnerID) && leaseAlive now job && (mj_token job =? token).

(** The number of live leases that a runner holds. *)
Definition active_leases (now : time) (runnerID : uuid) (jobs : list memoryJob) : Z :=
  Z.of_nat (length (filter (λ job, ((mj_runnerID job =? runnerID) && job_leased (mj_status job)
                                   && leaseAlive now job) = true) jobs)).

Section RunnerOperations.
Context `{MapOrder}.

Definition ClaimRunnerJob (token : string) (runnerID : uuid) (m : MemoryStore)
    : MemoryStore * result RunError (option Assignment) :=
  if runnerID =? uuid_Nil then (m, Err ErrInvalidRunnerRequest)
  else match ms_runners m !! runnerID with
  | None => (m, Err ErrInvalidRunnerRequest)
  | Some runner =>
    if rd_Capacity runner <=? active_leases (ms_now m) (rd_ID runner) (ms_jobs m) then (m, Ok None)
    else match find_index (λ j, (mj_status j =? JobQueued)
                                && runnerMatches (as_Spec (mj_assignment j)) runner) (ms_jobs m) with
    | None => (m, Ok None)
    | Some i =>
      match ms_jobs m !! i with
      | None => (m, Ok None)
      | Some job =>
        let now := ms_now m in
        let job' := job_with_lease token (now + RunnerLeaseDuration)
          (job_with_renewed (Some now) (job_with_accepted None
            (job_with_runner (rd_ID runner) (job_with_status JobAssigned job)))) in
        let m := update_job i (λ _, job') m in
        let m := setRunStatus (mj_run job) StatusRunning (setRunStarted (mj_run job) m) in
        (m, Ok (Some (mj_assignment job')))
      end
    end
  end.

(** The common guard: the job and its index when the lease of the request is
    valid and [ok] holds for the job. *)
Definition leased_job (runnerID jobID : uuid) (token : string) (ok : memoryJob → bool)
    (m : MemoryStore) : option (nat * memoryJob) :=
  match findJob jobID m with
  | None => None
  | Some i =>
    match ms_jobs m !! i with
    | None => None
    | Some job =>
      if validRunnerLease (ms_now m) job runnerID token && ok job then Some (i, job) else None
    end
  end.

Definition lease_state (job : memoryJob) : LeaseState := mkLeaseState (mj_id job) (mj_expires job).

Definition AcknowledgeRunnerJob (request : LeaseRequest) (m : MemoryStore)
    : MemoryStore * result RunError LeaseState :=
  if negb (validateLeaseRequest request) then (m, Err ErrInvalidRunnerRequest)
  else match leased_job (lr_RunnerID request) (lr_JobID request) (lr_LeaseToken request)
               (λ job, job_leased (mj_status job)) m with
  | None => (m, Err ErrLeaseInvalid)
  | Some (i, job) =>
    let m' := if mj_acceptedAt job =? None
              then update_job i (job_with_accepted (Some (ms_now m))) m else m in
    (m', Ok (lease_state job))
  end.

Definition ReleaseRunnerJob (request : LeaseRequest) (m : MemoryStore)
    : MemoryStore * result RunError unit :=
  if negb (validateLeaseRequest request) then (m, Err ErrInvalidRunnerRequest)
  else match leased_job (lr_RunnerID request) (lr_JobID request) (lr_LeaseToken request)
               (λ job, (mj_status job =? JobAssigned) && (mj_acceptedAt job =? None)) m with
  | None => (m, Err ErrLeaseInvalid)
  | Some (i, _) =>
    (update_job i (λ j, job_with_renewed None (job_with_lease "" time_zero
      (job_with_runner uuid_Nil (job_with_status JobQueued j)))) m, Ok tt)
  end.

Definition StartRunnerJob (request : LeaseRequest) (m : MemoryStore)
    : MemoryStore * result RunError LeaseState :=
  if negb (validateLeaseRequest request) then (m, Err ErrInvalidRunnerRequest)
  else match leased_job (lr_RunnerID request) (lr_JobID request) (lr_LeaseToken request)
               (λ job, (mj_acceptedAt job <>? None) && job_leased (mj_status job)) m with
  | None => (m, Err ErrLeaseInvalid)
  | Some (i, job) => (update_job i (job_with_status JobRunning) m, Ok (lease_state job))
  end.

(** One turn of the loop over the active jobs of a heartbeat. *)
Definition renew_lease (runnerID : uuid) (expires : time) (active : ActiveLease) (m : MemoryStore)
    : MemoryStore * LeaseResult :=
  match leased_job runnerID (al_JobID active) (al_LeaseToken active)
          (λ job, job_leased (mj_status job)) m with
  | None => (m, mkLeaseResult (al_JobID active) false time_zero "lease_invalid")
  | Some (i, job) =>
    (update_job i (λ j, job_with_renewed (Some (ms_now m)) (job_with_lease (mj_token j) expires j)) m,
     mkLeaseResult (al_JobID active) true expires "")
  end.

Fixpoint renew_leases (runnerID : uuid) (expires : time) (active : list ActiveLease) (m : MemoryStore)
    : MemoryStore * list LeaseResult :=
  match active with
  | [] => (m, [])
  | a :: active =>
    let '(m, r) := renew_lease runnerID expires a m in
    let '(m, rs) := renew_leases runnerID expires active m in
    (m, r :: rs)
  end.

Definition RenewRunnerLeases (request : HeartbeatRequest) (m : MemoryStore)
    : MemoryStore * result RunError HeartbeatResult :=
  if negb (ValidateHeartbeatRequest request) then (m, Err ErrInvalidRunnerRequest)
  else
    let runner := hb_Runner request in
    let m := set_runners (<[rd_ID runner := runner]> (ms_runners m)) m in
    let expires := ms_now m + RunnerLeaseDuration in
    let '(m, jobs) := renew_leases (rd_ID runner) expires (hb_ActiveJobs request) m in
    (m, Ok (mkHeartbeatResult expires jobs)).

Definition CompleteRunnerJob (request : RunnerCompletion) (m : MemoryStore)
    : MemoryStore * result RunError unit :=
  if (rc_RunnerID request =? uuid_Nil) || (rc_JobID request =? uuid_Nil)
     || (rc_LeaseToken request =? "")
  then (m, Err ErrInvalidRunnerRequest)
  else if negb (job_outcome (rc_Status request)) then (m, Err ErrInvalidTerminalStatus)
  else match leased_job (rc_RunnerID request) (rc_JobID request) (rc_LeaseToken request)
               (λ job, job_leased (mj_status job)) m with
  | None => (m, Err ErrLeaseInvalid)
  | Some (i, job) =>
    let m := update_job i (λ j, job_with_runner uuid_Nil (job_with_lease "" (mj_expires j)
      (job_with_status (rc_Status request) j))) m in
    (after_completion (mj_run job) (rc_Status request) m, Ok tt)
  end.
End RunnerOperations.

(** ** recovery_memory.go *)

Definition resetRunAfterRequeue (runID : uuid) (m : MemoryStore) : MemoryStore :=
  if existsb (λ job, (mj_run job =? runID)
       && ((mj_status job =? JobRunning) || (mj_status job =? JobSucceeded)
           || (mj_status job =? JobFailed) || (mj_status job =? JobCanceled))) (ms_jobs m)
  then m
  else set_records (update_first (λ r, rn_ID r =? runID)
         (λ r, with_finished None (with_started None (with_status StatusQueued r))) (ms_records m)) m.

(** Requeue an assigned job whose lease expired. *)
Definition requeue_expired (i : nat) (job : memoryJob) (m : MemoryStore) : MemoryStore :=
  resetRunAfterRequeue (mj_run job)
    (update_job i (λ j, job_with_lease "" (ms_now m) (job_with_renewed None (job_with_accepted None
      (job_with_runner uuid_Nil (job_with_status JobQueued j))))) m).

(** Fail a running job whose lease expired, and its run. *)
Definition fail_expired (i : nat) (job : memoryJob) (m : MemoryStore) : MemoryStore :=
  let m := update_job i (λ j, job_with_renewed None (job_with_lease "" (mj_expires j)
    (job_with_status JobFailed j))) m in
  let m := setRunStatus (mj_run job) StatusFailed (skip_pending (mj_run job) m) in
  set_records (update_all (λ r, rn_ID r =? mj_run job) (with_finished (Some (ms_now m)))
    (ms_records m)) m.

(** The loop over [m.jobs]: each element is read when the loop reaches it. *)
Fixpoint recover_jobs (limit : Z) (indices : list nat) (processed : Z) (result : RecoveryResult)
    (m : MemoryStore) : MemoryStore * RecoveryResult :=
  match indices with
  | [] => (m, result)
  | i :: indices =>
    match ms_jobs m !! i with
    | None => recover_jobs limit indices processed result m
    | Some job =>
      if (limit <=? processed) || negb (job_leased (mj_status job)) || leaseAlive (ms_now m) job
      then recover_jobs limit indices processed result m
      else if mj_status job =? JobAssigned
      then recover_jobs limit indices (processed + 1)
             (mkRecovery (rv_Requeued result + 1) (rv_Failed result)) (requeue_expired i job m)
      else recover_jobs limit indices (processed + 1)
             (mkRecovery (rv_Requeued result) (rv_Failed result + 1)) (fail_expired i job m)
    end
  end.

Definition RecoverExpiredRunnerLeases (limit : Z) (m : MemoryStore)
    : MemoryStore * result RunError RecoveryResult :=
  if (limit <? 1) || (MaximumRecoveryBatch <? limit) then (m, Err ErrInvalidRecoveryLimit)
  else let '(m, r) := recover_jobs limit (seq 0 (length (ms_jobs m))) 0 (mkRecovery 0 0) m in
       (m, Ok r).
