(* ===== verification/Scheduler.v ===== *)
(** The abstract job scheduler: what every run store promises about the order in
    which the jobs of a run execute.  A state is the list of jobs with their
    dependencies and statuses; leases, runners, times and records are abstracted
    away.  The stores are shown to refine it; the invariant and its consequences
    (dependency order, absence of deadlock) are proved here once. *)

From stdpp Require Import relations.
From S2P Require Import Prelude RunModel.

Record ajob := mkAjob {
  aj_id : uuid;
  aj_run : uuid;
  aj_key : string;
  aj_deps : list string;
  aj_status : JobStatus;
}.

Definition aj_set (st : JobStatus) (j : ajob) : ajob :=
  mkAjob (aj_id j) (aj_run j) (aj_key j) (aj_deps j) st.

(** The part of a job that no operation changes. *)
Definition skeleton (j : ajob) : uuid * uuid * string * list string :=
  (aj_id j, aj_run j, aj_key j, aj_deps j).

(** [key] names a job of the run that succeeded. *)
Definition succeeded (jobs : list ajob) (run : uuid) (key : string) : bool :=
  existsb (λ j, (aj_run j =? run) && (aj_key j =? key) && (aj_status j =? JobSucceeded)) jobs.

Definition ready (jobs : list ajob) (j : ajob) : bool :=
  forallb (succeeded jobs (aj_run j)) (aj_deps j).

(** Blocked jobs of the run whose dependencies have all succeeded are queued. *)
Definition a_unblock (run : uuid) (jobs : list ajob) : list ajob :=
  update_all (λ j, (aj_run j =? run) && (aj_status j =? JobBlocked) && ready jobs j)
    (aj_set JobQueued) jobs.

(** Jobs of the run that have not been handed out are skipped. *)
Definition a_skip (run : uuid) (jobs : list ajob) : list ajob :=
  update_all (λ j, (aj_run j =? run) && ((aj_status j =? JobBlocked) || (aj_status j =? JobQueued)))
    (aj_set JobSkipped) jobs.

Definition a_cancel (run : uuid) (jobs : list ajob) : list ajob :=
  update_all (λ j, (aj_run j =? run) && job_open (aj_status j)) (aj_set JobCanceled) jobs.

Definition a_propagate (run : uuid) (outcome : JobStatus) (jobs : list ajob) : list ajob :=
  if outcome =? JobSucceeded then a_unblock run jobs else a_skip run jobs.

(** *** Dependency graph of a run, over keys *)

Definition dep_edge (jobs : list ajob) (run : uuid) (b a : string) : Prop :=
  ∃ j, j ∈ jobs ∧ aj_run j = run ∧ aj_key j = a ∧ b ∈ aj_deps j.

(** The status of a new job: queued when its dependencies have succeeded, blocked
    otherwise; a new run may take over successes of an earlier one. *)
Definition status_fits (news : list ajob) (j : ajob) : Prop :=
  match aj_status j with
  | JobQueued | JobSucceeded => ready news j = true
  | JobBlocked => ready news j = false
  | _ => False
  end.

(** A batch of jobs that a new run may add. *)
Record submission (jobs news : list ajob) (run : uuid) : Prop := {
  sub_run : ∀ j, j ∈ news → aj_run j = run;
  sub_fresh : ∀ j, j ∈ jobs → aj_run j ≠ run;
  sub_ids : NoDup (aj_id <$> jobs ++ news);
  sub_keys : NoDup (aj_key <$> news);
  sub_deps : ∀ j d, j ∈ news → d ∈ aj_deps j → d ∈ aj_key <$> news;
  sub_wf : ∀ a, Acc (dep_edge news run) a;
  sub_status : ∀ j, j ∈ news → status_fits news j;
}.

(** *** Steps *)

Inductive sstep (jobs : list ajob) : list ajob → Prop :=
| s_submit news run :
    submission jobs news run → sstep jobs (jobs ++ news)
| s_assign i j :
    jobs !! i = Some j → aj_status j = JobQueued →
    sstep jobs (alter (aj_set JobAssigned) i jobs)
| s_start i j :
    jobs !! i = Some j → job_leased (aj_status j) = true →
    sstep jobs (alter (aj_set JobRunning) i jobs)
| s_requeue i j :
    jobs !! i = Some j → aj_status j = JobAssigned →
    sstep jobs (alter (aj_set JobQueued) i jobs)
| s_complete i j outcome :
    jobs !! i = Some j → job_leased (aj_status j) = true → job_outcome outcome = true →
    sstep jobs (a_propagate (aj_run j) outcome (alter (aj_set outcome) i jobs))
| s_cancel run :
    sstep jobs (a_cancel run jobs).

(** *** Invariant *)

(** The statuses of a job that has been released for execution. *)
Definition released (s : JobStatus) : bool :=
  (s =? JobQueued) || (s =? JobAssigned) || (s =? JobRunning) || (s =? JobSucceeded) || (s =? JobFailed).
(** The statuses that only an unsuccessful run contains. *)
Definition unsuccessful (s : JobStatus) : bool :=
  (s =? JobFailed) || (s =? JobCanceled) || (s =? JobSkipped).

(** What never changes once a job exists. *)
Record structure (jobs : list ajob) : Prop := {
  str_ids : NoDup (aj_id <$> jobs);
  str_keys : NoDup ((λ j, (aj_run j, aj_key j)) <$> jobs);
  str_deps : ∀ j d, j ∈ jobs → d ∈ aj_deps j →
    ∃ k, k ∈ jobs ∧ aj_run k = aj_run j ∧ aj_key k = d;
  str_wf : ∀ run a, Acc (dep_edge jobs run) a;
}.

Record sinv (jobs : list ajob) : Prop := {
  inv_structure : structure jobs;
  inv_released : ∀ j, j ∈ jobs → released (aj_status j) = true → ready jobs j = true;
  inv_blocked : ∀ j, j ∈ jobs → aj_status j = JobBlocked → ready jobs j = false;
  inv_clean : ∀ j k, j ∈ jobs → k ∈ jobs → aj_run j = aj_run k →
    aj_status j = JobBlocked → unsuccessful (aj_status k) = false;
  inv_skipped : ∀ j, j ∈ jobs → aj_status j = JobSkipped →
    ∃ k, k ∈ jobs ∧ aj_run k = aj_run j ∧ (aj_status k = JobFailed ∨ aj_status k = JobCanceled);
}.

Lemma succeeded_spec jobs run key :
  succeeded jobs run key = true ↔
  ∃ k, k ∈ jobs ∧ aj_run k = run ∧ aj_key k = key ∧ aj_status k = JobSucceeded.
Proof.
  unfold succeeded. rewrite existsb_exists. setoid_rewrite <-list_elem_of_In.
  setoid_rewrite andb_true_iff. setoid_rewrite andb_true_iff.
  setoid_rewrite bool_decide_eq_true. naive_solver.
Qed.

Lemma ready_spec jobs j :
  ready jobs j = true ↔ ∀ d, d ∈ aj_deps j → succeeded jobs (aj_run j) d = true.
Proof. unfold ready. rewrite forallb_forall. by setoid_rewrite <-list_elem_of_In. Qed.

(** *** The structure only depends on the skeletons *)

Section Structure.
Implicit Types jobs : list ajob.

Lemma elem_of_skeleton jobs jobs' j :
  skeleton <$> jobs = skeleton <$> jobs' → j ∈ jobs →
  ∃ j', j' ∈ jobs' ∧ skeleton j' = skeleton j.
Proof.
  intros Heq Hj. assert (Hs : skeleton j ∈ skeleton <$> jobs) by by apply list_elem_of_fmap_2.
  rewrite Heq in Hs. apply list_elem_of_fmap in Hs as (j' & ? & ?). eauto.
Qed.

Lemma dep_edge_skeleton jobs jobs' run b a :
  skeleton <$> jobs = skeleton <$> jobs' → dep_edge jobs run b a → dep_edge jobs' run b a.
Proof.
  intros Heq (j & Hj & Hr & Hk & Hb). destruct (elem_of_skeleton _ _ _ Heq Hj) as (j' & ? & Hs).
  exists j'. injection Hs as Hid Hrun Hkey Hdeps. rewrite Hrun, Hkey, Hdeps. done.
Qed.

Lemma structure_skeleton jobs jobs' :
  skeleton <$> jobs = skeleton <$> jobs' → structure jobs → structure jobs'.
Proof.
  intros Heq [Hids Hkeys Hdeps Hwf]. split.
  - assert (aj_id <$> jobs' = (λ s, s.1.1.1) <$> (skeleton <$> jobs')) as ->
      by by rewrite <-list_fmap_compose.
    rewrite <-Heq, <-list_fmap_compose. done.
  - assert ((λ j, (aj_run j, aj_key j)) <$> jobs' =
      (λ s, (s.1.1.2, s.1.2)) <$> (skeleton <$> jobs')) as -> by by rewrite <-list_fmap_compose.
    rewrite <-Heq, <-list_fmap_compose. done.
  - intros j d Hj Hd.
    destruct (elem_of_skeleton _ _ _ (eq_sym Heq) Hj) as (j0 & Hj0 & Hs0).
    injection Hs0 as _ Hr0 _ Hd0.
    destruct (Hdeps j0 d Hj0) as (k0 & Hk0 & Hr & Hk); [congruence|].
    destruct (elem_of_skeleton _ _ _ Heq Hk0) as (k & Hk' & Hs).
    injection Hs as _ Hr' Hk'' _. exists k. split; [done|]. split; congruence.
  - intros run a. specialize (Hwf run a). induction Hwf as [a _ IH]. constructor.
    intros b Hb. apply IH. by eapply dep_edge_skeleton.
Qed.

Lemma skeleton_alter st i jobs : skeleton <$> alter (aj_set st) i jobs = skeleton <$> jobs.
Proof.
  apply list_eq. intros k. rewrite !list_lookup_fmap, list_lookup_alter.
  case_decide; subst; by destruct (jobs !! _).
Qed.

Lemma skeleton_update_all p st jobs : skeleton <$> update_all p (aj_set st) jobs = skeleton <$> jobs.
Proof.
  apply list_eq. intros k. rewrite !list_lookup_fmap, lookup_update_all.
  destruct (jobs !! k) as [j|]; [|done]. simpl. by destruct (p j).
Qed.

Lemma str_key_unique jobs i k j j' :
  structure jobs → jobs !! i = Some j → jobs !! k = Some j' →
  aj_run j = aj_run j' → aj_key j = aj_key j' → i = k.
Proof.
  intros Hs Hi Hk Hr Hkey. eapply (NoDup_lookup _ i k _ (str_keys _ Hs)).
  - rewrite list_lookup_fmap, Hi. done.
  - rewrite list_lookup_fmap, Hk. simpl. by rewrite Hr, Hkey.
Qed.
End Structure.

(** *** Every step preserves the invariant *)

Section Preservation.
Implicit Types jobs : list ajob.

(** Monotonicity of [ready] in the set of succeeded jobs. *)
Lemma ready_mono jobs jobs' j j' :
  (∀ d, succeeded jobs (aj_run j) d = true → succeeded jobs' (aj_run j) d = true) →
  aj_run j = aj_run j' → aj_deps j = aj_deps j' →
  ready jobs j = true → ready jobs' j' = true.
Proof. intros Hs Hr Hd. rewrite !ready_spec, <-Hr, <-Hd. auto. Qed.

(** The jobs after a pointwise change of statuses, seen one job at a time. *)
Definition repaint (f : nat → ajob → JobStatus) jobs : list ajob :=
  imap (λ i j, aj_set (f i j) j) jobs.

Lemma elem_of_repaint f jobs j' :
  j' ∈ repaint f jobs ↔ ∃ i j, jobs !! i = Some j ∧ j' = aj_set (f i j) j.
Proof.
  rewrite list_elem_of_lookup. unfold repaint. setoid_rewrite list_lookup_imap.
  setoid_rewrite fmap_Some. naive_solver.
Qed.

Lemma skeleton_repaint f jobs : skeleton <$> repaint f jobs = skeleton <$> jobs.
Proof.
  apply list_eq. intros k. unfold repaint. rewrite !list_lookup_fmap, list_lookup_imap.
  by destruct (jobs !! k).
Qed.

Lemma succeeded_repaint f jobs run d :
  succeeded (repaint f jobs) run d = true ↔
  ∃ i k, jobs !! i = Some k ∧ aj_run k = run ∧ aj_key k = d ∧ f i k = JobSucceeded.
Proof.
  rewrite succeeded_spec. split.
  - intros (k' & (i & k & Hk & ->)%elem_of_repaint & ?). by exists i, k.
  - intros (i & k & Hk & ?). exists (aj_set (f i k) k). split; [|done].
    apply elem_of_repaint. eauto.
Qed.

Lemma aj_set_same j : aj_set (aj_status j) j = j.
Proof. by destruct j. Qed.

Lemma alter_repaint st i jobs :
  alter (aj_set st) i jobs = repaint (λ k j, if bool_decide (k = i) then st else aj_status j) jobs.
Proof.
  apply list_eq. intros k. unfold repaint. rewrite list_lookup_imap, list_lookup_alter.
  case_decide as Heq; [subst; rewrite bool_decide_eq_true_2 by done; by destruct (jobs !! _)|].
  rewrite bool_decide_eq_false_2 by done.
  destruct (jobs !! k); simpl; [by rewrite aj_set_same|done].
Qed.

Lemma update_all_repaint p st jobs :
  update_all p (aj_set st) jobs = repaint (λ _ j, if p j then st else aj_status j) jobs.
Proof.
  apply list_eq. intros k. unfold repaint. rewrite list_lookup_imap, lookup_update_all.
  destruct (jobs !! k) as [j|]; simpl; [|done]. destruct (p j); [done|by rewrite aj_set_same].
Qed.

(** Readiness only depends on which jobs have succeeded. *)
Lemma ready_repaint f jobs st j :
  (∀ i j, jobs !! i = Some j → f i j = JobSucceeded ↔ aj_status j = JobSucceeded) →
  ready (repaint f jobs) (aj_set st j) = ready jobs j.
Proof.
  intros Hsucc. apply eq_true_iff_eq. rewrite !ready_spec. simpl.
  assert (Heq : ∀ d, succeeded (repaint f jobs) (aj_run j) d = true ↔ succeeded jobs (aj_run j) d = true).
  { intros d. rewrite succeeded_repaint, succeeded_spec. setoid_rewrite list_elem_of_lookup.
    split; [intros (l & k & Hk & ? & ? & Hf)|intros (k & (l & Hk) & ? & ? & Hf)].
    - exists k. split; [eauto|]. split; [done|]. split; [done|]. by eapply Hsucc.
    - exists l, k. split; [done|]. split; [done|]. split; [done|]. by eapply Hsucc. }
  setoid_rewrite Heq. done.
Qed.

(** A change of statuses that creates no success, releases no job and leaves no
    blocked job beside an unsuccessful one keeps the invariant. *)
Lemma repaint_quiet f jobs :
  sinv jobs →
  (∀ i j, jobs !! i = Some j → f i j = JobSucceeded ↔ aj_status j = JobSucceeded) →
  (∀ i j, jobs !! i = Some j → released (f i j) = true → released (aj_status j) = true) →
  (∀ i j, jobs !! i = Some j → f i j = JobBlocked → aj_status j = JobBlocked) →
  (∀ i j l k, jobs !! i = Some j → jobs !! l = Some k → aj_run j = aj_run k →
     f i j = JobBlocked → unsuccessful (f l k) = true → unsuccessful (aj_status k) = true) →
  (∀ i j, jobs !! i = Some j → f i j = JobSkipped →
     ∃ l k, jobs !! l = Some k ∧ aj_run k = aj_run j ∧ (f l k = JobFailed ∨ f l k = JobCanceled)) →
  sinv (repaint f jobs).
Proof.
  intros Hinv Hsucc Hrel Hblk Hclean Hskip.
  pose proof (λ st j, ready_repaint f jobs st j Hsucc) as Hready.
  split.
  - eapply structure_skeleton; [symmetry; apply skeleton_repaint|]. apply Hinv.
  - intros j' (i & j & Hj & ->)%elem_of_repaint Hr. rewrite Hready.
    eapply inv_released; [done|by eapply list_elem_of_lookup_2|by eapply Hrel].
  - intros j' (i & j & Hj & ->)%elem_of_repaint Hb. rewrite Hready.
    eapply inv_blocked; [done|by eapply list_elem_of_lookup_2|by eapply Hblk].
  - intros j' k' (i & j & Hj & ->)%elem_of_repaint (l & k & Hk & ->)%elem_of_repaint Hr Hb.
    simpl in *. destruct (unsuccessful (f l k)) eqn:Hu; [|done].
    rewrite <-(Hclean i j l k Hj Hk Hr Hb Hu).
    apply (inv_clean _ Hinv j k); eauto using list_elem_of_lookup_2.
  - intros j' (i & j & Hj & ->)%elem_of_repaint Hs. simpl in *.
    destruct (Hskip i j Hj Hs) as (l & k & Hk & Hr & Hf).
    exists (aj_set (f l k) k). split; [apply elem_of_repaint; eauto|]. done.
Qed.

(** Moving one job between the statuses of a released job. *)
Lemma move_inv jobs i j st :
  sinv jobs → jobs !! i = Some j → released (aj_status j) = true → aj_status j ≠ JobSucceeded →
  aj_status j ≠ JobFailed → st = JobQueued ∨ st = JobAssigned ∨ st = JobRunning →
  sinv (alter (aj_set st) i jobs).
Proof.
  intros Hinv Hj Hrel Hns Hnf Hst. rewrite alter_repaint.
  apply repaint_quiet; [done|..].
  - intros l k Hk. case_bool_decide; simplify_eq; [|done]. destruct Hst as [->|[->| ->]]; done.
  - intros l k Hk. case_bool_decide; simplify_eq; done.
  - intros l k Hk. case_bool_decide; simplify_eq; [|done]. destruct Hst as [->|[->| ->]]; done.
  - intros l k l' k' Hk Hk' Hr Hb. case_bool_decide; case_bool_decide; simplify_eq; try done;
      destruct Hst as [->|[->| ->]]; done.
  - intros l k Hk. case_bool_decide; simplify_eq; [destruct Hst as [->|[->| ->]]; done|].
    intros Hs. destruct (inv_skipped _ Hinv k) as (k' & (l' & Hk')%list_elem_of_lookup & Hr & Hf);
      [by eapply list_elem_of_lookup_2|done|].
    exists l', k'. split; [done|]. split; [done|]. case_bool_decide; simplify_eq; [|done].
    destruct Hf as [Hf|Hf]; rewrite Hf in *; done.
Qed.

Lemma cancel_inv run jobs : sinv jobs → sinv (a_cancel run jobs).
Proof.
  intros Hinv. unfold a_cancel. rewrite update_all_repaint. apply repaint_quiet; [done|..].
  - intros i j Hj. destruct ((aj_run j =? run) && _) eqn:Hp; [|done]. bools.
    by destruct (aj_status j).
  - intros i j Hj. by destruct (_ && _).
  - intros i j Hj. by destruct (_ && _).
  - intros i j l k Hj Hk Hr. destruct ((aj_run j =? run) && _) eqn:Hp; [done|]. intros Hb.
    destruct ((aj_run k =? run) && _) eqn:Hq; [|done]. bools.
    rewrite Hb in Hp. destruct Hp; bools; [congruence|done].
  - intros i j Hj. destruct ((aj_run j =? run) && _) eqn:Hp; [done|]. intros Hs.
    destruct (inv_skipped _ Hinv j) as (k & (l & Hk)%list_elem_of_lookup & Hr & Hf);
      [by eapply list_elem_of_lookup_2|done|].
    exists l, k. split; [done|]. split; [done|].
    destruct ((aj_run k =? run) && _); [by right|done].
Qed.

(** An unsuccessful outcome: the job leaves its lease and the rest is skipped. *)
Lemma fail_inv jobs i j outcome :
  sinv jobs → jobs !! i = Some j → job_leased (aj_status j) = true →
  outcome = JobFailed ∨ outcome = JobCanceled →
  sinv (a_skip (aj_run j) (alter (aj_set outcome) i jobs)).
Proof.
  intros Hinv Hj Hl Ho.
  set (f := λ l k, if bool_decide (l = i) then outcome
    else if (aj_run k =? aj_run j) && ((aj_status k =? JobBlocked) || (aj_status k =? JobQueued))
         then JobSkipped else aj_status k).
  assert (a_skip (aj_run j) (alter (aj_set outcome) i jobs) = repaint f jobs) as ->.
  { apply list_eq. intros l. unfold a_skip, repaint.
    rewrite lookup_update_all, list_lookup_imap, list_lookup_alter. unfold f.
    case_decide as Hli; [subst l; rewrite Hj, bool_decide_eq_true_2 by done; simpl;
      rewrite bool_decide_eq_true_2 by done; by destruct Ho as [-> | ->]|].
    rewrite bool_decide_eq_false_2 by done.
    destruct (jobs !! l) as [k|]; simpl; [|done]. destruct (_ && _); [done|by rewrite aj_set_same]. }
  apply repaint_quiet; [done|unfold f..].
  - intros l k Hk. case_bool_decide as Hli.
    + subst l. assert (k = j) as -> by congruence.
      destruct Ho as [-> | ->]; split; intros Heq; try done; by rewrite Heq in Hl.
    + destruct (_ && _) eqn:Hp; [|done]. bools.
      destruct H0 as [Hq|Hq]; bools; rewrite Hq; done.
  - intros l k Hk. case_bool_decide as Hli; [|by destruct (_ && _)].
    subst l. assert (k = j) as -> by congruence. intros _. by destruct (aj_status j).
  - intros l k Hk. case_bool_decide as Hli; [by destruct Ho as [-> | ->]|by destruct (_ && _)].
  - intros l k l' k' Hk Hk' Hr. case_bool_decide as Hli; [by destruct Ho as [-> | ->]|].
    destruct ((aj_run k =? aj_run j) && _) eqn:Hp; [done|]. intros Hb.
    rewrite Hb in Hp. bools. destruct Hp as [Hp|Hp]; [|done]. bools.
    rewrite (bool_decide_eq_false_2 (aj_run k' = aj_run j)) by congruence.
    case_bool_decide as Hli'; [|done]. subst l'. congruence.
  - intros l k Hk Hs.
    assert (∃ l' k', jobs !! l' = Some k' ∧ aj_run k' = aj_run k ∧
      (l' = i ∨ (aj_status k' = JobFailed ∨ aj_status k' = JobCanceled))) as (l' & k' & Hk' & Hr & Hf).
    { case_bool_decide as Hli; [by destruct Ho as [-> | ->]|].
      destruct ((aj_run k =? aj_run j) && _) eqn:Hp; [bools; exists i, j; auto|].
      destruct (inv_skipped _ Hinv k) as (k' & (l' & Hk')%list_elem_of_lookup & ? & ?);
        [by eapply list_elem_of_lookup_2|done|]. naive_solver. }
    exists l', k'. split; [done|]. split; [done|]. clear Hs.
    case_bool_decide as Hli'; [done|]. destruct Hf as [->|Hf]; [done|].
    destruct ((aj_run k' =? aj_run j) && _) eqn:Hp; [|done].
    bools. destruct Hf as [Hf|Hf]; rewrite Hf in *; naive_solver.
Qed.

(** The invariant while the blocked jobs of [run] have not been examined. *)
Record sinv_but (run : uuid) jobs : Prop := {
  but_structure : structure jobs;
  but_released : ∀ j, j ∈ jobs → released (aj_status j) = true → ready jobs j = true;
  but_blocked : ∀ j, j ∈ jobs → aj_run j ≠ run → aj_status j = JobBlocked → ready jobs j = false;
  but_clean : ∀ j k, j ∈ jobs → k ∈ jobs → aj_run j = aj_run k →
    aj_status j = JobBlocked → unsuccessful (aj_status k) = false;
  but_skipped : ∀ j, j ∈ jobs → aj_status j = JobSkipped →
    ∃ k, k ∈ jobs ∧ aj_run k = aj_run j ∧ (aj_status k = JobFailed ∨ aj_status k = JobCanceled);
}.

Lemma unblock_inv run jobs : sinv_but run jobs → sinv (a_unblock run jobs).
Proof.
  intros [Hstr Hrel Hblk Hclean Hskip]. unfold a_unblock. rewrite update_all_repaint.
  set (p := λ j, (aj_run j =? run) && (aj_status j =? JobBlocked) && ready jobs j).
  set (f := λ (_ : nat) j, if p j then JobQueued else aj_status j).
  change (sinv (repaint f jobs)).
  assert (Hsucc : ∀ i j, jobs !! i = Some j → f i j = JobSucceeded ↔ aj_status j = JobSucceeded).
  { intros i j Hj. unfold f. destruct (p j) eqn:Hp; [|done]. unfold p in Hp. bools.
    split; [done|congruence]. }
  pose proof (λ st j, ready_repaint f jobs st j Hsucc) as Hready.
  assert (Hp : ∀ j, p j = true → aj_status j = JobBlocked ∧ ready jobs j = true).
  { intros j Hp. unfold p in Hp. by bools. }
  assert (Hpf : ∀ j, p j = false → aj_run j = run → aj_status j = JobBlocked → ready jobs j = false).
  { intros j Hpj Hr Hb. unfold p in Hpj. rewrite Hr, Hb in Hpj.
    by rewrite !bool_decide_eq_true_2 in Hpj by done. }
  clearbody p. split.
  - eapply structure_skeleton; [symmetry; apply skeleton_repaint|done].
  - intros j' (i & j & Hj & ->)%elem_of_repaint Hr. rewrite Hready. cbn [aj_status aj_set] in Hr. unfold f in Hr.
    destruct (p j) eqn:Hpj; [by apply Hp|]. apply Hrel; [by eapply list_elem_of_lookup_2|done].
  - intros j' (i & j & Hj & ->)%elem_of_repaint Hb. rewrite Hready. cbn [aj_status aj_set] in Hb. unfold f in Hb.
    destruct (p j) eqn:Hpj; [done|]. destruct (decide (aj_run j = run)) as [Hr|Hr].
    + by apply Hpf.
    + apply Hblk; [by eapply list_elem_of_lookup_2|done|done].
  - intros j' k' (i & j & Hj & ->)%elem_of_repaint (l & k & Hk & ->)%elem_of_repaint Hr Hb.
    cbn [aj_status aj_set aj_run] in *. unfold f in *. destruct (p k) eqn:Hpk; [done|].
    apply (Hclean j k); [by eapply list_elem_of_lookup_2..|done|]. by destruct (p j).
  - intros j' (i & j & Hj & ->)%elem_of_repaint Hs. cbn [aj_status aj_set aj_run] in *. unfold f in Hs.
    destruct (p j) eqn:Hpj; [done|].
    destruct (Hskip j) as (k & (l & Hk)%list_elem_of_lookup & Hr & Hf);
      [by eapply list_elem_of_lookup_2|done|].
    exists (aj_set (f l k) k). split; [apply elem_of_repaint; eauto|]. split; [done|]. cbn [aj_status aj_set].
    unfold f. destruct (p k) eqn:Hpk; [|done]. apply Hp in Hpk as [Hpk _].
    rewrite Hpk in Hf. by destruct Hf.
Qed.

Lemma success_inv jobs i j :
  sinv jobs → jobs !! i = Some j → job_leased (aj_status j) = true →
  sinv_but (aj_run j) (alter (aj_set JobSucceeded) i jobs).
Proof.
  intros Hinv Hj Hl. rewrite alter_repaint.
  set (f := λ l k, if bool_decide (l = i) then JobSucceeded else aj_status k).
  assert (Hfi : ∀ l k, jobs !! l = Some k →
    (l = i ∧ k = j ∧ f l k = JobSucceeded) ∨ (l ≠ i ∧ f l k = aj_status k)).
  { intros l k Hk. unfold f. case_bool_decide; [left|by right]. subst. split; [done|].
    split; [congruence|done]. }
  assert (Hmono : ∀ run d, succeeded jobs run d = true → succeeded (repaint f jobs) run d = true).
  { intros run d. rewrite succeeded_repaint, succeeded_spec. setoid_rewrite list_elem_of_lookup.
    intros (k & (l & Hk) & ? & ? & Hs). exists l, k. split; [done|]. split; [done|]. split; [done|].
    destruct (Hfi l k Hk) as [(_ & _ & ?)|[_ ->]]; done. }
  assert (Hback : ∀ run d, run ≠ aj_run j → succeeded (repaint f jobs) run d = true →
    succeeded jobs run d = true).
  { intros run d Hne. rewrite succeeded_repaint, succeeded_spec.
    intros (l & k & Hk & ? & ? & Hs). exists k. split; [by eapply list_elem_of_lookup_2|].
    destruct (Hfi l k Hk) as [(_ & -> & _)|[_ Heq]]; [congruence|]. by rewrite <-Heq. }
  assert (Hleased : released (aj_status j) = true) by by destruct (aj_status j).
  split.
  - eapply structure_skeleton; [symmetry; apply skeleton_repaint|]. apply Hinv.
  - intros j' (l & k & Hk & ->)%elem_of_repaint Hr. cbn [aj_status aj_set] in Hr.
    apply (ready_mono jobs _ k); [auto|done|done|].
    apply (inv_released _ Hinv); [by eapply list_elem_of_lookup_2|].
    destruct (Hfi l k Hk) as [(_ & -> & _)|[_ Heq]]; [done|]. by rewrite <-Heq.
  - intros j' (l & k & Hk & ->)%elem_of_repaint Hne Hb. cbn [aj_status aj_set aj_run] in *.
    destruct (Hfi l k Hk) as [(_ & -> & _)|[_ Heq]]; [done|]. rewrite Heq in Hb.
    apply not_true_is_false. intros Hready.
    assert (ready jobs k = false) as Hfalse.
    { apply (inv_blocked _ Hinv); [by eapply list_elem_of_lookup_2|done]. }
    rewrite (ready_mono (repaint f jobs) jobs (aj_set (f l k) k) k) in Hfalse; try done.
    intros d. by apply Hback.
  - intros j' k' (l & k & Hk & ->)%elem_of_repaint (l' & k'' & Hk' & ->)%elem_of_repaint Hr Hb.
    cbn [aj_status aj_set aj_run] in *. destruct (Hfi l k Hk) as [(_ & _ & Heq)|[_ Heq]]; [congruence|].
    destruct (Hfi l' k'' Hk') as [(_ & _ & ->)|[_ ->]]; [done|].
    apply (inv_clean _ Hinv k k''); [by eapply list_elem_of_lookup_2..|done|congruence].
  - intros j' (l & k & Hk & ->)%elem_of_repaint Hs. cbn [aj_status aj_set aj_run] in *.
    destruct (Hfi l k Hk) as [(_ & _ & Heq)|[_ Heq]]; [congruence|].
    destruct (inv_skipped _ Hinv k) as (k' & (l' & Hk')%list_elem_of_lookup & Hr & Hf);
      [by eapply list_elem_of_lookup_2|congruence|].
    exists (aj_set (f l' k') k'). split; [apply elem_of_repaint; eauto|]. split; [done|]. cbn [aj_status aj_set].
    destruct (Hfi l' k' Hk') as [(_ & -> & _)|[_ ->]]; [|done].
    destruct Hf as [Hf|Hf]; by rewrite Hf in Hl.
Qed.

Lemma submit_structure jobs news run :
  structure jobs → submission jobs news run → structure (jobs ++ news).
Proof.
  intros [_ Hkeys Hdeps Hwf] [Hrun Hfresh Hids Hnk Hnd Hnwf _]. split; [done|..].
  - rewrite fmap_app. apply NoDup_app. split; [done|]. split.
    + intros [r k] (j & [=-> ->] & Hj)%list_elem_of_fmap (j' & [=Hr _] & Hj')%list_elem_of_fmap.
      apply (Hfresh j Hj). by rewrite Hr, (Hrun j').
    + apply (NoDup_fmap_1 snd). rewrite <-list_fmap_compose. done.
  - intros j d [Hj|Hj]%elem_of_app Hd.
    + destruct (Hdeps j d Hj Hd) as (k & ? & ?). exists k. split; [apply elem_of_app; by left|done].
    + destruct (proj1 (list_elem_of_fmap _ _ _) (Hnd j d Hj Hd)) as (k & -> & Hk).
      exists k. rewrite elem_of_app, !Hrun by done. auto.
  - intros r a. destruct (decide (r = run)) as [->|Hne].
    + specialize (Hnwf a). induction Hnwf as [a _ IH]. constructor.
      intros b (j & [Hj|Hj]%elem_of_app & Hr & Ha & Hb); [by destruct (Hfresh j Hj)|].
      apply IH. by exists j.
    + specialize (Hwf r a). induction Hwf as [a _ IH]. constructor.
      intros b (j & [Hj|Hj]%elem_of_app & Hr & Ha & Hb); [|exfalso; specialize (Hrun j Hj); congruence].
      apply IH. by exists j.
Qed.

(** Success of a key of [run] only depends on the jobs of [run]. *)
Lemma succeeded_app jobs news run d :
  (∀ j, j ∈ news → aj_run j = run → aj_status j ≠ JobSucceeded) →
  succeeded (jobs ++ news) run d = succeeded jobs run d.
Proof.
  intros Hn. apply eq_true_iff_eq. rewrite !succeeded_spec. split.
  - intros (k & [Hk|Hk]%elem_of_app & Hr & Hd & Hs); [eauto|]. by destruct (Hn k Hk Hr).
  - intros (k & Hk & ?). exists k. rewrite elem_of_app. auto.
Qed.

(** Success in one of two groups of runs. *)
Lemma succeeded_app_l jobs news run d :
  (∀ j, j ∈ news → aj_run j ≠ run) → succeeded (jobs ++ news) run d = succeeded jobs run d.
Proof. intros Hn. apply succeeded_app. intros j Hj Hr. by destruct (Hn j Hj). Qed.

Lemma succeeded_app_r jobs news run d :
  (∀ j, j ∈ jobs → aj_run j ≠ run) → succeeded (jobs ++ news) run d = succeeded news run d.
Proof.
  intros Hn. apply eq_true_iff_eq. rewrite !succeeded_spec. setoid_rewrite elem_of_app. split.
  - intros (k & [Hk|Hk] & Hr & ?); [by destruct (Hn k Hk)|eauto].
  - intros (k & Hk & ?). eauto.
Qed.

Lemma ready_ext jobs jobs' j :
  (∀ d, succeeded jobs (aj_run j) d = succeeded jobs' (aj_run j) d) → ready jobs j = ready jobs' j.
Proof.
  intros Heq. apply eq_true_iff_eq. rewrite !ready_spec. by setoid_rewrite Heq.
Qed.

Lemma submit_inv jobs news run :
  sinv jobs → submission jobs news run → sinv (jobs ++ news).
Proof.
  intros Hinv Hsub. destruct (Hsub) as [Hrun Hfresh _ _ _ _ Hst].
  assert (Hold : ∀ j, j ∈ jobs → ready (jobs ++ news) j = ready jobs j).
  { intros j Hj. apply ready_ext. intros d. apply succeeded_app_l.
    intros k Hk Heq. apply (Hfresh j Hj). rewrite <-Heq. by apply Hrun. }
  assert (Hnew : ∀ j, j ∈ news → ready (jobs ++ news) j = ready news j).
  { intros j Hj. apply ready_ext. intros d. apply succeeded_app_r.
    intros k Hk Heq. apply (Hfresh k Hk). rewrite Heq. by apply Hrun. }
  assert (Hfit : ∀ j, j ∈ news → status_fits news j) by done. unfold status_fits in Hfit.
  split; [eapply submit_structure; [apply Hinv|done]|..].
  - intros j [Hj|Hj]%elem_of_app Hr; [rewrite Hold by done; by apply (inv_released _ Hinv)|].
    rewrite Hnew by done. specialize (Hfit j Hj). by destruct (aj_status j).
  - intros j [Hj|Hj]%elem_of_app Hb; [rewrite Hold by done; by apply (inv_blocked _ Hinv)|].
    rewrite Hnew by done. specialize (Hfit j Hj). by rewrite Hb in Hfit.
  - intros j k [Hj|Hj]%elem_of_app [Hk|Hk]%elem_of_app Hr Hb; [by apply (inv_clean _ Hinv j k)|..].
    + specialize (Hfit k Hk). by destruct (aj_status k).
    + exfalso. apply (Hfresh k Hk). by rewrite <-Hr, (Hrun j).
    + specialize (Hfit k Hk). by destruct (aj_status k).
  - intros j [Hj|Hj]%elem_of_app Hs.
    + destruct (inv_skipped _ Hinv j Hj Hs) as (k & ? & ?). exists k. rewrite elem_of_app. auto.
    + specialize (Hfit j Hj). by rewrite Hs in Hfit.
Qed.

Lemma complete_inv jobs i j outcome :
  sinv jobs → jobs !! i = Some j → job_leased (aj_status j) = true → job_outcome outcome = true →
  sinv (a_propagate (aj_run j) outcome (alter (aj_set outcome) i jobs)).
Proof.
  intros Hinv Hj Hl Ho. unfold a_propagate. case_bool_decide as Hs.
  - subst. by apply unblock_inv, success_inv.
  - apply fail_inv; [done..|]. destruct outcome; try done; auto.
Qed.

Lemma sstep_inv jobs jobs' : sinv jobs → sstep jobs jobs' → sinv jobs'.
Proof.
  intros Hinv Hs. destruct Hs as [news run Hsub|i j Hj Hq|i j Hj Hl|i j Hj Ha|i j o Hj Hl Ho|run].
  - by eapply submit_inv.
  - eapply move_inv; [done..| | | |]; rewrite ?Hq; auto.
  - eapply move_inv; [done..| | | |]; [by destruct (aj_status j)..|]; auto.
  - eapply move_inv; [done..| | | |]; rewrite ?Ha; auto.
  - by apply complete_inv.
  - by apply cancel_inv.
Qed.
End Preservation.

Lemma sinv_nil : sinv [].
Proof.
  split; [split; [constructor|constructor|..]|..]; try by intros ? ?%not_elem_of_nil.
  - by intros ? ? ?%not_elem_of_nil.
  - intros run a. constructor. intros b (j & Hj%not_elem_of_nil & _). done.
  - by intros ? ? ?%not_elem_of_nil.
Qed.

Lemma ssteps_inv jobs jobs' : sinv jobs → rtc sstep jobs jobs' → sinv jobs'.
Proof. intros Hinv Hs. revert Hinv. induction Hs; eauto using sstep_inv. Qed.

(** *** Consequences *)

(** A blocked job waits for something that can still happen: its run has a job
    that is queued or leased. *)
Lemma sinv_no_deadlock jobs j :
  sinv jobs → j ∈ jobs → aj_status j = JobBlocked →
  ∃ k, k ∈ jobs ∧ aj_run k = aj_run j ∧
    (aj_status k = JobQueued ∨ aj_status k = JobAssigned ∨ aj_status k = JobRunning).
Proof.
  intros Hinv. remember (aj_key j) as a eqn:Ha. revert j Ha.
  assert (∀ run, Acc (dep_edge jobs run) a) as Hacc by (intros; apply Hinv).
  intros j. specialize (Hacc (aj_run j)). remember (aj_run j) as run eqn:Hrun.
  revert j Hrun. induction Hacc as [a _ IH]. intros j -> -> Hj Hb.
  pose proof (inv_blocked _ Hinv j Hj Hb) as Hnr.
  assert (∃ d, d ∈ aj_deps j ∧ succeeded jobs (aj_run j) d = false) as (d & Hd & Hns).
  { destruct (decide (Exists (λ d, succeeded jobs (aj_run j) d = false) (aj_deps j))) as [He|Hn].
    - by apply Exists_exists in He.
    - exfalso. rewrite <-not_true_iff_false in Hnr. apply Hnr, ready_spec. intros d Hd.
      destruct (succeeded jobs (aj_run j) d) eqn:Hs; [done|]. destruct Hn. apply Exists_exists. eauto. }
  destruct (str_deps _ (inv_structure _ Hinv) j d Hj Hd) as (k & Hk & Hr & Hkey).
  pose proof (inv_clean _ Hinv j k Hj Hk (eq_sym Hr) Hb) as Hclean.
  destruct (aj_status k) eqn:Hs; try done; try (exists k; by auto).
  - apply (IH d) with (j := k); try done. by exists j.
  - rewrite <-not_true_iff_false in Hns. destruct Hns. apply succeeded_spec. eauto.
Qed.

(** A run without open jobs is all successes, or it holds a failure or a cancellation. *)
Lemma sinv_finished jobs run :
  sinv jobs → (∀ j, j ∈ jobs → aj_run j = run → job_open (aj_status j) = false) →
  (∀ j, j ∈ jobs → aj_run j = run → aj_status j ≠ JobFailed ∧ aj_status j ≠ JobCanceled) →
  ∀ j, j ∈ jobs → aj_run j = run → aj_status j = JobSucceeded.
Proof.
  intros Hinv Hclosed Hgood j Hj Hr.
  specialize (Hclosed j Hj Hr). destruct (Hgood j Hj Hr) as [Hf Hc].
  destruct (aj_status j) eqn:Hs; try done.
  destruct (inv_skipped _ Hinv j Hj Hs) as (k & Hk & Hrk & [Hfk|Hfk]);
    destruct (Hgood k Hk ltac:(congruence)); done.
Qed.
