(* ===== verification/RunSpec.v ===== *)
(** What every run store promises about its run records: a run marked as
    succeeded has only succeeded jobs, a run whose jobs are all closed is marked
    with a terminal status, and the start and finish times agree with the status.
    The state is a list of records and the scheduler's view of the jobs. *)

From stdpp Require Import relations.
From S2P Require Import Prelude GoStd RunModel Pipeline Scheduler.

(** The statuses of the jobs of a run. *)
Definition run_statuses (run : uuid) (jobs : list ajob) : list JobStatus :=
  aj_status <$> filter (λ j, aj_run j = run) jobs.

Record run_ok (sts : list JobStatus) (r : RunRecord) : Prop := {
  ro_succeeded : rn_Status r = StatusSucceeded → ∀ st, st ∈ sts → st = JobSucceeded;
  ro_closed : existsb job_open sts = false → Terminal (rn_Status r) = true;
  ro_queued : rn_Status r = StatusQueued → rn_StartedAt r = None ∧ rn_FinishedAt r = None;
  ro_running : rn_Status r = StatusRunning → rn_StartedAt r ≠ None;
  ro_terminal : Terminal (rn_Status r) = true → rn_FinishedAt r ≠ None;
  ro_failed : rn_Status r = StatusFailed → JobFailed ∈ sts ∨ sts = [];
  ro_canceled : rn_Status r = StatusCanceled → existsb job_open sts = false;
}.

Record store_inv (records : list RunRecord) (jobs : list ajob) : Prop := {
  si_jobs : sinv jobs;
  si_ids : NoDup (rn_ID <$> records);
  si_record : ∀ run, run ∈ aj_run <$> jobs → run ∈ rn_ID <$> records;
  si_runs : ∀ r, r ∈ records → run_ok (run_statuses (rn_ID r) jobs) r;
}.

Lemma elem_of_run_statuses st run jobs :
  st ∈ run_statuses run jobs ↔ ∃ j, j ∈ jobs ∧ aj_run j = run ∧ aj_status j = st.
Proof.
  unfold run_statuses. rewrite list_elem_of_fmap. setoid_rewrite list_elem_of_filter. naive_solver.
Qed.

Lemma existsb_false {A} (p : A → bool) l : existsb p l = false ↔ ∀ x, x ∈ l → p x = false.
Proof.
  rewrite <-not_true_iff_false, existsb_exists. setoid_rewrite <-list_elem_of_In. split.
  - intros Hn x Hx. apply not_true_is_false. intros Hp. apply Hn. eauto.
  - intros Hl (x & Hx & Hp). by rewrite Hl in Hp.
Qed.

(** ** Updates of the records of one run *)

Lemma update_first_all {A} (key : A → uuid) k (p : A → bool) f (l : list A) :
  NoDup (key <$> l) → (∀ x, p x = true → key x = k) → update_first p f l = update_all p f l.
Proof.
  intros Hnd Hp. induction l as [|x l IH]; [done|]. apply NoDup_cons in Hnd as [Hx Hnd].
  unfold update_all. simpl. destruct (p x) eqn:Hpx; [|by rewrite IH]. f_equal. symmetry.
  rewrite <-(list_fmap_id l) at 2. apply list_fmap_ext. intros i y Hy.
  destruct (p y) eqn:Hpy; [|done]. destruct Hx. rewrite (Hp x), <-(Hp y) by done.
  by eapply list_elem_of_fmap_2, list_elem_of_lookup_2.
Qed.

Lemma update_all_compose {A} (p q : A → bool) f g (l : list A) :
  update_all p f (update_all q g l)
  = (λ x, let y := if q x then g x else x in if p y then f y else y) <$> l.
Proof. unfold update_all. by rewrite <-list_fmap_compose. Qed.

(** The records after an operation on [run]. *)
Definition touch (run : uuid) (g : RunRecord → RunRecord) (records : list RunRecord) : list RunRecord :=
  update_all (λ r, rn_ID r =? run) g records.

Lemma touch_touch run f g records :
  (∀ r, rn_ID (g r) = rn_ID r) → touch run f (touch run g records) = touch run (f ∘ g) records.
Proof.
  intros Hg. unfold touch. rewrite update_all_compose. apply list_fmap_ext. intros i r _. simpl.
  destruct (decide (rn_ID r = run)) as [Hr|Hr].
  - rewrite (bool_decide_eq_true_2 (rn_ID r = run)) by done. by rewrite Hg, bool_decide_eq_true_2.
  - by rewrite !(bool_decide_eq_false_2 (rn_ID r = run)) by done.
Qed.

Lemma touch_ids run g records :
  (∀ r, rn_ID (g r) = rn_ID r) → rn_ID <$> touch run g records = rn_ID <$> records.
Proof.
  intros Hg. unfold touch, update_all. rewrite <-list_fmap_compose.
  apply list_fmap_ext. intros i r _. simpl. by case_bool_decide.
Qed.

Lemma touch_first run g records :
  NoDup (rn_ID <$> records) → update_first (λ r, rn_ID r =? run) g records = touch run g records.
Proof. intros Hnd. apply (update_first_all rn_ID run); [done|]. intros r Hr. by bools. Qed.

Lemma touch_id run records : touch run id records = records.
Proof.
  unfold touch, update_all. rewrite <-(list_fmap_id records) at 2. apply list_fmap_ext.
  intros i r _. by case_bool_decide.
Qed.

(** An operation that concerns one run keeps the invariant when it does so for
    that run. *)
Lemma touch_inv run g records jobs jobs' :
  store_inv records jobs → rtc sstep jobs jobs' →
  (∀ r, rn_ID (g r) = rn_ID r) →
  aj_run <$> jobs' = aj_run <$> jobs →
  (∀ run', run' ≠ run → run_statuses run' jobs' = run_statuses run' jobs) →
  (∀ r, rn_ID r = run → run_ok (run_statuses run jobs) r → run_ok (run_statuses run jobs') (g r)) →
  store_inv (touch run g records) jobs'.
Proof.
  intros [Hs Hids Hrec Hruns] Hsteps Hg Hjr Hother Hrun. split.
  - by eapply ssteps_inv.
  - by rewrite touch_ids.
  - intros run'. rewrite Hjr, touch_ids by done. apply Hrec.
  - intros r (r0 & -> & Hr0)%list_elem_of_fmap. case_bool_decide as Hr.
    + rewrite Hg, Hr. apply Hrun; [done|]. rewrite <-Hr. by apply Hruns.
    + rewrite Hother by done. by apply Hruns.
Qed.

(** ** Job updates and the statuses of a run *)

Lemma run_statuses_other run f jobs :
  (∀ i j, jobs !! i = Some j → aj_run j = run → f i j = aj_status j) →
  run_statuses run (repaint f jobs) = run_statuses run jobs.
Proof.
  unfold run_statuses, repaint. revert f. induction jobs as [|j jobs IH]; intros f Hf; [done|].
  cbn [imap]. rewrite !filter_cons. cbn [aj_run aj_set].
  destruct (decide (aj_run j = run)) as [Hr|Hr].
  - rewrite !fmap_cons. f_equal; [by apply (Hf 0%nat)|].
    apply (IH (f ∘ S)). intros i k Hk. by apply (Hf (S i)).
  - apply (IH (f ∘ S)). intros i k Hk. by apply (Hf (S i)).
Qed.

Lemma run_statuses_alter run i j st jobs :
  jobs !! i = Some j → aj_run j ≠ run →
  run_statuses run (alter (aj_set st) i jobs) = run_statuses run jobs.
Proof.
  intros Hj Hr. rewrite alter_repaint. apply run_statuses_other. intros k j' Hk Hr'.
  case_bool_decide; [congruence|done].
Qed.

Lemma run_statuses_update_all run run' p st jobs :
  (∀ j, p j = true → aj_run j = run) → run' ≠ run →
  run_statuses run' (update_all p (aj_set st) jobs) = run_statuses run' jobs.
Proof.
  intros Hp Hne. rewrite update_all_repaint. apply run_statuses_other. intros k j _ Hr.
  destruct (p j) eqn:Hpj; [|done]. apply Hp in Hpj. congruence.
Qed.

Lemma run_statuses_propagate run run' outcome jobs :
  run' ≠ run → run_statuses run' (a_propagate run outcome jobs) = run_statuses run' jobs.
Proof.
  intros Hne. unfold a_propagate. case_bool_decide.
  - eapply run_statuses_update_all; [|done]. intros j Hj. by bools.
  - eapply run_statuses_update_all; [|done]. intros j Hj. by bools.
Qed.

Lemma elem_of_run_statuses_alter i j st jobs :
  jobs !! i = Some j → st ∈ run_statuses (aj_run j) (alter (aj_set st) i jobs).
Proof.
  intros Hj. apply elem_of_run_statuses. exists (aj_set st j). split; [|done].
  apply list_elem_of_lookup. exists i. by rewrite list_lookup_alter_eq, Hj.
Qed.

(** A failed job stays failed. *)
Lemma failed_repaint run f jobs :
  (∀ i j, jobs !! i = Some j → aj_status j = JobFailed → f i j = JobFailed) →
  JobFailed ∈ run_statuses run jobs → JobFailed ∈ run_statuses run (repaint f jobs).
Proof.
  intros Hf (j & [i Hj]%list_elem_of_lookup & Hr & Hs)%elem_of_run_statuses.
  apply elem_of_run_statuses. exists (aj_set (f i j) j). split; [|by rewrite (Hf i j)].
  apply elem_of_repaint. eauto.
Qed.

Lemma failed_alter run i j st jobs :
  jobs !! i = Some j → aj_status j ≠ JobFailed → JobFailed ∈ run_statuses run jobs →
  JobFailed ∈ run_statuses run (alter (aj_set st) i jobs).
Proof.
  intros Hj Hn. rewrite alter_repaint. apply failed_repaint. intros k j' Hk Hs.
  case_bool_decide; [congruence|done].
Qed.

Lemma failed_propagate run run' outcome jobs :
  JobFailed ∈ run_statuses run jobs → JobFailed ∈ run_statuses run (a_propagate run' outcome jobs).
Proof.
  unfold a_propagate, a_unblock, a_skip. case_bool_decide; rewrite update_all_repaint;
    apply failed_repaint; intros i j _ Hs; rewrite Hs; by rewrite ?andb_false_r.
Qed.

Lemma skeletons_runs (jobs jobs' : list ajob) :
  skeleton <$> jobs' = skeleton <$> jobs → aj_run <$> jobs' = aj_run <$> jobs.
Proof.
  intros Heq. apply (f_equal (fmap (λ s, s.1.1.2))) in Heq. by rewrite <-!list_fmap_compose in Heq.
Qed.

Lemma skeleton_propagate run outcome jobs :
  skeleton <$> a_propagate run outcome jobs = skeleton <$> jobs.
Proof. unfold a_propagate. case_bool_decide; apply skeleton_update_all. Qed.

(** ** Record updates that keep [run_ok] *)

Lemma run_ok_claim sts' t r :
  (∃ st, st ∈ sts' ∧ job_open st = true) → rn_StartedAt r = Some t →
  run_ok sts' (with_status StatusRunning r).
Proof.
  intros (st & Hst & Ho) Ht. split; simpl; try done.
  - intros Hc. rewrite existsb_false in Hc. by rewrite Hc in Ho.
  - by rewrite Ht.
Qed.

Lemma run_ok_move sts sts' r :
  run_ok sts r → (∃ st, st ∈ sts ∧ job_open st = true) → (∃ st, st ∈ sts' ∧ job_open st = true) →
  (JobFailed ∈ sts → JobFailed ∈ sts') → run_ok sts' r.
Proof.
  intros [Hs Hc Hq Hr Ht Hf Hca] (st & Hst & Ho) (st' & Hst' & Ho') Hff. split; [..|done|done|done| |].
  - intros Hsr. by rewrite (Hs Hsr st Hst) in Ho.
  - intros Hcl. rewrite existsb_false in Hcl. by rewrite Hcl in Ho'.
  - intros Hsr. destruct (Hf Hsr) as [?| ->]; [left; auto|by apply elem_of_nil in Hst].
  - intros Hsr. specialize (Hca Hsr). rewrite existsb_false in Hca. by rewrite Hca in Ho.
Qed.

Lemma run_ok_requeued sts r :
  (∃ st, st ∈ sts ∧ job_open st = true) →
  run_ok sts (with_finished None (with_started None (with_status StatusQueued r))).
Proof.
  intros (st & Hst & Ho). split; simpl; try done.
  intros Hc. rewrite existsb_false in Hc. by rewrite Hc in Ho.
Qed.

Lemma run_ok_finished sts st t r :
  Terminal st = true → (st = StatusSucceeded → ∀ s, s ∈ sts → s = JobSucceeded) →
  (st = StatusFailed → JobFailed ∈ sts) → (st = StatusCanceled → existsb job_open sts = false) →
  run_ok sts (with_finished (Some t) (with_status st r)).
Proof. intros Ht Hs Hf Hc. split; simpl; try done; intros ->; first [done|left; by apply Hf]. Qed.

(** A failed run with an open job has a failed one. *)
Lemma run_ok_failed sts r :
  run_ok sts r → (∃ st, st ∈ sts ∧ job_open st = true) → rn_Status r = StatusFailed → JobFailed ∈ sts.
Proof. intros Hok (st & Hst & _) Hf. destruct (ro_failed _ _ Hok Hf) as [?| ->]; [done|by apply elem_of_nil in Hst]. Qed.

(** A closed run without failed or canceled jobs has succeeded. *)
Lemma run_all_succeeded run jobs :
  sinv jobs → existsb job_open (run_statuses run jobs) = false →
  JobFailed ∉ run_statuses run jobs → JobCanceled ∉ run_statuses run jobs →
  ∀ st, st ∈ run_statuses run jobs → st = JobSucceeded.
Proof.
  intros Hinv Hc Hf Hca st (j & Hj & Hr & <-)%elem_of_run_statuses.
  rewrite existsb_false in Hc. apply (sinv_finished jobs run Hinv); [..|done|done].
  - intros k Hk Hrk. apply Hc, elem_of_run_statuses. eauto.
  - intros k Hk Hrk. rewrite elem_of_run_statuses in Hf, Hca. split; intros Hs; eauto.
Qed.

(** A new run whose record is queued. *)
Lemma submit_store_inv records jobs news r :
  store_inv records jobs → submission jobs news (rn_ID r) → rn_ID r ∉ rn_ID <$> records →
  (∃ j, j ∈ news ∧ job_open (aj_status j) = true) → rn_Status r = StatusQueued → rn_StartedAt r = None → rn_FinishedAt r = None →
  store_inv (r :: records) (jobs ++ news).
Proof.
  intros [Hs Hids Hrec Hruns] Hsub Hnew Hne Hst Hsa Hfa.
  assert (Hold : ∀ run', run' ≠ rn_ID r → run_statuses run' (jobs ++ news) = run_statuses run' jobs).
  { intros run' Hr'. unfold run_statuses. rewrite filter_app, fmap_app.
    assert (filter (λ j, aj_run j = run') news = []) as ->; [|by rewrite app_nil_r].
    destruct (filter _ news) as [|k ks] eqn:Hk; [done|].
    assert (Hin : k ∈ filter (λ j, aj_run j = run') news) by (rewrite Hk; left).
    apply list_elem_of_filter in Hin as [Hk1 Hk2]. pose proof (sub_run _ _ _ Hsub k Hk2). congruence. }
  split.
  - by eapply submit_inv.
  - by constructor.
  - intros run. rewrite fmap_app, fmap_cons, elem_of_app, elem_of_cons.
    intros [Hr|(k & -> & Hk)%list_elem_of_fmap]; [right; by apply Hrec|].
    left. by apply (sub_run _ _ _ Hsub).
  - intros r' [->|Hr']%elem_of_cons.
    + split; try (rewrite Hst; done); try done.
      intros Hc. destruct Hne as (k & Hk & Ho).
      assert (Hin : aj_status k ∈ run_statuses (rn_ID r) (jobs ++ news)).
      { apply elem_of_run_statuses. exists k. split; [apply elem_of_app; by right|].
        split; [by apply (sub_run _ _ _ Hsub)|done]. }
      rewrite existsb_false in Hc. by rewrite Hc in Ho.
    + rewrite Hold; [by apply Hruns|]. intros Heq. apply Hnew. rewrite <-Heq.
      by apply list_elem_of_fmap_2.
Qed.
