(* ===== verification/PlanFacts.v ===== *)
(** From an accepted pipeline to the jobs of a run: the plan that [Compile]
    returns has unique names, resolved dependencies and no cycle, and so the jobs
    that a store creates from it form a well-founded dependency graph over the
    keys "stage/job". *)

From S2P Require Import Prelude GoStd Regex RunModel Pipeline Graph Compiler MemoryStore Scheduler.

(** Dependencies between named elements. *)
Definition named_edge {A} (name : A → string) (deps : A → list string) (l : list A)
    (b a : string) : Prop :=
  ∃ x, x ∈ l ∧ name x = a ∧ b ∈ deps x.

Definition no_slash (s : string) : Prop := Forall (λ c, c ≠ "/"%char) (chars s).

(** A list of named elements that depend on each other without a cycle. *)
Record named_ok {A} (name : A → string) (deps : A → list string) (l : list A) : Prop := {
  nk_unique : NoDup (name <$> l);
  nk_names : ∀ x, x ∈ l → no_slash (name x);
  nk_deps : ∀ x d, x ∈ l → d ∈ deps x → d ∈ name <$> l;
  nk_wf : ∀ a, Acc (named_edge name deps l) a;
}.

Record stages_ok (stages : list PlanStage) : Prop := {
  so_stages : named_ok ps_Name ps_DependsOn stages;
  so_nonempty : stages ≠ [];
  so_jobs_nonempty : ∀ s, s ∈ stages → ps_Jobs s ≠ [];
  so_jobs : ∀ s, s ∈ stages → named_ok pj_Name pj_DependsOn (ps_Jobs s);
}.

(** ** Names and keys *)

Lemma namePattern_no_slash s : re_match namePattern s = true → no_slash s.
Proof.
  rewrite re_match_spec. intros Hm. eapply matches_over; [|exact Hm].
  split; [intros c Hc ->|apply over_upto; intros c Hc ->]; by vm_compute in Hc.
Qed.

Definition job_key (stage job : string) : string := stage +:+ "/" +:+ job.

Lemma job_key_inj s j s' j' :
  no_slash s → no_slash s' → job_key s j = job_key s' j' → s = s' ∧ j = j'.
Proof.
  intros Hs Hs' Heq. apply (f_equal chars) in Heq. unfold job_key in Heq.
  rewrite !chars_app in Heq. apply (app_sep_inj "/"%char) in Heq as [Ha Hb]; [|done..].
  split; by apply (inj chars).
Qed.

(** ** Compiled plans *)

Lemma named_edge_settled {A} (name : A → string) (deps : A → list string) l :
  NoDup (name <$> l) →
  (∀ n, settled (foldl (λ m x, <[name x := deps x]> m) ∅ l) n) →
  ∀ a, Acc (named_edge name deps l) a.
Proof.
  intros Hnd Hs a. specialize (Hs a). induction Hs as [a _ IH]. constructor.
  intros b (x & Hx & <- & Hb). apply IH. unfold flip, edge, successors.
  by rewrite lookup_assignments.
Qed.

(** Elements that keep their names and dependencies keep the property. *)
Lemma named_ok_Forall2 {A B} (nameA : A → string) depsA (nameB : B → string) depsB la lb :
  Forall2 (λ a b, nameB b = nameA a ∧ depsB b = depsA a) la lb →
  named_ok nameA depsA la → named_ok nameB depsB lb.
Proof.
  intros Hf [Hnd Hn Hd Hwf].
  assert (Hnames : nameB <$> lb = nameA <$> la).
  { clear Hnd Hn Hd Hwf. induction Hf as [|a b la lb [Hab _] _ IH]; [done|].
    rewrite !fmap_cons. congruence. }
  assert (Hback : ∀ b, b ∈ lb → ∃ a, a ∈ la ∧ nameB b = nameA a ∧ depsB b = depsA a).
  { intros b [i Hi]%list_elem_of_lookup.
    destruct (Forall2_lookup_r _ _ _ _ _ Hf Hi) as (a & Ha & ?).
    exists a. split; [by eapply list_elem_of_lookup_2|done]. }
  split.
  - by rewrite Hnames.
  - intros b (a & Ha & -> & _)%Hback. auto.
  - intros b d (a & Ha & _ & ->)%Hback. rewrite Hnames. by apply Hd.
  - intros x. specialize (Hwf x). induction Hwf as [x _ IH]. constructor.
    intros y (b & (a & Ha & Hna & Hda)%Hback & Hx & Hy). apply IH.
    exists a. split; [done|]. split; congruence.
Qed.

Lemma compile_job_fields stage job pj :
  compile_job stage job = Ok pj → pj_Name pj = jb_Name job ∧ pj_DependsOn pj = jb_DependsOn job.
Proof. unfold compile_job. intros. by break_all. Qed.

Lemma compile_stage_fields stage ps :
  compile_stage stage = Ok ps →
  ps_Name ps = sg_Name stage ∧ ps_DependsOn ps = sg_DependsOn stage ∧
  Forall2 (λ j pj, compile_job stage j = Ok pj) (sg_Jobs stage) (ps_Jobs ps).
Proof.
  unfold compile_stage. destruct (rmap _ _) as [jobs|] eqn:Hj; [|done]. intros [= <-].
  by apply rmap_Ok in Hj.
Qed.

Lemma stages_ok_compiled `{MapOrder} value stages :
  pipeline_valid value → rmap compile_stage (pl_Stages value) = Ok stages → stages_ok stages.
Proof.
  intros Hv Hst. apply rmap_Ok in Hst.
  assert (Hback : ∀ s, s ∈ stages → ∃ s0, s0 ∈ pl_Stages value ∧ compile_stage s0 = Ok s).
  { intros s [i Hi]%list_elem_of_lookup.
    destruct (Forall2_lookup_r _ _ _ _ _ Hst Hi) as (s0 & Hs0 & ?).
    exists s0. split; [by eapply list_elem_of_lookup_2|done]. }
  split.
  - apply (named_ok_Forall2 sg_Name sg_DependsOn _ _ (pl_Stages value)).
    + eapply Forall2_impl; [exact Hst|]. intros s0 s (? & ? & _)%compile_stage_fields. done.
    + split; [apply Hv|..].
      * intros s Hs. by apply namePattern_no_slash, (pv_names _ Hv).
      * apply Hv.
      * apply named_edge_settled; apply Hv.
  - intros ->. apply Forall2_nil_inv_r in Hst. by apply (pv_stages _ Hv).
  - intros s (s0 & Hs0 & (_ & _ & Hj)%compile_stage_fields)%Hback Hnil. rewrite Hnil in Hj.
    apply Forall2_nil_inv_r in Hj. by apply (jv_nonempty _ (pv_jobs _ Hv s0 Hs0)).
  - intros s (s0 & Hs0 & (_ & _ & Hj)%compile_stage_fields)%Hback.
    pose proof (pv_jobs _ Hv s0 Hs0) as Hjv.
    apply (named_ok_Forall2 jb_Name jb_DependsOn _ _ (sg_Jobs s0)).
    + eapply Forall2_impl; [exact Hj|]. intros j pj. apply compile_job_fields.
    + split; [apply Hjv|..].
      * intros j Hjin. by apply namePattern_no_slash, (jv_names _ Hjv).
      * apply Hjv.
      * apply named_edge_settled; apply Hjv.
Qed.

(** ** The jobs of a plan *)

Definition stage_key_list (s : PlanStage) : list string :=
  (λ j, job_key (ps_Name s) (pj_Name j)) <$> ps_Jobs s.

Lemma stage_keys_jobs name jobs (sj : gmap string (list string)) n :
  default [] (foldl (λ sj job, <[name := default [] (sj !! name)
                                 ++ [name +:+ "/" +:+ pj_Name job]]> sj) sj jobs !! n)
  = default [] (sj !! n)
    ++ (if bool_decide (name = n) then (λ j, job_key name (pj_Name j)) <$> jobs else []).
Proof.
  revert sj. induction jobs as [|j jobs IH]; intros sj; simpl.
  { case_bool_decide; by rewrite app_nil_r. }
  rewrite IH. case_bool_decide as Hn.
  - subst. rewrite lookup_insert_eq. simpl. by rewrite <-app_assoc.
  - by rewrite lookup_insert_ne.
Qed.

Lemma stage_keys_lookup stages n :
  default [] (stage_keys stages !! n)
  = mjoin ((λ s, if bool_decide (ps_Name s = n) then stage_key_list s else []) <$> stages).
Proof.
  unfold stage_keys. set (add := λ sj stage, foldl _ sj (ps_Jobs stage)).
  assert (Hgen : ∀ sj, default [] (foldl add sj stages !! n) = default [] (sj !! n)
    ++ mjoin ((λ s, if bool_decide (ps_Name s = n) then stage_key_list s else []) <$> stages)).
  { induction stages as [|s stages IH]; intros sj; simpl; [by rewrite app_nil_r|].
    by rewrite IH; unfold add at 1; rewrite stage_keys_jobs, <-app_assoc. }
  by rewrite Hgen, lookup_empty.
Qed.

Lemma elem_of_stage_keys stages n k :
  k ∈ default [] (stage_keys stages !! n) ↔
  ∃ s j, s ∈ stages ∧ j ∈ ps_Jobs s ∧ ps_Name s = n ∧ k = job_key n (pj_Name j).
Proof.
  rewrite stage_keys_lookup, list_elem_of_join. setoid_rewrite list_elem_of_fmap. split.
  - intros (l & Hk & s & -> & Hs). case_bool_decide as Hn; [|by apply not_elem_of_nil in Hk].
    apply list_elem_of_fmap in Hk as (j & -> & Hj). subst n. eauto 10.
  - intros (s & j & Hs & Hj & Hn & ->). exists (stage_key_list s). split.
    + unfold stage_key_list. subst n. apply list_elem_of_fmap. eauto.
    + exists s. by rewrite bool_decide_eq_true_2.
Qed.

Lemma elem_of_job_dependencies stages s j d :
  d ∈ job_dependencies (stage_keys stages) s j ↔
  (∃ s' j', s' ∈ stages ∧ j' ∈ ps_Jobs s' ∧ ps_Name s' ∈ ps_DependsOn s ∧
            d = job_key (ps_Name s') (pj_Name j'))
  ∨ (∃ d', d' ∈ pj_DependsOn j ∧ d = job_key (ps_Name s) d').
Proof.
  unfold job_dependencies. rewrite elem_of_app, list_elem_of_join.
  setoid_rewrite list_elem_of_fmap. split.
  - intros [(l & Hd & n & -> & Hn)|(d' & -> & Hd')]; [left|right; by exists d'].
    apply elem_of_stage_keys in Hd as (s' & j' & ? & ? & <- & ->). eauto 10.
  - intros [(s' & j' & Hs' & Hj' & Hn & ->)|(d' & Hd' & ->)]; [left|right; by exists d'].
    exists (default [] (stage_keys stages !! ps_Name s')). split; [|by exists (ps_Name s')].
    apply elem_of_stage_keys. eauto 10.
Qed.

Lemma elem_of_stage_job_pairs stages s j :
  (s, j) ∈ stage_job_pairs stages ↔ s ∈ stages ∧ j ∈ ps_Jobs s.
Proof.
  unfold stage_job_pairs. rewrite list_elem_of_join. setoid_rewrite list_elem_of_fmap. split.
  - intros (l & Hl & s' & -> & Hs'). apply list_elem_of_fmap in Hl as (j' & [=-> ->] & Hj'). done.
  - intros [Hs Hj]. exists ((λ job, (s, job)) <$> ps_Jobs s). split; [|eauto].
    apply list_elem_of_fmap. eauto.
Qed.

Lemma elem_of_plan_jobs run ids stages j :
  j ∈ plan_jobs run ids stages ↔
  ∃ i s pj, stage_job_pairs stages !! i = Some (s, pj) ∧
            j = new_job run (ids i) (stage_keys stages) s pj.
Proof.
  unfold plan_jobs. rewrite list_elem_of_lookup. setoid_rewrite list_lookup_imap. split.
  - intros (i & Hi). destruct (stage_job_pairs stages !! i) as [[s pj]|] eqn:Hp; [|done].
    simplify_eq/=. eauto.
  - intros (i & s & pj & Hp & ->). exists i. by rewrite Hp.
Qed.

Lemma elem_of_plan_jobs_stage run ids stages j :
  j ∈ plan_jobs run ids stages →
  ∃ i s pj, s ∈ stages ∧ pj ∈ ps_Jobs s ∧ j = new_job run (ids i) (stage_keys stages) s pj.
Proof.
  intros (i & s & pj & Hp & ->)%elem_of_plan_jobs.
  apply list_elem_of_lookup_2, elem_of_stage_job_pairs in Hp as [? ?]. eauto 10.
Qed.

Lemma plan_jobs_keys run ids stages :
  mj_key <$> plan_jobs run ids stages = mjoin (stage_key_list <$> stages).
Proof.
  assert (mj_key <$> plan_jobs run ids stages =
    (λ '(s, j), job_key (ps_Name s) (pj_Name j)) <$> stage_job_pairs stages) as ->.
  { apply list_eq. intros i. unfold plan_jobs. rewrite !list_lookup_fmap, list_lookup_imap.
    by destruct (stage_job_pairs stages !! i) as [[s j]|]. }
  unfold stage_job_pairs. induction stages as [|s stages IH]; [done|].
  rewrite !fmap_cons. simpl. rewrite fmap_app. f_equal; [|exact IH].
  unfold stage_key_list. by rewrite <-list_fmap_compose.
Qed.

Lemma plan_jobs_ids run ids stages :
  mj_id <$> plan_jobs run ids stages = ids <$> seq 0 (length (stage_job_pairs stages)).
Proof.
  apply list_eq. intros i. unfold plan_jobs. rewrite !list_lookup_fmap, list_lookup_imap.
  destruct (stage_job_pairs stages !! i) as [[s j]|] eqn:Hp; simpl.
  - rewrite lookup_seq_lt by by eapply lookup_lt_Some. done.
  - rewrite lookup_seq_ge by by apply lookup_ge_None. done.
Qed.

Lemma stage_key_lists_NoDup stages :
  NoDup (ps_Name <$> stages) → (∀ s, s ∈ stages → no_slash (ps_Name s)) →
  (∀ s, s ∈ stages → NoDup (pj_Name <$> ps_Jobs s)) →
  NoDup (mjoin (stage_key_list <$> stages)).
Proof.
  induction stages as [|s stages IH]; simpl; intros Hnd Hns Hj; [constructor|].
  apply NoDup_cons in Hnd as [Hs Hnd]. apply NoDup_app. split; [|split].
  - unfold stage_key_list. specialize (Hj s ltac:(left)).
    assert (∀ l : list PlanJob, (λ j, job_key (ps_Name s) (pj_Name j)) <$> l
      = job_key (ps_Name s) <$> (pj_Name <$> l)) as -> by (intros; by rewrite <-list_fmap_compose).
    apply NoDup_fmap_2_strong; [|done]. intros a b _ _ Hab.
    specialize (Hns s ltac:(left)). by eapply job_key_inj in Hab as [_ ->].
  - intros k (j & -> & Hjs)%list_elem_of_fmap (l & Hl & Hin)%list_elem_of_join.
    apply list_elem_of_fmap in Hin as (s' & -> & Hs').
    apply list_elem_of_fmap in Hl as (j' & Hk & Hj').
    apply job_key_inj in Hk as [Hn _]; [|apply Hns; by left|apply Hns; by right].
    apply Hs. rewrite Hn. by apply list_elem_of_fmap_2.
  - apply IH; [done|intros; apply Hns; by right|intros; apply Hj; by right].
Qed.

(** ** The jobs of a plan as a submission *)

(** What the scheduler sees of a job of a store. *)
Definition view (j : memoryJob) : ajob :=
  mkAjob (mj_id j) (mj_run j) (mj_key j) (mj_dependencies j) (mj_status j).

Section PlanJobs.
Context (run : uuid) (ids : nat → uuid) (stages : list PlanStage).
Hypothesis Hok : stages_ok stages.

Abbreviation news := (view <$> plan_jobs run ids stages).
Abbreviation stage_edge := (named_edge ps_Name ps_DependsOn stages).
Abbreviation job_edge s := (named_edge pj_Name pj_DependsOn (ps_Jobs s)).

Lemma stage_name_inj s s' : s ∈ stages → s' ∈ stages → ps_Name s = ps_Name s' → s = s'.
Proof. apply (NoDup_key_unique ps_Name), (nk_unique _ _ _ (so_stages _ Hok)). Qed.

Lemma stage_no_slash s : s ∈ stages → no_slash (ps_Name s).
Proof. apply (nk_names _ _ _ (so_stages _ Hok)). Qed.

(** Every dependency of a job is a job of an earlier stage or of its own stage. *)
Lemma plan_dep_edge b a :
  dep_edge news run b a →
  ∃ s pj, s ∈ stages ∧ pj ∈ ps_Jobs s ∧ a = job_key (ps_Name s) (pj_Name pj) ∧
    ((∃ s' pj', s' ∈ stages ∧ pj' ∈ ps_Jobs s' ∧ stage_edge (ps_Name s') (ps_Name s) ∧
        b = job_key (ps_Name s') (pj_Name pj'))
     ∨ (∃ d, job_edge s d (pj_Name pj) ∧ b = job_key (ps_Name s) d)).
Proof.
  intros (j & (m & -> & Hm)%list_elem_of_fmap & _ & <- & Hb).
  apply elem_of_plan_jobs_stage in Hm as (i & s & pj & Hs & Hpj & ->).
  exists s, pj. split; [done|]. split; [done|]. split; [done|].
  apply elem_of_job_dependencies in Hb as [(s' & j' & Hs' & Hj' & Hd & ->)|(d & Hd & ->)].
  - left. exists s', j'. split; [done|]. split; [done|]. split; [|done]. by exists s.
  - right. exists d. split; [|done]. by exists pj.
Qed.

Lemma plan_acc_key sn : Acc stage_edge sn →
  ∀ s, s ∈ stages → ps_Name s = sn →
  ∀ jn, Acc (job_edge s) jn → Acc (dep_edge news run) (job_key sn jn).
Proof.
  induction 1 as [sn _ IHs]. intros s Hs <- jn Hjn. induction Hjn as [jn _ IHj].
  constructor. intros b (s0 & pj & Hs0 & Hpj & Hkey & Hb)%plan_dep_edge.
  apply job_key_inj in Hkey as [Hn Hj]; [|by apply stage_no_slash..].
  apply stage_name_inj in Hn as <-; [|done..]. rewrite <-Hj in Hb.
  destruct Hb as [(s' & pj' & Hs' & Hpj' & He & ->)|(d & Hd & ->)].
  - eapply IHs; [done|exact Hs'|done|]. apply (nk_wf _ _ _ (so_jobs _ Hok s' Hs')).
  - by apply IHj.
Qed.

Lemma plan_jobs_wf a : Acc (dep_edge news run) a.
Proof.
  constructor. intros b (s & pj & Hs & Hpj & _ & Hb)%plan_dep_edge.
  destruct Hb as [(s' & pj' & Hs' & Hpj' & _ & ->)|(d & _ & ->)].
  - eapply plan_acc_key; [apply (nk_wf _ _ _ (so_stages _ Hok))|exact Hs'|done|].
    apply (nk_wf _ _ _ (so_jobs _ Hok s' Hs')).
  - eapply plan_acc_key; [apply (nk_wf _ _ _ (so_stages _ Hok))|exact Hs|done|].
    apply (nk_wf _ _ _ (so_jobs _ Hok s Hs)).
Qed.

Lemma plan_jobs_deps j d : j ∈ news → d ∈ aj_deps j → d ∈ aj_key <$> news.
Proof.
  intros (m & -> & Hm)%list_elem_of_fmap Hd.
  apply elem_of_plan_jobs_stage in Hm as (i & s & pj & Hs & Hpj & ->).
  assert (Hkeys : aj_key <$> news = mjoin (stage_key_list <$> stages)).
  { rewrite <-(plan_jobs_keys run ids), <-list_fmap_compose. done. }
  rewrite Hkeys. apply list_elem_of_join. setoid_rewrite list_elem_of_fmap.
  assert (Hsome : ∀ s', s' ∈ stages → ∀ n, n ∈ pj_Name <$> ps_Jobs s' →
    ∃ l, job_key (ps_Name s') n ∈ l ∧ ∃ y, l = stage_key_list y ∧ y ∈ stages).
  { intros s' Hs' n (pj' & -> & Hpj')%list_elem_of_fmap. exists (stage_key_list s').
    split; [|eauto]. unfold stage_key_list. by apply (list_elem_of_fmap_2 (λ j, job_key _ (pj_Name j))). }
  apply elem_of_job_dependencies in Hd as [(s' & j' & Hs' & Hj' & _ & ->)|(d' & Hd' & ->)].
  - apply Hsome; [done|]. by apply list_elem_of_fmap_2.
  - apply Hsome; [done|]. by eapply (nk_deps _ _ _ (so_jobs _ Hok s Hs)).
Qed.

(** None of the new jobs has succeeded, so only a job without dependencies is ready. *)
Lemma new_job_fits i s pj : status_fits news (view (new_job run (ids i) (stage_keys stages) s pj)).
Proof.
  assert (Hnone : ∀ r d, succeeded news r d = false).
  { intros r d. apply not_true_is_false. rewrite succeeded_spec.
    intros (k & (m & -> & (i' & s' & pj' & _ & _ & ->)%elem_of_plan_jobs_stage)%list_elem_of_fmap & _ & _ & Hs).
    unfold new_job in Hs. simpl in Hs. by destruct (length _ =? 0)%nat. }
  unfold status_fits, new_job, ready. simpl.
  destruct (job_dependencies _ s pj); simpl; [done|]. by rewrite Hnone.
Qed.

Lemma plan_jobs_submission (jobs : list ajob) :
  (∀ j, j ∈ jobs → aj_run j ≠ run) →
  NoDup ((aj_id <$> jobs) ++ (ids <$> seq 0 (length (stage_job_pairs stages)))) →
  submission jobs news run.
Proof.
  intros Hfresh Hids. split.
  - intros j (m & -> & (i & s & pj & _ & _ & ->)%elem_of_plan_jobs_stage)%list_elem_of_fmap. done.
  - done.
  - rewrite fmap_app, <-list_fmap_compose.
    change (aj_id ∘ view) with mj_id. by rewrite plan_jobs_ids.
  - rewrite <-list_fmap_compose. change (aj_key ∘ view) with mj_key. rewrite plan_jobs_keys.
    apply stage_key_lists_NoDup; [apply (so_stages _ Hok)|apply stage_no_slash|].
    intros s Hs. apply (so_jobs _ Hok s Hs).
  - apply plan_jobs_deps.
  - apply plan_jobs_wf.
  - intros j (m & -> & (i & s & pj & _ & _ & ->)%elem_of_plan_jobs_stage)%list_elem_of_fmap.
    apply new_job_fits.
Qed.
End PlanJobs.

Lemma plan_jobs_nonempty run ids stages : stages_ok stages → plan_jobs run ids stages ≠ [].
Proof.
  intros [_ Hne Hj _] Hnil. destruct stages as [|s stages]; [done|].
  specialize (Hj s ltac:(left)). destruct (ps_Jobs s) as [|j js] eqn:Hjs; [done|].
  assert (Hin : (s, j) ∈ stage_job_pairs (s :: stages)).
  { apply elem_of_stage_job_pairs. split; [left|]. rewrite Hjs. left. }
  apply list_elem_of_lookup in Hin as [i Hi].
  assert (Hn : plan_jobs run ids (s :: stages) !! i = None) by by rewrite Hnil.
  unfold plan_jobs in Hn. rewrite list_lookup_imap, Hi in Hn. done.
Qed.

(** A new run has an open job. *)
Lemma plan_jobs_open run ids stages :
  stages_ok stages →
  ∃ j, j ∈ view <$> plan_jobs run ids stages ∧ job_open (aj_status j) = true.
Proof.
  intros Hok. pose proof (plan_jobs_nonempty run ids stages Hok) as Hne.
  destruct (plan_jobs run ids stages) as [|j js] eqn:Hp; [done|]. exists (view j).
  split; [left|]. assert (Hin : j ∈ plan_jobs run ids stages) by (rewrite Hp; left).
  apply elem_of_plan_jobs_stage in Hin as (i & s & pj & _ & _ & ->). unfold new_job. simpl.
  by destruct (length _ =? 0)%nat.
Qed.
