(* ===== verification/MemoryRefine.v ===== *)
(** The in-memory store implements the job scheduler: every operation is a
    sequence of scheduler steps on the jobs, and keeps run records consistent
    with the jobs of the run. *)

From stdpp Require Import relations.
From S2P Require Import Prelude GoStd RunModel Pipeline MemoryStore Scheduler RunSpec PlanFacts.

Abbreviation views m := (view <$> ms_jobs m).

(** ** Updates of the jobs, seen by the scheduler *)

Lemma fmap_alter {A B} (h : A → B) (f : A → A) (g : B → B) (i : nat) (l : list A) :
  (∀ x, h (f x) = g (h x)) → h <$> alter f i l = alter g i (h <$> l).
Proof.
  intros Hfg. apply list_eq. intros k. rewrite list_lookup_fmap, !list_lookup_alter.
  case_decide; [subst|by rewrite list_lookup_fmap].
  rewrite list_lookup_fmap. destruct (l !! k); simpl; [by rewrite Hfg|done].
Qed.

(** [key_states] holds the status of every key of the run. *)
Lemma key_states_lookup run jobs k st :
  NoDup ((λ j, (mj_run j, mj_key j)) <$> jobs) →
  key_states run jobs !! k = Some st ↔
  ∃ j, j ∈ jobs ∧ mj_run j = run ∧ mj_key j = k ∧ mj_status j = st.
Proof.
  unfold key_states. induction jobs as [|x jobs IH] using rev_ind; intros Hnd.
  { simpl. rewrite lookup_empty. split; [done|]. by intros (j & ?%not_elem_of_nil & _). }
  rewrite foldl_app. simpl. rewrite fmap_app in Hnd.
  apply NoDup_app in Hnd as (Hnd & Hx & _). specialize (IH Hnd).
  assert (Hnot : ∀ j, j ∈ jobs → mj_run j = mj_run x → mj_key j = mj_key x → False).
  { intros j Hj Hr Hk. apply (Hx (mj_run j, mj_key j)).
    - by apply (list_elem_of_fmap_2 (λ j, (mj_run j, mj_key j))).
    - simpl. rewrite Hr, Hk. by left. }
  setoid_rewrite elem_of_app. setoid_rewrite list_elem_of_singleton.
  case_bool_decide as Hr; [destruct (decide (mj_key x = k)) as [Hk|Hk]|].
  - rewrite Hk, lookup_insert_eq. split.
    + intros [= <-]. exists x. auto.
    + intros (j & [Hj| ->] & Hrj & Hkj & <-); [|done]. destruct (Hnot j); congruence.
  - rewrite lookup_insert_ne, IH by done.
    split; [intros (j & Hj & ?); exists j; auto|].
    intros (j & [Hj| ->] & ? & ? & ?); [exists j; auto|congruence].
  - rewrite IH.
    split; [intros (j & Hj & ?); exists j; auto|].
    intros (j & [Hj| ->] & ? & ? & ?); [exists j; auto|congruence].
Qed.

Lemma run_keys_view (jobs : list memoryJob) :
  (λ j, (aj_run j, aj_key j)) <$> (view <$> jobs) = (λ j, (mj_run j, mj_key j)) <$> jobs.
Proof. by rewrite <-list_fmap_compose. Qed.

Lemma deps_succeeded_ready run jobs j :
  NoDup ((λ j, (mj_run j, mj_key j)) <$> jobs) → mj_run j = run →
  deps_succeeded (key_states run jobs) j = ready (view <$> jobs) (view j).
Proof.
  intros Hnd Hr. apply eq_true_iff_eq. unfold deps_succeeded.
  rewrite ready_spec, forallb_forall. setoid_rewrite <-list_elem_of_In.
  simpl. apply forall_proper. intros d. setoid_rewrite bool_decide_eq_true.
  rewrite key_states_lookup, succeeded_spec by done.
  assert ((∃ j, j ∈ jobs ∧ mj_run j = run ∧ mj_key j = d ∧ mj_status j = JobSucceeded) ↔
    (∃ k, k ∈ view <$> jobs ∧ aj_run k = mj_run j ∧ aj_key k = d ∧ aj_status k = JobSucceeded)) as ->;
    [|done].
  setoid_rewrite list_elem_of_fmap. split.
  - intros (k & Hk & ? & ? & ?). exists (view k). rewrite Hr. split; [by exists k|done].
  - intros (? & (k & -> & Hk) & ? & ? & ?). exists k. rewrite <-Hr. auto.
Qed.

Lemma views_update i f g m :
  (∀ j, view (f j) = g (view j)) → views (update_job i f m) = alter g i (views m).
Proof. intros Hfg. by apply fmap_alter. Qed.

Lemma views_update_same i f m :
  (∀ j, view (f j) = view j) → views (update_job i f m) = views m.
Proof.
  intros Hf. rewrite (views_update i f id) by done.
  apply list_eq. intros k. rewrite list_lookup_alter. case_decide; subst; by destruct (_ !! k).
Qed.

Lemma views_unblock run m :
  structure (views m) → views (unblock run m) = a_unblock run (views m).
Proof.
  intros Hs. apply str_keys in Hs. rewrite run_keys_view in Hs.
  apply fmap_update_all; [|done]. intros j _.
  case_bool_decide as Hr; simpl; [|by rewrite (bool_decide_eq_false_2 (mj_run j = run))].
  rewrite (bool_decide_eq_true_2 (mj_run j = run)) by done.
  by rewrite (deps_succeeded_ready run).
Qed.

Lemma views_skip run m : views (skip_pending run m) = a_skip run (views m).
Proof. by apply fmap_update_all. Qed.

Lemma views_finalize run m : views (finalizeRun run m) = views m.
Proof. unfold finalizeRun. by destruct (existsb _ _). Qed.

Lemma views_after_completion run outcome m :
  structure (views m) → views (after_completion run outcome m) = a_propagate run outcome (views m).
Proof.
  intros Hs. unfold after_completion, a_propagate. rewrite views_finalize.
  case_bool_decide; [by apply views_unblock|apply views_skip].
Qed.

(** ** The invariant of the store *)

Definition mem_inv (m : MemoryStore) : Prop := store_inv (ms_records m) (views m).

(** An operation refines the scheduler and keeps the invariant. *)
Definition refines (m m' : MemoryStore) : Prop :=
  mem_inv m → mem_inv m' ∧ rtc sstep (views m) (views m').

Lemma refines_refl m : refines m m.
Proof. intros Hm. split; [done|reflexivity]. Qed.

Lemma refines_trans m1 m2 m3 : refines m1 m2 → refines m2 m3 → refines m1 m3.
Proof.
  intros H12 H23 Hm. destruct (H12 Hm) as [Hm2 Hs]. destruct (H23 Hm2) as [Hm3 Hs'].
  split; [done|]. by etrans.
Qed.

Lemma refines_quiet m m' : ms_records m' = ms_records m → views m' = views m → refines m m'.
Proof. intros Hr Hv Hm. unfold mem_inv. rewrite Hr, Hv. split; [done|reflexivity]. Qed.

Lemma view_lookup m i j : ms_jobs m !! i = Some j → views m !! i = Some (view j).
Proof. intros Hj. by rewrite list_lookup_fmap, Hj. Qed.

(** The record functions that the operations apply to a run. *)
Definition g_started (now : time) (r : RunRecord) : RunRecord :=
  if rn_StartedAt r =? None then with_started (Some now) r else r.

Lemma setRunStatus_touch run st m :
  NoDup (rn_ID <$> ms_records m) →
  ms_records (setRunStatus run st m) = touch run (with_status st) (ms_records m).
Proof. apply touch_first. Qed.

Lemma setRunFinished_touch run m :
  NoDup (rn_ID <$> ms_records m) →
  ms_records (setRunFinished run m) = touch run (with_finished (Some (ms_now m))) (ms_records m).
Proof. apply touch_first. Qed.

Lemma setRunStarted_touch run m :
  NoDup (rn_ID <$> ms_records m) →
  ms_records (setRunStarted run m) = touch run (g_started (ms_now m)) (ms_records m).
Proof.
  intros Hnd. simpl. rewrite (update_first_all rn_ID run); [|done|intros r Hr; by bools].
  apply list_fmap_ext. intros i r _. unfold g_started.
  by destruct (rn_ID r =? run), (rn_StartedAt r =? None).
Qed.

(** Handing out a job: the common tail of [ClaimJob] and [ClaimRunnerJob]. *)
Lemma claim_refines m i j f :
  ms_jobs m !! i = Some j → mj_status j = JobQueued → view (f j) = aj_set JobAssigned (view j) →
  refines m (setRunStatus (mj_run j) StatusRunning
               (setRunStarted (mj_run j) (update_job i (λ _, f j) m))).
Proof.
  intros Hj Hq Hf Hm.
  assert (Hv : view <$> alter (λ _, f j) i (ms_jobs m) = alter (aj_set JobAssigned) i (views m)).
  { apply list_eq. intros k. rewrite list_lookup_fmap, !list_lookup_alter.
    case_decide; [subst|by rewrite list_lookup_fmap]. rewrite list_lookup_fmap, Hj. simpl. by rewrite Hf. }
  pose proof (view_lookup _ _ _ Hj) as Hvj.
  assert (Hstep : rtc sstep (views m) (alter (aj_set JobAssigned) i (views m))).
  { eapply rtc_once, s_assign; eauto. }
  split; [|simpl; by rewrite Hv]. unfold mem_inv.
  rewrite setRunStatus_touch, setRunStarted_touch by
    (rewrite ?setRunStarted_touch, ?touch_ids by (try apply Hm; intros; unfold g_started; by case_bool_decide);
     apply Hm).
  rewrite touch_touch by (intros; unfold g_started; by case_bool_decide). simpl. rewrite Hv.
  eapply touch_inv; [done|done|..].
  - intros r. unfold g_started. simpl. by case_bool_decide.
  - apply skeletons_runs, skeleton_alter.
  - intros run' Hne. by eapply run_statuses_alter.
  - intros r Hr _. simpl. unfold g_started.
    assert (∃ t, rn_StartedAt (if rn_StartedAt r =? None then with_started (Some (ms_now m)) r else r) = Some t)
      as [t Ht].
    { case_bool_decide; [by eexists|]. destruct (rn_StartedAt r); [by eexists|done]. }
    eapply run_ok_claim; [|exact Ht]. exists JobAssigned. split; [|done].
    by apply (elem_of_run_statuses_alter i (view j)).
Qed.

(** A step between open statuses that leaves the records alone. *)
Lemma move_refines m i j f st :
  ms_jobs m !! i = Some j → (∀ k, view (f k) = aj_set st (view k)) →
  job_open (mj_status j) = true → job_open st = true →
  sstep (views m) (alter (aj_set st) i (views m)) →
  refines m (update_job i f m).
Proof.
  intros Hj Hf Ho Ho' Hstep Hm. pose proof (view_lookup _ _ _ Hj) as Hvj.
  unfold mem_inv. rewrite (views_update i f (aj_set st)) by done. split; [|by apply rtc_once].
  simpl. rewrite <-(touch_id (mj_run j) (ms_records m)).
  eapply touch_inv; [done|by apply rtc_once|done|..].
  - apply skeletons_runs, skeleton_alter.
  - intros run' Hne. by eapply run_statuses_alter.
  - intros r Hr Hok. eapply run_ok_move; [exact Hok|..].
    + exists (mj_status j). split; [|done]. apply elem_of_run_statuses. exists (view j).
      split; [by eapply list_elem_of_lookup_2|done].
    + exists st. split; [|done]. by apply (elem_of_run_statuses_alter i (view j)).
    + apply (failed_alter _ _ (view j)); [done|]. simpl. intros Hs. by rewrite Hs in Ho.
Qed.

Lemma final_status_terminal sts : Terminal (final_status sts) = true.
Proof. unfold final_status. by repeat case_bool_decide. Qed.

Lemma run_statuses_view run (jobs : list memoryJob) :
  run_statuses run (view <$> jobs) = mj_status <$> run_jobs run jobs.
Proof.
  unfold run_statuses, run_jobs. induction jobs as [|j jobs IH]; [done|].
  rewrite fmap_cons, !filter_cons. simpl. case_decide; [|exact IH].
  rewrite !fmap_cons. by f_equal.
Qed.

(** What [finalizeRun] does to the record of a run whose jobs have these statuses. *)
Definition g_final (sts : list JobStatus) (now : time) (r : RunRecord) : RunRecord :=
  if existsb job_open sts then r else with_finished (Some now) (with_status (final_status sts) r).

Lemma finalize_touch run m :
  NoDup (rn_ID <$> ms_records m) →
  ms_records (finalizeRun run m)
  = touch run (g_final (run_statuses run (views m)) (ms_now m)) (ms_records m).
Proof.
  intros Hnd. unfold finalizeRun, g_final. rewrite run_statuses_view.
  destruct (existsb _ _); [symmetry; apply touch_id|].
  rewrite setRunFinished_touch, setRunStatus_touch, touch_touch; try done.
  by rewrite setRunStatus_touch, touch_ids.
Qed.

Lemma final_run_ok run jobs sts now r :
  sinv jobs → run_ok sts r → (∃ st, st ∈ sts ∧ job_open st = true) →
  (JobFailed ∈ sts → JobFailed ∈ run_statuses run jobs) →
  run_ok (run_statuses run jobs) (g_final (run_statuses run jobs) now r).
Proof.
  intros Hinv Hok Hopen Hfail. unfold g_final. destruct (existsb _ _) eqn:He.
  - eapply run_ok_move; [exact Hok|exact Hopen| |exact Hfail]. apply existsb_exists in He as (st & Hst & Ho).
    exists st. split; [by apply list_elem_of_In|done].
  - apply run_ok_finished; [apply final_status_terminal|..]; unfold final_status;
      repeat case_bool_decide; try done. intros _. by apply run_all_succeeded.
Qed.

(** Recording an outcome: the common tail of [CompleteJob] and [CompleteRunnerJob]. *)
Lemma complete_refines m i j f outcome :
  ms_jobs m !! i = Some j → (∀ k, view (f k) = aj_set outcome (view k)) →
  job_leased (mj_status j) = true → job_outcome outcome = true →
  refines m (after_completion (mj_run j) outcome (update_job i f m)).
Proof.
  intros Hj Hf Hl Ho Hm. pose proof (view_lookup _ _ _ Hj) as Hvj.
  assert (Hv1 : views (update_job i f m) = alter (aj_set outcome) i (views m)) by by apply views_update.
  assert (Hstr : structure (views (update_job i f m))).
  { rewrite Hv1. eapply structure_skeleton; [symmetry; apply skeleton_alter|]. apply Hm. }
  assert (Hstep : sstep (views m) (a_propagate (mj_run j) outcome (alter (aj_set outcome) i (views m)))).
  { by apply (s_complete _ i (view j)). }
  unfold mem_inv. rewrite views_after_completion, Hv1 by done.
  split; [|by apply rtc_once]. unfold after_completion. rewrite finalize_touch by
    (case_bool_decide; apply Hm).
  assert (∀ m', (if outcome =? JobSucceeded then unblock (mj_run j) m' else skip_pending (mj_run j) m')
    = set_jobs (ms_jobs (if outcome =? JobSucceeded then unblock (mj_run j) m'
                         else skip_pending (mj_run j) m')) m') as Hset.
  { intros m'. by case_bool_decide. }
  rewrite Hset. cbn [ms_records ms_now set_jobs]. rewrite <-Hset.
  assert (views (if outcome =? JobSucceeded then unblock (mj_run j) (update_job i f m)
      else skip_pending (mj_run j) (update_job i f m))
    = a_propagate (mj_run j) outcome (alter (aj_set outcome) i (views m))) as ->.
  { rewrite <-Hv1, <-views_after_completion by done. unfold after_completion. by rewrite views_finalize. }
  eapply touch_inv; [done|by apply rtc_once|..].
  - intros r. unfold g_final. by destruct (existsb _ _).
  - apply skeletons_runs. by rewrite skeleton_propagate, skeleton_alter.
  - intros run' Hne. rewrite run_statuses_propagate by done. by eapply run_statuses_alter.
  - intros r Hr Hok. eapply final_run_ok; [|exact Hok|..].
    + eapply sstep_inv; [apply Hm|exact Hstep].
    + exists (mj_status j). split; [|by destruct (mj_status j)].
      apply elem_of_run_statuses. exists (view j). split; [by eapply list_elem_of_lookup_2|done].
    + rewrite <-Hr. intros Hfl. apply failed_propagate. apply (failed_alter _ _ (view j)); [done| |done].
      simpl. intros Hs. by rewrite Hs in Hl.
Qed.

(** ** Recovery *)

Lemma requeue_expired_refines m i j :
  ms_jobs m !! i = Some j → mj_status j = JobAssigned → refines m (requeue_expired i j m).
Proof.
  intros Hj Ha. unfold requeue_expired, resetRunAfterRequeue. set (f := λ j, job_with_lease _ _ _).
  assert (Hmove : refines m (update_job i f m)).
  { apply (move_refines m i j f JobQueued); [done..|by rewrite Ha|done|].
    by apply (s_requeue _ i (view j)), Ha; apply view_lookup. }
  case_match; [done|]. intros Hm. destruct (Hmove Hm) as [Hm' Hsteps]. split; [|done].
  unfold mem_inv. cbn [ms_records set_records]. rewrite touch_first by apply Hm.
  eapply touch_inv; [exact Hm'|reflexivity|done..|]. intros r Hr _. apply run_ok_requeued.
  exists JobQueued. split; [|done]. simpl. rewrite (fmap_alter view f (aj_set JobQueued)) by done.
  apply (elem_of_run_statuses_alter i (view j)). by apply view_lookup.
Qed.

Lemma fail_expired_refines m i j :
  ms_jobs m !! i = Some j → mj_status j = JobRunning → refines m (fail_expired i j m).
Proof.
  intros Hj Hr Hm. unfold fail_expired. set (f := λ j, job_with_renewed _ _).
  pose proof (view_lookup _ _ _ Hj) as Hvj.
  set (jobs' := a_propagate (mj_run j) JobFailed (alter (aj_set JobFailed) i (views m))).
  assert (Hv : views (skip_pending (mj_run j) (update_job i f m)) = jobs').
  { rewrite views_skip. unfold jobs', a_propagate. by rewrite (views_update i f (aj_set JobFailed)). }
  assert (Hstep : sstep (views m) jobs').
  { apply (s_complete _ i (view j)); [done|by simpl; rewrite Hr|done]. }
  unfold mem_inv. cbn [ms_records ms_jobs set_records]. cbn [ms_jobs setRunStatus set_records].
  rewrite Hv. split; [|by apply rtc_once]. rewrite setRunStatus_touch by apply Hm.
  change (update_all _ ?g ?l) with (touch (mj_run j) g l). rewrite touch_touch by done.
  eapply touch_inv; [done|by apply rtc_once|done|..].
  - apply skeletons_runs. unfold jobs'. by rewrite skeleton_propagate, skeleton_alter.
  - intros run' Hne. unfold jobs'. rewrite run_statuses_propagate by done. by eapply run_statuses_alter.
  - intros r Hrun _. apply run_ok_finished; [done|done| |done]. intros _. unfold jobs'.
    apply failed_propagate. by apply (elem_of_run_statuses_alter i (view j)).
Qed.

Lemma recover_jobs_refines limit indices processed result m :
  refines m (recover_jobs limit indices processed result m).1.
Proof.
  revert processed result m. induction indices as [|i indices IH]; intros processed result m; simpl.
  { apply refines_refl. }
  destruct (ms_jobs m !! i) as [j|] eqn:Hj; [|apply IH].
  destruct (_ || leaseAlive (ms_now m) j) eqn:Hskip; [apply IH|]. bools.
  case_bool_decide as Ha; (eapply refines_trans; [|apply IH]).
  - by apply requeue_expired_refines.
  - apply fail_expired_refines; [done|]. by destruct (mj_status j).
Qed.

(** ** The operations *)

Section Operations.
Context `{MapOrder}.
Variable json_unmarshal : string → option Plan.

(** A run that the API submits: queued, with a compiled plan and new job ids. *)
Record submittable (ids : nat → uuid) (record : RunRecord) (m : MemoryStore) : Prop := {
  sb_plan : ∀ plan, json_unmarshal (rn_Plan record) = Some plan → stages_ok (pn_Stages plan);
  sb_ids : ∀ n, NoDup ((mj_id <$> ms_jobs m) ++ (ids <$> seq 0 n));
  sb_status : rn_Status record = StatusQueued;
  sb_started : rn_StartedAt record = None;
  sb_finished : rn_FinishedAt record = None;
}.

Lemma Create_refines ids record m :
  submittable ids record m → refines m (Create json_unmarshal ids record m).1.
Proof.
  intros [Hplan Hids Hst Hsa Hfa]. unfold Create.
  destruct (json_unmarshal _) as [plan|]; [|apply refines_refl]. specialize (Hplan plan eq_refl).
  destruct (existsb _ _) eqn:Hex; [apply refines_refl|]. rewrite existsb_false in Hex.
  intros Hm. unfold mem_inv. simpl. rewrite fmap_app.
  assert (Hnew : rn_ID record ∉ rn_ID <$> ms_records m).
  { intros (r & Heq & Hr)%list_elem_of_fmap. specialize (Hex r Hr). by bools. }
  assert (Hsub : submission (views m) (view <$> plan_jobs (rn_ID record) ids (pn_Stages plan)) (rn_ID record)).
  { apply plan_jobs_submission; [done|..].
    - intros j Hj Heq. apply Hnew. rewrite <-Heq. apply (si_record _ _ Hm).
      by apply list_elem_of_fmap_2.
    - rewrite <-list_fmap_compose. apply Hids. }
  split; [|by eapply rtc_once, s_submit]. apply submit_store_inv; try done.
  by apply plan_jobs_open.
Qed.

Lemma find_job_lookup p m i : find_index p (ms_jobs m) = Some i →
  ∃ j, ms_jobs m !! i = Some j ∧ p j = true.
Proof. rewrite find_index_Some. naive_solver. Qed.

Lemma ClaimJob_refines token m : refines m (ClaimJob token m).1.
Proof.
  unfold ClaimJob. destruct (find_index _ _) as [i|] eqn:Hi; [|apply refines_refl].
  apply find_job_lookup in Hi as (j & Hj & Hq). rewrite Hj. bools.
  by apply (claim_refines m i j (λ j, job_with_lease token _ (job_with_status JobAssigned j))).
Qed.

Lemma StartJob_refines id token m : refines m (StartJob id token m).1.
Proof.
  unfold StartJob. destruct (findJob id m) as [i|]; [|apply refines_refl].
  destruct (ms_jobs m !! i) as [j|] eqn:Hj; [|apply refines_refl].
  destruct (_ || _) eqn:Hc; [apply refines_refl|]. bools.
  apply (move_refines m i j _ JobRunning); [done..|by rewrite H1|done|].
  apply (s_start _ i (view j)); [by apply view_lookup|]. simpl. by rewrite H1.
Qed.

Lemma CompleteJob_refines id token st m : refines m (CompleteJob id token st m).1.
Proof.
  unfold CompleteJob. destruct (negb (job_outcome st)) eqn:Ho; [apply refines_refl|].
  destruct (findJob id m) as [i|]; [|apply refines_refl].
  destruct (ms_jobs m !! i) as [j|] eqn:Hj; [|apply refines_refl].
  destruct (_ || _) eqn:Hc; [apply refines_refl|]. bools. by apply complete_refines.
Qed.

Lemma ClaimRunnerJob_refines token runner m : refines m (ClaimRunnerJob token runner m).1.
Proof.
  unfold ClaimRunnerJob. destruct (runner =? uuid_Nil); [apply refines_refl|].
  destruct (ms_runners m !! runner) as [r|]; [|apply refines_refl].
  destruct (_ <=? _); [apply refines_refl|].
  destruct (find_index _ _) as [i|] eqn:Hi; [|apply refines_refl].
  apply find_job_lookup in Hi as (j & Hj & Hq). rewrite Hj. bools.
  by apply (claim_refines m i j (λ j, job_with_lease token _ (job_with_renewed _
    (job_with_accepted None (job_with_runner _ (job_with_status JobAssigned j)))))).
Qed.

Lemma leased_job_Some runner job token ok m i j :
  leased_job runner job token ok m = Some (i, j) →
  ms_jobs m !! i = Some j ∧ mj_id j = job ∧ validRunnerLease (ms_now m) j runner token = true ∧
  ok j = true.
Proof.
  unfold leased_job, findJob. destruct (find_index _ _) as [k|] eqn:Hk; [|done].
  apply find_job_lookup in Hk as (j' & Hj' & Hid). rewrite Hj'.
  destruct (_ && _) eqn:Hc; [|done]. intros [= -> ->]. by bools.
Qed.

Lemma AcknowledgeRunnerJob_refines request m : refines m (AcknowledgeRunnerJob request m).1.
Proof.
  unfold AcknowledgeRunnerJob. destruct (negb _); [apply refines_refl|].
  destruct (leased_job _ _ _ _ _) as [[i j]|]; [|apply refines_refl]. simpl.
  case_bool_decide; [|apply refines_refl]. apply refines_quiet; [done|]. by apply views_update_same.
Qed.

Lemma ReleaseRunnerJob_refines request m : refines m (ReleaseRunnerJob request m).1.
Proof.
  unfold ReleaseRunnerJob. destruct (negb _); [apply refines_refl|].
  destruct (leased_job _ _ _ _ _) as [[i j]|] eqn:Hl; [|apply refines_refl].
  apply leased_job_Some in Hl as (Hj & _ & _ & Hok). bools.
  apply (move_refines m i j _ JobQueued); [done..|by rewrite H0|done|].
  by apply (s_requeue _ i (view j)), H0; apply view_lookup.
Qed.

Lemma StartRunnerJob_refines request m : refines m (StartRunnerJob request m).1.
Proof.
  unfold StartRunnerJob. destruct (negb _); [apply refines_refl|].
  destruct (leased_job _ _ _ _ _) as [[i j]|] eqn:Hl; [|apply refines_refl].
  apply leased_job_Some in Hl as (Hj & _ & _ & Hok). bools.
  apply (move_refines m i j _ JobRunning); [done..| |done|]; [by destruct (mj_status j)|].
  by apply (s_start _ i (view j)); [apply view_lookup|].
Qed.

Lemma renew_leases_refines runner expires active m :
  refines m (renew_leases runner expires active m).1.
Proof.
  revert m. induction active as [|a active IH]; intros m; simpl; [apply refines_refl|].
  destruct (renew_lease runner expires a m) as [m1 r] eqn:H1.
  specialize (IH m1). destruct (renew_leases _ _ active m1) as [m2 rs]. simpl in *.
  eapply refines_trans; [|exact IH]. unfold renew_lease in H1.
  destruct (leased_job _ _ _ _ _) as [[i j]|]; simplify_eq/=; [|apply refines_refl].
  apply refines_quiet; [done|]. by apply views_update_same.
Qed.

Lemma RenewRunnerLeases_refines request m : refines m (RenewRunnerLeases request m).1.
Proof.
  unfold RenewRunnerLeases. destruct (negb _); [apply refines_refl|].
  set (m1 := set_runners _ m).
  pose proof (renew_leases_refines (rd_ID (hb_Runner request)) (ms_now m1 + RunnerLeaseDuration)
    (hb_ActiveJobs request) m1) as Hr.
  destruct (renew_leases _ _ _ _) as [m2 rs]. eapply refines_trans; [|exact Hr].
  by apply refines_quiet.
Qed.

Lemma CompleteRunnerJob_refines request m : refines m (CompleteRunnerJob request m).1.
Proof.
  unfold CompleteRunnerJob. destruct (_ || _); [apply refines_refl|].
  destruct (negb (job_outcome _)) eqn:Ho; [apply refines_refl|].
  destruct (leased_job _ _ _ _ _) as [[i j]|] eqn:Hl; [|apply refines_refl].
  apply leased_job_Some in Hl as (Hj & _ & _ & Hok). bools. by apply complete_refines.
Qed.

Lemma RecoverExpiredRunnerLeases_refines limit m :
  refines m (RecoverExpiredRunnerLeases limit m).1.
Proof.
  unfold RecoverExpiredRunnerLeases. destruct (_ || _); [apply refines_refl|].
  pose proof (recover_jobs_refines limit (seq 0 (length (ms_jobs m))) 0 (mkRecovery 0 0) m) as Hr.
  by destruct (recover_jobs _ _ _ _ _).
Qed.

(** *** Histories of the store *)

Inductive op :=
| OCreate (ids : nat → uuid) (record : RunRecord)
| OClaimJob (token : string)
| OStartJob (id : uuid) (token : string)
| OCompleteJob (id : uuid) (token : string) (status : JobStatus)
| OClaimRunnerJob (token : string) (runnerID : uuid)
| OAcknowledge (request : LeaseRequest)
| ORelease (request : LeaseRequest)
| OStart (request : LeaseRequest)
| ORenew (request : HeartbeatRequest)
| OComplete (request : RunnerCompletion)
| ORecover (limit : Z)
| OTick (elapsed : duration).

Definition exec (o : op) (m : MemoryStore) : MemoryStore :=
  match o with
  | OCreate ids record => (Create json_unmarshal ids record m).1
  | OClaimJob token => (ClaimJob token m).1
  | OStartJob id token => (StartJob id token m).1
  | OCompleteJob id token status => (CompleteJob id token status m).1
  | OClaimRunnerJob token runnerID => (ClaimRunnerJob token runnerID m).1
  | OAcknowledge request => (AcknowledgeRunnerJob request m).1
  | ORelease request => (ReleaseRunnerJob request m).1
  | OStart request => (StartRunnerJob request m).1
  | ORenew request => (RenewRunnerLeases request m).1
  | OComplete request => (CompleteRunnerJob request m).1
  | ORecover limit => (RecoverExpiredRunnerLeases limit m).1
  | OTick elapsed => mkMemoryStore (ms_records m) (ms_jobs m) (ms_runners m) (ms_now m + elapsed)
  end.

(** What the callers guarantee: runs are submitted with a compiled plan under
    new identifiers, and the clock does not go back. *)
Definition admissible (o : op) (m : MemoryStore) : Prop :=
  match o with
  | OCreate ids record => submittable ids record m
  | OTick elapsed => 0 ≤ elapsed
  | _ => True
  end.

Inductive reachable : MemoryStore → Prop :=
| reachable_new now : reachable (NewMemoryStore now)
| reachable_exec o m : reachable m → admissible o m → reachable (exec o m).

Lemma exec_refines o m : admissible o m → refines m (exec o m).
Proof.
  destruct o; simpl; intros Ha; [by apply Create_refines|apply ClaimJob_refines|apply StartJob_refines
    |apply CompleteJob_refines|apply ClaimRunnerJob_refines|apply AcknowledgeRunnerJob_refines
    |apply ReleaseRunnerJob_refines|apply StartRunnerJob_refines|apply RenewRunnerLeases_refines
    |apply CompleteRunnerJob_refines|apply RecoverExpiredRunnerLeases_refines|by apply refines_quiet].
Qed.

Lemma mem_inv_new now : mem_inv (NewMemoryStore now).
Proof.
  split; [apply sinv_nil|constructor|..].
  - by intros run ?%not_elem_of_nil.
  - by intros r ?%not_elem_of_nil.
Qed.

Lemma reachable_inv m : reachable m → mem_inv m.
Proof.
  induction 1 as [now|o m _ IH Ha]; [apply mem_inv_new|]. by apply exec_refines.
Qed.

Lemma reachable_steps m : reachable m → rtc sstep [] (views m).
Proof.
  induction 1 as [now|o m Hr IH Ha]; [reflexivity|]. etrans; [exact IH|].
  by apply exec_refines, reachable_inv.
Qed.
End Operations.
