(* ===== verification/LeaseStore.v ===== *)
(** The lease protocol between a store and the runners (RunnerJobStore of
    internal/run/runner_store.go), as an interface: what claiming, acknowledging,
    starting, releasing and completing a job promise to a runner.  The laws are
    those that internal/run/storetest/runner_contract.go exercises; the client
    theorems below only use them. *)

From S2P Require Import Prelude GoStd RunModel Pipeline.

(** The lease that an assignment gives to a runner. *)
Definition lease_of (runnerID : uuid) (a : Assignment) : LeaseRequest :=
  mkLease runnerID (as_JobID a) (as_LeaseToken a).

Definition completion_of (q : LeaseRequest) (outcome : JobStatus) : RunnerCompletion :=
  mkCompletion (lr_RunnerID q) (lr_JobID q) (lr_LeaseToken q) outcome.

Class RunnerJobStore (St : Type) := {
  claim : string → uuid → St → St * result RunError (option Assignment);
  acknowledge : LeaseRequest → St → St * result RunError LeaseState;
  release : LeaseRequest → St → St * result RunError unit;
  start : LeaseRequest → St → St * result RunError LeaseState;
  complete : RunnerCompletion → St → St * result RunError unit;
  (** The status of the job of a live lease and whether its receipt was recorded. *)
  lease_view : St → LeaseRequest → option (JobStatus * bool);
}.

(** What an operation on the job of [q] does to the leases of the other jobs. *)
Definition others_kept `{RunnerJobStore St} (q : LeaseRequest) (s s' : St) : Prop :=
  ∀ q', lr_JobID q' ≠ lr_JobID q → lease_view s' q' = lease_view s q'.

Class RunnerJobLaws (St : Type) `{RunnerJobStore St} (wf : St → Prop) : Prop := {
  view_leased s q st b : lease_view s q = Some (st, b) → job_leased st = true;
  claim_wf token r s : wf s → wf (claim token r s).1;
  claim_none token r s s' res :
    claim token r s = (s', res) → (∀ a, res ≠ Ok (Some a)) → s' = s;
  claim_law token r s s' a :
    wf s → token ≠ "" → claim token r s = (s', Ok (Some a)) → as_JobID a ≠ uuid_Nil →
    as_LeaseToken a = token ∧ validateLeaseRequest (lease_of r a) = true ∧
    lease_view s' (lease_of r a) = Some (JobAssigned, false) ∧
    (∀ q, lr_JobID q = as_JobID a → lease_view s q = None) ∧
    others_kept (lease_of r a) s s';
  acknowledge_law q s :
    wf s → validateLeaseRequest q = true →
    match lease_view s q with
    | Some (st, _) => ∃ s' l, acknowledge q s = (s', Ok l) ∧ wf s' ∧
        lease_view s' q = Some (st, true) ∧ others_kept q s s' ∧ ls_JobID l = lr_JobID q
    | None => acknowledge q s = (s, Err ErrLeaseInvalid)
    end;
  start_law q s :
    wf s → validateLeaseRequest q = true →
    match lease_view s q with
    | Some (_, true) => ∃ s' l, start q s = (s', Ok l) ∧ wf s' ∧
        lease_view s' q = Some (JobRunning, true) ∧ others_kept q s s' ∧ ls_JobID l = lr_JobID q
    | _ => start q s = (s, Err ErrLeaseInvalid)
    end;
  release_law q s :
    wf s → validateLeaseRequest q = true →
    match lease_view s q with
    | Some (JobAssigned, false) => ∃ s', release q s = (s', Ok tt) ∧ wf s' ∧
        (∀ q', validateLeaseRequest q' = true → lr_JobID q' = lr_JobID q → lease_view s' q' = None) ∧
        others_kept q s s'
    | _ => release q s = (s, Err ErrLeaseInvalid)
    end;
  complete_law q outcome s :
    wf s → validateLeaseRequest q = true → job_outcome outcome = true →
    match lease_view s q with
    | Some _ => ∃ s', complete (completion_of q outcome) s = (s', Ok tt) ∧ wf s' ∧
        (∀ q', validateLeaseRequest q' = true → lr_JobID q' = lr_JobID q → lease_view s' q' = None) ∧
        others_kept q s s'
    | None => complete (completion_of q outcome) s = (s, Err ErrLeaseInvalid)
    end;
}.

(** ** What a runner can rely on *)

Section Client.
Context {St : Type} {wf : St → Prop} `{RunnerJobLaws St wf}.

(** A runner that acknowledges, starts and completes the job it claimed succeeds
    at each step, cannot start before the receipt nor release after it, and holds
    nothing afterwards. *)
Lemma lease_session token r s s1 a outcome :
  wf s → token ≠ "" → claim token r s = (s1, Ok (Some a)) → as_JobID a ≠ uuid_Nil →
  job_outcome outcome = true →
  let q := lease_of r a in
  start q s1 = (s1, Err ErrLeaseInvalid) ∧
  ∃ s2 l2, acknowledge q s1 = (s2, Ok l2) ∧ release q s2 = (s2, Err ErrLeaseInvalid) ∧
  ∃ s3 l3, start q s2 = (s3, Ok l3) ∧ release q s3 = (s3, Err ErrLeaseInvalid) ∧
  ∃ s4, complete (completion_of q outcome) s3 = (s4, Ok tt) ∧
    acknowledge q s4 = (s4, Err ErrLeaseInvalid) ∧ start q s4 = (s4, Err ErrLeaseInvalid) ∧
    release q s4 = (s4, Err ErrLeaseInvalid) ∧
    complete (completion_of q outcome) s4 = (s4, Err ErrLeaseInvalid).
Proof.
  intros Hwf Ht Hc Hid Ho q.
  destruct (claim_law token r s s1 a Hwf Ht Hc Hid) as (_ & Hq & Hv1 & _ & _). fold q in Hq, Hv1.
  assert (Hwf1 : wf s1) by (pose proof (claim_wf token r s Hwf) as Hw; by rewrite Hc in Hw).
  pose proof (start_law q s1 Hwf1 Hq) as Hs1. rewrite Hv1 in Hs1. split; [done|].
  pose proof (acknowledge_law q s1 Hwf1 Hq) as Ha1. rewrite Hv1 in Ha1.
  destruct Ha1 as (s2 & l2 & Ha1 & Hwf2 & Hv2 & _). exists s2, l2. split; [done|].
  pose proof (release_law q s2 Hwf2 Hq) as Hr2. rewrite Hv2 in Hr2. split; [done|].
  pose proof (start_law q s2 Hwf2 Hq) as Hs2. rewrite Hv2 in Hs2.
  destruct Hs2 as (s3 & l3 & Hs2 & Hwf3 & Hv3 & _). exists s3, l3. split; [done|].
  pose proof (release_law q s3 Hwf3 Hq) as Hr3. rewrite Hv3 in Hr3. split; [done|].
  pose proof (complete_law q outcome s3 Hwf3 Hq Ho) as Hc3. rewrite Hv3 in Hc3.
  destruct Hc3 as (s4 & Hc3 & Hwf4 & Hv4 & _). exists s4. specialize (Hv4 q Hq eq_refl).
  pose proof (acknowledge_law q s4 Hwf4 Hq) as Ha4. rewrite Hv4 in Ha4.
  pose proof (start_law q s4 Hwf4 Hq) as Hs4. rewrite Hv4 in Hs4.
  pose proof (release_law q s4 Hwf4 Hq) as Hr4. rewrite Hv4 in Hr4.
  pose proof (complete_law q outcome s4 Hwf4 Hq Ho) as Hc4. by rewrite Hv4 in Hc4.
Qed.

(** *** Isolation *)

Inductive command :=
| CClaim (token : string) (runnerID : uuid)
| CAcknowledge (q : LeaseRequest)
| CStart (q : LeaseRequest)
| CRelease (q : LeaseRequest)
| CComplete (q : LeaseRequest) (outcome : JobStatus).

Definition perform (c : command) (s : St) : St :=
  match c with
  | CClaim token r => (claim token r s).1
  | CAcknowledge q => (acknowledge q s).1
  | CStart q => (start q s).1
  | CRelease q => (release q s).1
  | CComplete q outcome => (complete (completion_of q outcome) s).1
  end.

(** A command of another runner: it does not present a lease of [job]. *)
Definition foreign (job : uuid) (c : command) (s : St) : Prop :=
  match c with
  | CClaim token r => token ≠ "" ∧ ∀ s' a, claim token r s = (s', Ok (Some a)) → as_JobID a ≠ uuid_Nil
  | CAcknowledge q | CStart q | CRelease q => validateLeaseRequest q = true ∧ lr_JobID q ≠ job
  | CComplete q outcome =>
      validateLeaseRequest q = true ∧ lr_JobID q ≠ job ∧ job_outcome outcome = true
  end.

Inductive interleaving (job : uuid) : list command → St → St → Prop :=
| il_nil s : interleaving job [] s s
| il_cons c cs s s' :
    foreign job c s → interleaving job cs (perform c s) s' → interleaving job (c :: cs) s s'.

Lemma foreign_step q v c s :
  wf s → lease_view s q = Some v → foreign (lr_JobID q) c s →
  wf (perform c s) ∧ lease_view (perform c s) q = Some v.
Proof.
  intros Hwf Hv Hf. destruct c as [token r|q'|q'|q'|q' o]; simpl in *.
  - destruct Hf as [Ht Hid]. split; [by apply claim_wf|].
    destruct (claim token r s) as [s' res] eqn:Hc. simpl.
    assert (Hn : (∃ a, res = Ok (Some a)) ∨ ∀ a, res ≠ Ok (Some a)).
    { destruct res as [[a|]|e]; [left; eauto|by right..]. }
    destruct Hn as [[a ->]|Hn].
    + destruct (claim_law token r s s' a Hwf Ht Hc (Hid _ _ eq_refl)) as (_ & _ & _ & Hnone & Hk).
      rewrite Hk; [done|]. simpl. intros Heq. by rewrite Hnone in Hv.
    + rewrite (claim_none _ _ _ _ _ Hc); done.
  - destruct Hf as [Hq Hne]. pose proof (acknowledge_law q' s Hwf Hq) as Hl.
    destruct (lease_view s q') as [[st b]|]; [|by rewrite Hl].
    destruct Hl as (s' & l & -> & ? & _ & Hk & _). by rewrite Hk.
  - destruct Hf as [Hq Hne]. pose proof (start_law q' s Hwf Hq) as Hl.
    destruct (lease_view s q') as [[st [|]]|]; [|by rewrite Hl..].
    destruct Hl as (s' & l & -> & ? & _ & Hk & _). by rewrite Hk.
  - destruct Hf as [Hq Hne]. pose proof (release_law q' s Hwf Hq) as Hl.
    destruct (lease_view s q') as [[[] [|]]|]; try by rewrite Hl.
    destruct Hl as (s' & -> & ? & _ & Hk). by rewrite Hk.
  - destruct Hf as (Hq & Hne & Ho). pose proof (complete_law q' o s Hwf Hq Ho) as Hl.
    destruct (lease_view s q') as [[st b]|]; [|by rewrite Hl].
    destruct Hl as (s' & -> & ? & _ & Hk). by rewrite Hk.
Qed.

(** Commands of other runners, in any order, do not affect a live lease. *)
Lemma lease_isolation q v cs s s' :
  wf s → lease_view s q = Some v → interleaving (lr_JobID q) cs s s' →
  wf s' ∧ lease_view s' q = Some v.
Proof.
  intros Hwf Hv Hi. induction Hi as [s|c cs s s' Hf _ IH]; [done|].
  destruct (foreign_step q v c s Hwf Hv Hf). auto.
Qed.
End Client.
