(* ===== verification/MemoryLease.v ===== *)
(** The in-memory store keeps the lease protocol. *)

From S2P Require Import Prelude GoStd RunModel Pipeline MemoryStore Scheduler RunSpec PlanFacts MemoryRefine LeaseStore.

(** What a lease request sees of the job it names. *)
Definition job_view (now : time) (q : LeaseRequest) (j : memoryJob) : option (JobStatus * bool) :=
  if validRunnerLease now j (lr_RunnerID q) (lr_LeaseToken q) && job_leased (mj_status j)
  then Some (mj_status j, mj_acceptedAt j <>? None) else None.

Definition mem_view (m : MemoryStore) (q : LeaseRequest) : option (JobStatus * bool) :=
  match findJob (lr_JobID q) m with
  | Some i => match ms_jobs m !! i with Some j => job_view (ms_now m) q j | None => None end
  | None => None
  end.

(** The runners are stored under their own identifier. *)
Definition runners_keyed (m : MemoryStore) : Prop :=
  ∀ id r, ms_runners m !! id = Some r → rd_ID r = id.

Definition mem_wf (m : MemoryStore) : Prop := mem_inv m ∧ runners_keyed m.

Lemma mem_wf_ids m : mem_wf m → NoDup (mj_id <$> ms_jobs m).
Proof.
  intros [Hm _]. pose proof (str_ids _ (inv_structure _ (si_jobs _ _ Hm))) as Hnd.
  by rewrite <-list_fmap_compose in Hnd.
Qed.

Lemma findJob_at m i j :
  NoDup (mj_id <$> ms_jobs m) → ms_jobs m !! i = Some j → findJob (mj_id j) m = Some i.
Proof.
  intros Hnd Hj. apply find_index_Some. exists j. split; [done|]. split; [by apply bool_decide_eq_true_2|].
  intros k j' Hk Hj'. apply bool_decide_eq_false_2. intros Heq.
  assert (k = i); [|lia].
  eapply (NoDup_lookup _ k i (mj_id j) Hnd); rewrite list_lookup_fmap, ?Hj, ?Hj'; simpl; congruence.
Qed.

Lemma mem_view_at m i j q :
  NoDup (mj_id <$> ms_jobs m) → ms_jobs m !! i = Some j → lr_JobID q = mj_id j →
  mem_view m q = job_view (ms_now m) q j.
Proof. intros Hnd Hj Hq. unfold mem_view. by rewrite Hq, (findJob_at _ i j), Hj. Qed.

(** Two lists of jobs that agree for the leases of all jobs but [id]. *)
Definition same_leases (now : time) (id : uuid) : relation (list memoryJob) :=
  Forall2 (λ j j', mj_id j' = mj_id j ∧ (mj_id j ≠ id → ∀ q, job_view now q j' = job_view now q j)).

#[export] Instance same_leases_refl now id : Reflexive (same_leases now id).
Proof. intros l. by apply Forall_Forall2_diag, Forall_true. Qed.
#[export] Instance same_leases_trans now id : Transitive (same_leases now id).
Proof.
  intros l1 l2 l3 H12 H23. eapply Forall2_trans; [|exact H12|exact H23].
  intros x y z [Hxy Vxy] [Hyz Vyz]. split; [congruence|]. intros Hx q.
  rewrite Vyz, Vxy; [done..|congruence].
Qed.

Lemma find_index_Forall2 {A} (p : A → bool) (R : A → A → Prop) l l' :
  (∀ x y, R x y → p x = p y) → Forall2 R l l' → find_index p l = find_index p l'.
Proof.
  intros Hp. induction 1 as [|x y l l' Hxy _ IH]; simpl; [done|]. by rewrite (Hp x y), IH.
Qed.

Lemma same_leases_view m m' id q :
  ms_now m' = ms_now m → same_leases (ms_now m) id (ms_jobs m) (ms_jobs m') →
  lr_JobID q ≠ id → mem_view m' q = mem_view m q.
Proof.
  intros Hnow Hs Hne. unfold mem_view.
  assert (findJob (lr_JobID q) m' = findJob (lr_JobID q) m) as ->.
  { symmetry. unfold findJob. eapply find_index_Forall2; [|exact Hs]. by intros x y [-> _]. }
  destruct (findJob (lr_JobID q) m) as [i|] eqn:Hi; [|done].
  apply find_job_lookup in Hi as (j & Hj & Hid). bools. rewrite Hj, Hnow.
  destruct (Forall2_lookup_l _ _ _ _ _ Hs Hj) as (j' & -> & _ & Hv). apply Hv. congruence.
Qed.

Lemma same_leases_alter now i j f l :
  l !! i = Some j → mj_id (f j) = mj_id j → same_leases now (mj_id j) l (alter f i l).
Proof.
  intros Hj Hf. apply Forall2_same_length_lookup_2; [by rewrite length_alter|].
  intros k x y Hx Hy. rewrite list_lookup_alter, Hx in Hy. case_decide; simplify_eq/=; [|done].
  rewrite Hj in Hy. by simplify_eq/=.
Qed.

Lemma same_leases_update_all now id p st l :
  (∀ j, p j = true → job_leased (mj_status j) = false) → job_leased st = false →
  same_leases now id l (update_all p (job_with_status st) l).
Proof.
  intros Hp Hst. apply Forall2_same_length_lookup_2; [by rewrite length_update_all|].
  intros k x y Hx Hy. rewrite lookup_update_all, Hx in Hy. simplify_eq/=.
  destruct (p x) eqn:Hpx; [|done]. split; [done|]. intros _ q. unfold job_view. simpl.
  rewrite Hst, (Hp x Hpx). by rewrite !andb_false_r.
Qed.

Lemma after_completion_leases run outcome m id :
  same_leases (ms_now m) id (ms_jobs m) (ms_jobs (after_completion run outcome m)).
Proof.
  unfold after_completion, finalizeRun.
  assert (∀ b m', ms_jobs (if b : bool then m' else setRunFinished run (setRunStatus run
    (final_status (mj_status <$> run_jobs run (ms_jobs m'))) m')) = ms_jobs m') as -> by by intros [].
  case_bool_decide; apply same_leases_update_all; try done; intros j Hp; bools.
  - by rewrite H2.
  - destruct H1 as [H1|H1]; bools; by rewrite H1.
Qed.

Lemma after_completion_now run outcome m : ms_now (after_completion run outcome m) = ms_now m.
Proof. unfold after_completion, finalizeRun. case_bool_decide; by destruct (existsb _ _). Qed.

Lemma after_completion_runners run outcome m :
  ms_runners (after_completion run outcome m) = ms_runners m.
Proof. unfold after_completion, finalizeRun. case_bool_decide; by destruct (existsb _ _). Qed.

Section Instance_.
Context `{MapOrder}.

#[export] Instance memory_store : RunnerJobStore MemoryStore := {|
  claim := ClaimRunnerJob;
  acknowledge := AcknowledgeRunnerJob;
  release := ReleaseRunnerJob;
  start := StartRunnerJob;
  complete := CompleteRunnerJob;
  lease_view := mem_view;
|}.

(** The guard of the lease operations, read off the view. *)
Lemma leased_job_view q ok m :
  leased_job (lr_RunnerID q) (lr_JobID q) (lr_LeaseToken q)
    (λ j, job_leased (mj_status j) && ok j) m
  = match mem_view m q with
    | Some _ =>
      match findJob (lr_JobID q) m with
      | Some i => match ms_jobs m !! i with
                  | Some j => if ok j then Some (i, j) else None | None => None end
      | None => None
      end
    | None => None
    end.
Proof.
  unfold leased_job, mem_view, job_view. destruct (findJob _ m) as [i|]; [|done].
  destruct (ms_jobs m !! i) as [j|]; [|done].
  by destruct (validRunnerLease _ _ _ _), (job_leased _), (ok j).
Qed.

Lemma mem_view_Some m q v :
  mem_view m q = Some v →
  ∃ i j, findJob (lr_JobID q) m = Some i ∧ ms_jobs m !! i = Some j ∧ mj_id j = lr_JobID q ∧
    validRunnerLease (ms_now m) j (lr_RunnerID q) (lr_LeaseToken q) = true ∧
    job_leased (mj_status j) = true ∧ v = (mj_status j, mj_acceptedAt j <>? None).
Proof.
  unfold mem_view, job_view. destruct (findJob _ m) as [i|] eqn:Hi; [|done].
  apply find_job_lookup in Hi as Hj. destruct Hj as (j & Hj & Hid). rewrite Hj. bools.
  destruct (_ && _) eqn:Hc; [|done]. intros [= <-]. bools. eauto 10.
Qed.

Lemma leased_job_of_view m q i j ok :
  findJob (lr_JobID q) m = Some i → ms_jobs m !! i = Some j →
  validRunnerLease (ms_now m) j (lr_RunnerID q) (lr_LeaseToken q) = true →
  leased_job (lr_RunnerID q) (lr_JobID q) (lr_LeaseToken q) ok m
  = if ok j then Some (i, j) else None.
Proof. intros Hi Hj Hv. unfold leased_job. by rewrite Hi, Hj, Hv. Qed.

Lemma leased_job_no_view m q ok :
  (∀ j, ok j = true → job_leased (mj_status j) = true) → mem_view m q = None →
  leased_job (lr_RunnerID q) (lr_JobID q) (lr_LeaseToken q) ok m = None.
Proof.
  unfold leased_job, mem_view, job_view. intros Hok. destruct (findJob _ m) as [i|]; [|done].
  destruct (ms_jobs m !! i) as [j|]; [|done]. specialize (Hok j).
  destruct (validRunnerLease _ _ _ _), (job_leased _), (ok j); try done. by specialize (Hok eq_refl).
Qed.

Lemma refines_wf m m' : refines m m' → ms_runners m' = ms_runners m → mem_wf m → mem_wf m'.
Proof. intros Hr Hrun [Hm Hk]. split; [by apply Hr|]. unfold runners_keyed. by rewrite Hrun. Qed.

(** The state after the job [j] at index [i] was changed by [f]. *)
Lemma update_view m i j f q :
  mem_wf m → ms_jobs m !! i = Some j → mj_id (f j) = mj_id j → lr_JobID q = mj_id j →
  mem_view (update_job i f m) q = job_view (ms_now m) q (f j).
Proof.
  intros Hwf Hj Hf Hq. apply (mem_view_at (update_job i f m) i).
  - simpl. assert (mj_id <$> alter f i (ms_jobs m) = mj_id <$> ms_jobs m) as ->; [|by apply mem_wf_ids].
    apply list_eq. intros k. rewrite !list_lookup_fmap, list_lookup_alter.
    case_decide; [subst; rewrite Hj; simpl; by rewrite Hf|done].
  - simpl. by rewrite list_lookup_alter_eq, Hj.
  - by rewrite Hf.
Qed.

Lemma update_others m i j f q :
  ms_jobs m !! i = Some j → mj_id (f j) = mj_id j → mj_id j = lr_JobID q →
  others_kept q m (update_job i f m).
Proof.
  intros Hj Hf Hid q' Hne. apply (same_leases_view _ _ (lr_JobID q)); [done| |done].
  rewrite <-Hid. by apply (same_leases_alter _ i j).
Qed.

Lemma validate_runner q : validateLeaseRequest q = true → lr_RunnerID q ≠ uuid_Nil.
Proof. unfold validateLeaseRequest. intros. by bools. Qed.
Lemma validate_token q : validateLeaseRequest q = true → lr_LeaseToken q ≠ "".
Proof. unfold validateLeaseRequest. intros. by bools. Qed.

Lemma memory_claim_law token r m m' a :
  mem_wf m → token ≠ "" → ClaimRunnerJob token r m = (m', Ok (Some a)) → as_JobID a ≠ uuid_Nil →
  as_LeaseToken a = token ∧ validateLeaseRequest (lease_of r a) = true ∧
  mem_view m' (lease_of r a) = Some (JobAssigned, false) ∧
  (∀ q, lr_JobID q = as_JobID a → mem_view m q = None) ∧ others_kept (lease_of r a) m m'.
Proof.
  intros Hwf Ht. unfold ClaimRunnerJob. case_bool_decide as Hr; [done|].
  destruct (ms_runners m !! r) as [d|] eqn:Hd; [|done]. destruct (_ <=? _); [done|].
  destruct (find_index _ _) as [i|] eqn:Hi; [|done].
  apply find_job_lookup in Hi as (j & Hj & Hq). rewrite Hj. bools. intros [= <- <-] Hid.
  pose proof (proj2 Hwf r d Hd) as Hdr. set (f := λ _, job_with_lease _ _ _).
  assert (Hv : ∀ m1 q, mem_view (setRunStatus (mj_run j) StatusRunning (setRunStarted (mj_run j) m1)) q
    = mem_view m1 q) by done.
  split; [done|]. split; [|split; [|split]].
  - unfold validateLeaseRequest. simpl. rewrite !bool_decide_eq_false_2 by done. done.
  - rewrite Hv, (update_view m i j f) by done. unfold job_view, validRunnerLease, leaseAlive.
    assert (Hlt : (ms_now m <? ms_now m + RunnerLeaseDuration) = true).
    { apply Z.ltb_lt. assert (RunnerLeaseDuration = 30000000000) as -> by reflexivity. lia. }
    change (mj_expires (f j)) with (ms_now m + RunnerLeaseDuration). simpl. rewrite Hlt.
    by rewrite !bool_decide_eq_true_2.
  - intros q Hqid. rewrite (mem_view_at m i j) by (try done; by apply mem_wf_ids).
    unfold job_view. rewrite H0. by rewrite andb_false_r.
  - intros q Hne. rewrite Hv. by apply (update_others m i j f (lease_of r (mj_assignment j))).
Qed.

Lemma valid_accepted now t j r token :
  validRunnerLease now (job_with_accepted t j) r token = validRunnerLease now j r token.
Proof. done. Qed.
Lemma valid_status now st j r token :
  validRunnerLease now (job_with_status st j) r token = validRunnerLease now j r token.
Proof. done. Qed.

Lemma memory_acknowledge_law q m :
  mem_wf m → validateLeaseRequest q = true →
  match mem_view m q with
  | Some (st, _) => ∃ m' l, AcknowledgeRunnerJob q m = (m', Ok l) ∧ mem_wf m' ∧
      mem_view m' q = Some (st, true) ∧ others_kept q m m' ∧ ls_JobID l = lr_JobID q
  | None => AcknowledgeRunnerJob q m = (m, Err ErrLeaseInvalid)
  end.
Proof.
  intros Hwf Hq. pose proof (AcknowledgeRunnerJob_refines q m) as Href.
  unfold AcknowledgeRunnerJob in *. rewrite Hq in *. simpl in *.
  destruct (mem_view m q) as [v|] eqn:Hv; [|by rewrite leased_job_no_view].
  apply mem_view_Some in Hv as Hs. destruct Hs as (i & j & Hi & Hj & Hid & Hval & Hl & ->).
  rewrite (leased_job_of_view m q i j), Hl in * by done. simpl in *.
  eexists _, _. split; [done|]. split; [eapply refines_wf; [exact Href|by case_bool_decide|done]|].
  case_bool_decide as Ha; [split; [|split; [by apply (update_others m i j)|done]]|split; [|done]].
  - rewrite (update_view m i j) by done. unfold job_view.
    by rewrite valid_accepted, Hval; simpl; rewrite Hl.
  - exact Hv.
Qed.

Lemma memory_start_law q m :
  mem_wf m → validateLeaseRequest q = true →
  match mem_view m q with
  | Some (_, true) => ∃ m' l, StartRunnerJob q m = (m', Ok l) ∧ mem_wf m' ∧
      mem_view m' q = Some (JobRunning, true) ∧ others_kept q m m' ∧ ls_JobID l = lr_JobID q
  | _ => StartRunnerJob q m = (m, Err ErrLeaseInvalid)
  end.
Proof.
  intros Hwf Hq. pose proof (StartRunnerJob_refines q m) as Href.
  unfold StartRunnerJob in *. rewrite Hq in *. simpl in *.
  destruct (mem_view m q) as [v|] eqn:Hv; [|rewrite leased_job_no_view; try done; intros j Hok; by bools].
  apply mem_view_Some in Hv as Hs. destruct Hs as (i & j & Hi & Hj & Hid & Hval & Hl & ->).
  rewrite (leased_job_of_view m q i j), Hl, andb_true_r in * by done.
  case_bool_decide as Ha; [done|]. simpl in *.
  eexists _, _. split; [done|]. split; [by eapply refines_wf|split; [|split; [by apply (update_others m i j)|done]]].
  rewrite (update_view m i j) by done. unfold job_view. rewrite valid_status, Hval. simpl.
  by rewrite bool_decide_eq_false_2.
Qed.

Lemma memory_release_law q m :
  mem_wf m → validateLeaseRequest q = true →
  match mem_view m q with
  | Some (JobAssigned, false) => ∃ m', ReleaseRunnerJob q m = (m', Ok tt) ∧ mem_wf m' ∧
      (∀ q', validateLeaseRequest q' = true → lr_JobID q' = lr_JobID q → mem_view m' q' = None) ∧
      others_kept q m m'
  | _ => ReleaseRunnerJob q m = (m, Err ErrLeaseInvalid)
  end.
Proof.
  intros Hwf Hq. pose proof (ReleaseRunnerJob_refines q m) as Href.
  unfold ReleaseRunnerJob in *. rewrite Hq in *. simpl in *.
  destruct (mem_view m q) as [v|] eqn:Hv.
  2:{ rewrite leased_job_no_view; try done. intros j Hok. bools. by rewrite H0. }
  apply mem_view_Some in Hv as Hs. destruct Hs as (i & j & Hi & Hj & Hid & Hval & Hl & ->).
  rewrite (leased_job_of_view m q i j) in * by done. destruct (mj_status j) eqn:Hst; try done.
  case_bool_decide as Ha; simpl in *; [|done].
  eexists. split; [done|]. split; [by eapply refines_wf|split; [|by apply (update_others m i j)]].
  intros q' Hq' Heq. rewrite (update_view m i j) by (try done; congruence).
  unfold job_view. simpl. by rewrite andb_false_r.
Qed.

Lemma after_completion_view run outcome m q :
  mem_view (after_completion run outcome m) q = mem_view m q.
Proof.
  apply (same_leases_view _ _ (N.succ (lr_JobID q))); [apply after_completion_now|
    apply after_completion_leases|lia].
Qed.

Lemma memory_complete_law q outcome m :
  mem_wf m → validateLeaseRequest q = true → job_outcome outcome = true →
  match mem_view m q with
  | Some _ => ∃ m', CompleteRunnerJob (completion_of q outcome) m = (m', Ok tt) ∧ mem_wf m' ∧
      (∀ q', validateLeaseRequest q' = true → lr_JobID q' = lr_JobID q → mem_view m' q' = None) ∧
      others_kept q m m'
  | None => CompleteRunnerJob (completion_of q outcome) m = (m, Err ErrLeaseInvalid)
  end.
Proof.
  intros Hwf Hq Ho. pose proof (CompleteRunnerJob_refines (completion_of q outcome) m) as Href.
  unfold CompleteRunnerJob in *. simpl in *.
  unfold validateLeaseRequest in Hq. apply negb_true_iff in Hq. rewrite Hq, Ho in *. simpl in *.
  destruct (mem_view m q) as [v|] eqn:Hv; [|by rewrite leased_job_no_view].
  apply mem_view_Some in Hv as Hs. destruct Hs as (i & j & Hi & Hj & Hid & Hval & Hl & ->).
  rewrite (leased_job_of_view m q i j), Hl in * by done. simpl in *.
  eexists. split; [done|]. split; [|split].
  - eapply refines_wf; [exact Href|by rewrite after_completion_runners|done].
  - intros q' _ Heq. rewrite after_completion_view, (update_view m i j) by (try done; congruence).
    unfold job_view. simpl. by destruct outcome; try done; rewrite andb_false_r.
  - intros q' Hne. rewrite after_completion_view. by apply (update_others m i j _ q).
Qed.

#[export] Instance memory_laws : RunnerJobLaws MemoryStore mem_wf.
Proof.
  split.
  - intros m q st b (i & j & _ & _ & _ & _ & Hl & Heq)%mem_view_Some. by simplify_eq.
  - intros token r m Hwf. eapply refines_wf; [apply ClaimRunnerJob_refines| |done].
    simpl. unfold ClaimRunnerJob. by repeat case_match.
  - intros token r m m' res. simpl. unfold ClaimRunnerJob. intros Hc Hne.
    repeat case_match; simplify_eq; try done. by destruct (Hne _ eq_refl).
  - apply memory_claim_law.
  - apply memory_acknowledge_law.
  - apply memory_start_law.
  - apply memory_release_law.
  - apply memory_complete_law.
Qed.
End Instance_.

(** ** Reachable states are well-formed *)

Section Reachable.
Context `{MapOrder}.
Variable json_unmarshal : string → option Plan.

Lemma recover_jobs_runners limit indices processed r m :
  ms_runners (recover_jobs limit indices processed r m).1 = ms_runners m.
Proof.
  revert processed r m. induction indices as [|i indices IH]; intros processed r m; [done|].
  cbn [recover_jobs]. destruct (ms_jobs m !! i) as [j|]; [|apply IH].
  destruct (_ || _); [apply IH|]. case_bool_decide; rewrite IH; [|done].
  unfold requeue_expired, resetRunAfterRequeue. by destruct (existsb _ _).
Qed.

Lemma renew_leases_runners runner expires active m :
  ms_runners (renew_leases runner expires active m).1 = ms_runners m.
Proof.
  revert m. induction active as [|a active IH]; intros m; [done|]. cbn [renew_leases].
  unfold renew_lease. destruct (leased_job _ _ _ _ _) as [[i j]|].
  - specialize (IH (update_job i (λ j, job_with_renewed (Some (ms_now m))
      (job_with_lease (mj_token j) expires j)) m)). by destruct (renew_leases _ _ _ _).
  - specialize (IH m). by destruct (renew_leases _ _ _ _).
Qed.

(** Only heartbeats change the runners. *)
Lemma exec_keyed o m : runners_keyed m → runners_keyed (exec json_unmarshal o m).
Proof.
  assert (Hsame : ∀ m', ms_runners m' = ms_runners m → runners_keyed m → runners_keyed m').
  { intros m' Heq Hk. unfold runners_keyed. by rewrite Heq. }
  destruct o; simpl; [apply Hsame..| |apply Hsame|apply Hsame|apply Hsame].
  - unfold Create. by repeat case_match.
  - unfold ClaimJob. by repeat case_match.
  - unfold StartJob. by repeat case_match.
  - unfold CompleteJob. repeat case_match; try done. simpl. by rewrite after_completion_runners.
  - unfold ClaimRunnerJob. by repeat case_match.
  - unfold AcknowledgeRunnerJob. by repeat case_match.
  - unfold ReleaseRunnerJob. by repeat case_match.
  - unfold StartRunnerJob. by repeat case_match.
  - intros Hk. unfold RenewRunnerLeases. destruct (negb _); [done|].
    set (m1 := set_runners _ m). pose proof (renew_leases_runners (rd_ID (hb_Runner request))
      (ms_now m1 + RunnerLeaseDuration) (hb_ActiveJobs request) m1) as Hr.
    destruct (renew_leases _ _ _ _) as [m2 rs]. simpl in *. intros id r. rewrite Hr.
    intros [[<- <-]|[_ Hl]]%lookup_insert_Some; [done|by apply Hk].
  - unfold CompleteRunnerJob. repeat case_match; try done. simpl. by rewrite after_completion_runners.
  - unfold RecoverExpiredRunnerLeases. case_match; [done|].
    pose proof (recover_jobs_runners limit (seq 0 (length (ms_jobs m))) 0 (mkRecovery 0 0) m) as Hr.
    by destruct (recover_jobs _ _ _ _ _).
  - done.
Qed.

Lemma reachable_mem_wf m : reachable json_unmarshal m → mem_wf m.
Proof.
  intros Hm. split; [by eapply reachable_inv|].
  induction Hm as [now|o m _ IH Ha]; [intros id r Hl; simpl in Hl; by rewrite lookup_empty in Hl|by apply exec_keyed].
Qed.
End Reachable.
