(* ===== verification/Scenario.v ===== *)
(** A concrete history of the in-memory store, for the examples at which the
    theorems are applied: a run of two stages, "build" with one job and "test"
    with the jobs "unit" and "lint", of which "lint" depends on "unit". *)

From S2P Require Import Prelude GoStd RunModel Pipeline Compiler MemoryStore PlanFacts Scheduler RunSpec MemoryRefine LeaseStore MemoryLease.

#[local] Existing Instance library_order.

Definition demo_job (name : string) (deps : list string) : Job := {|
  jb_Name := name; jb_Image := "alpine:3.21"; jb_DependsOn := deps; jb_Timeout := ""; jb_Retry := 0;
  jb_Environment := ∅; jb_Secrets := []; jb_Services := []; jb_Matrix := ∅;
  jb_Resources := mkResources "" "" 0 "" false;
  jb_RunsOn := mkRequirements "" "" "" None;
  jb_Steps := [mkStep "run" "" ["true"] "" ∅ ""] |}.

Definition demo_pipeline : Pipeline := {|
  pl_Version := "v1"; pl_Name := "demo"; pl_Concurrency := None; pl_Triggers := [];
  pl_Environment := ∅;
  pl_Stages := [mkStage "build" [] [demo_job "compile" []];
                mkStage "test" ["build"] [demo_job "unit" []; demo_job "lint" ["unit"]]] |}.

Lemma demo_valid : Validate demo_pipeline = [].
Proof. vm_compute. reflexivity. Defined.

Definition demo_plan_job (name : string) (deps : list string) : PlanJob := {|
  pj_Name := name; pj_Image := "alpine:3.21"; pj_DependsOn := deps; pj_Timeout := 30 * Minute;
  pj_Retry := 0; pj_Matrix := ∅; pj_Environment := ∅; pj_Services := [];
  pj_Resources := mkResources "" "" 0 "" false;
  pj_RunsOn := mkRequirements "linux" "" "docker" (Some ∅); pj_RequiredDiskBytes := 0;
  pj_Secrets := []; pj_Steps := [mkStep "run" "" ["true"] "" ∅ ""] |}.

Definition demo_stages : list PlanStage :=
  [mkPlanStage "build" [] [demo_plan_job "compile" []];
   mkPlanStage "test" ["build"] [demo_plan_job "unit" []; demo_plan_job "lint" ["unit"]]].

Lemma demo_compiled : rmap compile_stage (pl_Stages demo_pipeline) = Ok demo_stages.
Proof. vm_compute. reflexivity. Defined.

Lemma demo_stages_ok : stages_ok demo_stages.
Proof. eapply (stages_ok_compiled demo_pipeline); [apply Validate_nil, demo_valid|apply demo_compiled]. Qed.

(** Two independent jobs in one stage. *)
Definition pair_pipeline : Pipeline := {|
  pl_Version := "v1"; pl_Name := "pair"; pl_Concurrency := None; pl_Triggers := [];
  pl_Environment := ∅;
  pl_Stages := [mkStage "check" [] [demo_job "left" []; demo_job "right" []]] |}.
Definition pair_stages : list PlanStage :=
  [mkPlanStage "check" [] [demo_plan_job "left" []; demo_plan_job "right" []]].

Lemma pair_valid : Validate pair_pipeline = [].
Proof. vm_compute. reflexivity. Defined.
Lemma pair_compiled : rmap compile_stage (pl_Stages pair_pipeline) = Ok pair_stages.
Proof. vm_compute. reflexivity. Defined.
Lemma pair_stages_ok : stages_ok pair_stages.
Proof. eapply (stages_ok_compiled pair_pipeline); [apply Validate_nil, pair_valid|apply pair_compiled]. Qed.

Definition plan_of (stages : list PlanStage) : Plan := mkPlan "v1" "demo" "" 0 stages.

(** The decoder of the plans in use here. *)
Definition demo_unmarshal (s : string) : option Plan :=
  if s =? "demo" then Some (plan_of demo_stages)
  else if s =? "pair" then Some (plan_of pair_stages) else None.

Lemma demo_unmarshal_ok s plan : demo_unmarshal s = Some plan → stages_ok (pn_Stages plan).
Proof.
  unfold demo_unmarshal. case_bool_decide; [intros [= <-]; apply demo_stages_ok|].
  case_bool_decide; [intros [= <-]; apply pair_stages_ok|done].
Qed.

Definition demo_record (id : uuid) (plan : string) : RunRecord := {|
  rn_ID := id; rn_ProjectID := None; rn_CreatedBy := None; rn_PipelineVersionID := None;
  rn_IdempotencyKey := ""; rn_PipelineName := "demo"; rn_Event := "manual"; rn_Ref := "";
  rn_CommitSHA := ""; rn_Status := StatusQueued; rn_ConfigSHA256 := ""; rn_Plan := plan;
  rn_CreatedAt := 0; rn_StartedAt := None; rn_FinishedAt := None |}.

(** The identifiers of the jobs of a run. *)
Definition demo_ids (base : N) (i : nat) : uuid := (base + N.of_nat i)%N.

Definition demo_runner : RunnerDescriptor := {|
  rd_ID := 7; rd_PoolType := "standard"; rd_OS := "linux"; rd_Architecture := "amd64";
  rd_Executor := "docker"; rd_Labels := ∅; rd_Capacity := 2; rd_AvailableDiskBytes := 0;
  rd_ProtocolVersion := 1 |}.

Lemma demo_ids_NoDup base l : NoDup (l : list nat) → NoDup (demo_ids base <$> l).
Proof. intros. apply NoDup_fmap_2; [|done]. intros i j. unfold demo_ids. lia. Qed.

(** The history of a list of operations. *)
Definition play (ops : list op) (m : MemoryStore) : MemoryStore :=
  foldl (λ m o, exec demo_unmarshal o m) m ops.

Definition demo_start (plan : string) : MemoryStore :=
  play [OCreate (demo_ids 100) (demo_record 1 plan); ORenew (mkHeartbeat demo_runner [])]
    (NewMemoryStore 0).

Lemma demo_start_reachable plan : reachable demo_unmarshal (demo_start plan).
Proof.
  apply (reachable_exec _ (ORenew (mkHeartbeat demo_runner []))); [|exact I].
  apply (reachable_exec _ (OCreate (demo_ids 100) (demo_record 1 plan)) (NewMemoryStore 0)); [constructor|].
  split; [|intros n|done..].
  - intros p. apply demo_unmarshal_ok.
  - apply demo_ids_NoDup, NoDup_seq.
Qed.

Definition simple_op (o : op) : bool :=
  match o with OCreate _ _ => false | OTick d => 0 <=? d | _ => true end.

Lemma play_reachable ops m :
  forallb simple_op ops = true → reachable demo_unmarshal m → reachable demo_unmarshal (play ops m).
Proof.
  unfold play. revert m. induction ops as [|o ops IH]; intros m Hs Hm; [done|].
  cbn [forallb] in Hs. cbn [foldl]. bools. apply IH; [done|].
  apply reachable_exec; [done|]. destruct o; try exact I; [done|]. simpl in *. lia.
Qed.
