(* ===== verification/MemoryProps.v ===== *)
(** The properties of the in-memory store. *)

From stdpp Require Import relations.
From S2P Require Import Prelude GoStd RunModel Pipeline Compiler MemoryStore PlanFacts Scheduler RunSpec MemoryRefine LeaseStore MemoryLease Scenario.

(** ** Recovery: which leases have expired *)

Definition expired (now : time) (j : memoryJob) : bool :=
  job_leased (mj_status j) && negb (leaseAlive now j).

Definition expired_at (m : MemoryStore) (i : nat) : bool :=
  default false (expired (ms_now m) <$> ms_jobs m !! i).

(** Handling the job at [i] closes its lease and no other. *)
Lemma expired_after m m' i :
  ms_now m' = ms_now m → expired_at m' i = false →
  (∀ k, k ≠ i → expired (ms_now m) <$> ms_jobs m' !! k = expired (ms_now m) <$> ms_jobs m !! k) →
  ∀ k, expired_at m' k = if bool_decide (k = i) then false else expired_at m k.
Proof.
  intros Hnow Hi Hk k. case_bool_decide as Hki; [by subst|].
  unfold expired_at. by rewrite Hnow, Hk.
Qed.

Lemma requeue_expired_after m i j k :
  ms_jobs m !! i = Some j →
  expired_at (requeue_expired i j m) k = if bool_decide (k = i) then false else expired_at m k.
Proof.
  intros Hj. apply expired_after.
  - unfold requeue_expired, resetRunAfterRequeue. by destruct (existsb _ _).
  - unfold expired_at, requeue_expired, resetRunAfterRequeue. destruct (existsb _ _); simpl;
      by rewrite list_lookup_alter_eq, Hj.
  - intros l Hl. unfold requeue_expired, resetRunAfterRequeue. destruct (existsb _ _); simpl;
      by rewrite list_lookup_alter_ne.
Qed.

Lemma fail_expired_after m i j k :
  ms_jobs m !! i = Some j →
  expired_at (fail_expired i j m) k = if bool_decide (k = i) then false else expired_at m k.
Proof.
  intros Hj. apply expired_after; [done|..].
  - unfold expired_at. simpl. rewrite lookup_update_all, list_lookup_alter_eq, Hj. simpl.
    by rewrite andb_false_r.
  - intros l Hl. simpl. rewrite lookup_update_all, list_lookup_alter_ne by done.
    destruct (ms_jobs m !! l) as [x|]; [|done]. simpl. f_equal.
    destruct (_ && _) eqn:Hc; [|done]. unfold expired. simpl. bools.
    destruct H0 as [Hx|Hx]; bools; by rewrite Hx.
Qed.

(** What the loop from [m] with [processed] leases handled has done at its end. *)
Record counted (limit processed : Z) (indices : list nat) (r r' : RecoveryResult)
    (m m' : MemoryStore) : Prop := {
  ct_result : rv_Requeued r' + rv_Failed r' = rv_Requeued r + rv_Failed r
    + Z.min (limit - processed) (count (expired_at m) indices);
  ct_now : ms_now m' = ms_now m;
  ct_length : length (ms_jobs m') = length (ms_jobs m);
  ct_left : count (expired_at m') indices = count (expired_at m) indices
    - Z.min (limit - processed) (count (expired_at m) indices);
  ct_other : ∀ k, k ∉ indices → expired_at m' k = expired_at m k;
}.

Lemma counted_skip limit processed i indices r r' m m' :
  i ∉ indices → processed ≤ limit → (expired_at m i = false ∨ processed = limit) →
  counted limit processed indices r r' m m' → counted limit processed (i :: indices) r r' m m'.
Proof.
  intros Hi Hp Hs [H1 H2 H3 H4 H5]. pose proof (count_nonneg (expired_at m) indices).
  assert (0 ≤ (if expired_at m i then 1 else 0) ≤ 1) by (destruct (expired_at m i); lia).
  split; [|done|done|..]; rewrite ?count_cons, ?(H5 i Hi).
  - destruct Hs as [->| ->]; lia.
  - rewrite H4. destruct Hs as [->| ->]; lia.
  - intros k Hk. apply H5. set_solver.
Qed.

Lemma counted_step limit processed i indices r1 r' r m m1 m' :
  i ∉ indices → processed < limit → expired_at m i = true →
  (∀ k, expired_at m1 k = if bool_decide (k = i) then false else expired_at m k) →
  ms_now m1 = ms_now m → length (ms_jobs m1) = length (ms_jobs m) →
  rv_Requeued r1 + rv_Failed r1 = rv_Requeued r + rv_Failed r + 1 →
  counted limit (processed + 1) indices r1 r' m1 m' →
  counted limit processed (i :: indices) r r' m m'.
Proof.
  intros Hi Hp He Hm1 Hnow Hlen Hr [H1 H2 H3 H4 H5]. rewrite Hnow in H2. rewrite Hlen in H3.
  assert (Hcount : count (expired_at m1) indices = count (expired_at m) indices).
  { apply count_ext. intros k Hk. rewrite Hm1, bool_decide_eq_false_2 by (intros ->; done). done. }
  rewrite Hcount in *. pose proof (count_nonneg (expired_at m) indices).
  split; [|done|done|..]; rewrite ?count_cons, ?He.
  - lia.
  - rewrite (H5 i Hi), Hm1, bool_decide_eq_true_2, H4 by done. lia.
  - intros k Hk. rewrite H5 by set_solver. rewrite Hm1, bool_decide_eq_false_2 by set_solver. done.
Qed.

(** Every turn of the loop handles one expired lease until the limit is reached. *)
Lemma recover_jobs_counts limit indices processed r m :
  NoDup indices → processed ≤ limit →
  let '(m', r') := recover_jobs limit indices processed r m in
  counted limit processed indices r r' m m'.
Proof.
  intros Hnd. revert processed r m. induction Hnd as [|i indices Hi Hnd IH]; intros processed r m Hp.
  { simpl. split; unfold count; simpl; try done; lia. }
  cbn [recover_jobs]. destruct (ms_jobs m !! i) as [j|] eqn:Hj.
  2:{ specialize (IH processed r m Hp). destruct (recover_jobs _ _ _ _ _) as [m' r'].
      apply counted_skip; [done..| |done]. left. unfold expired_at. by rewrite Hj. }
  assert (He : expired_at m i = expired (ms_now m) j) by (unfold expired_at; by rewrite Hj).
  destruct (_ || leaseAlive (ms_now m) j) eqn:Hskip.
  { specialize (IH processed r m Hp). destruct (recover_jobs _ _ _ _ _) as [m' r'].
    apply counted_skip; [done..| |done]. rewrite He. unfold expired.
    destruct (Z.leb_spec limit processed); [right; lia|left]. simpl in Hskip.
    by destruct (job_leased _), (leaseAlive _ _). }
  bools. assert (Hx : expired_at m i = true) by by rewrite He; unfold expired; rewrite H1, H0.
  apply Z.leb_gt in H. case_bool_decide as Ha.
  - specialize (IH (processed + 1) (mkRecovery (rv_Requeued r + 1) (rv_Failed r))
      (requeue_expired i j m) ltac:(lia)).
    destruct (recover_jobs _ _ _ _ _) as [m' r'].
    eapply counted_step; [done..| | | | |exact IH].
    + intros k. by apply requeue_expired_after.
    + unfold requeue_expired, resetRunAfterRequeue. by destruct (existsb _ _).
    + unfold requeue_expired, resetRunAfterRequeue. destruct (existsb _ _); apply length_alter.
    + simpl. lia.
  - specialize (IH (processed + 1) (mkRecovery (rv_Requeued r) (rv_Failed r + 1))
      (fail_expired i j m) ltac:(lia)).
    destruct (recover_jobs _ _ _ _ _) as [m' r'].
    eapply counted_step; [done..| | | | |exact IH].
    + intros k. by apply fail_expired_after.
    + done.
    + simpl. by rewrite length_update_all, length_alter.
    + simpl. lia.
Qed.

Definition expired_jobs (m : MemoryStore) : Z := count (expired (ms_now m)) (ms_jobs m).

Lemma expired_jobs_indices m : count (expired_at m) (seq 0 (length (ms_jobs m))) = expired_jobs m.
Proof. apply count_indices. Qed.

(** ** Theorems *)

Section Theorems.
Context `{MapOrder}.
Variable json_unmarshal : string → option Plan.

(** C2: every operation of the in-memory store, on every reachable state, is a
    sequence of steps of the abstract job scheduler: it submits, assigns, starts,
    requeues, completes or cancels jobs, and does nothing else to them. *)
Theorem store_refines_scheduler o m :
  reachable json_unmarshal m → admissible json_unmarshal o m →
  rtc sstep (views m) (views (exec json_unmarshal o m)).
Proof.
  intros Hm Ho. by apply (exec_refines json_unmarshal o m Ho), (reachable_inv json_unmarshal).
Qed.

(** In every reachable state a job that is queued, leased or finished by a
    runner has only dependencies that succeeded, each by exactly one job of the
    same run. *)
Theorem released_after_dependencies m j d :
  reachable json_unmarshal m → j ∈ ms_jobs m → released (mj_status j) = true →
  d ∈ mj_dependencies j →
  ∃ k, k ∈ ms_jobs m ∧ mj_run k = mj_run j ∧ mj_key k = d ∧ mj_status k = JobSucceeded.
Proof.
  intros Hm Hj Hr Hd. pose proof (si_jobs _ _ (reachable_inv _ _ Hm)) as Hinv.
  pose proof (inv_released _ Hinv (view j) (list_elem_of_fmap_2 _ _ _ Hj) Hr) as Hready.
  rewrite ready_spec in Hready. specialize (Hready d Hd). apply succeeded_spec in Hready.
  destruct Hready as (? & (k & -> & Hk)%list_elem_of_fmap & ?). by exists k.
Qed.

(** A blocked job is never stuck: some job of its run is still queued or held
    by a runner. *)
Theorem blocked_job_not_stuck m j :
  reachable json_unmarshal m → j ∈ ms_jobs m → mj_status j = JobBlocked →
  ∃ k, k ∈ ms_jobs m ∧ mj_run k = mj_run j ∧
    (mj_status k = JobQueued ∨ mj_status k = JobAssigned ∨ mj_status k = JobRunning).
Proof.
  intros Hm Hj Hb. pose proof (si_jobs _ _ (reachable_inv _ _ Hm)) as Hinv.
  destruct (sinv_no_deadlock _ (view j) Hinv (list_elem_of_fmap_2 _ _ _ Hj) Hb)
    as (? & (k & -> & Hk)%list_elem_of_fmap & ?). by exists k.
Qed.

(** A run recorded as succeeded has only succeeded jobs; a run whose jobs are
    all closed is recorded as terminal with a finish time; a queued run has no
    start time and a running one has. *)
Theorem run_record_agrees m r :
  reachable json_unmarshal m → r ∈ ms_records m →
  (rn_Status r = StatusSucceeded →
     ∀ j, j ∈ ms_jobs m → mj_run j = rn_ID r → mj_status j = JobSucceeded) ∧
  ((∀ j, j ∈ ms_jobs m → mj_run j = rn_ID r → job_open (mj_status j) = false) →
     Terminal (rn_Status r) = true ∧ rn_FinishedAt r ≠ None) ∧
  (rn_Status r = StatusQueued → rn_StartedAt r = None ∧ rn_FinishedAt r = None) ∧
  (rn_Status r = StatusRunning → rn_StartedAt r ≠ None).
Proof.
  intros Hm Hr. destruct (si_runs _ _ (reachable_inv _ _ Hm) r Hr) as [Hs Hc Hq Hrun Ht _ _].
  assert (Hin : ∀ st, st ∈ run_statuses (rn_ID r) (views m) ↔
    ∃ j, j ∈ ms_jobs m ∧ mj_run j = rn_ID r ∧ mj_status j = st).
  { intros st. rewrite elem_of_run_statuses. setoid_rewrite list_elem_of_fmap. naive_solver. }
  split; [|split; [|done]].
  - intros Hst j Hj Hjr. apply (Hs Hst), Hin. eauto.
  - intros Hcl. assert (Hterm : Terminal (rn_Status r) = true); [|auto].
    apply Hc, existsb_false. intros st (j & Hj & Hjr & <-)%Hin. by apply Hcl.
Qed.

(** A job claimed by a runner goes through receipt, start and completion with
    the lease of the claim; starting before the receipt and releasing after it are
    refused; after completion every use of the lease is refused and changes
    nothing. *)
Theorem memory_lease_session token r m m1 a outcome :
  reachable json_unmarshal m → token ≠ "" → ClaimRunnerJob token r m = (m1, Ok (Some a)) →
  as_JobID a ≠ uuid_Nil → job_outcome outcome = true →
  let q := lease_of r a in
  StartRunnerJob q m1 = (m1, Err ErrLeaseInvalid) ∧
  ∃ m2 l2, AcknowledgeRunnerJob q m1 = (m2, Ok l2) ∧
    ReleaseRunnerJob q m2 = (m2, Err ErrLeaseInvalid) ∧
  ∃ m3 l3, StartRunnerJob q m2 = (m3, Ok l3) ∧ ReleaseRunnerJob q m3 = (m3, Err ErrLeaseInvalid) ∧
  ∃ m4, CompleteRunnerJob (completion_of q outcome) m3 = (m4, Ok tt) ∧
    AcknowledgeRunnerJob q m4 = (m4, Err ErrLeaseInvalid) ∧
    StartRunnerJob q m4 = (m4, Err ErrLeaseInvalid) ∧
    ReleaseRunnerJob q m4 = (m4, Err ErrLeaseInvalid) ∧
    CompleteRunnerJob (completion_of q outcome) m4 = (m4, Err ErrLeaseInvalid).
Proof.
  intros Hm%reachable_mem_wf.
  exact (lease_session (St := MemoryStore) (wf := mem_wf) token r m m1 a outcome Hm).
Qed.

(** While a runner holds a live lease, no sequence of claims and of operations
    on other jobs takes the lease away or changes the state of the job. *)
Theorem memory_lease_isolation q v commands m m' :
  reachable json_unmarshal m → mem_view m q = Some v → interleaving (St := MemoryStore) (lr_JobID q) commands m m' →
  mem_view m' q = Some v.
Proof.
  intros Hwf%reachable_mem_wf Hv Hi. by eapply (lease_isolation (St := MemoryStore) (wf := mem_wf)) in Hi as [_ ?].
Qed.

(** A claim of a runner with free capacity hands out the first queued job that
    the runner matches, with a lease of thirty seconds, marks its run as running
    and stays within the capacity; without such a job, or at capacity, it returns
    no job and changes nothing. *)
Theorem ClaimRunnerJob_first_match token r d m :
  reachable json_unmarshal m → r ≠ uuid_Nil → ms_runners m !! r = Some d →
  let wanted j := (mj_status j =? JobQueued) && runnerMatches (as_Spec (mj_assignment j)) d in
  let active m := active_leases (ms_now m) r (ms_jobs m) in
  (∃ i j m', ms_jobs m !! i = Some j ∧ wanted j = true ∧
     (∀ k j', (k < i)%nat → ms_jobs m !! k = Some j' → wanted j' = false) ∧
     ClaimRunnerJob token r m
       = (m', Ok (Some (with_lease token (ms_now m + RunnerLeaseDuration) (mj_assignment j)))) ∧
     (∀ rec, rec ∈ ms_records m' → rn_ID rec = mj_run j → rn_Status rec = StatusRunning) ∧
     active m' = active m + 1 ∧ active m' ≤ rd_Capacity d)
  ∨ (ClaimRunnerJob token r m = (m, Ok None) ∧
     (rd_Capacity d ≤ active m ∨ ∀ j, j ∈ ms_jobs m → wanted j = false)).
Proof.
  intros Hwf%reachable_mem_wf Hr Hd wanted active. assert (Hid : rd_ID d = r) by by apply Hwf.
  unfold ClaimRunnerJob. rewrite bool_decide_eq_false_2, Hd, Hid by done. fold (active m).
  destruct (Z.leb_spec (rd_Capacity d) (active m)) as [Hcap|Hcap]; [by right; auto|].
  fold wanted. destruct (find_index wanted (ms_jobs m)) as [i|] eqn:Hi.
  2:{ right. split; [done|]. right. by apply find_index_None. }
  apply find_index_Some in Hi as (j & Hj & Hw & Hmin). rewrite Hj. left.
  eexists i, j, _. split; [done|]. split; [done|]. split; [done|]. split; [done|].
  set (job' := job_with_lease _ _ _). split.
  - intros rec. rewrite setRunStatus_touch by
      (rewrite setRunStarted_touch, touch_ids by (try apply Hwf; intros; unfold g_started; by case_bool_decide);
       apply Hwf).
    intros (rec0 & -> & Hrec0)%list_elem_of_fmap. case_bool_decide as Hrun; [done|]. by intros ?%Hrun.
  - assert (Hact : active (update_job i (λ _, job') m) = active m + 1).
    { unfold active, active_leases. simpl. rewrite !count_filter, (count_alter _ _ i j) by done.
      unfold wanted in Hw. bools. rewrite H0. unfold job', leaseAlive, RunnerLeaseDuration. simpl.
      rewrite andb_false_r, (bool_decide_eq_true_2 (r = r)) by done. simpl.
      assert (Hlt : (ms_now m <? ms_now m + 30 * Second) = true).
      { apply Z.ltb_lt. assert (30 * Second = 30000000000) as -> by reflexivity. lia. }
      unfold mj_expires. simpl. rewrite Hlt. simpl. lia. }
    change (active (setRunStatus _ _ (setRunStarted _ ?x))) with (active x).
    rewrite Hact. lia.
Qed.

(** A recovery pass handles exactly the expired leases up to its limit: the
    numbers it reports add up to the smaller of the limit and the number of
    expired leases, and that many fewer expired leases are left. *)
Theorem recovery_is_exact limit m :
  1 ≤ limit ≤ MaximumRecoveryBatch →
  ∃ m' r, RecoverExpiredRunnerLeases limit m = (m', Ok r) ∧
    rv_Requeued r + rv_Failed r = Z.min limit (expired_jobs m) ∧
    expired_jobs m' = expired_jobs m - Z.min limit (expired_jobs m) ∧
    length (ms_jobs m') = length (ms_jobs m).
Proof.
  intros Hl. unfold RecoverExpiredRunnerLeases.
  assert ((limit <? 1) || (MaximumRecoveryBatch <? limit) = false) as ->.
  { apply orb_false_iff. rewrite !Z.ltb_ge. lia. }
  pose proof (recover_jobs_counts limit (seq 0 (length (ms_jobs m))) 0 (mkRecovery 0 0) m
    (NoDup_seq _ _) ltac:(lia)) as Hc.
  destruct (recover_jobs _ _ _ _ _) as [m' r]. destruct Hc as [H1 H2 H3 H4 _].
  eexists _, _. split; [done|]. rewrite <-H3 in H4 at 1. rewrite !expired_jobs_indices in *.
  simpl in H1. rewrite Z.sub_0_r in *. done.
Qed.
End Theorems.

(** ** Examples *)

Section Examples.
#[local] Existing Instance library_order.

Definition token_of (id : uuid) (token : string) : LeaseRequest := mkLease 7 id token.

(** The run "demo" after its first job was claimed, acknowledged, started and completed. *)
Definition demo_progress : MemoryStore :=
  play [OClaimRunnerJob "t" 7; OAcknowledge (token_of 100 "t"); OStart (token_of 100 "t");
        OComplete (mkCompletion 7 100 "t" JobSucceeded)] (demo_start "demo").

Lemma demo_progress_reachable : reachable demo_unmarshal demo_progress.
Proof. apply play_reachable; [reflexivity|apply demo_start_reachable]. Qed.

Lemma store_refines_scheduler_witness :
  rtc sstep (views demo_progress) (views (exec demo_unmarshal (OClaimRunnerJob "u" 7) demo_progress)).
Proof. apply (store_refines_scheduler demo_unmarshal); [apply demo_progress_reachable|exact I]. Defined.

Definition nth_job (i : nat) (m : MemoryStore) : memoryJob :=
  default (new_job 0 0 ∅ (mkPlanStage "" [] []) (demo_plan_job "" [])) (ms_jobs m !! i).

Lemma released_after_dependencies_witness :
  let j := nth_job 1 demo_progress in
  mj_status j = JobQueued ∧
  ∃ k, k ∈ ms_jobs demo_progress ∧ mj_run k = mj_run j ∧ mj_key k = "build/compile" ∧
    mj_status k = JobSucceeded.
Proof.
  split; [vm_compute; reflexivity|].
  apply (released_after_dependencies demo_unmarshal demo_progress (nth_job 1 demo_progress));
    [apply demo_progress_reachable| |vm_compute; reflexivity|vm_compute; constructor].
  apply (list_elem_of_lookup_2 _ 1). vm_compute. reflexivity.
Defined.

Lemma blocked_job_not_stuck_witness :
  let j := nth_job 2 demo_progress in
  mj_status j = JobBlocked ∧
  ∃ k, k ∈ ms_jobs demo_progress ∧ mj_run k = mj_run j ∧
    (mj_status k = JobQueued ∨ mj_status k = JobAssigned ∨ mj_status k = JobRunning).
Proof.
  split; [vm_compute; reflexivity|].
  apply (blocked_job_not_stuck demo_unmarshal demo_progress (nth_job 2 demo_progress));
    [apply demo_progress_reachable| |vm_compute; reflexivity].
  apply (list_elem_of_lookup_2 _ 2). vm_compute. reflexivity.
Defined.

Definition nth_record (i : nat) (m : MemoryStore) : RunRecord :=
  default (demo_record 0 "") (ms_records m !! i).

(** The run "pair" after both jobs succeeded. *)
Definition pair_done : MemoryStore :=
  play [OClaimRunnerJob "t" 7; OClaimRunnerJob "u" 7;
        OAcknowledge (token_of 100 "t"); OStart (token_of 100 "t");
        OAcknowledge (token_of 101 "u"); OStart (token_of 101 "u");
        OComplete (mkCompletion 7 100 "t" JobSucceeded);
        OComplete (mkCompletion 7 101 "u" JobSucceeded)] (demo_start "pair").

Lemma run_record_agrees_witness :
  let r := nth_record 0 pair_done in
  rn_Status r = StatusSucceeded ∧
  (rn_Status r = StatusSucceeded →
     ∀ j, j ∈ ms_jobs pair_done → mj_run j = rn_ID r → mj_status j = JobSucceeded).
Proof.
  split; [vm_compute; reflexivity|].
  apply (run_record_agrees demo_unmarshal pair_done (nth_record 0 pair_done)).
  - apply play_reachable; [reflexivity|apply demo_start_reachable].
  - apply (list_elem_of_lookup_2 _ 0). vm_compute. reflexivity.
Defined.

Lemma memory_lease_session_witness :
  let '(m1, res) := ClaimRunnerJob "t" 7 (demo_start "demo") in
  match res with
  | Ok (Some a) =>
    StartRunnerJob (lease_of 7 a) m1 = (m1, Err ErrLeaseInvalid) ∧
    ∃ m2 l2, AcknowledgeRunnerJob (lease_of 7 a) m1 = (m2, Ok l2)
  | _ => False
  end.
Proof.
  destruct (ClaimRunnerJob "t" 7 (demo_start "demo")) as [m1 res] eqn:Hc.
  assert (Hr : (ClaimRunnerJob "t" 7 (demo_start "demo")).2 = res) by by rewrite Hc.
  vm_compute in Hr. destruct res as [[a|]|]; try discriminate Hr.
  assert (Hid : as_JobID a ≠ uuid_Nil) by (injection Hr as <-; discriminate).
  destruct (memory_lease_session demo_unmarshal "t" 7 (demo_start "demo") m1 a JobSucceeded
    (demo_start_reachable _)
    ltac:(discriminate) Hc Hid eq_refl) as (Hs & m2 & l2 & Ha & _).
  split; [exact Hs|]. exists m2, l2. exact Ha.
Defined.

Lemma memory_lease_isolation_witness :
  let m := play [OClaimRunnerJob "t" 7] (demo_start "pair") in
  let m' := (ClaimRunnerJob "u" 7 m).1 in
  mem_view m (token_of 100 "t") = Some (JobAssigned, false) ∧
  mem_view m' (token_of 100 "t") = Some (JobAssigned, false).
Proof.
  cbv zeta. set (m := play [OClaimRunnerJob "t" 7] (demo_start "pair")).
  assert (Hv : mem_view m (token_of 100 "t") = Some (JobAssigned, false)) by (vm_compute; reflexivity).
  split; [exact Hv|].
  apply (memory_lease_isolation demo_unmarshal (token_of 100 "t") _ [CClaim "u" 7] m); [|exact Hv|].
  - apply play_reachable; [reflexivity|apply demo_start_reachable].
  - apply il_cons; [|apply il_nil]. split; [discriminate|]. intros s a Hc Hid.
    assert (Hr : (ClaimRunnerJob "u" 7 m).2 = Ok (Some a)) by (change (claim "u" 7 m) with (ClaimRunnerJob "u" 7 m) in Hc; by rewrite Hc).
    vm_compute in Hr. injection Hr as <-. discriminate.
Defined.

Lemma ClaimRunnerJob_first_match_witness :
  let m := demo_start "demo" in
  ∃ m', ClaimRunnerJob "t" 7 m = (m', Ok (Some (with_lease "t" (ms_now m + RunnerLeaseDuration)
    (mj_assignment (nth_job 0 m))))).
Proof.
  cbv zeta. destruct (ClaimRunnerJob_first_match demo_unmarshal "t" 7 demo_runner (demo_start "demo")
    (demo_start_reachable _)
    ltac:(discriminate) ltac:(vm_compute; reflexivity)) as [(i & j & m' & Hj & Hw & Hmin & Hc & _)|[Hc _]].
  - destruct i as [|i].
    + exists m'. rewrite Hc. unfold nth_job. by rewrite Hj.
    + exfalso. assert (H0 : ms_jobs (demo_start "demo") !! 0%nat = Some (nth_job 0 (demo_start "demo")))
        by (vm_compute; reflexivity).
      specialize (Hmin 0%nat _ ltac:(lia) H0). vm_compute in Hmin. discriminate.
  - exfalso. apply (f_equal snd) in Hc. vm_compute in Hc. discriminate.
Defined.

(** One started and one assigned job of the run "pair" whose leases have expired. *)
Definition pair_expired : MemoryStore :=
  play [OClaimRunnerJob "t" 7; OClaimRunnerJob "u" 7;
        OAcknowledge (token_of 100 "t"); OStart (token_of 100 "t"); OTick (31 * Second)]
    (demo_start "pair").

Lemma recovery_is_exact_witness :
  ∃ m' r, RecoverExpiredRunnerLeases 1 pair_expired = (m', Ok r) ∧
    rv_Requeued r + rv_Failed r = 1 ∧ expired_jobs m' = 1.
Proof.
  destruct (recovery_is_exact 1 pair_expired) as (m' & r & Hr & Hsum & Hleft & _).
  { unfold MaximumRecoveryBatch. lia. }
  exists m', r. split; [exact Hr|]. assert (He : expired_jobs pair_expired = 2) by (vm_compute; reflexivity).
  rewrite He in *. split; [exact Hsum|exact Hleft].
Defined.

(** Recovery fails the run of an expired running job but leaves the leased
    sibling jobs; when the lease of such a sibling expires later, the sibling is
    queued again, and claiming it turns the failed run back into a running one,
    which the transition table of runs forbids. *)
Theorem recovery_reopens_failed_run :
  ∃ m, reachable demo_unmarshal m ∧
    (rn_Status <$> ms_records m) = [StatusFailed] ∧
    (mj_status <$> ms_jobs m) = [JobFailed; JobQueued] ∧
    (rn_Status <$> ms_records (ClaimRunnerJob "w" 7 m).1) = [StatusRunning] ∧
    ValidateTransition StatusFailed StatusRunning = false.
Proof.
  exists (play [OClaimRunnerJob "t" 7; OClaimRunnerJob "u" 7;
    OAcknowledge (token_of 100 "t"); OStart (token_of 100 "t"); OTick (20 * Second);
    ORenew (mkHeartbeat demo_runner [mkActive 101 "u" "received"]); OTick (11 * Second); ORecover 10;
    OTick (20 * Second); ORecover 10] (demo_start "pair")).
  split; [apply play_reachable; [reflexivity|apply demo_start_reachable]|].
  by repeat split; vm_compute.
Qed.
End Examples.
