(* ===== verification/CompilerProps.v ===== *)
(** The properties of the pipeline compiler. *)

From stdpp Require Import relations.
From S2P Require Import Prelude GoStd Regex Pipeline Graph Compiler RunModel MemoryStore Scheduler PlanFacts Scenario.

(** ** Decimal text and units *)

Definition is_digit_byte (c : ascii) : bool := bool_decide (is_Some (digit c)).

Lemma format_digits_all fuel n acc :
  0 ≤ n → Forall (λ c, is_digit_byte c = true) acc →
  Forall (λ c, is_digit_byte c = true) (format_digits fuel n acc).
Proof.
  revert n acc. induction fuel as [|fuel IH]; intros n acc Hn Hacc; [done|]. cbn [format_digits].
  assert (Hc : Forall (λ c, is_digit_byte c = true) (digit_char (n mod 10) :: acc)).
  { constructor; [|done]. unfold is_digit_byte. pose proof (Z.mod_pos_bound n 10 ltac:(lia)).
    rewrite digit_digit_char by lia. by apply bool_decide_eq_true_2. }
  destruct (n <? 10); [done|]. apply IH; [|done]. apply Z.div_pos; lia.
Qed.

Lemma FormatInt_digits v :
  0 ≤ v ≤ max_int64 → chars (FormatInt v) ≠ [] ∧ Forall (λ c, is_digit_byte c = true) (chars (FormatInt v)).
Proof.
  intros Hv. pose proof (ParseInt_FormatInt_nonneg v Hv) as Hp. split.
  - unfold ParseInt in Hp. by destruct (chars (FormatInt v)).
  - unfold FormatInt. destruct (Z.ltb_spec v 0); [lia|]. rewrite chars_of_chars.
    apply format_digits_all; [lia|constructor].
Qed.

(** A byte that can neither start nor end a white-space code point, and that
    [ToUpper] keeps. *)
Definition plain (c : ascii) : bool :=
  let n := nat_of_ascii c in (33 <=? n)%nat && (n <=? 96)%nat.

Lemma digit_plain c : is_digit_byte c = true → plain c = true.
Proof.
  unfold is_digit_byte, digit, plain. intros Hd. bools. destruct Hd as [d Hd].
  destruct (_ && _) eqn:Hc in Hd; [|done]. bools. apply andb_true_iff.
  rewrite !Nat.leb_le. lia.
Qed.

Definition all_plain (l : bytes) : Prop := Forall (λ c, plain c = true) l.

Lemma white_space_not_plain w c l : w ∈ white_space → w = c :: l → plain c = false.
Proof.
  intros Hw ->. unfold white_space in Hw. simpl in Hw.
  repeat (apply elem_of_cons in Hw as [Hw|Hw]; [injection Hw as -> _; reflexivity|]).
  by apply not_elem_of_nil in Hw.
Qed.

Lemma white_space_last_not_plain w c l : w ∈ reverse <$> white_space → w = c :: l → plain c = false.
Proof.
  intros Hw ->. vm_compute in Hw.
  repeat (apply elem_of_cons in Hw as [Hw|Hw]; [injection Hw as -> _; reflexivity|]).
  by apply not_elem_of_nil in Hw.
Qed.

Lemma trim_left_plain spaces fuel l :
  (∀ w, w ∈ spaces → w ≠ []) → (∀ w c l, w ∈ spaces → w = c :: l → plain c = false) →
  all_plain l → trim_left spaces fuel l = l.
Proof.
  intros Hne Hs Hl. destruct fuel as [|fuel]; [done|]. cbn [trim_left].
  assert (filter (λ w, has_prefix w l = true) spaces = []) as ->; [|done].
  destruct (filter _ spaces) as [|w ws] eqn:Hf; [done|]. exfalso.
  assert (Hw : w ∈ filter (λ w, has_prefix w l = true) spaces) by (rewrite Hf; left).
  apply list_elem_of_filter in Hw as [Hp Hw]. apply has_prefix_spec in Hp as [k ->].
  destruct w as [|c w]; [by destruct (Hne [])|].
  apply Forall_app in Hl as [Hl _]. apply Forall_cons in Hl as [Hc _].
  by rewrite (Hs (c :: w) c w) in Hc.
Qed.

Lemma TrimSpace_plain s : all_plain (chars s) → TrimSpace s = s.
Proof.
  intros Hs. unfold TrimSpace. rewrite (trim_left_plain white_space).
  - rewrite (trim_left_plain (reverse <$> white_space)).
    + by rewrite reverse_involutive, of_chars_chars.
    + intros w Hw ->. vm_compute in Hw.
      repeat (apply elem_of_cons in Hw as [Hw|Hw]; [discriminate|]). by apply not_elem_of_nil in Hw.
    + apply white_space_last_not_plain.
    + by apply Forall_reverse.
  - intros w Hw ->. unfold white_space in Hw. simpl in Hw.
    repeat (apply elem_of_cons in Hw as [Hw|Hw]; [discriminate|]). by apply not_elem_of_nil in Hw.
  - apply white_space_not_plain.
  - done.
Qed.

Lemma to_upper_plain l : all_plain l → to_upper l = l.
Proof.
  induction 1 as [|c l Hc Hl IH]; [done|]. unfold plain in Hc. bools. rewrite Nat.leb_le in *.
  assert (Hu : upper_byte c = c).
  { unfold upper_byte. by rewrite (proj2 (Nat.leb_gt 97 _)) by lia. }
  cbn [to_upper]. destruct l as [|d l]; [by rewrite Hu|].
  rewrite !(proj2 (Nat.eqb_neq (nat_of_ascii c) _)) by lia. simpl andb. rewrite Hu, IH. done.
Qed.

Lemma ToUpper_plain s : all_plain (chars s) → ToUpper s = s.
Proof. intros Hs. unfold ToUpper. by rewrite to_upper_plain, of_chars_chars. Qed.

Lemma HasSuffix_app s p t : 
  HasSuffix (s +:+ p) t = has_prefix (reverse (chars t)) (reverse (chars p) ++ reverse (chars s)).
Proof. unfold HasSuffix. by rewrite chars_app, reverse_app. Qed.

Lemma has_prefix_refl_app p l : has_prefix p (p ++ l) = true.
Proof. apply has_prefix_spec. by eexists. Qed.

Lemma TrimSuffix_app s p : TrimSuffix (s +:+ p) p = s.
Proof.
  unfold TrimSuffix. rewrite HasSuffix_app, has_prefix_refl_app, chars_app.
  rewrite length_app, Nat.add_sub, take_app_length. apply of_chars_chars.
Qed.

Lemma FormatInt_plain v : 0 ≤ v ≤ max_int64 → all_plain (chars (FormatInt v)).
Proof. intros [_ Hd]%FormatInt_digits. eapply Forall_impl; [exact Hd|]. apply digit_plain. Qed.

(** The loop over the units stops at the unit of the text. *)
Lemma parse_with_units_of u m v :
  (u, m) ∈ units → 0 ≤ v ≤ max_int64 →
  parse_with_units units (FormatInt v +:+ u)
  = if (v <? 0) || (2 ^ 50 / m <? v) then Err "must be a non-negative size no larger than 1 PiB"
    else Ok (wrap64 (v * m)).
Proof.
  intros Hu Hv. unfold units in Hu.
  repeat (apply elem_of_cons in Hu as [Hu|Hu];
    [injection Hu as -> ->; cbn [units parse_with_units]; rewrite !HasSuffix_app;
     rewrite TrimSuffix_app, (TrimSpace_plain _ (FormatInt_plain v Hv)),
       (ParseInt_FormatInt_nonneg v Hv);
     lazy -[FormatInt Z.div Z.ltb Z.pow orb wrap64 String.append TrimSuffix TrimSpace ParseInt];
     reflexivity|]).
  by apply not_elem_of_nil in Hu.
Qed.

Lemma last_digit_no_unit v u m :
  (u, m) ∈ units → 0 ≤ v ≤ max_int64 → HasSuffix (FormatInt v) u = false.
Proof.
  intros Hu Hv. destruct (FormatInt_digits v Hv) as [Hne Hd]. unfold HasSuffix.
  apply Forall_reverse in Hd. destruct (reverse (chars (FormatInt v))) as [|c l] eqn:Hr.
  { apply (f_equal reverse) in Hr. by rewrite reverse_involutive in Hr. }
  apply Forall_cons in Hd as [Hc _].
  assert (Hb : c ≠ "B"%char) by by intros ->.
  unfold units in Hu. repeat (apply elem_of_cons in Hu as [Hu|Hu];
    [injection Hu as -> ->; simpl; by rewrite bool_decide_eq_false_2|]).
  by apply not_elem_of_nil in Hu.
Qed.

Lemma units_multiplier u m : (u, m) ∈ units → 0 < m ≤ 2 ^ 40.
Proof. intros Hu. pose proof units_bounds as Hb. rewrite Forall_forall in Hb. by apply (Hb (u, m)). Qed.

(** What [Compile] guarantees for one job of a plan. *)
Record plan_job_ok (job : Job) (pj : PlanJob) : Prop := {
  po_name : pj_Name pj = jb_Name job;
  po_deps : pj_DependsOn pj = jb_DependsOn job;
  po_steps : pj_Steps pj = jb_Steps job;
  po_timeout : Second ≤ pj_Timeout pj ≤ 24 * Hour;
  po_disk : 0 ≤ pj_RequiredDiskBytes pj ≤ 2 ^ 50;
  po_os : rr_OS (pj_RunsOn pj) ≠ "";
  po_executor : rr_Executor (pj_RunsOn pj) ≠ "";
}.

Lemma compile_job_ok stage job pj : compile_job stage job = Ok pj → plan_job_ok job pj.
Proof.
  unfold compile_job. destruct (parseTimeout _) as [t|] eqn:Ht; [|done].
  destruct (parseByteSize _) as [d|] eqn:Hd; [|done]. intros [= <-].
  apply parseTimeout_ok in Ht. apply parseByteSize_ok in Hd.
  split; simpl; try done; by case_bool_decide.
Qed.

(** A service alias without regard to case. *)
Lemma validate_services_nil `{MapOrder} i names services :
  validate_services i names services = [] →
  NoDup (ToLower ∘ sv_Name <$> services) ∧
  (∀ s, s ∈ services → (ToLower (sv_Name s) ∉ names) ∧ re_match namePattern (sv_Name s) = true ∧
     sv_Image s ≠ "" ∧ HasPrefix (sv_Image s) "-" = false).
Proof.
  revert i names. induction services as [|s services IH]; intros i names.
  { intros _. split; [constructor|]. by intros s ?%not_elem_of_nil. }
  cbn [validate_services]. rewrite !app_nil_iff. intros (Ha & Hb & _ & _ & Hl).
  apply when_nil in Ha; [|done]. apply when_nil in Hb; [|done]. bools.
  destruct (IH _ _ Hl) as [Hnd Hall]. split.
  - constructor; [|done]. intros (s' & Heq & Hs')%list_elem_of_fmap.
    apply Hall in Hs' as [Hs' _]. simpl in Heq. set_solver.
  - intros s' [->|Hs']%elem_of_cons; [done|]. apply Hall in Hs' as (Hs' & ?). set_solver.
Qed.

(** ** Theorems *)

Section Theorems.
Context `{MapOrder}.

(** The depth-first search for dependency cycles terminates on every graph
    and every iteration order, and reports a cycle exactly when some node reaches
    itself along dependencies; otherwise every chain of dependencies is finite. *)
Theorem hasCycle_correct (g : graph) :
  (∃ b state, search g = Some (b, state)) ∧
  (hasCycle g = true ↔ ∃ n, tc (edge g) n n) ∧
  (hasCycle g = false ↔ ∀ n, Acc (flip (edge g)) n).
Proof.
  split; [apply search_total|]. split; [|apply hasCycle_false_iff].
  split; [apply hasCycle_true|]. intros [n Hn]. destruct (hasCycle g) eqn:Hc; [done|].
  destruct (settled_not_cyclic g n (hasCycle_false g Hc n) Hn).
Qed.

(** A pipeline that validation accepts has version v1, well-formed and unique
    stage names, at least one stage, in every stage at least one job with
    well-formed and unique names, only dependencies that exist in the same scope,
    no dependency cycle among stages or jobs, and only supported events. *)
Theorem Validate_sound value : Validate value = [] → pipeline_valid value.
Proof. apply Validate_nil. Qed.

(** Compiling an accepted pipeline cannot fail: it returns a plan whose stages
    and jobs mirror the pipeline, with every timeout between one second and one
    day, every disk requirement between zero and one pebibyte and a default
    operating system and executor filled in. *)
Theorem Compile_complete yaml_decode json_marshal sha256_hex source now value canonical :
  yaml_decode source = Some value → Validate value = [] → json_marshal value = Some canonical →
  ∃ plan, Compile yaml_decode json_marshal sha256_hex source now = Ok plan ∧
    pn_ConfigSHA256 plan = sha256_hex canonical ∧
    Forall2 (λ s ps, ps_Name ps = sg_Name s ∧ ps_DependsOn ps = sg_DependsOn s ∧
      Forall2 plan_job_ok (sg_Jobs s) (ps_Jobs ps)) (pl_Stages value) (pn_Stages plan).
Proof.
  intros Hy Hv Hj. unfold Compile, Parse. rewrite Hy. simpl. rewrite Hv, Hj.
  destruct (compile_stages_valid value (Validate_nil _ Hv)) as [stages Hst]. rewrite Hst. simpl.
  eexists. split; [done|]. split; [done|]. simpl. apply rmap_Ok in Hst.
  eapply Forall2_impl; [exact Hst|]. intros s ps (Hn & Hd & Hjobs)%compile_stage_fields.
  split; [done|]. split; [done|]. eapply Forall2_impl; [exact Hjobs|]. apply compile_job_ok.
Qed.

Lemma Compile_stages_ok yaml_decode json_marshal sha256_hex source now plan :
  Compile yaml_decode json_marshal sha256_hex source now = Ok plan → stages_ok (pn_Stages plan).
Proof.
  unfold Compile, Parse. destruct (yaml_decode source) as [value|]; [|done]. simpl.
  destruct (Validate value) eqn:Hv; [|done]. destruct (json_marshal value); [|done].
  destruct (rmap _ _) as [stages|] eqn:Hst; [|done]. intros [= <-].
  by apply (stages_ok_compiled value), Hst; apply Validate_nil.
Qed.

(** C36: the jobs of a compiled plan form a batch that the scheduler accepts: keys
    are unique, every dependency is a job of the batch, the dependency graph is
    well-founded, and exactly the jobs without dependencies start as queued. *)
Theorem Compile_schedulable yaml_decode json_marshal sha256_hex source now plan run ids jobs :
  Compile yaml_decode json_marshal sha256_hex source now = Ok plan →
  (∀ j, j ∈ jobs → aj_run j ≠ run) →
  NoDup ((aj_id <$> jobs) ++ (ids <$> seq 0 (length (stage_job_pairs (pn_Stages plan))))) →
  submission jobs (view <$> plan_jobs run ids (pn_Stages plan)) run.
Proof.
  intros Hc Hf Hids. apply plan_jobs_submission; [|done..]. by eapply Compile_stages_ok.
Qed.

(** Sizes: a decimal number of a unit reads back as that many bytes, up to one
    pebibyte, without wrapping around in 64 bits; larger numbers are refused. *)
Theorem parseByteSize_units v u m :
  (u, m) ∈ units → 0 ≤ v ≤ max_int64 →
  parseByteSize (FormatInt v +:+ u)
    = (if v * m <=? 2 ^ 50 / m * m then Ok (v * m)
       else Err "must be a non-negative size no larger than 1 PiB") ∧
  (v * m ≤ 2 ^ 50 / m * m → 0 ≤ v * m ≤ 2 ^ 50).
Proof.
  intros Hu Hv. pose proof (units_multiplier u m Hu) as Hm.
  pose proof (Z.mul_div_le (2 ^ 50) m ltac:(lia)) as Hle.
  assert (Hplain : all_plain (chars (FormatInt v +:+ u))).
  { rewrite chars_app. apply Forall_app. split; [by apply FormatInt_plain|].
    unfold units in Hu. repeat (apply elem_of_cons in Hu as [Hu|Hu];
      [injection Hu as -> ->; repeat constructor|]). by apply not_elem_of_nil in Hu. }
  split; [|nia]. unfold parseByteSize. rewrite bool_decide_eq_false_2.
  2:{ intros Heq. apply (f_equal chars) in Heq. rewrite chars_app in Heq.
      apply app_nil in Heq as [Heq _]. by apply FormatInt_digits in Hv as []. }
  rewrite TrimSpace_plain, ToUpper_plain, (parse_with_units_of u m v) by done.
  rewrite (proj2 (Z.ltb_ge v 0)) by lia. simpl.
  assert (Hcmp : (2 ^ 50 / m <? v) = negb (v * m <=? 2 ^ 50 / m * m)).
  { rewrite Z.leb_antisym, negb_involutive. apply eq_true_iff_eq. rewrite !Z.ltb_lt. nia. }
  rewrite Hcmp. destruct (Z.leb_spec (v * m) (2 ^ 50 / m * m)); simpl; [|done].
  rewrite wrap64_small by nia. done.
Qed.

(** Every accepted size is at most one pebibyte and every accepted timeout
    lies between one second and one day; an empty text gives the defaults. *)
Theorem parse_limits raw size timeout :
  (parseByteSize raw = Ok size → 0 ≤ size ≤ 2 ^ 50) ∧
  (parseTimeout raw = Ok timeout → Second ≤ timeout ≤ 24 * Hour) ∧
  parseByteSize "" = Ok 0 ∧ parseTimeout "" = Ok (30 * Minute).
Proof. split; [apply parseByteSize_ok|split; [apply parseTimeout_ok|done]]. Qed.

(** A list of services that validation accepts has at most sixteen entries,
    with well-formed names that differ even when case is ignored, and images that
    are neither empty nor options of a command line. *)
Theorem ValidateServices_sound services :
  ValidateServices services = [] →
  (length services ≤ 16)%nat ∧ NoDup (ToLower ∘ sv_Name <$> services) ∧
  ∀ s, s ∈ services → re_match namePattern (sv_Name s) = true ∧
    sv_Image s ≠ "" ∧ HasPrefix (sv_Image s) "-" = false.
Proof.
  unfold ValidateServices. destruct (Z.ltb_spec 16 (Z.of_nat (length services))); [done|].
  intros [Hnd Hall]%validate_services_nil. split; [lia|]. split; [done|].
  intros s Hs. by apply Hall.
Qed.
End Theorems.

Section Examples.
#[local] Existing Instance library_order.

Definition demo_yaml (s : string) : option Pipeline := if s =? "demo" then Some demo_pipeline else None.

Lemma Validate_sound_witness : pipeline_valid demo_pipeline.
Proof. apply Validate_sound. vm_compute. reflexivity. Defined.

Lemma Compile_complete_witness :
  ∃ plan, Compile demo_yaml (λ _, Some "{}") (λ s, s) "demo" 5 = Ok plan ∧ pn_ConfigSHA256 plan = "{}".
Proof.
  destruct (Compile_complete demo_yaml (λ _, Some "{}") (λ s, s) "demo" 5 demo_pipeline "{}")
    as (plan & Hp & Hs & _); [reflexivity|vm_compute; reflexivity|reflexivity|]. exists plan. split; [exact Hp|exact Hs].
Defined.

Lemma Compile_schedulable_witness :
  submission [] (view <$> plan_jobs 1 (demo_ids 100) demo_stages) 1.
Proof.
  apply (Compile_schedulable demo_yaml (λ _, Some "{}") (λ s, s) "demo" 5
    (mkPlan "v1" "demo" "{}" 5 demo_stages)).
  - vm_compute. reflexivity.
  - by intros j ?%not_elem_of_nil.
  - apply demo_ids_NoDup, NoDup_seq.
Defined.

Lemma parseByteSize_units_witness :
  ("MIB", 2 ^ 20) ∈ units ∧ parseByteSize (FormatInt 3 +:+ "MIB") = Ok 3145728.
Proof.
  assert (Hu : ("MIB", 2 ^ 20) ∈ units) by (right; right; left).
  split; [exact Hu|].
  destruct (parseByteSize_units 3 "MIB" (2 ^ 20) Hu ltac:(unfold max_int64; lia)) as [Hp _].
  rewrite Hp. reflexivity.
Defined.

Lemma parse_limits_witness : parseTimeout "90s" = Ok (90 * Second) ∧ Second ≤ 90 * Second ≤ 24 * Hour.
Proof.
  assert (Ht : parseTimeout "90s" = Ok (90 * Second)) by (vm_compute; reflexivity).
  split; [exact Ht|]. apply (parse_limits "90s" 0 (90 * Second)). exact Ht.
Defined.

Lemma ValidateServices_sound_witness :
  (length [mkService "db" "postgres:16" ∅; mkService "cache" "redis" ∅] ≤ 16)%nat.
Proof.
  apply (ValidateServices_sound [mkService "db" "postgres:16" ∅; mkService "cache" "redis" ∅]).
  vm_compute. reflexivity.
Defined.
End Examples.
