(* ===== verification/Authorization.v ===== *)
(** internal/authorization/policy.go: permissions over resolved identities, grants
    and resource ancestry.  Kinds, roles, actions and protections are Go strings,
    so a value outside the declared constants is possible and must be denied. *)

From S2P Require Import Prelude GoStd.

(** ** Data *)

Abbreviation ScopeKind := string (only parsing).
Definition Instance_ : ScopeKind := "instance".
Definition Organization : ScopeKind := "organization".
Definition Project : ScopeKind := "project".
Definition Environment : ScopeKind := "environment".

Record Scope := mkScope { sc_Kind : ScopeKind; sc_ID : uuid }.
#[export] Instance Scope_eq_dec : EqDecision Scope.
Proof. solve_decision. Defined.

Definition Protected : string := "protected".
Definition Unprotected : string := "unprotected".

Record Resource := mkResource { rc_Path : list Scope; rc_Protection : string }.

Record Principal := mkPrincipal { pr_ID : uuid; pr_Active : bool }.

Abbreviation Role := string (only parsing).
Definition Viewer : Role := "viewer".
Definition Developer : Role := "developer".
Definition Maintainer : Role := "maintainer".
Definition Admin : Role := "admin".
Definition Deployer : Role := "deployer".
Definition Approver : Role := "approver".

Record Grant := mkGrant { gr_SubjectID : uuid; gr_Scope : Scope; gr_Role : Role }.

Abbreviation Action := string (only parsing).
Definition ResourceRead : Action := "resource.read".
Definition RunRead : Action := "run.read".
Definition RunCreate : Action := "run.create".
Definition RunCancel : Action := "run.cancel".
Definition PipelineWrite : Action := "pipeline.write".
Definition RepositoryManage : Action := "repository.manage".
Definition SecretManage : Action := "secret.manage".
Definition EnvironmentManage : Action := "environment.manage".
Definition DeploymentRead : Action := "deployment.read".
Definition DeploymentCreate : Action := "deployment.create".
Definition DeploymentApprove : Action := "deployment.approve".
Definition MembersManage : Action := "members.manage".
Definition AuditRead : Action := "audit.read".
Definition RunnerManage : Action := "runner.manage".
Definition InstanceManage : Action := "instance.manage".

Record AccessRequest := mkAccess {
  rq_Action : Action;
  rq_Resource : Resource;
  rq_RequestedBy : uuid;
}.

(** [slices.Contains] *)
Definition one_action_of (actions : list Action) (a : Action) : bool := bool_decide (a ∈ actions).

(** ** Functions *)

Definition scope_order : list ScopeKind := [Instance_; Organization; Project; Environment].

(** The loop of [validResource]: [seen] holds the scopes before [path]. *)
Fixpoint valid_path (kinds : list ScopeKind) (seen path : list Scope) {struct path} : bool :=
  match path with
  | [] => true
  | scope :: path =>
    match kinds with
    | [] => false
    | kind :: kinds =>
      if (sc_Kind scope <>? kind) || (sc_ID scope =? uuid_Nil) then false
      else if existsb (λ previous, sc_ID previous =? sc_ID scope) seen then false
      else valid_path kinds (seen ++ [scope]) path
    end
  end.

Definition validResource (resource : Resource) : bool :=
  let n := length (rc_Path resource) in
  if (n <? 1)%nat || (length scope_order <? n)%nat then false
  else if negb (valid_path scope_order [] (rc_Path resource)) then false
  else if (n =? 4)%nat
  then (rc_Protection resource =? Protected) || (rc_Protection resource =? Unprotected)
  else rc_Protection resource =? "".

Definition validActionTarget (action : Action) (kind : ScopeKind) : bool :=
  if one_action_of [ResourceRead; MembersManage; AuditRead] action then true
  else if one_action_of [RunRead; RunCreate; RunCancel; PipelineWrite; RepositoryManage] action
  then kind =? Project
  else if action =? SecretManage
  then (kind =? Organization) || (kind =? Project) || (kind =? Environment)
  else if one_action_of [EnvironmentManage; DeploymentRead; DeploymentCreate; DeploymentApprove] action
  then kind =? Environment
  else if one_action_of [RunnerManage; InstanceManage] action then kind =? Instance_
  else false.

Definition protectedMutation (action : Action) : bool :=
  one_action_of [SecretManage; EnvironmentManage; DeploymentCreate; DeploymentApprove; MembersManage] action.

Definition roleAllows (role : Role) (action : Action) : bool :=
  if role =? Viewer then one_action_of [ResourceRead; RunRead; DeploymentRead] action
  else if role =? Developer
  then one_action_of [ResourceRead; RunRead; RunCreate; RunCancel; PipelineWrite; DeploymentRead] action
  else if role =? Maintainer
  then one_action_of [ResourceRead; RunRead; RunCreate; RunCancel; PipelineWrite; RepositoryManage;
         SecretManage; EnvironmentManage; DeploymentRead; DeploymentCreate] action
  else if role =? Admin
  then one_action_of [ResourceRead; RunRead; RunCreate; RunCancel; PipelineWrite; RepositoryManage;
         SecretManage; EnvironmentManage; DeploymentRead; DeploymentCreate; MembersManage; AuditRead;
         RunnerManage; InstanceManage] action
  else if role =? Deployer then one_action_of [ResourceRead; DeploymentRead; DeploymentCreate] action
  else if role =? Approver then one_action_of [ResourceRead; DeploymentRead; DeploymentApprove] action
  else false.

(** The tests of one turn of the loop over the grants. *)
Definition grant_applies (principal : Principal) (action : Action) (exact : bool) (path : list Scope)
    (target : Scope) (grant : Grant) : bool :=
  if (gr_SubjectID grant <>? pr_ID principal) || negb (roleAllows (gr_Role grant) action) then false
  else if ((gr_Role grant =? Deployer) || (gr_Role grant =? Approver))
          && (sc_Kind (gr_Scope grant) <>? Environment) then false
  else if exact && (gr_Scope grant <>? target) then false
  else bool_decide (gr_Scope grant ∈ path).

Definition Allowed (principal : Principal) (request : AccessRequest) (grants : list Grant) : bool :=
  if negb (pr_Active principal) || (pr_ID principal =? uuid_Nil)
     || negb (validResource (rq_Resource request)) then false
  else
    let path := rc_Path (rq_Resource request) in
    match last path with
    | None => false (* [validResource] refuses an empty path *)
    | Some target =>
      if negb (validActionTarget (rq_Action request) (sc_Kind target)) then false
      else if (rq_Action request =? DeploymentApprove)
              && ((rq_RequestedBy request =? uuid_Nil) || (rq_RequestedBy request =? pr_ID principal))
      then false
      else
        let exact := (rq_Action request =? DeploymentApprove)
          || ((rc_Protection (rq_Resource request) =? Protected) && protectedMutation (rq_Action request)) in
        existsb (grant_applies principal (rq_Action request) exact path target) grants
    end.

(** ** Specification *)

(** A resource names the instance and every ancestor down to the target, with
    distinct identifiers; only an environment is classified. *)
Record well_formed (r : Resource) : Prop := {
  wf_kinds : sc_Kind <$> rc_Path r = take (length (rc_Path r)) scope_order;
  wf_nonempty : rc_Path r ≠ [];
  wf_ids : NoDup (sc_ID <$> rc_Path r);
  wf_nonnil : ∀ s, s ∈ rc_Path r → sc_ID s ≠ uuid_Nil;
  wf_protection : if (length (rc_Path r) =? 4)%nat
    then rc_Protection r = Protected ∨ rc_Protection r = Unprotected else rc_Protection r = "";
}.

(** A grant gives [principal] the right to [action] on the resource. *)
Record entitles (principal : Principal) (request : AccessRequest) (target : Scope) (g : Grant) : Prop := {
  en_subject : gr_SubjectID g = pr_ID principal;
  en_role : roleAllows (gr_Role g) (rq_Action request) = true;
  en_deploy : gr_Role g = Deployer ∨ gr_Role g = Approver → sc_Kind (gr_Scope g) = Environment;
  en_exact : rq_Action request = DeploymentApprove
      ∨ rc_Protection (rq_Resource request) = Protected ∧ protectedMutation (rq_Action request) = true →
      gr_Scope g = target;
  en_path : gr_Scope g ∈ rc_Path (rq_Resource request);
}.

Lemma valid_path_spec kinds seen path :
  valid_path kinds seen path = true ↔
  sc_Kind <$> path = take (length path) kinds ∧
  (∀ s, s ∈ path → sc_ID s ≠ uuid_Nil) ∧
  NoDup (sc_ID <$> path) ∧ (∀ s p, s ∈ path → p ∈ seen → sc_ID p ≠ sc_ID s).
Proof.
  revert kinds seen. induction path as [|s path IH]; intros kinds seen; simpl.
  { split; [|done]. intros _. split; [done|]. split; [by intros s ?%not_elem_of_nil|].
    split; [constructor|by intros s p ?%not_elem_of_nil]. }
  destruct kinds as [|kind kinds]; [split; [done|by intros [? _]]|].
  case_bool_decide as Hk; simpl.
  2:{ split; [done|]. intros [[= ? _] _]. congruence. }
  case_bool_decide as Hid.
  { split; [done|]. intros (_ & Hn & _). by destruct (Hn s ltac:(left)). }
  destruct (existsb _ seen) eqn:Hex.
  { split; [done|]. intros (_ & _ & _ & Hd). apply existsb_exists in Hex as (p & Hp & Heq). bools.
    apply list_elem_of_In in Hp. by destruct (Hd s p ltac:(left) Hp). }
  assert (Hseen : ∀ p, p ∈ seen → sc_ID p ≠ sc_ID s).
  { intros p Hp Heq. rewrite <-not_true_iff_false in Hex. apply Hex, existsb_exists.
    exists p. split; [by apply list_elem_of_In|by apply bool_decide_eq_true_2]. }
  rewrite IH, NoDup_cons. setoid_rewrite elem_of_app. setoid_rewrite list_elem_of_singleton.
  setoid_rewrite elem_of_cons. setoid_rewrite list_elem_of_fmap. rewrite Hk. split.
  - intros (Hks & Hn & Hnd & Hd). split; [by f_equal|]. split; [naive_solver|].
    split; [|naive_solver]. split; [|done]. intros (p & Heq & Hp). by destruct (Hd p s Hp ltac:(by right)).
  - intros (Hks & Hn & [Hs Hnd] & Hd). injection Hks as Hks. split; [done|]. split; [auto|].
    split; [done|]. intros p q Hp [Hq| ->]; [auto|]. intros Heq. apply Hs. eauto.
Qed.

Lemma validResource_spec r : validResource r = true ↔ well_formed r.
Proof.
  unfold validResource. destruct ((length (rc_Path r) <? 1)%nat || _) eqn:Hlen.
  { split; [done|]. intros [Hk Hne _ _ _]. apply orb_true_iff in Hlen as [Hl|Hl].
    - apply Nat.ltb_lt in Hl. destruct (rc_Path r); [done|simpl in Hl; lia].
    - apply Nat.ltb_lt in Hl. apply (f_equal length) in Hk.
      rewrite length_fmap, length_take in Hk. lia. }
  apply orb_false_iff in Hlen as [Hl1 Hl2]. apply Nat.ltb_ge in Hl1, Hl2.
  pose proof (valid_path_spec scope_order [] (rc_Path r)) as Hv.
  destruct (valid_path _ _ _) eqn:Hp; simpl.
  2:{ split; [done|]. intros [Hk Hne Hids Hnn _]. assert (false = true); [|done].
      apply Hv. split; [done|]. split; [done|]. split; [done|]. by intros s p _ ?%not_elem_of_nil. }
  destruct (proj1 Hv eq_refl) as (Hk & Hnn & Hids & _). clear Hv.
  assert (Hne : rc_Path r ≠ []) by (intros Heq; rewrite Heq in Hl1; simpl in Hl1; lia).
  split.
  - intros Hprot. split; try done. destruct (_ =? 4)%nat; bools; [|done].
    destruct Hprot; bools; auto.
  - intros [_ _ _ _ Hprot]. destruct (_ =? 4)%nat; [|by apply bool_decide_eq_true_2].
    apply orb_true_iff. rewrite !bool_decide_eq_true. done.
Qed.

Lemma grant_applies_spec principal request target g :
  let exact := (rq_Action request =? DeploymentApprove)
    || ((rc_Protection (rq_Resource request) =? Protected) && protectedMutation (rq_Action request)) in
  grant_applies principal (rq_Action request) exact (rc_Path (rq_Resource request)) target g = true ↔
  entitles principal request target g.
Proof.
  cbv zeta. set (exact := _ || _).
  assert (Hex : exact = true ↔ rq_Action request = DeploymentApprove
      ∨ rc_Protection (rq_Resource request) = Protected ∧ protectedMutation (rq_Action request) = true).
  { unfold exact. rewrite orb_true_iff, andb_true_iff, !bool_decide_eq_true. done. }
  clearbody exact. unfold grant_applies. split.
  - intros Hg. destruct (_ || negb _) eqn:H1 in Hg; [done|]. bools.
    destruct (_ && (sc_Kind _ <>? _)) eqn:H2 in Hg; [done|].
    destruct (_ && (gr_Scope g <>? target)) eqn:H3 in Hg; [done|]. bools.
    split; try done.
    + intros Hd. destruct H2 as [H2|H2]; bools; [|done]. naive_solver.
    + intros He%Hex. destruct H3 as [H3|H3]; bools; [congruence|done].
  - intros [Hs Hr Hd He Hp]. rewrite Hr, (bool_decide_eq_true_2 _ Hs), (bool_decide_eq_true_2 _ Hp). simpl.
    destruct (((gr_Role g =? Deployer) || (gr_Role g =? Approver)) && _) eqn:H2.
    { bools. destruct H as [H|H]; bools; naive_solver. }
    destruct exact; simpl; [|done]. rewrite (bool_decide_eq_true_2 (gr_Scope g = target)); [done|].
    by apply He, Hex.
Qed.

(** What must hold besides a grant. *)
Record admissible_access (principal : Principal) (request : AccessRequest) (target : Scope) : Prop := {
  aa_active : pr_Active principal = true;
  aa_identity : pr_ID principal ≠ uuid_Nil;
  aa_resource : well_formed (rq_Resource request);
  aa_target : last (rc_Path (rq_Resource request)) = Some target;
  aa_kind : validActionTarget (rq_Action request) (sc_Kind target) = true;
  aa_approval : rq_Action request = DeploymentApprove →
    rq_RequestedBy request ≠ uuid_Nil ∧ rq_RequestedBy request ≠ pr_ID principal;
}.

Lemma Allowed_spec principal request grants :
  Allowed principal request grants = true ↔
  ∃ target g, admissible_access principal request target ∧ g ∈ grants ∧
    entitles principal request target g.
Proof.
  unfold Allowed. split.
  - intros Ha. destruct (_ || negb (validResource _)) eqn:H1 in Ha; [done|]. bools.
    destruct (last _) as [target|] eqn:Hl; [|done].
    destruct (negb (validActionTarget _ _)) eqn:H2 in Ha; [done|].
    destruct (_ && (_ || _)) eqn:H3 in Ha; [done|]. bools.
    apply existsb_exists in Ha as (g & Hg & Hga). apply grant_applies_spec in Hga.
    exists target, g. split; [|split; [by apply list_elem_of_In|done]]. split; try done.
    + by apply validResource_spec.
    + intros Hd. destruct H3 as [H3|H3]; bools; [done|done].
  - intros (target & g & [Hact Hid Hres Hl Hk Hap] & Hg & He).
    rewrite Hact, (proj2 (validResource_spec _) Hres), Hl, Hk. simpl.
    rewrite (bool_decide_eq_false_2 (pr_ID principal = uuid_Nil)) by done. simpl.
    destruct (_ && (_ || _)) eqn:H3.
    { bools. destruct (Hap H) as [Hn Hp]. destruct H0 as [H0|H0]; bools; done. }
    apply existsb_exists. exists g. split; [by apply list_elem_of_In|]. by apply grant_applies_spec.
Qed.

(** ** Theorems *)


(** Deployments are approved only by an approver of exactly that environment
    who did not request them; no other role and no broader grant suffices. *)
Theorem approval_separation principal request grants :
  Allowed principal request grants = true → rq_Action request = DeploymentApprove →
  rq_RequestedBy request ≠ pr_ID principal ∧
  ∃ env, last (rc_Path (rq_Resource request)) = Some env ∧ sc_Kind env = Environment ∧
    ∃ g, g ∈ grants ∧ gr_SubjectID g = pr_ID principal ∧ gr_Role g = Approver ∧ gr_Scope g = env.
Proof.
  intros (target & g & Ha & Hg & He)%Allowed_spec Hact. split; [by apply (aa_approval _ _ _ Ha)|].
  exists target. split; [apply Ha|]. assert (Hs : gr_Scope g = target) by (apply (en_exact _ _ _ _ He); by left).
  pose proof (en_role _ _ _ _ He) as Hr. rewrite Hact in Hr.
  assert (Hap : gr_Role g = Approver).
  { unfold roleAllows in Hr. by repeat (case_bool_decide; [by vm_compute in Hr|]). }
  split; [rewrite <-Hs; apply (en_deploy _ _ _ _ He); by right|].
  exists g. split; [done|]. split; [apply He|done].
Qed.

(** More grants never take a right away, and grants of other principals or for
    scopes outside the resource path never give one. *)
Theorem grants_monotone principal request grants grants' :
  (∀ g, g ∈ grants → gr_SubjectID g = pr_ID principal → gr_Scope g ∈ rc_Path (rq_Resource request) →
     g ∈ grants') →
  Allowed principal request grants = true → Allowed principal request grants' = true.
Proof.
  intros Hsub (target & g & Ha & Hg & He)%Allowed_spec. apply Allowed_spec.
  exists target, g. split; [done|]. split; [|done]. apply Hsub; [done|apply He|apply He].
Qed.

(** *** Examples *)

Definition demo_environment : Resource :=
  mkResource [mkScope Instance_ 1; mkScope Organization 2; mkScope Project 3; mkScope Environment 4] Protected.
Definition demo_approval : AccessRequest := mkAccess DeploymentApprove demo_environment 50.
Definition demo_approver : Principal := mkPrincipal 60 true.
Definition demo_approver_grant : Grant := mkGrant 60 (mkScope Environment 4) Approver.

Lemma approval_separation_witness :
  Allowed demo_approver demo_approval [demo_approver_grant] = true ∧
  rq_RequestedBy demo_approval ≠ pr_ID demo_approver.
Proof.
  assert (Ha : Allowed demo_approver demo_approval [demo_approver_grant] = true) by (vm_compute; reflexivity).
  split; [exact Ha|].
  exact (proj1 (approval_separation demo_approver demo_approval [demo_approver_grant] Ha eq_refl)).
Defined.

Lemma grants_monotone_witness :
  Allowed demo_approver demo_approval
    [mkGrant 61 (mkScope Instance_ 1) Admin; demo_approver_grant] = true.
Proof.
  apply (grants_monotone demo_approver demo_approval [demo_approver_grant]).
  - intros g Hg _ _. right. exact Hg.
  - vm_compute. reflexivity.
Defined.
