(* ===== verification/Redaction.v ===== *)
(** internal/runner/redaction.go: the writer that removes secrets from the output
    of a job while it streams. *)

From S2P Require Import Prelude GoStd.

(** ** The writer *)

Record redactor := mkRedactor {
  rd_secrets : list bytes;
  rd_pending : bytes;
  rd_closed : bool;
}.

Definition redacted_mark : bytes := chars "[REDACTED]".

Inductive write_error := ErrClosedPipe | ErrShortWrite | ErrTarget | ErrTooManySecrets | ErrSecretBounds.

(** [newRedactingWriter]: the loop over the secrets with its running total. *)
Fixpoint check_secrets (total : Z) (secrets : list bytes) : bool :=
  match secrets with
  | [] => true
  | s :: secrets =>
    let n := Z.of_nat (length s) in
    let total := total + n in
    if (n =? 0) || (8192 <? n) || (65536 <? total) then false else check_secrets total secrets
  end.

Definition newRedactingWriter (secrets : list bytes) : result write_error redactor :=
  if 64 <? Z.of_nat (length secrets) then Err ErrTooManySecrets
  else if negb (check_secrets 0 secrets) then Err ErrSecretBounds
  else Ok (mkRedactor secrets [] false).

(** The loop over the secrets in [drain]: the length of the longest secret that
    starts [pending], and whether [pending] is a proper prefix of a secret. *)
Definition longest_match (secrets : list bytes) (pending : bytes) : nat :=
  foldl (λ m s, if (length s <=? length pending)%nat && has_prefix s pending then Nat.max m (length s) else m)
    0%nat secrets.
Definition proper_prefix (secrets : list bytes) (pending : bytes) : bool :=
  existsb (λ s, (length pending <? length s)%nat && has_prefix pending s) secrets.

(** [drain]: every turn of the loop consumes at least one pending byte, so the
    number of pending bytes bounds the number of turns. *)
Fixpoint drain_loop (secrets : list bytes) (fuel : nat) (pending out : bytes) (final : bool)
    : bytes * bytes :=
  match fuel with
  | O => (pending, out)
  | S fuel =>
    match pending with
    | [] => ([], out)
    | b :: rest =>
      let m := longest_match secrets pending in
      let prefix := proper_prefix secrets pending in
      if prefix && negb final then (pending, out)
      else if (0 <? m)%nat then drain_loop secrets fuel (drop m pending) (out ++ redacted_mark) final
      else if prefix then drain_loop secrets fuel [] (out ++ redacted_mark) final
      else drain_loop secrets fuel rest (out ++ [b]) final
    end
  end.

Definition drain (w : redactor) (out : bytes) (final : bool) : redactor * bytes :=
  let '(pending, out) := drain_loop (rd_secrets w) (length (rd_pending w)) (rd_pending w) out final in
  (mkRedactor (rd_secrets w) pending (rd_closed w), out).

Definition push_byte (b : ascii) (w : redactor) : redactor :=
  mkRedactor (rd_secrets w) (rd_pending w ++ [b]) (rd_closed w).

Section Target.
(** The target is an [io.Writer]: its [Write] returns the number of bytes that it
    took and whether there was an error. *)
Context {T : Type} (target_write : T → bytes → T * Z * bool).

Definition writeRedacted (t : T) (p : bytes) : T * option write_error :=
  if (length p =? 0)%nat then (t, None)
  else
    let '(t, n, failed) := target_write t p in
    if (failed : bool) then (t, Some ErrTarget)
    else if n <>? Z.of_nat (length p) then (t, Some ErrShortWrite) else (t, None).

(** The loop of [Write]; [i] is the index of the next byte. *)
Fixpoint write_loop (p : bytes) (i : Z) (w : redactor) (t : T) (output : bytes)
    : redactor * T * Z * option write_error :=
  match p with
  | [] => let '(t, err) := writeRedacted t output in (w, t, i, err)
  | b :: p =>
    let '(w, output) := drain (push_byte b w) output false in
    if 16384 <=? Z.of_nat (length output) then
      let '(t, err) := writeRedacted t output in
      match err with
      | Some _ => (w, t, i + 1, err)
      | None => write_loop p (i + 1) w t []
      end
    else write_loop p (i + 1) w t output
  end.

Definition Write (p : bytes) (w : redactor) (t : T) : redactor * T * Z * option write_error :=
  if rd_closed w then (w, t, 0, Some ErrClosedPipe) else write_loop p 0 w t [].

Definition Close (w : redactor) (t : T) : redactor * T * option write_error :=
  if rd_closed w then (w, t, None)
  else
    let '(_, output) := drain w [] true in
    let '(t, err) := writeRedacted t output in
    (mkRedactor [] [] true, t, err).

(** A sequence of writes, stopping at the first error, and the close. *)
Fixpoint session (ps : list bytes) (w : redactor) (t : T) : redactor * T * option write_error :=
  match ps with
  | [] => Close w t
  | p :: ps =>
    let '(w, t, _, err) := Write p w t in
    match err with Some _ => (w, t, err) | None => session ps w t end
  end.
End Target.

(** ** Reference: redaction of a complete text *)

(** A piece of the text and whether it is replaced. *)
Record piece := mkPiece { pc_redacted : bool; pc_bytes : bytes }.

(** Leftmost-longest: at every position the longest secret that starts there is
    replaced; a rest that is a proper prefix of a secret is replaced as a whole. *)
Fixpoint pieces (secrets : list bytes) (fuel : nat) (text : bytes) : list piece :=
  match fuel with
  | O => []
  | S fuel =>
    match text with
    | [] => []
    | b :: rest =>
      let m := longest_match secrets text in
      if (0 <? m)%nat then mkPiece true (take m text) :: pieces secrets fuel (drop m text)
      else if proper_prefix secrets text then [mkPiece true text]
      else mkPiece false [b] :: pieces secrets fuel rest
    end
  end.

Definition render (ps : list piece) : bytes :=
  mjoin ((λ p, if pc_redacted p then redacted_mark else pc_bytes p) <$> ps).
Definition source (ps : list piece) : bytes := mjoin (pc_bytes <$> ps).

Definition redact (secrets : list bytes) (text : bytes) : bytes :=
  render (pieces secrets (length text) text).

(** ** Lemmas *)

Section Lemmas.
Context (secrets : list bytes).

Lemma longest_match_spec p :
  (∀ s, s ∈ secrets → s `prefix_of` p → (length s ≤ longest_match secrets p)%nat) ∧
  (longest_match secrets p = 0%nat ∨
   ∃ s, s ∈ secrets ∧ s `prefix_of` p ∧ length s = longest_match secrets p).
Proof.
  unfold longest_match. induction secrets as [|x l IH] using rev_ind; simpl.
  { split; [by intros s ?%not_elem_of_nil|by left]. }
  rewrite foldl_app. simpl. set (m := foldl _ 0%nat l) in *. destruct IH as [Hall Hex].
  destruct ((length x <=? length p)%nat && has_prefix x p) eqn:Hx.
  - bools. apply has_prefix_spec in H0. split.
    + intros s [Hs| ->%list_elem_of_singleton]%elem_of_app Hp; [|lia]. specialize (Hall s Hs Hp). lia.
    + right. destruct (Nat.max_spec m (length x)) as [[Hlt ->]|[Hle ->]].
      * exists x. split; [apply elem_of_app; right; by apply list_elem_of_singleton|done].
      * destruct Hex as [Hz|(s & Hs & ? & ?)]; [|exists s; rewrite elem_of_app; auto].
        exists x. split; [apply elem_of_app; right; by apply list_elem_of_singleton|]. split; [done|lia].
  - split.
    + intros s [Hs| ->%list_elem_of_singleton]%elem_of_app Hp; [auto|].
      pose proof (prefix_length _ _ Hp) as Hlen. apply Nat.leb_le in Hlen.
      rewrite Hlen, (proj2 (has_prefix_spec x p) Hp) in Hx. done.
    + destruct Hex as [Hz|(s & Hs & ?)]; [by left|right; exists s; rewrite elem_of_app; auto].
Qed.

Lemma longest_match_length p : (longest_match secrets p ≤ length p)%nat.
Proof.
  destruct (longest_match_spec p) as [_ [->|(s & _ & Hp & <-)]]; [lia|]. by apply prefix_length.
Qed.

Lemma proper_prefix_spec p :
  proper_prefix secrets p = true ↔
  ∃ s, s ∈ secrets ∧ p `prefix_of` s ∧ (length p < length s)%nat.
Proof.
  unfold proper_prefix. rewrite existsb_exists. setoid_rewrite <-list_elem_of_In.
  setoid_rewrite andb_true_iff. setoid_rewrite Nat.ltb_lt. setoid_rewrite has_prefix_spec. naive_solver.
Qed.

Lemma prefix_app_cases (s p q : bytes) :
  s `prefix_of` p ++ q → s `prefix_of` p ∨ (p `prefix_of` s ∧ (length p < length s)%nat).
Proof.
  intros Hs. destruct (prefix_weak_total s p (p ++ q)) as [?|Hp]; [done|by eexists|by left|].
  destruct (decide (length p < length s)%nat); [by right|left].
  destruct Hp as [k ->]. rewrite length_app in *. assert (k = []) as ->; [|by rewrite app_nil_r].
  destruct k; [done|simpl in *; lia].
Qed.

(** What comes later cannot change the decision at the head of a text that is
    not a proper prefix of a secret. *)
Lemma decision_stable p q :
  proper_prefix secrets p = false →
  longest_match secrets (p ++ q) = longest_match secrets p ∧ proper_prefix secrets (p ++ q) = false.
Proof.
  intros Hn. rewrite <-not_true_iff_false, proper_prefix_spec in Hn. split.
  - destruct (longest_match_spec p) as [Hmax Hex], (longest_match_spec (p ++ q)) as [Hmax' Hex'].
    apply Nat.le_antisymm.
    + destruct Hex' as [->|(s & Hs & Hp & <-)]; [lia|].
      destruct (prefix_app_cases s p q Hp) as [?|[? ?]]; [by apply Hmax|]. destruct Hn. eauto.
    + destruct Hex as [->|(s & Hs & Hp & <-)]; [lia|]. apply Hmax'; [done|]. by apply prefix_app_r.
  - rewrite <-not_true_iff_false, proper_prefix_spec. intros (s & Hs & Hp & Hl). apply Hn.
    exists s. split; [done|]. rewrite length_app in Hl. split; [|lia].
    etrans; [|exact Hp]. by eexists.
Qed.
End Lemmas.

(** ** Streaming agrees with the reference *)

Section Streaming.
Context (secrets : list bytes).

Lemma pieces_fuel fuel text :
  (length text ≤ fuel)%nat → pieces secrets fuel text = pieces secrets (length text) text.
Proof.
  revert text. induction fuel as [fuel IH] using lt_wf_ind. intros text Hf.
  destruct fuel as [|fuel], text as [|b rest]; try done; [simpl in Hf; lia|].
  cbn [length pieces]. simpl in Hf.
  destruct (0 <? longest_match secrets (b :: rest))%nat eqn:Hm.
  - apply Nat.ltb_lt in Hm. f_equal.
    assert (Hd : (length (drop (longest_match secrets (b :: rest)) (b :: rest)) ≤ length rest)%nat).
    { rewrite length_drop. simpl. lia. }
    rewrite (IH fuel) by (try lia). destruct (decide (length rest < S fuel)%nat); [|lia].
    symmetry. apply IH; [lia|done].
  - destruct (proper_prefix _ _); [done|]. f_equal. rewrite (IH fuel) by lia.
    done.
Qed.

(** The equations of [redact]. *)
Lemma redact_cons b rest :
  redact secrets (b :: rest)
  = let m := longest_match secrets (b :: rest) in
    if (0 <? m)%nat then redacted_mark ++ redact secrets (drop m (b :: rest))
    else if proper_prefix secrets (b :: rest) then redacted_mark
    else b :: redact secrets rest.
Proof.
  unfold redact. cbn [length pieces]. cbv zeta.
  destruct (0 <? longest_match secrets (b :: rest))%nat eqn:Hm.
  - apply Nat.ltb_lt in Hm. unfold render. cbn [fmap list_fmap pc_redacted]. simpl. f_equal.
    rewrite pieces_fuel; [done|]. rewrite length_drop. simpl. lia.
  - by destruct (proper_prefix _ _).
Qed.

(** Non-final draining emits a prefix of the redaction of every continuation. *)
Lemma drain_loop_open fuel p out :
  (length p ≤ fuel)%nat →
  let '(p', out') := drain_loop secrets fuel p out false in
  ∃ e, out' = out ++ e ∧ (∀ rest, redact secrets (p ++ rest) = e ++ redact secrets (p' ++ rest)) ∧
    (p' = [] ∨ proper_prefix secrets p' = true).
Proof.
  revert p out. induction fuel as [|fuel IH]; intros p out Hf; cbn [drain_loop].
  { destruct p; [|simpl in Hf; lia]. exists []. rewrite app_nil_r. auto. }
  destruct p as [|b p]; [exists []; rewrite app_nil_r; auto|]. simpl in Hf.
  destruct (proper_prefix secrets (b :: p)) eqn:Hpp; simpl negb; simpl andb.
  { exists []. rewrite app_nil_r. auto. }
  assert (Hst : ∀ rest, longest_match secrets (b :: p ++ rest) = longest_match secrets (b :: p) ∧
    proper_prefix secrets (b :: p ++ rest) = false).
  { intros rest. by apply (decision_stable secrets (b :: p) rest). }
  pose proof (longest_match_length secrets (b :: p)) as Hle.
  destruct (0 <? longest_match secrets (b :: p))%nat eqn:Hm.
  - apply Nat.ltb_lt in Hm.
    specialize (IH (drop (longest_match secrets (b :: p)) (b :: p)) (out ++ redacted_mark)).
    destruct (drain_loop _ _ _ _ _) as [p' out'].
    destruct IH as (e & -> & He & Hp'); [rewrite length_drop; simpl; lia|].
    exists (redacted_mark ++ e). rewrite app_assoc. split; [done|]. split; [|done]. intros rest.
    rewrite <-app_comm_cons, redact_cons. destruct (Hst rest) as [-> _]. cbv zeta.
    rewrite (proj2 (Nat.ltb_lt _ _) Hm), <-app_assoc, <-He. f_equal. f_equal.
    by rewrite app_comm_cons, drop_app_le.
  - specialize (IH p (out ++ [b])). destruct (drain_loop _ _ _ _ _) as [p' out'].
    destruct IH as (e & -> & He & Hp'); [lia|].
    exists (b :: e). rewrite <-app_assoc. split; [done|]. split; [|done]. intros rest.
    rewrite <-app_comm_cons, redact_cons. destruct (Hst rest) as [-> ->]. cbv zeta.
    by rewrite Hm, He.
Qed.

Lemma redact_nil : redact secrets [] = [].
Proof. done. Qed.

(** Final draining emits the redaction of what is pending. *)
Lemma drain_loop_final fuel p out :
  (length p ≤ fuel)%nat → drain_loop secrets fuel p out true = ([], out ++ redact secrets p).
Proof.
  revert p out. induction fuel as [|fuel IH]; intros p out Hf; cbn [drain_loop].
  { destruct p; [|simpl in Hf; lia]. by rewrite redact_nil, app_nil_r. }
  destruct p as [|b p]; [by rewrite redact_nil, app_nil_r|]. simpl in Hf. rewrite andb_false_r.
  rewrite redact_cons. cbv zeta. destruct (0 <? longest_match _ _)%nat eqn:Hm.
  - apply Nat.ltb_lt in Hm. rewrite IH; [by rewrite <-app_assoc|]. rewrite length_drop. simpl. lia.
  - destruct (proper_prefix _ _).
    + by destruct fuel.
    + rewrite IH by lia. by rewrite <-app_assoc.
Qed.
End Streaming.

(** ** The writer *)

Section Writer.
Context {T : Type} (target_write : T → bytes → T * Z * bool).

(** What is pending between two calls: nothing, or a proper prefix of a secret. *)
Definition waiting (w : redactor) : Prop :=
  rd_pending w = [] ∨ proper_prefix (rd_secrets w) (rd_pending w) = true.

Lemma drain_open w out :
  let '(w', out') := drain w out false in
  rd_secrets w' = rd_secrets w ∧ rd_closed w' = rd_closed w ∧ waiting w' ∧
  ∃ e, out' = out ++ e ∧ ∀ rest, redact (rd_secrets w) (rd_pending w ++ rest)
    = e ++ redact (rd_secrets w) (rd_pending w' ++ rest).
Proof.
  unfold drain, waiting.
  pose proof (drain_loop_open (rd_secrets w) (length (rd_pending w)) (rd_pending w) out) as Hd.
  destruct (drain_loop _ _ _ _ _) as [p' out']. destruct Hd as (e & He & Hr & Hp); [lia|]. eauto 10.
Qed.

Lemma write_loop_waiting p i w t output w' t' n err :
  waiting w → write_loop target_write p i w t output = (w', t', n, err) →
  waiting w' ∧ rd_secrets w' = rd_secrets w.
Proof.
  revert i w t output. induction p as [|b p IH]; intros i w t output Hw; cbn [write_loop].
  { destruct (writeRedacted _ _ _) as [t1 e1]. intros. by simplify_eq. }
  pose proof (drain_open (push_byte b w) output) as Hd.
  destruct (drain _ _ _) as [w1 out1]. destruct Hd as (Hs & _ & Hw1 & _).
  destruct (16384 <=? _).
  - destruct (writeRedacted _ _ _) as [t1 [e1|]]; intros Hl; [by simplify_eq|].
    apply IH in Hl as [? Hs']; [|done]. by rewrite Hs', Hs.
  - intros Hl. apply IH in Hl as [? Hs']; [|done]. by rewrite Hs', Hs.
Qed.

(** A target that takes everything and remembers it. *)
Context (content : T → bytes).
Hypothesis target_accepts : ∀ t p, ∃ t',
  target_write t p = (t', Z.of_nat (length p), false) ∧ content t' = content t ++ p.

Lemma writeRedacted_accepts t p :
  ∃ t', writeRedacted target_write t p = (t', None) ∧ content t' = content t ++ p.
Proof.
  unfold writeRedacted. destruct (Nat.eqb_spec (length p) 0) as [Hl|Hl].
  - exists t. apply nil_length_inv in Hl as ->. by rewrite app_nil_r.
  - destruct (target_accepts t p) as (t' & -> & Hc). exists t'. by rewrite bool_decide_eq_true_2.
Qed.

Lemma write_loop_streams p i w t output :
  ∃ w' t', write_loop target_write p i w t output = (w', t', i + Z.of_nat (length p), None) ∧
    rd_secrets w' = rd_secrets w ∧ rd_closed w' = rd_closed w ∧
    ∃ e, content t' = content t ++ output ++ e ∧
      ∀ rest, redact (rd_secrets w) (rd_pending w ++ p ++ rest)
        = e ++ redact (rd_secrets w) (rd_pending w' ++ rest).
Proof.
  revert i w t output. induction p as [|b p IH]; intros i w t output; cbn [write_loop].
  { destruct (writeRedacted_accepts t output) as (t' & -> & Hc). exists w, t'.
    rewrite Z.add_0_r. split; [done|]. split; [done|]. split; [done|]. exists [].
    by rewrite app_nil_r. }
  pose proof (drain_open (push_byte b w) output) as Hd.
  destruct (drain _ _ _) as [w1 out1]. destruct Hd as (Hs1 & Hc1 & _ & e1 & -> & Hr1).
  simpl in Hs1, Hc1, Hr1.
  assert (Hstep : ∀ t1 o1, content t1 ++ o1 = content t ++ output ++ e1 →
    ∃ w' t', write_loop target_write p (i + 1) w1 t1 o1
        = (w', t', i + Z.of_nat (length (b :: p)), None) ∧
      rd_secrets w' = rd_secrets w ∧ rd_closed w' = rd_closed w ∧
      ∃ e, content t' = content t ++ output ++ e ∧
        ∀ rest, redact (rd_secrets w) (rd_pending w ++ (b :: p) ++ rest)
          = e ++ redact (rd_secrets w) (rd_pending w' ++ rest)).
  { intros t1 o1 Hco. destruct (IH (i + 1) w1 t1 o1) as (w' & t' & Hl & Hs & Hc & e & He & Hr).
    exists w', t'. split; [rewrite Hl; f_equal; f_equal; simpl length; lia|].
    split; [congruence|]. split; [congruence|]. exists (e1 ++ e). split.
    - rewrite He, app_assoc, Hco, <-!app_assoc. done.
    - intros rest. specialize (Hr1 (p ++ rest)). rewrite <-app_assoc in Hr1. simpl in Hr1.
      rewrite <-app_comm_cons, Hr1, <-app_assoc. f_equal. rewrite <-Hs1. apply Hr. }
  destruct (16384 <=? _); [|by apply Hstep].
  destruct (writeRedacted_accepts t (output ++ e1)) as (t1 & -> & Hct). apply Hstep.
  by rewrite app_nil_r.
Qed.

Lemma session_streams ps w t :
  rd_closed w = false →
  ∃ t', session target_write ps w t = (mkRedactor [] [] true, t', None) ∧
    content t' = content t ++ redact (rd_secrets w) (rd_pending w ++ mjoin ps).
Proof.
  revert w t. induction ps as [|p ps IH]; intros w t Hopen; cbn [session].
  - unfold Close, drain. rewrite Hopen, drain_loop_final by lia. simpl.
    destruct (writeRedacted_accepts t (redact (rd_secrets w) (rd_pending w))) as (t' & -> & Hc).
    exists t'. by rewrite app_nil_r.
  - unfold Write. rewrite Hopen.
    destruct (write_loop_streams p 0 w t []) as (w' & t' & -> & Hs & Hc & e & He & Hr).
    destruct (IH w' t' ltac:(congruence)) as (t2 & -> & Hc2). exists t2. split; [done|].
    rewrite Hc2, He, Hs. simpl. rewrite Hr, <-app_assoc. done.
Qed.
End Writer.

(** ** What the reference keeps out of the output *)

Lemma pieces_source secrets fuel text :
  (length text ≤ fuel)%nat → source (pieces secrets fuel text) = text.
Proof.
  unfold source. revert text. induction fuel as [|fuel IH]; intros text Hf; cbn [pieces].
  { destruct text; [done|simpl in Hf; lia]. }
  destruct text as [|b rest]; [done|]. cbv zeta.
  destruct (0 <? longest_match _ _)%nat eqn:Hm; [|destruct (proper_prefix _ _)].
  - apply Nat.ltb_lt in Hm. rewrite fmap_cons. cbn [mjoin list_join pc_bytes].
    rewrite IH; [apply take_drop|]. rewrite length_drop. simpl in *. lia.
  - simpl. by rewrite app_nil_r.
  - rewrite fmap_cons. simpl. rewrite IH; [done|]. simpl in Hf. lia.
Qed.

(** A byte that is passed on does not start a secret, nor a prefix of a secret
    that the end of the text cut off. *)
Lemma pieces_raw secrets fuel text ps1 x ps2 :
  (length text ≤ fuel)%nat → (∀ s, s ∈ secrets → s ≠ []) →
  pieces secrets fuel text = ps1 ++ mkPiece false x :: ps2 →
  (∃ b, x = [b]) ∧ ∀ s, s ∈ secrets →
    ¬ s `prefix_of` x ++ source ps2 ∧ ¬ (x ++ source ps2) `prefix_of` s.
Proof.
  intros Hf Hne. revert text ps1 Hf. induction fuel as [|fuel IH]; intros text ps1 Hf; cbn [pieces].
  { by destruct ps1. }
  destruct text as [|b rest]; [by destruct ps1|]. cbv zeta.
  destruct (0 <? longest_match _ _)%nat eqn:Hm; [|destruct (proper_prefix _ _) eqn:Hp].
  - intros Heq. destruct ps1 as [|p ps1]; [done|]. injection Heq as _ Heq.
    eapply IH; [|exact Heq]. apply Nat.ltb_lt in Hm. rewrite length_drop. simpl in *. lia.
  - intros Heq. destruct ps1 as [|p ps1]; [done|]. injection Heq as _ Heq. by destruct ps1.
  - intros Heq. destruct ps1 as [|p ps1]; injection Heq as Hx Heq.
    2:{ eapply IH; [|exact Heq]. simpl in Hf. lia. }
    split; [by exists b|]. intros s Hs. subst x ps2.
    rewrite pieces_source by (simpl in Hf; lia). simpl.
    assert (Hns : ¬ s `prefix_of` b :: rest).
    { intros Hsp. destruct (longest_match_spec secrets (b :: rest)) as [Hmax _].
      specialize (Hmax s Hs Hsp). apply Nat.ltb_ge in Hm.
      destruct s; [by apply (Hne [])|simpl in Hmax; lia]. }
    split; [done|]. intros Hbs. rewrite <-not_true_iff_false, proper_prefix_spec in Hp.
    apply Hp. exists s. split; [done|]. split; [done|].
    pose proof (prefix_length _ _ Hbs). destruct (decide (length s = length (b :: rest))) as [Hl|]; [|lia].
    destruct Hns. destruct Hbs as [k ->]. rewrite length_app in Hl.
    assert (k = []) as ->; [destruct k; [done|simpl in Hl; lia]|]. by rewrite app_nil_r.
Qed.

Lemma check_secrets_bounds total secrets :
  check_secrets total secrets = true → ∀ s, s ∈ secrets → s ≠ [] ∧ Z.of_nat (length s) ≤ 8192.
Proof.
  revert total. induction secrets as [|x l IH]; intros total; cbn [check_secrets].
  { by intros _ s ?%not_elem_of_nil. }
  destruct (_ || _) eqn:Hc; [done|]. intros Hl s [->|Hs]%elem_of_cons; [|by eapply IH].
  bools. split; [intros ->; done|]. lia.
Qed.

(** ** Theorems *)

(** C37: whatever way the output of a job is cut into writes, the writer passes on
    exactly the redaction of the whole text: no write fails, and the target receives
    the same bytes as for the one-shot reference. *)
Theorem redaction_independent_of_chunks {T} (target_write : T → bytes → T * Z * bool)
    (content : T → bytes) secrets w t ps :
  (∀ t p, ∃ t', target_write t p = (t', Z.of_nat (length p), false) ∧ content t' = content t ++ p) →
  newRedactingWriter secrets = Ok w →
  ∃ w' t', session target_write ps w t = (w', t', None) ∧
    content t' = content t ++ redact secrets (mjoin ps) ∧ rd_closed w' = true.
Proof.
  intros Ht Hn. assert (w = mkRedactor secrets [] false) as ->.
  { revert Hn. unfold newRedactingWriter. intros. break_all. done. }
  destruct (session_streams target_write content Ht ps (mkRedactor secrets [] false) t eq_refl)
    as (t' & Hs & Hc). by exists (mkRedactor [] [] true), t'.
Qed.


(** Between two writes, even when the target fails, the writer holds back less
    than the longest secret: nothing, or a proper prefix of a secret of at most 8192
    bytes. *)
Theorem redaction_bounded_memory {T} (target_write : T → bytes → T * Z * bool) secrets w0 w t p w' t' n err :
  newRedactingWriter secrets = Ok w0 → rd_secrets w = secrets → waiting w →
  Write target_write p w t = (w', t', n, err) →
  waiting w' ∧ rd_secrets w' = secrets ∧ Z.of_nat (length (rd_pending w')) < 8192.
Proof.
  intros Hn Hs Hw Hwr. assert (Hb : ∀ s, s ∈ secrets → Z.of_nat (length s) ≤ 8192).
  { revert Hn. unfold newRedactingWriter. destruct (64 <? _); [done|].
    destruct (check_secrets 0 secrets) eqn:Hc; [|done]. intros _ s Hin.
    by apply (check_secrets_bounds _ _ Hc). }
  assert (Hw' : waiting w' ∧ rd_secrets w' = rd_secrets w).
  { revert Hwr. unfold Write. destruct (rd_closed w); [intros; by simplify_eq|].
    by apply write_loop_waiting. }
  destruct Hw' as [Hw' Hs']. rewrite Hs' in *. split; [done|]. split; [done|].
  destruct Hw' as [->|Hp]; [simpl; lia|]. rewrite Hs', Hs in Hp.
  apply proper_prefix_spec in Hp as (s & Hin & _ & Hl). specialize (Hb s Hin). lia.
Qed.

(** *** Examples *)

Definition list_target (t p : bytes) : bytes * Z * bool := (t ++ p, Z.of_nat (length p), false).
Definition demo_secrets : list bytes := [chars "hunter2"; chars "hunter22"; chars "swordfish"].
Definition demo_redactor : redactor := mkRedactor demo_secrets [] false.

Lemma redaction_independent_of_chunks_witness :
  ∃ w' t', session list_target [chars "pw=hun"; chars "ter22 ok sword"] demo_redactor [] = (w', t', None) ∧
    t' = chars "pw=[REDACTED] ok [REDACTED]".
Proof.
  destruct (redaction_independent_of_chunks list_target id demo_secrets demo_redactor []
    [chars "pw=hun"; chars "ter22 ok sword"]) as (w' & t' & Hs & Hc & _).
  - intros t p. exists (t ++ p). split; reflexivity.
  - reflexivity.
  - exists w', t'. split; [exact Hs|]. unfold id in Hc. rewrite Hc. vm_compute. reflexivity.
Defined.


Lemma redaction_bounded_memory_witness :
  ∃ w' t' n err, Write list_target (chars "say hunt") demo_redactor [] = (w', t', n, err) ∧
    Z.of_nat (length (rd_pending w')) < 8192.
Proof.
  destruct (Write list_target (chars "say hunt") demo_redactor []) as [[[w' t'] n] err] eqn:Hw.
  exists w', t', n, err. split; [reflexivity|].
  apply (redaction_bounded_memory list_target demo_secrets demo_redactor demo_redactor [] (chars "say hunt")
    w' t' n err); [reflexivity|reflexivity|left; reflexivity|exact Hw].
Defined.
