(* ===== verification/Codecs.v ===== *)
(** What the program uses of Go's encoding/base64 and encoding/hex (the standard and the URL
    alphabet, with and without padding, and strict decoding), crypto/sha256 and crypto/hmac. *)

From S2P Require Import Prelude GoStd.

(** ** base64 *)

Record encoding := mkEncoding {
  en_alphabet : bytes;
  en_padded : bool;
  en_strict : bool;   (** [Strict()]: the unused bits of the last character are zero *)
}.

Definition std_alphabet : bytes :=
  chars "ABCDEFGHIJKLMNOPQRSTUVWXYZabcdefghijklmnopqrstuvwxyz0123456789+/".
Definition url_alphabet : bytes :=
  chars "ABCDEFGHIJKLMNOPQRSTUVWXYZabcdefghijklmnopqrstuvwxyz0123456789-_".

Definition StdEncoding : encoding := mkEncoding std_alphabet true false.
Definition RawURLEncoding : encoding := mkEncoding url_alphabet false false.
Definition Strict (e : encoding) : encoding := mkEncoding (en_alphabet e) (en_padded e) true.

Definition byte_value (c : ascii) : Z := Z.of_N (N_of_ascii c).
Definition value_byte (n : Z) : ascii := ascii_of_N (Z.to_N n).

Definition sextet_char (alphabet : bytes) (n : Z) : ascii :=
  default "A"%char (alphabet !! Z.to_nat n).
Definition char_sextet (alphabet : bytes) (c : ascii) : option Z :=
  Z.of_nat <$> find_index (λ d, d =? c) alphabet.

Definition padding (e : encoding) (n : nat) : bytes := if en_padded e then replicate n "="%char else [].

(** [EncodeToString], three bytes at a time. *)
Fixpoint encode (e : encoding) (l : bytes) : bytes :=
  let digit n := sextet_char (en_alphabet e) n in
  match l with
  | [] => []
  | [a] =>
    let n := byte_value a * 65536 in
    digit (n / 262144) :: digit ((n / 4096) `mod` 64) :: padding e 2
  | [a; b] =>
    let n := byte_value a * 65536 + byte_value b * 256 in
    digit (n / 262144) :: digit ((n / 4096) `mod` 64) :: digit ((n / 64) `mod` 64) :: padding e 1
  | a :: b :: c :: l =>
    let n := byte_value a * 65536 + byte_value b * 256 + byte_value c in
    digit (n / 262144) :: digit ((n / 4096) `mod` 64) :: digit ((n / 64) `mod` 64) :: digit (n `mod` 64)
      :: encode e l
  end.

(** The quanta of [DecodeString], over the values of the characters. *)
Fixpoint decode_sextets (strict : bool) (l : list Z) : option bytes :=
  match l with
  | [] => Some []
  | [_] => None
  | [s1; s2] =>
    if strict && (s2 `mod` 16 <>? 0) then None
    else Some [value_byte ((s1 * 64 + s2) / 16)]
  | [s1; s2; s3] =>
    if strict && (s3 `mod` 4 <>? 0) then None
    else let n := s1 * 4096 + s2 * 64 + s3 in
         Some [value_byte (n / 1024); value_byte ((n / 4) `mod` 256)]
  | s1 :: s2 :: s3 :: s4 :: l =>
    let n := s1 * 262144 + s2 * 4096 + s3 * 64 + s4 in
    match decode_sextets strict l with
    | Some out => Some (value_byte (n / 65536) :: value_byte ((n / 256) `mod` 256) :: value_byte (n `mod` 256) :: out)
    | None => None
    end
  end.

(** Carriage returns and line feeds are skipped; padding completes the last
    quantum and nothing follows it. *)
Definition unpad (e : encoding) (l : bytes) : option bytes :=
  if en_padded e then
    if negb (length l mod 4 =? 0)%nat then None
    else if has_prefix (chars "==") (reverse l) then Some (take (length l - 2) l)
    else if has_prefix (chars "=") (reverse l) then Some (take (length l - 1) l)
    else Some l
  else Some l.

Definition DecodeString (e : encoding) (s : bytes) : option bytes :=
  let l := List.filter (λ c, negb ((c =? "010"%char) || (c =? "013"%char))) s in
  l ← unpad e l;
  values ← mapM (char_sextet (en_alphabet e)) l;
  decode_sextets (en_strict e) values.

(** ** hex *)

Definition hex_value (c : ascii) : option Z :=
  let n := byte_value c in
  if (48 <=? n) && (n <=? 57) then Some (n - 48)
  else if (97 <=? n) && (n <=? 102) then Some (n - 87)
  else if (65 <=? n) && (n <=? 70) then Some (n - 55)
  else None.

(** [hex.DecodeString] *)
Fixpoint hex_decode (l : bytes) : option bytes :=
  match l with
  | [] => Some []
  | [_] => None
  | a :: b :: l =>
    x ← hex_value a; y ← hex_value b; out ← hex_decode l; Some (value_byte (x * 16 + y) :: out)
  end.

Definition hex_digit (n : Z) : ascii := default "0"%char (chars "0123456789abcdef" !! Z.to_nat n).

(** [hex.EncodeToString] *)
Definition hex_encode (l : bytes) : bytes :=
  mjoin ((λ c, [hex_digit (byte_value c / 16); hex_digit (byte_value c `mod` 16)]) <$> l).

(** ** Round trips *)

Lemma byte_value_bounds c : 0 ≤ byte_value c < 256.
Proof. unfold byte_value. pose proof (Ascii.N_ascii_bounded c). lia. Qed.

Lemma value_byte_value c : value_byte (byte_value c) = c.
Proof. unfold value_byte, byte_value. by rewrite N2Z.id, Ascii.ascii_N_embedding. Qed.

(** A statement on the numbers below [n] that evaluates to true. *)
Lemma below_all (n : nat) (p : Z → bool) :
  forallb p (Z.of_nat <$> seq 0 n) = true → ∀ x, 0 ≤ x < Z.of_nat n → p x = true.
Proof.
  intros Hall x Hx. rewrite forallb_forall in Hall. apply Hall, list_elem_of_In, list_elem_of_fmap.
  exists (Z.to_nat x). split; [lia|]. apply elem_of_seq. lia.
Qed.

(** An alphabet of 64 characters without line ends or the padding character. *)
Definition good_alphabet (alphabet : bytes) : bool :=
  forallb (λ n, bool_decide (char_sextet alphabet (sextet_char alphabet n) = Some n)
    && negb ((sextet_char alphabet n =? "010"%char) || (sextet_char alphabet n =? "013"%char))
    && (sextet_char alphabet n <>? "="%char)) (Z.of_nat <$> seq 0 64).

Lemma std_alphabet_good : good_alphabet std_alphabet = true.
Proof. vm_compute. reflexivity. Qed.
Lemma url_alphabet_good : good_alphabet url_alphabet = true.
Proof. vm_compute. reflexivity. Qed.

Lemma good_sextet alphabet n :
  good_alphabet alphabet = true → 0 ≤ n < 64 →
  char_sextet alphabet (sextet_char alphabet n) = Some n ∧
  negb ((sextet_char alphabet n =? "010"%char) || (sextet_char alphabet n =? "013"%char)) = true ∧
  sextet_char alphabet n ≠ "="%char.
Proof.
  intros Hg Hn. pose proof (below_all 64 _ Hg n Hn) as H. cbv beta in H. bools.
  repeat split; [done| |done]. apply negb_true_iff. by apply orb_false_iff; split; apply bool_decide_eq_false.
Qed.

(** The values that [encode] writes, before padding. *)
Fixpoint sextets (l : bytes) : list Z :=
  match l with
  | [] => []
  | [a] => let n := byte_value a * 65536 in [n / 262144; (n / 4096) `mod` 64]
  | [a; b] =>
    let n := byte_value a * 65536 + byte_value b * 256 in
    [n / 262144; (n / 4096) `mod` 64; (n / 64) `mod` 64]
  | a :: b :: c :: l =>
    let n := byte_value a * 65536 + byte_value b * 256 + byte_value c in
    n / 262144 :: (n / 4096) `mod` 64 :: (n / 64) `mod` 64 :: n `mod` 64 :: sextets l
  end.

(** Induction by three bytes at a time. *)
Lemma bytes_ind3 (P : bytes → Prop) :
  P [] → (∀ a, P [a]) → (∀ a b, P [a; b]) → (∀ a b c l, P l → P (a :: b :: c :: l)) → ∀ l, P l.
Proof.
  intros H0 H1 H2 H3 l. remember (length l) as n eqn:Hn. revert l Hn.
  induction n as [n IH] using lt_wf_ind. intros [|a [|b [|c l]]] ->; auto.
  apply H3, (IH (length l)); simpl; lia.
Qed.

Lemma sextets_bounds l : Forall (λ n, 0 ≤ n < 64) (sextets l).
Proof.
  induction l as [|a|a b|a b c l IH] using bytes_ind3; cbn [sextets]; [done|..];
    repeat match goal with |- context [byte_value ?x] =>
      match goal with H : 0 ≤ byte_value x < 256 |- _ => fail 1 | _ => pose proof (byte_value_bounds x) end end;
    repeat (apply Forall_cons; split; [Z.to_euclidean_division_equations; lia|]); [done..|exact IH].
Qed.

Lemma decode_encode_sextets strict l : decode_sextets strict (sextets l) = Some l.
Proof.
  induction l as [|a|a b|a b c l IH] using bytes_ind3; cbn [sextets decode_sextets]; [done|..];
    repeat match goal with |- context [byte_value ?x] =>
      match goal with H : 0 ≤ byte_value x < 256 |- _ => fail 1 | _ => pose proof (byte_value_bounds x) end end.
  - set (n := byte_value a * 65536).
    assert (((n / 4096) `mod` 64) `mod` 16 = 0) as -> by (unfold n; Z.to_euclidean_division_equations; lia).
    rewrite andb_false_r. do 2 f_equal. rewrite <-(value_byte_value a). f_equal.
    unfold n. Z.to_euclidean_division_equations. lia.
  - set (n := byte_value a * 65536 + byte_value b * 256).
    assert (((n / 64) `mod` 64) `mod` 4 = 0) as -> by (unfold n; Z.to_euclidean_division_equations; lia).
    rewrite andb_false_r.
    assert (n / 262144 * 4096 + (n / 4096) `mod` 64 * 64 + (n / 64) `mod` 64 = n / 64) as ->
      by (unfold n; Z.to_euclidean_division_equations; lia).
    do 2 f_equal; [|f_equal]; rewrite <-value_byte_value; f_equal;
      unfold n; Z.to_euclidean_division_equations; lia.
  - set (n := byte_value a * 65536 + byte_value b * 256 + byte_value c). rewrite IH.
    assert (n / 262144 * 262144 + (n / 4096) `mod` 64 * 4096 + (n / 64) `mod` 64 * 64 + n `mod` 64 = n) as ->
      by (unfold n; Z.to_euclidean_division_equations; lia).
    do 2 f_equal; [|f_equal; [|f_equal]]; rewrite <-value_byte_value; f_equal;
      unfold n; Z.to_euclidean_division_equations; lia.
Qed.

Lemma length_sextets l : Z.of_nat (length (sextets l)) = (4 * Z.of_nat (length l) + 2) / 3.
Proof.
  induction l as [|a|a b|a b c l IH] using bytes_ind3; cbn [sextets length]; [done..|].
  rewrite !Nat2Z.inj_succ, IH. Z.to_euclidean_division_equations. lia.
Qed.

Lemma encode_raw e l :
  en_padded e = false → encode e l = sextet_char (en_alphabet e) <$> sextets l.
Proof.
  intros Hp. assert (Hpad : ∀ n, padding e n = []) by (intros; unfold padding; by rewrite Hp).
  induction l as [|a|a b|a b c l IH] using bytes_ind3; cbn [encode sextets fmap list_fmap];
    rewrite ?Hpad, ?IH; done.
Qed.

Lemma mapM_char_sextet alphabet l :
  good_alphabet alphabet = true → Forall (λ n, 0 ≤ n < 64) l →
  mapM (char_sextet alphabet) (sextet_char alphabet <$> l) = Some l.
Proof.
  intros Hg Hl. apply mapM_Some, Forall2_fmap_l, Forall_Forall2_diag.
  eapply Forall_impl; [exact Hl|]. intros n Hn. by apply good_sextet.
Qed.

(** Decoding an unpadded encoding gives the bytes back, strictly or not. *)
Lemma decode_encode_raw e l :
  en_padded e = false → good_alphabet (en_alphabet e) = true →
  DecodeString e (encode e l) = Some l.
Proof.
  intros Hp Hg. rewrite encode_raw by done. pose proof (sextets_bounds l) as Hb. unfold DecodeString.
  assert (List.filter (λ c, negb ((c =? "010"%char) || (c =? "013"%char)))
    (sextet_char (en_alphabet e) <$> sextets l) = sextet_char (en_alphabet e) <$> sextets l) as ->.
  { induction Hb as [|n vs Hn _ IH]; [done|]. cbn [fmap list_fmap List.filter].
    destruct (good_sextet _ _ Hg Hn) as (_ & -> & _). by rewrite <-IH at 2. }
  unfold unpad. rewrite Hp. simpl. rewrite mapM_char_sextet by done. apply decode_encode_sextets.
Qed.

(** * What the program uses of Go's crypto/sha256 and crypto/hmac: the digest of
    FIPS 180-4 and the keyed digest of FIPS 198-1, on lists of bytes. *)

(** ** 32-bit words *)

Definition word32 (n : Z) : Z := n mod 2 ^ 32.
Definition rotr (k n : Z) : Z := Z.lor (Z.shiftr n k) (word32 (Z.shiftl n (32 - k))).
Definition not32 (n : Z) : Z := 2 ^ 32 - 1 - n.

Definition sigma0 (n : Z) : Z := Z.lxor (Z.lxor (rotr 7 n) (rotr 18 n)) (Z.shiftr n 3).
Definition sigma1 (n : Z) : Z := Z.lxor (Z.lxor (rotr 17 n) (rotr 19 n)) (Z.shiftr n 10).
Definition Sigma0 (n : Z) : Z := Z.lxor (Z.lxor (rotr 2 n) (rotr 13 n)) (rotr 22 n).
Definition Sigma1 (n : Z) : Z := Z.lxor (Z.lxor (rotr 6 n) (rotr 11 n)) (rotr 25 n).
Definition Ch (x y z : Z) : Z := Z.lxor (Z.land x y) (Z.land (not32 x) z).
Definition Maj (x y z : Z) : Z := Z.lxor (Z.lxor (Z.land x y) (Z.land x z)) (Z.land y z).

(** The first primes, by trial division. *)
Definition is_prime (n : Z) : bool := forallb (λ d, n mod Z.of_nat d <>? 0) (seq 2 (Z.to_nat (n - 2))).
Definition primes_below (n : nat) : list Z := List.filter is_prime (Z.of_nat <$> seq 2 (n - 2)).

(** The integer cube root, bit by bit from bit [k - 1]. *)
Fixpoint cube_root (k : nat) (n x : Z) : Z :=
  match k with
  | O => x
  | S k => let y := x + 2 ^ Z.of_nat k in cube_root k n (if y ^ 3 <=? n then y else x)
  end.

(** The first 32 bits of the fractions of the cube roots of the first 64 primes, and
    of the square roots of the first eight. *)
Definition round_constants : list Z :=
  Eval vm_compute in (λ p, word32 (cube_root 40 (p * 2 ^ 96) 0)) <$> primes_below 312.
Definition initial_hash : list Z := Eval vm_compute in (λ p, word32 (Z.sqrt (p * 2 ^ 64))) <$> primes_below 20.

(** The words of a block, most significant byte first. *)
Fixpoint words (l : bytes) : list Z :=
  match l with
  | a :: b :: c :: d :: l =>
    (byte_value a * 2 ^ 24 + byte_value b * 2 ^ 16 + byte_value c * 2 ^ 8 + byte_value d) :: words l
  | _ => []
  end.

Definition word_bytes (n : Z) : bytes :=
  [value_byte (n / 2 ^ 24); value_byte ((n / 2 ^ 16) `mod` 256); value_byte ((n / 2 ^ 8) `mod` 256);
   value_byte (n `mod` 256)].

(** One round for each word of the schedule: the last sixteen words are kept, the
    first of them is used and the next one is appended. *)
Fixpoint rounds (constants window : list Z) (s : list Z) : list Z :=
  match constants, window, s with
  | k :: constants, w :: rest, [a; b; c; d; e; f; g; h] =>
    let t1 := word32 (h + Sigma1 e + Ch e f g + k + w) in
    let t2 := word32 (Sigma0 a + Maj a b c) in
    let next := word32 (sigma1 (nth 13 rest 0) + nth 8 rest 0 + sigma0 (nth 0 rest 0) + w) in
    rounds constants (rest ++ [next]) [word32 (t1 + t2); a; b; c; word32 (d + t1); e; f; g]
  | _, _, _ => s
  end.

Definition compress (h : list Z) (block : bytes) : list Z :=
  zip_with (λ a b, word32 (a + b)) h (rounds round_constants (words block) h).

(** The blocks of a padded message. *)
Fixpoint digest_blocks (count : nat) (h : list Z) (l : bytes) : list Z :=
  match count with
  | O => h
  | S count => digest_blocks count (compress h (take 64 l)) (drop 64 l)
  end.

(** A one bit, zeros, and the length in bits as 64 bits. *)
Definition pad (l : bytes) : bytes :=
  let n := Z.of_nat (length l) in
  l ++ value_byte 128 :: replicate (Z.to_nat ((55 - n) mod 64)) (value_byte 0)
    ++ word_bytes (word32 (n * 8 / 2 ^ 32)) ++ word_bytes (word32 (n * 8)).

(** [sha256.Sum256] *)
Definition Sum256 (l : bytes) : bytes :=
  let p := pad l in mjoin (word_bytes <$> digest_blocks (length p / 64) initial_hash p).

(** A key longer than a block is replaced by its digest. *)
Definition hmac_key (key : bytes) : bytes :=
  let key := if (64 <? length key)%nat then Sum256 key else key in
  key ++ replicate (64 - length key) (value_byte 0).
Definition xor_bytes (c : Z) (l : bytes) : bytes := (λ b, value_byte (Z.lxor (byte_value b) c)) <$> l.

(** [hmac.New(sha256.New, key)] applied to a message. *)
Definition hmac (key message : bytes) : bytes :=
  let k := hmac_key key in Sum256 (xor_bytes 92 k ++ Sum256 (xor_bytes 54 k ++ message)).

(** ** Test vectors *)

Example sum256_abc :
  of_chars (hex_encode (Sum256 (chars "abc")))
  = "ba7816bf8f01cfea414140de5dae2223b00361a396177a9cb410ff61f20015ad"%string.
Proof. vm_compute. reflexivity. Qed.

Example sum256_two_blocks :
  of_chars (hex_encode (Sum256 (chars "abcdbcdecdefdefgefghfghighijhijkijkljklmklmnlmnomnopnopq")))
  = "248d6a61d20638b8e5c026930c3e6039a33ce45964ff2167f6ecedd419db06c1"%string.
Proof. vm_compute. reflexivity. Qed.

Example hmac_jefe :
  of_chars (hex_encode (hmac (chars "Jefe") (chars "what do ya want for nothing?")))
  = "5bdcc146bf60754e6a042426089575c75a003f089d2739839dec58b964ec3843"%string.
Proof. vm_compute. reflexivity. Qed.

(** ** The digest has 32 bytes *)

Lemma length_rounds k w s : length (rounds k w s) = length s.
Proof.
  revert w s. induction k as [|c k IH]; intros [|x w] s; try done.
  do 8 (destruct s as [|? s]; [done|]). destruct s; [|done]. cbn [rounds]. by rewrite IH.
Qed.

Lemma length_compress h l : length (compress h l) = length h.
Proof. unfold compress. rewrite length_zip_with, length_rounds. lia. Qed.

Lemma length_digest_blocks n h l : length (digest_blocks n h l) = length h.
Proof. revert h l. induction n as [|n IH]; intros h l; simpl; [done|]. by rewrite IH, length_compress. Qed.

Lemma length_Sum256 l : length (Sum256 l) = 32%nat.
Proof.
  assert (∀ ws : list Z, length (mjoin (word_bytes <$> ws)) = 4 * length ws)%nat as Hsum.
  { intros ws. induction ws as [|w ws IH]; [done|]. rewrite fmap_cons, mjoin_cons, length_app, IH. simpl. lia. }
  unfold Sum256. by rewrite Hsum, length_digest_blocks.
Qed.

Lemma length_hmac key message : length (hmac key message) = 32%nat.
Proof. apply length_Sum256. Qed.

Lemma length_hex_encode l : length (hex_encode l) = (2 * length l)%nat.
Proof.
  unfold hex_encode. induction l as [|c l IH]; [done|]. rewrite fmap_cons, mjoin_cons, length_app, IH. simpl. lia.
Qed.

Lemma hex_value_digit n : 0 ≤ n < 16 → hex_value (hex_digit n) = Some n.
Proof.
  intros Hn.
  pose proof (below_all 16 (λ n, bool_decide (hex_value (hex_digit n) = Some n)) eq_refl n Hn) as H.
  by apply bool_decide_eq_true in H.
Qed.

Lemma hex_decode_encode l : hex_decode (hex_encode l) = Some l.
Proof.
  unfold hex_encode. induction l as [|c l IH]; [done|].
  rewrite fmap_cons, mjoin_cons. cbn [app hex_decode].
  pose proof (byte_value_bounds c) as Hc.
  rewrite !hex_value_digit by (split; [try apply Z.div_pos|try apply Z.div_lt_upper_bound]; try apply Z.mod_pos_bound; lia).
  simpl. rewrite IH. simpl. do 2 f_equal. rewrite <- (value_byte_value c). f_equal.
  rewrite (value_byte_value c). pose proof (Z.div_mod (byte_value c) 16). lia.
Qed.
