(* ===== verification/Database.v ===== *)
(** internal/store/postgres: the tables that the run store reads and writes
    (db/migrations), as typed rows, and the forms of SQL statement that it uses.

    A table is a list of rows in insertion order or a map from its primary key.
    [jsonb] columns hold the value that was encoded.  A transaction is atomic: the
    store locks the rows that it changes, and rows locked by other transactions
    appear only as arguments of the statements that skip them.  [clock_timestamp()]
    and [now()] read [db_now], which advances between transactions. *)

From S2P Require Import Prelude GoStd RunModel Pipeline Authorization.

(** ** Rows *)

Record jobRow := mkJobRow {
  jr_id : uuid;
  jr_run_id : uuid;
  jr_runner_id : option uuid;
  jr_stage_name : string;
  jr_job_name : string;
  jr_job_key : string;
  jr_dependencies : list string;
  jr_spec : PlanJob;
  jr_status : JobStatus;
  jr_attempt : Z;
  jr_lease_token_hash : option string;
  jr_lease_expires_at : option time;
  jr_created_at : time;
  jr_started_at : option time;
  jr_finished_at : option time;
  jr_accepted_at : option time;
  jr_lease_renewed_at : option time;
  jr_failure_reason : option string;
  jr_required_pool_type : string;
  jr_reused_from : option uuid;
}.

(** A runner joined with its pool; an empty text stands for NULL. *)
Record runnerRow := mkRunnerRow {
  ru_pool_type : string;
  ru_status : string;
  ru_os : string;
  ru_architecture : string;
  ru_executor : string;
  ru_labels : gmap string string;
  ru_capacity : Z;
  ru_available_disk_bytes : option Z;
  ru_protocol_version : Z;
  ru_last_seen_at : option time;
}.

Record repositoryRow := mkRepositoryRow {
  rp_organization_id : uuid;
  rp_provider : string;
  rp_external_id : string;
  rp_clone_url : string;
  rp_active : bool;
}.

Record outboxRow := mkOutboxRow {
  ob_id : uuid;
  ob_repository_id : uuid;
  ob_run_id : uuid;
  ob_provider : string;
  ob_commit_sha : string;
  ob_state : string;
  ob_description : string;
  ob_key : string;
  ob_delivery_state : string;
  ob_attempt_count : Z;
  ob_available_at : time;
  ob_expires_at : time;
  ob_lease : option (uuid * time);   (** lease_owner and lease_expires_at *)
  ob_last_error_code : option string;
  ob_delivered_at : option time;
  ob_created_at : time;
}.

Record auditRow := mkAuditRow {
  au_actor : option uuid;
  au_action : string;
  au_resource_type : string;
  au_resource_id : uuid;
}.

Record sessionRow := mkSessionRow {
  se_id : uuid;
  se_user_id : uuid;
  se_token_hash : string;
  se_expires_at : time;
  se_revoked : bool;
}.

Record membershipRow := mkMembershipRow {
  me_id : uuid;
  me_user_id : uuid;
  me_role : string;
  me_scope : Scope;
}.

Record streamRow := mkStreamRow {
  st_next_sequence : Z;
  st_total_bytes : Z;
  st_truncated : bool;
  st_expires_at : time;
}.

Record chunkRow := mkChunkRow {
  ck_step_index : Z;
  ck_stream : string;
  ck_data : bytes;
  ck_truncated : bool;
}.
#[export] Instance chunkRow_eq_dec : EqDecision chunkRow.
Proof. solve_decision. Defined.

Record userRow := mkUserRow {
  us_display_name : string;
  us_active : bool;   (** status = 'active' *)
}.

(** Accounts, projects and what they may do. *)
Record directory := mkDirectory {
  di_instance : uuid;
  di_organizations : gset uuid;
  di_repositories : gmap uuid repositoryRow;
  di_environments : gmap uuid (uuid * bool);   (** repository and protection *)
  di_users : gmap uuid userRow;
  di_sessions : list sessionRow;
  di_memberships : list membershipRow;
}.

Record database := mkDatabase {
  db_runs : list RunRecord;
  db_reruns : gmap uuid (uuid * string);       (** runs.rerun_of and rerun_mode *)
  db_jobs : list jobRow;
  db_runners : gmap uuid runnerRow;
  db_outbox : list outboxRow;
  db_audit : list auditRow;
  db_streams : gmap uuid streamRow;
  db_chunks : gmap uuid (gmap Z chunkRow);     (** by job and sequence *)
  db_directory : directory;
  db_now : time;
}.

Definition with_runs (x : list RunRecord) (d : database) : database :=
  mkDatabase x (db_reruns d) (db_jobs d) (db_runners d) (db_outbox d) (db_audit d) (db_streams d)
    (db_chunks d) (db_directory d) (db_now d).
Definition with_reruns (x : gmap uuid (uuid * string)) (d : database) : database :=
  mkDatabase (db_runs d) x (db_jobs d) (db_runners d) (db_outbox d) (db_audit d) (db_streams d)
    (db_chunks d) (db_directory d) (db_now d).
Definition with_jobs (x : list jobRow) (d : database) : database :=
  mkDatabase (db_runs d) (db_reruns d) x (db_runners d) (db_outbox d) (db_audit d) (db_streams d)
    (db_chunks d) (db_directory d) (db_now d).
Definition with_runners (x : gmap uuid runnerRow) (d : database) : database :=
  mkDatabase (db_runs d) (db_reruns d) (db_jobs d) x (db_outbox d) (db_audit d) (db_streams d)
    (db_chunks d) (db_directory d) (db_now d).
Definition with_outbox (x : list outboxRow) (d : database) : database :=
  mkDatabase (db_runs d) (db_reruns d) (db_jobs d) (db_runners d) x (db_audit d) (db_streams d)
    (db_chunks d) (db_directory d) (db_now d).
Definition with_audit (x : list auditRow) (d : database) : database :=
  mkDatabase (db_runs d) (db_reruns d) (db_jobs d) (db_runners d) (db_outbox d) x (db_streams d)
    (db_chunks d) (db_directory d) (db_now d).
Definition with_logs (s : gmap uuid streamRow) (c : gmap uuid (gmap Z chunkRow)) (d : database) : database :=
  mkDatabase (db_runs d) (db_reruns d) (db_jobs d) (db_runners d) (db_outbox d) (db_audit d) s
    c (db_directory d) (db_now d).

Definition with_directory (x : directory) (d : database) : database :=
  mkDatabase (db_runs d) (db_reruns d) (db_jobs d) (db_runners d) (db_outbox d) (db_audit d) (db_streams d)
    (db_chunks d) x (db_now d).

(** Time that passes inside a transaction, such as a wait for a lock. *)
Definition elapse (waited : duration) (d : database) : database :=
  mkDatabase (db_runs d) (db_reruns d) (db_jobs d) (db_runners d) (db_outbox d) (db_audit d) (db_streams d)
    (db_chunks d) (db_directory d) (db_now d + waited).

Definition with_sessions (x : list sessionRow) (d : database) : database :=
  let di := db_directory d in
  with_directory (mkDirectory (di_instance di) (di_organizations di) (di_repositories di) (di_environments di)
    (di_users di) x (di_memberships di)) d.
Definition with_memberships (x : list membershipRow) (d : database) : database :=
  let di := db_directory d in
  with_directory (mkDirectory (di_instance di) (di_organizations di) (di_repositories di) (di_environments di)
    (di_users di) (di_sessions di) x) d.

(** [appendAudit] of identity.go and [appendRunnerAudit] of runner_identity.go; the
    metadata of an event is left out. *)
Definition append_audit (actor : option uuid) (action resource : string) (id : uuid) (d : database) : database :=
  with_audit (db_audit d ++ [mkAuditRow actor action resource id]) d.

(** ** Updates of single columns of [jobs] *)

Definition jr_set_status (st : JobStatus) (j : jobRow) : jobRow :=
  mkJobRow (jr_id j) (jr_run_id j) (jr_runner_id j) (jr_stage_name j) (jr_job_name j) (jr_job_key j)
    (jr_dependencies j) (jr_spec j) st (jr_attempt j) (jr_lease_token_hash j) (jr_lease_expires_at j)
    (jr_created_at j) (jr_started_at j) (jr_finished_at j) (jr_accepted_at j) (jr_lease_renewed_at j)
    (jr_failure_reason j) (jr_required_pool_type j) (jr_reused_from j).
Definition jr_set_runner (r : option uuid) (j : jobRow) : jobRow :=
  mkJobRow (jr_id j) (jr_run_id j) r (jr_stage_name j) (jr_job_name j) (jr_job_key j)
    (jr_dependencies j) (jr_spec j) (jr_status j) (jr_attempt j) (jr_lease_token_hash j) (jr_lease_expires_at j)
    (jr_created_at j) (jr_started_at j) (jr_finished_at j) (jr_accepted_at j) (jr_lease_renewed_at j)
    (jr_failure_reason j) (jr_required_pool_type j) (jr_reused_from j).
Definition jr_set_lease (hash : option string) (expires : option time) (j : jobRow) : jobRow :=
  mkJobRow (jr_id j) (jr_run_id j) (jr_runner_id j) (jr_stage_name j) (jr_job_name j) (jr_job_key j)
    (jr_dependencies j) (jr_spec j) (jr_status j) (jr_attempt j) hash expires
    (jr_created_at j) (jr_started_at j) (jr_finished_at j) (jr_accepted_at j) (jr_lease_renewed_at j)
    (jr_failure_reason j) (jr_required_pool_type j) (jr_reused_from j).
Definition jr_set_started (t : option time) (j : jobRow) : jobRow :=
  mkJobRow (jr_id j) (jr_run_id j) (jr_runner_id j) (jr_stage_name j) (jr_job_name j) (jr_job_key j)
    (jr_dependencies j) (jr_spec j) (jr_status j) (jr_attempt j) (jr_lease_token_hash j) (jr_lease_expires_at j)
    (jr_created_at j) t (jr_finished_at j) (jr_accepted_at j) (jr_lease_renewed_at j)
    (jr_failure_reason j) (jr_required_pool_type j) (jr_reused_from j).
Definition jr_set_finished (t : option time) (j : jobRow) : jobRow :=
  mkJobRow (jr_id j) (jr_run_id j) (jr_runner_id j) (jr_stage_name j) (jr_job_name j) (jr_job_key j)
    (jr_dependencies j) (jr_spec j) (jr_status j) (jr_attempt j) (jr_lease_token_hash j) (jr_lease_expires_at j)
    (jr_created_at j) (jr_started_at j) t (jr_accepted_at j) (jr_lease_renewed_at j)
    (jr_failure_reason j) (jr_required_pool_type j) (jr_reused_from j).
Definition jr_set_accepted (t : option time) (j : jobRow) : jobRow :=
  mkJobRow (jr_id j) (jr_run_id j) (jr_runner_id j) (jr_stage_name j) (jr_job_name j) (jr_job_key j)
    (jr_dependencies j) (jr_spec j) (jr_status j) (jr_attempt j) (jr_lease_token_hash j) (jr_lease_expires_at j)
    (jr_created_at j) (jr_started_at j) (jr_finished_at j) t (jr_lease_renewed_at j)
    (jr_failure_reason j) (jr_required_pool_type j) (jr_reused_from j).
Definition jr_set_renewed (t : option time) (j : jobRow) : jobRow :=
  mkJobRow (jr_id j) (jr_run_id j) (jr_runner_id j) (jr_stage_name j) (jr_job_name j) (jr_job_key j)
    (jr_dependencies j) (jr_spec j) (jr_status j) (jr_attempt j) (jr_lease_token_hash j) (jr_lease_expires_at j)
    (jr_created_at j) (jr_started_at j) (jr_finished_at j) (jr_accepted_at j) t
    (jr_failure_reason j) (jr_required_pool_type j) (jr_reused_from j).
Definition jr_set_failure (r : option string) (j : jobRow) : jobRow :=
  mkJobRow (jr_id j) (jr_run_id j) (jr_runner_id j) (jr_stage_name j) (jr_job_name j) (jr_job_key j)
    (jr_dependencies j) (jr_spec j) (jr_status j) (jr_attempt j) (jr_lease_token_hash j) (jr_lease_expires_at j)
    (jr_created_at j) (jr_started_at j) (jr_finished_at j) (jr_accepted_at j) (jr_lease_renewed_at j)
    r (jr_required_pool_type j) (jr_reused_from j).
Definition jr_set_reused (r : option uuid) (j : jobRow) : jobRow :=
  mkJobRow (jr_id j) (jr_run_id j) (jr_runner_id j) (jr_stage_name j) (jr_job_name j) (jr_job_key j)
    (jr_dependencies j) (jr_spec j) (jr_status j) (jr_attempt j) (jr_lease_token_hash j) (jr_lease_expires_at j)
    (jr_created_at j) (jr_started_at j) (jr_finished_at j) (jr_accepted_at j) (jr_lease_renewed_at j)
    (jr_failure_reason j) (jr_required_pool_type j) r.

(** ** Statements *)

(** [ORDER BY ... LIMIT 1]: a least row, the first of equal ones. *)
Fixpoint least_row {A} (lt : A → A → bool) (l : list A) : option A :=
  match l with
  | [] => None
  | x :: l =>
    match least_row lt l with
    | Some y => if lt y x then Some y else Some x
    | None => Some x
    end
  end.

(** [ORDER BY created_at, id] *)
Definition before (c1 : time) (i1 : uuid) (c2 : time) (i2 : uuid) : bool :=
  (c1 <? c2) || ((c1 =? c2) && (i1 <? i2)%N).

(** [UPDATE jobs SET f WHERE p]: the new table and the number of rows. *)
Definition update_jobs (p : jobRow → bool) (f : jobRow → jobRow) (d : database) : database * Z :=
  (with_jobs (update_all p f (db_jobs d)) d, Z.of_nat (length (List.filter p (db_jobs d)))).

Definition update_runs (p : RunRecord → bool) (f : RunRecord → RunRecord) (d : database) : database :=
  with_runs (update_all p f (db_runs d)) d.

(** [COALESCE(t, now)] *)
Definition coalesce (t : option time) (now : time) : option time := Some (default now t).

(** A transaction: its effects are kept only when it returns no error. *)
Definition transaction {A} (body : database → result RunError (database * A)) (d : database)
    : database * result RunError A :=
  match body d with
  | Ok (d', a) => (d', Ok a)
  | Err e => (d, Err e)
  end.

Lemma least_row_elem {A} (lt : A → A → bool) l x : least_row lt l = Some x → x ∈ l.
Proof.
  revert x. induction l as [|y l IH]; intros x; simpl; [done|].
  destruct (least_row lt l) as [z|].
  - destruct (lt z y); intros [= ->]; [right; by apply IH|left].
  - intros [= ->]. left.
Qed.

Lemma least_row_None {A} (lt : A → A → bool) l : least_row lt l = None → l = [].
Proof. destruct l as [|y l]; [done|]. simpl. destruct (least_row lt l); [|done]. by destruct (lt _ _). Qed.
