(* ===== verification/PgStore.v ===== *)
(** internal/store/postgres: the run store (store.go, runner_jobs.go,
    runner_recovery.go) and the part of the commit status outbox that it writes
    (commit_status.go).  Every function is one transaction or one statement. *)

From S2P Require Import Prelude GoStd Regex RunModel Pipeline MemoryStore Database.

Section PgStore.
(** crypto/sha256, [uuid.UUID.String] and the JSON decoder of plans. *)
Variable sha256 : string → string.
Variable uuid_String : uuid → string.
Variable json_unmarshal : string → option Plan.

(** ** commit_status.go: [enqueueCommitStatusForRun] *)

(** The state, the suffix of the key and the description for a run status. *)
Definition commit_state (status : Status) : string * string * string :=
  match status with
  | StatusSucceeded => ("success", "final", "Run succeeded")
  | StatusFailed => ("failure", "final", "Run failed")
  | StatusCanceled => ("error", "final", "Run canceled")
  | _ => ("pending", "pending", "Run queued")
  end.

Definition status_key (runID : uuid) (suffix : string) : string :=
  "run:" +:+ uuid_String runID +:+ ":" +:+ suffix.

(** [CHECK (commit_sha ~ '^[0-9a-f]{40}$')] (migration 14), for a text of 40 bytes. *)
Definition sha_allowed (sha : string) : bool :=
  forallb (λ c, is_digit c || in_range "a" "f" c) (chars sha).

Definition enqueueCommitStatusForRun (outbox_id : uuid) (runID : uuid) (status : Status) (d : database)
    : result RunError database :=
  if (status <>? StatusQueued) && negb (Terminal status) then Ok d
  else match list_find (λ r, rn_ID r = runID) (db_runs d) with
  | None => Ok d
  | Some (_, run) =>
    match rn_ProjectID run with
    | None => Ok d
    | Some repositoryID =>
      match di_repositories (db_directory d) !! repositoryID with
      | None => Ok d
      | Some repository =>
        if len (rn_CommitSHA run) <>? 40 then Ok d
        else if negb (sha_allowed (rn_CommitSHA run)) then Err ErrDatabase
        else
          let '(state, suffix, description) := commit_state status in
          let key := status_key runID suffix in
          match list_find (λ o, ob_key o = key) (db_outbox d) with
          | None =>
            Ok (with_outbox (db_outbox d ++
              [mkOutboxRow outbox_id repositoryID runID (rp_provider repository) (rn_CommitSHA run) state
                 description key "queued" 0 (db_now d) (db_now d + 24 * Hour) None None None (db_now d)]) d)
          | Some (_, existing) =>
            if (ob_run_id existing <>? runID) || (ob_state existing <>? state) then Err ErrStatusInvalid else Ok d
          end
      end
    end
  end.

(** ** store.go *)

Definition new_row (now : time) (runID id : uuid) (sj : gmap string (list string)) (stage : PlanStage)
    (job : PlanJob) : jobRow :=
  let dependencies := job_dependencies sj stage job in
  {| jr_id := id; jr_run_id := runID; jr_runner_id := None; jr_stage_name := ps_Name stage;
     jr_job_name := pj_Name job; jr_job_key := ps_Name stage +:+ "/" +:+ pj_Name job;
     jr_dependencies := dependencies; jr_spec := job;
     jr_status := if (length dependencies =? 0)%nat then JobQueued else JobBlocked;
     jr_attempt := 1; jr_lease_token_hash := None; jr_lease_expires_at := None; jr_created_at := now;
     jr_started_at := None; jr_finished_at := None; jr_accepted_at := None; jr_lease_renewed_at := None;
     jr_failure_reason := None; jr_required_pool_type := "standard"; jr_reused_from := None |}.

Definition plan_rows (now : time) (runID : uuid) (ids : nat → uuid) (stages : list PlanStage) : list jobRow :=
  imap (λ i '(stage, job), new_row now runID (ids i) (stage_keys stages) stage job)
    (stage_job_pairs stages).

(** The constraints on a row of [jobs] that the plan decides (migration 8). *)
Definition row_allowed (j : jobRow) : bool :=
  let r := pj_RunsOn (jr_spec j) in
  (1 <=? len (rr_OS r)) && (len (rr_OS r) <=? 64) && (len (rr_Architecture r) <=? 64)
  && (1 <=? len (rr_Executor r)) && (len (rr_Executor r) <=? 64)
  && (0 <=? pj_RequiredDiskBytes (jr_spec j)).

Definition insertRun (outbox_id : uuid) (ids : nat → uuid) (record : RunRecord) (d : database)
    : result RunError database :=
  if bool_decide (rn_ID record ∈ rn_ID <$> db_runs d)
     || ((rn_IdempotencyKey record <>? "")
         && bool_decide (rn_IdempotencyKey record ∈ rn_IdempotencyKey <$> db_runs d))
     || match rn_ProjectID record with
        | Some p => bool_decide (di_repositories (db_directory d) !! p = None)
        | None => false
        end
  then Err ErrDatabase
  else
    let d := with_runs (db_runs d ++ [record]) d in
    match json_unmarshal (rn_Plan record) with
    | None => Err ErrDecodePlan
    | Some plan =>
      let rows := plan_rows (db_now d) (rn_ID record) ids (pn_Stages plan) in
      if negb (forallb row_allowed rows) || negb (bool_decide (NoDup (jr_job_key <$> rows)))
         || negb (bool_decide (NoDup (jr_id <$> db_jobs d ++ rows)))
      then Err ErrDatabase
      else enqueueCommitStatusForRun outbox_id (rn_ID record) (rn_Status record)
             (with_jobs (db_jobs d ++ rows) d)
    end.

Definition PgCreate (outbox_id : uuid) (ids : nat → uuid) (record : RunRecord)
    : database → database * result RunError RunRecord :=
  transaction (λ d, let? d := insertRun outbox_id ids record d in Ok (d, record)).

(** [a] is not older than [b]. *)
Definition run_newer (a b : RunRecord) : Prop :=
  before (rn_CreatedAt a) (rn_ID a) (rn_CreatedAt b) (rn_ID b) = false.
#[local] Instance run_newer_dec : RelDecision run_newer.
Proof. intros a b. unfold run_newer. apply _. Defined.

(** [ORDER BY created_at DESC, id DESC] *)
Definition newest_first (runs : list RunRecord) : list RunRecord := merge_sort run_newer runs.

(** [scanRuns]: [runColumns] leaves out the version of the pipeline and the
    idempotency key. *)
Definition scan_run (r : RunRecord) : RunRecord :=
  mkRun (rn_ID r) (rn_ProjectID r) (rn_CreatedBy r) None "" (rn_PipelineName r) (rn_Event r) (rn_Ref r)
    (rn_CommitSHA r) (rn_Status r) (rn_ConfigSHA256 r) (rn_Plan r) (rn_CreatedAt r) (rn_StartedAt r)
    (rn_FinishedAt r).

Definition PgList (limit : Z) (d : database) : list RunRecord :=
  let limit := if (limit <=? 0) || (200 <? limit) then 50 else limit in
  scan_run <$> take (Z.to_nat limit) (newest_first (db_runs d)).

Definition claimable (r : RunRecord) : bool :=
  (rn_Status r =? StatusQueued) || (rn_Status r =? StatusRunning).

Definition run_before (a b : RunRecord) : bool := before (rn_CreatedAt a) (rn_ID a) (rn_CreatedAt b) (rn_ID b).
Definition job_before (a b : jobRow) : bool := before (jr_created_at a) (jr_id a) (jr_created_at b) (jr_id b).

(** The oldest claimable run with a wanted job, and its first wanted job, among
    the rows that no other transaction has locked. *)
Definition pick_run (locked : uuid → bool) (wanted : RunRecord → jobRow → bool) (d : database)
    : option RunRecord :=
  least_row run_before (List.filter (λ r, claimable r
    && existsb (λ j, (jr_run_id j =? rn_ID r) && (jr_status j =? JobQueued) && wanted r j) (db_jobs d)
    && negb (locked (rn_ID r))) (db_runs d)).
Definition pick_job (locked : uuid → bool) (wanted : RunRecord → jobRow → bool) (run : RunRecord)
    (d : database) : option jobRow :=
  least_row job_before (List.filter (λ j, (jr_run_id j =? rn_ID run) && (jr_status j =? JobQueued)
    && wanted run j && negb (locked (jr_id j))) (db_jobs d)).

(** [UPDATE runs SET status='running', started_at=COALESCE(...) WHERE id=$1 AND status='queued'] *)
Definition start_run (runID : uuid) (d : database) : database :=
  update_runs (λ r, (rn_ID r =? runID) && (rn_Status r =? StatusQueued))
    (λ r, with_status StatusRunning (with_started (coalesce (rn_StartedAt r) (db_now d)) r)) d.

Definition assignment_of (j : jobRow) (token : string) (expires : time) (source : option SourceCheckout)
    : Assignment :=
  mkAssignment (jr_id j) (jr_run_id j) (jr_stage_name j) (jr_job_name j) (jr_attempt j) token expires
    (jr_spec j) source.

(** [ClaimJob]; [app_now] is the clock of the server process. *)
Definition PgClaimJob (locked : uuid → bool) (token : string) (app_now : time)
    : database → database * result RunError (option Assignment) :=
  transaction (λ d,
    match pick_run locked (λ _ _, true) d with
    | None => Ok (d, None)
    | Some run =>
      match pick_job locked (λ _ _, true) run d with
      | None => Ok (d, None)
      | Some job =>
        let leaseDuration := pj_Timeout (jr_spec job) + 5 * Minute in
        let leaseDuration := if leaseDuration <? 10 * Minute then 10 * Minute else leaseDuration in
        let expires := app_now + leaseDuration in
        let '(d, n) := update_jobs (λ j, (jr_id j =? jr_id job) && (jr_status j =? JobQueued))
          (λ j, jr_set_lease (Some (sha256 token)) (Some expires) (jr_set_status JobAssigned j)) d in
        if n <>? 1 then Err ErrLeaseInvalid
        else Ok (start_run (rn_ID run) d, Some (assignment_of job token expires None))
      end
    end).

(** [lease_token_hash=$ AND lease_expires_at > clock_timestamp()] *)
Definition lease_matches (now : time) (token : string) (j : jobRow) : bool :=
  bool_decide (jr_lease_token_hash j = Some (sha256 token))
  && match jr_lease_expires_at j with Some t => now <? t | None => false end.

Definition PgStartJob (id : uuid) (token : string)
    : database → database * result RunError unit :=
  transaction (λ d,
    let '(d', n) := update_jobs (λ j, (jr_id j =? id) && (jr_status j =? JobAssigned)
        && lease_matches (db_now d) token j)
      (λ j, jr_set_started (coalesce (jr_started_at j) (db_now d)) (jr_set_status JobRunning j)) d in
    if n <>? 1 then Err ErrLeaseInvalid else Ok (d', tt)).

(** The blocked jobs of the run whose dependencies have all succeeded are queued. *)
Definition row_succeeded (jobs : list jobRow) (runID : uuid) (key : string) : bool :=
  existsb (λ j, (jr_run_id j =? runID) && (jr_job_key j =? key) && (jr_status j =? JobSucceeded)) jobs.

Definition unblock_jobs (runID : uuid) (d : database) : database :=
  (update_jobs (λ j, (jr_run_id j =? runID) && (jr_status j =? JobBlocked)
      && negb (existsb (λ dependency, negb (row_succeeded (db_jobs d) (jr_run_id j) dependency))
                 (jr_dependencies j)))
    (jr_set_status JobQueued) d).1.

Definition skip_jobs (runID : uuid) (d : database) : database :=
  (update_jobs (λ j, (jr_run_id j =? runID) && ((jr_status j =? JobBlocked) || (jr_status j =? JobQueued)))
    (λ j, jr_set_finished (Some (db_now d)) (jr_set_status JobSkipped j)) d).1.

Definition count_jobs (p : jobRow → bool) (d : database) : Z := Z.of_nat (length (List.filter p (db_jobs d))).

(** [finalizeRunJobs] of runner_jobs.go; [CompleteJob] has the same statements inline. *)
Definition finalizeRunJobs (outbox_id : uuid) (runID : uuid) (status : JobStatus) (d : database)
    : result RunError database :=
  let d := if status =? JobSucceeded then unblock_jobs runID d
           else if (status =? JobFailed) || (status =? JobCanceled) then skip_jobs runID d else d in
  let remaining := count_jobs (λ j, (jr_run_id j =? runID) && job_open (jr_status j)) d in
  let failed := count_jobs (λ j, (jr_run_id j =? runID) && (jr_status j =? JobFailed)) d in
  let canceled := count_jobs (λ j, (jr_run_id j =? runID) && (jr_status j =? JobCanceled)) d in
  if remaining <>? 0 then Ok d
  else
    let finalStatus := if 0 <? failed then StatusFailed
                       else if 0 <? canceled then StatusCanceled else StatusSucceeded in
    enqueueCommitStatusForRun outbox_id runID finalStatus
      (update_runs (λ r, rn_ID r =? runID)
         (λ r, with_finished (Some (db_now d)) (with_status finalStatus r)) d).

(** The row that a completion updates and the update itself. *)
Definition complete_row (p : jobRow → bool) (status : JobStatus) (d : database) : database * Z :=
  update_jobs p (λ j, jr_set_lease None None (jr_set_finished (Some (db_now d)) (jr_set_status status j))) d.

Definition PgCompleteJob (outbox_id : uuid) (id : uuid) (token : string) (status : JobStatus)
    : database → database * result RunError unit :=
  if negb (job_outcome status) then λ d, (d, Err ErrInvalidTerminalStatus)
  else transaction (λ d,
    match list_find (λ j, jr_id j = id) (db_jobs d) with
    | None => Err ErrLeaseInvalid
    | Some (_, job) =>
      let '(d', n) := complete_row (λ j, (jr_id j =? id) && job_leased (jr_status j)
        && lease_matches (db_now d) token j) status d in
      if n =? 0 then Err ErrLeaseInvalid
      else let? d' := finalizeRunJobs outbox_id (jr_run_id job) status d' in Ok (d', tt)
    end).

(** ** runner_jobs.go *)

(** [required_labels <@ labels] *)
Definition labels_contained (required labels : gmap string string) : bool :=
  bool_decide (map_Forall (λ key value, labels !! key = Some value) required).

Definition job_fits (ru : runnerRow) (run : RunRecord) (j : jobRow) : bool :=
  let r := pj_RunsOn (jr_spec j) in
  (jr_required_pool_type j =? ru_pool_type ru) && (rr_OS r =? ru_os ru)
  && ((rr_Architecture r =? "") || (rr_Architecture r =? ru_architecture ru))
  && (rr_Executor r =? ru_executor ru)
  && labels_contained (labels_of r) (ru_labels ru)
  && (pj_RequiredDiskBytes (jr_spec j) <=? default 0 (ru_available_disk_bytes ru))
  && ((2 <=? ru_protocol_version ru) || (rn_ProjectID run =? None) || (rn_CommitSHA run =? "")).

(** The source of a run: the joined repository and the commit, all or nothing. *)
Definition source_of (run : RunRecord) (d : database) : result RunError (option SourceCheckout) :=
  let repository := p ← rn_ProjectID run; (p,.) <$> di_repositories (db_directory d) !! p in
  match repository with
  | None => if rn_CommitSHA run =? "" then Ok None else Err ErrIncompleteSource
  | Some (p, repository) =>
    if rn_CommitSHA run =? "" then Err ErrIncompleteSource
    else Ok (Some (mkSource p (rp_provider repository) (rp_external_id repository)
                     (rp_clone_url repository) (rn_CommitSHA run)))
  end.

Definition held_by (runnerID : uuid) (now : time) (j : jobRow) : bool :=
  bool_decide (jr_runner_id j = Some runnerID) && job_leased (jr_status j)
  && match jr_lease_expires_at j with Some t => now <? t | None => false end.

Definition PgClaimRunnerJob (locked : uuid → bool) (token : string) (runnerID : uuid)
    : database → database * result RunError (option Assignment) :=
  if runnerID =? uuid_Nil then λ d, (d, Err ErrInvalidRunnerRequest)
  else transaction (λ d,
    match db_runners d !! runnerID with
    | None => Err ErrInvalidRunnerRequest
    | Some ru =>
      if (ru_status ru =? "disabled") || (ru_os ru =? "") || (ru_architecture ru =? "")
         || (ru_executor ru =? "")
      then Err ErrInvalidRunnerRequest
      else if ru_capacity ru <=? count_jobs (held_by runnerID (db_now d)) d then Ok (d, None)
      else match pick_run locked (job_fits ru) d with
      | None => Ok (d, None)
      | Some run =>
        match pick_job locked (job_fits ru) run d with
        | None => Ok (d, None)
        | Some job =>
          let? source := source_of run d in
          let expires := db_now d + 30 * Second in
          let '(d', n) := update_jobs (λ j, (jr_id j =? jr_id job) && (jr_status j =? JobQueued))
            (λ j, jr_set_lease (Some (sha256 token)) (Some expires) (jr_set_renewed (Some (db_now d))
              (jr_set_accepted None (jr_set_runner (Some runnerID) (jr_set_status JobAssigned j))))) d in
          if n =? 0 then Err ErrDatabase
          else Ok (start_run (rn_ID run) d', Some (assignment_of job token expires source))
        end
      end
    end).

(** The rows that a lease request may update. *)
Definition leased_row (now : time) (q : LeaseRequest) (j : jobRow) : bool :=
  (jr_id j =? lr_JobID q) && bool_decide (jr_runner_id j = Some (lr_RunnerID q))
  && job_leased (jr_status j) && lease_matches now (lr_LeaseToken q) j.

Definition validateRunnerLeaseRequest (request : LeaseRequest) : bool :=
  negb ((lr_RunnerID request =? uuid_Nil) || (lr_JobID request =? uuid_Nil)
        || (lr_LeaseToken request =? "")).

Definition PgReleaseRunnerJob (request : LeaseRequest) : database → database * result RunError unit :=
  if negb (validateRunnerLeaseRequest request) then λ d, (d, Err ErrInvalidRunnerRequest)
  else transaction (λ d,
    let '(d', n) := update_jobs (λ j, leased_row (db_now d) request j && (jr_status j =? JobAssigned)
        && (jr_accepted_at j =? None))
      (λ j, jr_set_lease None None (jr_set_renewed None (jr_set_accepted None (jr_set_runner None
        (jr_set_status JobQueued j))))) d in
    if n <>? 1 then Err ErrLeaseInvalid else Ok (d', tt)).

(** [RETURNING lease_expires_at] of an updated row. *)
Definition returned_lease (q : LeaseRequest) (d : database) : LeaseState :=
  mkLeaseState (lr_JobID q)
    (match list_find (λ j, jr_id j = lr_JobID q) (db_jobs d) with
     | Some (_, j) => default time_zero (jr_lease_expires_at j) | None => time_zero end).

Definition PgAcknowledgeRunnerJob (request : LeaseRequest) : database → database * result RunError LeaseState :=
  if negb (validateRunnerLeaseRequest request) then λ d, (d, Err ErrInvalidRunnerRequest)
  else transaction (λ d,
    let '(d', n) := update_jobs (leased_row (db_now d) request)
      (λ j, jr_set_accepted (coalesce (jr_accepted_at j) (db_now d)) j) d in
    if n =? 0 then Err ErrLeaseInvalid else Ok (d', returned_lease request d')).

Definition PgStartRunnerJob (request : LeaseRequest) : database → database * result RunError LeaseState :=
  if negb (validateRunnerLeaseRequest request) then λ d, (d, Err ErrInvalidRunnerRequest)
  else transaction (λ d,
    let '(d', n) := update_jobs (λ j, leased_row (db_now d) request j && (jr_accepted_at j <>? None))
      (λ j, jr_set_started (coalesce (jr_started_at j) (db_now d)) (jr_set_status JobRunning j)) d in
    if n =? 0 then Err ErrLeaseInvalid else Ok (d', returned_lease request d')).

(** One turn of the loop over the active jobs of a heartbeat. *)
Definition renew_row (runnerID : uuid) (now expires : time) (active : ActiveLease) (d : database)
    : database * LeaseResult :=
  let '(d, n) := update_jobs (leased_row now (mkLease runnerID (al_JobID active) (al_LeaseToken active)))
    (λ j, jr_set_lease (jr_lease_token_hash j) (Some expires) (jr_set_renewed (Some now) j)) d in
  if n =? 1 then (d, mkLeaseResult (al_JobID active) true expires "")
  else (d, mkLeaseResult (al_JobID active) false time_zero "lease_invalid").

Fixpoint renew_rows (runnerID : uuid) (now expires : time) (active : list ActiveLease) (d : database)
    : database * list LeaseResult :=
  match active with
  | [] => (d, [])
  | a :: active =>
    let '(d, r) := renew_row runnerID now expires a d in
    let '(d, rs) := renew_rows runnerID now expires active d in
    (d, r :: rs)
  end.

Definition PgRenewRunnerLeases `{MapOrder} (request : HeartbeatRequest)
    : database → database * result RunError HeartbeatResult :=
  if negb (ValidateHeartbeatRequest request) then λ d, (d, Err ErrInvalidRunnerRequest)
  else transaction (λ d,
    let runner := hb_Runner request in
    match db_runners d !! rd_ID runner with
    | None => Err ErrInvalidRunnerRequest
    | Some ru =>
      if (ru_status ru =? "disabled") || (ru_pool_type ru <>? rd_PoolType runner)
      then Err ErrInvalidRunnerRequest
      else
        let d := with_runners (<[rd_ID runner := mkRunnerRow (ru_pool_type ru) "online" (rd_OS runner)
          (rd_Architecture runner) (rd_Executor runner) (rd_Labels runner) (rd_Capacity runner)
          (Some (rd_AvailableDiskBytes runner)) (ru_protocol_version ru) (Some (db_now d))]> (db_runners d)) d in
        let expires := db_now d + 30 * Second in
        let '(d, jobs) := renew_rows (rd_ID runner) (db_now d) expires (hb_ActiveJobs request) d in
        Ok (d, mkHeartbeatResult expires jobs)
    end).

Definition PgCompleteRunnerJob (outbox_id : uuid) (request : RunnerCompletion)
    : database → database * result RunError unit :=
  if (rc_RunnerID request =? uuid_Nil) || (rc_JobID request =? uuid_Nil) || (rc_LeaseToken request =? "")
  then λ d, (d, Err ErrInvalidRunnerRequest)
  else if negb (job_outcome (rc_Status request)) then λ d, (d, Err ErrInvalidTerminalStatus)
  else transaction (λ d,
    match list_find (λ j, jr_id j = rc_JobID request) (db_jobs d) with
    | None => Err ErrLeaseInvalid
    | Some (_, job) =>
      let '(d', n) := complete_row (leased_row (db_now d)
        (mkLease (rc_RunnerID request) (rc_JobID request) (rc_LeaseToken request))) (rc_Status request) d in
      if n =? 0 then Err ErrLeaseInvalid
      else let? d' := finalizeRunJobs outbox_id (jr_run_id job) (rc_Status request) d' in Ok (d', tt)
    end).

(** ** runner_recovery.go *)

Definition row_expired (now : time) (j : jobRow) : bool :=
  job_leased (jr_status j) && match jr_lease_expires_at j with Some t => t <=? now | None => false end.

(** The expired runs, oldest expiry first. *)
Definition oldest_expiry (now : time) (jobs : list jobRow) (runID : uuid) : option time :=
  foldl (λ m j, if (jr_run_id j =? runID) && row_expired now j
                then match jr_lease_expires_at j, m with
                     | Some t, Some u => Some (Z.min t u) | Some t, None => Some t | None, _ => m end
                else m) None jobs.
Definition expiry_before (jobs : list jobRow) (now : time) (a b : uuid) : Prop :=
  before (default 0 (oldest_expiry now jobs a)) a (default 0 (oldest_expiry now jobs b)) b = true.
#[local] Instance expiry_before_dec jobs now : RelDecision (expiry_before jobs now).
Proof. intros a b. unfold expiry_before. apply _. Defined.

Definition expired_runs (limit : Z) (d : database) : list uuid :=
  take (Z.to_nat limit) (merge_sort (expiry_before (db_jobs d) (db_now d))
    (remove_dups (jr_run_id <$> List.filter (row_expired (db_now d)) (db_jobs d)))).

Definition lease_before (a b : jobRow) : Prop :=
  before (default 0 (jr_lease_expires_at a)) (jr_id a) (default 0 (jr_lease_expires_at b)) (jr_id b) = true.
#[local] Instance lease_before_dec : RelDecision lease_before.
Proof. intros a b. unfold lease_before. apply _. Defined.

Definition expired_rows (locked : uuid → bool) (runID : uuid) (limit : Z) (d : database) : list jobRow :=
  take (Z.to_nat limit) (merge_sort lease_before
    (List.filter (λ j, (jr_run_id j =? runID) && row_expired (db_now d) j && negb (locked (jr_id j))) (db_jobs d))).

(** One turn of the inner loop: the database, the result and whether a job failed. *)
Definition recover_row (runID : uuid) (job : jobRow) (state : database * RecoveryResult * Z * bool)
    : database * RecoveryResult * Z * bool :=
  let '(d, r, processed, failedRun) := state in
  if jr_status job =? JobAssigned then
    let '(d', n) := update_jobs (λ j, (jr_id j =? jr_id job) && (jr_status j =? JobAssigned) && row_expired (db_now d) j)
      (λ j, jr_set_lease None None (jr_set_renewed None (jr_set_accepted None (jr_set_runner None
        (jr_set_status JobQueued j))))) d in
    if n <>? 1 then (d', r, processed, failedRun)
    else (append_audit None "runner_lease.recovered" "job" (jr_id job) d',
          mkRecovery (rv_Requeued r + 1) (rv_Failed r), processed + 1, failedRun)
  else
    let '(d', n) := update_jobs (λ j, (jr_id j =? jr_id job) && (jr_status j =? JobRunning) && row_expired (db_now d) j)
      (λ j, jr_set_renewed None (jr_set_lease None None (jr_set_finished (Some (db_now d))
        (jr_set_failure (Some "runner_lost") (jr_set_status JobFailed j))))) d in
    if n <>? 1 then (d', r, processed, failedRun)
    else
      let d' := (update_jobs (λ j, (jr_run_id j =? runID)
          && ((jr_status j =? JobBlocked) || (jr_status j =? JobQueued)))
        (λ j, jr_set_finished (coalesce (jr_finished_at j) (db_now d)) (jr_set_status JobSkipped j)) d').1 in
      (append_audit None "runner_lease.recovered" "job" (jr_id job) d',
       mkRecovery (rv_Requeued r) (rv_Failed r + 1), processed + 1, true).

(** [UPDATE runs SET status='failed',finished_at=COALESCE(...) WHERE id=$1] *)
Definition fail_run (runID : uuid) (d : database) : database :=
  update_runs (λ r, rn_ID r =? runID)
    (λ r, with_finished (coalesce (rn_FinishedAt r) (db_now d)) (with_status StatusFailed r)) d.

Definition requeue_run (runID : uuid) (d : database) : database :=
  update_runs (λ r, (rn_ID r =? runID) && negb (existsb (λ j, (jr_run_id j =? runID)
      && ((jr_status j =? JobRunning) || (jr_status j =? JobSucceeded) || (jr_status j =? JobFailed)
          || (jr_status j =? JobCanceled))) (db_jobs d)))
    (λ r, with_finished None (with_started None (with_status StatusQueued r))) d.

(** The outer loop over the runs; [outbox_ids] names the outbox row of each run. *)
Fixpoint recover_runs (locked : uuid → bool) (outbox_ids : uuid → uuid) (limit : Z) (runIDs : list uuid)
    (processed : Z) (r : RecoveryResult) (d : database) : result RunError (database * RecoveryResult) :=
  match runIDs with
  | [] => Ok (d, r)
  | runID :: runIDs =>
    if limit <=? processed then Ok (d, r)
    else if locked runID || bool_decide (runID ∉ rn_ID <$> db_runs d)
    then recover_runs locked outbox_ids limit runIDs processed r d
    else
      let jobs := expired_rows locked runID (limit - processed) d in
      let '(d, r, processed, failedRun) :=
        foldl (λ state job, recover_row runID job state) (d, r, processed, false) jobs in
      if (failedRun : bool) then
        let? d := enqueueCommitStatusForRun (outbox_ids runID) runID StatusFailed (fail_run runID d) in
        recover_runs locked outbox_ids limit runIDs processed r d
      else
        let d := if (0 <? length jobs)%nat then requeue_run runID d else d in
        recover_runs locked outbox_ids limit runIDs processed r d
  end.

Definition PgRecoverExpiredRunnerLeases (locked : uuid → bool) (outbox_ids : uuid → uuid) (limit : Z)
    : database → database * result RunError RecoveryResult :=
  if (limit <? 1) || (MaximumRecoveryBatch <? limit) then λ d, (d, Err ErrInvalidRecoveryLimit)
  else transaction (λ d,
    recover_runs locked outbox_ids limit (expired_runs limit d) 0 (mkRecovery 0 0) d).
End PgStore.
