(* ===== verification/Identity.v ===== *)
(** internal/identity/session.go and internal/store/postgres/identity.go: session
    tokens, the authentication of a session, the resolution of a scope into a
    resource, and membership changes. *)

From S2P Require Import Prelude GoStd RunModel Authorization Codecs Database.

Record Session := mkSession {
  ss_ID : uuid;
  ss_UserID : uuid;
  ss_DisplayName : string;
  ss_ExpiresAt : time;
}.

Record Credentials := mkCredentials { cr_Session : Session; cr_Token : string }.

(** ** oauth.go: the providers and their accounts *)

Definition GitHubInstance : string := "https://github.com".
Definition GiteeInstance : string := "https://gitee.com".

Definition ValidProviderInstance (provider instance : string) : bool :=
  if provider =? "github" then instance =? GitHubInstance
  else if provider =? "gitee" then instance =? GiteeInstance
  else false.

Definition ValidGitHubSubject (subject : string) : bool :=
  match ParseInt subject with
  | Some id => (0 <? id) && (FormatInt id =? subject)
  | None => false
  end.

Section Identity.
(** crypto/sha256 and crypto/hmac with SHA-256. *)
Variable sha256 : string → string.
Variable hmac_sha256 : string → string → bytes.

(** ** session.go *)

(** [NewToken]; [value] is what the random generator returned. *)
Definition NewToken (value : bytes) : string := of_chars (encode RawURLEncoding value).

Definition TokenDigest (token : string) : option string :=
  if len token <>? 43 then None
  else match DecodeString (Strict RawURLEncoding) (chars token) with
       | Some value => if negb (length value =? 32)%nat then None else Some (sha256 token)
       | None => None
       end.

Definition CSRFToken (token : string) : string :=
  of_chars (encode RawURLEncoding (hmac_sha256 token "yuanci:browser-csrf:v1")).

Definition ValidCSRF (token provided : string) : bool :=
  match TokenDigest token with
  | None => false
  | Some _ => if len provided <>? 43 then false else CSRFToken token =? provided
  end.

(** ** identity.go *)

Definition issueSession (id : uuid) (value : bytes) (userID : uuid) (ttl : duration) (d : database)
    : result RunError (database * Credentials) :=
  match di_users (db_directory d) !! userID with
  | Some user =>
    if negb (us_active user) then Err ErrUnauthenticated
    else
      let token := NewToken value in
      let digest := default "" (TokenDigest token) in
      let expires := db_now d + ttl in
      let sessions := di_sessions (db_directory d) in
      if bool_decide (digest ∈ se_token_hash <$> sessions) then Err ErrDatabase
      else
        let d := with_sessions (sessions ++ [mkSessionRow id userID digest expires false]) d in
        Ok (append_audit (Some userID) "session.created" "session" id d,
            mkCredentials (mkSession id userID (us_display_name user) expires) token)
  | None => Err ErrUnauthenticated
  end.

Definition IssueSession (id : uuid) (value : bytes) (userID : uuid) (ttl : duration)
    : database → database * result RunError Credentials :=
  if (ttl <? Minute) || (24 * Hour <? ttl) then λ d, (d, Err ErrSessionLifetime)
  else transaction (issueSession id value userID ttl).

Definition sessionLive (session : Session) (d : database) : result RunError unit :=
  if negb (db_now d <? ss_ExpiresAt session) then Err ErrUnauthenticated else Ok tt.

Definition authenticateSession (token : string) (d : database) : result RunError Session :=
  match TokenDigest token with
  | None => Err ErrUnauthenticated
  | Some digest =>
    match list_find (λ s, se_token_hash s = digest ∧ se_revoked s = false) (di_sessions (db_directory d)) with
    | None => Err ErrUnauthenticated
    | Some (_, row) =>
      match di_users (db_directory d) !! se_user_id row with
      | Some user =>
        if negb (us_active user) then Err ErrUnauthenticated
        else
          let session := mkSession (se_id row) (se_user_id row) (us_display_name user) (se_expires_at row) in
          let? _ := sessionLive session d in Ok session
      | None => Err ErrUnauthenticated
      end
    end
  end.

Definition AuthenticateSession (token : string) (d : database) : result RunError Session :=
  authenticateSession token d.

Definition RevokeSession (token : string) : database → database * result RunError unit :=
  match TokenDigest token with
  | None => λ d, (d, Err ErrUnauthenticated)
  | Some digest => transaction (λ d,
      match list_find (λ s, se_token_hash s = digest ∧ se_revoked s = false) (di_sessions (db_directory d)) with
      | None => Err ErrUnauthenticated
      | Some (_, row) =>
        let d := with_sessions (update_all (λ s, (se_token_hash s =? digest) && negb (se_revoked s))
          (λ s, mkSessionRow (se_id s) (se_user_id s) (se_token_hash s) (se_expires_at s) true)
          (di_sessions (db_directory d))) d in
        Ok (append_audit (Some (se_user_id row)) "session.revoked" "session" (se_id row) d, tt)
      end)
  end.

(** The repository of a project scope, when it is active and its organization exists. *)
Definition active_repository (id : uuid) (d : database) : option repositoryRow :=
  repository ← di_repositories (db_directory d) !! id;
  if rp_active repository && bool_decide (rp_organization_id repository ∈ di_organizations (db_directory d))
  then Some repository else None.

(** The path from the instance to a target; an unset ancestor is left out. *)
Definition resource_path (instanceID organizationID projectID : uuid) : list Scope :=
  mkScope Instance_ instanceID
  :: (if organizationID <>? uuid_Nil then [mkScope Organization organizationID] else [])
  ++ (if projectID <>? uuid_Nil then [mkScope Project projectID] else []).

Definition scopeResource (scope : Scope) (d : database) : result RunError Resource :=
  let di := db_directory d in
  let path := resource_path (di_instance di) in
  if sc_Kind scope =? Instance_ then
    if sc_ID scope <>? di_instance di then Err ErrForbidden else Ok (mkResource (path uuid_Nil uuid_Nil) "")
  else if sc_Kind scope =? Organization then
    if bool_decide (sc_ID scope ∈ di_organizations di) then Ok (mkResource (path (sc_ID scope) uuid_Nil) "")
    else Err ErrForbidden
  else if sc_Kind scope =? Project then
    match active_repository (sc_ID scope) d with
    | Some repository => Ok (mkResource (path (rp_organization_id repository) (sc_ID scope)) "")
    | None => Err ErrForbidden
    end
  else if sc_Kind scope =? Environment then
    match di_environments di !! sc_ID scope with
    | Some (projectID, protected) =>
      match active_repository projectID d with
      | Some repository =>
        Ok (mkResource (path (rp_organization_id repository) projectID ++ [scope])
              (if (protected : bool) then Protected else Unprotected))
      | None => Err ErrForbidden
      end
    | None => Err ErrForbidden
    end
  else Err ErrForbidden.

Definition grants_of (userID : uuid) (d : database) : list Grant :=
  (λ m, mkGrant userID (me_scope m) (me_role m))
    <$> filter (λ m, me_user_id m = userID) (di_memberships (db_directory d)).

Definition authorize (session : Session) (scope : Scope) (action : Action) (d : database)
    : result RunError unit :=
  let? resource := scopeResource scope d in
  if negb (Allowed (mkPrincipal (ss_UserID session) true) (mkAccess action resource uuid_Nil)
             (grants_of (ss_UserID session) d))
  then Err ErrForbidden else Ok tt.

(** The roles that may be granted at a scope. *)
Definition role_fits (role : Role) (kind : ScopeKind) : bool :=
  if bool_decide (role ∈ [Viewer; Developer; Maintainer; Admin]) then true
  else if bool_decide (role ∈ [Deployer; Approver]) then kind =? Environment
  else false.

Definition same_membership (subjectID : uuid) (scope : Scope) (role : Role) (m : membershipRow) : bool :=
  (me_user_id m =? subjectID) && (me_role m =? role) && (me_scope m =? scope).

(** [waited] passes before the session is checked again. *)
Definition ChangeMembership (waited : duration) (new_id : uuid) (token : string) (subjectID : uuid)
    (scope : Scope) (role : Role) (add : bool) : database → database * result RunError unit :=
  if bool_decide (sc_Kind scope ∉ scope_order) || (subjectID =? uuid_Nil) || (sc_ID scope =? uuid_Nil)
  then λ d, (d, Err ErrForbidden)
  else if negb (role_fits role (sc_Kind scope)) then λ d, (d, Err ErrForbidden)
  else transaction (λ d,
    let? session := authenticateSession token d in
    if ss_UserID session =? subjectID then Err ErrForbidden
    else
      let? _ := authorize session scope MembersManage d in
      match di_users (db_directory d) !! subjectID with
      | None => Err ErrForbidden
      | Some subject =>
        if add && negb (us_active subject) then Err ErrForbidden
        else
          let d := elapse waited d in
          let? _ := sessionLive session d in
          let memberships := di_memberships (db_directory d) in
          let present := List.filter (same_membership subjectID scope role) memberships in
          if add then
            match present with
            | _ :: _ => Ok (d, tt)
            | [] => Ok (append_audit (Some (ss_UserID session)) "membership.granted" "membership" new_id
                          (with_memberships (memberships ++ [mkMembershipRow new_id subjectID role scope]) d), tt)
            end
          else
            match present with
            | [] => Ok (d, tt)
            | m :: _ => Ok (append_audit (Some (ss_UserID session)) "membership.revoked" "membership" (me_id m)
                (with_memberships (List.filter (λ m, negb (same_membership subjectID scope role m)) memberships) d), tt)
            end
      end).
End Identity.
