(* ===== verification/PgActions.v ===== *)
(** internal/store/postgres: the operations that a browser session performs on the
    runs of a project (run_actions.go, run_rerun.go, authorized_runs.go). *)

From S2P Require Import Prelude GoStd RunModel Pipeline Authorization Database Identity PgStore.

Record JobDetail := mkJobDetail {
  jd_ID : uuid;
  jd_StageName : string;
  jd_JobName : string;
  jd_Status : JobStatus;
  jd_Spec : PlanJob;
  jd_StartedAt : option time;
  jd_FinishedAt : option time;
  jd_ReusedFrom : option uuid;
}.

Record Detail := mkDetail { dt_Run : RunRecord; dt_Jobs : list JobDetail }.

Record LogPage := mkLogPage {
  lp_Items : list LogChunk;   (** without lease *)
  lp_NextSequence : Z;
  lp_Expired : bool;
}.

Section PgActions.
Variable sha256 : string → string.
Variable uuid_String : uuid → string.
Variable json_unmarshal : string → option Plan.

(** [lockAuthorizedRun]; [waited] passes while it waits for the lock of the run. *)
Definition lockAuthorizedRun (waited : duration) (token : string) (projectID runID : uuid) (action : Action)
    (d : database) : result RunError (database * Session * RunRecord) :=
  let? session := authenticateSession sha256 token d in
  let? _ := authorize session (mkScope Project projectID) action d in
  match list_find (λ r, rn_ID r = runID ∧ rn_ProjectID r = Some projectID) (db_runs d) with
  | None => Err ErrForbidden
  | Some (_, record) =>
    let d := elapse waited d in
    let? _ := sessionLive session d in
    Ok (d, session, scan_run record)
  end.

(** ** run_actions.go *)

Definition job_order (a b : jobRow) : Prop := job_before a b = true.
#[local] Instance job_order_dec : RelDecision job_order.
Proof. intros a b. unfold job_order. apply _. Defined.

Definition job_detail (j : jobRow) : JobDetail :=
  mkJobDetail (jr_id j) (jr_stage_name j) (jr_job_name j) (jr_status j) (jr_spec j) (jr_started_at j)
    (jr_finished_at j) (jr_reused_from j).

Definition without_plan (r : RunRecord) : RunRecord :=
  mkRun (rn_ID r) (rn_ProjectID r) (rn_CreatedBy r) (rn_PipelineVersionID r) (rn_IdempotencyKey r)
    (rn_PipelineName r) (rn_Event r) (rn_Ref r) (rn_CommitSHA r) (rn_Status r) (rn_ConfigSHA256 r) ""
    (rn_CreatedAt r) (rn_StartedAt r) (rn_FinishedAt r).

Definition GetAuthorizedRun (waited : duration) (token : string) (projectID runID : uuid)
    : database → database * result RunError Detail :=
  transaction (λ d,
    let? '(d, _, record) := lockAuthorizedRun waited token projectID runID RunRead d in
    let jobs := take 1025 (merge_sort job_order (List.filter (λ j, jr_run_id j =? runID) (db_jobs d))) in
    if (1024 <? length jobs)%nat then Err ErrDetailLimit
    else Ok (d, mkDetail (without_plan record) (job_detail <$> jobs))).

Definition sequence_before (a b : Z * chunkRow) : Prop := a.1 < b.1.
#[local] Instance sequence_before_dec : RelDecision sequence_before.
Proof. intros a b. unfold sequence_before. apply _. Defined.

(** The chunks after a sequence number, in order, at most sixteen. *)
Definition chunks_after (jobID : uuid) (after : Z) (d : database) : list (Z * chunkRow) :=
  take 16 (merge_sort sequence_before
    (List.filter (λ '(n, _), after <? n) (map_to_list (default ∅ (db_chunks d !! jobID))))).

Definition log_item (c : Z * chunkRow) : LogChunk :=
  mkChunk (mkLease uuid_Nil uuid_Nil "") c.1 (ck_step_index c.2) (ck_stream c.2) (ck_data c.2) (ck_truncated c.2).

(** When the log of a job expires: with its stream, or a week after the job was created. *)
Definition log_expiry (j : jobRow) (d : database) : time :=
  match db_streams d !! jr_id j with Some s => st_expires_at s | None => jr_created_at j + LogRetention end.

Definition ReadAuthorizedLogs (waited : duration) (token : string) (projectID runID jobID : uuid) (after : Z)
    : database → database * result RunError LogPage :=
  if (after <? 0) || (MaxJobLogChunks <? after) then λ d, (d, Err ErrInvalidLogChunk)
  else transaction (λ d,
    let? '(d, _, _) := lockAuthorizedRun waited token projectID runID RunRead d in
    match list_find (λ j, jr_id j = jobID ∧ jr_run_id j = runID) (db_jobs d) with
    | None => Err ErrForbidden
    | Some (_, job) =>
      if log_expiry job d <=? db_now d then Ok (d, mkLogPage [] after true)
      else
        let items := chunks_after jobID after d in
        Ok (d, mkLogPage (log_item <$> items) (default after (fst <$> last items)) false)
    end).

(** [UPDATE jobs SET status='canceled',... WHERE run_id=$1 AND status IN (...)] *)
Definition cancel_jobs (runID : uuid) (d : database) : database :=
  (update_jobs (λ j, (jr_run_id j =? runID) && job_open (jr_status j))
    (λ j, jr_set_lease None None (jr_set_finished (Some (db_now d)) (jr_set_status JobCanceled j))) d).1.

Definition cancel_run (runID : uuid) (d : database) : database :=
  update_runs (λ r, rn_ID r =? runID)
    (λ r, with_finished (Some (db_now d)) (with_status StatusCanceled r)) d.

Definition CancelAuthorizedRun (waited : duration) (outbox_id : uuid) (token : string) (projectID runID : uuid)
    : database → database * result RunError Status :=
  transaction (λ d,
    let? '(d, session, record) := lockAuthorizedRun waited token projectID runID RunCancel d in
    if Terminal (rn_Status record) then Ok (d, rn_Status record)
    else
      let d := cancel_run runID (cancel_jobs runID d) in
      let? d := enqueueCommitStatusForRun uuid_String outbox_id runID StatusCanceled d in
      Ok (append_audit (Some (ss_UserID session)) "run.canceled" "run" runID d, StatusCanceled)).

(** ** run_rerun.go *)

Definition rerun_key (runID userID : uuid) (mode : string) (requestID : uuid) : string :=
  "rerun:" +:+ uuid_String runID +:+ ":" +:+ uuid_String userID +:+ ":" +:+ mode +:+ ":" +:+ uuid_String requestID.

(** [next] of the source; the version of the pipeline is read from the table. *)
Definition rerun_record (next_id : uuid) (app_now : time) (userID : uuid) (key : string)
    (version : option uuid) (original : RunRecord) : RunRecord :=
  mkRun next_id (rn_ProjectID original) (Some userID) version key (rn_PipelineName original)
    (rn_Event original) (rn_Ref original) (rn_CommitSHA original) StatusQueued (rn_ConfigSHA256 original)
    (rn_Plan original) app_now None None.

(** The succeeded job of the original run with the same key. *)
Definition reusable (jobs : list jobRow) (runID : uuid) (key : string) : option jobRow :=
  snd <$> list_find (λ j, jr_run_id j = runID ∧ jr_job_key j = key ∧ jr_status j = JobSucceeded) jobs.

(** [UPDATE jobs AS new SET status='succeeded',... FROM jobs AS old ...] *)
Definition reuse_jobs (next_id runID : uuid) (d : database) : database :=
  (update_jobs (λ j, (jr_run_id j =? next_id) && (reusable (db_jobs d) runID (jr_job_key j) <>? None))
    (λ j, jr_set_reused (jr_id <$> reusable (db_jobs d) runID (jr_job_key j))
      (jr_set_finished (Some (db_now d)) (jr_set_status JobSucceeded j))) d).1.

Definition RerunAuthorizedRun (waited : duration) (app_now : time) (outbox_id next_id : uuid) (ids : nat → uuid)
    (token : string) (projectID runID : uuid) (mode : string) (requestID : uuid)
    : database → database * result RunError RunRecord :=
  if ((mode <>? "full") && (mode <>? "failed")) || (requestID =? uuid_Nil) then λ d, (d, Err ErrRunConflict)
  else transaction (λ d,
    let? '(d, session, original) := lockAuthorizedRun waited token projectID runID RunCreate d in
    if negb (Terminal (rn_Status original)) || ((mode =? "failed") && (rn_Status original <>? StatusFailed))
    then Err ErrRunConflict
    else
      let key := rerun_key runID (ss_UserID session) mode requestID in
      match list_find (λ r, rn_IdempotencyKey r = key) (db_runs d) with
      | Some (_, previous) => Ok (d, scan_run previous)
      | None =>
        if count_jobs (λ j, jr_run_id j =? runID) d =? 0 then Err ErrRunConflict
        else
          let version := match list_find (λ r, rn_ID r = runID) (db_runs d) with
                         | Some (_, r) => rn_PipelineVersionID r | None => None end in
          let next := rerun_record next_id app_now (ss_UserID session) key version original in
          let? d := insertRun uuid_String json_unmarshal outbox_id ids next d in
          let d := with_reruns (<[next_id := (runID, mode)]> (db_reruns d)) d in
          let d := if mode =? "failed" then unblock_jobs next_id (reuse_jobs next_id runID d) else d in
          Ok (append_audit (Some (ss_UserID session)) "run.rerun" "run" next_id d, next)
      end).

(** ** authorized_runs.go *)

Definition with_owner (projectID userID : uuid) (r : RunRecord) : RunRecord :=
  mkRun (rn_ID r) (Some projectID) (Some userID) (rn_PipelineVersionID r) (rn_IdempotencyKey r)
    (rn_PipelineName r) (rn_Event r) (rn_Ref r) (rn_CommitSHA r) (rn_Status r) (rn_ConfigSHA256 r)
    (rn_Plan r) (rn_CreatedAt r) (rn_StartedAt r) (rn_FinishedAt r).

Definition CreateAuthorizedRun (waited : duration) (outbox_id : uuid) (ids : nat → uuid) (token : string)
    (projectID : uuid) (record : RunRecord) : database → database * result RunError RunRecord :=
  transaction (λ d,
    let? session := authenticateSession sha256 token d in
    let? _ := authorize session (mkScope Project projectID) RunCreate d in
    let record := with_owner projectID (ss_UserID session) record in
    let d := elapse waited d in
    let? _ := sessionLive session d in
    let? d := insertRun uuid_String json_unmarshal outbox_id ids record d in
    Ok (append_audit (Some (ss_UserID session)) "run.created" "run" (rn_ID record) d, record)).

Definition ListAuthorizedRuns (waited : duration) (token : string) (projectID : uuid) (limit : Z)
    : database → database * result RunError (list RunRecord) :=
  let limit := if (limit <=? 0) || (200 <? limit) then 50 else limit in
  transaction (λ d,
    let? session := authenticateSession sha256 token d in
    let? _ := authorize session (mkScope Project projectID) RunRead d in
    let d := elapse waited d in
    let? _ := sessionLive session d in
    let runs := List.filter (λ r, bool_decide (rn_ProjectID r = Some projectID)) (db_runs d) in
    Ok (d, scan_run <$> take (Z.to_nat limit) (newest_first runs))).
End PgActions.
