(* ===== verification/CommitStatus.v ===== *)
(** internal/commitstatus and the outbox operations of
    internal/store/postgres/commit_status.go: commit statuses are claimed under a
    lease, delivered, and finished, retried or given up. *)

From S2P Require Import Prelude GoStd RunModel Database.

(** ** outbox.go *)

Definition StatePending : string := "pending".
Definition StateSuccess : string := "success".
Definition StateFailure : string := "failure".
Definition StateError : string := "error".

Definition DeliveryQueued : string := "queued".
Definition DeliveryProcessing : string := "processing".
Definition DeliveryDelivered : string := "delivered".
Definition DeliveryDead : string := "dead".

Definition State_Valid (state : string) : bool :=
  (state =? StatePending) || (state =? StateSuccess) || (state =? StateFailure) || (state =? StateError).

Record Item := mkItem {
  it_ID : uuid;
  it_RepositoryID : uuid;
  it_RepositoryExternalID : string;
  it_RunID : uuid;
  it_Provider : string;
  it_CommitSHA : string;
  it_Context : string;
  it_State : string;
  it_Description : string;
  it_TargetURL : string;
  it_DeterministicKey : string;
  it_DeliveryState : string;
  it_AttemptCount : Z;
  it_AvailableAt : time;
  it_ExpiresAt : time;
  it_LeaseOwner : uuid;
  it_LeaseExpiresAt : time;
}.

(** ** commit_status.go *)

(** The columns that the delivery of a status changes. *)
Definition ob_set (delivery : string) (attempts : Z) (available expires : time) (lease : option (uuid * time))
    (error : option string) (delivered : option time) (o : outboxRow) : outboxRow :=
  mkOutboxRow (ob_id o) (ob_repository_id o) (ob_run_id o) (ob_provider o) (ob_commit_sha o) (ob_state o)
    (ob_description o) (ob_key o) delivery attempts available expires lease error delivered (ob_created_at o).

Definition claimable_status (now : time) (o : outboxRow) : bool :=
  (ob_delivery_state o =? DeliveryQueued) && (ob_available_at o <=? now) && (now <? ob_expires_at o).

(** [ORDER BY o.available_at,o.created_at,o.id] *)
Definition status_before (a b : outboxRow) : bool :=
  (ob_available_at a <? ob_available_at b)
  || ((ob_available_at a =? ob_available_at b) && before (ob_created_at a) (ob_id a) (ob_created_at b) (ob_id b)).

Definition candidate_status (locked : uuid → bool) (d : database) : option outboxRow :=
  least_row status_before
    (List.filter (λ o, claimable_status (db_now d) o && negb (locked (ob_id o))) (db_outbox d)).

Definition update_outbox (p : outboxRow → bool) (f : outboxRow → outboxRow) (d : database) : database * Z :=
  (with_outbox (update_all p f (db_outbox d)) d, Z.of_nat (length (List.filter p (db_outbox d)))).

(** [CHECK (attempt_count BETWEEN 0 AND 100)] (migration 14) *)
Definition maximum_attempt_count : Z := 100.

Definition leased_status (owner : uuid) (expires : time) (o : outboxRow) : outboxRow :=
  ob_set DeliveryProcessing (ob_attempt_count o + 1) (ob_available_at o) (ob_expires_at o)
    (Some (owner, expires)) (ob_last_error_code o) (ob_delivered_at o) o.

Definition item_of (external : string) (owner : uuid) (expires : time) (o : outboxRow) : Item :=
  mkItem (ob_id o) (ob_repository_id o) external (ob_run_id o) (ob_provider o) (ob_commit_sha o) "YuanCI"
    (ob_state o) (ob_description o) "" (ob_key o) (ob_delivery_state o) (ob_attempt_count o)
    (ob_available_at o) (ob_expires_at o) owner expires.

(** [ClaimCommitStatus]; [owner] is the generated lease owner and [locked] the rows
    that other transactions hold. *)
Definition ClaimCommitStatus (locked : uuid → bool) (owner : uuid) (leaseDuration : duration)
    : database → database * result RunError (option Item) :=
  if (leaseDuration <=? 0) || (15 * Minute <? leaseDuration) then λ d, (d, Err ErrStatusInvalid)
  else transaction (λ d,
    match candidate_status locked d with
    | None => Ok (d, None)
    | Some o =>
      if maximum_attempt_count <? ob_attempt_count o + 1 then Err ErrDatabase
      else
        let expires := db_now d + leaseDuration in
        let external := match di_repositories (db_directory d) !! ob_repository_id o with
                        | Some r => rp_external_id r | None => "" end in
        Ok ((update_outbox (λ o', ob_id o' =? ob_id o) (leased_status owner expires) d).1,
            Some (item_of external owner expires (leased_status owner expires o)))
    end).

(** The rows that recovery handles, oldest deadline first. *)
Definition stale_status (now : time) (o : outboxRow) : bool :=
  ((ob_delivery_state o =? DeliveryProcessing)
   && match ob_lease o with Some (_, t) => t <=? now | None => false end)
  || ((ob_delivery_state o =? DeliveryQueued) && (ob_expires_at o <=? now)).

Definition status_deadline (o : outboxRow) : time :=
  match ob_lease o with Some (_, t) => t | None => ob_expires_at o end.

Definition deadline_before (a b : outboxRow) : Prop :=
  before (status_deadline a) (ob_id a) (status_deadline b) (ob_id b) = true.
#[export] Instance deadline_before_dec : RelDecision deadline_before.
Proof. intros a b. unfold deadline_before. apply _. Defined.

Definition stale_statuses (locked : uuid → bool) (limit : Z) (d : database) : list uuid :=
  ob_id <$> take (Z.to_nat limit) (merge_sort deadline_before
    (List.filter (λ o, stale_status (db_now d) o && negb (locked (ob_id o))) (db_outbox d))).

Definition RecoverCommitStatusLeases (locked : uuid → bool) (limit : Z) (d : database)
    : database * result RunError Z :=
  if (limit <? 1) || (1000 <? limit) then (d, Err ErrStatusInvalid)
  else
    let ids := stale_statuses locked limit d in
    let '(d, n) := update_outbox (λ o, bool_decide (ob_id o ∈ ids))
      (λ o, ob_set (if ob_expires_at o <=? db_now d then DeliveryDead else DeliveryQueued)
              (ob_attempt_count o) (ob_available_at o) (ob_expires_at o) None (ob_last_error_code o)
              (ob_delivered_at o) o) d in
    (d, Ok n).

(** The row that the holder of a lease may update. *)
Definition held_status (id owner : uuid) (o : outboxRow) : bool :=
  (ob_id o =? id) && (ob_delivery_state o =? DeliveryProcessing) && bool_decide (fst <$> ob_lease o = Some owner).

Definition FinishCommitStatus (id leaseOwner : uuid) (d : database) : database * result RunError unit :=
  if (id =? uuid_Nil) || (leaseOwner =? uuid_Nil) then (d, Err ErrStatusInvalid)
  else
    let '(d', n) := update_outbox (λ o, held_status id leaseOwner o
        && match ob_lease o with Some (_, t) => db_now d <? t | None => false end)
      (λ o, ob_set DeliveryDelivered (ob_attempt_count o) (ob_available_at o) (ob_expires_at o) None None
              (Some (db_now d)) o) d in
    if n <>? 1 then (d', Err ErrStatusInvalid) else (d', Ok tt).

Definition RescheduleCommitStatus (id leaseOwner : uuid) (availableAt : time) (errorCode : string) (dead : bool)
    (d : database) : database * result RunError unit :=
  if (id =? uuid_Nil) || (leaseOwner =? uuid_Nil) || (availableAt =? time_zero) || (len errorCode <? 1)
     || (64 <? len errorCode)
  then (d, Err ErrStatusInvalid)
  else
    let state := if dead then DeliveryDead else DeliveryQueued in
    let '(d', n) := update_outbox (held_status id leaseOwner)
      (λ o, ob_set state (ob_attempt_count o) availableAt (ob_expires_at o) None (Some errorCode)
              (ob_delivered_at o) o) d in
    if n <>? 1 then (d', Err ErrStatusInvalid) else (d', Ok tt).

Definition ReplayCommitStatus (id actorID : uuid) : database → database * result RunError unit :=
  if (id =? uuid_Nil) || (actorID =? uuid_Nil) then λ d, (d, Err ErrStatusInvalid)
  else transaction (λ d,
    let '(d', n) := update_outbox (λ o, (ob_id o =? id) && (ob_delivery_state o =? DeliveryDead))
      (λ o, ob_set DeliveryQueued 0 (db_now d) (db_now d + 24 * Hour) None None None o) d in
    if n <>? 1 then Err ErrStatusInvalid
    else Ok (append_audit (Some actorID) "commit_status.replayed" "commit_status" id d', tt)).

(** ** worker.go *)

Definition StatusLeaseDuration : duration := Minute.
Definition StatusRecoveryBatch : Z := 100.
Definition statusMaximumAttempts : Z := 8.
Definition statusRateLimitDelay : duration := Minute.

(** What [Deliver] returned: nothing, or an error with the classes that
    [errors.Is] finds in it. *)
Inductive delivery_result :=
| Delivered
| DeliveryError (rate_limited invalid : bool).

(** [retryDecision], for the two classes of the error. *)
Definition retryDecision (now : time) (item : Item) (rate_limited invalid : bool) : time * string * bool :=
  let '(delay, code) :=
    if rate_limited then (statusRateLimitDelay, "provider_rate_limited")
    else
      let shift := Z.min (Z.max (it_AttemptCount item - 1) 0) 8 in
      let delay := Second * Z.shiftl 1 shift in
      (if 5 * Minute <? delay then 5 * Minute else delay, "provider_transient") in
  let next := now + delay in
  let dead := invalid || (statusMaximumAttempts <=? it_AttemptCount item)
    || negb (next <? it_ExpiresAt item) in
  let code := if invalid then "provider_permanent" else code in
  (next, code, dead).

(** [processOne]; [took] passes during the delivery, [worker_now] is then the clock of
    the worker process and [canceled] tells whether its context was canceled. *)
Definition processOne (locked : uuid → bool) (owner : uuid) (deliver : Item → delivery_result)
    (took : duration) (worker_now : time) (canceled : bool) (d : database) : database :=
  let '(d, claimed) := ClaimCommitStatus locked owner StatusLeaseDuration d in
  match claimed with
  | Ok (Some item) =>
    let d := elapse took d in
    match deliver item with
    | Delivered => (FinishCommitStatus (it_ID item) (it_LeaseOwner item) d).1
    | DeliveryError rate_limited invalid =>
      if canceled then d
      else
        let '(next, code, dead) := retryDecision worker_now item rate_limited invalid in
        (RescheduleCommitStatus (it_ID item) (it_LeaseOwner item) next code dead d).1
    end
  | _ => d
  end.

Definition recover (locked : uuid → bool) (d : database) : database :=
  (RecoverCommitStatusLeases locked StatusRecoveryBatch d).1.
