(* ===== verification/CommitStatusProps.v ===== *)
(** The delivery of commit statuses: retry times, finality of a delivered status, and
    what repeated loss of a lease does to the queue. *)

From S2P Require Import Prelude GoStd RunModel Database CommitStatus.

(** ** Helper lemmas *)

Lemma elem_of_update_outbox p f d o :
  o ∈ db_outbox (update_outbox p f d).1 →
  ∃ o0, o0 ∈ db_outbox d ∧ o = if p o0 then f o0 else o0.
Proof. intros (o0 & -> & Ho)%list_elem_of_fmap. eauto. Qed.

Lemma update_outbox_keeps p f d o :
  o ∈ db_outbox d → p o = false → o ∈ update_all p f (db_outbox d).
Proof. intros Ho Hp. apply list_elem_of_fmap. exists o. by rewrite Hp. Qed.

Lemma candidate_status_spec locked d o :
  candidate_status locked d = Some o →
  o ∈ db_outbox d ∧ claimable_status (db_now d) o = true ∧ locked (ob_id o) = false.
Proof.
  intros Hc%least_row_elem. rewrite list_elem_of_In, filter_In in Hc. destruct Hc as [Hin Hc].
  bools. split; [by apply list_elem_of_In|done].
Qed.

(** ** Histories *)

(** The operations on the outbox, by any worker and any administrator. *)
Inductive status_op :=
| SClaim (locked : uuid → bool) (owner : uuid) (leaseDuration : duration)
| SRecover (locked : uuid → bool) (limit : Z)
| SFinish (id leaseOwner : uuid)
| SReschedule (id leaseOwner : uuid) (availableAt : time) (errorCode : string) (dead : bool)
| SReplay (id actorID : uuid)
| STick (waited : duration).

Definition status_exec (o : status_op) (d : database) : database :=
  match o with
  | SClaim locked owner leaseDuration => (ClaimCommitStatus locked owner leaseDuration d).1
  | SRecover locked limit => (RecoverCommitStatusLeases locked limit d).1
  | SFinish id leaseOwner => (FinishCommitStatus id leaseOwner d).1
  | SReschedule id leaseOwner availableAt errorCode dead =>
      (RescheduleCommitStatus id leaseOwner availableAt errorCode dead d).1
  | SReplay id actorID => (ReplayCommitStatus id actorID d).1
  | STick waited => elapse waited d
  end.

Definition status_play (ops : list status_op) (d : database) : database := foldl (flip status_exec) d ops.

(** Every operation keeps the identity of the rows and their order. *)
Lemma update_outbox_ids p f d :
  (∀ o, ob_id (f o) = ob_id o) → ob_id <$> update_all p f (db_outbox d) = ob_id <$> db_outbox d.
Proof.
  intros Hf. unfold update_all. rewrite <-list_fmap_compose. apply list_fmap_ext.
  intros i o _. simpl. by destruct (p o).
Qed.

Lemma status_exec_ids op d : ob_id <$> db_outbox (status_exec op d) = ob_id <$> db_outbox d.
Proof.
  destruct op as [locked owner lease|locked limit|id owner|id owner t code dead|id actor|w]; simpl; [..|done].
  - unfold ClaimCommitStatus. destruct (_ || _); [done|]. unfold transaction.
    destruct (candidate_status locked d); [|done]. destruct (_ <? _); [done|]. by apply update_outbox_ids.
  - unfold RecoverCommitStatusLeases. destruct (_ || _); [done|]. by apply update_outbox_ids.
  - unfold FinishCommitStatus. destruct (_ || _); [done|]. unfold update_outbox. by destruct (_ <>? 1); apply update_outbox_ids.
  - unfold RescheduleCommitStatus. destruct (_ || _); [done|]. unfold update_outbox. by destruct (_ <>? 1); apply update_outbox_ids.
  - unfold ReplayCommitStatus. destruct (_ || _); [done|]. unfold transaction, update_outbox.
    destruct (_ <>? 1); [done|by apply update_outbox_ids].
Qed.

Lemma stale_statuses_spec locked limit d id :
  id ∈ stale_statuses locked limit d →
  ∃ o, o ∈ db_outbox d ∧ ob_id o = id ∧ stale_status (db_now d) o = true.
Proof.
  unfold stale_statuses. intros (o & -> & Ho)%list_elem_of_fmap. exists o.
  apply elem_of_take in Ho as (i & Ho%list_elem_of_lookup_2 & _).
  rewrite (merge_sort_Permutation deadline_before), list_elem_of_In, filter_In in Ho. destruct Ho as [Hin Hs].
  bools. split; [by apply list_elem_of_In|done].
Qed.

(** The rows that an operation may change. *)
Definition touched (op : status_op) (d : database) (o : outboxRow) : bool :=
  match op with
  | SClaim _ _ _ => claimable_status (db_now d) o
  | SRecover _ _ => stale_status (db_now d) o
  | SFinish id owner => held_status id owner o && match ob_lease o with Some (_, t) => db_now d <? t | None => false end
  | SReschedule id owner _ _ _ => held_status id owner o
  | SReplay id _ => (ob_id o =? id) && (ob_delivery_state o =? DeliveryDead)
  | STick _ => false
  end.

Lemma untouched_kept op d o :
  NoDup (ob_id <$> db_outbox d) → o ∈ db_outbox d → touched op d o = false →
  o ∈ db_outbox (status_exec op d).
Proof.
  intros Hnd Ho Ht.
  destruct op as [locked owner lease|locked limit|id owner|id owner t code dead|id actor|w]; simpl in *; [..|done].
  - unfold ClaimCommitStatus. destruct (_ || _); [done|]. unfold transaction.
    destruct (candidate_status locked d) as [c|] eqn:Hc; [|done].
    destruct (_ <? _); [done|]. apply update_outbox_keeps; [done|]. apply bool_decide_eq_false_2. intros Heq.
    apply candidate_status_spec in Hc as (Hin & Hcl & _).
    assert (o = c) as -> by by apply (NoDup_key_unique ob_id (db_outbox d)). congruence.
  - unfold RecoverCommitStatusLeases. destruct (_ || _); [done|]. apply update_outbox_keeps; [done|].
    apply bool_decide_eq_false_2. intros (o' & Ho' & Heq & Hs)%stale_statuses_spec.
    assert (o' = o) as -> by by apply (NoDup_key_unique ob_id (db_outbox d)). congruence.
  - unfold FinishCommitStatus. destruct (_ || _); [done|]. unfold update_outbox. destruct (_ <>? 1); by apply update_outbox_keeps.
  - unfold RescheduleCommitStatus. destruct (_ || _); [done|]. unfold update_outbox. destruct (_ <>? 1); by apply update_outbox_keeps.
  - unfold ReplayCommitStatus. destruct (_ || _); [done|]. unfold transaction, update_outbox.
    destruct (_ <>? 1); [done|by apply update_outbox_keeps].
Qed.

Lemma delivered_untouched op d o : ob_delivery_state o = DeliveryDelivered → touched op d o = false.
Proof.
  intros Hs. destruct op; simpl; [..|done]; unfold claimable_status, stale_status, held_status; rewrite Hs; simpl;
    by rewrite ?andb_false_r.
Qed.

(** *** A live lease *)

(** The row is leased to [owner] until [t]. *)
Definition leased_until (o : outboxRow) (owner : uuid) (t : time) : Prop :=
  ob_delivery_state o = DeliveryProcessing ∧ ob_lease o = Some (owner, t).

(** An operation of another worker; time does not go back. *)
Definition foreign_status (id owner : uuid) (op : status_op) : Prop :=
  match op with
  | SFinish id' owner' | SReschedule id' owner' _ _ _ => id' ≠ id ∨ owner' ≠ owner
  | STick waited => 0 ≤ waited
  | _ => True
  end.

Definition elapsed (ops : list status_op) : duration :=
  foldr (λ op t, match op with STick waited => waited + t | _ => t end) 0 ops.

Lemma foreign_not_held id w o owner t b :
  ob_lease o = Some (owner, t) → id ≠ ob_id o ∨ w ≠ owner → held_status id w o && b = false.
Proof.
  intros Hl Hf. unfold held_status. rewrite Hl. apply andb_false_iff. left.
  destruct (decide (ob_id o = id)) as [Heq|Hne]; [|by rewrite (bool_decide_eq_false_2 (ob_id o = id))].
  rewrite (bool_decide_eq_false_2 (fst <$> _ = _)) by (simpl; naive_solver). apply andb_false_r.
Qed.

Lemma leased_untouched op d o owner t :
  leased_until o owner t → db_now d < t → foreign_status (ob_id o) owner op → touched op d o = false.
Proof.
  intros [Hs Hl] Hlt Hf. destruct op as [| |id w|id w ? ? ?| |]; simpl in *; [..|done];
    unfold claimable_status, stale_status; rewrite ?Hs, ?Hl; simpl; rewrite ?andb_false_r; try done.
  - apply orb_false_iff. split; [|done]. apply Z.leb_gt. lia.
  - by eapply foreign_not_held.
  - rewrite <-(andb_true_r (held_status _ _ _)). by eapply foreign_not_held.
Qed.

Lemma status_exec_now op d :
  db_now (status_exec op d) = match op with STick w => db_now d + w | _ => db_now d end.
Proof.
  destruct op; simpl; [..|done].
  - unfold ClaimCommitStatus. destruct (_ || _); [done|]. unfold transaction.
    destruct (candidate_status _ _); [|done]. by destruct (_ <? _).
  - unfold RecoverCommitStatusLeases. by destruct (_ || _).
  - unfold FinishCommitStatus. destruct (_ || _); [done|]. unfold update_outbox. by destruct (_ <>? 1).
  - unfold RescheduleCommitStatus. destruct (_ || _); [done|]. unfold update_outbox. by destruct (_ <>? 1).
  - unfold ReplayCommitStatus. destruct (_ || _); [done|]. unfold transaction, update_outbox. by destruct (_ <>? 1).
Qed.

Lemma elapsed_nonneg id owner ops : Forall (foreign_status id owner) ops → 0 ≤ elapsed ops.
Proof. induction 1 as [|[] ops Hf _ IH]; simpl in *; lia. Qed.

Lemma leased_play ops d o owner t :
  NoDup (ob_id <$> db_outbox d) → o ∈ db_outbox d → leased_until o owner t →
  Forall (foreign_status (ob_id o) owner) ops → db_now d + elapsed ops < t →
  NoDup (ob_id <$> db_outbox (status_play ops d)) ∧ o ∈ db_outbox (status_play ops d) ∧
  db_now (status_play ops d) < t.
Proof.
  intros Hnd Ho Hl Hops. revert d Hnd Ho. induction Hops as [|op ops Hf Hops IH]; intros d Hnd Ho Hlt.
  { simpl in *. split; [done|]. split; [done|lia]. }
  pose proof (elapsed_nonneg _ _ _ Hops). pose proof (status_exec_now op d) as Hnow.
  assert (db_now d < t) by (destruct op; simpl in *; lia).
  apply (IH (status_exec op d)).
  - by rewrite status_exec_ids.
  - apply untouched_kept; [done|done|]. by eapply leased_untouched.
  - rewrite Hnow. destruct op; simpl in *; lia.
Qed.

(** ** Theorems *)

(** After a failed delivery the next attempt is between one second and 256
    seconds away, so the limit of five minutes is never applied; the status is given
    up exactly when the error is permanent, after eight attempts, or when it would
    expire before the next attempt; and the error code is one that the outbox
    accepts. *)
Theorem retry_schedule now item rate_limited invalid next code dead :
  1 ≤ it_AttemptCount item → retryDecision now item rate_limited invalid = (next, code, dead) →
  (next = if rate_limited then now + Minute
          else now + Second * 2 ^ Z.min (it_AttemptCount item - 1) 8) ∧
  now + Second ≤ next ≤ now + 256 * Second ∧
  (dead = true ↔ invalid = true ∨ 8 ≤ it_AttemptCount item ∨ it_ExpiresAt item ≤ next) ∧
  1 ≤ len code ≤ 64.
Proof.
  intros Ha. unfold retryDecision. rewrite Z.max_l by lia. set (shift := Z.min (it_AttemptCount item - 1) 8).
  assert (Hs : 0 ≤ shift ≤ 8) by lia.
  assert (Hp : 1 ≤ 2 ^ shift ≤ 256).
  { pose proof (Z.pow_le_mono_r 2 0 shift ltac:(lia) ltac:(lia)).
    pose proof (Z.pow_le_mono_r 2 shift 8 ltac:(lia) ltac:(lia)). lia. }
  rewrite Z.shiftl_1_l. assert (HS : Second = 1000000000) by reflexivity.
  assert (HM : Minute = 60 * Second) by reflexivity.
  assert ((5 * Minute <? Second * 2 ^ shift) = false) as -> by (apply Z.ltb_ge; lia).
  assert (Hd : ∀ n, invalid || (statusMaximumAttempts <=? it_AttemptCount item) || negb (n <? it_ExpiresAt item) = true
    ↔ invalid = true ∨ 8 ≤ it_AttemptCount item ∨ it_ExpiresAt item ≤ n).
  { intros n. rewrite !orb_true_iff, negb_true_iff, Z.leb_le, Z.ltb_ge. unfold statusMaximumAttempts. tauto. }
  destruct rate_limited; unfold statusRateLimitDelay; intros [= <- <- <-];
    (split; [done|split; [lia|split; [apply Hd|by destruct invalid; vm_compute]]]).
Qed.

(** A delivered commit status is final: no claim, recovery, completion,
    rescheduling or replay changes it, so it is not delivered again. *)
Theorem delivered_is_final ops d o :
  NoDup (ob_id <$> db_outbox d) → o ∈ db_outbox d → ob_delivery_state o = DeliveryDelivered →
  o ∈ db_outbox (status_play ops d).
Proof.
  intros Hnd Ho Hs. revert d Hnd Ho. induction ops as [|op ops IH]; intros d Hnd Ho; [done|].
  apply (IH (status_exec op d)).
  - by rewrite status_exec_ids.
  - apply untouched_kept; [done|done|by apply delivered_untouched].
Qed.

(** A worker that claimed a status can finish it as long as its lease has not
    expired, whatever the other workers and administrators do in between; the status
    is then delivered. *)
Theorem claim_is_exclusive locked owner lease d d1 item ops :
  NoDup (ob_id <$> db_outbox d) → owner ≠ uuid_Nil →
  ClaimCommitStatus locked owner lease d = (d1, Ok (Some item)) → it_ID item ≠ uuid_Nil →
  Forall (foreign_status (it_ID item) owner) ops → elapsed ops < lease →
  ∃ d2 o, FinishCommitStatus (it_ID item) owner (status_play ops d1) = (d2, Ok tt) ∧
    o ∈ db_outbox d2 ∧ ob_id o = it_ID item ∧ ob_delivery_state o = DeliveryDelivered.
Proof.
  intros Hnd Hw Hc Hid Hops He. pose proof (status_exec_ids (SClaim locked owner lease) d) as Hids.
  simpl in Hids. rewrite Hc in Hids. unfold ClaimCommitStatus in Hc. destruct (_ || _); [done|].
  unfold transaction in Hc. destruct (candidate_status locked d) as [c|] eqn:Hcand; [|done].
  destruct (_ <? _); [done|]. injection Hc as <- <-. apply candidate_status_spec in Hcand as (Hin & _ & _).
  set (t := db_now d + lease). set (o := leased_status owner t c). simpl in Hid, Hops.
  cbn [fst] in Hids. set (d1 := with_outbox _ d) in *.
  destruct (leased_play ops d1 o owner t) as (Hnd' & Ho & Hlt); [by rewrite Hids| |done|exact Hops|simpl; lia|].
  { apply list_elem_of_fmap. exists c. by rewrite bool_decide_eq_true_2. }
  set (d2 := status_play ops d1) in *. unfold FinishCommitStatus.
  rewrite !bool_decide_eq_false_2 by done. simpl. unfold update_outbox.
  set (p := λ o', held_status _ _ o' && _). assert (Hp : p o = true).
  { unfold p, held_status. simpl. rewrite !bool_decide_eq_true_2 by done. simpl. by apply Z.ltb_lt. }
  destruct (update_one ob_id (ob_id c) p (λ o', ob_set DeliveryDelivered (ob_attempt_count o')
      (ob_available_at o') (ob_expires_at o') None None (Some (db_now d2)) o') (db_outbox d2) Hnd')
    as [(Hn & _)|(i & x & Hx & Hpx & Hu & Hf)].
  - unfold p, held_status. intros x Hx. by bools.
  - by rewrite (Hn o Ho) in Hp.
  - rewrite Hf. simpl. eexists _, _. split; [done|]. split.
    + simpl. rewrite Hu. eapply list_elem_of_lookup_2. by rewrite list_lookup_alter_eq, Hx.
    + unfold p, held_status in Hpx. by bools.
Qed.

(** ** Examples *)

Definition demo_status (id : uuid) (key : string) : outboxRow :=
  mkOutboxRow id 20 30 "github" "0123456789abcdef0123456789abcdef01234567" StatePending "Run queued" key
    DeliveryQueued 0 0 (24 * Hour) None None None 0.
Definition demo_outbox (rows : list outboxRow) : database :=
  mkDatabase [] ∅ [] ∅ rows [] ∅ ∅ (mkDirectory 1 ∅ ∅ ∅ ∅ [] []) 0.
Definition none_locked (_ : uuid) : bool := false.

Lemma retry_schedule_witness :
  let item := item_of "7" 5 (60 * Second) (leased_status 5 (60 * Second)
    (ob_set DeliveryQueued 2 0 (24 * Hour) None None None (demo_status 1 "run:1:pending"))) in
  ∃ dead, retryDecision 0 item false false = (4 * Second, "provider_transient", dead) ∧
    (dead = true ↔ false = true ∨ 8 ≤ it_AttemptCount item ∨ it_ExpiresAt item ≤ 4 * Second).
Proof.
  cbv zeta. set (item := item_of _ _ _ _). exists false. split; [reflexivity|].
  apply (retry_schedule 0 item false false (4 * Second) "provider_transient" false); [simpl; lia|reflexivity].
Defined.

(** One status delivered by worker 5 while worker 6 recovers, claims and waits. *)
Definition demo_delivered : database :=
  status_play [SClaim none_locked 5 Minute; SFinish 1 5] (demo_outbox [demo_status 1 "run:1:pending"]).

Lemma delivered_is_final_witness :
  ∃ o, o ∈ db_outbox demo_delivered ∧ ob_delivery_state o = DeliveryDelivered ∧
    o ∈ db_outbox (status_play [STick (25 * Hour); SRecover none_locked 10; SClaim none_locked 6 Minute;
                                SReplay 1 9] demo_delivered).
Proof.
  destruct (db_outbox demo_delivered) as [|o rest] eqn:Hd; [vm_compute in Hd; discriminate|].
  assert (Ho : o ∈ db_outbox demo_delivered) by (rewrite Hd; left).
  assert (Hs : ob_delivery_state o = DeliveryDelivered).
  { vm_compute in Hd. injection Hd as <- <-. reflexivity. }
  exists o. split; [rewrite <-Hd; exact Ho|]. split; [exact Hs|].
  apply delivered_is_final; [|exact Ho|exact Hs].
  apply (bool_decide_unpack _). vm_compute. exact I.
Defined.

Lemma claim_is_exclusive_witness :
  let d := demo_outbox [demo_status 1 "run:1:pending"; demo_status 2 "run:2:pending"] in
  match ClaimCommitStatus none_locked 5 Minute d with
  | (d1, Ok (Some item)) =>
    ∃ d2, FinishCommitStatus (it_ID item) 5
            (status_play [SClaim none_locked 6 Minute; SFinish 1 6; STick (59 * Second);
                          SRecover none_locked 10] d1) = (d2, Ok tt)
  | _ => False
  end.
Proof.
  cbv zeta. set (d := demo_outbox _).
  destruct (ClaimCommitStatus none_locked 5 Minute d) as [d1 r] eqn:Hc.
  assert (Hr : it_ID <$> (match r with Ok i => i | Err _ => None end) = Some 1%N).
  { change r with (d1, r).2. rewrite <-Hc. vm_compute. reflexivity. }
  destruct r as [[item|]|e]; try discriminate Hr. injection Hr as Hid.
  destruct (claim_is_exclusive none_locked 5 Minute d d1 item
    [SClaim none_locked 6 Minute; SFinish 1 6; STick (59 * Second); SRecover none_locked 10])
    as (d2 & o & Hf & _).
  - apply (bool_decide_unpack _). vm_compute. exact I.
  - discriminate.
  - exact Hc.
  - rewrite Hid. discriminate.
  - repeat (apply Forall_cons; split); simpl; [exact I|right; discriminate|vm_compute; discriminate|exact I|constructor].
  - vm_compute. reflexivity.
  - exists d2. exact Hf.
Defined.

(** A worker that loses its lease: it claims, exceeds the lease, and is recovered. *)
Definition lost_lease : list status_op :=
  [SClaim none_locked 5 StatusLeaseDuration; STick (61 * Second); SRecover none_locked StatusRecoveryBatch].

(** Recovery puts a status whose lease was lost back in the queue without a limit
    on the number of attempts, but the table allows at most 100: after 100 lost
    leases every claim fails, and a second status that is ready is not delivered
    although nothing is wrong with it. *)
Theorem lost_leases_block_the_queue :
  ∃ ops d, d = status_play ops (demo_outbox [demo_status 1 "run:1:pending";
      ob_set DeliveryQueued 0 1 (24 * Hour) None None None (demo_status 2 "run:2:pending")]) ∧
    ops = mjoin (replicate 100 lost_lease) ∧
    (∀ owner, ClaimCommitStatus none_locked owner StatusLeaseDuration d = (d, Err ErrDatabase)) ∧
    (∃ o, o ∈ db_outbox d ∧ ob_id o = 2%N ∧ ob_attempt_count o = 0 ∧ claimable_status (db_now d) o = true).
Proof.
  eexists _, _. split; [reflexivity|]. split; [reflexivity|].
  set (d := status_play _ _).
  split.
  - intros owner. unfold ClaimCommitStatus.
    assert ((StatusLeaseDuration <=? 0) || (15 * Minute <? StatusLeaseDuration) = false) as -> by reflexivity.
    unfold transaction.
    assert (Hc : candidate_status none_locked d = Some (ob_set DeliveryQueued 100 0 (24 * Hour) None None None
      (demo_status 1 "run:1:pending"))) by (vm_compute; reflexivity).
    rewrite Hc. reflexivity.
  - exists (ob_set DeliveryQueued 0 1 (24 * Hour) None None None (demo_status 2 "run:2:pending")).
    split; [|vm_compute; done]. apply (list_elem_of_lookup_2 _ 1). vm_compute. reflexivity.
Qed.
