(* ===== verification/Logs.v ===== *)
(** Job logs from the runner to the database: the buffer of the runner
    (internal/runner/logs.go), the handler of the server (handleLog of
    internal/runnergrpc/server.go) and the store (internal/store/postgres/logs.go). *)

From S2P Require Import Prelude GoStd RunModel Database PgStore.

(** ** store/postgres/logs.go *)

Section Store.
Variable sha256 : string → string.

(** [SELECT true FROM jobs WHERE ... AND status='running'] *)
Definition log_lease (now : time) (q : LeaseRequest) (j : jobRow) : bool :=
  leased_row sha256 now q j && (jr_status j =? JobRunning).

(** [INSERT INTO job_log_streams ... ON CONFLICT DO NOTHING] and the row read back. *)
Definition log_stream (job : jobRow) (d : database) : streamRow :=
  match db_streams d !! jr_id job with
  | Some s => s
  | None => mkStreamRow 1 0 false (jr_created_at job + LogRetention)
  end.

Definition stored_chunk (c : LogChunk) : chunkRow :=
  mkChunkRow (lc_Step c) (lc_Stream c) (lc_Data c) (lc_Truncated c).

Definition job_chunks (id : uuid) (d : database) : gmap Z chunkRow := default ∅ (db_chunks d !! id).

Definition put_stream (id : uuid) (s : streamRow) (d : database) : database :=
  with_logs (<[id := s]> (db_streams d)) (db_chunks d) d.

Definition put_chunk (id : uuid) (s : streamRow) (n : Z) (k : chunkRow) (d : database) : database :=
  with_logs (<[id := s]> (db_streams d)) (<[id := <[n := k]> (job_chunks id d)]> (db_chunks d)) d.

Definition AppendLogChunk (c : LogChunk) : database → database * result RunError unit :=
  if negb (ValidateLogChunk c) then λ d, (d, Err ErrInvalidLogChunk)
  else transaction (λ d,
    let id := lr_JobID (lc_Lease c) in
    match list_find (λ j, log_lease (db_now d) (lc_Lease c) j = true) (db_jobs d) with
    | None => Err ErrLeaseInvalid
    | Some (_, job) =>
      let s := log_stream job d in
      let d := put_stream id s d in
      if st_expires_at s <=? db_now d then Err ErrLogExpired
      else if lc_Sequence c <? st_next_sequence s then
        match job_chunks id d !! lc_Sequence c with
        | None => Err ErrLogSequence
        | Some k => if k <>? stored_chunk c then Err ErrLogSequence else Ok (d, tt)
        end
      else if lc_Sequence c <>? st_next_sequence s then Err ErrLogSequence
      else if st_truncated s || (MaxJobLogBytes <? st_total_bytes s + Z.of_nat (length (lc_Data c)))
              || ((lc_Sequence c =? MaxJobLogChunks) && negb (lc_Truncated c))
      then Err ErrLogLimit
      else
        let s := mkStreamRow (st_next_sequence s + 1) (st_total_bytes s + Z.of_nat (length (lc_Data c)))
                   (lc_Truncated c) (st_expires_at s) in
        Ok (put_chunk id s (lc_Sequence c) (stored_chunk c) d, tt)
    end).

(** ** runnergrpc/server.go *)

(** The chunk that the runner sends: [runnerv1.LogChunk] with a decoded job id. *)
Record wireChunk := mkWire {
  wc_Sequence : Z;
  wc_StepIndex : Z;
  wc_Stderr : bool;
  wc_Data : bytes;
  wc_Truncated : bool;
}.

(** [handleLog]: whether the chunk is acknowledged; any error ends the stream. *)
Definition handleLog (q : LeaseRequest) (message : wireChunk) (d : database) : database * bool :=
  if (MaxJobLogChunks <? wc_Sequence message) || (1023 <? wc_StepIndex message) then (d, false)
  else
    let output := if wc_Stderr message then "stderr" else "stdout" in
    let chunk := mkChunk q (wc_Sequence message) (wc_StepIndex message) output (wc_Data message)
                   (wc_Truncated message) in
    if negb (ValidateLogChunk chunk) then (d, false)
    else
      let '(d, r) := AppendLogChunk chunk d in
      (d, match r with Ok _ => true | Err _ => false end).
End Store.

(** ** runner/logs.go *)

(** [logBuffer] between two calls of [Write]; a chunk is pending only inside one. *)
Record logBuffer := mkLogBuffer {
  lb_sequence : Z;
  lb_total : Z;
  lb_truncated : bool;
}.

Definition newLogBuffer : logBuffer := mkLogBuffer 0 0 false.

Section Writer.
(** The world outside the buffer: [deliver] hands a chunk to the work loop and
    waits until it is acknowledged ([true]) or the context of the job is done. *)
Context {E : Type} (deliver : E → wireChunk → E * bool) (canceled : E → bool).

(** One chunk of [Write]: its length, whether it is the truncation marker. *)
Definition next_chunk (step : Z) (stderr : bool) (b : logBuffer) (p : bytes) : nat * wireChunk * logBuffer :=
  let n := Z.min (Z.min (Z.of_nat (length p)) MaxLogChunkBytes) (MaxJobLogBytes - lb_total b) in
  let marker := (n =? 0) || (MaxJobLogChunks - 1 <=? lb_sequence b) in
  let n := if marker then 0%nat else Z.to_nat n in
  let sequence := lb_sequence b + 1 in
  (n, mkWire sequence step stderr (take n p) marker,
   mkLogBuffer sequence (lb_total b) (lb_truncated b || marker)).

(** [Write]: the buffer, the world, the result [n] and whether there was an error.
    Every turn consumes a byte or sets [truncated], so [length p + 1] turns are enough. *)
Fixpoint write_log (fuel : nat) (step : Z) (stderr : bool) (original : Z) (p : bytes) (written : Z)
    (b : logBuffer) (e : E) : logBuffer * E * Z * bool :=
  match fuel with
  | O => (b, e, original, false)
  | S fuel =>
    if (length p =? 0)%nat then (b, e, original, false)
    else if canceled e then (b, e, written, true)
    else if lb_truncated b then (b, e, original, false)
    else
      let '(n, c, b) := next_chunk step stderr b p in
      let '(e, acknowledged) := deliver e c in
      if negb acknowledged then (b, e, written, true)
      else write_log fuel step stderr original (drop n p) (written + Z.of_nat n)
             (mkLogBuffer (lb_sequence b) (lb_total b + Z.of_nat n) (lb_truncated b)) e
  end.

Definition logWriter_Write (step : Z) (stderr : bool) (p : bytes) (b : logBuffer) (e : E)
    : logBuffer * E * Z * bool :=
  write_log (S (length p)) step stderr (Z.of_nat (length p)) p 0 b e.

(** A job writes to several pipes, one call after the other. *)
Fixpoint write_all (writes : list (Z * bool * bytes)) (b : logBuffer) (e : E) : logBuffer * E * bool :=
  match writes with
  | [] => (b, e, false)
  | (step, stderr, p) :: writes =>
    let '(b, e, _, failed) := logWriter_Write step stderr p b e in
    if (failed : bool) then (b, e, true) else write_all writes b e
  end.
End Writer.
