(* ===== verification/PgRefine.v ===== *)
(** The PostgreSQL store implements the job scheduler: every transaction is a
    sequence of scheduler steps on the rows of [jobs], keeps run records and the
    commit status outbox consistent with the jobs, and never changes the status of a
    finished run. *)

From stdpp Require Import relations.
From S2P Require Import Prelude GoStd RunModel Pipeline MemoryStore Scheduler RunSpec PlanFacts MemoryRefine Authorization Database Identity PgStore PgActions.

(** What the scheduler sees of a row. *)
Definition row_view (j : jobRow) : ajob :=
  mkAjob (jr_id j) (jr_run_id j) (jr_job_key j) (jr_dependencies j) (jr_status j).

Abbreviation rows d := (row_view <$> db_jobs d).

(** A goal about the status of a row that a hypothesis gives. *)
Ltac by_status := by match goal with H : jr_status _ = _ |- _ => rewrite H end.

(** ** Statements, seen by the scheduler *)

Lemma elem_of_rows d j : j ∈ db_jobs d → row_view j ∈ rows d.
Proof. apply list_elem_of_fmap_2. Qed.

Lemma row_ids_NoDup d : structure (rows d) → NoDup (jr_id <$> db_jobs d).
Proof. intros Hs%str_ids. by rewrite <-list_fmap_compose in Hs. Qed.

Lemma row_succeeded_view jobs run key :
  row_succeeded jobs run key = succeeded (row_view <$> jobs) run key.
Proof.
  unfold row_succeeded, succeeded. induction jobs as [|j jobs IH]; [done|]. simpl. by rewrite IH.
Qed.

Lemma row_ready_view jobs j :
  negb (existsb (λ dependency, negb (row_succeeded jobs (jr_run_id j) dependency)) (jr_dependencies j))
  = ready (row_view <$> jobs) (row_view j).
Proof.
  unfold ready. cbn [aj_deps aj_run row_view]. induction (jr_dependencies j) as [|k ks IH]; [done|]. cbn [existsb forallb].
  rewrite negb_orb, negb_involutive, row_succeeded_view. by f_equal.
Qed.

Lemma rows_unblock run d : rows (unblock_jobs run d) = a_unblock run (rows d).
Proof.
  unfold unblock_jobs, update_jobs. cbn [fst db_jobs with_jobs]. apply fmap_update_all; [|done].
  intros j _. by rewrite row_ready_view.
Qed.

Lemma rows_skip run d : rows (skip_jobs run d) = a_skip run (rows d).
Proof. by apply fmap_update_all. Qed.

Lemma rows_cancel run d : rows (cancel_jobs run d) = a_cancel run (rows d).
Proof. by apply fmap_update_all. Qed.

(** An update of at most one row. *)
Lemma update_row id p f d :
  NoDup (jr_id <$> db_jobs d) → (∀ j, p j = true → jr_id j = id) →
  ((update_jobs p f d).2 = 0 ∧ (update_jobs p f d).1 = d) ∨
  ((update_jobs p f d).2 = 1 ∧ ∃ i j, db_jobs d !! i = Some j ∧ p j = true ∧
     (update_jobs p f d).1 = with_jobs (alter f i (db_jobs d)) d).
Proof.
  intros Hnd Hp. unfold update_jobs. cbn [fst snd].
  destruct (update_one jr_id id p f (db_jobs d) Hnd Hp) as [(_ & -> & ->)|(i & j & Hj & Hpj & -> & ->)].
  - left. split; [done|by destruct d].
  - right. split; [done|]. eauto.
Qed.

Lemma update_row_cases id p f d d1 n :
  update_jobs p f d = (d1, n) → NoDup (jr_id <$> db_jobs d) → (∀ j, p j = true → jr_id j = id) →
  (n = 0 ∧ d1 = d) ∨
  (n = 1 ∧ ∃ i j, db_jobs d !! i = Some j ∧ p j = true ∧ d1 = with_jobs (alter f i (db_jobs d)) d).
Proof. intros Hu Hnd Hp. pose proof (update_row id p f d Hnd Hp) as Hc. by rewrite Hu in Hc. Qed.

Lemma rows_alter f st i d :
  (∀ j, row_view (f j) = aj_set st (row_view j)) →
  rows (with_jobs (alter f i (db_jobs d)) d) = alter (aj_set st) i (rows d).
Proof. apply fmap_alter. Qed.

Lemma rows_alter_same f i d :
  (∀ j, row_view (f j) = row_view j) → rows (with_jobs (alter f i (db_jobs d)) d) = rows d.
Proof.
  intros Hf. simpl. rewrite (fmap_alter row_view f id) by done.
  apply list_eq. intros k. rewrite list_lookup_alter. case_decide; subst; by destruct (_ !! k).
Qed.

Lemma row_lookup d i j : db_jobs d !! i = Some j → rows d !! i = Some (row_view j).
Proof. intros Hj. by rewrite list_lookup_fmap, Hj. Qed.

(** Counting the rows of a run by status. *)
Lemma count_rows run (P : JobStatus → bool) d :
  count_jobs (λ j, (jr_run_id j =? run) && P (jr_status j)) d
  = Z.of_nat (length (List.filter P (run_statuses run (rows d)))).
Proof.
  unfold count_jobs, run_statuses. f_equal. induction (db_jobs d) as [|j jobs IH]; [done|].
  rewrite fmap_cons, filter_cons. cbn [List.filter aj_run row_view].
  case_bool_decide as Hr; [rewrite decide_True by done|rewrite decide_False by done]; [|exact IH].
  rewrite fmap_cons. cbn [List.filter andb aj_status row_view]. destruct (P (jr_status j)); simpl; by rewrite IH.
Qed.

Lemma filter_length_existsb {A} (P : A → bool) l :
  existsb P l = (0 <? Z.of_nat (length (List.filter P l))).
Proof.
  induction l as [|x l IH]; [done|]. simpl. destruct (P x); simpl; [|exact IH].
  symmetry. apply Z.ltb_lt. lia.
Qed.

Lemma existsb_elem_of `{EqDecision A} (x : A) l : existsb (λ y, y =? x) l = bool_decide (x ∈ l).
Proof.
  apply eq_true_iff_eq. rewrite existsb_exists, bool_decide_eq_true. split.
  - intros (y & Hy & ->%bool_decide_eq_true). by apply list_elem_of_In.
  - intros Hx. exists x. by rewrite <-list_elem_of_In, bool_decide_eq_true.
Qed.

Lemma run_remaining run d :
  (count_jobs (λ j, (jr_run_id j =? run) && job_open (jr_status j)) d <>? 0)
  = existsb job_open (run_statuses run (rows d)).
Proof.
  rewrite count_rows, filter_length_existsb. set (n := length _).
  destruct n; [done|]. rewrite bool_decide_eq_false_2 by lia. symmetry. apply Z.ltb_lt. lia.
Qed.

(** The final status that the counts give is that of the in-memory store. *)
Lemma run_final_status run d :
  (if 0 <? count_jobs (λ j, (jr_run_id j =? run) && (jr_status j =? JobFailed)) d then StatusFailed
   else if 0 <? count_jobs (λ j, (jr_run_id j =? run) && (jr_status j =? JobCanceled)) d then StatusCanceled
   else StatusSucceeded) = final_status (run_statuses run (rows d)).
Proof.
  pose proof (count_rows run (λ s, s =? JobFailed) d) as Hf.
  pose proof (count_rows run (λ s, s =? JobCanceled) d) as Hc. cbv beta in Hf, Hc.
  rewrite Hf, Hc, <-!filter_length_existsb, !existsb_elem_of. unfold final_status.
  by repeat case_bool_decide.
Qed.

(** ** The invariant *)

Section Refinement.
Variable sha256 : string → string.
Variable uuid_String : uuid → string.
Variable json_unmarshal : string → option Plan.

(** The plan of a run and the keys and dependencies of its jobs. *)
Definition run_shape (run : uuid) (jobs : list ajob) : list (string * list string) :=
  (λ j, (aj_key j, aj_deps j)) <$> filter (λ j, aj_run j = run) jobs.

Definition plan_shape (stages : list PlanStage) : list (string * list string) :=
  (λ j, (mj_key j, mj_dependencies j)) <$> plan_jobs 0%N (λ _, 0%N) stages.

Record planned (jobs : list ajob) (r : RunRecord) : Prop := {
  pl_stages : ∀ plan, json_unmarshal (rn_Plan r) = Some plan →
    (run_shape (rn_ID r) jobs ≠ [] → stages_ok (pn_Stages plan)) ∧ run_shape (rn_ID r) jobs = plan_shape (pn_Stages plan);
  pl_sha : rn_ProjectID r ≠ None → len (rn_CommitSHA r) = 40 → sha_allowed (rn_CommitSHA r) = true;
}.

(** A row of the outbox announces the submission or the result of a run. *)
Definition announces (runs : list RunRecord) (o : outboxRow) : Prop :=
  ∃ r, r ∈ runs ∧ rn_ID r = ob_run_id o ∧
    ((ob_key o = status_key uuid_String (rn_ID r) "pending" ∧ ob_state o = "pending") ∨
     (ob_key o = status_key uuid_String (rn_ID r) "final" ∧ Terminal (rn_Status r) = true ∧
      ob_state o = (commit_state (rn_Status r)).1.1)).

Record pg_inv (d : database) : Prop := {
  pv_store : store_inv (db_runs d) (rows d);
  pv_planned : ∀ r, r ∈ db_runs d → planned (rows d) r;
  pv_outbox : ∀ o, o ∈ db_outbox d → announces (db_runs d) o;
  pv_keys : NoDup (ob_key <$> db_outbox d);
}.

(** The runs that have finished keep their status. *)
Definition results_kept (d d' : database) : Prop :=
  ∀ r, r ∈ db_runs d → Terminal (rn_Status r) = true →
    ∃ r', r' ∈ db_runs d' ∧ rn_ID r' = rn_ID r ∧ rn_Status r' = rn_Status r.

Definition pg_refines (d d' : database) : Prop :=
  pg_inv d → pg_inv d' ∧ rtc sstep (rows d) (rows d') ∧ results_kept d d'.

Lemma results_kept_refl d d' : db_runs d' = db_runs d → results_kept d d'.
Proof. intros Hr r Hin _. exists r. by rewrite Hr. Qed.

Lemma results_kept_trans d1 d2 d3 : results_kept d1 d2 → results_kept d2 d3 → results_kept d1 d3.
Proof.
  intros H12 H23 r Hr Ht. destruct (H12 r Hr Ht) as (r2 & Hr2 & Hid2 & Hst2).
  destruct (H23 r2 Hr2) as (r3 & ? & ? & ?); [by rewrite Hst2|]. exists r3. split; [done|]. split; congruence.
Qed.

Lemma pg_refines_refl d : pg_refines d d.
Proof. intros Hd. split; [done|]. split; [reflexivity|by apply results_kept_refl]. Qed.

Lemma pg_refines_trans d1 d2 d3 : pg_refines d1 d2 → pg_refines d2 d3 → pg_refines d1 d3.
Proof.
  intros H12 H23 Hd. destruct (H12 Hd) as (Hd2 & Hs2 & Hk2). destruct (H23 Hd2) as (Hd3 & Hs3 & Hk3).
  split; [done|]. split; [by etrans|by eapply results_kept_trans].
Qed.

(** What the scheduler and the outbox do not depend on. *)
Lemma pg_refines_quiet d d' :
  db_runs d' = db_runs d → rows d' = rows d → db_outbox d' = db_outbox d → pg_refines d d'.
Proof.
  intros Hr Hj Ho [Hs Hp Ho' Hk]. split; [|split; [by rewrite Hj|by apply results_kept_refl]].
  split; rewrite ?Hr, ?Hj, ?Ho; done.
Qed.

Lemma transaction_refines {A} (body : database → result RunError (database * A)) d :
  (∀ d' a, body d = Ok (d', a) → pg_refines d d') → pg_refines d (transaction body d).1.
Proof.
  intros Hb. unfold transaction. destruct (body d) as [[d' a]|e]; [by eapply Hb|apply pg_refines_refl].
Qed.

(** *** An operation on one run *)

Lemma run_shape_skeleton run jobs jobs' :
  skeleton <$> jobs' = skeleton <$> jobs → run_shape run jobs' = run_shape run jobs.
Proof.
  revert jobs. induction jobs' as [|j' jobs' IH]; intros [|j jobs] Heq; try done.
  injection Heq as Hid Hrun Hkey Hdeps Heq. unfold run_shape. rewrite !filter_cons, Hrun.
  case_decide; [rewrite !fmap_cons, Hkey, Hdeps; f_equal|]; by apply (IH jobs).
Qed.

(** A record update that an operation on a run makes. *)
Record run_update (g : RunRecord → RunRecord) : Prop := {
  ru_id : ∀ r, rn_ID (g r) = rn_ID r;
  ru_plan : ∀ r, rn_Plan (g r) = rn_Plan r;
  ru_project : ∀ r, rn_ProjectID (g r) = rn_ProjectID r;
  ru_sha : ∀ r, rn_CommitSHA (g r) = rn_CommitSHA r;
}.

Lemma local_refines run g d d' :
  db_runs d' = touch run g (db_runs d) → db_outbox d' = db_outbox d → run_update g →
  rtc sstep (rows d) (rows d') → skeleton <$> rows d' = skeleton <$> rows d →
  (∀ run', run' ≠ run → run_statuses run' (rows d') = run_statuses run' (rows d)) →
  (pg_inv d → ∀ r, r ∈ db_runs d → rn_ID r = run → run_ok (run_statuses run (rows d)) r →
     run_ok (run_statuses run (rows d')) (g r) ∧ (Terminal (rn_Status r) = true → rn_Status (g r) = rn_Status r)) →
  pg_refines d d'.
Proof.
  intros Hr Ho Hg Hsteps Hsk Hother Hrun Hd. specialize (Hrun Hd). destruct Hd as [Hs Hp Houtbox Hk].
  assert (Hkept : ∀ r, r ∈ db_runs d → ∃ r', r' ∈ db_runs d' ∧ rn_ID r' = rn_ID r ∧
    (Terminal (rn_Status r) = true → rn_Status r' = rn_Status r)).
  { intros r Hin. rewrite Hr. exists (if rn_ID r =? run then g r else r). split.
    - apply list_elem_of_fmap. by exists r.
    - case_bool_decide as Heq; [|done]. split; [apply Hg|]. apply Hrun; [done|done|].
      rewrite <-Heq. by apply Hs. }
  split; [split|split; [done|]].
  - rewrite Hr. destruct Hs as [Hj Hids Hrec Hok].
    assert (Hin : ∀ r, r ∈ db_runs d → rn_ID r = run → run_ok (run_statuses run (rows d')) (g r)).
    { intros r Hin Heq. apply Hrun; [done|done|]. rewrite <-Heq. by apply Hok. }
    split.
    + by eapply ssteps_inv.
    + rewrite touch_ids; [done|apply Hg].
    + intros run'. rewrite (skeletons_runs _ _ Hsk), touch_ids by apply Hg. apply Hrec.
    + intros r (r0 & -> & Hr0)%list_elem_of_fmap. case_bool_decide as Heq.
      * rewrite (ru_id _ Hg), Heq. by apply Hin.
      * rewrite Hother by done. by apply Hok.
  - intros r. rewrite Hr. intros (r0 & -> & Hr0)%list_elem_of_fmap. destruct (Hp r0 Hr0) as [Hpl Hsha].
    case_bool_decide; split; rewrite ?(ru_id _ Hg), ?(ru_plan _ Hg), ?(ru_project _ Hg), ?(ru_sha _ Hg);
      rewrite ?(run_shape_skeleton _ _ _ Hsk); done.
  - intros o. rewrite Ho. intros Hin. destruct (Houtbox o Hin) as (r & Hrin & Hid & Hann).
    destruct (Hkept r Hrin) as (r' & Hr' & Hid' & Hst'). exists r'. rewrite Hid'. split; [done|]. split; [done|].
    destruct Hann as [?|(? & Ht & Hstate)]; [by left|right]. by rewrite Hst'.
  - by rewrite Ho.
  - intros r Hin Ht. destruct (Hkept r Hin) as (r' & ? & ? & ?). exists r'. auto.
Qed.

(** *** Single rows *)

Lemma touch_guard run p f records :
  update_all (λ r, (rn_ID r =? run) && p r) f records = touch run (λ r, if p r then f r else r) records.
Proof. apply list_fmap_ext. intros i r _. by destruct (rn_ID r =? run), (p r). Qed.

(** A finished run with an open job has failed. *)
Lemma terminal_open sts r :
  run_ok sts r → (∃ st, st ∈ sts ∧ job_open st = true) → Terminal (rn_Status r) = true →
  rn_Status r = StatusFailed.
Proof.
  intros Hok (st & Hst & Ho) Ht. destruct (rn_Status r) eqn:Hs; try done.
  - by rewrite (ro_succeeded _ _ Hok Hs st Hst) in Ho.
  - pose proof (ro_canceled _ _ Hok Hs) as Hc. rewrite existsb_false in Hc. by rewrite Hc in Ho.
Qed.

Lemma run_update_id : run_update id.
Proof. by split. Qed.

Lemma row_open d i j :
  db_jobs d !! i = Some j → job_open (jr_status j) = true →
  ∃ st, st ∈ run_statuses (jr_run_id j) (rows d) ∧ job_open st = true.
Proof.
  intros Hj Ho. exists (jr_status j). split; [|done]. apply elem_of_run_statuses.
  exists (row_view j). split; [by eapply elem_of_rows, list_elem_of_lookup_2|done].
Qed.

Lemma start_run_runs run d :
  db_runs (start_run run d) = touch run (λ r, if rn_Status r =? StatusQueued
    then with_status StatusRunning (with_started (coalesce (rn_StartedAt r) (db_now d)) r) else r) (db_runs d).
Proof. apply touch_guard. Qed.

(** Handing out a job. *)
Lemma claim_row_refines d i j f :
  db_jobs d !! i = Some j → jr_status j = JobQueued →
  (∀ k, row_view (f k) = aj_set JobAssigned (row_view k)) →
  (∃ r, r ∈ db_runs d ∧ rn_ID r = jr_run_id j ∧ claimable r = true) →
  pg_refines d (start_run (jr_run_id j) (with_jobs (alter f i (db_jobs d)) d)).
Proof.
  intros Hj Hq Hf (r0 & Hr0 & Hid0 & Hc0). pose proof (row_lookup _ _ _ Hj) as Hvj.
  pose proof (rows_alter f JobAssigned i d Hf) as Hrows.
  pose proof (start_run_runs (jr_run_id j) (with_jobs (alter f i (db_jobs d)) d)) as Hruns.
  cbn [db_runs with_jobs db_now] in Hruns.
  eapply local_refines with (run := jr_run_id j); [exact Hruns|done| |..].
  - split; intros r; by case_bool_decide.
  - change (rows (start_run _ ?x)) with (rows x). rewrite Hrows.
    by eapply rtc_once, s_assign.
  - change (rows (start_run _ ?x)) with (rows x). rewrite Hrows. apply skeleton_alter.
  - change (rows (start_run _ ?x)) with (rows x). rewrite Hrows. intros run' Hne. by eapply run_statuses_alter.
  - change (rows (start_run _ ?x)) with (rows x). rewrite Hrows. intros Hd r Hr Hid Hok.
    assert (r = r0) as ->.
    { eapply (NoDup_key_unique rn_ID); [apply (pv_store _ Hd)|done|done|congruence]. }
    assert (Hnew : ∃ st, st ∈ run_statuses (jr_run_id j) (alter (aj_set JobAssigned) i (rows d)) ∧ job_open st = true).
    { exists JobAssigned. split; [|done]. by apply (elem_of_run_statuses_alter i (row_view j)). }
    unfold claimable in Hc0. destruct (rn_Status r0) eqn:Hst; try done; simpl; (split; [|done]).
    + by apply run_ok_claim with (default (db_now d) (rn_StartedAt r0)).
    + eapply run_ok_move; [exact Hok|eapply row_open; [done|by rewrite Hq]|exact Hnew|].
      apply (failed_alter _ _ (row_view j)); [done|]. simpl. by rewrite Hq.
Qed.

(** A step between open statuses. *)
Lemma move_row_refines d i j f st :
  db_jobs d !! i = Some j → (∀ k, row_view (f k) = aj_set st (row_view k)) →
  job_open (jr_status j) = true → job_open st = true →
  sstep (rows d) (alter (aj_set st) i (rows d)) →
  pg_refines d (with_jobs (alter f i (db_jobs d)) d).
Proof.
  intros Hj Hf Ho Ho' Hstep. pose proof (row_lookup _ _ _ Hj) as Hvj.
  pose proof (rows_alter f st i d Hf) as Hrows.
  apply local_refines with (run := jr_run_id j) (g := id); rewrite ?Hrows.
  - symmetry. apply touch_id.
  - done.
  - apply run_update_id.
  - by apply rtc_once.
  - apply skeleton_alter.
  - intros run' Hne. by eapply run_statuses_alter.
  - intros _ r _ Hid Hok. split; [|done]. eapply run_ok_move; [exact Hok|by eapply row_open|..].
    + exists st. split; [|done]. by apply (elem_of_run_statuses_alter i (row_view j)).
    + apply (failed_alter _ _ (row_view j)); [done|]. simpl. intros Hs. by rewrite Hs in Ho.
Qed.

(** *** Outcomes *)

(** The jobs after the outcome of one of them was propagated. *)
Definition propagate_jobs (run : uuid) (outcome : JobStatus) (d : database) : database :=
  if outcome =? JobSucceeded then unblock_jobs run d
  else if (outcome =? JobFailed) || (outcome =? JobCanceled) then skip_jobs run d else d.

Lemma propagate_jobs_spec run outcome d :
  job_outcome outcome = true →
  rows (propagate_jobs run outcome d) = a_propagate run outcome (rows d) ∧
  db_runs (propagate_jobs run outcome d) = db_runs d ∧ db_outbox (propagate_jobs run outcome d) = db_outbox d ∧
  db_now (propagate_jobs run outcome d) = db_now d.
Proof.
  intros Ho. unfold propagate_jobs, a_propagate. destruct outcome; try done; simpl;
    (split; [|done]); first [apply rows_unblock|apply rows_skip].
Qed.

(** What [finalizeRunJobs] does before it announces the result. *)
Definition finished_run (run : uuid) (outcome : JobStatus) (d : database) : database :=
  let d := propagate_jobs run outcome d in
  update_runs (λ r, rn_ID r =? run) (g_final (run_statuses run (rows d)) (db_now d)) d.

Lemma finished_run_refines d i j f outcome :
  db_jobs d !! i = Some j → (∀ k, row_view (f k) = aj_set outcome (row_view k)) →
  job_leased (jr_status j) = true → job_outcome outcome = true →
  pg_refines d (finished_run (jr_run_id j) outcome (with_jobs (alter f i (db_jobs d)) d)).
Proof.
  intros Hj Hf Hl Ho. pose proof (row_lookup _ _ _ Hj) as Hvj.
  pose proof (rows_alter f outcome i d Hf) as Hrows.
  set (d1 := with_jobs _ d) in *. destruct (propagate_jobs_spec (jr_run_id j) outcome d1 Ho) as (Hp & Hpr & Hpo & Hpn).
  rewrite Hrows in Hp. unfold finished_run. rewrite Hp, Hpn. set (jobs' := a_propagate _ _ _).
  pose proof (s_complete _ i (row_view j) outcome Hvj Hl Ho : sstep (rows d) jobs') as Hstep.
  eapply local_refines with (run := jr_run_id j).
  - cbn [update_runs db_runs with_runs]. rewrite Hpr. reflexivity.
  - exact Hpo.
  - split; intros r; unfold g_final; by destruct (existsb _ _).
  - cbn [update_runs db_jobs with_runs]. rewrite Hp. by apply rtc_once.
  - cbn [update_runs db_jobs with_runs]. rewrite Hp. unfold jobs'. by rewrite skeleton_propagate, skeleton_alter.
  - cbn [update_runs db_jobs with_runs]. rewrite Hp. intros run' Hne. unfold jobs'.
    rewrite run_statuses_propagate by done. by eapply run_statuses_alter.
  - cbn [update_runs db_jobs with_runs]. rewrite Hp. intros Hd r Hr Hid Hok.
    assert (Hopen : ∃ st, st ∈ run_statuses (jr_run_id j) (rows d) ∧ job_open st = true).
    { eapply row_open; [done|]. by destruct (jr_status j). }
    assert (Hfail : JobFailed ∈ run_statuses (jr_run_id j) (rows d) → JobFailed ∈ run_statuses (jr_run_id j) jobs').
    { intros Hfl. apply failed_propagate. apply (failed_alter _ _ (row_view j)); [done| |done].
      simpl. intros Hs. by rewrite Hs in Hl. }
    split.
    + apply (final_run_ok _ _ _ _ _) with (1 := sstep_inv _ _ (si_jobs _ _ (pv_store _ Hd)) Hstep) (2 := Hok); done.
    + intros Ht. pose proof (terminal_open _ _ Hok Hopen Ht) as Hst. unfold g_final.
      destruct (existsb _ _); [done|]. simpl. rewrite Hst. unfold final_status.
      rewrite bool_decide_eq_true_2; [done|]. apply Hfail, (run_ok_failed _ _ Hok Hopen Hst).
Qed.

(** *** The outbox *)

(** An enqueued status is the only new row of the outbox. *)
Record enqueued (run : uuid) (st : Status) (d d' : database) : Prop := {
  en_same : d' = with_outbox (db_outbox d') d;
  en_rows : ∀ o, o ∈ db_outbox d' → o ∈ db_outbox d ∨
    (∃ r, r ∈ db_runs d ∧ rn_ID r = run) ∧ ob_run_id o = run ∧ (st = StatusQueued ∨ Terminal st = true) ∧
    ob_state o = (commit_state st).1.1 ∧ ob_key o = status_key uuid_String run (commit_state st).1.2;
  en_keys : NoDup (ob_key <$> db_outbox d) → NoDup (ob_key <$> db_outbox d');
}.

Lemma enqueued_none run st d : enqueued run st d d.
Proof. split; [by destruct d|by left|done]. Qed.

Lemma enqueue_spec o run st d d' :
  enqueueCommitStatusForRun uuid_String o run st d = Ok d' → enqueued run st d d'.
Proof.
  unfold enqueueCommitStatusForRun.
  destruct (_ && _) eqn:Hguard; [intros [= <-]; apply enqueued_none|].
  destruct (list_find _ _) as [[k r]|] eqn:Hfind; [|intros [= <-]; apply enqueued_none].
  apply list_find_Some in Hfind as (Hr%list_elem_of_lookup_2 & Hid & _).
  destruct (rn_ProjectID r) as [p|]; [|intros [= <-]; apply enqueued_none].
  destruct (_ !! p) as [repo|]; [|intros [= <-]; apply enqueued_none].
  destruct (_ <>? 40); [intros [= <-]; apply enqueued_none|].
  destruct (negb (sha_allowed _)); [intros [=]|]. destruct (commit_state st) as [[state suffix] description] eqn:Hcs.
  destruct (list_find _ (db_outbox d)) as [[k' existing]|] eqn:Hkey.
  { destruct (_ || _); intros [= <-]. apply enqueued_none. }
  intros [= <-]. split; [done|..].
  - intros q [Hq|Hq%list_elem_of_singleton]%elem_of_app; [by left|right]. subst q. cbn. rewrite Hcs.
    split; [by exists r|]. split; [done|]. split; [|done]. clear -Hguard. destruct st; auto.
  - intros Hk. cbn. rewrite fmap_app. apply NoDup_app. split; [done|]. split; [|apply NoDup_singleton].
    intros x Hx ->%list_elem_of_singleton. apply list_find_None in Hkey.
    apply list_elem_of_fmap in Hx as (q & Hq & Hin). rewrite Forall_forall in Hkey. by apply (Hkey q).
Qed.

Lemma enqueue_refines o run st d d' :
  (∀ r, r ∈ db_runs d → rn_ID r = run → st = StatusQueued ∨ rn_Status r = st) →
  enqueueCommitStatusForRun uuid_String o run st d = Ok d' → pg_refines d d'.
Proof.
  intros Hst [Hd' Hrows Hkeys]%enqueue_spec [Hs Hp Ho Hk]. rewrite Hd'.
  split; [|split; [reflexivity|by apply results_kept_refl]].
  split; cbn [db_runs db_jobs db_outbox with_outbox]; [done|done| |by apply Hkeys].
  intros q [Hq|((r & Hr & Hid) & Hrun & Ht & Hstate & Hkey)]%Hrows; [by apply Ho|].
  exists r. split; [done|]. split; [congruence|]. rewrite Hid, Hkey, Hstate.
  destruct Ht as [->|Ht]; [by left|]. right.
  destruct (Hst r Hr Hid) as [->|Hrs]; [done|]. rewrite Hrs. by destruct st.
Qed.

Lemma update_runs_id p d : update_runs p (λ r, r) d = d.
Proof.
  unfold update_runs, with_runs, update_all. destruct d; cbn. f_equal.
  rewrite <-(list_fmap_id db_runs) at 2. apply list_fmap_ext. intros i r _. by destruct (p r).
Qed.

Lemma finalize_eq o run outcome d :
  let d1 := finished_run run outcome d in
  let sts := run_statuses run (rows d1) in
  finalizeRunJobs uuid_String o run outcome d
  = if existsb job_open sts then Ok d1 else enqueueCommitStatusForRun uuid_String o run (final_status sts) d1.
Proof.
  unfold finalizeRunJobs. fold (propagate_jobs run outcome d). unfold finished_run. cbv zeta.
  set (d1 := propagate_jobs run outcome d). rewrite run_remaining, run_final_status. unfold g_final.
  change (rows (update_runs _ _ d1)) with (rows d1).
  destruct (existsb _ _); [by rewrite update_runs_id|done].
Qed.

Lemma finished_status run outcome d :
  let d1 := finished_run run outcome d in
  existsb job_open (run_statuses run (rows d1)) = false →
  ∀ r, r ∈ db_runs d1 → rn_ID r = run → rn_Status r = final_status (run_statuses run (rows d1)).
Proof.
  intros d1. unfold d1, finished_run. set (d2 := propagate_jobs _ _ d). change (rows (update_runs _ _ d2)) with (rows d2).
  intros Hc r (r0 & -> & _)%list_elem_of_fmap. case_bool_decide as Hid; [|done]. intros _. unfold g_final. by rewrite Hc.
Qed.

Lemma finalize_refines o d d' i j f outcome :
  db_jobs d !! i = Some j → (∀ k, row_view (f k) = aj_set outcome (row_view k)) →
  job_leased (jr_status j) = true → job_outcome outcome = true →
  finalizeRunJobs uuid_String o (jr_run_id j) outcome (with_jobs (alter f i (db_jobs d)) d) = Ok d' →
  pg_refines d d'.
Proof.
  intros Hj Hf Hl Ho He. pose proof (finished_run_refines _ _ _ _ _ Hj Hf Hl Ho) as Hfin.
  set (d1 := with_jobs _ d) in *. rewrite finalize_eq in He. cbv zeta in He.
  destruct (existsb _ _) eqn:Hc; [by injection He as <-|].
  eapply pg_refines_trans; [exact Hfin|]. eapply enqueue_refines; [|exact He].
  intros r Hr Hid. right. by apply finished_status.
Qed.

(** ** Operations *)

Lemma pg_refines_under d d' : (pg_inv d → pg_refines d d') → pg_refines d d'.
Proof. intros Hr Hd. by apply Hr. Qed.

Lemma pg_ids d : pg_inv d → NoDup (jr_id <$> db_jobs d).
Proof. intros Hd. apply row_ids_NoDup, Hd. Qed.

(** An update of the row with a given id. *)
Lemma update_row_refines id p f d :
  (∀ j, p j = true → jr_id j = id) →
  (∀ i j, db_jobs d !! i = Some j → p j = true → pg_refines d (with_jobs (alter f i (db_jobs d)) d)) →
  pg_refines d (update_jobs p f d).1.
Proof.
  intros Hid Hrow. apply pg_refines_under. intros Hd.
  destruct (update_row id p f d (pg_ids d Hd) Hid) as [(_ & ->)|(_ & i & j & Hj & Hp & ->)].
  - apply pg_refines_refl.
  - by eapply Hrow.
Qed.

(** The same for an update of columns that the scheduler does not see. *)
Lemma update_quiet_refines p f d : (∀ j, row_view (f j) = row_view j) → pg_refines d (update_jobs p f d).1.
Proof.
  intros Hf. apply pg_refines_quiet; [done| |done]. unfold update_jobs, update_all. cbn [fst db_jobs with_jobs].
  rewrite <-list_fmap_compose. apply list_fmap_ext. intros i j _. simpl. by destruct (p j).
Qed.

Lemma start_row_refines d i j f :
  db_jobs d !! i = Some j → job_leased (jr_status j) = true →
  (∀ k, row_view (f k) = aj_set JobRunning (row_view k)) → pg_refines d (with_jobs (alter f i (db_jobs d)) d).
Proof.
  intros Hj Hl Hf. eapply (move_row_refines d i j f JobRunning); [done|done|by destruct (jr_status j)|done|].
  by apply (s_start _ i (row_view j)), Hl; apply row_lookup.
Qed.

Lemma requeue_row_refines d i j f :
  db_jobs d !! i = Some j → jr_status j = JobAssigned →
  (∀ k, row_view (f k) = aj_set JobQueued (row_view k)) → pg_refines d (with_jobs (alter f i (db_jobs d)) d).
Proof.
  intros Hj Ha Hf. eapply (move_row_refines d i j f JobQueued); [done|done|by rewrite Ha|done|].
  by apply (s_requeue _ i (row_view j)), Ha; apply row_lookup.
Qed.

Lemma leased_row_spec now q j :
  leased_row sha256 now q j = true → jr_id j = lr_JobID q ∧ job_leased (jr_status j) = true.
Proof. intros H. unfold leased_row in H. by bools. Qed.

Lemma PgStartJob_refines id token d : pg_refines d (PgStartJob sha256 id token d).1.
Proof.
  apply transaction_refines. intros d' []. destruct (update_jobs _ _ d) as [d1 n] eqn:Hu.
  destruct (n <>? 1); intros [= <-]. change d1 with (d1, n).1. rewrite <-Hu.
  apply update_row_refines with (id := id); [intros j Hp; by bools|]. intros i j Hj Hp.
  eapply start_row_refines; [done| |done]. bools. by_status.
Qed.

(** The cases of an operation whose single statement is [update_jobs]. *)
Lemma PgStartRunnerJob_refines q d : pg_refines d (PgStartRunnerJob sha256 q d).1.
Proof.
  unfold PgStartRunnerJob. destruct (negb _); [apply pg_refines_refl|].
  apply transaction_refines. intros d' a. destruct (update_jobs _ _ d) as [d1 n] eqn:Hu.
  destruct (n =? 0); intros [= <- _]. change d1 with (d1, n).1. rewrite <-Hu.
  apply update_row_refines with (id := lr_JobID q); [intros j [Hp _]%andb_true_iff; by apply leased_row_spec in Hp as [? _]|].
  intros i j Hj [Hp%leased_row_spec _]%andb_true_iff. by eapply start_row_refines; [|apply Hp|].
Qed.

Lemma PgAcknowledgeRunnerJob_refines q d : pg_refines d (PgAcknowledgeRunnerJob sha256 q d).1.
Proof.
  unfold PgAcknowledgeRunnerJob. destruct (negb _); [apply pg_refines_refl|].
  apply transaction_refines. intros d' a. destruct (update_jobs _ _ d) as [d1 n] eqn:Hu.
  destruct (n =? 0); intros [= <- _]. change d1 with (d1, n).1. rewrite <-Hu. by apply update_quiet_refines.
Qed.

Lemma PgReleaseRunnerJob_refines q d : pg_refines d (PgReleaseRunnerJob sha256 q d).1.
Proof.
  unfold PgReleaseRunnerJob. destruct (negb _); [apply pg_refines_refl|].
  apply transaction_refines. intros d' []. destruct (update_jobs _ _ d) as [d1 n] eqn:Hu.
  destruct (n <>? 1); intros [= <-]. change d1 with (d1, n).1. rewrite <-Hu.
  apply update_row_refines with (id := lr_JobID q); [intros j Hp; bools; by eapply leased_row_spec|].
  intros i j Hj Hp. eapply requeue_row_refines; [done| |done]. by bools.
Qed.

Lemma renew_rows_refines runnerID now expires active d :
  pg_refines d (renew_rows sha256 runnerID now expires active d).1.
Proof.
  revert d. induction active as [|a active IH]; intros d; [apply pg_refines_refl|]. simpl. unfold renew_row.
  destruct (update_jobs _ _ d) as [d1 n] eqn:Hu. set (b := n =? 1).
  assert (H1 : pg_refines d d1) by (change d1 with (d1, n).1; rewrite <-Hu; by apply update_quiet_refines).
  destruct b; specialize (IH d1); destruct (renew_rows _ _ _ _ _ d1) as [d2 rs];
    by eapply pg_refines_trans.
Qed.

Lemma PgRenewRunnerLeases_refines `{MapOrder} q d : pg_refines d (PgRenewRunnerLeases sha256 q d).1.
Proof.
  unfold PgRenewRunnerLeases. destruct (negb _); [apply pg_refines_refl|].
  apply transaction_refines. intros d' a. destruct (db_runners d !! _) as [ru|]; [|done].
  destruct (_ || _); [done|]. set (d1 := with_runners _ d).
  pose proof (renew_rows_refines (rd_ID (hb_Runner q)) (db_now d1) (db_now d1 + 30 * Second) (hb_ActiveJobs q) d1) as Hr.
  destruct (renew_rows _ _ _ _ _ d1) as [d2 rs]. intros [= <- _].
  eapply pg_refines_trans; [|exact Hr]. by apply pg_refines_quiet.
Qed.

(** *** Completion *)

Lemma complete_row_refines o p run outcome id d d1 d2 n :
  complete_row p outcome d = (d1, n) → n ≠ 0 → job_outcome outcome = true →
  (∀ j, p j = true → jr_id j = id ∧ job_leased (jr_status j) = true) →
  (∀ j, j ∈ db_jobs d → jr_id j = id → jr_run_id j = run) →
  finalizeRunJobs uuid_String o run outcome d1 = Ok d2 → pg_refines d d2.
Proof.
  intros Hc Hn Ho Hp Hrun Hf. apply pg_refines_under. intros Hd. unfold complete_row in Hc. revert Hc.
  destruct (update_row id p (λ j, jr_set_lease None None (jr_set_finished (Some (db_now d)) (jr_set_status outcome j)))
    d (pg_ids d Hd)) as [(Hn0 & _)|(_ & i & j & Hj & Hpj & Hu)]; [intros j Hj; by apply Hp|..];
    destruct (update_jobs _ _ d) as [d1' n']; simpl in *; intros [= -> ->]; [done|]. subst d1.
  destruct (Hp j Hpj) as [Hid Hl]. rewrite <-(Hrun j (list_elem_of_lookup_2 _ _ _ Hj) Hid) in Hf.
  by eapply (finalize_refines o d d2 i j); [..|exact Hf].
Qed.

Lemma find_row_unique id i job d :
  pg_inv d → list_find (λ j, jr_id j = id) (db_jobs d) = Some (i, job) →
  ∀ j, j ∈ db_jobs d → jr_id j = id → jr_run_id j = jr_run_id job.
Proof.
  intros Hd (Hi%list_elem_of_lookup_2 & Hid & _)%list_find_Some j Hj Hjd. f_equal.
  eapply (NoDup_key_unique jr_id); [by apply pg_ids|done|done|congruence].
Qed.

Lemma PgCompleteJob_refines o id token outcome d :
  pg_refines d (PgCompleteJob sha256 uuid_String o id token outcome d).1.
Proof.
  unfold PgCompleteJob. destruct (negb _) eqn:Ho; [apply pg_refines_refl|].
  apply transaction_refines. intros d' []. destruct (list_find _ _) as [[i job]|] eqn:Hfind; [|done].
  destruct (complete_row _ _ d) as [d1 n] eqn:Hc. case_bool_decide; [done|].
  destruct (finalizeRunJobs _ _ _ _ d1) as [d2|] eqn:Hf; intros [= <-].
  apply pg_refines_under. intros Hd. eapply complete_row_refines; [exact Hc|done|by bools| |by eapply find_row_unique|exact Hf].
  intros j Hp. cbv beta in Hp. by bools.
Qed.

Lemma PgCompleteRunnerJob_refines o q d : pg_refines d (PgCompleteRunnerJob sha256 uuid_String o q d).1.
Proof.
  unfold PgCompleteRunnerJob. destruct (_ || _); [apply pg_refines_refl|].
  destruct (negb _) eqn:Ho; [apply pg_refines_refl|].
  apply transaction_refines. intros d' []. destruct (list_find _ _) as [[i job]|] eqn:Hfind; [|done].
  destruct (complete_row _ _ d) as [d1 n] eqn:Hc. case_bool_decide; [done|].
  destruct (finalizeRunJobs _ _ _ _ d1) as [d2|] eqn:Hf; intros [= <-].
  apply pg_refines_under. intros Hd. eapply complete_row_refines; [exact Hc|done|by bools| |by eapply find_row_unique|exact Hf].
  intros j Hp. by apply leased_row_spec in Hp.
Qed.
(** *** Claims *)

Lemma pick_run_spec locked wanted d run :
  pick_run locked wanted d = Some run → run ∈ db_runs d ∧ claimable run = true ∧ locked (rn_ID run) = false.
Proof.
  intros Hr%least_row_elem. apply list_elem_of_In, filter_In in Hr as [Hr Hp]. bools.
  by apply list_elem_of_In in Hr.
Qed.

Lemma pick_job_spec locked wanted run d job :
  pick_job locked wanted run d = Some job →
  job ∈ db_jobs d ∧ jr_run_id job = rn_ID run ∧ jr_status job = JobQueued ∧ wanted run job = true ∧ locked (jr_id job) = false.
Proof.
  intros Hr%least_row_elem. apply list_elem_of_In, filter_In in Hr as [Hr Hp]. bools.
  by apply list_elem_of_In in Hr.
Qed.

(** The update of a claim changes exactly the job that was picked. *)
Lemma claim_update d job f d1 n :
  pg_inv d → job ∈ db_jobs d → jr_status job = JobQueued →
  update_jobs (λ j, (jr_id j =? jr_id job) && (jr_status j =? JobQueued)) f d = (d1, n) →
  n = 1 ∧ ∃ i, db_jobs d !! i = Some job ∧ d1 = with_jobs (alter f i (db_jobs d)) d.
Proof.
  intros Hd Hjob Hq Hu.
  destruct (update_row_cases (jr_id job) _ _ _ _ _ Hu (pg_ids d Hd)) as [[-> ->]|(-> & i & j & Hj & Hpj & ->)];
    [intros j Hj; cbv beta in Hj; by bools| |].
  - exfalso. injection Hu as _ Hn. apply (f_equal Z.to_nat) in Hn. rewrite Nat2Z.id in Hn.
    apply length_zero_iff_nil in Hn. assert (Hin : In job []); [|done].
    rewrite <-Hn. apply filter_In. split; [by apply list_elem_of_In|]. by rewrite !bool_decide_eq_true_2.
  - split; [done|]. exists i. split; [|done]. cbv beta in Hpj. bools. rewrite Hj. f_equal.
    eapply (NoDup_key_unique jr_id); [by apply pg_ids|by eapply list_elem_of_lookup_2|done|done].
Qed.

Lemma claim_refines_row locked wanted d run job f d1 n :
  pick_run locked wanted d = Some run → pick_job locked wanted run d = Some job →
  update_jobs (λ j, (jr_id j =? jr_id job) && (jr_status j =? JobQueued)) f d = (d1, n) →
  (∀ k, row_view (f k) = aj_set JobAssigned (row_view k)) →
  pg_refines d (start_run (rn_ID run) d1).
Proof.
  intros (Hr & Hc & _)%pick_run_spec (Hjob & Hrun & Hq & _)%pick_job_spec Hu Hf.
  apply pg_refines_under. intros Hd. rewrite <-Hrun.
  destruct (claim_update _ _ _ _ _ Hd Hjob Hq Hu) as (_ & i & Hj & ->).
  eapply claim_row_refines; [done..|]. by exists run.
Qed.

Lemma PgClaimJob_refines locked token now d : pg_refines d (PgClaimJob sha256 locked token now d).1.
Proof.
  apply transaction_refines. intros d' a. destruct (pick_run _ _ d) as [run|] eqn:Hr;
    [|intros [= <- _]; apply pg_refines_refl].
  destruct (pick_job _ _ _ d) as [job|] eqn:Hj; [|intros [= <- _]; apply pg_refines_refl].
  cbv zeta. destruct (update_jobs _ _ d) as [d1 n] eqn:Hu. destruct (n <>? 1); intros [= <- _].
  by eapply claim_refines_row.
Qed.

Lemma PgClaimRunnerJob_refines locked token runnerID d :
  pg_refines d (PgClaimRunnerJob sha256 locked token runnerID d).1.
Proof.
  unfold PgClaimRunnerJob. destruct (_ =? uuid_Nil); [apply pg_refines_refl|].
  apply transaction_refines. intros d' a. destruct (db_runners d !! _) as [ru|]; [|done].
  destruct (_ || _); [done|]. destruct (_ <=? _); [intros [= <- _]; apply pg_refines_refl|].
  destruct (pick_run _ _ d) as [run|] eqn:Hr; [|intros [= <- _]; apply pg_refines_refl].
  destruct (pick_job _ _ _ d) as [job|] eqn:Hj; [|intros [= <- _]; apply pg_refines_refl].
  destruct (source_of run d) as [source|]; [|done]. cbn [rbind]. cbv zeta.
  destruct (update_jobs _ _ d) as [d1 n] eqn:Hu. destruct (n =? 0); intros [= <- _].
  by eapply claim_refines_row.
Qed.

(** *** Recovery *)

(** What the loop over the rows of one run does. *)
Record run_steps (run : uuid) (d d' : database) : Prop := {
  rs_runs : db_runs d' = db_runs d;
  rs_outbox : db_outbox d' = db_outbox d;
  rs_steps : rtc sstep (rows d) (rows d');
  rs_skeleton : skeleton <$> rows d' = skeleton <$> rows d;
  rs_others : ∀ run', run' ≠ run → run_statuses run' (rows d') = run_statuses run' (rows d);
  rs_failed : JobFailed ∈ run_statuses run (rows d) → JobFailed ∈ run_statuses run (rows d');
}.

Lemma run_steps_refl run d : run_steps run d d.
Proof. by split. Qed.

Lemma run_steps_trans run d1 d2 d3 : run_steps run d1 d2 → run_steps run d2 d3 → run_steps run d1 d3.
Proof.
  intros [Hr Ho Hs Hk Hot Hf] [Hr' Ho' Hs' Hk' Hot' Hf']. split; [congruence|congruence|by etrans|congruence| |auto].
  intros run' Hne. by rewrite Hot', Hot.
Qed.
Lemma run_steps_audit run d d' actor action resource id :
  run_steps run d d' → run_steps run d (append_audit actor action resource id d').
Proof. by intros []. Qed.

Lemma requeue_row_steps d i j f :
  db_jobs d !! i = Some j → jr_status j = JobAssigned → (∀ k, row_view (f k) = aj_set JobQueued (row_view k)) →
  let d' := with_jobs (alter f i (db_jobs d)) d in
  run_steps (jr_run_id j) d d' ∧ JobQueued ∈ run_statuses (jr_run_id j) (rows d').
Proof.
  intros Hj Ha Hf d'. pose proof (row_lookup _ _ _ Hj) as Hvj.
  pose proof (rows_alter f JobQueued i d Hf) as Hrows. fold d' in Hrows. split; [split|]; rewrite ?Hrows; try done.
  - by eapply rtc_once, s_requeue.
  - apply skeleton_alter.
  - intros run' Hne. by eapply run_statuses_alter.
  - apply (failed_alter _ _ (row_view j)); [done|]. simpl. by rewrite Ha.
  - by apply (elem_of_run_statuses_alter i (row_view j)).
Qed.

Lemma fail_row_steps d i j f g :
  db_jobs d !! i = Some j → jr_status j = JobRunning → (∀ k, row_view (f k) = aj_set JobFailed (row_view k)) →
  (∀ k, row_view (g k) = aj_set JobSkipped (row_view k)) →
  let d' := (update_jobs (λ k, (jr_run_id k =? jr_run_id j) && ((jr_status k =? JobBlocked) || (jr_status k =? JobQueued))) g
               (with_jobs (alter f i (db_jobs d)) d)).1 in
  run_steps (jr_run_id j) d d' ∧ JobFailed ∈ run_statuses (jr_run_id j) (rows d').
Proof.
  intros Hj Hr Hf Hg d'. pose proof (row_lookup _ _ _ Hj) as Hvj.
  assert (Hrows : rows d' = a_propagate (jr_run_id j) JobFailed (alter (aj_set JobFailed) i (rows d))).
  { rewrite <-(rows_alter f JobFailed i d Hf). by apply fmap_update_all. }
  split; [split|]; rewrite ?Hrows; try done.
  - apply rtc_once, (s_complete _ i (row_view j)); [done|simpl; by rewrite Hr|done].
  - by rewrite skeleton_propagate, skeleton_alter.
  - intros run' Hne. rewrite run_statuses_propagate by done. by eapply run_statuses_alter.
  - intros Hfl. apply failed_propagate. apply (failed_alter _ _ (row_view j)); [done| |done]. simpl. by rewrite Hr.
  - apply failed_propagate. by apply (elem_of_run_statuses_alter i (row_view j)).
Qed.

(** The state of the loop over the rows of a run: a failure shows in the run, and
    without one the run still has an open job. *)
Definition loop_ok (run : uuid) (d0 : database) (state : database * RecoveryResult * Z * bool) : Prop :=
  let '(d, _, _, failedRun) := state in
  run_steps run d0 d ∧
  if (failedRun : bool) then JobFailed ∈ run_statuses run (rows d)
  else ∃ st, st ∈ run_statuses run (rows d) ∧ job_open st = true.

Lemma loop_ids run d0 d : pg_inv d0 → run_steps run d0 d → NoDup (jr_id <$> db_jobs d).
Proof.
  intros Hd Hs. apply row_ids_NoDup. eapply ssteps_inv; [|apply (rs_steps _ _ _ Hs)]. apply (pv_store _ Hd).
Qed.

Lemma loop_run d0 d job j :
  pg_inv d0 → run_steps (jr_run_id job) d0 d → job ∈ db_jobs d0 → j ∈ db_jobs d → jr_id j = jr_id job → jr_run_id j = jr_run_id job.
Proof.
  intros Hd Hs Hjob Hj Hid. pose proof (elem_of_rows _ _ Hj) as Hin.
  destruct (elem_of_skeleton _ _ (row_view j) (rs_skeleton _ _ _ Hs) Hin) as (k & (k' & -> & Hk)%list_elem_of_fmap & Hsk).
  injection Hsk as Hki Hkr _ _. rewrite Hkr || rewrite <-Hkr. f_equal.
  eapply (NoDup_key_unique jr_id); [by apply pg_ids|done|done|congruence].
Qed.

Lemma recover_row_ok d0 job state :
  pg_inv d0 → job ∈ db_jobs d0 → loop_ok (jr_run_id job) d0 state →
  loop_ok (jr_run_id job) d0 (recover_row (jr_run_id job) job state).
Proof.
  destruct state as [[[d r] processed] failedRun]. intros Hd Hjob [Hs Hst]. pose proof (loop_ids _ _ _ Hd Hs) as Hids.
  unfold recover_row. case_bool_decide as Ha; destruct (update_jobs _ _ d) as [d1 n] eqn:Hu;
    (destruct (update_row_cases (jr_id job) _ _ _ _ _ Hu Hids) as [[-> ->]|(-> & i & j & Hj & Hp & ->)];
       [intros k Hk; cbv beta in Hk; by bools|done|]); cbv beta in Hp; bools;
    assert (Hrun : jr_run_id j = jr_run_id job) by (eapply loop_run; [..|by eapply list_elem_of_lookup_2|]; done);
    rewrite <-Hrun in Hs, Hst |- *.
  - match type of Hu with update_jobs _ ?f _ = _ =>
      destruct (requeue_row_steps d i j f) as [Hsteps Hq]; [done..|] end.
    split; [by eapply run_steps_audit, run_steps_trans|]. destruct failedRun; [|by exists JobQueued].
    by apply (rs_failed _ _ _ Hsteps).
  - assert (Hrunning : jr_status j = JobRunning) by done.
    match type of Hu with update_jobs _ ?f _ = _ =>
      destruct (fail_row_steps d i j f (λ j, jr_set_finished (coalesce (jr_finished_at j) (db_now d))
        (jr_set_status JobSkipped j))) as [Hsteps Hq]; [done..|] end.
    split; [by eapply run_steps_audit, run_steps_trans|exact Hq].
Qed.
Lemma recover_loop_ok run d0 jobs state :
  pg_inv d0 → (∀ job, job ∈ jobs → job ∈ db_jobs d0 ∧ jr_run_id job = run) → loop_ok run d0 state →
  loop_ok run d0 (foldl (λ state job, recover_row run job state) state jobs).
Proof.
  intros Hd. revert state. induction jobs as [|job jobs IH]; intros state Hjobs Hst; [done|].
  apply IH; [intros k Hk; apply Hjobs; by right|]. destruct (Hjobs job) as [Hin <-]; [left|].
  by apply recover_row_ok.
Qed.

(** The update of the record after the loop. *)
Lemma run_steps_refines run g d0 d d' :
  run_steps run d0 d → db_jobs d' = db_jobs d → db_outbox d' = db_outbox d →
  db_runs d' = touch run g (db_runs d) → run_update g →
  (pg_inv d0 → ∀ r, r ∈ db_runs d0 → rn_ID r = run → run_ok (run_statuses run (rows d0)) r →
     run_ok (run_statuses run (rows d)) (g r) ∧ (Terminal (rn_Status r) = true → rn_Status (g r) = rn_Status r)) →
  pg_refines d0 d'.
Proof.
  intros [Hr Ho Hs Hk Hot Hf] Hj' Ho' Hr' Hg Hrun.
  apply local_refines with (run := run) (g := g); rewrite ?Hj'; try done; congruence.
Qed.

Lemma fail_run_refines run d0 d :
  run_steps run d0 d → JobFailed ∈ run_statuses run (rows d) →
  (∃ st, st ∈ run_statuses run (rows d0) ∧ job_open st = true) → pg_refines d0 (fail_run run d).
Proof.
  intros Hs Hf Hopen. eapply run_steps_refines; [exact Hs|done|done|reflexivity|by split|].
  intros Hd r Hr Hid Hok. split.
  - by apply run_ok_finished.
  - intros Ht. simpl. by rewrite (terminal_open _ _ Hok Hopen Ht).
Qed.

Lemma requeue_run_refines run d0 d :
  run_steps run d0 d →
  (∃ st, st ∈ run_statuses run (rows d0) ∧ job_open st = true) →
  (∃ st, st ∈ run_statuses run (rows d) ∧ job_open st = true) → pg_refines d0 (requeue_run run d).
Proof.
  intros Hs Hopen Hopen'. unfold requeue_run. set (c := existsb _ (db_jobs d)).
  eapply run_steps_refines; [exact Hs|done|done|apply touch_guard|by split; intros r; destruct c|].
  intros Hd r Hr Hid Hok. destruct c eqn:Hc; simpl.
  - split; [|done]. eapply run_ok_move; [exact Hok|done|done|apply Hs].
  - split; [by apply run_ok_requeued|]. intros Ht. exfalso.
    pose proof (rs_failed _ _ _ Hs (run_ok_failed _ _ Hok Hopen (terminal_open _ _ Hok Hopen Ht))) as Hf.
    apply elem_of_run_statuses in Hf as (v & (j & -> & Hj)%list_elem_of_fmap & Hjr & Hjs).
    unfold c in Hc. rewrite existsb_false in Hc. specialize (Hc j Hj). simpl in Hjr, Hjs.
    rewrite Hjr, Hjs, bool_decide_eq_true_2 in Hc by done. done.
Qed.

Lemma expired_rows_elem locked run limit d job :
  job ∈ expired_rows locked run limit d →
  job ∈ db_jobs d ∧ jr_run_id job = run ∧ job_leased (jr_status job) = true.
Proof.
  intros (i & Hi%list_elem_of_lookup_2 & _)%elem_of_take. rename Hi into Hj. rewrite merge_sort_Permutation in Hj.
  apply list_elem_of_In, filter_In in Hj as [Hj Hp]. apply list_elem_of_In in Hj.
  unfold row_expired in Hp. by bools.
Qed.

Lemma recover_runs_refines locked outbox_ids limit runIDs processed r d d' r' :
  recover_runs uuid_String locked outbox_ids limit runIDs processed r d = Ok (d', r') → pg_refines d d'.
Proof.
  revert processed r d. induction runIDs as [|run runIDs IH]; intros processed r d; simpl.
  { intros [= <- _]. apply pg_refines_refl. }
  destruct (limit <=? processed); [intros [= <- _]; apply pg_refines_refl|].
  destruct (_ || _); [apply IH|]. set (jobs := expired_rows _ _ _ _).
  intros He. apply pg_refines_under. intros Hd. revert He.
  assert (Hjobs : ∀ job, job ∈ jobs → job ∈ db_jobs d ∧ jr_run_id job = run ∧ job_leased (jr_status job) = true)
    by (intros job; apply expired_rows_elem).
  destruct jobs as [|job jobs]; [apply IH|].
  assert (Hopen : ∃ st, st ∈ run_statuses run (rows d) ∧ job_open st = true).
  { destruct (Hjobs job) as (Hin & <- & Hl); [left|]. apply list_elem_of_lookup in Hin as [i Hi].
    eapply row_open; [done|]. by destruct (jr_status job). }
  pose proof (recover_loop_ok run d (job :: jobs) (d, r, processed, false) Hd) as Hloop.
  destruct (foldl _ _ _) as [[[d1 r1] processed1] failedRun].
  destruct Hloop as [Hs Hst]; [intros k Hk; by destruct (Hjobs k Hk) as (? & ? & _)|by split|].
  destruct failedRun.
  - destruct (enqueueCommitStatusForRun _ _ _ _ _) as [d2|] eqn:Hq; [|done]. intros He.
    eapply pg_refines_trans; [by apply fail_run_refines|]. eapply pg_refines_trans; [|by eapply IH].
    eapply enqueue_refines; [|exact Hq]. intros r0 (r2 & -> & _)%list_elem_of_fmap. by case_bool_decide; [right|].
  - intros He. eapply pg_refines_trans; [|by eapply IH]. by apply requeue_run_refines.
Qed.

Lemma PgRecoverExpiredRunnerLeases_refines locked outbox_ids limit d :
  pg_refines d (PgRecoverExpiredRunnerLeases uuid_String locked outbox_ids limit d).1.
Proof.
  unfold PgRecoverExpiredRunnerLeases. destruct (_ || _); [apply pg_refines_refl|].
  apply transaction_refines. intros d' r. apply recover_runs_refines.
Qed.
End Refinement.
