(* ===== verification/PgSubmit.v ===== *)
(** New runs in the PostgreSQL store: the rows of a plan are a valid submission to
    the scheduler, and so are those of a rerun that takes over earlier successes. *)

From stdpp Require Import relations.
From S2P Require Import Prelude GoStd RunModel Pipeline MemoryStore Scheduler RunSpec PlanFacts MemoryRefine Authorization Database Identity PgStore PgActions PgRefine.

Lemma store_inv_perm records records' jobs :
  records ≡ₚ records' → store_inv records jobs → store_inv records' jobs.
Proof.
  intros Hp [Hj Hids Hrec Hok]. split; [done|by rewrite <-Hp|..].
  - intros run Hrun. rewrite <-Hp. by apply Hrec.
  - intros r. rewrite <-Hp. apply Hok.
Qed.

(** Another choice of statuses for the new jobs. *)
Lemma submission_restatus jobs news news' run :
  submission jobs news run → skeleton <$> news' = skeleton <$> news →
  (∀ j, j ∈ news' → status_fits news' j) → submission jobs news' run.
Proof.
  intros [Hrun Hfresh Hids Hkeys Hdeps Hwf _] Hsk Hfits.
  assert (Hproj : ∀ {A} (g : uuid * uuid * string * list string → A), (g ∘ skeleton) <$> news' = (g ∘ skeleton) <$> news).
  { intros A g. by rewrite !list_fmap_compose, Hsk. }
  pose proof (Hproj _ (λ s, s.1.1.1)) as Hi. pose proof (Hproj _ (λ s, s.1.2)) as Hk.
  change (aj_id <$> news' = aj_id <$> news) in Hi. change (aj_key <$> news' = aj_key <$> news) in Hk.
  split; [| |by rewrite fmap_app, Hi, <-fmap_app|by rewrite Hk| | |done].
  - intros j Hj. destruct (elem_of_skeleton _ _ j Hsk Hj) as (k & Hin & [= _ <- _ _]). by apply Hrun.
  - done.
  - intros j d Hj Hd. destruct (elem_of_skeleton _ _ j Hsk Hj) as (k & Hin & [= _ _ _ Hds]).
    rewrite Hk. apply (Hdeps k); [done|]. by rewrite Hds.
  - intros a. specialize (Hwf a). induction Hwf as [a _ IH]. constructor. intros b Hb. apply IH.
    by eapply dep_edge_skeleton.
Qed.

(** ** Taking over successes *)

(** New jobs whose key succeeded in an earlier run are marked as succeeded. *)
Definition a_reuse (next original : uuid) (jobs : list ajob) : list ajob :=
  update_all (λ j, (aj_run j =? next) && succeeded jobs original (aj_key j)) (aj_set JobSucceeded) jobs.

Section Reuse.
Context (jobs base : list ajob) (original next : uuid).
Hypothesis Hinv : sinv jobs.
Hypothesis Hsub : submission jobs base next.
Hypothesis Hpending : ∀ b, b ∈ base → aj_status b ≠ JobSucceeded.
Hypothesis Hne : original ≠ next.
Hypothesis Hshape : run_shape original jobs = (λ j, (aj_key j, aj_deps j)) <$> base.

Definition reused (b : ajob) : ajob := if succeeded jobs original (aj_key b) then aj_set JobSucceeded b else b.
Definition requeued (b : ajob) : ajob :=
  if (aj_status b =? JobBlocked) && ready (reused <$> base) b then aj_set JobQueued b else b.
Definition rerun_jobs : list ajob := requeued <$> (reused <$> base).

Lemma update_all_old p st : (∀ j, p j = true → aj_run j = next) → update_all p (aj_set st) jobs = jobs.
Proof.
  intros Hp. apply update_all_none. intros j Hj. apply not_true_is_false. intros Hpj.
  by apply (sub_fresh _ _ _ Hsub j Hj), Hp.
Qed.

Lemma succeeded_original k : succeeded (jobs ++ base) original k = succeeded jobs original k.
Proof. apply succeeded_app_l. intros j Hj. rewrite (sub_run _ _ _ Hsub j Hj). by apply not_eq_sym. Qed.

Lemma reuse_app : a_reuse next original (jobs ++ base) = jobs ++ (reused <$> base).
Proof.
  unfold a_reuse, update_all at 1. rewrite fmap_app. f_equal.
  - apply update_all_old. intros j Hj. by bools.
  - apply list_fmap_ext. intros i b Hb. apply list_elem_of_lookup_2 in Hb.
    rewrite (sub_run _ _ _ Hsub b Hb), bool_decide_eq_true_2, succeeded_original by done. done.
Qed.

Lemma reused_skeleton b : skeleton (reused b) = skeleton b.
Proof. unfold reused. by destruct (succeeded _ _ _). Qed.

Lemma requeued_skeleton b : skeleton (requeued b) = skeleton b.
Proof. unfold requeued. by destruct (_ && _). Qed.

Lemma reused_run b : b ∈ reused <$> base → aj_run b = next.
Proof.
  intros (b0 & -> & Hb)%list_elem_of_fmap. pose proof (reused_skeleton b0) as [= _ -> _ _]. by apply (sub_run _ _ _ Hsub).
Qed.

Lemma unblock_app : a_unblock next (jobs ++ (reused <$> base)) = jobs ++ rerun_jobs.
Proof.
  unfold a_unblock, update_all at 1. rewrite fmap_app. f_equal.
  - apply update_all_old. intros j Hj. by bools.
  - apply list_fmap_ext. intros i b Hb. apply list_elem_of_lookup_2 in Hb. unfold requeued.
    rewrite (bool_decide_eq_true_2 (aj_run b = next)) by by apply reused_run. cbn [andb].
    rewrite (ready_ext (jobs ++ (reused <$> base)) (reused <$> base)); [done|]. intros d.
    rewrite reused_run by done. apply succeeded_app_r, (sub_fresh _ _ _ Hsub).
Qed.

Lemma rerun_skeleton : skeleton <$> rerun_jobs = skeleton <$> base.
Proof.
  unfold rerun_jobs. rewrite <-!list_fmap_compose. apply list_fmap_ext. intros i b _. simpl.
  by rewrite requeued_skeleton, reused_skeleton.
Qed.

(** A dependency of a new job has succeeded when it did in the earlier run. *)
Lemma reused_succeeded b d :
  b ∈ base → d ∈ aj_deps b → succeeded (reused <$> base) next d = succeeded jobs original d.
Proof.
  intros Hb Hd. apply (sub_deps _ _ _ Hsub b d Hb) in Hd as (k & -> & Hk)%list_elem_of_fmap.
  apply eq_true_iff_eq. rewrite succeeded_spec. split.
  - intros (x & (y & -> & Hy)%list_elem_of_fmap & _ & Hkey & Hst). revert Hkey Hst. unfold reused.
    destruct (succeeded jobs original (aj_key y)) eqn:Hs; [by intros <-|]. intros _ Hst. by destruct (Hpending y Hy).
  - intros Hs. exists (reused k). split; [by apply list_elem_of_fmap_2|]. unfold reused. rewrite Hs.
    split; [exact (sub_run _ _ _ Hsub k Hk)|done].
Qed.

Lemma requeued_succeeded d : succeeded rerun_jobs next d = succeeded (reused <$> base) next d.
Proof.
  unfold rerun_jobs, succeeded. induction (reused <$> base) as [|b l IH]; [done|].
  rewrite fmap_cons. cbn [existsb]. rewrite IH. f_equal. unfold requeued.
  destruct (aj_status b =? JobBlocked) eqn:Hb; [|done]. destruct (ready _ b); [|done]. bools. simpl.
  by rewrite Hb, !andb_false_r.
Qed.

(** The job of the earlier run with the key of a new job. *)
Lemma original_job b : b ∈ base →
  ∃ j, j ∈ jobs ∧ aj_run j = original ∧ aj_key j = aj_key b ∧ aj_deps j = aj_deps b.
Proof.
  intros Hb. assert (Hin : (aj_key b, aj_deps b) ∈ run_shape original jobs).
  { rewrite Hshape. by apply (list_elem_of_fmap_2 (λ j, (aj_key j, aj_deps j))). }
  apply list_elem_of_fmap in Hin as (j & [= Hk Hd] & [Hr Hj]%list_elem_of_filter). exists j. auto.
Qed.

Lemma succeeded_job k j :
  j ∈ jobs → aj_run j = original → aj_key j = k → succeeded jobs original k = true → aj_status j = JobSucceeded.
Proof.
  intros Hj Hr Hk (j' & Hj' & Hr' & Hk' & Hs)%succeeded_spec.
  apply list_elem_of_lookup in Hj as [i Hi], Hj' as [i' Hi'].
  assert (i = i') as -> by (eapply (str_key_unique jobs i i' j j' (inv_structure _ Hinv)); congruence). congruence.
Qed.

Lemma reused_ready b : b ∈ base → succeeded jobs original (aj_key b) = true → ready (reused <$> base) b = true.
Proof.
  intros Hb Hs. destruct (original_job b Hb) as (j & Hj & Hr & Hk & Hd).
  pose proof (succeeded_job _ j Hj Hr Hk Hs) as Hst.
  assert (Hready : ready jobs j = true) by (apply (inv_released _ Hinv); [done|by rewrite Hst]).
  rewrite ready_spec in Hready |- *. intros d Hd'. rewrite (sub_run _ _ _ Hsub b Hb), (reused_succeeded b) by done.
  rewrite <-Hr. apply Hready. by rewrite Hd.
Qed.

Lemma ready_without_deps b : b ∈ base → ready base b = true → ready (reused <$> base) b = true.
Proof.
  intros Hb. rewrite !ready_spec. intros Hd d Hin. exfalso.
  destruct (proj1 (succeeded_spec _ _ _) (Hd d Hin)) as (k & Hk & _ & _ & Hs). by apply (Hpending k Hk).
Qed.

(** A rerun that takes over successes is a valid submission. *)
Lemma rerun_submission : submission jobs rerun_jobs next.
Proof.
  eapply submission_restatus; [exact Hsub|apply rerun_skeleton|].
  intros x (y & -> & (b & -> & Hb)%list_elem_of_fmap)%list_elem_of_fmap.
  assert (Hr : ready rerun_jobs (requeued (reused b)) = ready (reused <$> base) b).
  { pose proof (requeued_skeleton (reused b)) as [= _ Hrun _ Hdeps].
    pose proof (reused_skeleton b) as [= _ Hrun' _ Hdeps']. unfold ready. rewrite Hdeps, Hdeps', Hrun, Hrun'.
    rewrite (sub_run _ _ _ Hsub b Hb). apply eq_true_iff_eq. rewrite !forallb_forall.
    by setoid_rewrite requeued_succeeded. }
  pose proof (sub_status _ _ _ Hsub b Hb) as Hfits. unfold status_fits in *. rewrite Hr.
  unfold requeued. destruct (succeeded jobs original (aj_key b)) eqn:Hs.
  { assert (reused b = aj_set JobSucceeded b) as -> by (unfold reused; by rewrite Hs). by apply reused_ready. }
  assert (reused b = b) as -> by (unfold reused; by rewrite Hs).
  pose proof (Hpending b Hb) as Hpb. destruct (aj_status b) eqn:Hst; try done; cbn [andb bool_decide decide_rel].
  - by destruct (ready (reused <$> base) b) eqn:Hrd; simpl; rewrite ?Hst.
  - simpl. rewrite Hst. by apply ready_without_deps.
Qed.

(** It leaves something to run when a job of the earlier run did not succeed. *)
Lemma rerun_open j :
  j ∈ jobs → aj_run j = original → aj_status j ≠ JobSucceeded →
  ∃ k, k ∈ rerun_jobs ∧ job_open (aj_status k) = true.
Proof.
  intros Hj Hr Hst. assert (Hin : (aj_key j, aj_deps j) ∈ (λ j, (aj_key j, aj_deps j)) <$> base).
  { rewrite <-Hshape. apply (list_elem_of_fmap_2 (λ j, (aj_key j, aj_deps j))). by apply list_elem_of_filter. }
  apply list_elem_of_fmap in Hin as (b & [= Hk _] & Hb). exists (requeued (reused b)).
  split; [by apply list_elem_of_fmap_2, list_elem_of_fmap_2|].
  assert (Hs : succeeded jobs original (aj_key b) = false).
  { apply not_true_is_false. intros Hs. apply Hst. by eapply succeeded_job. }
  assert (reused b = b) as -> by (unfold reused; by rewrite Hs). unfold requeued.
  pose proof (sub_status _ _ _ Hsub b Hb) as Hfits. unfold status_fits in Hfits. pose proof (Hpending b Hb) as Hpb.
  destruct (_ && _); [done|]. by destruct (aj_status b).
Qed.

(** What a rerun starts with: successes are taken over, the jobs that only depended
    on successes are queued, the others wait. *)
Lemma rerun_job_status x :
  x ∈ rerun_jobs →
  aj_status x = if succeeded jobs original (aj_key x) then JobSucceeded
                else if forallb (succeeded jobs original) (aj_deps x) then JobQueued else JobBlocked.
Proof.
  intros (y & -> & (b & -> & Hb)%list_elem_of_fmap)%list_elem_of_fmap.
  pose proof (requeued_skeleton (reused b)) as [= _ _ -> ->]. pose proof (reused_skeleton b) as [= _ _ -> ->].
  assert (Hready : ready (reused <$> base) b = forallb (succeeded jobs original) (aj_deps b)).
  { apply eq_true_iff_eq. rewrite ready_spec, forallb_forall, (sub_run _ _ _ Hsub b Hb). split.
    - intros Hd d Hin%list_elem_of_In. rewrite <-(reused_succeeded b) by done. by apply Hd.
    - intros Hd d Hin. rewrite (reused_succeeded b) by done. by apply Hd, list_elem_of_In. }
  unfold requeued. destruct (succeeded jobs original (aj_key b)) eqn:Hs.
  { assert (reused b = aj_set JobSucceeded b) as -> by (unfold reused; by rewrite Hs). done. }
  assert (reused b = b) as -> by (unfold reused; by rewrite Hs). rewrite Hready.
  pose proof (sub_status _ _ _ Hsub b Hb) as Hfits. unfold status_fits in Hfits. pose proof (Hpending b Hb) as Hpb.
  destruct (aj_status b) eqn:Hst; try done; cbn [andb bool_decide decide_rel].
  - by destruct (forallb _ _); simpl.
  - simpl. rewrite <-Hready, ready_without_deps by done. done.
Qed.
End Reuse.

Section Submit.
Variable sha256 : string → string.
Variable uuid_String : uuid → string.
Variable json_unmarshal : string → option Plan.

Abbreviation inv := (pg_inv uuid_String json_unmarshal).
Abbreviation refines := (pg_refines uuid_String json_unmarshal).

(** A run that the API or an automation submits: queued, with a compiled plan. *)
Record startable (record : RunRecord) : Prop := {
  sta_plan : ∀ plan, json_unmarshal (rn_Plan record) = Some plan → stages_ok (pn_Stages plan);
  sta_status : rn_Status record = StatusQueued;
  sta_started : rn_StartedAt record = None;
  sta_finished : rn_FinishedAt record = None;
}.

Lemma plan_rows_view now run ids stages :
  row_view <$> plan_rows now run ids stages = view <$> plan_jobs run ids stages.
Proof.
  apply list_eq. intros i. unfold plan_rows, plan_jobs. rewrite !list_lookup_fmap, !list_lookup_imap.
  by destruct (stage_job_pairs stages !! i) as [[s j]|].
Qed.

Lemma plan_shape_jobs run ids stages :
  (λ j, (aj_key j, aj_deps j)) <$> (view <$> plan_jobs run ids stages) = plan_shape stages.
Proof.
  unfold plan_shape. rewrite <-list_fmap_compose. apply list_eq. intros i. unfold plan_jobs.
  rewrite !list_lookup_fmap, !list_lookup_imap. by destruct (stage_job_pairs stages !! i) as [[s j]|].
Qed.

Lemma run_shape_other run jobs news : (∀ j, j ∈ news → aj_run j ≠ run) → run_shape run (jobs ++ news) = run_shape run jobs.
Proof.
  intros Hn. unfold run_shape. rewrite filter_app, fmap_app.
  assert (filter (λ j, aj_run j = run) news = []) as ->; [|by rewrite app_nil_r].
  induction news as [|k news IH]; [done|]. rewrite filter_cons, decide_False by (apply Hn; left).
  apply IH. intros j Hj. apply Hn. by right.
Qed.

Lemma filter_run_all run (news : list ajob) : (∀ j, j ∈ news → aj_run j = run) → filter (λ j, aj_run j = run) news = news.
Proof.
  induction news as [|k news IH]; intros Hn; [done|]. rewrite filter_cons, decide_True by (apply Hn; left).
  f_equal. apply IH. intros j Hj. apply Hn. by right.
Qed.

Lemma run_shape_new run jobs news :
  (∀ j, j ∈ jobs → aj_run j ≠ run) → (∀ j, j ∈ news → aj_run j = run) →
  run_shape run (jobs ++ news) = (λ j, (aj_key j, aj_deps j)) <$> news.
Proof.
  intros Hj Hn. unfold run_shape. rewrite filter_app, (filter_run_all run news) by done.
  assert (filter (λ j, aj_run j = run) jobs = []) as ->; [|done].
  induction jobs as [|k jobs IH]; [done|]. rewrite filter_cons, decide_False by (apply Hj; left).
  apply IH. intros j Hin. apply Hj. by right.
Qed.

(** What [insertRun] leaves in the tables. *)
Record inserted (ids : nat → uuid) (record : RunRecord) (plan : Plan) (d d' : database) : Prop := {
  ins_plan : json_unmarshal (rn_Plan record) = Some plan;
  ins_fresh : rn_ID record ∉ rn_ID <$> db_runs d;
  ins_runs : db_runs d' = db_runs d ++ [record];
  ins_jobs : db_jobs d' = db_jobs d ++ plan_rows (db_now d) (rn_ID record) ids (pn_Stages plan);
  ins_ids : NoDup (jr_id <$> db_jobs d');
  ins_sha : rn_ProjectID record ≠ None → len (rn_CommitSHA record) = 40 → sha_allowed (rn_CommitSHA record) = true;
  ins_outbox : enqueued uuid_String (rn_ID record) (rn_Status record)
    (with_jobs (db_jobs d') (with_runs (db_runs d') d)) d';
}.

Lemma enqueue_sha o record d d' :
  NoDup (rn_ID <$> db_runs d) → record ∈ db_runs d → rn_Status record = StatusQueued ∨ Terminal (rn_Status record) = true →
  (∀ p, rn_ProjectID record = Some p → di_repositories (db_directory d) !! p ≠ None) →
  enqueueCommitStatusForRun uuid_String o (rn_ID record) (rn_Status record) d = Ok d' →
  rn_ProjectID record ≠ None → len (rn_CommitSHA record) = 40 → sha_allowed (rn_CommitSHA record) = true.
Proof.
  intros Hnd Hin Hst Hrepo. unfold enqueueCommitStatusForRun.
  assert ((rn_Status record <>? StatusQueued) && negb (Terminal (rn_Status record)) = false) as ->.
  { destruct Hst as [-> | ->]; [done|by rewrite andb_false_r]. }
  destruct (list_find _ _) as [[k r]|] eqn:Hfind.
  2:{ apply list_find_None in Hfind. rewrite Forall_forall in Hfind. by destruct (Hfind record Hin). }
  apply list_find_Some in Hfind as (Hr%list_elem_of_lookup_2 & Hid & _).
  assert (r = record) as -> by (by eapply (NoDup_key_unique rn_ID)).
  intros He Hp Hl. destruct (rn_ProjectID record) as [p|]; [|done]. specialize (Hrepo p eq_refl).
  destruct (_ !! p) as [repo|]; [|done]. rewrite Hl in He. cbn in He.
  by destruct (sha_allowed _).
Qed.
Lemma insertRun_spec o ids record d d' :
  inv d → rn_Status record = StatusQueued ∨ Terminal (rn_Status record) = true →
  insertRun uuid_String json_unmarshal o ids record d = Ok d' → ∃ plan, inserted ids record plan d d'.
Proof.
  intros Hd Hst. unfold insertRun. destruct (_ || _) eqn:Hfresh; [intros [=]|]. bools.
  destruct (json_unmarshal _) as [plan|] eqn:Hplan; [|intros [=]]. cbv zeta. set (rs := plan_rows _ _ _ _).
  destruct (_ || _) eqn:Hchecks; [intros [=]|]. bools. intros He. exists plan.
  set (d1 := with_jobs _ _) in He. pose proof (enqueue_spec _ _ _ _ _ _ He) as Hen.
  assert (Hd1 : with_jobs (db_jobs d') (with_runs (db_runs d') d) = d1) by by rewrite (en_same _ _ _ _ _ Hen).
  split; [done|done| | | | |].
  - by rewrite (en_same _ _ _ _ _ Hen).
  - by rewrite (en_same _ _ _ _ _ Hen).
  - by rewrite (en_same _ _ _ _ _ Hen).
  - eapply (enqueue_sha o record d1); [|cbn; apply elem_of_app; right; left|done| |exact He].
    + cbn. rewrite fmap_app. apply NoDup_app. split; [apply (pv_store _ _ _ Hd)|]. split; [|apply NoDup_singleton].
      intros x Hx ->%list_elem_of_singleton. done.
    + intros p Hp. rewrite Hp in *. by bools.
  - by rewrite Hd1.
Qed.

(** The base submission: the jobs of the plan, none of them run yet. *)
Lemma inserted_submission ids record plan d d' :
  inv d → stages_ok (pn_Stages plan) → inserted ids record plan d d' →
  let news := view <$> plan_jobs (rn_ID record) ids (pn_Stages plan) in
  rows d' = rows d ++ news ∧ submission (rows d) news (rn_ID record).
Proof.
  intros Hd Hok Hins news. rewrite (ins_jobs _ _ _ _ _ Hins), fmap_app, plan_rows_view. split; [done|].
  apply plan_jobs_submission; [done|..].
  - intros j Hj Heq. apply (ins_fresh _ _ _ _ _ Hins). rewrite <-Heq. apply (si_record _ _ (pv_store _ _ _ Hd)).
    by apply list_elem_of_fmap_2.
  - pose proof (ins_ids _ _ _ _ _ Hins) as Hids. rewrite (ins_jobs _ _ _ _ _ Hins), fmap_app in Hids.
    rewrite <-list_fmap_compose, <-(plan_jobs_ids (rn_ID record)).
    assert (jr_id <$> plan_rows (db_now d) (rn_ID record) ids (pn_Stages plan)
      = mj_id <$> plan_jobs (rn_ID record) ids (pn_Stages plan)) as <-; [|done].
    change jr_id with (aj_id ∘ row_view). change mj_id with (aj_id ∘ view).
    by rewrite !list_fmap_compose, plan_rows_view.
Qed.

Lemma submit_refines ids record plan d d1 d' news :
  startable record → inserted ids record plan d d1 → submission (rows d) news (rn_ID record) →
  rows d' = rows d ++ news → (∃ j, j ∈ news ∧ job_open (aj_status j) = true) →
  (λ j, (aj_key j, aj_deps j)) <$> news = plan_shape (pn_Stages plan) →
  db_runs d' = db_runs d1 → db_outbox d' = db_outbox d1 → refines d d'.
Proof.
  intros [Hplan Hst Hsa Hfi] [Hpl Hfresh Hruns _ _ Hsha [_ Hout Hkeys]] Hsub Hrows Hopen Hshape Hruns' Hout' [Hs Hp Ho Hk].
  cbn [db_runs db_outbox with_jobs with_runs] in *. rewrite Hruns in Hruns', Hout. rewrite <-Hout' in Hout, Hkeys.
  assert (Hold : ∀ r, r ∈ db_runs d → rn_ID r ≠ rn_ID record).
  { intros r Hr Heq. apply Hfresh. rewrite <-Heq. by apply list_elem_of_fmap_2. }
  split; [split|split].
  - rewrite Hruns', Hrows. eapply (store_inv_perm (record :: db_runs d)); [by rewrite Permutation_cons_append|].
    by apply submit_store_inv.
  - intros r. rewrite Hruns', Hrows. intros [Hr|Hr%list_elem_of_singleton]%elem_of_app.
    + destruct (Hp r Hr) as [Hpr Hsr]. split; [|done]. intros pl Hplr.
      rewrite run_shape_other; [by apply Hpr|]. intros j Hj. rewrite (sub_run _ _ _ Hsub j Hj).
      by apply not_eq_sym, Hold.
    + subst r. split; [|done]. intros pl Hplr. assert (pl = plan) as -> by congruence. split; [intros _; by apply Hplan|].
      rewrite run_shape_new; [done|apply Hsub|apply Hsub].
  - intros o Hin. rewrite Hruns'. destruct (Hout o Hin) as [Hold'|((r & Hr & Hid) & Hrun & Ht & Hstate & Hkey)].
    + destruct (Ho o Hold') as (r & Hr & Hann). exists r. split; [apply elem_of_app; by left|done].
    + exists r. split; [done|]. split; [congruence|]. left. rewrite Hst in Hstate, Hkey. by rewrite Hid, Hkey, Hstate.
  - by apply Hkeys.
  - rewrite Hrows. by eapply rtc_once, s_submit.
  - intros r Hr _. exists r. rewrite Hruns'. split; [apply elem_of_app; by left|done].
Qed.

Lemma insertRun_refines o ids record d d' :
  startable record → insertRun uuid_String json_unmarshal o ids record d = Ok d' → refines d d'.
Proof.
  intros Hsta He. apply pg_refines_under. intros Hd.
  destruct (insertRun_spec _ _ _ _ _ Hd (or_introl (sta_status _ Hsta)) He) as (plan & Hins).
  pose proof (sta_plan _ Hsta plan (ins_plan _ _ _ _ _ Hins)) as Hok.
  destruct (inserted_submission _ _ _ _ _ Hd Hok Hins) as [Hrows Hsub].
  eapply submit_refines; [done|exact Hins|exact Hsub|exact Hrows|by apply plan_jobs_open|apply plan_shape_jobs|done|done].
Qed.

(** A run that an automation records as failed: its plan has no stages. *)
Record rejected (record : RunRecord) : Prop := {
  rej_plan : ∀ plan, json_unmarshal (rn_Plan record) = Some plan → pn_Stages plan = [];
  rej_status : rn_Status record = StatusFailed;
  rej_finished : rn_FinishedAt record ≠ None;
}.

Lemma run_fresh d run : inv d → run ∉ rn_ID <$> db_runs d → ∀ j, j ∈ rows d → aj_run j ≠ run.
Proof. intros Hd Hf j Hj <-. apply Hf, (si_record _ _ (pv_store _ _ _ Hd)). by apply list_elem_of_fmap_2. Qed.

Lemma filter_run_none run (jobs : list ajob) : (∀ j, j ∈ jobs → aj_run j ≠ run) → filter (λ j, aj_run j = run) jobs = [].
Proof.
  induction jobs as [|k jobs IH]; intros Hn; [done|]. rewrite filter_cons, decide_False by (apply Hn; left).
  apply IH. intros j Hj. apply Hn. by right.
Qed.

Lemma insertRun_rejected_refines o ids record d d' :
  rejected record → insertRun uuid_String json_unmarshal o ids record d = Ok d' → refines d d'.
Proof.
  intros [Hplan Hst Hfin] He. apply pg_refines_under. intros Hd.
  assert (Ht : Terminal (rn_Status record) = true) by by rewrite Hst.
  destruct (insertRun_spec _ _ _ _ _ Hd (or_intror Ht) He) as (plan & [Hpl Hfresh Hruns Hjobs _ Hsha [_ Hout Hkeys]]).
  rewrite (Hplan plan Hpl) in Hjobs. cbn in Hjobs. rewrite app_nil_r in Hjobs.
  pose proof (filter_run_none _ _ (run_fresh _ _ Hd Hfresh)) as Hnone.
  intros [[Hj Hids Hrec Hok] Hp Ho Hk]. split; [split; [split|..]|split; [by rewrite Hjobs|]]; rewrite ?Hruns, ?Hjobs.
  - done.
  - rewrite fmap_app. apply NoDup_app. split; [done|]. split; [|apply NoDup_singleton].
    intros x Hx ->%list_elem_of_singleton. done.
  - intros run Hrun. rewrite fmap_app. apply elem_of_app. left. by apply Hrec.
  - intros r [Hr| ->%list_elem_of_singleton]%elem_of_app; [by apply Hok|].
    unfold run_statuses. rewrite Hnone. split; rewrite ?Hst; try done. by right.
  - intros r [Hr| ->%list_elem_of_singleton]%elem_of_app; [by apply Hp|]. split; [|done].
    intros pl Hplr. assert (pl = plan) as -> by congruence. unfold run_shape. rewrite Hnone, (Hplan plan Hpl). done.
  - cbn [db_runs with_jobs with_runs] in Hout. rewrite Hruns in Hout.
    intros q Hq. destruct (Hout q Hq) as [Hold|((r & Hr & Hid) & Hrun & _ & Hstate & Hkey)].
    + destruct (Ho q Hold) as (r & Hr & Hann). exists r. split; [apply elem_of_app; by left|done].
    + exists record. split; [apply elem_of_app; right; left|]. split; [done|]. right. by rewrite Hst in *.
  - by apply Hkeys.
  - intros r Hr _. exists r. rewrite Hruns. split; [apply elem_of_app; by left|done].
Qed.

Lemma PgCreate_refines o ids record d :
  startable record → refines d (PgCreate uuid_String json_unmarshal o ids record d).1.
Proof.
  intros Hsta. apply transaction_refines. intros d' a.
  destruct (insertRun _ _ _ _ _ _) as [d1|] eqn:He; intros [= <- _]. by eapply insertRun_refines.
Qed.

Lemma PgReject_refines o ids record d :
  rejected record → refines d (PgCreate uuid_String json_unmarshal o ids record d).1.
Proof.
  intros Hrej. apply transaction_refines. intros d' a.
  destruct (insertRun _ _ _ _ _ _) as [d1|] eqn:He; intros [= <- _]. by eapply insertRun_rejected_refines.
Qed.
End Submit.
