(* ===== verification/PgRuns.v ===== *)
(** The remaining transactions of the PostgreSQL store, and its histories: sessions
    that create, cancel and rerun runs, the delivery of commit statuses, logs. *)

From stdpp Require Import relations.
From S2P Require Import Prelude GoStd RunModel Pipeline MemoryStore Scheduler RunSpec PlanFacts MemoryRefine Authorization Database Identity PgStore PgActions CommitStatus Logs PgRefine PgSubmit.

Section Runs.
Variable sha256 : string → string.
Variable uuid_String : uuid → string.
Variable json_unmarshal : string → option Plan.

Abbreviation inv := (pg_inv uuid_String json_unmarshal).
Abbreviation refines := (pg_refines uuid_String json_unmarshal).

Lemma elapse_refines waited d : refines d (elapse waited d).
Proof. by apply pg_refines_quiet. Qed.

Lemma audit_refines actor action resource id d : refines d (append_audit actor action resource id d).
Proof. by apply pg_refines_quiet. Qed.

(** ** Sessions *)

Lemma lockAuthorizedRun_spec waited token projectID runID action d d' session r :
  lockAuthorizedRun sha256 waited token projectID runID action d = Ok (d', session, r) →
  d' = elapse waited d ∧
  ∃ record, record ∈ db_runs d ∧ rn_ID record = runID ∧ rn_ProjectID record = Some projectID ∧ r = scan_run record.
Proof.
  unfold lockAuthorizedRun. destruct (authenticateSession _ _ _) as [s|]; [|done]. cbn [rbind].
  destruct (authorize _ _ _ _) as [[]|]; [|done]. cbn [rbind].
  destruct (list_find _ _) as [[k record]|] eqn:Hfind; [|done]. cbv zeta.
  destruct (sessionLive _ _) as [[]|]; [|done]. intros [= <- _ <-]. split; [done|].
  apply list_find_Some in Hfind as (Hr%list_elem_of_lookup_2 & [Hid Hp] & _). by exists record.
Qed.

Lemma GetAuthorizedRun_refines waited token projectID runID d :
  refines d (GetAuthorizedRun sha256 waited token projectID runID d).1.
Proof.
  apply transaction_refines. intros d' a.
  destruct (lockAuthorizedRun _ _ _ _ _ _ _) as [[[d1 s] r]|] eqn:Hl; [|done]. cbn [rbind].
  apply lockAuthorizedRun_spec in Hl as [-> _]. cbv zeta. destruct (_ <? _)%nat; intros [= <- _].
  apply elapse_refines.
Qed.

Lemma ReadAuthorizedLogs_refines waited token projectID runID jobID after d :
  refines d (ReadAuthorizedLogs sha256 waited token projectID runID jobID after d).1.
Proof.
  unfold ReadAuthorizedLogs. destruct (_ || _); [apply pg_refines_refl|].
  apply transaction_refines. intros d' a.
  destruct (lockAuthorizedRun _ _ _ _ _ _ _) as [[[d1 s] r]|] eqn:Hl; [|done]. cbn [rbind].
  apply lockAuthorizedRun_spec in Hl as [-> _]. destruct (list_find _ _) as [[k job]|]; [|done].
  destruct (_ <=? _); intros [= <- _]; apply elapse_refines.
Qed.

Lemma ListAuthorizedRuns_refines waited token projectID limit d :
  refines d (ListAuthorizedRuns sha256 waited token projectID limit d).1.
Proof.
  apply transaction_refines. intros d' a. destruct (authenticateSession _ _ _) as [s|]; [|done]. cbn [rbind].
  destruct (authorize _ _ _ _) as [[]|]; [|done]. cbn [rbind]. cbv zeta.
  destruct (sessionLive _ _) as [[]|]; [|done]. intros [= <- _]. apply elapse_refines.
Qed.

Lemma with_owner_startable projectID userID record :
  startable json_unmarshal record → startable json_unmarshal (with_owner projectID userID record).
Proof. by intros []. Qed.

Lemma CreateAuthorizedRun_refines waited o ids token projectID record d :
  startable json_unmarshal record →
  refines d (CreateAuthorizedRun sha256 uuid_String json_unmarshal waited o ids token projectID record d).1.
Proof.
  intros Hsta. apply transaction_refines. intros d' a. destruct (authenticateSession _ _ _) as [s|]; [|done]. cbn [rbind].
  destruct (authorize _ _ _ _) as [[]|]; [|done]. cbn [rbind]. cbv zeta.
  destruct (sessionLive _ _) as [[]|]; [|done]. cbn [rbind].
  destruct (insertRun _ _ _ _ _ _) as [d1|] eqn:He; intros [= <- _].
  eapply pg_refines_trans; [apply elapse_refines|]. eapply pg_refines_trans; [|apply audit_refines].
  eapply insertRun_refines; [by apply with_owner_startable|exact He].
Qed.

(** *** Cancelling *)

Lemma a_cancel_closed run jobs : existsb job_open (run_statuses run (a_cancel run jobs)) = false.
Proof.
  apply existsb_false. intros st (j & (k & -> & Hk)%list_elem_of_fmap & Hr & <-)%elem_of_run_statuses.
  revert Hr. destruct (_ && _) eqn:Hc; [done|]. intros Hr. rewrite Hr, bool_decide_eq_true_2 in Hc by done. done.
Qed.

Lemma cancel_refines run record d :
  record ∈ db_runs d → rn_ID record = run → Terminal (rn_Status record) = false →
  refines d (cancel_run run (cancel_jobs run d)).
Proof.
  intros Hin Hid Hnt. assert (Hrows : rows (cancel_run run (cancel_jobs run d)) = a_cancel run (rows d)) by apply rows_cancel.
  eapply local_refines with (run := run); [reflexivity|done|by split|rewrite ?Hrows..].
  - by apply rtc_once, s_cancel.
  - apply skeleton_update_all.
  - intros run' Hne. eapply run_statuses_update_all; [|done]. intros j Hj. by bools.
  - intros Hd r Hr Hrid Hok. split.
    + apply run_ok_finished; [done..|]. intros _. apply a_cancel_closed.
    + assert (r = record) as ->; [|by rewrite Hnt].
      eapply (NoDup_key_unique rn_ID); [apply (pv_store _ _ _ Hd)|done|done|congruence].
Qed.

Lemma CancelAuthorizedRun_refines waited o token projectID runID d :
  refines d (CancelAuthorizedRun sha256 uuid_String waited o token projectID runID d).1.
Proof.
  apply transaction_refines. intros d' a.
  destruct (lockAuthorizedRun _ _ _ _ _ _ _) as [[[d1 s] r]|] eqn:Hl; [|done]. cbn [rbind].
  apply lockAuthorizedRun_spec in Hl as (-> & record & Hr & Hid & _ & ->).
  destruct (Terminal _) eqn:Hnt; [intros [= <- _]; apply elapse_refines|]. cbv zeta.
  destruct (enqueueCommitStatusForRun _ _ _ _ _) as [d2|] eqn:Hq; intros [= <- _].
  eapply pg_refines_trans; [apply elapse_refines|]. eapply pg_refines_trans; [by eapply cancel_refines|].
  eapply pg_refines_trans; [|apply audit_refines]. eapply enqueue_refines; [|exact Hq].
  intros r (r0 & -> & _)%list_elem_of_fmap. by case_bool_decide; [right|].
Qed.
(** *** Reruns *)

Lemma reusable_succeeded jobs run key :
  (reusable jobs run key <>? None) = succeeded (row_view <$> jobs) run key.
Proof.
  apply eq_true_iff_eq. rewrite negb_true_iff, bool_decide_eq_false, succeeded_spec. unfold reusable.
  destruct (list_find _ jobs) as [[k j]|] eqn:Hfind; simpl; split; [intros _| |done|].
  - apply list_find_Some in Hfind as (Hj%list_elem_of_lookup_2 & (? & ? & ?) & _).
    exists (row_view j). split; [by apply list_elem_of_fmap_2|done].
  - done.
  - intros (v & (j & -> & Hj)%list_elem_of_fmap & ? & ? & ?) _. apply list_find_None in Hfind.
    rewrite Forall_forall in Hfind. by apply (Hfind j Hj).
Qed.

Lemma rows_reuse next original d : rows (reuse_jobs next original d) = a_reuse next original (rows d).
Proof. apply fmap_update_all; [|done]. intros j _. by rewrite reusable_succeeded. Qed.

(** The rows of a rerun of the failed jobs. *)
Lemma rows_rerun next original d base d2 :
  sinv (rows d) → submission (rows d) base next → original ≠ next → rows d2 = rows d ++ base →
  rows (unblock_jobs next (reuse_jobs next original d2)) = rows d ++ rerun_jobs (rows d) base original.
Proof.
  intros Hinv Hsub Hne Hd2. rewrite rows_unblock, rows_reuse, Hd2, (reuse_app _ _ original _ Hsub Hne).
  by apply unblock_app.
Qed.

Lemma plan_jobs_pending run ids stages b :
  b ∈ view <$> plan_jobs run ids stages → aj_status b ≠ JobSucceeded.
Proof.
  intros (m & -> & (i & s & pj & _ & _ & ->)%elem_of_plan_jobs_stage)%list_elem_of_fmap.
  unfold new_job. simpl. by destruct (length _ =? 0)%nat.
Qed.

(** The record and the plan of a rerun. *)
Lemma rerun_startable next_id now user key version record d :
  inv d → record ∈ db_runs d → run_shape (rn_ID record) (rows d) ≠ [] →
  startable json_unmarshal (rerun_record next_id now user key version (scan_run record)).
Proof.
  intros Hd Hr Hne. split; [|done..]. intros plan Hplan. by apply (pl_stages _ _ _ (pv_planned _ _ _ Hd record Hr)).
Qed.

(** [executable], the number of jobs of a run, is not zero. *)
Lemma executable_shape run d : (count_jobs (λ j, jr_run_id j =? run) d =? 0) = false → run_shape run (rows d) ≠ [].
Proof.
  intros Hc. bools. intros Hs. apply fmap_nil_inv in Hs. apply Hc. unfold count_jobs.
  destruct (List.filter _ _) as [|j l] eqn:Hf; [done|].
  assert (Hj : In j (j :: l)) by (by left). rewrite <-Hf in Hj. apply filter_In in Hj as [Hj Hr]. bools.
  assert (Hin : row_view j ∈ filter (λ j, aj_run j = run) (rows d)).
  { apply list_elem_of_filter. split; [done|]. by apply elem_of_rows, list_elem_of_In. }
  rewrite Hs in Hin. by apply elem_of_nil in Hin.
Qed.

(** The rows that the insertion of a rerun adds, before successes are taken over. *)
Lemma rerun_rows o ids next_id now user key version record d d1 :
  let next := rerun_record next_id now user key version (scan_run record) in
  inv d → record ∈ db_runs d → startable json_unmarshal next →
  insertRun uuid_String json_unmarshal o ids next d = Ok d1 →
  ∃ base, rows d1 = rows d ++ base ∧ submission (rows d) base next_id ∧
    (∀ b, b ∈ base → aj_status b ≠ JobSucceeded) ∧
    run_shape (rn_ID record) (rows d) = (λ j, (aj_key j, aj_deps j)) <$> base ∧ rn_ID record ≠ next_id.
Proof.
  intros next Hd Hr Hsta He. destruct (insertRun_spec _ _ _ _ _ _ _ Hd (or_introl (sta_status _ _ Hsta)) He) as (plan & Hins).
  destruct (pl_stages _ _ _ (pv_planned _ _ _ Hd record Hr) plan (ins_plan _ _ _ _ _ _ _ Hins)) as [_ Hshape].
  pose proof (sta_plan _ _ Hsta plan (ins_plan _ _ _ _ _ _ _ Hins)) as Hok.
  destruct (inserted_submission _ _ _ _ _ _ _ Hd Hok Hins) as [Hrows Hsub].
  exists (view <$> plan_jobs next_id ids (pn_Stages plan)). split; [done|]. split; [done|]. split; [|split].
  - intros b. apply plan_jobs_pending.
  - rewrite Hshape. symmetry. apply plan_shape_jobs.
  - intros Heq. apply (ins_fresh _ _ _ _ _ _ _ Hins). change (rn_ID next) with next_id. rewrite <-Heq.
    by apply list_elem_of_fmap_2.
Qed.

Lemma rerun_failed_refines o ids next_id now user key version record d d1 d' :
  record ∈ db_runs d → rn_Status record = StatusFailed → run_shape (rn_ID record) (rows d) ≠ [] →
  insertRun uuid_String json_unmarshal o ids (rerun_record next_id now user key version (scan_run record)) d = Ok d1 →
  d' = with_reruns (db_reruns d') (unblock_jobs next_id (reuse_jobs next_id (rn_ID record) (with_reruns (db_reruns d') d1))) →
  refines d d'.
Proof.
  intros Hr Hst Hshape He ->. set (next := rerun_record _ _ _ _ _ _) in *. apply pg_refines_under. intros Hd.
  pose proof (rerun_startable next_id now user key version _ _ Hd Hr Hshape) as Hsta. fold next in Hsta.
  destruct (insertRun_spec _ _ _ _ _ _ _ Hd (or_introl (sta_status _ _ Hsta)) He) as (plan & Hins).
  destruct (rerun_rows _ _ _ _ _ _ _ _ _ _ Hd Hr Hsta He) as (base & Hrows & Hsub & Hpend & Hsh & Hne).
  assert (Hinv : sinv (rows d)) by apply (pv_store _ _ _ Hd).
  pose proof (rerun_submission _ _ _ _ Hinv Hsub Hpend Hsh) as Hnew.
  destruct (ro_failed _ _ (si_runs _ _ (pv_store _ _ _ Hd) _ Hr) Hst) as [Hfail|Hnil].
  2:{ destruct Hshape. apply fmap_nil_inv in Hnil. unfold run_shape. by rewrite Hnil. }
  destruct (proj1 (elem_of_run_statuses _ _ _) Hfail) as (f & Hf & Hfr & Hfs).
  eapply submit_refines; [exact Hsta|exact Hins|exact Hnew| | | |done|done].
  - by apply (rows_rerun _ _ d).
  - apply (rerun_open _ _ _ _ Hinv Hsub Hpend Hsh f); [done|done|by rewrite Hfs].
  - destruct (pl_stages _ _ _ (pv_planned _ _ _ Hd record Hr) plan (ins_plan _ _ _ _ _ _ _ Hins)) as [_ <-].
    rewrite Hsh. pose proof (rerun_skeleton (rows d) base (rn_ID record)) as Hsk.
    apply (f_equal (fmap (λ s : uuid * uuid * string * list string, (s.1.2, s.2)))) in Hsk.
    by rewrite <-!list_fmap_compose in Hsk.
Qed.

Lemma RerunAuthorizedRun_refines waited now o next_id ids token projectID runID mode requestID d :
  refines d (RerunAuthorizedRun sha256 uuid_String json_unmarshal waited now o next_id ids token projectID runID
               mode requestID d).1.
Proof.
  unfold RerunAuthorizedRun. destruct (_ || _); [apply pg_refines_refl|].
  apply transaction_refines. intros d' a.
  destruct (lockAuthorizedRun _ _ _ _ _ _ _) as [[[d1 s] r]|] eqn:Hl; [|done]. cbn [rbind].
  apply lockAuthorizedRun_spec in Hl as (-> & record & Hr & Hid & _ & ->).
  destruct (_ || _) eqn:Hmode; [done|]. cbv zeta.
  destruct (list_find _ _) as [[k previous]|]; [intros [= <- _]; apply elapse_refines|].
  destruct (_ =? 0) eqn:Hcount; [done|]. apply executable_shape in Hcount.
  change (rows (elapse _ _)) with (rows d) in Hcount. rewrite <-Hid in Hcount.
  set (version := match list_find _ _ with Some _ => _ | None => _ end).
  destruct (insertRun _ _ _ _ _ _) as [d2|] eqn:He; [|done]. cbn [rbind]. intros [= <- _].
  eapply pg_refines_trans; [apply elapse_refines|]. eapply pg_refines_trans; [|apply audit_refines].
  apply orb_false_iff in Hmode as [_ Hmode].
  destruct (mode =? "failed") eqn:Hm.
  - eapply rerun_failed_refines; [exact Hr| |exact Hcount|exact He|].
    + cbn [andb] in Hmode. by bools.
    + subst runID. by destruct d2.
  - apply pg_refines_under. intros Hd. eapply pg_refines_trans; [eapply insertRun_refines; [|exact He]|by apply pg_refines_quiet].
    by eapply rerun_startable.
Qed.
(** ** Commit statuses *)

Lemma outbox_refines d d' :
  db_runs d' = db_runs d → rows d' = rows d →
  (λ o, (ob_run_id o, ob_key o, ob_state o)) <$> db_outbox d' = (λ o, (ob_run_id o, ob_key o, ob_state o)) <$> db_outbox d →
  refines d d'.
Proof.
  intros Hr Hj Ho [Hs Hp Hout Hk]. split; [|split; [by rewrite Hj|by apply results_kept_refl]].
  split; rewrite ?Hr, ?Hj; [done|done|..].
  - intros o Hin. apply (list_elem_of_fmap_2 (λ o, (ob_run_id o, ob_key o, ob_state o))) in Hin. rewrite Ho in Hin.
    apply list_elem_of_fmap in Hin as (o0 & [= Hrun Hkey Hstate] & Hin). unfold announces.
    rewrite Hrun, Hkey, Hstate. by apply Hout.
  - assert (ob_key <$> db_outbox d' = ob_key <$> db_outbox d) as ->; [|done].
    apply (f_equal (fmap (λ x : uuid * string * string, x.1.2))) in Ho. by rewrite <-!list_fmap_compose in Ho.
Qed.

Lemma update_outbox_refines p f d d' n :
  (∀ o, ob_run_id (f o) = ob_run_id o ∧ ob_key (f o) = ob_key o ∧ ob_state (f o) = ob_state o) →
  update_outbox p f d = (d', n) → refines d d'.
Proof.
  intros Hf [= <- _]. apply outbox_refines; [done|done|]. cbn [db_outbox with_outbox]. unfold update_all.
  rewrite <-list_fmap_compose. apply list_fmap_ext. intros i o _. simpl. destruct (p o); [|done].
  by destruct (Hf o) as (-> & -> & ->).
Qed.

Lemma ClaimCommitStatus_refines locked owner lease d : refines d (ClaimCommitStatus locked owner lease d).1.
Proof.
  unfold ClaimCommitStatus. destruct (_ || _); [apply pg_refines_refl|].
  apply transaction_refines. intros d' a. destruct (candidate_status _ _) as [o|]; [|intros [= <- _]; apply pg_refines_refl].
  destruct (_ <? _); [done|]. cbv zeta. destruct (update_outbox _ _ d) as [d1 n] eqn:Hu.
  cbn [fst]. intros [= <- _]. eapply update_outbox_refines; [|exact Hu]. done.
Qed.

Lemma RecoverCommitStatusLeases_refines locked limit d : refines d (RecoverCommitStatusLeases locked limit d).1.
Proof.
  unfold RecoverCommitStatusLeases. destruct (_ || _); [apply pg_refines_refl|]. cbv zeta.
  destruct (update_outbox _ _ d) as [d1 n] eqn:Hu. eapply update_outbox_refines; [|exact Hu]; done.
Qed.

Lemma FinishCommitStatus_refines id owner d : refines d (FinishCommitStatus id owner d).1.
Proof.
  unfold FinishCommitStatus. destruct (_ || _); [apply pg_refines_refl|].
  destruct (update_outbox _ _ d) as [d1 n] eqn:Hu. destruct (n <>? 1); (eapply update_outbox_refines; [|exact Hu]; done).
Qed.

Lemma RescheduleCommitStatus_refines id owner available code dead d :
  refines d (RescheduleCommitStatus id owner available code dead d).1.
Proof.
  unfold RescheduleCommitStatus. destruct (_ || _); [apply pg_refines_refl|]. cbv zeta.
  destruct (update_outbox _ _ d) as [d1 n] eqn:Hu. destruct (n <>? 1); (eapply update_outbox_refines; [|exact Hu]; done).
Qed.

Lemma ReplayCommitStatus_refines id actor d : refines d (ReplayCommitStatus id actor d).1.
Proof.
  unfold ReplayCommitStatus. destruct (_ || _); [apply pg_refines_refl|].
  apply transaction_refines. intros d' a. destruct (update_outbox _ _ d) as [d1 n] eqn:Hu.
  destruct (n <>? 1); intros [= <- _]. eapply pg_refines_trans; [eapply update_outbox_refines; [|exact Hu]; done|apply audit_refines].
Qed.

(** ** Logs and accounts *)

Lemma AppendLogChunk_refines c d : refines d (AppendLogChunk sha256 c d).1.
Proof.
  unfold AppendLogChunk. destruct (negb _); [apply pg_refines_refl|].
  apply transaction_refines. intros d' a. destruct (list_find _ _) as [[i job]|]; [|done]. cbv zeta.
  destruct (_ <=? _); [done|]. destruct (_ <? _).
  - destruct (_ !! _) as [k|]; [|done]. destruct (k <>? _); intros [= <- _]. by apply pg_refines_quiet.
  - destruct (_ <>? _); [done|]. destruct (_ || _); intros [= <- _]. by apply pg_refines_quiet.
Qed.

Lemma IssueSession_refines id value userID ttl d : refines d (IssueSession sha256 id value userID ttl d).1.
Proof.
  unfold IssueSession. destruct (_ || _); [apply pg_refines_refl|].
  apply transaction_refines. intros d' a. unfold issueSession.
  destruct (_ !! userID) as [user|]; [|done]. destruct (negb _); [done|]. cbv zeta.
  case_bool_decide; intros [= <- _]. by apply pg_refines_quiet.
Qed.

Lemma RevokeSession_refines token d : refines d (RevokeSession sha256 token d).1.
Proof.
  unfold RevokeSession. destruct (TokenDigest _ _) as [digest|]; [|apply pg_refines_refl].
  apply transaction_refines. intros d' a. destruct (list_find _ _) as [[i row]|]; intros [= <- _].
  by apply pg_refines_quiet.
Qed.

Lemma ChangeMembership_refines waited new_id token subjectID scope role add d :
  refines d (ChangeMembership sha256 waited new_id token subjectID scope role add d).1.
Proof.
  unfold ChangeMembership. destruct (_ || _); [apply pg_refines_refl|]. destruct (negb _); [apply pg_refines_refl|].
  apply transaction_refines. intros d' a. destruct (authenticateSession _ _ _) as [session|]; [|done]. cbn [rbind].
  destruct (_ =? _); [done|]. destruct (authorize _ _ _ _) as [[]|]; [|done]. cbn [rbind].
  destruct (_ !! subjectID) as [subject|]; [|done]. destruct (_ && _); [done|]. cbv zeta.
  destruct (sessionLive _ _) as [[]|]; [|done]. cbn [rbind].
  destruct add, (List.filter _ _); intros [= <- _]; by apply pg_refines_quiet.
Qed.
(** ** Histories of the database *)

Context `{MapOrder}.

Inductive pg_op :=
| PCreate (outbox_id : uuid) (ids : nat → uuid) (record : RunRecord)
| PCreateAuthorized (waited : duration) (outbox_id : uuid) (ids : nat → uuid) (token : string) (projectID : uuid)
    (record : RunRecord)
| PRerun (waited : duration) (app_now : time) (outbox_id next_id : uuid) (ids : nat → uuid) (token : string)
    (projectID runID : uuid) (mode : string) (requestID : uuid)
| PCancel (waited : duration) (outbox_id : uuid) (token : string) (projectID runID : uuid)
| PGetRun (waited : duration) (token : string) (projectID runID : uuid)
| PListRuns (waited : duration) (token : string) (projectID : uuid) (limit : Z)
| PReadLogs (waited : duration) (token : string) (projectID runID jobID : uuid) (after : Z)
| PReject (outbox_id : uuid) (ids : nat → uuid) (record : RunRecord)   (** a run that failed before it started *)
| PAudit (events : list auditRow)                 (** events that other components record *)
| PClaimJob (locked : uuid → bool) (token : string) (app_now : time)
| PStartJob (id : uuid) (token : string)
| PCompleteJob (outbox_id : uuid) (id : uuid) (token : string) (status : JobStatus)
| PClaimRunnerJob (locked : uuid → bool) (token : string) (runnerID : uuid)
| PAcknowledge (request : LeaseRequest)
| PRelease (request : LeaseRequest)
| PStart (request : LeaseRequest)
| PRenew (request : HeartbeatRequest)
| PComplete (outbox_id : uuid) (request : RunnerCompletion)
| PRecover (locked : uuid → bool) (outbox_ids : uuid → uuid) (limit : Z)
| PAppendLog (chunk : LogChunk)
| PClaimStatus (locked : uuid → bool) (owner : uuid) (lease : duration)
| PRecoverStatus (locked : uuid → bool) (limit : Z)
| PFinishStatus (id owner : uuid)
| PRescheduleStatus (id owner : uuid) (available : time) (code : string) (dead : bool)
| PReplayStatus (id actor : uuid)
| PIssueSession (id : uuid) (value : bytes) (userID : uuid) (ttl : duration)
| PRevokeSession (token : string)
| PChangeMembership (waited : duration) (id : uuid) (token : string) (subject : uuid) (scope : Scope) (role : Role)
    (add : bool)
| PDirectory (di : directory)                    (** accounts and projects, changed elsewhere *)
| PRunners (runners : gmap uuid runnerRow)        (** registrations, changed elsewhere *)
| PTick (elapsed : duration).

Definition pg_exec (o : pg_op) (d : database) : database :=
  match o with
  | PCreate o ids record => (PgCreate uuid_String json_unmarshal o ids record d).1
  | PCreateAuthorized w o ids token p record =>
    (CreateAuthorizedRun sha256 uuid_String json_unmarshal w o ids token p record d).1
  | PRerun w now o next ids token p run mode request =>
    (RerunAuthorizedRun sha256 uuid_String json_unmarshal w now o next ids token p run mode request d).1
  | PCancel w o token p run => (CancelAuthorizedRun sha256 uuid_String w o token p run d).1
  | PGetRun w token p run => (GetAuthorizedRun sha256 w token p run d).1
  | PListRuns w token p limit => (ListAuthorizedRuns sha256 w token p limit d).1
  | PReadLogs w token p run job after => (ReadAuthorizedLogs sha256 w token p run job after d).1
  | PReject o ids record => (PgCreate uuid_String json_unmarshal o ids record d).1
  | PAudit events => with_audit (db_audit d ++ events) d
  | PClaimJob locked token now => (PgClaimJob sha256 locked token now d).1
  | PStartJob id token => (PgStartJob sha256 id token d).1
  | PCompleteJob o id token st => (PgCompleteJob sha256 uuid_String o id token st d).1
  | PClaimRunnerJob locked token runner => (PgClaimRunnerJob sha256 locked token runner d).1
  | PAcknowledge q => (PgAcknowledgeRunnerJob sha256 q d).1
  | PRelease q => (PgReleaseRunnerJob sha256 q d).1
  | PStart q => (PgStartRunnerJob sha256 q d).1
  | PRenew q => (PgRenewRunnerLeases sha256 q d).1
  | PComplete o q => (PgCompleteRunnerJob sha256 uuid_String o q d).1
  | PRecover locked os limit => (PgRecoverExpiredRunnerLeases uuid_String locked os limit d).1
  | PAppendLog c => (AppendLogChunk sha256 c d).1
  | PClaimStatus locked owner lease => (ClaimCommitStatus locked owner lease d).1
  | PRecoverStatus locked limit => (RecoverCommitStatusLeases locked limit d).1
  | PFinishStatus id owner => (FinishCommitStatus id owner d).1
  | PRescheduleStatus id owner available code dead => (RescheduleCommitStatus id owner available code dead d).1
  | PReplayStatus id actor => (ReplayCommitStatus id actor d).1
  | PIssueSession id value user ttl => (IssueSession sha256 id value user ttl d).1
  | PRevokeSession token => (RevokeSession sha256 token d).1
  | PChangeMembership w id token subject scope role add =>
    (ChangeMembership sha256 w id token subject scope role add d).1
  | PDirectory di => with_directory di d
  | PRunners runners => with_runners runners d
  | PTick elapsed => elapse elapsed d
  end.

(** What the callers guarantee: a submitted run is queued and its plan compiled. *)
Definition pg_admissible (o : pg_op) : Prop :=
  match o with
  | PCreate _ _ record | PCreateAuthorized _ _ _ _ _ record => startable json_unmarshal record
  | PReject _ _ record => rejected json_unmarshal record
  | _ => True
  end.

Inductive pg_history (d0 : database) : database → Prop :=
| history_start : pg_history d0 d0
| history_step o d : pg_history d0 d → pg_admissible o → pg_history d0 (pg_exec o d).

(** A database without runs. *)
Definition pg_empty (d : database) : Prop := db_runs d = [] ∧ db_jobs d = [] ∧ db_outbox d = [].

Definition pg_reachable (d : database) : Prop := ∃ d0, pg_empty d0 ∧ pg_history d0 d.

Lemma pg_exec_refines o d : pg_admissible o → refines d (pg_exec o d).
Proof.
  destruct o; simpl; intros Ha;
    first [apply PgCreate_refines; exact Ha|apply PgReject_refines; exact Ha|apply CreateAuthorizedRun_refines; exact Ha|apply RerunAuthorizedRun_refines
      |apply CancelAuthorizedRun_refines|apply GetAuthorizedRun_refines|apply ListAuthorizedRuns_refines
      |apply ReadAuthorizedLogs_refines|apply PgClaimJob_refines|apply PgStartJob_refines|apply PgCompleteJob_refines
      |apply PgClaimRunnerJob_refines|apply PgAcknowledgeRunnerJob_refines|apply PgReleaseRunnerJob_refines
      |apply PgStartRunnerJob_refines|apply PgRenewRunnerLeases_refines|apply PgCompleteRunnerJob_refines
      |apply PgRecoverExpiredRunnerLeases_refines|apply AppendLogChunk_refines|apply ClaimCommitStatus_refines
      |apply RecoverCommitStatusLeases_refines|apply FinishCommitStatus_refines|apply RescheduleCommitStatus_refines
      |apply ReplayCommitStatus_refines|apply IssueSession_refines|apply RevokeSession_refines
      |apply ChangeMembership_refines|apply elapse_refines|by apply pg_refines_quiet].
Qed.

Lemma pg_empty_inv d : pg_empty d → inv d.
Proof.
  intros (Hr & Hj & Ho). split; rewrite ?Hr, ?Hj, ?Ho; [split|..]; rewrite ?fmap_nil.
  - apply sinv_nil.
  - constructor.
  - by intros run ?%not_elem_of_nil.
  - by intros r ?%not_elem_of_nil.
  - by intros r ?%not_elem_of_nil.
  - by intros o ?%not_elem_of_nil.
  - constructor.
Qed.

Lemma pg_history_refines d0 d : pg_history d0 d → refines d0 d.
Proof.
  induction 1 as [|o d _ IH Ha]; [apply pg_refines_refl|]. eapply pg_refines_trans; [exact IH|by apply pg_exec_refines].
Qed.

Lemma pg_reachable_inv d : pg_reachable d → inv d.
Proof. intros (d0 & He & Hh). by apply (pg_history_refines _ _ Hh), pg_empty_inv. Qed.

Lemma pg_reachable_step o d : pg_reachable d → pg_admissible o → pg_reachable (pg_exec o d).
Proof. intros (d0 & He & Hh) Ha. exists d0. split; [done|by apply history_step]. Qed.
End Runs.
