(* ===== verification/PgLease.v ===== *)
(** The PostgreSQL store keeps the lease protocol. *)

From stdpp Require Import relations.
From S2P Require Import Prelude GoStd RunModel Pipeline MemoryStore Scheduler RunSpec MemoryRefine Database PgStore PgRefine LeaseStore.

Section Lease.
Variable sha256 : string → string.
Variable uuid_String : uuid → string.
Variable json_unmarshal : string → option Plan.

Abbreviation inv := (pg_inv uuid_String json_unmarshal).
Abbreviation refines := (pg_refines uuid_String json_unmarshal).

(** What a lease request sees of a row. *)
Definition lease_row (now : time) (q : LeaseRequest) (j : jobRow) : option (JobStatus * bool) :=
  if leased_row sha256 now q j then Some (jr_status j, jr_accepted_at j <>? None) else None.

Definition pg_view (d : database) (q : LeaseRequest) : option (JobStatus * bool) :=
  head (omap (lease_row (db_now d) q) (db_jobs d)).

Lemma lease_row_id now q j v : lease_row now q j = Some v → jr_id j = lr_JobID q.
Proof.
  unfold lease_row. destruct (leased_row _ _ _ _) eqn:Hl; [|done]. intros _. by apply leased_row_spec in Hl as [? _].
Qed.

Lemma omap_none now q jobs : (∀ j, j ∈ jobs → jr_id j ≠ lr_JobID q) → omap (lease_row now q) jobs = [].
Proof.
  induction jobs as [|j jobs IH]; intros Hj; [done|]. simpl.
  destruct (lease_row now q j) as [v|] eqn:Hl.
  - apply lease_row_id in Hl. by destruct (Hj j ltac:(left)).
  - apply IH. intros k Hk. apply Hj. by right.
Qed.

Lemma pg_view_at d i j q :
  NoDup (jr_id <$> db_jobs d) → db_jobs d !! i = Some j → jr_id j = lr_JobID q →
  pg_view d q = lease_row (db_now d) q j.
Proof.
  unfold pg_view. revert i. induction (db_jobs d) as [|k jobs IH]; intros i Hnd Hj Hid; [done|].
  apply NoDup_cons in Hnd as [Hk Hnd]. destruct i as [|i]; simpl in Hj.
  - injection Hj as ->. simpl. rewrite omap_none; [by destruct (lease_row _ q j)|].
    intros j' Hj' Heq. apply Hk. rewrite Hid, <-Heq. by apply list_elem_of_fmap_2.
  - simpl. destruct (lease_row (db_now d) q k) as [v|] eqn:Hl; [|by eapply IH].
    exfalso. apply Hk. apply lease_row_id in Hl. rewrite Hl, <-Hid. by eapply list_elem_of_fmap_2, list_elem_of_lookup_2.
Qed.

(** A live lease belongs to a row. *)
Lemma pg_view_Some d q v :
  pg_view d q = Some v → ∃ i j, db_jobs d !! i = Some j ∧ leased_row sha256 (db_now d) q j = true ∧
    v = (jr_status j, jr_accepted_at j <>? None).
Proof.
  unfold pg_view. intros Hh. assert (Hin : v ∈ omap (lease_row (db_now d) q) (db_jobs d)).
  { destruct (omap _ _); [done|]. injection Hh as ->. left. }
  apply list_elem_of_omap in Hin as (j & [i Hi]%list_elem_of_lookup & Hl). exists i, j. split; [done|].
  unfold lease_row in Hl. destruct (leased_row _ _ _ _); by simplify_eq.
Qed.

Lemma pg_view_None d q : pg_view d q = None → ∀ j, j ∈ db_jobs d → leased_row sha256 (db_now d) q j = false.
Proof.
  unfold pg_view. intros Hh j Hj. apply not_true_is_false. intros Hl.
  assert (Hin : (jr_status j, jr_accepted_at j <>? None) ∈ omap (lease_row (db_now d) q) (db_jobs d)).
  { apply list_elem_of_omap. exists j. split; [done|]. unfold lease_row. by rewrite Hl. }
  destruct (omap _ _); [by apply not_elem_of_nil in Hin|done].
Qed.

(** Rows that agree for the leases of all jobs but [id]. *)
Definition same_rows (now : time) (id : uuid) : relation (list jobRow) :=
  Forall2 (λ j j', ∀ q, lr_JobID q ≠ id → lease_row now q j' = lease_row now q j).

#[local] Instance same_rows_refl now id : Reflexive (same_rows now id).
Proof. intros l. by apply Forall_Forall2_diag, Forall_true. Qed.
#[local] Instance same_rows_trans now id : Transitive (same_rows now id).
Proof.
  intros l1 l2 l3 H12 H23. eapply Forall2_trans; [|exact H12|exact H23].
  intros x y z Hxy Hyz q Hq. by rewrite Hyz, Hxy.
Qed.

Lemma same_rows_view d d' id q :
  db_now d' = db_now d → same_rows (db_now d) id (db_jobs d) (db_jobs d') → lr_JobID q ≠ id → pg_view d' q = pg_view d q.
Proof.
  intros Hn Hs Hq. unfold pg_view. rewrite Hn. f_equal. induction Hs as [|j j' l l' Hj _ IH]; [done|].
  simpl. rewrite (Hj q Hq). destruct (lease_row _ q j); [by f_equal|done].
Qed.

Lemma same_rows_alter now i j f l :
  l !! i = Some j → jr_id (f j) = jr_id j → same_rows now (jr_id j) l (alter f i l).
Proof.
  intros Hj Hf. apply Forall2_same_length_lookup. split; [by rewrite length_alter|].
  intros k x y Hx Hy q Hq. rewrite list_lookup_alter in Hy. case_decide as Hk; [|by simplify_eq].
  subst k. rewrite Hj in Hx, Hy. simplify_eq/=. unfold lease_row, leased_row. rewrite Hf.
  by rewrite (bool_decide_eq_false_2 (jr_id x = lr_JobID q)) by congruence.
Qed.

(** Rows that are not leased, before and after, do not matter. *)
Lemma same_rows_update_all now id p f l :
  (∀ j, p j = true → job_leased (jr_status j) = false ∧ job_leased (jr_status (f j)) = false) →
  same_rows now id l (update_all p f l).
Proof.
  intros Hp. unfold same_rows, update_all. apply Forall2_fmap_r, Forall_Forall2_diag, Forall_true.
  intros j q _. destruct (p j) eqn:Hpj; [|done]. destruct (Hp j Hpj) as [H1 H2].
  unfold lease_row, leased_row. by rewrite H1, H2, !andb_false_r.
Qed.
(** ** Updates of a leased row *)

Lemma pg_view_leased d q j :
  NoDup (jr_id <$> db_jobs d) → j ∈ db_jobs d → leased_row sha256 (db_now d) q j = true →
  pg_view d q = Some (jr_status j, jr_accepted_at j <>? None).
Proof.
  intros Hnd [i Hi]%list_elem_of_lookup Hl. pose proof (proj1 (leased_row_spec _ _ _ _ Hl)) as Hid.
  rewrite (pg_view_at d i j) by done. unfold lease_row. by rewrite Hl.
Qed.

Lemma update_none p f d d1 n :
  (∀ j, j ∈ db_jobs d → p j = false) → update_jobs p f d = (d1, n) → n = 0 ∧ d1 = d.
Proof.
  intros Hp. unfold update_jobs. destruct (update_all_none p f (db_jobs d) Hp) as [-> ->]. intros [= <- <-].
  split; [done|by destruct d].
Qed.

Lemma update_hit id p f d d1 n i j :
  update_jobs p f d = (d1, n) → NoDup (jr_id <$> db_jobs d) → db_jobs d !! i = Some j → p j = true →
  (∀ j, p j = true → jr_id j = id) → n = 1 ∧ d1 = with_jobs (alter f i (db_jobs d)) d.
Proof.
  intros Hu Hnd Hj Hpj Hp.
  destruct (update_row_cases id _ _ _ _ _ Hu Hnd Hp) as [[-> ->]|(-> & k & j' & Hk & Hpk & ->)].
  - exfalso. injection Hu as _ Hn. apply (f_equal Z.to_nat) in Hn. rewrite Nat2Z.id in Hn.
    apply length_zero_iff_nil in Hn. assert (Hin : In j []); [|done].
    rewrite <-Hn. apply filter_In. split; [|done]. apply list_elem_of_In. by eapply list_elem_of_lookup_2.
  - split; [done|]. assert (k = i) as ->; [|done].
    eapply (NoDup_lookup _ k i id Hnd); rewrite list_lookup_fmap, ?Hk, ?Hj; simpl; f_equal; by apply Hp.
Qed.

(** The views after an update of one row that keeps its id. *)
Lemma alter_view d i j f q :
  NoDup (jr_id <$> db_jobs d) → (∀ k, jr_id (f k) = jr_id k) → db_jobs d !! i = Some j → jr_id j = lr_JobID q →
  pg_view (with_jobs (alter f i (db_jobs d)) d) q = lease_row (db_now d) q (f j).
Proof.
  intros Hnd Hf Hj Hid. rewrite (pg_view_at _ i (f j)); [done|..].
  - cbn [db_jobs with_jobs]. assert (jr_id <$> alter f i (db_jobs d) = jr_id <$> db_jobs d) as ->; [|done].
    apply list_eq. intros k. rewrite !list_lookup_fmap, list_lookup_alter. case_decide; [subst|done].
    destruct (db_jobs d !! _); simpl; by rewrite ?Hf.
  - cbn [db_jobs with_jobs]. by rewrite list_lookup_alter_eq, Hj.
  - by rewrite Hf.
Qed.

Lemma alter_others d i j f q :
  db_jobs d !! i = Some j → jr_id (f j) = jr_id j → lr_JobID q ≠ jr_id j →
  pg_view (with_jobs (alter f i (db_jobs d)) d) q = pg_view d q.
Proof. intros Hj Hf Hq. apply (same_rows_view _ _ (jr_id j)); [done| |done]. by apply same_rows_alter. Qed.

(** ** The protocol *)

Section Store.
(** The rows that other transactions hold, and the id of the next outbox row. *)
Variable locked : uuid → bool.
Variable outbox_id : uuid.

Definition pg_store : RunnerJobStore database := {|
  claim := PgClaimRunnerJob sha256 locked;
  acknowledge := PgAcknowledgeRunnerJob sha256;
  release := PgReleaseRunnerJob sha256;
  start := PgStartRunnerJob sha256;
  complete := PgCompleteRunnerJob sha256 uuid_String outbox_id;
  lease_view := pg_view;
|}.
#[local] Existing Instance pg_store.

(** The text of a uuid identifies it and contains no colon. *)
Hypothesis uuid_text : ∀ u v, uuid_String u = uuid_String v → u = v.
Hypothesis uuid_colon : ∀ u, Forall (λ c, c ≠ ":"%char) (chars (uuid_String u)).

Lemma status_key_inj u v s s' :
  status_key uuid_String u s = status_key uuid_String v s' → u = v ∧ s = s'.
Proof.
  unfold status_key. intros Heq. apply (f_equal chars) in Heq. rewrite !chars_app in Heq.
  apply (inj (app (chars "run:"))) in Heq. change (chars ":" ++ ?x) with (":"%char :: x) in Heq.
  apply app_sep_inj in Heq as [Hu Hs]; [|done..]. split; [apply uuid_text|]; by apply (inj chars).
Qed.

(** Announcing the result of a finished run never fails. *)
Lemma enqueue_ok run d :
  inv d → (∀ r, r ∈ db_runs d → rn_ID r = run → Terminal (rn_Status r) = true) →
  ∀ st, (∀ r, r ∈ db_runs d → rn_ID r = run → rn_Status r = st) →
  ∃ d', enqueueCommitStatusForRun uuid_String outbox_id run st d = Ok d'.
Proof.
  intros Hd Hterm st Hst. unfold enqueueCommitStatusForRun. destruct (_ && _); [eauto|].
  destruct (list_find _ _) as [[k r]|] eqn:Hfind; [|eauto].
  apply list_find_Some in Hfind as (Hr%list_elem_of_lookup_2 & Hid & _).
  destruct (rn_ProjectID r) as [p|] eqn:Hp; [|eauto]. destruct (_ !! p) as [repo|]; [|eauto].
  case_bool_decide as Hlen; cbn [negb]; [|eauto].
  rewrite (pl_sha _ _ _ (pv_planned _ _ _ Hd r Hr)) by (rewrite ?Hp; done). cbn [negb].
  specialize (Hterm r Hr Hid). rewrite <-(Hst r Hr Hid) in *. clear st Hst.
  destruct (commit_state (rn_Status r)) as [[state suffix] description] eqn:Hcs. cbv zeta.
  assert (suffix = "final") as -> by (destruct (rn_Status r); try done; by injection Hcs).
  destruct (list_find _ (db_outbox d)) as [[k' o]|] eqn:Hkey; [|eauto].
  apply list_find_Some in Hkey as (Ho%list_elem_of_lookup_2 & Hk & _).
  destruct (pv_outbox _ _ _ Hd o Ho) as (r' & Hr' & Hid' & [[Hk' _]|(Hk' & _ & Hstate)]); rewrite Hk' in Hk;
    apply status_key_inj in Hk as [Hrun Hs]; [done|].
  assert (r' = r) as -> by (eapply (NoDup_key_unique rn_ID); [apply (pv_store _ _ _ Hd)|done|done|congruence]).
  rewrite Hcs in Hstate. cbn in Hstate. rewrite Hstate, <-Hid', Hrun.
  rewrite !(bool_decide_eq_true_2 _) by done. eauto.
Qed.

(** Recording the outcome of a leased job never fails, and leaves the leases alone. *)
Lemma finalize_ok d i j f outcome :
  inv d → db_jobs d !! i = Some j → (∀ k, row_view (f k) = aj_set outcome (row_view k)) →
  job_leased (jr_status j) = true → job_outcome outcome = true →
  let d1 := with_jobs (alter f i (db_jobs d)) d in
  ∃ d2, finalizeRunJobs uuid_String outbox_id (jr_run_id j) outcome d1 = Ok d2 ∧ db_now d2 = db_now d ∧
    ∀ id, same_rows (db_now d) id (db_jobs d1) (db_jobs d2).
Proof.
  intros Hd Hj Hf Hl Ho d1. rewrite finalize_eq. cbv zeta.
  pose proof (finished_run_refines uuid_String json_unmarshal _ _ _ _ _ Hj Hf Hl Ho Hd) as [Hd2 _]. fold d1 in Hd2.
  set (d2 := finished_run _ _ _) in *.
  assert (Hrows : db_now d2 = db_now d ∧ ∀ id, same_rows (db_now d) id (db_jobs d1) (db_jobs d2)).
  { unfold d2, finished_run, propagate_jobs. destruct outcome; try done; simpl; (split; [done|]); intros id;
      apply same_rows_update_all; intros k Hk; (split; [|done]);
      rewrite ?andb_true_iff, ?orb_true_iff, ?bool_decide_eq_true in Hk;
      assert (jr_status k = JobBlocked ∨ jr_status k = JobQueued) as [-> | ->] by naive_solver; done. }
  destruct (existsb _ _) eqn:Hc; [by exists d2|].
  destruct (enqueue_ok (jr_run_id j) d2 Hd2) with (st := final_status (run_statuses (jr_run_id j) (rows d2))) as [d3 He].
  - intros r Hr Hid. unfold d2 in Hr, Hc. rewrite (finished_status _ _ _ Hc r Hr Hid). apply final_status_terminal.
  - intros r Hr Hid. by apply (finished_status _ _ d1).
  - exists d3. split; [done|]. apply enqueue_spec in He. by rewrite (en_same _ _ _ _ _ He).
Qed.

Lemma pg_claim_law token r d d' a :
  inv d → token ≠ "" → PgClaimRunnerJob sha256 locked token r d = (d', Ok (Some a)) → as_JobID a ≠ uuid_Nil →
  as_LeaseToken a = token ∧ validateLeaseRequest (lease_of r a) = true ∧
  pg_view d' (lease_of r a) = Some (JobAssigned, false) ∧
  (∀ q, lr_JobID q = as_JobID a → pg_view d q = None) ∧ others_kept (lease_of r a) d d'.
Proof.
  intros Hd Ht. unfold PgClaimRunnerJob. case_bool_decide as Hr; [done|]. unfold transaction.
  destruct (db_runners d !! r) as [ru|]; [|done]. destruct (_ || _); [done|]. destruct (_ <=? _); [done|].
  destruct (pick_run _ _ d) as [run|]; [|done]. destruct (pick_job _ _ _ d) as [job|] eqn:Hjob; [|done].
  destruct (source_of run d) as [source|]; [|done]. cbn [rbind]. cbv zeta.
  destruct (update_jobs _ _ d) as [d1 n] eqn:Hu. apply pick_job_spec in Hjob as (Hjob & _ & Hq & _).
  destruct (claim_update _ _ _ _ _ _ _ Hd Hjob Hq Hu) as (-> & i & Hj & ->). simpl.
  intros [= <- <-] Hid. cbn in Hid. split; [done|].
  pose proof (pg_ids _ _ _ Hd) as Hnd. match type of Hu with update_jobs _ ?g _ = _ => set (f := g) in * end.
  split; [|split; [|split]].
  - unfold validateLeaseRequest. simpl. rewrite !bool_decide_eq_false_2 by done. done.
  - change (pg_view (start_run ?x ?y)) with (pg_view y). rewrite (alter_view d i job f) by done.
    unfold lease_row, leased_row, lease_matches. cbn.
    assert (Hlt : (db_now d <? db_now d + 30 * Second) = true).
    { apply Z.ltb_lt. assert (30 * Second = 30000000000) as -> by reflexivity. lia. }
    rewrite Hlt. by rewrite !bool_decide_eq_true_2.
  - intros q Hqid. rewrite (pg_view_at d i job) by done. unfold lease_row, leased_row.
    by rewrite Hq, andb_false_r.
  - intros q Hne. change (pg_view (start_run ?x ?y)) with (pg_view y). by apply (alter_others d i job).
Qed.

(** A claim adds one job to those that the runner holds, within its capacity. *)
Lemma pg_claim_held token r d d' a :
  inv d → PgClaimRunnerJob sha256 locked token r d = (d', Ok (Some a)) →
  ∃ ru, db_runners d !! r = Some ru ∧ db_runners d' = db_runners d ∧
    count_jobs (held_by r (db_now d')) d' = count_jobs (held_by r (db_now d)) d + 1 ∧
    count_jobs (held_by r (db_now d')) d' ≤ ru_capacity ru.
Proof.
  intros Hd. unfold PgClaimRunnerJob. case_bool_decide; [done|]. unfold transaction.
  destruct (db_runners d !! r) as [ru|] eqn:Hru; [|done]. destruct (_ || _); [done|].
  destruct (Z.leb_spec (ru_capacity ru) (count_jobs (held_by r (db_now d)) d)) as [|Hcap]; [done|].
  destruct (pick_run _ _ d) as [run|]; [|done]. destruct (pick_job _ _ _ d) as [job|] eqn:Hjob; [|done].
  destruct (source_of run d) as [source|]; [|done]. cbn [rbind]. cbv zeta.
  destruct (update_jobs _ _ d) as [d1 n] eqn:Hu. apply pick_job_spec in Hjob as (Hjob & _ & Hq & _).
  destruct (claim_update _ _ _ _ _ _ _ Hd Hjob Hq Hu) as (-> & i & Hi & ->). simpl. intros [= <- _].
  exists ru. do 2 (split; [done|]). match goal with |- ?x = _ ∧ _ => assert (Heq : x = count_jobs (held_by r (db_now d)) d + 1); [|lia] end.
  change (count_jobs ?p ?d) with (count p (db_jobs d)). cbn [db_jobs start_run update_runs with_runs with_jobs db_now].
  rewrite (count_alter _ _ i job) by done. unfold held_by at 2 3. rewrite Hq, andb_false_r. cbn.
  rewrite bool_decide_eq_true_2 by done.
  assert ((db_now d <? db_now d + 30 * Second) = true) as ->.
  { apply Z.ltb_lt. assert (30 * Second = 30000000000) as -> by reflexivity. lia. }
  cbn. change (job_leased JobAssigned) with true. cbn [andb]. lia.
Qed.

Lemma leased_id q now p j : (leased_row sha256 now q j && p) = true → jr_id j = lr_JobID q.
Proof. intros [Hl _]%andb_true_iff. by apply leased_row_spec in Hl as [? _]. Qed.

Lemma pg_acknowledge_law q d :
  inv d → validateLeaseRequest q = true →
  match pg_view d q with
  | Some (st, _) => ∃ d' l, PgAcknowledgeRunnerJob sha256 q d = (d', Ok l) ∧ inv d' ∧
      pg_view d' q = Some (st, true) ∧ others_kept q d d' ∧ ls_JobID l = lr_JobID q
  | None => PgAcknowledgeRunnerJob sha256 q d = (d, Err ErrLeaseInvalid)
  end.
Proof.
  intros Hd Hq. pose proof (proj1 (PgAcknowledgeRunnerJob_refines sha256 uuid_String json_unmarshal q d Hd)) as Hwf.
  pose proof (pg_ids _ _ _ Hd) as Hnd. unfold PgAcknowledgeRunnerJob, transaction in *.
  change (validateRunnerLeaseRequest q) with (validateLeaseRequest q) in *. rewrite Hq in *. cbn [negb] in *.
  destruct (update_jobs _ _ d) as [d1 n] eqn:Hu. destruct (pg_view d q) as [v|] eqn:Hv.
  2:{ by destruct (update_none _ _ _ _ _ (pg_view_None _ _ Hv) Hu) as [-> _]. }
  apply pg_view_Some in Hv as (i & j & Hj & Hl & ->).
  destruct (update_hit (lr_JobID q) _ _ _ _ _ i j Hu Hnd Hj Hl) as [-> ->].
  { intros k Hk. by apply leased_row_spec in Hk as [? _]. }
  pose proof (proj1 (leased_row_spec _ _ _ _ Hl)) as Hid. simpl in *.
  eexists _, _. split; [done|]. split; [exact Hwf|]. split.
  - rewrite (alter_view d i j) by done. unfold lease_row. change (leased_row _ _ q _) with (leased_row sha256 (db_now d) q j).
    by rewrite Hl.
  - split; [|done]. intros q' Hne. apply (alter_others d i j); [done|done|congruence].
Qed.

Lemma pg_start_law q d :
  inv d → validateLeaseRequest q = true →
  match pg_view d q with
  | Some (_, true) => ∃ d' l, PgStartRunnerJob sha256 q d = (d', Ok l) ∧ inv d' ∧
      pg_view d' q = Some (JobRunning, true) ∧ others_kept q d d' ∧ ls_JobID l = lr_JobID q
  | _ => PgStartRunnerJob sha256 q d = (d, Err ErrLeaseInvalid)
  end.
Proof.
  intros Hd Hq. pose proof (proj1 (PgStartRunnerJob_refines sha256 uuid_String json_unmarshal q d Hd)) as Hwf.
  pose proof (pg_ids _ _ _ Hd) as Hnd. unfold PgStartRunnerJob, transaction in *.
  change (validateRunnerLeaseRequest q) with (validateLeaseRequest q) in *. rewrite Hq in *. cbn [negb] in *.
  destruct (update_jobs _ _ d) as [d1 n] eqn:Hu.
  assert (Hrefused : (∀ st, pg_view d q ≠ Some (st, true)) → n = 0).
  { intros Hv. refine (proj1 (update_none _ _ _ _ _ _ Hu)). intros j Hj.
    destruct (leased_row _ _ q j) eqn:Hl; [|done]. apply (pg_view_leased _ _ _ Hnd Hj) in Hl. rewrite Hl in Hv.
    destruct (jr_accepted_at j <>? None); [by destruct (Hv (jr_status j))|done]. }
  destruct (pg_view d q) as [[st []]|] eqn:Hv; [|by rewrite Hrefused..].
  apply pg_view_Some in Hv as (i & j & Hj & Hl & [= -> Ha]).
  destruct (update_hit (lr_JobID q) _ _ _ _ _ i j Hu Hnd Hj) as [-> ->]; [by rewrite Hl, <-Ha|intros k Hk; by apply leased_id in Hk|].
  pose proof (proj1 (leased_row_spec _ _ _ _ Hl)) as Hid. simpl in *.
  eexists _, _. split; [done|]. split; [exact Hwf|]. split.
  - rewrite (alter_view d i j) by done. unfold lease_row, leased_row in *. bools. simpl. rewrite <-Ha.
    match goal with H : lease_matches _ _ _ j = true |- _ => unfold lease_matches in *; simpl; rewrite H end.
    by rewrite !bool_decide_eq_true_2.
  - split; [|done]. intros q' Hne. apply (alter_others d i j); [done|done|congruence].
Qed.

Lemma pg_release_law q d :
  inv d → validateLeaseRequest q = true →
  match pg_view d q with
  | Some (JobAssigned, false) => ∃ d', PgReleaseRunnerJob sha256 q d = (d', Ok tt) ∧ inv d' ∧
      (∀ q', validateLeaseRequest q' = true → lr_JobID q' = lr_JobID q → pg_view d' q' = None) ∧
      others_kept q d d'
  | _ => PgReleaseRunnerJob sha256 q d = (d, Err ErrLeaseInvalid)
  end.
Proof.
  intros Hd Hq. pose proof (proj1 (PgReleaseRunnerJob_refines sha256 uuid_String json_unmarshal q d Hd)) as Hwf.
  pose proof (pg_ids _ _ _ Hd) as Hnd. unfold PgReleaseRunnerJob, transaction in *.
  change (validateRunnerLeaseRequest q) with (validateLeaseRequest q) in *. rewrite Hq in *. cbn [negb] in *.
  destruct (update_jobs _ _ d) as [d1 n] eqn:Hu.
  assert (Hrefused : pg_view d q ≠ Some (JobAssigned, false) → n = 0).
  { intros Hv. refine (proj1 (update_none _ _ _ _ _ _ Hu)). intros j Hj.
    destruct (leased_row _ _ q j) eqn:Hl; [|done]. apply (pg_view_leased _ _ _ Hnd Hj) in Hl. rewrite Hl in Hv.
    apply not_true_is_false. intros Hp. bools. apply Hv. f_equal. f_equal; [done|]. by rewrite bool_decide_eq_true_2. }
  destruct (pg_view d q) as [[st ok]|] eqn:Hv; [|by rewrite Hrefused].
  assert (Hcase : (st = JobAssigned ∧ ok = false) ∨ Some (st, ok) ≠ Some (JobAssigned, false)).
  { destruct st, ok; try (by right); by left. }
  destruct Hcase as [[-> ->]|Hne]; [|rewrite (Hrefused Hne); by destruct st, ok].
  apply pg_view_Some in Hv as (i & j & Hj & Hl & [= Hst Ha]).
  destruct (update_hit (lr_JobID q) _ _ _ _ _ i j Hu Hnd Hj) as [-> ->].
  { rewrite Hl, <-Hst. simpl. by destruct (jr_accepted_at j). }
  { intros k Hk. rewrite <-andb_assoc in Hk. by apply leased_id in Hk. }
  pose proof (proj1 (leased_row_spec _ _ _ _ Hl)) as Hid. simpl in *.
  eexists. split; [done|]. split; [exact Hwf|]. split.
  - intros q' _ Heq. rewrite (alter_view d i j) by (done || congruence). unfold lease_row, leased_row. simpl.
    by rewrite !andb_false_r.
  - intros q' Hne. apply (alter_others d i j); [done|done|congruence].
Qed.

Lemma pg_complete_law q outcome d :
  inv d → validateLeaseRequest q = true → job_outcome outcome = true →
  match pg_view d q with
  | Some _ => ∃ d', PgCompleteRunnerJob sha256 uuid_String outbox_id (completion_of q outcome) d = (d', Ok tt) ∧ inv d' ∧
      (∀ q', validateLeaseRequest q' = true → lr_JobID q' = lr_JobID q → pg_view d' q' = None) ∧
      others_kept q d d'
  | None => PgCompleteRunnerJob sha256 uuid_String outbox_id (completion_of q outcome) d = (d, Err ErrLeaseInvalid)
  end.
Proof.
  intros Hd Hq Ho.
  pose proof (proj1 (PgCompleteRunnerJob_refines sha256 uuid_String json_unmarshal outbox_id (completion_of q outcome) d Hd)) as Hwf.
  pose proof (pg_ids _ _ _ Hd) as Hnd. unfold PgCompleteRunnerJob, transaction, complete_row in *. cbn [completion_of rc_RunnerID rc_JobID rc_LeaseToken rc_Status] in *.
  unfold validateLeaseRequest in Hq. apply negb_true_iff in Hq. rewrite Hq, Ho in *. cbn [negb] in *.
  assert (Hqq : mkLease (lr_RunnerID q) (lr_JobID q) (lr_LeaseToken q) = q) by by destruct q. rewrite Hqq in *.
  destruct (update_jobs _ _ d) as [d1 n] eqn:Hu. destruct (pg_view d q) as [v|] eqn:Hv.
  2:{ destruct (update_none _ _ _ _ _ (pg_view_None _ _ Hv) Hu) as [-> _]. by destruct (list_find _ _) as [[? ?]|]. }
  apply pg_view_Some in Hv as (i & j & Hj & Hl & ->).
  destruct (leased_row_spec _ _ _ _ Hl) as [Hid Hlj].
  destruct (list_find _ _) as [[k job]|] eqn:Hfind.
  2:{ apply list_find_None in Hfind. rewrite Forall_forall in Hfind.
      by destruct (Hfind j (list_elem_of_lookup_2 _ _ _ Hj)). }
  rewrite <-(find_row_unique _ _ _ _ _ _ Hd Hfind j (list_elem_of_lookup_2 _ _ _ Hj) Hid) in *.
  destruct (update_hit (lr_JobID q) _ _ _ _ _ i j Hu Hnd Hj Hl) as [-> ->].
  { intros x Hx. by apply leased_row_spec in Hx as [? _]. }
  destruct (finalize_ok d i j (λ j, jr_set_lease None None (jr_set_finished (Some (db_now d)) (jr_set_status outcome j))) outcome)
    as (d2 & Hfin & Hnow & Hsame); [done..|]. simpl in *. rewrite Hfin in *. simpl in *.
  eexists. split; [done|]. split; [exact Hwf|]. split.
  - intros q' _ Heq. erewrite (same_rows_view (with_jobs _ d) d2 (N.succ (lr_JobID q'))); [|exact Hnow|apply Hsame|lia].
    rewrite (alter_view d i j) by (done || congruence). unfold lease_row, leased_row. simpl.
    destruct outcome; try done; by rewrite ?andb_false_r.
  - intros q' Hne. erewrite (same_rows_view (with_jobs _ d) d2 (N.succ (lr_JobID q'))); [|exact Hnow|apply Hsame|lia].
    apply (alter_others d i j); [done|done|congruence].
Qed.

Lemma pg_claim_none token r d d' res :
  PgClaimRunnerJob sha256 locked token r d = (d', res) → (∀ a, res ≠ Ok (Some a)) → d' = d.
Proof.
  unfold PgClaimRunnerJob. case_bool_decide; [by intros [= <- _]|]. unfold transaction.
  destruct (db_runners d !! r) as [ru|]; [|by intros [= <- _]]. destruct (_ || _); [by intros [= <- _]|].
  destruct (_ <=? _); [by intros [= <- _]|]. destruct (pick_run _ _ d) as [run|]; [|by intros [= <- _]].
  destruct (pick_job _ _ _ d) as [job|]; [|by intros [= <- _]].
  destruct (source_of run d) as [source|]; [|by intros [= <- _]]. cbn [rbind]. cbv zeta.
  destruct (update_jobs _ _ d) as [d1 n]. destruct (n =? 0); [by intros [= <- _]|].
  intros [= _ <-] Hne. by destruct (Hne _ eq_refl).
Qed.

Lemma pg_laws : RunnerJobLaws database inv.
Proof.
  split.
  - intros d q st b Hv. apply pg_view_Some in Hv as (i & j & _ & Hl & [= -> _]). by apply leased_row_spec in Hl as [_ ?].
  - intros token r d Hd. by apply (PgClaimRunnerJob_refines sha256 uuid_String json_unmarshal locked token r d Hd).
  - apply pg_claim_none.
  - apply pg_claim_law.
  - apply pg_acknowledge_law.
  - apply pg_start_law.
  - apply pg_release_law.
  - apply pg_complete_law.
Qed.
End Store.
End Lease.
