(* ===== verification/PgScenario.v ===== *)
(** A concrete database, for the examples at which the theorems are applied: an
    organization with one project, a maintainer with a session, a runner, and the
    pipelines "demo" and "pair". *)

From S2P Require Import Prelude GoStd RunModel Pipeline Compiler MemoryStore PlanFacts Scheduler RunSpec MemoryRefine Scenario Authorization Codecs Database Identity PgStore PgActions PgRefine PgSubmit PgRuns.

#[local] Existing Instance library_order.

(** Stand-ins for the digest and the text of identifiers. *)
Definition demo_sha256 (s : string) : string := s.
Definition demo_uuid (u : uuid) : string := of_chars (replicate (N.to_nat u) "a"%char).

Lemma demo_uuid_inj u v : demo_uuid u = demo_uuid v → u = v.
Proof.
  intros Heq. apply (f_equal (length ∘ chars)) in Heq. simpl in Heq. unfold demo_uuid in Heq.
  rewrite !chars_of_chars, !length_replicate in Heq. lia.
Qed.

Lemma demo_uuid_colon u : Forall (λ c, c ≠ ":"%char) (chars (demo_uuid u)).
Proof. unfold demo_uuid. rewrite chars_of_chars. by apply Forall_replicate. Qed.

Definition demo_token : string := NewToken (replicate 32 zero).
Definition other_token : string := NewToken (replicate 32 one).

(** The maintainer 20 with the session 30, and the user 21 with the session 31. *)
Definition demo_directory : directory := {|
  di_instance := 1; di_organizations := {[2%N]};
  di_repositories := {[3%N := mkRepositoryRow 2 "github" "77" "https://example.test/r.git" true]};
  di_environments := {[4%N := (3%N, true)]};
  di_users := <[20%N := mkUserRow "Ada" true]> {[21%N := mkUserRow "Bob" true]};
  di_sessions := [mkSessionRow 30 20 demo_token (24 * Hour) false;
                  mkSessionRow 31 21 other_token (24 * Hour) false];
  di_memberships := [mkMembershipRow 40 20 Maintainer (mkScope Project 3)] |}.

Definition demo_runner_row : runnerRow :=
  mkRunnerRow "standard" "online" "linux" "amd64" "docker" ∅ 2 (Some 0) 2 (Some 0).

Definition demo_database : database :=
  mkDatabase [] ∅ [] {[7%N := demo_runner_row]} [] [] ∅ ∅ demo_directory 0.

(** A run of the project for a commit. *)
Definition project_record (id : uuid) (plan : string) : RunRecord := {|
  rn_ID := id; rn_ProjectID := Some 3%N; rn_CreatedBy := None; rn_PipelineVersionID := None;
  rn_IdempotencyKey := ""; rn_PipelineName := "demo"; rn_Event := "push"; rn_Ref := "refs/heads/main";
  rn_CommitSHA := "0123456789012345678901234567890123456789"; rn_Status := StatusQueued; rn_ConfigSHA256 := "";
  rn_Plan := plan; rn_CreatedAt := 0; rn_StartedAt := None; rn_FinishedAt := None |}.

Lemma project_record_startable id plan : startable demo_unmarshal (project_record id plan).
Proof. split; [|done..]. intros p. apply demo_unmarshal_ok. Qed.

Abbreviation demo_exec := (pg_exec demo_sha256 demo_uuid demo_unmarshal).

Definition pg_play (ops : list pg_op) (d : database) : database := foldl (λ d o, demo_exec o d) d ops.

Definition no_submission (o : pg_op) : bool :=
  match o with PCreate _ _ _ | PCreateAuthorized _ _ _ _ _ _ | PReject _ _ _ => false | _ => true end.

Lemma pg_play_history ops d0 d :
  forallb no_submission ops = true → pg_history demo_sha256 demo_uuid demo_unmarshal d0 d →
  pg_history demo_sha256 demo_uuid demo_unmarshal d0 (pg_play ops d).
Proof.
  unfold pg_play. revert d. induction ops as [|o ops IH]; intros d Ho Hd; [done|].
  cbn [forallb] in Ho. bools. apply IH; [done|]. apply history_step; [done|]. by destruct o.
Qed.

Definition no_lock (id : uuid) : bool := false.

(** The run 60 of the project, submitted. *)
Definition pg_start (plan : string) : database :=
  demo_exec (PCreate 50 (demo_ids 100) (project_record 60 plan)) demo_database.

Lemma pg_start_history plan : pg_history demo_sha256 demo_uuid demo_unmarshal demo_database (pg_start plan).
Proof. apply history_step; [constructor|]. apply project_record_startable. Qed.

Lemma pg_play_reachable ops plan :
  forallb no_submission ops = true → pg_reachable demo_sha256 demo_uuid demo_unmarshal (pg_play ops (pg_start plan)).
Proof.
  intros Ho. exists demo_database. split; [done|]. apply pg_play_history; [done|apply pg_start_history].
Qed.

(** What the runner 7 does with the job [id] of the lease [token]. *)
Definition run_job (id : uuid) (token : string) (outcome : JobStatus) : list pg_op :=
  [PClaimRunnerJob no_lock token 7; PAcknowledge (mkLease 7 id token); PStart (mkLease 7 id token);
   PComplete 51 (mkCompletion 7 id token outcome)].

Example pg_demo_runs :
  (jr_status <$> db_jobs (pg_play (run_job 100 "t" JobSucceeded) (pg_start "demo")))
  = [JobSucceeded; JobQueued; JobBlocked].
Proof. vm_compute. reflexivity. Qed.

Example pg_demo_announced :
  let d := pg_play (run_job 100 "t" JobSucceeded ++ run_job 101 "u" JobFailed) (pg_start "demo") in
  (jr_status <$> db_jobs d, rn_Status <$> db_runs d, ob_state <$> db_outbox d)
  = ([JobSucceeded; JobFailed; JobSkipped], [StatusFailed], ["pending"; "failure"]).
Proof. vm_compute. reflexivity. Qed.

Example pg_demo_rerun :
  let d := pg_play (run_job 100 "t" JobSucceeded ++ run_job 101 "u" JobFailed
    ++ [PRerun 0 1 52 61 (demo_ids 110) demo_token 3 60 "failed" 90]) (pg_start "demo") in
  (jr_status <$> db_jobs d, rn_Status <$> db_runs d)
  = ([JobSucceeded; JobFailed; JobSkipped; JobSucceeded; JobQueued; JobBlocked], [StatusFailed; StatusQueued]).
Proof. vm_compute. reflexivity. Qed.
