(* ===== verification/PgProps.v ===== *)
(** The properties of the PostgreSQL store. *)

From stdpp Require Import relations.
From S2P Require Import Prelude GoStd RunModel Pipeline Compiler MemoryStore PlanFacts Scheduler RunSpec MemoryRefine Scenario Authorization Codecs Database Identity PgStore PgActions CommitStatus Logs PgRefine PgSubmit PgRuns.
From S2P Require Import LeaseStore PgLease PgScenario.

(** ** Orders *)

Lemma least_row_minimal {A} (lt : A → A → bool) l x :
  (∀ a b c, lt a b = false → lt b c = false → lt a c = false) → (∀ a, lt a a = false) →
  (∀ a b, lt a b = true → lt b a = false) →
  least_row lt l = Some x → ∀ y, y ∈ l → lt y x = false.
Proof.
  intros Htrans Hirr Hasym. revert x. induction l as [|z l IH]; intros x; [done|]. cbn [least_row].
  destruct (least_row lt l) as [w|] eqn:Hw.
  - destruct (lt w z) eqn:Hwz; intros [= <-] y [->|Hy]%elem_of_cons; auto.
    eapply Htrans; [by apply IH|done].
  - intros [= <-] y [->|Hy]%elem_of_cons; [done|]. apply least_row_None in Hw as ->. by apply not_elem_of_nil in Hy.
Qed.

Lemma before_spec c1 i1 c2 i2 : before c1 i1 c2 i2 = true ↔ c1 < c2 ∨ (c1 = c2 ∧ (i1 < i2)%N).
Proof. unfold before. rewrite orb_true_iff, andb_true_iff, Z.ltb_lt, bool_decide_eq_true, N.ltb_lt. done. Qed.

Lemma before_false c1 i1 c2 i2 : before c1 i1 c2 i2 = false ↔ c2 < c1 ∨ (c1 = c2 ∧ (i2 ≤ i1)%N).
Proof. rewrite <-not_true_iff_false, before_spec. lia. Qed.

(** The first row in the order of creation. *)
Lemma least_before_minimal {A} (created : A → time) (id : A → uuid) l x :
  least_row (λ a b, before (created a) (id a) (created b) (id b)) l = Some x →
  ∀ y, y ∈ l → before (created y) (id y) (created x) (id x) = false.
Proof.
  apply least_row_minimal.
  - intros a b c. rewrite !before_false. lia.
  - intros a. rewrite before_false. lia.
  - intros a b. rewrite before_spec, before_false. lia.
Qed.

(** ** Theorems *)

Section Theorems.
Context `{MapOrder}.
Variable sha256 : string → string.
Variable uuid_String : uuid → string.
Variable json_unmarshal : string → option Plan.

Abbreviation reachable_db := (pg_reachable sha256 uuid_String json_unmarshal).
Abbreviation history := (pg_history sha256 uuid_String json_unmarshal).
Abbreviation exec_op := (pg_exec sha256 uuid_String json_unmarshal).

(** C3: every transaction of the PostgreSQL store, on every reachable database, is a
    sequence of steps of the same abstract job scheduler that the in-memory store
    implements. *)
Theorem postgres_refines_scheduler o d :
  reachable_db d → pg_admissible json_unmarshal o → rtc sstep (rows d) (rows (exec_op o d)).
Proof. intros Hd%pg_reachable_inv Ho. by destruct (pg_exec_refines sha256 uuid_String json_unmarshal o d Ho Hd) as (_ & ? & _). Qed.

(** C11: the status of a finished run never changes again, whatever sessions, runners,
    recovery passes and workers do afterwards. *)
Theorem finished_runs_keep_their_status d d' r :
  reachable_db d → history d d' → r ∈ db_runs d → Terminal (rn_Status r) = true →
  ∃ r', r' ∈ db_runs d' ∧ rn_ID r' = rn_ID r ∧ rn_Status r' = rn_Status r.
Proof.
  intros Hd%pg_reachable_inv Hh. destruct (pg_history_refines _ _ _ _ _ Hh Hd) as (_ & _ & Hk). apply Hk.
Qed.

(** C32: what the outbox reports about a run is true: every final commit status names
    a finished run and its result, and no run has two of them. *)
Theorem final_statuses_are_true d o :
  reachable_db d → o ∈ db_outbox d → ob_state o ≠ "pending" →
  (∃ r, r ∈ db_runs d ∧ rn_ID r = ob_run_id o ∧ Terminal (rn_Status r) = true ∧
     ob_state o = (commit_state (rn_Status r)).1.1) ∧
  (∀ o', o' ∈ db_outbox d → ob_run_id o' = ob_run_id o → ob_state o' ≠ "pending" → o' = o).
Proof.
  intros Hd%pg_reachable_inv Ho Hs. destruct (pv_outbox _ _ _ Hd o Ho) as (r & Hr & Hid & [[_ ?]|(Hk & Ht & Hst)]); [done|].
  split; [by exists r|]. intros o' Ho' Hrun Hs'.
  destruct (pv_outbox _ _ _ Hd o' Ho') as (r' & Hr' & Hid' & [[_ ?]|(Hk' & _ & _)]); [done|].
  eapply (NoDup_key_unique ob_key); [apply (pv_keys _ _ _ Hd)|done|done|congruence].
Qed.

Lemma postgres_job_order_released d j :
  reachable_db d → j ∈ db_jobs d → released (jr_status j) = true →
  ∀ k, k ∈ jr_dependencies j → row_succeeded (db_jobs d) (jr_run_id j) k = true.
Proof.
  intros Hd%pg_reachable_inv Hj Hr k Hk. rewrite row_succeeded_view.
  pose proof (inv_released _ (si_jobs _ _ (pv_store _ _ _ Hd)) (row_view j) (elem_of_rows _ _ Hj) Hr) as Hready.
  rewrite ready_spec in Hready. by apply Hready.
Qed.

(** In every reachable database a job that is queued, leased or finished by a
    runner has only dependencies that succeeded, and a blocked job waits for a job
    of its run that is queued or held by a runner. *)
Theorem postgres_job_order d j :
  reachable_db d → j ∈ db_jobs d →
  (released (jr_status j) = true → ∀ k, k ∈ jr_dependencies j → row_succeeded (db_jobs d) (jr_run_id j) k = true) ∧
  (jr_status j = JobBlocked → ∃ k, k ∈ db_jobs d ∧ jr_run_id k = jr_run_id j ∧
     (jr_status k = JobQueued ∨ jr_status k = JobAssigned ∨ jr_status k = JobRunning)).
Proof.
  intros Hr Hj. split; [by apply postgres_job_order_released|].
  apply pg_reachable_inv in Hr as Hd. pose proof (si_jobs _ _ (pv_store _ _ _ Hd)) as Hinv.
  apply elem_of_rows in Hj as Hv. intros Hb.
  destruct (sinv_no_deadlock _ (row_view j) Hinv Hv Hb) as (? & (k & -> & Hk)%list_elem_of_fmap & ?).
  by exists k.
Qed.

(** A run recorded as succeeded has only succeeded jobs, a failed one has a failed
    job unless it has no jobs, a canceled one has no open job; a run without open jobs is finished; start
    and finish times agree with the status. *)
Theorem postgres_run_record_agrees d r :
  reachable_db d → r ∈ db_runs d →
  let jobs := List.filter (λ j, jr_run_id j =? rn_ID r) (db_jobs d) in
  (rn_Status r = StatusSucceeded → forallb (λ j, jr_status j =? JobSucceeded) jobs = true) ∧
  (rn_Status r = StatusFailed → existsb (λ j, jr_status j =? JobFailed) jobs = true ∨ jobs = []) ∧
  (rn_Status r = StatusCanceled → existsb (λ j, job_open (jr_status j)) jobs = false) ∧
  (existsb (λ j, job_open (jr_status j)) jobs = false → Terminal (rn_Status r) = true ∧ rn_FinishedAt r ≠ None) ∧
  (rn_Status r = StatusQueued → rn_StartedAt r = None ∧ rn_FinishedAt r = None) ∧
  (rn_Status r = StatusRunning → rn_StartedAt r ≠ None).
Proof.
  intros Hd%pg_reachable_inv Hr jobs. destruct (si_runs _ _ (pv_store _ _ _ Hd) r Hr) as [Hs Hc Hq Hrun Ht Hf Hca].
  assert (Hst : run_statuses (rn_ID r) (rows d) = jr_status <$> jobs).
  { unfold run_statuses, jobs. clear. induction (db_jobs d) as [|j l IH]; [done|].
    rewrite fmap_cons, filter_cons. cbn [List.filter aj_run row_view]. case_bool_decide; [rewrite decide_True by done|by rewrite decide_False by done].
    by rewrite !fmap_cons, IH. }
  assert (Hopen : existsb job_open (run_statuses (rn_ID r) (rows d)) = existsb (λ j, job_open (jr_status j)) jobs).
  { rewrite Hst. clear. induction jobs as [|j l IH]; [done|]. rewrite fmap_cons. simpl. by rewrite IH. }
  rewrite Hopen, Hst in *. split; [|split; [|split; [done|split; [by auto|done]]]].
  - intros Hsr. apply forallb_forall. intros j Hj%list_elem_of_In. apply bool_decide_eq_true_2, (Hs Hsr).
    by apply list_elem_of_fmap_2.
  - intros Hfr. destruct (Hf Hfr) as [Hjf|Hnil]; [left|right; by eapply fmap_nil_inv].
    destruct (proj1 (list_elem_of_fmap _ _ _) Hjf) as (j & Hjs & Hj). apply existsb_exists.
    exists j. split; [by apply list_elem_of_In|]. by apply bool_decide_eq_true_2.
Qed.
(** The number of jobs that a runner holds. *)
Abbreviation held r d := (count_jobs (held_by r (db_now d)) d).

(** The requirements of a job that a runner must satisfy. *)
Record suits (ru : runnerRow) (run : RunRecord) (j : jobRow) : Prop := {
  su_pool : jr_required_pool_type j = ru_pool_type ru;
  su_os : rr_OS (pj_RunsOn (jr_spec j)) = ru_os ru;
  su_architecture : rr_Architecture (pj_RunsOn (jr_spec j)) = "" ∨ rr_Architecture (pj_RunsOn (jr_spec j)) = ru_architecture ru;
  su_executor : rr_Executor (pj_RunsOn (jr_spec j)) = ru_executor ru;
  su_labels : ∀ key value, labels_of (pj_RunsOn (jr_spec j)) !! key = Some value → ru_labels ru !! key = Some value;
  su_disk : pj_RequiredDiskBytes (jr_spec j) ≤ default 0 (ru_available_disk_bytes ru);
  su_checkout : rn_ProjectID run ≠ None → rn_CommitSHA run ≠ "" → 2 ≤ ru_protocol_version ru;
}.

Lemma job_fits_suits ru run j : job_fits ru run j = true ↔ suits ru run j.
Proof.
  unfold job_fits, labels_contained, map_Forall. split.
  - rewrite !andb_true_iff, !orb_true_iff, !bool_decide_eq_true, !Z.leb_le.
    intros ((((((? & ?) & ?) & ?) & ?) & ?) & Hc). split; try done. intros Hp Hs. by destruct Hc as [[?|?]|?].
  - rewrite !andb_true_iff, !orb_true_iff, !bool_decide_eq_true, !Z.leb_le. intros [? ? ? ? ? ? Hc].
    split_and!; try done. destruct (rn_ProjectID run) eqn:Hp; [|by auto].
    destruct (decide (rn_CommitSHA run = "")); [by auto|]. left; left. by apply Hc.
Qed.

(** A run that has a queued job for a runner. *)
Definition offers (ru : runnerRow) (d : database) (run : RunRecord) : Prop :=
  claimable run = true ∧
  ∃ j, j ∈ db_jobs d ∧ jr_run_id j = rn_ID run ∧ jr_status j = JobQueued ∧ suits ru run j.

(** C20: a claim hands out a queued job of an unfinished run, all of whose
    dependencies have succeeded and which fits the runner; no older run offers a job
    to this runner unless another transaction holds it; and the runner stays within
    its capacity. *)
Theorem postgres_claim locked token r d d' a :
  reachable_db d → PgClaimRunnerJob sha256 locked token r d = (d', Ok (Some a)) →
  ∃ ru run j, db_runners d !! r = Some ru ∧ run ∈ db_runs d ∧ j ∈ db_jobs d ∧ jr_run_id j = rn_ID run ∧
    as_JobID a = jr_id j ∧ as_RunID a = rn_ID run ∧ as_LeaseExpires a = db_now d + 30 * Second ∧
    Terminal (rn_Status run) = false ∧ jr_status j = JobQueued ∧ suits ru run j ∧
    (∀ k, k ∈ jr_dependencies j → row_succeeded (db_jobs d) (jr_run_id j) k = true) ∧
    (∀ run', run' ∈ db_runs d → offers ru d run' → locked (rn_ID run') = false →
       before (rn_CreatedAt run') (rn_ID run') (rn_CreatedAt run) (rn_ID run) = false) ∧
    held r d' = held r d + 1 ∧ held r d' ≤ ru_capacity ru.
Proof.
  intros Hd Hc. pose proof (pg_reachable_inv _ _ _ _ Hd) as Hinv.
  destruct (pg_claim_held _ _ _ _ _ _ _ _ _ Hinv Hc) as (ru & Hru & _ & Hheld). revert Hc. unfold PgClaimRunnerJob.
  case_bool_decide; [done|]. unfold transaction. rewrite Hru.
  destruct (_ || _); [done|]. destruct (_ <=? _); [done|].
  destruct (pick_run _ _ d) as [run|] eqn:Hrun; [|done]. destruct (pick_job _ _ _ d) as [job|] eqn:Hjob; [|done].
  destruct (source_of run d) as [source|]; [|done]. cbn [rbind]. cbv zeta.
  destruct (update_jobs _ _ d) as [d1 n] eqn:Hu. pose proof (pick_run_spec _ _ _ _ Hrun) as (Hrin & Hcl & _).
  apply pick_job_spec in Hjob as (Hjin & Hjr & Hq & Hfit & _).
  destruct (claim_update _ _ _ _ _ _ _ Hinv Hjin Hq Hu) as (-> & i & Hi & ->). intros [= <- <-].
  exists ru, run, job. do 6 (split; [done|]). split; [done|].
  split; [by unfold claimable in Hcl; destruct (rn_Status run)|]. split; [done|].
  split; [by apply job_fits_suits|]. split; [|split].
  - intros k. apply (postgres_job_order_released d job Hd Hjin). by rewrite Hq.
  - intros run' Hin (Hcl' & j' & Hj' & Hjr' & Hq' & Hf'%job_fits_suits) Hl. eapply least_before_minimal; [exact Hrun|].
    apply list_elem_of_In, filter_In. split; [by apply list_elem_of_In|]. rewrite Hcl', Hl, andb_true_r. simpl.
    apply existsb_exists. exists j'. split; [by apply list_elem_of_In|]. by rewrite Hf', !bool_decide_eq_true_2.
  - exact Hheld.
Qed.
(** A rerun of the failed jobs creates a new run with the jobs and dependencies of
    the original one; a job succeeded from the start exactly when it did in the
    original run, is queued when all its dependencies did, and waits otherwise; the
    jobs of all earlier runs are left alone. *)
Theorem rerun_takes_over_successes waited now o next_id ids token projectID runID requestID d d' record :
  reachable_db d →
  RerunAuthorizedRun sha256 uuid_String json_unmarshal waited now o next_id ids token projectID runID "failed"
    requestID d = (d', Ok record) →
  rn_ID record ∉ rn_ID <$> db_runs d →
  ∃ news, rows d' = rows d ++ news ∧ run_shape (rn_ID record) news = run_shape runID (rows d) ∧
    ∀ j, j ∈ news → aj_run j = rn_ID record ∧
      aj_status j = if row_succeeded (db_jobs d) runID (aj_key j) then JobSucceeded
                    else if forallb (row_succeeded (db_jobs d) runID) (aj_deps j) then JobQueued else JobBlocked.
Proof.
  intros Hreach%pg_reachable_inv. unfold RerunAuthorizedRun. destruct (_ || _); [done|]. unfold transaction.
  destruct (lockAuthorizedRun _ _ _ _ _ _ _) as [[[d1 s] r]|] eqn:Hl; [|done]. cbn [rbind].
  apply lockAuthorizedRun_spec in Hl as (-> & original & Hr & Hid & _ & ->).
  destruct (_ || _) eqn:Hmode; [done|]. cbv zeta.
  destruct (list_find _ _) as [[k previous]|] eqn:Hprev.
  { intros [= <- <-] Hnew. apply list_find_Some in Hprev as (Hp%list_elem_of_lookup_2 & _). destruct Hnew.
    by apply (list_elem_of_fmap_2 rn_ID _ previous). }
  destruct (_ =? 0) eqn:Hcount; [done|]. apply executable_shape in Hcount.
  change (rows (elapse _ _)) with (rows d) in Hcount. rewrite <-Hid in Hcount.
  set (version := match list_find _ _ with Some _ => _ | None => _ end).
  destruct (insertRun _ _ _ _ _ _) as [d2|] eqn:He; [|done]. cbn [rbind].
  intros [= <- <-] _. set (next := rerun_record _ _ _ _ _ _) in *. change (rn_ID next) with next_id.
  assert (Hd : pg_inv uuid_String json_unmarshal (elapse waited d)) by by apply elapse_refines.
  pose proof (rerun_startable _ _ next_id now (ss_UserID s) (rerun_key uuid_String runID (ss_UserID s) "failed" requestID)
    version original (elapse waited d) Hd Hr Hcount) as Hsta. fold next in Hsta.
  destruct (rerun_rows _ _ _ _ _ _ _ _ _ _ _ _ Hd Hr Hsta He) as (base & Hrows & Hsub & Hpend & Hsh & Hne).
  pose proof (si_jobs _ _ (pv_store _ _ _ Hd)) as Hinv. rewrite Hid in *.
  exists (rerun_jobs (rows d) base runID). split; [|split].
  - change (rows (append_audit _ _ _ _ ?x)) with (rows x). cbn [bool_decide decide_rel].
    by apply (rows_rerun next_id runID (elapse waited d) base).
  - change (run_shape next_id ?l) with (run_shape next_id ([] ++ l)). rewrite run_shape_new; [|by intros j ?%not_elem_of_nil|].
    + change (rows (elapse waited d)) with (rows d) in Hsh. rewrite Hsh.
      pose proof (rerun_skeleton (rows d) base runID) as Hsk.
      apply (f_equal (fmap (λ s : uuid * uuid * string * list string, (s.1.2, s.2)))) in Hsk.
      by rewrite <-!list_fmap_compose in Hsk.
    + intros j. apply (sub_run _ _ _ (rerun_submission _ _ _ _ Hinv Hsub Hpend Hsh)).
  - intros j Hj. split; [by apply (sub_run _ _ _ (rerun_submission _ _ _ _ Hinv Hsub Hpend Hsh))|].
    rewrite (rerun_job_status _ _ _ _ Hsub Hpend j Hj), row_succeeded_view.
    assert (Hall : forallb (row_succeeded (db_jobs d) runID) (aj_deps j) = forallb (succeeded (rows d) runID) (aj_deps j)).
    { apply eq_true_iff_eq. rewrite !forallb_forall. by setoid_rewrite row_succeeded_view. }
    by rewrite Hall.
Qed.
(** *** Leases *)

Section Leases.
Variable locked : uuid → bool.
Variable outbox_id : uuid.
Hypothesis uuid_text : ∀ u v, uuid_String u = uuid_String v → u = v.
Hypothesis uuid_colon : ∀ u, Forall (λ c, c ≠ ":"%char) (chars (uuid_String u)).

Abbreviation Acknowledge := (PgAcknowledgeRunnerJob sha256).
Abbreviation Start := (PgStartRunnerJob sha256).
Abbreviation Release := (PgReleaseRunnerJob sha256).
Abbreviation Complete := (PgCompleteRunnerJob sha256 uuid_String outbox_id).

(** The PostgreSQL store keeps the same lease protocol as the in-memory store: a
    claimed job goes through receipt, start and completion with the lease of the
    claim, and every misuse is refused and changes nothing. *)
Theorem postgres_lease_session token r d d1 a outcome :
  reachable_db d → token ≠ "" → PgClaimRunnerJob sha256 locked token r d = (d1, Ok (Some a)) →
  as_JobID a ≠ uuid_Nil → job_outcome outcome = true →
  let q := lease_of r a in
  Start q d1 = (d1, Err ErrLeaseInvalid) ∧
  ∃ d2 l2, Acknowledge q d1 = (d2, Ok l2) ∧ Release q d2 = (d2, Err ErrLeaseInvalid) ∧
  ∃ d3 l3, Start q d2 = (d3, Ok l3) ∧ Release q d3 = (d3, Err ErrLeaseInvalid) ∧
  ∃ d4, Complete (completion_of q outcome) d3 = (d4, Ok tt) ∧
    Acknowledge q d4 = (d4, Err ErrLeaseInvalid) ∧ Start q d4 = (d4, Err ErrLeaseInvalid) ∧
    Release q d4 = (d4, Err ErrLeaseInvalid) ∧ Complete (completion_of q outcome) d4 = (d4, Err ErrLeaseInvalid).
Proof.
  intros Hd%pg_reachable_inv.
  exact (@lease_session database _ _ (pg_laws sha256 uuid_String json_unmarshal locked outbox_id uuid_text uuid_colon)
    token r d d1 a outcome Hd).
Qed.

(** While a runner holds a live lease, no sequence of claims and of operations on
    other jobs takes the lease away or changes the state of the job. *)
Theorem postgres_lease_isolation q v commands d d' :
  reachable_db d → pg_view sha256 d q = Some v →
  @interleaving database (pg_store sha256 uuid_String locked outbox_id) (lr_JobID q) commands d d' →
  pg_view sha256 d' q = Some v.
Proof.
  intros Hd%pg_reachable_inv Hv Hi.
  by destruct (@lease_isolation database _ _ (pg_laws sha256 uuid_String json_unmarshal locked outbox_id uuid_text uuid_colon)
    q v commands d d' Hd Hv Hi).
Qed.
End Leases.
End Theorems.

(** ** Examples *)

Section Examples.
#[local] Existing Instance library_order.
Abbreviation demo_reachable := (pg_reachable demo_sha256 demo_uuid demo_unmarshal).

(** The run "demo" after its first job succeeded, and after its second one failed. *)
Definition pg_progress : database := pg_play (run_job 100 "t" JobSucceeded) (pg_start "demo").
Definition pg_failed : database := pg_play (run_job 100 "t" JobSucceeded ++ run_job 101 "u" JobFailed) (pg_start "demo").

Lemma pg_progress_reachable : demo_reachable pg_progress.
Proof. by apply pg_play_reachable. Qed.
Lemma pg_failed_reachable : demo_reachable pg_failed.
Proof. by apply pg_play_reachable. Qed.

Lemma postgres_refines_scheduler_witness :
  rtc sstep (rows pg_progress) (rows (demo_exec (PClaimRunnerJob no_lock "v" 7) pg_progress)).
Proof. apply postgres_refines_scheduler; [apply pg_progress_reachable|exact I]. Defined.

Definition nth_run (i : nat) (d : database) : RunRecord := default (demo_record 0 "") (db_runs d !! i).
Definition nth_row (i : nat) (d : database) : jobRow :=
  default (new_row 0 0 0 ∅ (mkPlanStage "" [] []) (demo_plan_job "" [])) (db_jobs d !! i).
Definition nth_status (i : nat) (d : database) : outboxRow :=
  default (mkOutboxRow 0 0 0 "" "" "" "" "" "" 0 0 0 None None None 0) (db_outbox d !! i).

Lemma nth_run_elem i d : (i < length (db_runs d))%nat → nth_run i d ∈ db_runs d.
Proof. intros [x Hx]%lookup_lt_is_Some_2. apply list_elem_of_lookup. exists i. unfold nth_run. by rewrite Hx. Qed.
Lemma nth_row_elem i d : (i < length (db_jobs d))%nat → nth_row i d ∈ db_jobs d.
Proof. intros [x Hx]%lookup_lt_is_Some_2. apply list_elem_of_lookup. exists i. unfold nth_row. by rewrite Hx. Qed.
Lemma nth_status_elem i d : (i < length (db_outbox d))%nat → nth_status i d ∈ db_outbox d.
Proof. intros [x Hx]%lookup_lt_is_Some_2. apply list_elem_of_lookup. exists i. unfold nth_status. by rewrite Hx. Qed.

Lemma finished_runs_keep_their_status_witness :
  ∃ r', r' ∈ db_runs (demo_exec (PClaimRunnerJob no_lock "v" 7) pg_failed) ∧ rn_ID r' = 60%N ∧ rn_Status r' = StatusFailed.
Proof.
  apply (finished_runs_keep_their_status demo_sha256 demo_uuid demo_unmarshal pg_failed
    (demo_exec (PClaimRunnerJob no_lock "v" 7) pg_failed) (nth_run 0 pg_failed)).
  - apply pg_failed_reachable.
  - apply history_step; [constructor|exact I].
  - apply nth_run_elem. vm_compute. lia.
  - vm_compute. reflexivity.
Defined.

Lemma final_statuses_are_true_witness :
  ∃ r, r ∈ db_runs pg_failed ∧ rn_ID r = 60%N ∧ Terminal (rn_Status r) = true ∧
    "failure" = (commit_state (rn_Status r)).1.1.
Proof.
  destruct (final_statuses_are_true demo_sha256 demo_uuid demo_unmarshal pg_failed (nth_status 1 pg_failed)) as [Hr _].
  - apply pg_failed_reachable.
  - apply nth_status_elem. vm_compute. lia.
  - vm_compute. discriminate.
  - exact Hr.
Defined.

Lemma postgres_job_order_witness :
  row_succeeded (db_jobs pg_progress) 60 "build/compile" = true ∧
  ∃ k, k ∈ db_jobs pg_progress ∧ jr_run_id k = 60%N ∧
    (jr_status k = JobQueued ∨ jr_status k = JobAssigned ∨ jr_status k = JobRunning).
Proof.
  split.
  - apply (postgres_job_order demo_sha256 demo_uuid demo_unmarshal pg_progress (nth_row 1 pg_progress));
      [apply pg_progress_reachable|apply nth_row_elem; vm_compute; lia|vm_compute; reflexivity|vm_compute; constructor].
  - apply (postgres_job_order demo_sha256 demo_uuid demo_unmarshal pg_progress (nth_row 2 pg_progress));
      [apply pg_progress_reachable|apply nth_row_elem; vm_compute; lia|vm_compute; reflexivity].
Defined.

Lemma postgres_run_record_agrees_witness :
  existsb (λ j, jr_status j =? JobFailed) (List.filter (λ j, jr_run_id j =? 60%N) (db_jobs pg_failed)) = true.
Proof.
  apply (postgres_run_record_agrees demo_sha256 demo_uuid demo_unmarshal pg_failed (nth_run 0 pg_failed));
    [apply pg_failed_reachable|apply nth_run_elem; vm_compute; lia|vm_compute; reflexivity].
Defined.

(** The result of a claim on a concrete database. *)
Definition demo_claim (token : string) (d : database) := PgClaimRunnerJob demo_sha256 no_lock token 7 d.

Lemma postgres_claim_witness :
  match demo_claim "v" pg_progress with
  | (d', Ok (Some a)) => as_JobID a = 101%N ∧ count_jobs (held_by 7 (db_now d')) d' ≤ 2
  | _ => False
  end.
Proof.
  destruct (demo_claim "v" pg_progress) as [d' res] eqn:Hc.
  assert (Hr : (demo_claim "v" pg_progress).2 = res) by by rewrite Hc.
  vm_compute in Hr. destruct res as [[a|]|]; try discriminate Hr. split; [by injection Hr as <-|].
  destruct (postgres_claim demo_sha256 demo_uuid demo_unmarshal no_lock "v" 7 pg_progress d' a pg_progress_reachable Hc)
    as (ru & run & j & Hru & _ & _ & _ & _ & _ & _ & _ & _ & _ & _ & _ & _ & Hle).
  vm_compute in Hru. injection Hru as <-. exact Hle.
Defined.
Abbreviation demo_rerun d :=
  (RerunAuthorizedRun demo_sha256 demo_uuid demo_unmarshal 0 1 52 61 (demo_ids 110) demo_token 3 60 "failed" 90 d).

Lemma rerun_takes_over_successes_witness :
  ∃ d' record news, demo_rerun pg_failed = (d', Ok record) ∧ rows d' = rows pg_failed ++ news ∧
    run_shape 61 news = run_shape 60 (rows pg_failed).
Proof.
  destruct (demo_rerun pg_failed) as [d' res] eqn:Hc.
  assert (Hr : (demo_rerun pg_failed).2 = res) by by rewrite Hc.
  vm_compute in Hr. destruct res as [record|]; try discriminate Hr.
  assert (Hid : rn_ID record = 61%N) by by injection Hr as <-.
  destruct (rerun_takes_over_successes demo_sha256 demo_uuid demo_unmarshal _ _ _ _ _ _ _ _ _ pg_failed d' record
    pg_failed_reachable Hc) as (news & Hrows & Hshape & _).
  { rewrite Hid. apply (bool_decide_unpack (61%N ∉ rn_ID <$> db_runs pg_failed)). vm_compute. exact I. }
  exists d', record, news. rewrite Hid in Hshape. split; [reflexivity|]. split; [exact Hrows|exact Hshape].
Defined.

Lemma postgres_lease_session_witness :
  match demo_claim "v" pg_progress with
  | (d1, Ok (Some a)) =>
    PgStartRunnerJob demo_sha256 (lease_of 7 a) d1 = (d1, Err ErrLeaseInvalid) ∧
    ∃ d2 l2, PgAcknowledgeRunnerJob demo_sha256 (lease_of 7 a) d1 = (d2, Ok l2)
  | _ => False
  end.
Proof.
  destruct (demo_claim "v" pg_progress) as [d1 res] eqn:Hc.
  assert (Hr : (demo_claim "v" pg_progress).2 = res) by by rewrite Hc.
  vm_compute in Hr. destruct res as [[a|]|]; try discriminate Hr.
  assert (Hid : as_JobID a ≠ uuid_Nil) by (injection Hr as <-; discriminate).
  destruct (postgres_lease_session demo_sha256 demo_uuid demo_unmarshal no_lock 51 demo_uuid_inj demo_uuid_colon
    "v" 7 pg_progress d1 a JobSucceeded pg_progress_reachable ltac:(discriminate) Hc Hid eq_refl) as (Hs & d2 & l2 & Ha & _).
  split; [exact Hs|]. exists d2, l2. exact Ha.
Defined.

Lemma postgres_lease_isolation_witness :
  let d := pg_play [PClaimRunnerJob no_lock "t" 7] (pg_start "pair") in
  pg_view demo_sha256 (demo_claim "u" d).1 (mkLease 7 100 "t") = Some (JobAssigned, false).
Proof.
  cbv zeta. set (d := pg_play [PClaimRunnerJob no_lock "t" 7] (pg_start "pair")).
  apply (postgres_lease_isolation demo_sha256 demo_uuid demo_unmarshal no_lock 51 demo_uuid_inj demo_uuid_colon
    (mkLease 7 100 "t") (JobAssigned, false) [CClaim "u" 7] d).
  - by apply pg_play_reachable.
  - vm_compute. reflexivity.
  - apply il_cons; [|apply il_nil]. split; [discriminate|]. intros s a Hc Hid.
    assert (Hr : (demo_claim "u" d).2 = Ok (Some a)).
    { unfold demo_claim. change (claim "u" 7%N d) with (PgClaimRunnerJob demo_sha256 no_lock "u" 7 d) in Hc. by rewrite Hc. }
    vm_compute in Hr. injection Hr as <-. discriminate.
Defined.

Definition demo_heartbeat (active : list ActiveLease) : HeartbeatRequest := mkHeartbeat demo_runner active.

(** Recovery fails the run of a lost running job but leaves the leased jobs of the
    same run; when such a lease expires later, its job is queued again in the failed
    run, where no claim finds it and no recovery pass closes it. *)
Theorem recovery_strands_a_job :
  ∃ d, demo_reachable d ∧ rn_Status <$> db_runs d = [StatusFailed] ∧
    jr_status <$> db_jobs d = [JobFailed; JobQueued] ∧ (demo_claim "w" d).2 = Ok None ∧
    (PgRecoverExpiredRunnerLeases demo_uuid no_lock (λ _, 53%N) 100 d).2 = Ok (mkRecovery 0 0).
Proof.
  exists (pg_play [PClaimRunnerJob no_lock "t" 7; PClaimRunnerJob no_lock "u" 7;
    PAcknowledge (mkLease 7 100 "t"); PStart (mkLease 7 100 "t"); PTick (20 * Second);
    PRenew (demo_heartbeat [mkActive 101 "u" "received"]); PTick (11 * Second);
    PRecover no_lock (λ _, 53%N) 10; PTick (20 * Second); PRecover no_lock (λ _, 53%N) 10] (pg_start "pair")).
  split; [by apply pg_play_reachable|]. by repeat split; vm_compute.
Qed.
End Examples.
