(* ===== verification/LogsProps.v ===== *)
(** The log protocol: what the store keeps, retransmission, and delivery from the
    runner to the store. *)

From S2P Require Import Prelude GoStd RunModel Pipeline MemoryStore Scenario Database PgStore Logs PgRuns PgScenario.

(** ** The invariant of a stored log *)

(** The bytes of the chunks 1, 2, ..., [n]. *)
Fixpoint log_text (chunks : gmap Z chunkRow) (n : nat) : bytes :=
  match n with
  | O => []
  | S n => log_text chunks n ++ default [] (ck_data <$> chunks !! Z.of_nat (S n))
  end.

Definition chunk_ok (k : chunkRow) : Prop :=
  if ck_truncated k then ck_data k = [] else 1 ≤ Z.of_nat (length (ck_data k)) ≤ MaxLogChunkBytes.

Record chunk_valid (c : LogChunk) : Prop := {
  cv_runner : lr_RunnerID (lc_Lease c) ≠ uuid_Nil;
  cv_job : lr_JobID (lc_Lease c) ≠ uuid_Nil;
  cv_token : 1 ≤ len (lr_LeaseToken (lc_Lease c)) ≤ 512;
  cv_sequence : 1 ≤ lc_Sequence c ≤ MaxJobLogChunks;
  cv_step : 0 ≤ lc_Step c ≤ 1023;
  cv_stream : lc_Stream c = "stdout" ∨ lc_Stream c = "stderr";
  cv_data : chunk_ok (stored_chunk c);
}.

Lemma len_nonneg s : 0 ≤ len s.
Proof. unfold len. lia. Qed.

Lemma ValidateLogChunk_spec c : ValidateLogChunk c = true ↔ chunk_valid c.
Proof.
  assert (Hdata : ∀ n, (MaxLogChunkBytes <? n) = false ∧
      negb (lc_Truncated c) && (n =? 0) = false ∧ lc_Truncated c && (n <>? 0) = false ↔
      if lc_Truncated c then n = 0 else n ≠ 0 ∧ n ≤ MaxLogChunkBytes).
  { intros n. rewrite Z.ltb_ge. assert (0 ≤ MaxLogChunkBytes) by (vm_compute; discriminate).
    destruct (lc_Truncated c); simpl; rewrite ?negb_false_iff, ?bool_decide_eq_true, ?bool_decide_eq_false;
      intuition lia. }
  specialize (Hdata (Z.of_nat (length (lc_Data c)))). pose proof (len_nonneg (lr_LeaseToken (lc_Lease c))).
  assert (Hok : chunk_ok (stored_chunk c) ↔ if lc_Truncated c then Z.of_nat (length (lc_Data c)) = 0
      else Z.of_nat (length (lc_Data c)) ≠ 0 ∧ Z.of_nat (length (lc_Data c)) ≤ MaxLogChunkBytes).
  { unfold chunk_ok, stored_chunk. simpl. destruct (lc_Truncated c); [|lia].
    rewrite <-length_zero_iff_nil. lia. }
  rewrite <-Hdata in Hok. clear Hdata. unfold ValidateLogChunk.
  rewrite negb_true_iff, !orb_false_iff, andb_false_iff, !negb_false_iff, !bool_decide_eq_false,
    !bool_decide_eq_true, !Z.ltb_ge.
  split.
  - intros H1. destruct_and!. split; [done|done|lia|lia|lia|done|]. apply Hok. rewrite Z.ltb_ge. auto.
  - intros [? ? ? ? ? ? Hd%Hok]. rewrite Z.ltb_ge in Hd. destruct_and!. repeat split; try done; lia.
Qed.

Record log_ok (s : streamRow) (chunks : gmap Z chunkRow) : Prop := {
  lo_next : 1 ≤ st_next_sequence s ≤ MaxJobLogChunks + 1;
  lo_dom : ∀ n, is_Some (chunks !! n) ↔ 1 ≤ n < st_next_sequence s;
  lo_chunks : ∀ n k, chunks !! n = Some k → chunk_ok k;
  lo_total : st_total_bytes s = Z.of_nat (length (log_text chunks (Z.to_nat (st_next_sequence s - 1))));
  lo_limit : st_total_bytes s ≤ MaxJobLogBytes;
  lo_marker : ∀ n k, chunks !! n = Some k →
    ck_truncated k = true ↔ st_truncated s = true ∧ n = st_next_sequence s - 1;
  lo_last : st_next_sequence s = MaxJobLogChunks + 1 → st_truncated s = true;
}.

Lemma log_text_insert chunks n k m :
  Z.of_nat m < n → log_text (<[n := k]> chunks) m = log_text chunks m.
Proof.
  induction m as [|m IH]; intros Hm; [done|]. cbn [log_text].
  rewrite IH by lia. by rewrite lookup_insert_ne by lia.
Qed.

Lemma log_ok_append s chunks c :
  log_ok s chunks → ValidateLogChunk c = true → lc_Sequence c = st_next_sequence s →
  st_truncated s = false → st_total_bytes s + Z.of_nat (length (lc_Data c)) ≤ MaxJobLogBytes →
  (lc_Sequence c = MaxJobLogChunks → lc_Truncated c = true) →
  log_ok (mkStreamRow (st_next_sequence s + 1) (st_total_bytes s + Z.of_nat (length (lc_Data c)))
            (lc_Truncated c) (st_expires_at s))
         (<[lc_Sequence c := stored_chunk c]> chunks).
Proof.
  intros [Hn Hd Hc Ht Hl Hm Hlast] [_ _ _ Hseq _ _ Hdata]%ValidateLogChunk_spec Hs Htr Hlim Hmax. rewrite Hs in *.
  assert (Hnew : ∀ n, n ≠ st_next_sequence s → (<[st_next_sequence s := stored_chunk c]> chunks) !! n = chunks !! n)
    by (intros; by rewrite lookup_insert_ne).
  split; cbn [st_next_sequence st_total_bytes st_truncated].
  - lia.
  - intros n. destruct (decide (n = st_next_sequence s)) as [->|Hne].
    + rewrite lookup_insert_eq. split; [lia|by eexists].
    + rewrite Hnew, Hd by done. lia.
  - intros n k. destruct (decide (n = st_next_sequence s)) as [->|Hne].
    + rewrite lookup_insert_eq. by intros [= <-].
    + rewrite Hnew by done. apply Hc.
  - rewrite Z.add_simpl_r. assert (Z.to_nat (st_next_sequence s) = S (Z.to_nat (st_next_sequence s - 1))) as -> by lia.
    cbn [log_text]. rewrite log_text_insert by lia.
    assert (Z.of_nat (S (Z.to_nat (st_next_sequence s - 1))) = st_next_sequence s) as -> by lia.
    rewrite lookup_insert_eq, length_app, Nat2Z.inj_add, <-Ht. done.
  - done.
  - intros n k. rewrite Z.add_simpl_r. destruct (decide (n = st_next_sequence s)) as [->|Hne].
    + rewrite lookup_insert_eq. intros [= <-]. simpl. naive_solver.
    + rewrite Hnew by done. intros Hk. rewrite (Hm n k Hk), Htr. naive_solver.
  - intros Heq. apply Hmax. lia.
Qed.

Lemma log_ok_empty t : log_ok (mkStreamRow 1 0 false t) ∅.
Proof.
  split; cbn [st_next_sequence st_total_bytes st_truncated]; unfold MaxJobLogChunks; try done.
  - intros n. rewrite lookup_empty. split; [by intros [? ?]|lia].
Qed.

(** ** The store *)

Section Store.
Variable sha256 : string → string.

(** The job of a live lease in execution. *)
Definition live_job (q : LeaseRequest) (d : database) : option jobRow :=
  snd <$> list_find (λ j, log_lease sha256 (db_now d) q j = true) (db_jobs d).

Lemma live_job_id q d job : live_job q d = Some job → jr_id job = lr_JobID q.
Proof.
  unfold live_job. destruct (list_find _ _) as [[i j]|] eqn:Hf; [|done]. intros [= <-].
  apply list_find_Some in Hf as (_ & Hl & _). unfold log_lease, leased_row in Hl. by bools.
Qed.

(** The result of [AppendLogChunk], branch by branch. *)
Lemma AppendLogChunk_eq c d :
  AppendLogChunk sha256 c d =
  if negb (ValidateLogChunk c) then (d, Err ErrInvalidLogChunk)
  else match live_job (lc_Lease c) d with
  | None => (d, Err ErrLeaseInvalid)
  | Some job =>
    let id := lr_JobID (lc_Lease c) in
    let s := log_stream job d in
    if st_expires_at s <=? db_now d then (d, Err ErrLogExpired)
    else if lc_Sequence c <? st_next_sequence s then
      if job_chunks id d !! lc_Sequence c =? Some (stored_chunk c) then (put_stream id s d, Ok tt)
      else (d, Err ErrLogSequence)
    else if lc_Sequence c <>? st_next_sequence s then (d, Err ErrLogSequence)
    else if st_truncated s || (MaxJobLogBytes <? st_total_bytes s + Z.of_nat (length (lc_Data c)))
            || ((lc_Sequence c =? MaxJobLogChunks) && negb (lc_Truncated c))
    then (d, Err ErrLogLimit)
    else
      (put_chunk id (mkStreamRow (st_next_sequence s + 1) (st_total_bytes s + Z.of_nat (length (lc_Data c)))
         (lc_Truncated c) (st_expires_at s)) (lc_Sequence c) (stored_chunk c) (put_stream id s d), Ok tt)
  end.
Proof.
  unfold AppendLogChunk. destruct (negb _); [done|]. unfold transaction, live_job.
  destruct (list_find _ _) as [[i job]|]; [|done]. simpl.
  change (job_chunks _ (put_stream _ _ d)) with (job_chunks (lr_JobID (lc_Lease c)) d).
  destruct (st_expires_at _ <=? _); [done|]. destruct (lc_Sequence c <? _).
  - destruct (job_chunks _ _ !! _) as [k|]; [|by rewrite bool_decide_eq_false_2].
    destruct (decide (k = stored_chunk c)) as [->|Hne].
    + by rewrite !bool_decide_eq_true_2.
    + rewrite (bool_decide_eq_false_2 (Some k = _)), (bool_decide_eq_false_2 (k = _)) by congruence. done.
  - destruct (_ <>? _); [done|]. by destruct (st_truncated _ || _ || _).
Qed.

Lemma live_job_put_stream q id s d : live_job q (put_stream id s d) = live_job q d.
Proof. done. Qed.
Lemma live_job_put_chunk q id s n k d : live_job q (put_chunk id s n k d) = live_job q d.
Proof. done. Qed.

Lemma log_stream_put job s d : log_stream job (put_stream (jr_id job) s d) = s.
Proof. unfold log_stream. simpl. by rewrite lookup_insert_eq. Qed.
Lemma log_stream_put_chunk job s n k d : log_stream job (put_chunk (jr_id job) s n k d) = s.
Proof. unfold log_stream. simpl. by rewrite lookup_insert_eq. Qed.
Lemma put_stream_put_stream id s s' d : put_stream id s (put_stream id s' d) = put_stream id s d.
Proof. unfold put_stream, with_logs. simpl. by rewrite insert_insert_eq. Qed.
Lemma put_stream_put_chunk id s s' n k d : put_stream id s (put_chunk id s' n k d) = put_chunk id s n k d.
Proof. unfold put_stream, put_chunk, with_logs. simpl. by rewrite insert_insert_eq. Qed.
Lemma put_chunk_put_stream id s s' n k d : put_chunk id s n k (put_stream id s' d) = put_chunk id s n k d.
Proof. unfold put_stream, put_chunk, with_logs, job_chunks. simpl. by rewrite insert_insert_eq. Qed.
Lemma job_chunks_put id s n k d : job_chunks id (put_chunk id s n k d) = <[n := k]> (job_chunks id d).
Proof. unfold job_chunks at 1. simpl. by rewrite lookup_insert_eq. Qed.

(** An accepted chunk is in the log, where later appends of the same number find it. *)
Lemma append_again c d d' :
  AppendLogChunk sha256 c d = (d', Ok tt) →
  AppendLogChunk sha256 c d' = (d', Ok tt) ∧
  ∀ c', lc_Lease c' = lc_Lease c → lc_Sequence c' = lc_Sequence c → stored_chunk c' ≠ stored_chunk c →
    ∃ e, AppendLogChunk sha256 c' d' = (d', Err e).
Proof.
  rewrite (AppendLogChunk_eq c d). destruct (negb (ValidateLogChunk c)) eqn:Hv; [done|].
  destruct (live_job (lc_Lease c) d) as [job|] eqn:Hj; [|done].
  pose proof (live_job_id _ _ _ Hj) as Hid. cbv zeta. rewrite <-Hid.
  set (s := log_stream job d). destruct (st_expires_at s <=? _) eqn:Hexp; [done|].
  assert (Hseen : ∀ d0 s0, live_job (lc_Lease c) d0 = Some job → log_stream job d0 = s0 →
    (st_expires_at s0 <=? db_now d0) = false → lc_Sequence c < st_next_sequence s0 →
    job_chunks (jr_id job) d0 !! lc_Sequence c = Some (stored_chunk c) → put_stream (jr_id job) s0 d0 = d0 →
    AppendLogChunk sha256 c d0 = (d0, Ok tt) ∧
    ∀ c', lc_Lease c' = lc_Lease c → lc_Sequence c' = lc_Sequence c → stored_chunk c' ≠ stored_chunk c →
      ∃ e, AppendLogChunk sha256 c' d0 = (d0, Err e)).
  { intros d0 s0 Hj0 Hs0 Hexp0 Hlt%Z.ltb_lt Hk Hput. split.
    - rewrite AppendLogChunk_eq, Hv, Hj0. cbv zeta. rewrite Hs0, Hexp0, Hlt, <-Hid, Hk, Hput.
      by rewrite bool_decide_eq_true_2.
    - intros c' Hl Hseq Hne. rewrite AppendLogChunk_eq, Hl, Hseq, Hj0. cbv zeta.
      rewrite Hs0, Hexp0, Hlt, <-Hid, Hk.
      rewrite (bool_decide_eq_false_2 (Some (stored_chunk c) = Some (stored_chunk c'))) by congruence.
      destruct (negb (ValidateLogChunk c')); eauto. }
  destruct (lc_Sequence c <? st_next_sequence s) eqn:Hlt.
  - case_bool_decide as Hk; [|done]. intros [= <-]. apply Z.ltb_lt in Hlt.
    apply (Hseen _ s); [done|by rewrite log_stream_put|done|done|done|apply put_stream_put_stream].
  - case_bool_decide as Hseq; simpl; [|done]. destruct (st_truncated s || _ || _); [done|]. intros [= <-].
    rewrite put_chunk_put_stream. eapply Hseen; [done|apply log_stream_put_chunk|done|simpl; lia| |].
    + by rewrite job_chunks_put, lookup_insert_eq.
    + apply put_stream_put_chunk.
Qed.

(** The store accepts a retransmission of a chunk that it has accepted and does
    not change; a chunk with the same lease and number but other content is refused
    and changes nothing. *)
Theorem append_retransmission c d d' :
  AppendLogChunk sha256 c d = (d', Ok tt) →
  AppendLogChunk sha256 c d' = (d', Ok tt) ∧
  ∀ c', lc_Lease c' = lc_Lease c → lc_Sequence c' = lc_Sequence c → stored_chunk c' ≠ stored_chunk c →
    ∃ e, AppendLogChunk sha256 c' d' = (d', Err e).
Proof. apply append_again. Qed.

(** *** The invariant *)

Definition logs_ok (d : database) : Prop :=
  ∀ id, match db_streams d !! id with
        | Some s => log_ok s (job_chunks id d)
        | None => job_chunks id d = ∅
        end.

Lemma log_stream_ok job d :
  logs_ok d → log_ok (log_stream job d) (job_chunks (jr_id job) d).
Proof.
  intros Hok. specialize (Hok (jr_id job)). unfold log_stream.
  destruct (db_streams d !! jr_id job); [done|]. rewrite Hok. apply log_ok_empty.
Qed.

Lemma put_stream_ok job d : logs_ok d → logs_ok (put_stream (jr_id job) (log_stream job d) d).
Proof.
  intros Hok id. simpl. destruct (decide (id = jr_id job)) as [->|Hne].
  - rewrite lookup_insert_eq. exact (log_stream_ok job d Hok).
  - rewrite lookup_insert_ne by done. apply Hok.
Qed.

Lemma put_chunk_ok id s n k d :
  logs_ok d → log_ok s (<[n := k]> (job_chunks id d)) → logs_ok (put_chunk id s n k d).
Proof.
  intros Hok Hs id'. simpl. destruct (decide (id' = id)) as [->|Hne].
  - by rewrite lookup_insert_eq, job_chunks_put.
  - rewrite lookup_insert_ne by done. specialize (Hok id'). unfold job_chunks in *. simpl.
    by rewrite lookup_insert_ne.
Qed.

Lemma append_logs_ok c d : logs_ok d → logs_ok (AppendLogChunk sha256 c d).1.
Proof.
  intros Hok. rewrite AppendLogChunk_eq. destruct (negb (ValidateLogChunk c)) eqn:Hv; [done|].
  destruct (live_job (lc_Lease c) d) as [job|] eqn:Hj; [|done]. cbv zeta.
  rewrite <-(live_job_id _ _ _ Hj). destruct (_ <=? _); [done|]. destruct (_ <? _).
  { case_bool_decide; [by apply put_stream_ok|done]. }
  case_bool_decide as Hseq; [simpl|done]. destruct (_ || _ || _) eqn:Hlim; [done|].
  apply orb_false_iff in Hlim as [[Htr Hmax]%orb_false_iff Hlast]. apply Z.ltb_ge in Hmax. simpl.
  rewrite put_chunk_put_stream. apply put_chunk_ok; [done|].
  apply log_ok_append; [by apply log_stream_ok|by apply negb_false_iff in Hv|done|done|done|].
  intros Heq. destruct (lc_Truncated c); [done|]. by rewrite Heq in Hlast.
Qed.

(** An append at some time, with the jobs and leases of that time. *)
Definition append_at (a : LogChunk * list jobRow * time) (d : database) : database :=
  let '(c, jobs, now) := a in
  (AppendLogChunk sha256 c (elapse (now - db_now d) (with_jobs jobs d))).1.

(** Whatever chunks are appended by whichever runners at whatever times, every
    stored log is a gapless sequence of at most 8192 valid chunks with at most 16 MiB
    of data, whose size is recorded, and a truncation marker can only be the last
    chunk; the chunk number 8192 is always a marker. *)
Theorem stored_logs_ok appends d id s :
  db_streams d = ∅ → db_chunks d = ∅ →
  let d' := foldl (flip append_at) d appends in
  db_streams d' !! id = Some s → log_ok s (job_chunks id d').
Proof.
  intros Hs Hc d'. assert (Hd : logs_ok d).
  { intros id'. rewrite Hs, lookup_empty. unfold job_chunks. by rewrite Hc, lookup_empty. }
  assert (Hd' : logs_ok d').
  { unfold d'. clear Hs Hc d'. revert d Hd. induction appends as [|[[c jobs] now] appends IH]; intros d Hd; [done|].
    apply IH, append_logs_ok. exact Hd. }
  intros Hid. specialize (Hd' id). by rewrite Hid in Hd'.
Qed.
End Store.

(** ** Delivery from the runner *)

Section Delivery.
Variable sha256 : string → string.
Variable q : LeaseRequest.
Hypothesis Hrunner : lr_RunnerID q ≠ uuid_Nil.
Hypothesis Hjobid : lr_JobID q ≠ uuid_Nil.
Hypothesis Htoken : 1 ≤ len (lr_LeaseToken q) ≤ 512.
(** How often each chunk is sent again because its acknowledgement was lost. *)
Variable resends : Z → nat.
Variable job : jobRow.

(** The transport: a chunk is sent, and sent again after each lost acknowledgement. *)
Fixpoint send_again (n : nat) (c : wireChunk) (d : database) : database * bool :=
  match n with
  | O => (d, true)
  | S n => let '(d, acknowledged) := handleLog sha256 q c d in
           if (acknowledged : bool) then send_again n c d else (d, false)
  end.
Definition transmit (d : database) (c : wireChunk) : database * bool :=
  send_again (S (resends (wc_Sequence c))) c d.

(** The buffer and the store agree on the text [t] that was written. *)
Record synced (b : logBuffer) (d : database) (t : bytes) : Prop := {
  sy_live : live_job sha256 q d = Some job;
  sy_expiry : db_now d < st_expires_at (log_stream job d);
  sy_ok : log_ok (log_stream job d) (job_chunks (jr_id job) d);
  sy_next : st_next_sequence (log_stream job d) = lb_sequence b + 1;
  sy_total : st_total_bytes (log_stream job d) = lb_total b;
  sy_truncated : st_truncated (log_stream job d) = lb_truncated b;
  sy_text : log_text (job_chunks (jr_id job) d) (Z.to_nat (lb_sequence b)) = t;
  sy_full : lb_truncated b = true → lb_sequence b = MaxJobLogChunks ∨ lb_total b = MaxJobLogBytes;
}.

(** The chunk that the handler builds from a message. *)
Definition received (c : wireChunk) : LogChunk :=
  mkChunk q (wc_Sequence c) (wc_StepIndex c) (if wc_Stderr c then "stderr" else "stdout") (wc_Data c)
    (wc_Truncated c).

Lemma handleLog_append c d :
  chunk_valid (received c) →
  handleLog sha256 q c d
  = (let '(d, r) := AppendLogChunk sha256 (received c) d in (d, match r with Ok _ => true | Err _ => false end)).
Proof.
  intros Hv. unfold handleLog. destruct Hv as [? ? ? [? Hs] [? Hst] ? ?] eqn:Heq. simpl in Hs, Hst.
  assert ((MaxJobLogChunks <? wc_Sequence c) || (1023 <? wc_StepIndex c) = false) as ->.
  { apply orb_false_iff. rewrite !Z.ltb_ge. done. }
  change (mkChunk q _ _ _ _ _) with (received c).
  by rewrite (proj2 (ValidateLogChunk_spec (received c)) Hv).
Qed.

Lemma send_again_accepted n c d d' :
  chunk_valid (received c) → AppendLogChunk sha256 (received c) d = (d', Ok tt) →
  send_again (S n) c d = (d', true).
Proof.
  intros Hv Ha. revert d Ha. induction n as [|n IH]; intros d Ha; cbn [send_again].
  - by rewrite handleLog_append, Ha.
  - rewrite handleLog_append, Ha by done. apply IH. by apply append_again in Ha as [? _].
Qed.

(** One chunk. *)
Lemma deliver_chunk step stderr b p d t n c b1 :
  synced b d t → lb_truncated b = false → p ≠ [] → 0 ≤ step ≤ 1023 →
  next_chunk step stderr b p = (n, c, b1) →
  ∃ d', transmit d c = (d', true) ∧
    synced (mkLogBuffer (lb_sequence b1) (lb_total b1 + Z.of_nat n) (lb_truncated b1)) d' (t ++ take n p) ∧
    (n ≤ length p)%nat ∧ (n = 0%nat → lb_truncated b1 = true).
Proof.
  intros [Hlive Hexp Hok Hnext Htot Htr Htext Hfull] Hb Hp Hstep Hc.
  pose proof (live_job_id _ _ _ _ Hlive) as Hid. pose proof Hok as [Ln Ld Lc Lt Ll Lm Llast].
  rewrite Hnext, Htot, Htr in *. unfold next_chunk in Hc.
  set (k := Z.min (Z.min (Z.of_nat (length p)) MaxLogChunkBytes) (MaxJobLogBytes - lb_total b)) in Hc.
  set (marker := (k =? 0) || (MaxJobLogChunks - 1 <=? lb_sequence b)) in Hc.
  assert (Hlen : 1 ≤ Z.of_nat (length p)) by (destruct p; simpl; [done|lia]).
  assert (HM : MaxLogChunkBytes = 32768) by reflexivity.
  assert (Hseq : lb_sequence b + 1 ≤ MaxJobLogChunks).
  { destruct (decide (lb_sequence b + 1 = MaxJobLogChunks + 1)) as [He|]; [|lia]. by rewrite Llast in Hb. }
  assert (Hk : 0 ≤ k ≤ Z.of_nat (length p) ∧ k ≤ MaxLogChunkBytes ∧ lb_total b + k ≤ MaxJobLogBytes) by lia.
  injection Hc as <- <- <-. rewrite Hb in *. cbn [lb_sequence lb_total lb_truncated orb].
  set (n := if marker then 0%nat else Z.to_nat k).
  assert (Hn : Z.of_nat n ≤ k ∧ (marker = false → 1 ≤ Z.of_nat n)).
  { unfold n, marker. destruct (k =? 0) eqn:Hk0; simpl; [split; [lia|done]|]. bools.
    destruct (_ <=? _); split; intros; simpl; try done; lia. }
  set (c := mkWire _ _ _ _ _).
  assert (Hlt : length (take n p) = n) by (rewrite length_take; lia).
  assert (Hv : chunk_valid (received c)).
  { split; simpl; try done; [lia| |].
    - destruct stderr; [by right|by left].
    - unfold chunk_ok, stored_chunk, received. simpl. rewrite Hlt. unfold n.
      destruct marker; [done|]. destruct Hn as [? Hn]. specialize (Hn eq_refl). unfold n in Hn. lia. }
  assert (Happ : AppendLogChunk sha256 (received c) d
    = (put_chunk (jr_id job) (mkStreamRow (lb_sequence b + 1 + 1) (lb_total b + Z.of_nat n) marker
         (st_expires_at (log_stream job d))) (lb_sequence b + 1) (stored_chunk (received c))
         (put_stream (jr_id job) (log_stream job d) d), Ok tt)).
  { rewrite AppendLogChunk_eq, (proj2 (ValidateLogChunk_spec _) Hv). cbn [negb].
    change (lc_Lease (received c)) with q. rewrite Hlive. cbv zeta.
    change (lc_Sequence (received c)) with (lb_sequence b + 1). change (lc_Data (received c)) with (take n p).
    change (lc_Truncated (received c)) with marker.
    rewrite Hnext, Htot, Htr, <-Hid, Hlt, Z.ltb_irrefl.
    rewrite (bool_decide_eq_true_2 (lb_sequence b + 1 = lb_sequence b + 1)) by done.
    rewrite (proj2 (Z.leb_gt _ _) Hexp). cbn [negb orb].
    rewrite (proj2 (Z.ltb_ge MaxJobLogBytes (lb_total b + Z.of_nat n))) by lia. cbn [orb].
    destruct ((_ =? MaxJobLogChunks) && negb marker) eqn:Hlast; [|done].
    exfalso. apply andb_true_iff in Hlast as [Hl1%bool_decide_eq_true Hl2%negb_true_iff].
    apply orb_false_iff in Hl2 as [_ Hl2%Z.leb_gt]. lia. }
  eexists. split; [by apply send_again_accepted|].
  assert (Htxt : log_text (<[lb_sequence b + 1 := stored_chunk (received c)]> (job_chunks (jr_id job) d))
      (Z.to_nat (lb_sequence b + 1)) = t ++ take n p).
  { assert (Z.to_nat (lb_sequence b + 1) = S (Z.to_nat (lb_sequence b))) as -> by lia. cbn [log_text].
    assert (Z.of_nat (S (Z.to_nat (lb_sequence b))) = lb_sequence b + 1) as -> by lia.
    rewrite log_text_insert, Htext, lookup_insert_eq by lia. done. }
  split; [|split; [lia|]].
  - rewrite put_chunk_put_stream. split; rewrite ?log_stream_put_chunk, ?job_chunks_put; try done.
    + apply (log_ok_append (log_stream job d) (job_chunks (jr_id job) d) (received c)) in Hok.
      * simpl in Hok. by rewrite Hnext, Htot, Hlt in Hok.
      * by apply ValidateLogChunk_spec.
      * simpl. lia.
      * congruence.
      * simpl. rewrite Hlt, Htot. lia.
      * simpl. intros Hm. unfold marker. apply orb_true_iff. right. apply Z.leb_le. lia.
    + cbn [lb_sequence lb_total lb_truncated]. intros Hm. unfold n. rewrite Hm.
      apply orb_true_iff in Hm as [Hm|Hm]; bools; [right; lia|left; apply Z.leb_le in Hm; lia].
  - intros Hn0. destruct marker; [done|]. destruct Hn as [_ Hn]. specialize (Hn eq_refl). lia.
Qed.

(** One call of [Write]: everything is stored up to the limit. *)
Lemma write_synced fuel step stderr original p written b d t :
  synced b d t → 0 ≤ step ≤ 1023 → (length p < fuel)%nat →
  ∃ b' d' k, write_log transmit (λ _, false) fuel step stderr original p written b d = (b', d', original, false) ∧
    synced b' d' (t ++ take k p) ∧ (lb_truncated b' = false → (length p ≤ k)%nat) ∧
    (lb_truncated b = true → k = 0%nat ∧ lb_truncated b' = true).
Proof.
  revert p written b d t. induction fuel as [|fuel IH]; intros p written b d t Hs Hst Hf; [lia|].
  cbn [write_log]. destruct (Nat.eqb_spec (length p) 0) as [Hp|Hp].
  { apply length_zero_iff_nil in Hp as ->.
    exists b, d, 0%nat. rewrite app_nil_r. auto with lia. }
  destruct (lb_truncated b) eqn:Hb.
  { exists b, d, 0%nat. rewrite take_0, app_nil_r, Hb. split; [done|]. split; [done|]. done. }
  destruct (next_chunk step stderr b p) as [[n c] b1] eqn:Hc.
  destruct (deliver_chunk step stderr b p d t n c b1) as (d1 & -> & Hs1 & Hn & Hz); try done.
  { intros ->. by apply Hp. }
  destruct n as [|n].
  - simpl in Hs1. rewrite take_0, app_nil_r in Hs1. cbn [negb]. rewrite drop_0.
    set (b2 := mkLogBuffer _ _ _) in *. assert (Hb2 : lb_truncated b2 = true) by by apply Hz.
    destruct fuel as [|fuel]; [lia|]. cbn [write_log].
    rewrite (proj2 (Nat.eqb_neq _ _) Hp), Hb2. exists b2, d1, 0%nat.
    rewrite take_0, app_nil_r, Hb2. done.
  - destruct (IH (drop (S n) p) (written + Z.of_nat (S n))
      (mkLogBuffer (lb_sequence b1) (lb_total b1 + Z.of_nat (S n)) (lb_truncated b1)) d1 (t ++ take (S n) p))
      as (b' & d' & k & He & Hs' & Hk & _); [done|done|rewrite length_drop; lia|].
    exists b', d', (S n + k)%nat. cbn [negb]. rewrite He. split; [done|].
    rewrite <-app_assoc, take_take_drop in Hs'. split; [done|]. split; [|done].
    intros Hb'. specialize (Hk Hb'). rewrite length_drop in Hk. lia.
Qed.

Lemma write_all_synced writes b d t :
  synced b d t → Forall (λ w, 0 ≤ w.1.1 ≤ 1023) writes →
  ∃ b' d' t', write_all transmit (λ _, false) writes b d = (b', d', false) ∧ synced b' d' (t ++ t') ∧
    t' `prefix_of` mjoin (snd <$> writes) ∧ (lb_truncated b' = false → t' = mjoin (snd <$> writes)) ∧
    (lb_truncated b = true → t' = [] ∧ lb_truncated b' = true).
Proof.
  revert b d t. induction writes as [|[[step stderr] p] writes IH]; intros b d t Hs Hw.
  { exists b, d, []. rewrite app_nil_r. split; [done|]. split; [done|]. split; [apply prefix_nil|done]. }
  apply Forall_cons in Hw as [Hstep Hw]. cbn [write_all]. unfold logWriter_Write.
  destruct (write_synced (S (length p)) step stderr (Z.of_nat (length p)) p 0 b d t)
    as (b1 & d1 & k & He & Hs1 & Hk & Hb); [done|done|lia|]. rewrite He.
  destruct (IH b1 d1 (t ++ take k p) Hs1 Hw) as (b' & d' & t' & He' & Hs' & Hpre & Hall & Hb').
  exists b', d', (take k p ++ t'). rewrite He'. split; [done|]. split; [by rewrite app_assoc|].
  change (mjoin (snd <$> (step, stderr, p) :: writes)) with (p ++ mjoin (snd <$> writes)).
  destruct (lb_truncated b1) eqn:Hb1.
  - destruct (Hb' eq_refl) as [-> Htr]. rewrite app_nil_r. split; [|split].
    + rewrite <-(take_drop k p) at 2. rewrite <-app_assoc. by apply prefix_app_r.
    + by rewrite Htr.
    + intros Ht. by destruct (Hb Ht) as [-> _].
  - rewrite take_ge by by apply Hk. split; [by apply prefix_app|]. split.
    + intros Ht. by rewrite Hall.
    + intros Ht. by destruct (Hb Ht).
Qed.
End Delivery.

(** ** Theorem *)

(** C38: a runner with a live lease that writes the output of its steps gets every
    chunk accepted, however often chunks have to be sent again; the store then holds
    a prefix of the output, the whole of it unless the log was truncated, and it is
    truncated only when it has reached 16 MiB or 8192 chunks. *)
Theorem log_delivery sha256 q resends job writes d :
  lr_RunnerID q ≠ uuid_Nil → lr_JobID q ≠ uuid_Nil → 1 ≤ len (lr_LeaseToken q) ≤ 512 →
  live_job sha256 q d = Some job → db_now d < jr_created_at job + LogRetention →
  db_streams d !! jr_id job = None → db_chunks d !! jr_id job = None →
  Forall (λ w, 0 ≤ w.1.1 ≤ 1023) writes →
  ∃ b d', write_all (transmit sha256 q resends) (λ _, false) writes newLogBuffer d = (b, d', false) ∧
    let output := mjoin (snd <$> writes) in
    let stored := log_text (job_chunks (jr_id job) d') (Z.to_nat (lb_sequence b)) in
    stored `prefix_of` output ∧ (lb_truncated b = false → stored = output) ∧
    (lb_truncated b = true → Z.of_nat (length stored) = MaxJobLogBytes ∨ lb_sequence b = MaxJobLogChunks) ∧
    log_ok (log_stream job d') (job_chunks (jr_id job) d').
Proof.
  intros Hr Hj Ht Hlive Hexp Hs Hc Hw.
  assert (Hsync : synced sha256 q job newLogBuffer d []).
  { split; unfold log_stream, job_chunks; rewrite ?Hs, ?Hc; try done. apply log_ok_empty. }
  destruct (write_all_synced sha256 q Hr Hj Ht resends job writes newLogBuffer d [] Hsync Hw)
    as (b & d' & t & He & Hs' & Hpre & Hall & _).
  exists b, d'. split; [done|]. destruct Hs' as [_ _ Hok Hnext Htot Htr Htext Hfull]. simpl in Htext.
  cbv zeta. rewrite Htext. split; [done|]. split; [done|]. split; [|done].
  intros Hb. destruct (Hfull Hb) as [?|Htotal]; [by right|left].
  rewrite <-Htotal, <-Htot, (lo_total _ _ Hok), Hnext, Z.add_simpl_r. by rewrite Htext.
Qed.

(** ** Examples *)

Section Examples.
#[local] Existing Instance library_order.

(** A database in which the runner 7 executes the job 100. *)
Definition pg_running : database :=
  pg_play [PClaimRunnerJob no_lock "t" 7; PAcknowledge (mkLease 7 100 "t"); PStart (mkLease 7 100 "t")] (pg_start "demo").

Definition demo_lease : LeaseRequest := mkLease 7 100 "t".
Definition demo_chunk (n : Z) (text : string) : LogChunk := mkChunk demo_lease n 0 "stdout" (chars text) false.
Abbreviation demo_append c d := (AppendLogChunk demo_sha256 c d).

Lemma append_retransmission_witness :
  let d := (demo_append (demo_chunk 1 "hello") pg_running).1 in
  demo_append (demo_chunk 1 "hello") d = (d, Ok tt) ∧ ∃ e, demo_append (demo_chunk 1 "other") d = (d, Err e).
Proof.
  destruct (demo_append (demo_chunk 1 "hello") pg_running) as [d res] eqn:Hc.
  assert (Hr : (demo_append (demo_chunk 1 "hello") pg_running).2 = res) by by rewrite Hc.
  vm_compute in Hr. subst res.
  destruct (append_retransmission demo_sha256 _ _ _ Hc) as [H1 H2]. split; [exact H1|].
  apply H2; [reflexivity|reflexivity|discriminate].
Defined.

Lemma stored_logs_ok_witness :
  let d := foldl (flip (append_at demo_sha256)) pg_running
    [(demo_chunk 1 "hello", db_jobs pg_running, 1); (demo_chunk 3 "gap", db_jobs pg_running, 2);
     (demo_chunk 2 "world", db_jobs pg_running, 3)] in
  log_ok (mkStreamRow 3 10 false LogRetention) (job_chunks 100 d).
Proof.
  apply (stored_logs_ok demo_sha256 _ pg_running); vm_compute; reflexivity.
Defined.

Definition demo_writes : list (Z * bool * bytes) := [(0, false, chars "hello "); (0, true, chars "world")].

Lemma log_delivery_witness :
  ∃ b d', write_all (transmit demo_sha256 demo_lease (λ n, Z.to_nat n)) (λ _, false) demo_writes newLogBuffer pg_running
    = (b, d', false) ∧
  log_text (job_chunks 100 d') (Z.to_nat (lb_sequence b)) `prefix_of` chars "hello world".
Proof.
  destruct (live_job demo_sha256 demo_lease pg_running) as [job|] eqn:Hj; [|vm_compute in Hj; discriminate].
  assert (Hr : live_job demo_sha256 demo_lease pg_running = Some job) by exact Hj.
  vm_compute in Hr. injection Hr as Hr.
  destruct (log_delivery demo_sha256 demo_lease (λ n, Z.to_nat n) job demo_writes pg_running) as (b & d' & Hw & Hpre & _).
  - discriminate.
  - discriminate.
  - vm_compute. split; discriminate.
  - exact Hj.
  - subst job. vm_compute. reflexivity.
  - subst job. vm_compute. reflexivity.
  - subst job. vm_compute. reflexivity.
  - repeat constructor; vm_compute; discriminate.
  - exists b, d'. split; [exact Hw|]. subst job. exact Hpre.
Defined.
End Examples.
