(* ===== verification/GithubHook.v ===== *)
(** Webhooks on their way in: the events of a source code host and the verification of
    requests (internal/scm), and the service that receives those of GitHub
    (internal/githubhook). *)

From S2P Require Import Prelude GoStd RunModel Codecs Regex Identity.

(** * internal/scm/scm.go and internal/scm/webhook/verify.go: the events of a source
    code host and the verification of the requests that announce them. *)

(** ** scm.go *)

Definition GitHub : string := "github".
Definition GitLab : string := "gitlab".
Definition Gitea : string := "gitea".
Definition Gitee : string := "gitee".

Definition EventPush : string := "push".
Definition EventPullRequest : string := "pull_request".
Definition EventTag : string := "tag".

Record Repository := mkRepository {
  re_ExternalID : string;
  re_Owner : string;
  re_Name : string;
  re_CloneURL : string;
  re_WebURL : string;
  re_DefaultBranch : string;
  re_Private : bool;
}.
#[export] Instance Repository_eq_dec : EqDecision Repository.
Proof. solve_decision. Defined.

Record Event := mkEvent {
  ev_Provider : string;
  ev_DeliveryID : string;
  ev_Type : string;
  ev_Action : string;
  ev_Repository : Repository;
  ev_Ref : string;
  ev_BeforeSHA : string;
  ev_AfterSHA : string;
  ev_Sender : string;
  ev_ReceivedAt : time;
  ev_Metadata : gmap string string;
}.
#[export] Instance Event_eq_dec : EqDecision Event.
Proof. solve_decision. Defined.

(** The errors of the packages scm, webhook, githubhook, githubapp, project and
    githubci that meet in the processing of a delivery. *)
Inductive HookError :=
| ErrUnauthorized           (** scm.ErrUnauthorized *)
| ErrRateLimited            (** scm.ErrRateLimited *)
| ErrNotFound
| ErrInvalidHook
| ErrUnsupportedEvent
| ErrSecretLength           (** "webhook secret must contain at least 16 bytes" *)
| ErrTokenPrefix            (** "signing token must start with whsec_" *)
| ErrTokenLength            (** "signing token must encode exactly 32 bytes" *)
| ErrMissingSignature
| ErrInvalidSignature
| ErrStaleDelivery
| ErrInvalidRequest
| ErrConflict
| ErrTooManyRequests        (** githubhook.ErrRateLimited *)
| ErrNoDelivery
| ErrHookLeaseInvalid       (** githubhook.ErrLeaseInvalid *)
| ErrAutomationConflict
| ErrAutomationInvalid
| ErrAutomationNotReady
| ErrInvalidDelivery
| ErrInvalidPipeline
| ErrInvalidCommit
| ErrRepositoryUnavailable
| ErrRepositoryMismatch
| ErrCredentialUnavailable  (** githubapp *)
| ErrAppRepository          (** githubapp.ErrRepositoryUnavailable *)
| ErrInvalidEvent           (** githubapp *)
| ErrExternalFork           (** githubapp *)
| ErrInterrupted            (** context.Canceled and context.DeadlineExceeded *)
| ErrStore (e : RunError)   (** an error of the run store or of its database *)
| ErrOther.                 (** any other error *)
#[export] Instance HookError_eq_dec : EqDecision HookError.
Proof. solve_decision. Defined.

(** ** verify.go *)

(** [hmac.Equal] and [subtle.ConstantTimeCompare] compare lengths and bytes. *)
Definition VerifyHMACSHA256 (secret body : bytes) (received prefix : string) : result HookError unit :=
  fail_if len (of_chars secret) <? 16 with ErrSecretLength;;
  fail_if received =? "" with ErrMissingSignature;;
  fail_if (prefix <>? "") && negb (HasPrefix received prefix) with ErrInvalidSignature;;
  let received := if prefix <>? "" then TrimPrefix received prefix else received in
  match hex_decode (chars received) with
  | None => Err ErrInvalidSignature
  | Some provided =>
    fail_if negb (length provided =? 32)%nat with ErrInvalidSignature;;
    fail_if hmac secret body <>? provided with ErrInvalidSignature;;
    Ok tt
  end.

(** The header that [VerifyStandard] expects. *)
Definition standard_signature (key : bytes) (messageID timestamp : string) (body : bytes) : string :=
  "v1," +:+ of_chars (encode StdEncoding (hmac key (chars (messageID +:+ "." +:+ timestamp +:+ ".") ++ body))).

Definition VerifyStandard (signingToken messageID timestamp signatures : string) (body : bytes)
    (now : time) (maxSkew : duration) : result HookError unit :=
  fail_if (messageID =? "") || (timestamp =? "") || (signatures =? "") with ErrMissingSignature;;
  fail_if negb (HasPrefix signingToken "whsec_") with ErrTokenPrefix;;
  match DecodeString StdEncoding (chars (TrimPrefix signingToken "whsec_")) with
  | None => Err ErrTokenLength
  | Some key =>
    fail_if negb (length key =? 32)%nat with ErrTokenLength;;
    match ParseInt timestamp with
    | None => Err ErrInvalidSignature
    | Some seconds =>
      let issuedAt := Unix seconds in
      fail_if (maxSkew <? Sub now issuedAt) || (maxSkew <? Sub issuedAt now) with ErrStaleDelivery;;
      let expected := standard_signature key messageID timestamp body in
      if existsb (λ signature, expected =? signature) (Fields signatures) then Ok tt
      else Err ErrInvalidSignature
    end
  end.

Definition VerifyLegacyToken (expected received : string) : result HookError unit :=
  fail_if (expected =? "") || (received =? "") with ErrMissingSignature;;
  fail_if (len expected <>? len received) || (expected <>? received) with ErrInvalidSignature;;
  Ok tt.

Definition PayloadDigest (body : bytes) : string := of_chars (hex_encode (Sum256 body)).

(** ** Acceptance *)

(** The signature of GitHub for a body. *)
Definition github_signature (secret body : bytes) : string :=
  "sha256=" +:+ of_chars (hex_encode (hmac secret body)).

Lemma len_PayloadDigest body : len (PayloadDigest body) = 64.
Proof. unfold PayloadDigest. by rewrite len_chars, chars_of_chars, length_hex_encode, length_Sum256. Qed.

Lemma VerifyHMACSHA256_inv secret body received :
  VerifyHMACSHA256 secret body received "sha256=" = Ok tt →
  16 ≤ len (of_chars secret) ∧ HasPrefix received "sha256=" = true
  ∧ hex_decode (chars (TrimPrefix received "sha256=")) = Some (hmac secret body).
Proof.
  unfold VerifyHMACSHA256. destruct (len (of_chars secret) <? 16) eqn:Hlen; [done|].
  destruct (received =? ""); [done|].
  change ("sha256=" <>? "") with true. cbv iota. cbn [andb].
  destruct (HasPrefix received "sha256=") eqn:Hprefix; [|done]. cbn [negb].
  destruct (hex_decode _) as [provided|]; [|done].
  destruct (negb _); [done|]. destruct (hmac secret body <>? provided) eqn:Heq; [done|].
  intros _. bools. apply Z.ltb_ge in Hlen. subst. done.
Qed.

(** * internal/githubhook/service.go, and the parser of GitHub's webhooks in
    internal/scm/github/client.go: a request becomes a delivery for the inbox only
    after its signature and its contents have been checked. *)

Definition MaxBodyBytes : Z := 2 * 2 ^ 20.
Definition MaxAttempts : Z := 12.

(** [^[A-Za-z0-9][A-Za-z0-9._:-]{0,254}$] and [^[0-9a-fA-F]{40}$] *)
Definition deliveryPattern : regex :=
  RSeq (RClass is_alnum) (RUpTo 254 (RClass (λ c, is_alnum c || one_of "._:-" c))).
Definition shaPattern : regex :=
  RTimes 40 (RClass (λ c, is_digit c || in_range "a" "f" c || in_range "A" "F" c)).

Record Delivery := mkDelivery {
  de_Provider : string;
  de_ProviderInstance : string;
  de_DeliveryID : string;
  de_EventType : string;
  de_PayloadSHA256 : string;
  de_NormalizedEvent : Event;   (** as JSON *)
  de_ReceivedAt : time;
}.

Record Receipt := mkReceipt { rc_ID : uuid; rc_Duplicate : bool }.

Record WorkItem := mkWorkItem {
  wi_ID : uuid;
  wi_LeaseID : uuid;
  wi_Event : Event;
  wi_Attempt : Z;
  wi_LeaseExpires : time;
}.

Abbreviation FinalState := string (only parsing).
Definition FinalProcessed : FinalState := "processed".
Definition FinalIgnored : FinalState := "ignored".
Definition FinalRetry : FinalState := "retry".
Definition FinalDead : FinalState := "dead_letter".

Record Finalize := mkFinalize {
  fz_ID : uuid;
  fz_LeaseID : uuid;
  fz_State : FinalState;
  fz_NextAttempt : time;
  fz_ErrorCode : string;
  fz_ErrorSummary : string;
}.

(** ** Headers *)

(** [http.Header] *)
Abbreviation Header := (gmap string (list string)).

(** [textproto.CanonicalMIMEHeaderKey] on a key of letters, digits and hyphens. *)
Fixpoint canonical (upper : bool) (l : bytes) : bytes :=
  match l with
  | [] => []
  | c :: l => (if upper then upper_byte c else lower_byte c) :: canonical (c =? "-"%char) l
  end.
Definition CanonicalHeaderKey (name : string) : string := of_chars (canonical true (chars name)).
Definition Values (headers : Header) (name : string) : list string :=
  default [] (headers !! CanonicalHeaderKey name).

(** [ContainsAny(s, "\r\n\x00")] *)
Definition has_control (s : string) : bool := ContainsAny s (of_chars (ascii_of_nat <$> [13; 10; 0]%nat)).

Definition singleHeader (headers : Header) (name : string) : option string :=
  match Values headers name with
  | [value] =>
    let value := TrimSpace value in
    if (value <>? "") && negb (has_control value) then Some value
    else None
  | _ => None
  end.

Section Client.
(** The order in which a map is iterated, and [json.Unmarshal] into the two
    structures of the client. *)
Context `{MapOrder}.

Fixpoint first_header (entries : list (string * list string)) (name : string) : string :=
  match entries with
  | [] => ""
  | (key, values) :: entries =>
    match values with
    | value :: _ => if EqualFold key name then value else first_header entries name
    | [] => first_header entries name
    end
  end.

Definition header (headers : Header) (name : string) : string := first_header (range headers) name.

Record repositoryResponse := mkRepositoryResponse {
  rr_ID : string;
  rr_Name : string;
  rr_CloneURL : string;
  rr_HTMLURL : string;
  rr_DefaultBranch : string;
  rr_Private : bool;
  rr_Login : string;   (** owner *)
}.

Definition toSCM (r : repositoryResponse) : Repository :=
  mkRepository (rr_ID r) (rr_Login r) (rr_Name r) (rr_CloneURL r) (rr_HTMLURL r) (rr_DefaultBranch r) (rr_Private r).

Record pushPayload := mkPushPayload {
  pp_Ref : string;
  pp_Before : string;
  pp_After : string;
  pp_Repository : repositoryResponse;
  pp_Sender : string;
}.

Record pullPayload := mkPullPayload {
  pl_Action : string;
  pl_Number : Z;
  pl_Repository : repositoryResponse;
  pl_Sender : string;
  pl_HeadRef : string;
  pl_HeadSHA : string;
  pl_HeadRepo : option repositoryResponse;
  pl_BaseRef : string;
}.

Variable unmarshal_push : bytes → option pushPayload.
Variable unmarshal_pull : bytes → option pullPayload.

Definition parsePush (now : time) (deliveryID : string) (body : bytes) : result HookError Event :=
  match unmarshal_push body with
  | None => Err ErrInvalidHook
  | Some payload =>
    let eventType := if HasPrefix (pp_Ref payload) "refs/tags/" then EventTag else EventPush in
    Ok {| ev_Provider := GitHub; ev_DeliveryID := deliveryID; ev_Type := eventType; ev_Action := "";
          ev_Repository := toSCM (pp_Repository payload); ev_Ref := pp_Ref payload;
          ev_BeforeSHA := pp_Before payload; ev_AfterSHA := pp_After payload; ev_Sender := pp_Sender payload;
          ev_ReceivedAt := now; ev_Metadata := ∅ |}
  end.

Definition FormatBool (b : bool) : string := if b then "true" else "false".

Definition parsePullRequest (now : time) (deliveryID : string) (body : bytes) : result HookError Event :=
  match unmarshal_pull body with
  | None => Err ErrInvalidHook
  | Some payload =>
    let metadata : gmap string string :=
      <["number" := FormatInt (pl_Number payload)]> (<["head_ref" := pl_HeadRef payload]>
        (<["base_ref" := pl_BaseRef payload]> ∅)) in
    let metadata :=
      match pl_HeadRepo payload with
      | None => metadata
      | Some repo =>
        <["head_repository_id" := rr_ID repo]>
          (<["fork" := FormatBool (rr_ID repo <>? rr_ID (pl_Repository payload))]> metadata)
      end in
    Ok {| ev_Provider := GitHub; ev_DeliveryID := deliveryID; ev_Type := EventPullRequest;
          ev_Action := pl_Action payload; ev_Repository := toSCM (pl_Repository payload);
          ev_Ref := "refs/pull/" +:+ FormatInt (pl_Number payload) +:+ "/head"; ev_BeforeSHA := "";
          ev_AfterSHA := pl_HeadSHA payload; ev_Sender := pl_Sender payload; ev_ReceivedAt := now;
          ev_Metadata := metadata |}
  end.

Definition ParseWebhook (now : time) (webhookSecret : bytes) (headers : Header) (body : bytes)
    : result HookError Event :=
  let signature := header headers "X-Hub-Signature-256" in
  if negb (is_ok (VerifyHMACSHA256 webhookSecret body signature "sha256=")) then Err ErrInvalidHook
  else
    let deliveryID := TrimSpace (header headers "X-GitHub-Delivery") in
    fail_if deliveryID =? "" with ErrInvalidHook;;
    let eventName := TrimSpace (header headers "X-GitHub-Event") in
    if eventName =? "push" then parsePush now deliveryID body
    else if eventName =? "pull_request" then parsePullRequest now deliveryID body
    else Err ErrUnsupportedEvent.
End Client.

(** ** service.go *)

Definition event_fields_invalid (event : Event) : bool :=
  let repository := ev_Repository event in
  (ev_Provider event <>? GitHub) || negb (re_match deliveryPattern (ev_DeliveryID event))
  || (re_ExternalID repository =? "") || (re_Owner repository =? "") || (re_Name repository =? "")
  || (100 <? len (re_Owner repository)) || (100 <? len (re_Name repository))
  || has_control (re_Owner repository +:+ re_Name repository +:+ ev_Ref event +:+ ev_Sender event)
  || (1024 <? len (ev_Ref event)) || (100 <? len (ev_Sender event))
  || negb (re_match shaPattern (ev_AfterSHA event)).

(** The value of a key that is not in a map is the empty text. *)
Definition metadata (event : Event) (key : string) : string := default "" (ev_Metadata event !! key).

Definition validateEvent (event : Event) : result HookError unit :=
  fail_if event_fields_invalid event with ErrInvalidRequest;;
  if bool_decide (ev_Type event ∈ [EventPush; EventTag; EventPullRequest]) then
    if (ev_Type event =? EventPullRequest) && (metadata event "fork" <>? "true")
       && (metadata event "fork" <>? "false")
    then Err ErrInvalidRequest else Ok tt
  else Err ErrInvalidRequest.

(** The token bucket of [allow]. *)
Record Limiter := mkLimiter { lm_tokens : float64; lm_last : time }.

Definition New (now : time) : Limiter := mkLimiter (float64_of_Z 100) now.

Definition allow (now : time) (s : Limiter) : Limiter * bool :=
  let elapsed := Seconds (Sub now (lm_last s)) in
  let s :=
    if float64_lt (float64_of_Z 0) elapsed then
      let tokens := float64_add (lm_tokens s) (float64_mul elapsed (float64_of_Z 50)) in
      mkLimiter (if float64_lt (float64_of_Z 100) tokens then float64_of_Z 100 else tokens) now
    else s in
  if float64_lt (lm_tokens s) (float64_of_Z 1) then (s, false)
  else (mkLimiter (float64_sub (lm_tokens s) (float64_of_Z 1)) (lm_last s), true).

(** Remote URLs are not kept. *)
Definition without_urls (event : Event) : Event :=
  let r := ev_Repository event in
  mkEvent (ev_Provider event) (ev_DeliveryID event) (ev_Type event) (ev_Action event)
    (mkRepository (re_ExternalID r) (re_Owner r) (re_Name r) "" "" (re_DefaultBranch r) (re_Private r))
    (ev_Ref event) (ev_BeforeSHA event) (ev_AfterSHA event) (ev_Sender event) (ev_ReceivedAt event)
    (ev_Metadata event).

Section Service.
Context `{MapOrder}.
Variable unmarshal_push : bytes → option pushPayload.
Variable unmarshal_pull : bytes → option pullPayload.

(** [Receive] up to the inbox; [secret] is the answer of the secret source. *)
Definition checked_delivery (now : time) (secret : result HookError bytes) (headers : Header) (body : bytes)
    : result HookError Delivery :=
  fail_if (len (of_chars body) =? 0) || (MaxBodyBytes <? len (of_chars body)) with ErrInvalidRequest;;
  match singleHeader headers "X-GitHub-Delivery" with
  | None => Err ErrInvalidRequest
  | Some deliveryID =>
    fail_if negb (re_match deliveryPattern deliveryID) with ErrInvalidRequest;;
    match singleHeader headers "X-GitHub-Event" with
    | None => Err ErrInvalidRequest
    | Some eventType =>
      fail_if 64 <? len eventType with ErrInvalidRequest;;
      match singleHeader headers "X-Hub-Signature-256" with
      | None => Err ErrInvalidHook
      | Some signature =>
        let? secret := secret in
        fail_if negb (is_ok (VerifyHMACSHA256 secret body signature "sha256=")) with ErrInvalidHook;;
        match ParseWebhook unmarshal_push unmarshal_pull now secret headers body with
        | Err e => Err (if e =? ErrInvalidHook then ErrInvalidRequest else e)
        | Ok event =>
          let? _ := validateEvent event in
          let event := without_urls event in
          Ok {| de_Provider := "github"; de_ProviderInstance := GitHubInstance; de_DeliveryID := deliveryID;
                de_EventType := eventType; de_PayloadSHA256 := PayloadDigest body;
                de_NormalizedEvent := event; de_ReceivedAt := ev_ReceivedAt event |}
        end
      end
    end
  end.

(** [store] is the inbox that the service was created with. *)
Definition Receive {St} (store : Delivery → St → St * result HookError Receipt) (now : time)
    (secret : result HookError bytes) (headers : Header) (body : bytes) (s : Limiter * St)
    : Limiter * St * result HookError Receipt :=
  let '(limiter, st) := s in
  let '(limiter, allowed) := allow now limiter in
  if negb allowed then (limiter, st, Err ErrTooManyRequests)
  else match checked_delivery now secret headers body with
  | Err e => (limiter, st, Err e)
  | Ok delivery => let '(st, receipt) := store delivery st in (limiter, st, receipt)
  end.
End Service.
