(* ===== verification/Automation.v ===== *)
(** internal/project/automation.go: the settings that decide which events of a
    project start a run, and the paths that may name a pipeline. *)

From S2P Require Import Prelude GoStd Regex GithubHook.

Definition DefaultPipelinePath : string := ".yuanci.yml".

(** [^[0-9a-f]+$] *)
Definition lowercaseHex : regex := RPlus (RClass (λ c, is_digit c || in_range "a" "f" c)).

Record AutomationSettings := mkAutomationSettings {
  as_Enabled : bool;
  as_PipelinePath : string;
  as_TriggerPush : bool;
  as_TriggerTag : bool;
  as_TriggerPullRequest : bool;
  as_CancelOlderCommits : bool;
  as_Revision : Z;
}.
#[export] Instance AutomationSettings_eq_dec : EqDecision AutomationSettings.
Proof. solve_decision. Defined.

Definition DefaultAutomationSettings : AutomationSettings :=
  {| as_Enabled := false; as_PipelinePath := DefaultPipelinePath; as_TriggerPush := true; as_TriggerTag := true;
     as_TriggerPullRequest := true; as_CancelOlderCommits := true; as_Revision := 0 |}.

Record AutomationUpdate := mkAutomationUpdate {
  up_Enabled : bool;
  up_PipelinePath : string;
  up_TriggerPush : bool;
  up_TriggerTag : bool;
  up_TriggerPullRequest : bool;
  up_CancelOlderCommits : bool;
  up_ExpectedRevision : Z;
}.

Record AutomationValidationTarget := mkValidationTarget {
  vt_Provider : string;
  vt_RepositoryExternalID : string;
  vt_PipelinePath : string;
  vt_SettingsRevision : Z;
}.

Record AutomationValidation := mkAutomationValidation {
  va_RepositoryID : uuid;
  va_AppRevision : uuid;
  va_SettingsRevision : Z;
  va_PipelinePath : string;
  va_CommitSHA : string;
  va_ConfigSHA256 : string;
  va_PipelineName : string;
  va_ValidatedAt : time;
}.
#[export] Instance AutomationValidation_eq_dec : EqDecision AutomationValidation.
Proof. solve_decision. Defined.

(** ** Paths *)

(** [path.Clean]: the segments that remain, last one first. *)
Fixpoint clean_segments (rooted : bool) (segments out : list string) : list string :=
  match segments with
  | [] => out
  | segment :: segments =>
    if (segment =? "") || (segment =? ".") then clean_segments rooted segments out
    else if segment =? ".." then
      match out with
      | last :: rest =>
        if last =? ".." then clean_segments rooted segments (segment :: out)
        else clean_segments rooted segments rest
      | [] => clean_segments rooted segments (if rooted then [] else [segment])
      end
    else clean_segments rooted segments (segment :: out)
  end.
Definition Clean (value : string) : string :=
  let rooted := HasPrefix value "/" in
  let cleaned := Join (reverse (clean_segments rooted (Split value "/") [])) "/" in
  if rooted then "/" +:+ cleaned else if cleaned =? "" then "." else cleaned.

Definition unsafePathSegment (value : string) : bool :=
  existsb (λ segment, (segment =? ".") || (segment =? "..")) (Split value "/").

(** [strings.IndexFunc(value, unicode.IsControl) >= 0]: U+0000 to U+001F, U+007F, and
    U+0080 to U+009F, which UTF-8 encodes as 0xC2 and the code point itself. *)
Fixpoint contains_control (l : bytes) : bool :=
  match l with
  | [] => false
  | c :: l =>
    let n := nat_of_ascii c in
    (n <? 32)%nat || (n =? 127)%nat
    || ((n =? 194)%nat
        && match l with d :: _ => (128 <=? nat_of_ascii d)%nat && (nat_of_ascii d <=? 159)%nat | [] => false end)
    || contains_control l
  end.

Definition ValidatePipelinePath (value : string) : result HookError unit :=
  fail_if (len value <? 1) || (256 <? len value)
    || HasPrefix value "/" || Contains value "\"
    || (Clean value <>? value) || unsafePathSegment value
    || (negb (HasSuffix value ".yml") && negb (HasSuffix value ".yaml"))
    || contains_control (chars value) with ErrAutomationInvalid;;
  Ok tt.

(** ** Requests *)

Definition AutomationUpdate_Validate (u : AutomationUpdate) : result HookError unit :=
  fail_if (up_ExpectedRevision u <? 0) || negb (is_ok (ValidatePipelinePath (up_PipelinePath u)))
    || (up_Enabled u && negb (up_TriggerPush u) && negb (up_TriggerTag u) && negb (up_TriggerPullRequest u))
    with ErrAutomationInvalid;;
  Ok tt.

Definition AutomationValidation_Validate (v : AutomationValidation) : result HookError unit :=
  fail_if (va_RepositoryID v =? uuid_Nil) || (va_AppRevision v =? uuid_Nil) || (va_SettingsRevision v <? 0)
    || negb (is_ok (ValidatePipelinePath (va_PipelinePath v)))
    || (len (va_CommitSHA v) <>? 40) || negb (re_match lowercaseHex (va_CommitSHA v))
    || (len (va_ConfigSHA256 v) <>? 64) || negb (re_match lowercaseHex (va_ConfigSHA256 v))
    || (va_PipelineName v =? "") || (128 <? len (va_PipelineName v)) || (va_ValidatedAt v =? time_zero)
    with ErrAutomationInvalid;;
  Ok tt.

(** ** Examples from automation_test.go and from package path *)

Example clean_examples :
  Clean <$> ["a/b.yml"; "./a.yml"; "a//b"; "a/../b"; "../a"; "/../a"; "a/.."; ""; "a/b/"]
  = ["a/b.yml"; "a.yml"; "a/b"; "b"; "../a"; "/a"; "."; "."; "a/b"].
Proof. vm_compute. reflexivity. Qed.

Example path_examples :
  (is_ok ∘ ValidatePipelinePath) <$> [".yuanci.yml"; "ci/pipeline.yaml"; "/ci.yml"; "../ci.yml"; "ci/../x.yml"; "ci\x.yml"; "ci.json"]
  = [true; true; false; false; false; false; false].
Proof. vm_compute. reflexivity. Qed.

(** ** An accepted path names a file below the root of the repository *)

Lemma of_chars_app l k : of_chars (l ++ k) = of_chars l +:+ of_chars k.
Proof. apply (inj chars). by rewrite chars_app, !chars_of_chars. Qed.

Lemma split_bytes_no_sep sep l cur x :
  sep ∉ cur → x ∈ split_bytes sep l cur → sep ∉ chars x.
Proof.
  revert cur. induction l as [|c l IH]; intros cur Hcur; simpl.
  - intros ->%list_elem_of_singleton. rewrite chars_of_chars. by rewrite elem_of_reverse.
  - destruct (c =? sep) eqn:Hc; bools.
    + intros [->|Hx]%elem_of_cons; [by rewrite chars_of_chars, elem_of_reverse|].
      apply (IH []); [apply not_elem_of_nil|exact Hx].
    + apply IH. rewrite not_elem_of_cons. auto.
Qed.

Lemma split_bytes_app sep l k cur :
  sep ∉ l → split_bytes sep (l ++ k) cur = split_bytes sep k (reverse l ++ cur).
Proof.
  revert cur. induction l as [|c l IH]; intros cur Hl; [done|]. apply not_elem_of_cons in Hl as [Hc Hl]. simpl.
  rewrite bool_decide_eq_false_2 by done. rewrite IH by done. by rewrite reverse_cons, <-app_assoc.
Qed.

Lemma Split_Join sep parts :
  parts ≠ [] → (∀ x, x ∈ parts → sep ∉ chars x) → Split (Join parts (of_chars [sep])) sep = parts.
Proof.
  unfold Split. induction parts as [|p parts IH]; intros Hne Hsep; [done|].
  pose proof (Hsep p (list_elem_of_here _ _)) as Hp.
  assert (Hone : ∀ k, split_bytes sep (chars p ++ k) [] = split_bytes sep k (reverse (chars p))).
  { intros k. rewrite split_bytes_app by done. by rewrite app_nil_r. }
  destruct parts as [|q parts].
  - simpl. rewrite <-(app_nil_r (chars p)), Hone. simpl. by rewrite reverse_involutive, of_chars_chars.
  - change (Join (p :: q :: parts) (of_chars [sep])) with (p +:+ of_chars [sep] +:+ Join (q :: parts) (of_chars [sep])).
    rewrite !chars_app, chars_of_chars, Hone. simpl. rewrite bool_decide_eq_true_2 by done.
    rewrite reverse_involutive, of_chars_chars. f_equal. apply IH; [done|].
    intros x Hx. apply Hsep. by apply list_elem_of_further.
Qed.

Lemma Split_no_sep s sep x : x ∈ Split s sep → sep ∉ chars x.
Proof. apply split_bytes_no_sep, not_elem_of_nil. Qed.

Lemma clean_segments_plain segments out :
  Forall (λ s, s ≠ "." ∧ s ≠ "..") segments →
  clean_segments false segments out = reverse (filter (λ s, s ≠ "") segments) ++ out.
Proof.
  revert out. induction segments as [|x segments IH]; intros out; [done|]. intros [[H1 H2] Hrest]%Forall_cons. simpl.
  rewrite (bool_decide_eq_false_2 _ H1), (bool_decide_eq_false_2 _ H2), orb_false_r.
  destruct (decide (x = "")) as [->|Hx].
  - rewrite bool_decide_eq_true_2, filter_cons_False by (done || tauto). by apply IH.
  - rewrite bool_decide_eq_false_2, filter_cons_True by done. rewrite IH by done.
    by rewrite reverse_cons, <-app_assoc.
Qed.

Definition below_root (segments : list string) : Prop :=
  Forall (λ s, s ≠ "" ∧ s ≠ "." ∧ s ≠ "..") segments.

Lemma safe_segments value :
  HasPrefix value "/" = false → Clean value = value → unsafePathSegment value = false →
  below_root (Split value "/").
Proof.
  intros Hrel Hclean Hsafe.
  assert (Hplain : Forall (λ s, s ≠ "." ∧ s ≠ "..") (Split value "/")).
  { apply Forall_forall. intros x Hx. unfold unsafePathSegment in Hsafe.
    assert (Hf : (x =? ".") || (x =? "..") = false).
    { apply not_true_is_false. intros Ht. rewrite (proj2 (existsb_exists _ _)) in Hsafe; [done|].
      exists x. by rewrite <-list_elem_of_In. }
    by bools. }
  unfold Clean in Hclean. rewrite Hrel, clean_segments_plain, app_nil_r, reverse_involutive in Hclean by done.
  set (kept := filter (λ s, s ≠ "") (Split value "/")) in *.
  assert (Hkept : kept ≠ []).
  { intros Hk. rewrite Hk in Hclean. change ("." = value) in Hclean. rewrite <-Hclean in Hsafe. discriminate. }
  assert (Hnosep : ∀ x, x ∈ kept → "/"%char ∉ chars x).
  { intros x [_ Hx]%list_elem_of_filter. by eapply Split_no_sep. }
  assert (Heq : Split value "/" = kept).
  { rewrite <-(Split_Join "/" kept) by done. f_equal. symmetry. revert Hclean.
    destruct (_ =? "") eqn:He; [|by intros]. bools. intros <-. done. }
  unfold below_root. rewrite Forall_forall in Hplain |- *. intros x Hx. split; [|by apply Hplain].
  rewrite Heq in Hx. by apply list_elem_of_filter in Hx as [Hx _].
Qed.

Lemma ValidatePipelinePath_inv value :
  ValidatePipelinePath value = Ok tt →
  1 ≤ len value ≤ 256 ∧ below_root (Split value "/") ∧ Contains value "\" = false
  ∧ contains_control (chars value) = false ∧ (HasSuffix value ".yml" || HasSuffix value ".yaml") = true.
Proof.
  unfold ValidatePipelinePath. destruct (_ || _) eqn:H; [done|]. intros _. bools.
  split; [lia|]. split; [by apply safe_segments|]. split; [done|]. split; [done|].
  apply orb_true_iff. destruct H1 as [H1|H1]; bools; auto.
Qed.
