(* ===== verification/Hub.v ===== *)
(** The tables of webhooks, automation and integrations, and the durable inbox on them. *)

From S2P Require Import Prelude GoStd RunModel Pipeline Authorization Database GithubHook Automation Identity.

(** * internal/store/postgres: the tables of the webhook inbox, of the automation of
    projects and of their integrations (migrations 5, 10 to 13 and 18 to 20), beside
    the tables of the run store. *)

(** A row of [webhook_deliveries]. *)
Record deliveryRow := mkDeliveryRow {
  dl_id : uuid;
  dl_provider : string;
  dl_instance : string;
  dl_delivery_id : string;
  dl_event_type : string;
  dl_payload_sha256 : string;
  dl_event : option Event;            (** normalized_event *)
  dl_received_at : time;
  dl_status : string;
  dl_attempt_count : Z;
  dl_next_attempt_at : time;
  dl_lease : option (uuid * time);    (** lease_owner and lease_expires_at *)
  dl_processed_at : option time;
  dl_error : option string * option string;   (** error_code and error_summary *)
  dl_run : option uuid * option uuid;         (** repository_id and run_id *)
}.

Definition dl_set (status : string) (attempt : Z) (next : time) (lease : option (uuid * time))
    (processed : option time) (error : option string * option string) (run : option uuid * option uuid)
    (d : deliveryRow) : deliveryRow :=
  mkDeliveryRow (dl_id d) (dl_provider d) (dl_instance d) (dl_delivery_id d) (dl_event_type d)
    (dl_payload_sha256 d) (dl_event d) (dl_received_at d) status attempt next lease processed error run.

(** [NULLIF(text, '')] *)
Definition nullif (text : string) : option string := if text =? "" then None else Some text.

(** The columns of [repositories] that bind a repository to its host. *)
Record linkRow := mkLinkRow {
  lk_instance : string;               (** provider_instance *)
  lk_github_app : option Z;           (** app_id of its installation *)
  lk_gitee_grant : option uuid;       (** gitee_authorization_id *)
}.

(** The row of [github_app_configs], and whether its login configuration is active. *)
Record appRow := mkAppRow { ap_id : uuid; ap_app_id : Z; ap_login_active : bool }.

(** A row of [gitee_authorizations]; [gg_live] is the value of [liveGiteeGrant]. *)
Record grantRow := mkGrantRow {
  gg_status : string;
  gg_expires_at : time;
  gg_revision : uuid;
  gg_live : bool;
}.

Record giteeValidation := mkGiteeValidation {
  gv_grant_revision : uuid;
  gv_webhook_revision : Z;
  gv_settings_revision : Z;
  gv_pipeline_path : string;
}.

Record definitionRow := mkDefinitionRow {
  pd_id : uuid;
  pd_repository_id : uuid;
  pd_name : string;
  pd_config_path : string;
}.

Record versionRow := mkVersionRow {
  pv_id : uuid;
  pv_pipeline_id : uuid;
  pv_config_sha256 : string;
  pv_source_yaml : string;
  pv_compiled_plan : string;
}.

(** An audit event about a delivery, which is named by a text. *)
Record conflictRow := mkConflictRow {
  cf_delivery_id : string;
  cf_provider : string;
  cf_event_type : string;
  cf_payload_sha256 : string;
}.

Record hub := mkHub {
  hb_core : database;
  hb_deliveries : list deliveryRow;
  hb_conflicts : list conflictRow;
  hb_settings : gmap uuid AutomationSettings;       (** repository_automation_settings *)
  hb_validations : gmap uuid AutomationValidation;  (** repository_automation_validations *)
  hb_links : gmap uuid linkRow;
  hb_app : option appRow;
  hb_gitee_hooks : gmap uuid Z;                     (** gitee_webhook_configs.revision *)
  hb_gitee_grants : gmap uuid grantRow;
  hb_gitee_validations : gmap uuid giteeValidation;
  hb_gitee_accounts : gset uuid;                    (** organizations with an account *)
  hb_definitions : list definitionRow;
  hb_versions : list versionRow;
}.

Definition hb_now (h : hub) : time := db_now (hb_core h).

Definition with_core (x : database) (h : hub) : hub :=
  mkHub x (hb_deliveries h) (hb_conflicts h) (hb_settings h) (hb_validations h) (hb_links h) (hb_app h)
    (hb_gitee_hooks h) (hb_gitee_grants h) (hb_gitee_validations h) (hb_gitee_accounts h) (hb_definitions h) (hb_versions h).
Definition with_deliveries (x : list deliveryRow) (h : hub) : hub :=
  mkHub (hb_core h) x (hb_conflicts h) (hb_settings h) (hb_validations h) (hb_links h) (hb_app h)
    (hb_gitee_hooks h) (hb_gitee_grants h) (hb_gitee_validations h) (hb_gitee_accounts h) (hb_definitions h) (hb_versions h).
Definition with_conflicts (x : list conflictRow) (h : hub) : hub :=
  mkHub (hb_core h) (hb_deliveries h) x (hb_settings h) (hb_validations h) (hb_links h) (hb_app h)
    (hb_gitee_hooks h) (hb_gitee_grants h) (hb_gitee_validations h) (hb_gitee_accounts h) (hb_definitions h) (hb_versions h).
Definition with_settings (x : gmap uuid AutomationSettings) (h : hub) : hub :=
  mkHub (hb_core h) (hb_deliveries h) (hb_conflicts h) x (hb_validations h) (hb_links h) (hb_app h)
    (hb_gitee_hooks h) (hb_gitee_grants h) (hb_gitee_validations h) (hb_gitee_accounts h) (hb_definitions h) (hb_versions h).
Definition with_validations (x : gmap uuid AutomationValidation) (h : hub) : hub :=
  mkHub (hb_core h) (hb_deliveries h) (hb_conflicts h) (hb_settings h) x (hb_links h) (hb_app h)
    (hb_gitee_hooks h) (hb_gitee_grants h) (hb_gitee_validations h) (hb_gitee_accounts h) (hb_definitions h) (hb_versions h).
Definition with_pipelines (ds : list definitionRow) (vs : list versionRow) (h : hub) : hub :=
  mkHub (hb_core h) (hb_deliveries h) (hb_conflicts h) (hb_settings h) (hb_validations h) (hb_links h) (hb_app h)
    (hb_gitee_hooks h) (hb_gitee_grants h) (hb_gitee_validations h) (hb_gitee_accounts h) ds vs.

Definition with_gitee (hooks : gmap uuid Z) (validations : gmap uuid giteeValidation) (h : hub) : hub :=
  mkHub (hb_core h) (hb_deliveries h) (hb_conflicts h) (hb_settings h) (hb_validations h) (hb_links h) (hb_app h)
    hooks (hb_gitee_grants h) validations (hb_gitee_accounts h) (hb_definitions h) (hb_versions h).

(** [UPDATE webhook_deliveries SET f WHERE p]: the new table and the number of rows. *)
Definition update_deliveries (p : deliveryRow → bool) (f : deliveryRow → deliveryRow) (h : hub) : hub * Z :=
  (with_deliveries (update_all p f (hb_deliveries h)) h, count p (hb_deliveries h)).

(** A transaction over all tables. *)
Definition hub_transaction {A} (body : hub → result HookError (hub * A)) (h : hub) : hub * result HookError A :=
  match body h with
  | Ok (h', a) => (h', Ok a)
  | Err e => (h, Err e)
  end.

(** An operation on the tables of the run store inside such a transaction. *)
Definition on_core (body : database → result RunError database) (h : hub) : result HookError hub :=
  match body (hb_core h) with
  | Ok d => Ok (with_core d h)
  | Err e => Err (ErrStore e)
  end.

(** [liveGiteeGrant] with the state that a query asks for. *)
Definition gitee_grant (repository : uuid) (h : hub) : option grantRow :=
  link ← hb_links h !! repository;
  id ← lk_gitee_grant link;
  grant ← hb_gitee_grants h !! id;
  if (gg_status grant =? "active") && (hb_now h <? gg_expires_at grant) && gg_live grant then Some grant else None.

(** The active repositories of a provider. *)
Definition provider_repository (provider : string) (id : uuid) (h : hub) : option repositoryRow :=
  repository ← di_repositories (db_directory (hb_core h)) !! id;
  if rp_active repository && (rp_provider repository =? provider) then Some repository else None.

(** * internal/store/postgres/webhook_inbox.go: the durable inbox of webhook
    deliveries, with leases, retries and dead letters. *)

(** The key of a delivery. *)
Definition same_delivery (delivery : Delivery) (d : deliveryRow) : bool :=
  (dl_provider d =? de_Provider delivery) && (dl_instance d =? de_ProviderInstance delivery)
  && (dl_delivery_id d =? de_DeliveryID delivery).

Definition new_delivery (id : uuid) (delivery : Delivery) : deliveryRow :=
  mkDeliveryRow id (de_Provider delivery) (de_ProviderInstance delivery) (de_DeliveryID delivery)
    (de_EventType delivery) (de_PayloadSHA256 delivery) (Some (de_NormalizedEvent delivery)) (de_ReceivedAt delivery)
    "received" 0 (de_ReceivedAt delivery) None None (None, None) (None, None).

Definition ReceiveWebhook (new_id : uuid) (delivery : Delivery) (h : hub) : hub * result HookError Receipt :=
  if negb (ValidProviderInstance (de_Provider delivery) (de_ProviderInstance delivery))
     || (de_DeliveryID delivery =? "") || (de_EventType delivery =? "")
     || (len (de_PayloadSHA256 delivery) <>? 64) || (de_ReceivedAt delivery =? time_zero)
  then (h, Err ErrInvalidRequest)
  else match list_find (λ d, same_delivery delivery d = true) (hb_deliveries h) with
  | None =>
    if bool_decide (new_id ∈ dl_id <$> hb_deliveries h) then (h, Err (ErrStore ErrDatabase))
    else (with_deliveries (hb_deliveries h ++ [new_delivery new_id delivery]) h, Ok (mkReceipt new_id false))
  | Some (_, existing) =>
    if (dl_event_type existing <>? de_EventType delivery) || (dl_payload_sha256 existing <>? de_PayloadSHA256 delivery)
    then (with_conflicts (hb_conflicts h ++ [mkConflictRow (de_DeliveryID delivery) (de_Provider delivery)
            (de_EventType delivery) (de_PayloadSHA256 delivery)]) h, Err ErrConflict)
    else (h, Ok (mkReceipt (dl_id existing) true))
  end.

(** ** Claim *)

Definition deliverable (now : time) (d : deliveryRow) : bool :=
  (dl_status d =? "received") && bool_decide (is_Some (dl_event d)) && (dl_next_attempt_at d <=? now).

(** [ORDER BY next_attempt_at, received_at, id] *)
Definition delivery_before (a b : deliveryRow) : bool :=
  (dl_next_attempt_at a <? dl_next_attempt_at b)
  || ((dl_next_attempt_at a =? dl_next_attempt_at b) && before (dl_received_at a) (dl_id a) (dl_received_at b) (dl_id b)).

Definition claimed_delivery (lease : uuid) (expires : time) (d : deliveryRow) : deliveryRow :=
  dl_set "processing" (dl_attempt_count d + 1) (dl_next_attempt_at d) (Some (lease, expires)) (dl_processed_at d)
    (dl_error d) (dl_run d) d.

(** [locked]: the rows that other transactions hold; [app_now]: the clock of the server process. *)
Definition ClaimWebhook (locked : uuid → bool) (leaseID : uuid) (app_now : time) (leaseDuration : duration) (h : hub)
    : hub * result HookError WorkItem :=
  if (leaseDuration <? Second) || (10 * Minute <? leaseDuration) then (h, Err ErrHookLeaseInvalid)
  else
    let expires := app_now + leaseDuration in
    match least_row delivery_before
            (List.filter (λ d, deliverable (hb_now h) d && negb (locked (dl_id d))) (hb_deliveries h)) with
    | None => (h, Err ErrNoDelivery)
    | Some d =>
      let h := (update_deliveries (λ x, dl_id x =? dl_id d) (claimed_delivery leaseID expires) h).1 in
      match dl_event d with
      | Some event => (h, Ok (mkWorkItem (dl_id d) leaseID event (dl_attempt_count d + 1) expires))
      | None => (h, Err ErrOther)
      end
    end.

(** ** Finalization *)

(** [status='processing' AND lease_owner=$2] *)
Definition delivery_held (id lease : uuid) (d : deliveryRow) : bool :=
  (dl_id d =? id) && (dl_status d =? "processing")
  && match dl_lease d with Some (owner, _) => owner =? lease | None => false end.

(** [AND lease_expires_at>clock_timestamp()] *)
Definition lease_live (now : time) (d : deliveryRow) : bool :=
  match dl_lease d with Some (_, expires) => now <? expires | None => false end.

Definition finalized_delivery (now : time) (request : Finalize) (d : deliveryRow) : deliveryRow :=
  let processed := fz_State request <>? FinalRetry in
  dl_set (if processed then fz_State request else "received") (dl_attempt_count d)
    (if processed then dl_next_attempt_at d else fz_NextAttempt request) None
    (if processed then Some now else None)
    (nullif (fz_ErrorCode request), nullif (fz_ErrorSummary request)) (dl_run d) d.

Definition FinalizeWebhook (app_now : time) (request : Finalize) (h : hub) : hub * result HookError unit :=
  if (fz_ID request =? uuid_Nil) || (fz_LeaseID request =? uuid_Nil) || (64 <? len (fz_ErrorCode request))
     || (1024 <? len (fz_ErrorSummary request))
  then (h, Err ErrHookLeaseInvalid)
  else if (fz_State request =? FinalRetry) && negb (app_now <? fz_NextAttempt request)
  then (h, Err ErrHookLeaseInvalid)
  else if negb (bool_decide (fz_State request ∈ [FinalRetry; FinalProcessed; FinalIgnored; FinalDead]))
  then (h, Err ErrHookLeaseInvalid)
  else
    let '(h', rows) :=
      update_deliveries (λ d, delivery_held (fz_ID request) (fz_LeaseID request) d && lease_live (hb_now h) d)
        (finalized_delivery (hb_now h) request) h in
    if rows <>? 1 then (h, Err ErrHookLeaseInvalid) else (h', Ok tt).

(** ** Recovery *)

Definition stale_delivery (now : time) (d : deliveryRow) : bool :=
  (dl_status d =? "processing") && match dl_lease d with Some (_, expires) => expires <=? now | None => false end.

(** [ORDER BY lease_expires_at, id] *)
Definition delivery_deadline (d : deliveryRow) : time := match dl_lease d with Some (_, expires) => expires | None => 0 end.
Definition delivery_stale_before (a b : deliveryRow) : Prop :=
  before (delivery_deadline a) (dl_id a) (delivery_deadline b) (dl_id b) = true.
#[local] Instance delivery_stale_before_dec : RelDecision delivery_stale_before.
Proof. intros a b. unfold delivery_stale_before. apply _. Defined.

Definition recovered_delivery (now : time) (d : deliveryRow) : deliveryRow :=
  let exhausted := MaxAttempts <=? dl_attempt_count d in
  dl_set (if exhausted then "dead_letter" else "received") (dl_attempt_count d) now None
    (if exhausted then Some now else None)
    (if exhausted then Some "lease_recovery_exhausted" else (dl_error d).1,
     if exhausted then Some "Webhook processing repeatedly lost its worker lease" else (dl_error d).2)
    (dl_run d) d.

Definition expired_deliveries (locked : uuid → bool) (limit : Z) (h : hub) : list deliveryRow :=
  take (Z.to_nat limit) (merge_sort delivery_stale_before
    (List.filter (λ d, stale_delivery (hb_now h) d && negb (locked (dl_id d))) (hb_deliveries h))).

Definition RecoverWebhookLeases (locked : uuid → bool) (limit : Z) (h : hub) : hub * result HookError Z :=
  if (limit <? 1) || (1000 <? limit) then (h, Err ErrHookLeaseInvalid)
  else
    let expired := dl_id <$> expired_deliveries locked limit h in
    let '(h, rows) := update_deliveries (λ d, bool_decide (dl_id d ∈ expired)) (recovered_delivery (hb_now h)) h in
    (h, Ok rows).
