(* ===== verification/PgAutomation.v ===== *)
(** internal/store/postgres/project_automation.go and the settings of Gitee projects
    in gitee_automation.go: the automation settings of a project, guarded by a
    revision and by the proof that the pipeline was validated. *)

From S2P Require Import Prelude GoStd Regex RunModel Authorization Database Identity GithubHook Automation Hub.

Section PgAutomation.
Variable sha256 : string → string.

Definition lift {A} (r : result RunError A) : result HookError A :=
  match r with Ok a => Ok a | Err e => Err (ErrStore e) end.

(** The session of a token, when it may perform an action on a project. *)
Definition project_session (token : string) (id : uuid) (action : Action) (h : hub) : result HookError Session :=
  let? session := lift (authenticateSession sha256 token (hb_core h)) in
  let? _ := lift (authorize session (mkScope Project id) action (hb_core h)) in
  Ok session.

(** [waited] passes before the session is checked again. *)
Definition still_live (waited : duration) (session : Session) (h : hub) : result HookError hub :=
  let h := with_core (elapse waited (hb_core h)) h in
  let? _ := lift (sessionLive session (hb_core h)) in
  Ok h.

Definition GetProjectAutomation (waited : duration) (token : string) (id : uuid)
    : hub → hub * result HookError AutomationSettings :=
  hub_transaction (λ h,
    let? session := project_session token id ResourceRead h in
    let settings := default DefaultAutomationSettings (hb_settings h !! id) in
    let? h := still_live waited session h in
    Ok (h, settings)).

(** The row that an update writes. *)
Definition updated_settings (update : AutomationUpdate) (row : option AutomationSettings) : AutomationSettings :=
  {| as_Enabled := up_Enabled update; as_PipelinePath := up_PipelinePath update;
     as_TriggerPush := up_TriggerPush update; as_TriggerTag := up_TriggerTag update;
     as_TriggerPullRequest := up_TriggerPullRequest update;
     as_CancelOlderCommits := up_CancelOlderCommits update;
     as_Revision := match row with Some old => as_Revision old + 1 | None => 1 end |}.

(** The revision of the GitHub App behind an active repository. *)
Definition app_revision (id : uuid) (h : hub) : option uuid :=
  _ ← provider_repository "github" id h;
  link ← hb_links h !! id;
  app_id ← lk_github_app link;
  app ← hb_app h;
  if (ap_app_id app =? app_id) && ap_login_active app then Some (ap_id app) else None.

Definition github_ready (id : uuid) (current : Z) (pipelinePath : string) (h : hub) : bool :=
  match hb_validations h !! id, app_revision id h with
  | Some v, Some revision =>
    (revision =? va_AppRevision v) && (va_SettingsRevision v =? current) && (va_PipelinePath v =? pipelinePath)
  | _, _ => false
  end.

Definition gitee_ready (id : uuid) (current : Z) (pipelinePath : string) (h : hub) : bool :=
  match hb_gitee_validations h !! id, provider_repository "gitee" id h, hb_gitee_hooks h !! id, gitee_grant id h with
  | Some v, Some _, Some revision, Some grant =>
    (revision =? gv_webhook_revision v) && (gg_revision grant =? gv_grant_revision v)
    && (gv_settings_revision v =? current) && (gv_pipeline_path v =? pipelinePath)
  | _, _, _, _ => false
  end.

(** [locked_for]: the wait for the lock of the repository. *)
Definition UpdateProjectAutomation (locked_for waited : duration) (token : string) (id : uuid) (update : AutomationUpdate)
    : hub → hub * result HookError AutomationSettings :=
  match AutomationUpdate_Validate update with
  | Err e => λ h, (h, Err e)
  | Ok _ => hub_transaction (λ h,
    let? session := project_session token id RepositoryManage h in
    let h := with_core (elapse locked_for (hb_core h)) h in
    let row := hb_settings h !! id in
    let current := match row with Some old => as_Revision old | None => 0 end in
    fail_if current <>? up_ExpectedRevision update with ErrAutomationConflict;;
    fail_if up_Enabled update && negb (github_ready id current (up_PipelinePath update) h)
      && negb (gitee_ready id current (up_PipelinePath update) h) with ErrAutomationNotReady;;
    let settings := updated_settings update row in
    let h := with_settings (<[id := settings]> (hb_settings h)) h in
    let? h := still_live waited session h in
    Ok (with_core (append_audit (Some (ss_UserID session)) "repository.automation_updated" "repository" id (hb_core h)) h,
        settings))
  end.

(** [COALESCE(s.pipeline_path,$2),COALESCE(s.revision,0)] *)
Definition current_settings (id : uuid) (h : hub) : string * Z :=
  match hb_settings h !! id with
  | Some s => (as_PipelinePath s, as_Revision s)
  | None => (DefaultPipelinePath, 0)
  end.

Definition GetProjectAutomationValidationTarget (waited : duration) (token : string) (id : uuid) (expectedRevision : Z)
    : hub → hub * result HookError AutomationValidationTarget :=
  if (id =? uuid_Nil) || (expectedRevision <? 0) then λ h, (h, Err ErrAutomationInvalid)
  else hub_transaction (λ h,
    let? session := project_session token id RepositoryManage h in
    match di_repositories (db_directory (hb_core h)) !! id with
    | Some repository =>
      fail_if negb (rp_active repository && bool_decide (rp_provider repository ∈ ["github"; "gitee"]))
        with ErrStore ErrForbidden;;
      let '(pipelinePath, revision) := current_settings id h in
      fail_if revision <>? expectedRevision with ErrAutomationConflict;;
      let? h := still_live waited session h in
      Ok (h, mkValidationTarget (rp_provider repository) (rp_external_id repository) pipelinePath revision)
    | None => Err (ErrStore ErrForbidden)
    end).

Definition RecordProjectAutomationValidation (locked_for waited : duration) (token : string) (validation : AutomationValidation)
    : hub → hub * result HookError unit :=
  match AutomationValidation_Validate validation with
  | Err e => λ h, (h, Err e)
  | Ok _ => hub_transaction (λ h,
    let id := va_RepositoryID validation in
    let? session := project_session token id RepositoryManage h in
    let h := with_core (elapse locked_for (hb_core h)) h in
    match app_revision id h with
    | None => Err ErrAutomationNotReady
    | Some appRevision =>
      let '(pipelinePath, revision) := current_settings id h in
      fail_if (revision <>? va_SettingsRevision validation) || (pipelinePath <>? va_PipelinePath validation)
        || (appRevision <>? va_AppRevision validation) with ErrAutomationConflict;;
      let h := with_validations (<[id := validation]> (hb_validations h)) h in
      let? h := still_live waited session h in
      Ok (with_core (append_audit (Some (ss_UserID session)) "repository.automation_validated" "repository" id (hb_core h)) h, tt)
    end)
  end.

(** ** gitee_automation.go *)

(** [gitee.Binding], without the columns that only describe the repository. *)
Record Binding := mkBinding {
  bd_ID : string;
  bd_ProjectID : uuid;
  bd_GrantID : uuid;
  bd_HookRevision : Z;
}.

(** [giteeBindingQuery] for one project. *)
Definition gitee_binding (id : uuid) (h : hub) : option Binding :=
  repository ← provider_repository "gitee" id h;
  link ← hb_links h !! id;
  grantID ← lk_gitee_grant link;
  grant ← hb_gitee_grants h !! grantID;
  if (lk_instance link =? "https://gitee.com") && bool_decide (rp_organization_id repository ∈ hb_gitee_accounts h)
     && (gg_status grant <>? "revoked") && gg_live grant
  then Some (mkBinding (rp_external_id repository) id grantID (default 0 (hb_gitee_hooks h !! id))) else None.

(** The error [gitee.ErrStale] of a binding that is gone. *)
Definition ErrStale : HookError := ErrOther.

Definition giteeProjectTx {A} (locked_for waited : duration) (token : string) (id : uuid)
    (fn : Session → Binding → hub → result HookError (hub * A)) : hub → hub * result HookError A :=
  hub_transaction (λ h,
    let? session := project_session token id RepositoryManage h in
    let h := with_core (elapse locked_for (hb_core h)) h in
    match gitee_binding id h with
    | None => Err ErrStale
    | Some binding =>
      let? '(h, a) := fn session binding h in
      let? h := still_live waited session h in
      Ok (h, a)
    end).

Definition GiteeProject (locked_for waited : duration) (token : string) (id : uuid) : hub → hub * result HookError Binding :=
  giteeProjectTx locked_for waited token id (λ _ binding h, Ok (h, binding)).

(** The encrypted secret itself is not part of the model. *)
Definition SaveGiteeWebhook (locked_for waited : duration) (token : string) (expected : Binding)
    : hub → hub * result HookError unit :=
  giteeProjectTx locked_for waited token (bd_ProjectID expected) (λ session current h,
    fail_if (bd_HookRevision current <>? bd_HookRevision expected) || (bd_ID current <>? bd_ID expected)
      with ErrAutomationConflict;;
    let id := bd_ProjectID current in
    let revision := match hb_gitee_hooks h !! id with Some revision => revision + 1 | None => 1 end in
    let h := with_gitee (<[id := revision]> (hb_gitee_hooks h)) (hb_gitee_validations h) h in
    Ok (with_core (append_audit (Some (ss_UserID session)) "gitee.webhook_configured" "repository" id (hb_core h)) h, tt)).

(** [giteeAutomation] *)
Definition giteeAutomation (id : uuid) (h : hub) : AutomationSettings :=
  default (mkAutomationSettings false ".yuanci.yml" true true true true 0) (hb_settings h !! id).

Definition GiteeValidationTarget (locked_for waited : duration) (token : string) (id : uuid) (revision : Z)
    : hub → hub * result HookError (Binding * AutomationSettings) :=
  giteeProjectTx locked_for waited token id (λ _ binding h,
    let settings := giteeAutomation id h in
    fail_if as_Revision settings <>? revision with ErrAutomationConflict;;
    fail_if bd_HookRevision binding =? 0 with ErrAutomationNotReady;;
    Ok (h, (binding, settings))).

(** [githubapp.ValidationProof] *)
Record ValidationProof := mkValidationProof {
  pr_RepositoryID : uuid;
  pr_AppRevision : uuid;
  pr_CommitSHA : string;
  pr_ConfigSHA256 : string;
  pr_PipelineName : string;
}.

(** [CHECK (commit_sha ~ '^[0-9a-f]{40}$')] and its like for the digest (migration 20). *)
Definition proof_allowed (proof : ValidationProof) : bool :=
  re_match lowercaseHex (pr_CommitSHA proof) && re_match lowercaseHex (pr_ConfigSHA256 proof).

Definition RecordGiteeValidation (locked_for waited : duration) (token : string) (expected : Binding)
    (settings : AutomationSettings) (proof : ValidationProof) : hub → hub * result HookError unit :=
  if (pr_RepositoryID proof <>? bd_ProjectID expected) || (pr_AppRevision proof =? uuid_Nil)
     || (len (pr_CommitSHA proof) <>? 40) || (len (pr_ConfigSHA256 proof) <>? 64)
  then λ h, (h, Err ErrAutomationInvalid)
  else giteeProjectTx locked_for waited token (bd_ProjectID expected) (λ session binding h,
    let id := bd_ProjectID binding in
    let current := giteeAutomation id h in
    fail_if (bd_HookRevision binding <>? bd_HookRevision expected) || (bd_GrantID binding <>? bd_GrantID expected)
      || (as_Revision current <>? as_Revision settings) || (as_PipelinePath current <>? as_PipelinePath settings)
      with ErrAutomationConflict;;
    match hb_gitee_grants h !! bd_GrantID binding with
    | Some grant =>
      fail_if negb ((gg_status grant =? "active") && (hb_now h <? gg_expires_at grant)) with ErrStale;;
      fail_if gg_revision grant <>? pr_AppRevision proof with ErrAutomationConflict;;
      fail_if negb (proof_allowed proof) with ErrStore ErrDatabase;;
      let h := with_gitee (hb_gitee_hooks h) (<[id := mkGiteeValidation (gg_revision grant) (bd_HookRevision binding)
                 (as_Revision current) (as_PipelinePath current)]> (hb_gitee_validations h)) h in
      Ok (with_core (append_audit (Some (ss_UserID session)) "gitee.automation_validated" "repository" id (hb_core h)) h, tt)
    | None => Err ErrStale
    end).
End PgAutomation.
