(* ===== verification/GithubCI.v ===== *)
(** Deliveries become runs: the transactions of internal/store/postgres/github_ci.go and the
    orchestrator of internal/githubci. *)

From S2P Require Import Prelude GoStd Codecs RunModel Pipeline Authorization Database Identity PgStore GithubHook Automation Hub PgAutomation Compiler.

(** * internal/store/postgres/github_ci.go, with the lock of gitee_automation.go and the
    requests of internal/githubci/store.go: a leased delivery and the run that it
    starts are committed in one transaction. *)

Record RunCommit := mkRunCommit {
  cm_Delivery : WorkItem;
  cm_RepositoryID : uuid;
  cm_PipelinePath : string;
  cm_PipelineSource : string;
  cm_Plan : Plan;
  cm_CreatedAt : time;
}.

Record FailedRunCommit := mkFailedRunCommit {
  fc_Delivery : WorkItem;
  fc_RepositoryID : uuid;
  fc_PipelinePath : string;
  fc_ConfigSHA256 : string;
  fc_ErrorCode : string;
  fc_ErrorSummary : string;
  fc_CreatedAt : time;
}.

Record RunResult := mkRunResult { rs_ID : uuid; rs_Created : bool }.

(** ** Settings *)

(** The settings of an active repository, or the defaults of the query. *)
Definition runtime_settings (id : uuid) (h : hub) : AutomationSettings :=
  default (mkAutomationSettings false ".yuanci.yml" true true true true 0) (hb_settings h !! id).

Definition RuntimeAutomation (repositoryID : uuid) (h : hub) : result HookError AutomationSettings :=
  if repositoryID =? uuid_Nil then Err ErrInvalidCommit
  else match di_repositories (db_directory (hb_core h)) !! repositoryID with
  | Some repository => if rp_active repository then Ok (runtime_settings repositoryID h) else Err ErrRepositoryUnavailable
  | None => Err ErrRepositoryUnavailable
  end.

(** The columns [provider], [provider_instance] and [external_id] name one repository. *)
Definition bound_repository (provider instance externalID : string) (h : hub) (row : uuid * repositoryRow) : Prop :=
  rp_provider row.2 = provider ∧ rp_external_id row.2 = externalID ∧ rp_active row.2 = true
  ∧ (lk_instance <$> hb_links h !! row.1) = Some instance.
#[export] Instance bound_repository_dec provider instance externalID h row :
  Decision (bound_repository provider instance externalID h row).
Proof. unfold bound_repository. apply _. Defined.

Definition RuntimeAutomationForProvider (provider externalID : string) (h : hub)
    : result HookError (uuid * AutomationSettings) :=
  if (provider <>? Gitee) && (provider <>? GitHub) then Err ErrRepositoryUnavailable
  else
    let instance := if provider =? Gitee then GiteeInstance else GitHubInstance in
    if negb (ValidGitHubSubject externalID) then Err ErrRepositoryUnavailable
    else match list_find (bound_repository provider instance externalID h)
                 (map_to_list (di_repositories (db_directory (hb_core h)))) with
    | Some (_, (id, _)) => Ok (id, runtime_settings id h)
    | None => Err ErrRepositoryUnavailable
    end.

Definition RuntimeAutomationForGitHub (externalID : string) (h : hub) : result HookError (uuid * AutomationSettings) :=
  RuntimeAutomationForProvider GitHub externalID h.

(** ** Validation *)

Definition delivery_invalid (delivery : WorkItem) (repositoryID : uuid) : bool :=
  let event := wi_Event delivery in
  (wi_ID delivery =? uuid_Nil) || (wi_LeaseID delivery =? uuid_Nil) || (repositoryID =? uuid_Nil)
  || ((ev_Provider event <>? GitHub) && (ev_Provider event <>? Gitee))
  || (ev_DeliveryID event =? "") || (ev_AfterSHA event =? "").

Definition validateWebhookRunCommit (request : RunCommit) : result HookError unit :=
  let plan := cm_Plan request in
  fail_if delivery_invalid (cm_Delivery request) (cm_RepositoryID request)
    || (pn_Version plan <>? APIVersion) || (pn_Name plan =? "") || (len (pn_ConfigSHA256 plan) <>? 64)
    || (len (cm_PipelineSource request) =? 0) || (2 ^ 20 <? len (cm_PipelineSource request))
    || (cm_CreatedAt request =? time_zero) || negb (is_ok (ValidatePipelinePath (cm_PipelinePath request)))
    with ErrInvalidCommit;;
  Ok tt.

Definition validateWebhookFailedRunCommit (request : FailedRunCommit) : result HookError unit :=
  fail_if delivery_invalid (fc_Delivery request) (fc_RepositoryID request)
    || (len (fc_ConfigSHA256 request) <>? 64) || (fc_CreatedAt request =? time_zero)
    || ((fc_ErrorCode request <>? "pipeline_not_found") && (fc_ErrorCode request <>? "pipeline_invalid"))
    || (fc_ErrorSummary request =? "") || (1024 <? len (fc_ErrorSummary request))
    || negb (is_ok (ValidatePipelinePath (fc_PipelinePath request)))
    with ErrInvalidCommit;;
  match hex_decode (chars (fc_ConfigSHA256 request)) with
  | Some decoded => if (length decoded =? 32)%nat then Ok tt else Err ErrInvalidCommit
  | None => Err ErrInvalidCommit
  end.

Section Commit.
(** [uuid.UUID.String], and the JSON encoder and decoder of plans. *)
Variable uuid_String : uuid → string.
Variable json_marshal : Plan → string.
Variable json_unmarshal : string → option Plan.

(** [FOR UPDATE] of the leased delivery. *)
Definition leased_delivery (item : WorkItem) (h : hub) : option deliveryRow :=
  '(_, d) ← list_find (λ d, delivery_held (wi_ID item) (wi_LeaseID item) d && lease_live (hb_now h) d = true)
    (hb_deliveries h);
  Some d.

Definition trigger_matches (event_type : string) (s : AutomationSettings) : bool :=
  ((event_type =? "push") && as_TriggerPush s) || ((event_type =? "tag") && as_TriggerTag s)
  || ((event_type =? "pull_request") && as_TriggerPullRequest s).

Definition lockGiteeDelivery (item : WorkItem) (id : uuid) (path : string) (h : hub) : result HookError unit :=
  let event := wi_Event item in
  if (ev_Type event =? EventPullRequest) && (metadata event "fork" <>? "false") then Err ErrInvalidCommit
  else match provider_repository "gitee" id h, hb_links h !! id, hb_gitee_hooks h !! id, gitee_grant id h, hb_settings h !! id with
  | Some repository, Some link, Some revision, Some _, Some s =>
    match list_find (λ d, dl_id d = wi_ID item ∧ dl_provider d = "gitee" ∧ dl_event d = Some event) (hb_deliveries h) with
    | Some (_, d) =>
      if as_Enabled s && (lk_instance link =? GiteeInstance)
         && (rp_external_id repository =? re_ExternalID (ev_Repository event))
         && bool_decide (ev_Metadata event !! "webhook_revision" = Some (FormatInt revision))
         && (as_PipelinePath s =? path) && trigger_matches (dl_event_type d) s
      then Ok tt else Err ErrInvalidCommit
    | None => Err ErrInvalidCommit
    end
  | _, _, _, _, _ => Err ErrInvalidCommit
  end.

Definition lock_delivery (item : WorkItem) (id : uuid) (path : string) (h : hub) : result HookError deliveryRow :=
  match leased_delivery item h with
  | None => Err ErrHookLeaseInvalid
  | Some d =>
    let? _ := (if ev_Provider (wi_Event item) =? Gitee then lockGiteeDelivery item id path h else Ok tt) in Ok d
  end.

Definition webhook_key (item : WorkItem) : string :=
  ev_Provider (wi_Event item) +:+ "-webhook:" +:+ uuid_String (wi_ID item).

Definition existing_run (item : WorkItem) (h : hub) : option RunRecord :=
  '(_, r) ← list_find (λ r, rn_IdempotencyKey r = webhook_key item) (db_runs (hb_core h)); Some r.

(** The run that was started for the same delivery. *)
Definition same_run (item : WorkItem) (repositoryID : uuid) (name config : string) (r : RunRecord) : bool :=
  bool_decide (rn_ProjectID r = Some repositoryID) && (rn_CommitSHA r =? ev_AfterSHA (wi_Event item))
  && (rn_Event r =? ev_Type (wi_Event item)) && (rn_PipelineName r =? name) && (rn_ConfigSHA256 r =? config).

Definition processed_delivery (now : time) (repositoryID runID : uuid) (error : option string * option string)
    (d : deliveryRow) : deliveryRow :=
  dl_set "processed" (dl_attempt_count d) (dl_next_attempt_at d) None (Some now) error (Some repositoryID, Some runID) d.

(** The delivery ends with its run; an error belongs to a failed run. *)
Definition complete_delivery (item : WorkItem) (repositoryID runID : uuid) (error : option string * option string)
    (h : hub) : result HookError hub :=
  let '(h', rows) := update_deliveries (delivery_held (wi_ID item) (wi_LeaseID item))
    (processed_delivery (hb_now h) repositoryID runID error) h in
  if rows <>? 1 then Err ErrHookLeaseInvalid else Ok h'.

Definition finishWebhookRun (request : RunCommit) (runID : uuid) (h : hub) : result HookError hub :=
  complete_delivery (cm_Delivery request) (cm_RepositoryID request) runID (None, None) h.

(** [ON CONFLICT(repository_id,name) DO UPDATE SET config_path] *)
Definition put_definition (new_id repositoryID : uuid) (name path : string) (l : list definitionRow)
    : list definitionRow * uuid :=
  match list_find (λ d, pd_repository_id d = repositoryID ∧ pd_name d = name) l with
  | Some (_, d) =>
    (update_all (λ x, pd_id x =? pd_id d) (λ x, mkDefinitionRow (pd_id x) repositoryID name path) l, pd_id d)
  | None => (l ++ [mkDefinitionRow new_id repositoryID name path], new_id)
  end.

(** [ON CONFLICT(pipeline_id,config_sha256) DO NOTHING], then the row that is there. *)
Definition put_version (new_id definitionID : uuid) (config source plan : string) (l : list versionRow)
    : list versionRow * uuid :=
  match list_find (λ v, pv_pipeline_id v = definitionID ∧ pv_config_sha256 v = config) l with
  | Some (_, v) => (l, pv_id v)
  | None => (l ++ [mkVersionRow new_id definitionID config source plan], new_id)
  end.

(** The identifiers that a transaction draws. *)
Record CommitIDs := mkCommitIDs {
  id_run : uuid;
  id_definition : uuid;
  id_version : uuid;
  id_outbox : uuid;
  id_jobs : nat → uuid;
}.

Definition webhook_run (ids : CommitIDs) (request : RunCommit) (versionID : uuid) : RunRecord :=
  let event := wi_Event (cm_Delivery request) in
  {| rn_ID := id_run ids; rn_ProjectID := Some (cm_RepositoryID request); rn_CreatedBy := None;
     rn_PipelineVersionID := Some versionID; rn_IdempotencyKey := webhook_key (cm_Delivery request);
     rn_PipelineName := pn_Name (cm_Plan request); rn_Event := ev_Type event; rn_Ref := ev_Ref event;
     rn_CommitSHA := ev_AfterSHA event; rn_Status := StatusQueued;
     rn_ConfigSHA256 := pn_ConfigSHA256 (cm_Plan request); rn_Plan := json_marshal (cm_Plan request);
     rn_CreatedAt := cm_CreatedAt request; rn_StartedAt := None; rn_FinishedAt := None |}.

Definition create_webhook_run (ids : CommitIDs) (request : RunCommit) (h : hub) : result HookError (hub * RunResult) :=
  let plan := cm_Plan request in
  let '(definitions, definitionID) :=
    put_definition (id_definition ids) (cm_RepositoryID request) (pn_Name plan) (cm_PipelinePath request) (hb_definitions h) in
  let '(versions, versionID) :=
    put_version (id_version ids) definitionID (pn_ConfigSHA256 plan) (cm_PipelineSource request) (json_marshal plan) (hb_versions h) in
  let h := with_pipelines definitions versions h in
  let? h := on_core (insertRun uuid_String json_unmarshal (id_outbox ids) (id_jobs ids) (webhook_run ids request versionID)) h in
  let? h := finishWebhookRun request (id_run ids) h in
  Ok (with_core (append_audit None "webhook.run_created" "run" (id_run ids) (hb_core h)) h, mkRunResult (id_run ids) true).

Definition CommitWebhookRun (ids : CommitIDs) (request : RunCommit) : hub → hub * result HookError RunResult :=
  match validateWebhookRunCommit request with
  | Err e => λ h, (h, Err e)
  | Ok _ => hub_transaction (λ h,
    let item := cm_Delivery request in
    let? _ := lock_delivery item (cm_RepositoryID request) (cm_PipelinePath request) h in
    match existing_run item h with
    | Some r =>
      fail_if negb (same_run item (cm_RepositoryID request) (pn_Name (cm_Plan request)) (pn_ConfigSHA256 (cm_Plan request)) r)
        with ErrInvalidCommit;;
      let? h := finishWebhookRun request (rn_ID r) h in
      Ok (h, mkRunResult (rn_ID r) false)
    | None => create_webhook_run ids request h
    end)
  end.

Definition failed_plan (request : FailedRunCommit) : Plan :=
  mkPlan APIVersion (fc_PipelinePath request) (fc_ConfigSHA256 request) (fc_CreatedAt request) [].

Definition failed_run (ids : CommitIDs) (request : FailedRunCommit) : RunRecord :=
  let event := wi_Event (fc_Delivery request) in
  {| rn_ID := id_run ids; rn_ProjectID := Some (fc_RepositoryID request); rn_CreatedBy := None;
     rn_PipelineVersionID := None; rn_IdempotencyKey := webhook_key (fc_Delivery request);
     rn_PipelineName := fc_PipelinePath request; rn_Event := ev_Type event; rn_Ref := ev_Ref event;
     rn_CommitSHA := ev_AfterSHA event; rn_Status := StatusFailed; rn_ConfigSHA256 := fc_ConfigSHA256 request;
     rn_Plan := json_marshal (failed_plan request); rn_CreatedAt := fc_CreatedAt request; rn_StartedAt := None;
     rn_FinishedAt := Some (fc_CreatedAt request) |}.

Definition failure_error (request : FailedRunCommit) : option string * option string :=
  (Some (fc_ErrorCode request), Some (fc_ErrorSummary request)).

Definition create_failed_run (ids : CommitIDs) (request : FailedRunCommit) (h : hub) : result HookError (hub * RunResult) :=
  let? h := on_core (insertRun uuid_String json_unmarshal (id_outbox ids) (id_jobs ids) (failed_run ids request)) h in
  let? h := complete_delivery (fc_Delivery request) (fc_RepositoryID request) (id_run ids) (failure_error request) h in
  Ok (with_core (append_audit None "webhook.run_failed" "run" (id_run ids) (hb_core h)) h, mkRunResult (id_run ids) true).

Definition CommitWebhookFailedRun (ids : CommitIDs) (request : FailedRunCommit) : hub → hub * result HookError RunResult :=
  match validateWebhookFailedRunCommit request with
  | Err e => λ h, (h, Err e)
  | Ok _ => hub_transaction (λ h,
    let item := fc_Delivery request in
    let? _ := lock_delivery item (fc_RepositoryID request) (fc_PipelinePath request) h in
    match existing_run item h with
    | Some r =>
      fail_if negb (same_run item (fc_RepositoryID request) (fc_PipelinePath request) (fc_ConfigSHA256 request) r)
        || (rn_Status r <>? StatusFailed) with ErrInvalidCommit;;
      let? h := complete_delivery item (fc_RepositoryID request) (rn_ID r) (failure_error request) h in
      Ok (h, mkRunResult (rn_ID r) false)
    | None => create_failed_run ids request h
    end)
  end.
End Commit.

(** * internal/githubci/orchestrator.go and worker.go: a claimed delivery is turned
    into a run, ignored, retried later or given up. *)

Definition retryBaseDelay : duration := 5 * Second.
Definition retryMaxDelay : duration := 15 * Minute.

Abbreviation Outcome := string (only parsing).
Definition OutcomeIgnoredDisabled : Outcome := "ignored_disabled".
Definition OutcomeIgnoredFork : Outcome := "ignored_fork".
Definition OutcomeIgnoredTrigger : Outcome := "ignored_trigger".
Definition OutcomeRunCreated : Outcome := "run_created".
Definition OutcomeRunReused : Outcome := "run_reused".
Definition OutcomeFailedRunCreated : Outcome := "failed_run_created".
Definition OutcomeFailedRunReused : Outcome := "failed_run_reused".
Definition OutcomeRetryScheduled : Outcome := "retry_scheduled".
Definition OutcomeDeadLettered : Outcome := "dead_lettered".

(** ** Failures *)

Record failureClass := mkFailureClass { fl_transient : bool; fl_code : string; fl_summary : string }.

Definition classifyFailure (e : HookError) : failureClass :=
  match e with
  | ErrRateLimited =>
    mkFailureClass true "github_rate_limited" "GitHub API rate limit delayed delivery processing"
  | ErrInterrupted =>
    mkFailureClass true "processing_interrupted" "GitHub delivery processing was interrupted"
  | ErrUnauthorized | ErrCredentialUnavailable =>
    mkFailureClass false "credential_unavailable" "GitHub repository credential is unavailable"
  | ErrNotFound =>
    mkFailureClass false "pipeline_not_found" "Pipeline configuration was not found at the event commit"
  | ErrInvalidPipeline => mkFailureClass false "pipeline_invalid" "Pipeline configuration is invalid"
  | ErrRepositoryMismatch =>
    mkFailureClass false "repository_mismatch" "GitHub repository identity changed during delivery processing"
  | ErrRepositoryUnavailable | ErrAppRepository =>
    mkFailureClass false "repository_unavailable" "GitHub repository is unavailable for automation"
  | ErrInvalidHook | ErrInvalidDelivery | ErrInvalidCommit | ErrInvalidEvent | ErrExternalFork
  | ErrAutomationInvalid | ErrAutomationNotReady =>
    mkFailureClass false "delivery_invalid" "GitHub delivery cannot be processed safely"
  | _ => mkFailureClass true "processing_unavailable" "GitHub delivery processing is temporarily unavailable"
  end.

(** The loop doubles the delay up to the maximum; [fuel] counts its rounds. *)
Fixpoint retry_loop (fuel : nat) (current attempt : Z) (delay : duration) : duration :=
  match fuel with
  | O => delay
  | S fuel =>
    if (current <? attempt) && (delay <? retryMaxDelay) then
      let delay := delay * 2 in
      let delay := if retryMaxDelay <? delay then retryMaxDelay else delay in
      retry_loop fuel (current + 1) attempt delay
    else delay
  end.

(** Eight doublings of the base delay reach the maximum. *)
Definition retryDelay (attempt : Z) : duration := retry_loop 8 1 attempt retryBaseDelay.

Definition triggerEnabled (settings : AutomationSettings) (event : string) : bool :=
  if event =? EventPush then as_TriggerPush settings
  else if event =? EventTag then as_TriggerTag settings
  else if event =? EventPullRequest then as_TriggerPullRequest settings
  else false.

(** ** Orchestrator *)

Section Orchestrator.
Context `{MapOrder}.
Variable uuid_String : uuid → string.
Variable json_marshal : Plan → string.
Variable json_unmarshal : string → option Plan.
(** The YAML decoder, the canonical JSON of a pipeline, and the [PipelineFetcher],
    which answers with a repository and the text of the pipeline. *)
Variable yaml_decode : string → option Pipeline.
Variable json_canonical : Pipeline → option string.
Variable FetchPipeline : Event → string → result HookError (uuid * string).

Definition compile_source (source : string) (now : time) : result HookError Plan :=
  match Compile yaml_decode json_canonical (PayloadDigest ∘ chars) source now with
  | Ok plan => Ok plan
  | Err _ => Err ErrInvalidPipeline
  end.

Definition ignore (now : time) (delivery : WorkItem) (outcome : Outcome) (code summary : string) (h : hub)
    : hub * result HookError Outcome :=
  match FinalizeWebhook now (mkFinalize (wi_ID delivery) (wi_LeaseID delivery) FinalIgnored time_zero code summary) h with
  | (h, Err e) => (h, Err e)
  | (h, Ok _) => (h, Ok outcome)
  end.

Definition commitConfigurationFailure (ids : CommitIDs) (now : time) (delivery : WorkItem) (repositoryID : uuid)
    (pipelinePath source : string) (failure : failureClass) (h : hub) : hub * result HookError Outcome :=
  match CommitWebhookFailedRun uuid_String json_marshal json_unmarshal ids
          (mkFailedRunCommit delivery repositoryID pipelinePath (PayloadDigest (chars source)) (fl_code failure)
             (fl_summary failure) now) h with
  | (h, Err e) => (h, Err e)
  | (h, Ok result) => (h, Ok (if rs_Created result then OutcomeFailedRunCreated else OutcomeFailedRunReused))
  end.

(** [others]: what other processes do to the database while the pipeline is fetched
    and compiled; [now]: the clock of the process when that is done. *)
Definition process (ids : CommitIDs) (others : hub → hub) (now : time) (delivery : WorkItem) (h : hub)
    : hub * result HookError Outcome :=
  let event := wi_Event delivery in
  if (wi_ID delivery =? uuid_Nil) || (wi_LeaseID delivery =? uuid_Nil)
     || ((ev_Provider event <>? GitHub) && (ev_Provider event <>? Gitee))
     || (re_ExternalID (ev_Repository event) =? "") || (wi_Attempt delivery <? 1)
  then (h, Err ErrInvalidDelivery)
  else
    let target :=
      if ev_Provider event =? Gitee then RuntimeAutomationForProvider Gitee (re_ExternalID (ev_Repository event)) h
      else RuntimeAutomationForGitHub (re_ExternalID (ev_Repository event)) h in
    match target with
    | Err e => (h, Err e)
    | Ok (repositoryID, settings) =>
      if negb (as_Enabled settings) then
        ignore now delivery OutcomeIgnoredDisabled "automation_disabled" "Project automation is disabled" h
      else if (ev_Type event =? EventPullRequest) && (metadata event "fork" <>? "false") then
        ignore now delivery OutcomeIgnoredFork "external_fork" "External fork pull request is not trusted" h
      else if negb (triggerEnabled settings (ev_Type event)) then
        ignore now delivery OutcomeIgnoredTrigger "trigger_disabled" "Event type is not enabled for this project" h
      else
        let h := others h in
        match FetchPipeline event (as_PipelinePath settings) with
        | Err e =>
          if e =? ErrNotFound then
            commitConfigurationFailure ids now delivery repositoryID (as_PipelinePath settings) "" (classifyFailure e) h
          else (h, Err e)
        | Ok (repository, source) =>
          if repository <>? repositoryID then (h, Err ErrRepositoryMismatch)
          else match compile_source source now with
          | Err e => commitConfigurationFailure ids now delivery repositoryID (as_PipelinePath settings) source (classifyFailure e) h
          | Ok plan =>
            match CommitWebhookRun uuid_String json_marshal json_unmarshal ids
                    (mkRunCommit delivery repositoryID (as_PipelinePath settings) source plan now) h with
            | (h, Err e) => (h, Err e)
            | (h, Ok result) => (h, Ok (if rs_Created result then OutcomeRunCreated else OutcomeRunReused))
            end
          end
        end
    end.

Definition failure_final (now : time) (delivery : WorkItem) (failure : failureClass) : Finalize * Outcome :=
  if fl_transient failure && (wi_Attempt delivery <? MaxAttempts) then
    (mkFinalize (wi_ID delivery) (wi_LeaseID delivery) FinalRetry (now + retryDelay (wi_Attempt delivery))
       (fl_code failure) (fl_summary failure), OutcomeRetryScheduled)
  else
    let '(code, summary) :=
      if fl_transient failure then ("retry_exhausted", "GitHub delivery processing failed after the retry limit")
      else (fl_code failure, fl_summary failure) in
    (mkFinalize (wi_ID delivery) (wi_LeaseID delivery) FinalDead time_zero code summary, OutcomeDeadLettered).

(** The two readings of the clock, for the retry time and inside the store. *)
Definition finalizeFailure (now store_now : time) (delivery : WorkItem) (e : HookError) (h : hub)
    : hub * result HookError Outcome :=
  let '(final, outcome) := failure_final now delivery (classifyFailure e) in
  match FinalizeWebhook store_now final h with
  | (h, Err e) => (h, Err e)
  | (h, Ok _) => (h, Ok outcome)
  end.

Definition Process (ids : CommitIDs) (others : hub → hub) (now failure_now store_now : time) (delivery : WorkItem) (h : hub)
    : hub * result HookError Outcome :=
  match process ids others now delivery h with
  | (h, Ok outcome) => (h, Ok outcome)
  | (h, Err e) =>
    if (wi_ID delivery =? uuid_Nil) || (wi_LeaseID delivery =? uuid_Nil) then (h, Err ErrInvalidDelivery)
    else finalizeFailure failure_now store_now delivery e h
  end.

(** ** Worker *)

Definition WebhookLeaseDuration : duration := Minute.
Definition WebhookRecoveryInterval : duration := 5 * Second.
Definition WebhookRecoveryBatch : Z := 100.

(** One round of [Run]: at most one delivery is claimed and processed. *)
Definition worker_round (locked : uuid → bool) (leaseID : uuid) (ids : CommitIDs) (others : hub → hub)
    (claim_now now failure_now store_now : time) (h : hub) : hub :=
  match ClaimWebhook locked leaseID claim_now WebhookLeaseDuration h with
  | (h, Ok item) => (Process ids others now failure_now store_now item h).1
  | (h, Err _) => h
  end.

Definition recover (locked : uuid → bool) (h : hub) : hub := (RecoverWebhookLeases locked WebhookRecoveryBatch h).1.
End Orchestrator.
