(* ===== verification/GithubCIFacts.v ===== *)
(** The webhook inbox under interleaving workers, and what the orchestrator does to single
    deliveries and runs. *)

From stdpp Require Import relations.
From S2P Require Import Prelude GoStd RunModel Pipeline Database GithubHook Automation Hub GithubCI Compiler Authorization PgStore PgRefine PgSubmit PgActions PgRuns PlanFacts PgAutomation.

(** * The webhook inbox as a labelled step relation: every transaction that reads or
    writes a delivery, with the leases that have been handed out as ghost state, and
    the invariant that all of them preserve. *)

Record inbox := mkInbox { ib_hub : hub; ib_items : list WorkItem }.

Definition ib_rows (s : inbox) : list deliveryRow := hb_deliveries (ib_hub s).

Section Steps.
Variable uuid_String : uuid → string.
Variable json_marshal : Plan → string.
Variable json_unmarshal : string → option Plan.

(** The label of a step is the lease that it acts for. *)
Inductive inbox_step : option uuid → inbox → inbox → Prop :=
| step_receive id delivery s :
    inbox_step None s (mkInbox (ReceiveWebhook id delivery (ib_hub s)).1 (ib_items s))
| step_claim locked lease now d item h s :
    lease ∉ wi_LeaseID <$> ib_items s →
    ClaimWebhook locked lease now d (ib_hub s) = (h, Ok item) →
    inbox_step (Some lease) s (mkInbox h (item :: ib_items s))
| step_ignore item now outcome code summary s :
    item ∈ ib_items s →
    inbox_step (Some (wi_LeaseID item)) s (mkInbox (ignore now item outcome code summary (ib_hub s)).1 (ib_items s))
| step_failure item now store_now e s :
    item ∈ ib_items s →
    inbox_step (Some (wi_LeaseID item)) s (mkInbox (finalizeFailure now store_now item e (ib_hub s)).1 (ib_items s))
| step_commit ids request s :
    cm_Delivery request ∈ ib_items s →
    inbox_step (Some (wi_LeaseID (cm_Delivery request))) s
      (mkInbox (CommitWebhookRun uuid_String json_marshal json_unmarshal ids request (ib_hub s)).1 (ib_items s))
| step_commit_failed ids request s :
    fc_Delivery request ∈ ib_items s →
    inbox_step (Some (wi_LeaseID (fc_Delivery request))) s
      (mkInbox (CommitWebhookFailedRun uuid_String json_marshal json_unmarshal ids request (ib_hub s)).1 (ib_items s))
| step_recover locked limit s :
    inbox_step None s (mkInbox (RecoverWebhookLeases locked limit (ib_hub s)).1 (ib_items s))
| step_other h s :   (** everything else, and the passing of time *)
    hb_deliveries h = ib_rows s → inbox_step None s (mkInbox h (ib_items s)).

Inductive inbox_reachable : inbox → Prop :=
| reachable_start h : hb_deliveries h = [] → inbox_reachable (mkInbox h [])
| reachable_step a s s' : inbox_reachable s → inbox_step a s s' → inbox_reachable s'.

End Steps.

(** ** The invariant *)

Definition delivery_key (d : deliveryRow) : string * string * string := (dl_provider d, dl_instance d, dl_delivery_id d).

(** A delivery is leased while it is processed, to a holder that knows the attempt. *)
Definition lease_ok (items : list WorkItem) (d : deliveryRow) : Prop :=
  match dl_lease d with
  | None => dl_status d ≠ "processing"
  | Some (lease, _) =>
    dl_status d = "processing" ∧
    ∃ item, item ∈ items ∧ wi_LeaseID item = lease ∧ wi_ID item = dl_id d
            ∧ wi_Attempt item = dl_attempt_count d ∧ dl_event d = Some (wi_Event item)
  end.

Record row_ok (items : list WorkItem) (d : deliveryRow) : Prop := {
  row_status : dl_status d ∈ ["received"; "processing"; "processed"; "ignored"; "dead_letter"];
  row_attempts : 0 ≤ dl_attempt_count d ≤ MaxAttempts;
  row_received : dl_status d = "received" → dl_attempt_count d < MaxAttempts;
  row_lease : lease_ok items d;
}.

Record inbox_inv (s : inbox) : Prop := {
  ii_ids : NoDup (dl_id <$> ib_rows s);
  ii_keys : NoDup (delivery_key <$> ib_rows s);
  ii_leases : NoDup (wi_LeaseID <$> ib_items s);
  ii_rows : ∀ d, d ∈ ib_rows s → row_ok (ib_items s) d;
}.

Lemma row_ok_more items items' d : items ⊆ items' → row_ok items d → row_ok items' d.
Proof.
  intros Hsub [Hst Hat Hre Hl]. split; [done..|]. unfold lease_ok in *. destruct (dl_lease d) as [[l e]|]; [|done].
  destruct Hl as (Hp & item & Hin & Hrest). split; [done|]. exists item. split; [by apply Hsub|done].
Qed.

(** An update that keeps the identity of a row. *)
Definition keeps (f : deliveryRow → deliveryRow) : Prop :=
  ∀ d, dl_id (f d) = dl_id d ∧ delivery_key (f d) = delivery_key d.

Lemma keeps_set st at_ ne le pr er ru :
  keeps (λ d, dl_set (st d) (at_ d) (ne d) (le d) (pr d) (er d) (ru d) d).
Proof. done. Qed.

Lemma rows_update_inv p f h s :
  inbox_inv s → keeps f → hb_deliveries h = update_all p f (ib_rows s) →
  (∀ d, d ∈ ib_rows s → p d = true → row_ok (ib_items s) d → row_ok (ib_items s) (f d)) →
  inbox_inv (mkInbox h (ib_items s)).
Proof.
  intros [Hids Hkeys Hleases Hrows] Hk Hh Hf. split; unfold ib_rows; simpl; try done.
  - rewrite Hh, fmap_update_keep; [done|]. intros d. apply Hk.
  - rewrite Hh, fmap_update_keep; [done|]. intros d. apply Hk.
  - intros d. rewrite Hh. unfold update_all. intros (x & -> & Hx)%list_elem_of_fmap.
    destruct (p x) eqn:Hp; [|by apply Hrows]. apply Hf; auto.
Qed.

Lemma same_rows_inv h s : inbox_inv s → hb_deliveries h = ib_rows s → inbox_inv (mkInbox h (ib_items s)).
Proof. intros [Hids Hkeys Hleases Hrows] Hh. split; unfold ib_rows in *; simpl; rewrite ?Hh; done. Qed.

Lemma delivery_held_spec id lease d :
  delivery_held id lease d = true ↔ dl_id d = id ∧ dl_status d = "processing" ∧ ∃ e, dl_lease d = Some (lease, e).
Proof.
  unfold delivery_held. destruct (dl_lease d) as [[l e]|]; [|rewrite andb_false_r; naive_solver].
  rewrite !andb_true_iff, !bool_decide_eq_true. naive_solver.
Qed.

(** The holder of a lease knows the attempt of the delivery. *)
Lemma held_attempt s item d :
  inbox_inv s → item ∈ ib_items s → d ∈ ib_rows s → delivery_held (wi_ID item) (wi_LeaseID item) d = true →
  wi_Attempt item = dl_attempt_count d ∧ dl_event d = Some (wi_Event item).
Proof.
  intros Hs Hitem Hd (_ & _ & e & Hl)%delivery_held_spec. pose proof (row_lease _ _ (ii_rows _ Hs d Hd)) as Hlease.
  unfold lease_ok in Hlease. rewrite Hl in Hlease. destruct Hlease as (_ & item' & Hin & Hle & _ & Hat & Hev).
  assert (item' = item) as ->; [|done].
  eapply (NoDup_key_unique wi_LeaseID); [apply (ii_leases _ Hs)|done..].
Qed.

(** ** Every step preserves it *)

Lemma receive_inv id delivery s :
  inbox_inv s → inbox_inv (mkInbox (ReceiveWebhook id delivery (ib_hub s)).1 (ib_items s)).
Proof.
  intros Hs. unfold ReceiveWebhook. destruct (_ || _); [by apply same_rows_inv|].
  destruct (list_find _ _) as [[i d]|] eqn:Hfind; [destruct (_ || _); by apply same_rows_inv|].
  case_bool_decide as Hid; [by apply same_rows_inv|]. destruct Hs as [Hids Hkeys Hleases Hrows].
  apply list_find_None in Hfind. rewrite Forall_forall in Hfind.
  split; unfold ib_rows in *; cbn [fst ib_hub ib_items hb_deliveries with_deliveries]; [| |done|].
  - rewrite fmap_app. apply NoDup_app. split; [done|]. split; [|apply NoDup_singleton].
    intros x Hx ->%list_elem_of_singleton. done.
  - rewrite fmap_app. apply NoDup_app. split; [done|]. split; [|apply NoDup_singleton].
    intros x (d & -> & Hd)%list_elem_of_fmap Heq%list_elem_of_singleton. apply (Hfind d Hd).
    unfold delivery_key in Heq. simpl in Heq. injection Heq as H1 H2 H3. unfold same_delivery.
    by rewrite H1, H2, H3, !bool_decide_eq_true_2.
  - intros d [Hd| ->%list_elem_of_singleton]%elem_of_app; [by apply Hrows|].
    split; simpl; [set_solver|unfold MaxAttempts; lia..|done].
Qed.

Lemma claim_found locked lease now du item h h0 :
  ClaimWebhook locked lease now du h0 = (h, Ok item) →
  ∃ d event, d ∈ hb_deliveries h0 ∧ deliverable (hb_now h0) d = true ∧ dl_event d = Some event ∧
    item = mkWorkItem (dl_id d) lease event (dl_attempt_count d + 1) (now + du) ∧
    h = with_deliveries (update_all (λ x, dl_id x =? dl_id d) (claimed_delivery lease (now + du)) (hb_deliveries h0)) h0.
Proof.
  unfold ClaimWebhook. destruct (_ || _); [done|]. destruct (least_row _ _) as [d|] eqn:Hd; [|done].
  destruct (dl_event d) as [event|] eqn:Hev; [|done]. intros [= <- <-].
  apply least_row_elem in Hd. apply list_elem_of_In, filter_In in Hd as [Hin Hp]. bools.
  exists d, event. split; [by apply list_elem_of_In|]. by rewrite Hev.
Qed.

Lemma claim_inv locked lease now du item h s :
  lease ∉ wi_LeaseID <$> ib_items s → ClaimWebhook locked lease now du (ib_hub s) = (h, Ok item) →
  inbox_inv s → inbox_inv (mkInbox h (item :: ib_items s)).
Proof.
  intros Hfresh (d & event & Hd & Hdel & Hev & -> & ->)%claim_found Hs.
  assert (Hs' : inbox_inv (mkInbox (ib_hub s) (mkWorkItem (dl_id d) lease event (dl_attempt_count d + 1) (now + du) :: ib_items s))).
  { destruct Hs as [Hids Hkeys Hleases Hrows]. split; unfold ib_rows in *; simpl; [done|done|by apply NoDup_cons|].
    intros x Hx. eapply row_ok_more; [|by apply Hrows]. intros y. apply list_elem_of_further. }
  eapply (rows_update_inv _ _ _ _ Hs'); [apply keeps_set|reflexivity|].
  intros x Hx Hxd%bool_decide_eq_true Hok. assert (x = d) as ->.
  { eapply (NoDup_key_unique dl_id); [apply (ii_ids _ Hs)|done..]. }
  unfold deliverable in Hdel. bools. destruct Hok as [Hst Hat Hre Hl]. specialize (Hre ltac:(done)).
  split; unfold claimed_delivery, MaxAttempts in *; simpl; [set_solver|lia|done|].
  split; [done|]. eexists. split; [left|]. simpl. by rewrite Hev.
Qed.

Lemma finalize_inv now request item s :
  inbox_inv s → item ∈ ib_items s → fz_ID request = wi_ID item → fz_LeaseID request = wi_LeaseID item →
  (fz_State request = FinalRetry → wi_Attempt item < MaxAttempts) →
  inbox_inv (mkInbox (FinalizeWebhook now request (ib_hub s)).1 (ib_items s)).
Proof.
  intros Hs Hitem Hid Hlease Hretry. unfold FinalizeWebhook. destruct (_ || _); [by apply same_rows_inv|].
  destruct (_ && _); [by apply same_rows_inv|]. destruct (negb (bool_decide _)) eqn:Hstate; [by apply same_rows_inv|].
  unfold update_deliveries. destruct (_ <>? 1); [by apply same_rows_inv|].
  eapply rows_update_inv; [done|apply keeps_set|reflexivity|]. intros d Hd [Hheld _]%andb_true_iff [Hst Hat Hre Hl].
  rewrite Hid, Hlease in Hheld. destruct (held_attempt s item d Hs Hitem Hd Hheld) as [Heq _].
  apply negb_false_iff, bool_decide_eq_true in Hstate.
  unfold finalized_delivery. destruct (fz_State request =? FinalRetry) eqn:Hf; bools; simpl.
  - specialize (Hretry Hf). split; simpl; [set_solver|done|intros _; lia|done].
  - set (state := fz_State request) in *. split; simpl; [set_solver|done| |].
    + intros Hr. rewrite Hr in Hstate. by apply list_elem_of_In in Hstate as [|[|[|[|[]]]]].
    + unfold lease_ok. simpl. intros Hr. rewrite Hr in Hstate. by apply list_elem_of_In in Hstate as [|[|[|[|[]]]]].
Qed.

Lemma ignore_inv now item outcome code summary s :
  inbox_inv s → item ∈ ib_items s →
  inbox_inv (mkInbox (ignore now item outcome code summary (ib_hub s)).1 (ib_items s)).
Proof.
  intros Hs Hitem.
  pose proof (finalize_inv now (mkFinalize (wi_ID item) (wi_LeaseID item) FinalIgnored time_zero code summary)
    item s Hs Hitem eq_refl eq_refl ltac:(done)) as H.
  unfold ignore. by destruct (FinalizeWebhook _ _ _) as [h [?|?]].
Qed.

Lemma failure_inv now store_now item e s :
  inbox_inv s → item ∈ ib_items s →
  inbox_inv (mkInbox (finalizeFailure now store_now item e (ib_hub s)).1 (ib_items s)).
Proof.
  intros Hs Hitem. unfold finalizeFailure. destruct (failure_final _ _ _) as [final outcome] eqn:Hfinal.
  assert (H : inbox_inv (mkInbox (FinalizeWebhook store_now final (ib_hub s)).1 (ib_items s))).
  { unfold failure_final in Hfinal. destruct (fl_transient _ && _) eqn:Hretry; [|destruct (if fl_transient _ then _ else _)];
      injection Hfinal as <- _; apply (finalize_inv _ _ item); try done.
    intros _. bools. by apply Z.ltb_lt. }
  by destruct (FinalizeWebhook _ _ _) as [h [?|?]].
Qed.

Lemma recover_inv locked limit s :
  inbox_inv s → inbox_inv (mkInbox (RecoverWebhookLeases locked limit (ib_hub s)).1 (ib_items s)).
Proof.
  intros Hs. unfold RecoverWebhookLeases. destruct (_ || _); [by apply same_rows_inv|].
  eapply rows_update_inv; [done|apply keeps_set|reflexivity|]. intros d Hd _ [Hst Hat Hre Hl].
  unfold recovered_delivery. destruct (MaxAttempts <=? dl_attempt_count d) eqn:Hmax; split; simpl; try done;
    [set_solver|set_solver|lia].
Qed.

Lemma complete_delivery_rows item repository run error h h' :
  complete_delivery item repository run error h = Ok h' →
  h' = with_deliveries (update_all (delivery_held (wi_ID item) (wi_LeaseID item))
         (processed_delivery (hb_now h) repository run error) (hb_deliveries h)) h.
Proof. unfold complete_delivery, update_deliveries. destruct (_ <>? 1); [done|]. by intros [= <-]. Qed.

Lemma on_core_inv body h h' : on_core body h = Ok h' → ∃ d, body (hb_core h) = Ok d ∧ h' = with_core d h.
Proof. unfold on_core. destruct (body _) as [d|]; [|done]. intros [= <-]. by exists d. Qed.

Lemma hub_transaction_cases {A} (body : hub → result HookError (hub * A)) h :
  (∃ h' a, body h = Ok (h', a) ∧ hub_transaction body h = (h', Ok a))
  ∨ (∃ e, body h = Err e ∧ hub_transaction body h = (h, Err e)).
Proof. unfold hub_transaction. destruct (body h) as [[h' a]|e]; eauto. Qed.

(** What a commit does to the deliveries. *)
Definition completes (item : WorkItem) (rows rows' : list deliveryRow) : Prop :=
  ∃ now repository run error, rows' =
    update_all (delivery_held (wi_ID item) (wi_LeaseID item)) (processed_delivery now repository run error) rows.

Section Preservation.
Variable uuid_String : uuid → string.
Variable json_marshal : Plan → string.
Variable json_unmarshal : string → option Plan.

Lemma commit_rows ids request h h' r :
  CommitWebhookRun uuid_String json_marshal json_unmarshal ids request h = (h', r) →
  hb_deliveries h' = hb_deliveries h ∨ completes (cm_Delivery request) (hb_deliveries h) (hb_deliveries h').
Proof.
  unfold CommitWebhookRun. destruct (validateWebhookRunCommit request); [|intros [= <- _]; by left].
  match goal with |- context [hub_transaction ?b h] => destruct (hub_transaction_cases b h) as [(h1 & res & Hb & ->)|(e & Hb & ->)] end;
    intros [= <- _]; [right|by left].
  revert Hb. destruct (lock_delivery _ _ _ _) as [d|]; [|done]. simpl. destruct (existing_run _ _) as [run|].
  - destruct (negb _); [done|]. destruct (finishWebhookRun _ _ _) as [h2|] eqn:Hf; [|done]. intros [= <- _].
    apply complete_delivery_rows in Hf as ->. unfold completes. eauto.
  - unfold create_webhook_run. destruct (put_definition _ _ _ _ _) as [ds did]. destruct (put_version _ _ _ _ _ _) as [vs vid].
    destruct (on_core _ _) as [h2|] eqn:Hc; [|done]. apply on_core_inv in Hc as (core & _ & ->). simpl.
    destruct (finishWebhookRun _ _ _) as [h3|] eqn:Hf; [|done]. intros [= <- _].
    apply complete_delivery_rows in Hf as ->. unfold completes. simpl. eauto.
Qed.

Lemma commit_failed_rows ids request h h' r :
  CommitWebhookFailedRun uuid_String json_marshal json_unmarshal ids request h = (h', r) →
  hb_deliveries h' = hb_deliveries h ∨ completes (fc_Delivery request) (hb_deliveries h) (hb_deliveries h').
Proof.
  unfold CommitWebhookFailedRun. destruct (validateWebhookFailedRunCommit request); [|intros [= <- _]; by left].
  match goal with |- context [hub_transaction ?b h] => destruct (hub_transaction_cases b h) as [(h1 & res & Hb & ->)|(e & Hb & ->)] end;
    intros [= <- _]; [right|by left].
  revert Hb. destruct (lock_delivery _ _ _ _) as [d|]; [|done]. simpl. destruct (existing_run _ _) as [run|].
  - destruct (_ || _); [done|]. destruct (complete_delivery _ _ _ _ _) as [h2|] eqn:Hf; [|done]. intros [= <- _].
    apply complete_delivery_rows in Hf as ->. unfold completes. eauto.
  - unfold create_failed_run. destruct (on_core _ _) as [h2|] eqn:Hc; [|done].
    apply on_core_inv in Hc as (core & _ & ->). simpl.
    destruct (complete_delivery _ _ _ _ _) as [h3|] eqn:Hf; [|done]. intros [= <- _].
    apply complete_delivery_rows in Hf as ->. unfold completes. simpl. eauto.
Qed.

End Preservation.

Lemma completes_inv item h s :
  inbox_inv s → hb_deliveries h = ib_rows s ∨ completes item (ib_rows s) (hb_deliveries h) →
  inbox_inv (mkInbox h (ib_items s)).
Proof.
  intros Hs [Hrows|(now & repository & run & error & Hrows)]; [by apply same_rows_inv|].
  eapply rows_update_inv; [done|apply keeps_set|exact Hrows|]. intros d Hd _ [Hst Hat Hre Hl].
  split; simpl; [set_solver|done..].
Qed.

(** ** A delivery belongs to the holder of its lease *)

Lemma update_all_keep {A} (p : A → bool) f l x : x ∈ l → p x = false → x ∈ update_all p f l.
Proof. intros Hx Hp. unfold update_all. apply list_elem_of_fmap. exists x. by rewrite Hp. Qed.

Lemma finalize_rows now request h h' r :
  FinalizeWebhook now request h = (h', r) →
  hb_deliveries h' = hb_deliveries h ∨ hb_deliveries h' =
    update_all (λ d, delivery_held (fz_ID request) (fz_LeaseID request) d && lease_live (hb_now h) d)
      (finalized_delivery (hb_now h) request) (hb_deliveries h).
Proof.
  unfold FinalizeWebhook. destruct (_ || _); [intros [= <- _]; by left|]. destruct (_ && _); [intros [= <- _]; by left|].
  destruct (negb _); [intros [= <- _]; by left|]. unfold update_deliveries.
  destruct (_ <>? 1); intros [= <- _]; [by left|by right].
Qed.

Lemma finalize_keeps now request h d l e :
  d ∈ hb_deliveries h → dl_lease d = Some (l, e) → fz_LeaseID request ≠ l →
  d ∈ hb_deliveries (FinalizeWebhook now request h).1.
Proof.
  intros Hd Hl Hne. destruct (finalize_rows now request h _ _ (surjective_pairing _)) as [-> | ->]; [done|].
  apply update_all_keep; [done|]. apply andb_false_iff. left. apply not_true_is_false.
  intros (_ & _ & e' & Hl')%delivery_held_spec. congruence.
Qed.

Lemma completes_keeps item rows rows' d l e :
  rows' = rows ∨ completes item rows rows' → d ∈ rows → dl_lease d = Some (l, e) → wi_LeaseID item ≠ l → d ∈ rows'.
Proof.
  intros [-> |(? & ? & ? & ? & ->)] Hd Hl Hne; [done|]. apply update_all_keep; [done|].
  apply not_true_is_false. intros (_ & _ & e' & Hl')%delivery_held_spec. congruence.
Qed.

Lemma receive_keeps id delivery h d : d ∈ hb_deliveries h → d ∈ hb_deliveries (ReceiveWebhook id delivery h).1.
Proof.
  intros Hd. unfold ReceiveWebhook. destruct (_ || _); [done|]. destruct (list_find _ _) as [[i x]|].
  - by destruct (_ || _).
  - case_bool_decide; [done|]. simpl. by apply elem_of_app; left.
Qed.

(** ** Histories *)

Section Reachable.
Variable uuid_String : uuid → string.
Variable json_marshal : Plan → string.
Variable json_unmarshal : string → option Plan.

Abbreviation step := (inbox_step uuid_String json_marshal json_unmarshal).
Abbreviation reachable := (inbox_reachable uuid_String json_marshal json_unmarshal).

Lemma step_inv a s s' : step a s s' → inbox_inv s → inbox_inv s'.
Proof.
  intros [] Hs.
  - by apply receive_inv.
  - by eapply claim_inv.
  - by apply ignore_inv.
  - by apply failure_inv.
  - eapply completes_inv; [done|]. eapply commit_rows, surjective_pairing.
  - eapply completes_inv; [done|]. eapply commit_failed_rows, surjective_pairing.
  - by apply recover_inv.
  - by apply same_rows_inv.
Qed.

Lemma inbox_reachable_inv s : reachable s → inbox_inv s.
Proof.
  induction 1 as [h Hh|a s s' _ IH Hstep]; [|by eapply step_inv].
  split; unfold ib_rows; simpl; rewrite ?Hh; [apply NoDup_nil_2..|]. intros d Hd. by apply elem_of_nil in Hd.
Qed.

(** While its lease lasts, only its holder changes a delivery. *)
Lemma step_keeps a s s' d l e :
  inbox_inv s → step a s s' → d ∈ ib_rows s → dl_lease d = Some (l, e) → hb_now (ib_hub s) < e → a ≠ Some l →
  d ∈ ib_rows s'.
Proof.
  intros Hs Hstep Hd Hl He Ha. pose proof (row_lease _ _ (ii_rows _ Hs d Hd)) as Hok. unfold lease_ok in Hok.
  rewrite Hl in Hok. destruct Hok as [Hst _]. unfold ib_rows in *. destruct Hstep; simpl in *.
  - by apply receive_keeps.
  - destruct (claim_found _ _ _ _ _ _ _ H0) as (x & event & Hx & Hdel & _ & _ & ->). simpl.
    apply update_all_keep; [done|]. apply bool_decide_eq_false. intros Heq.
    assert (d = x) as -> by (eapply (NoDup_key_unique dl_id); [apply (ii_ids _ Hs)|done..]).
    unfold deliverable in Hdel. rewrite Hst in Hdel. done.
  - unfold ignore. set (request := mkFinalize _ _ _ _ _ _).
    pose proof (finalize_keeps now request (ib_hub s) d l e Hd Hl ltac:(simpl; congruence)) as Hk.
    by destruct (FinalizeWebhook _ _ _) as [? []].
  - unfold finalizeFailure. destruct (failure_final _ _ _) as [final outcome] eqn:Hfinal.
    assert (fz_LeaseID final = wi_LeaseID item) as Hlease.
    { unfold failure_final in Hfinal. destruct (_ && _); [|destruct (if fl_transient _ then _ else _)]; by injection Hfinal as <- _. }
    pose proof (finalize_keeps store_now final (ib_hub s) d l e Hd Hl ltac:(congruence)) as Hk.
    by destruct (FinalizeWebhook _ _ _) as [? []].
  - eapply completes_keeps; [eapply commit_rows, surjective_pairing|done..|congruence].
  - eapply completes_keeps; [eapply commit_failed_rows, surjective_pairing|done..|congruence].
  - unfold RecoverWebhookLeases. destruct (_ || _); [done|]. simpl. apply update_all_keep; [done|].
    apply bool_decide_eq_false. intros (x & Heq & Hx)%list_elem_of_fmap. unfold expired_deliveries in Hx.
    apply (subseteq_take _ _ x) in Hx. rewrite merge_sort_Permutation in Hx.
    apply list_elem_of_In, filter_In in Hx as [Hx%list_elem_of_In Hstale].
    assert (d = x) as <- by (eapply (NoDup_key_unique dl_id); [apply (ii_ids _ Hs)|done..]).
    unfold stale_delivery in Hstale. rewrite Hl in Hstale. bools. lia.
  - by rewrite H.
Qed.
End Reachable.

(** * What the orchestrator does to a delivery and to the runs: lemmas on single
    transactions, for the theorems on the processing of deliveries. *)

(** ** The delay before a retry *)

Lemma retry_loop_done fuel current attempt delay :
  attempt ≤ current ∨ retryMaxDelay ≤ delay → retry_loop fuel current attempt delay = delay.
Proof.
  intros Hd. destruct fuel; [done|]. simpl. assert ((current <? attempt) && (delay <? retryMaxDelay) = false) as ->; [|done].
  apply andb_false_iff. rewrite !Z.ltb_ge. lia.
Qed.

Lemma retry_loop_step fuel current attempt delay :
  current < attempt → delay < retryMaxDelay →
  retry_loop (S fuel) current attempt delay = retry_loop fuel (current + 1) attempt (Z.min retryMaxDelay (delay * 2)).
Proof.
  intros Hc Hd. simpl. rewrite (proj2 (Z.ltb_lt _ _) Hc), (proj2 (Z.ltb_lt _ _) Hd). cbn [andb]. f_equal.
  destruct (retryMaxDelay <? delay * 2) eqn:Hm; [apply Z.ltb_lt in Hm|apply Z.ltb_ge in Hm]; lia.
Qed.

(** ** One delivery changes *)

(** A transaction on behalf of the holder of a live lease changed one delivery. *)
Definition acted (item : WorkItem) (f : deliveryRow → deliveryRow) (h h' : hub) : Prop :=
  ∃ d e, d ∈ hb_deliveries h ∧ dl_id d = wi_ID item ∧ dl_status d = "processing" ∧
    dl_lease d = Some (wi_LeaseID item, e) ∧ hb_now h < e ∧ f d ∈ hb_deliveries h' ∧
    (∀ x, x ∈ hb_deliveries h → dl_id x ≠ wi_ID item → x ∈ hb_deliveries h').

Lemma count_pos {A} (p : A → bool) l n : count p l = n → 0 < n → ∃ x, x ∈ l ∧ p x = true.
Proof.
  unfold count. intros Hc Hn. destruct (List.filter p l) as [|x k] eqn:Hf; [simpl in Hc; lia|].
  assert (Hx : In x (x :: k)) by (by left). rewrite <-Hf in Hx. apply filter_In in Hx as [Hx Hp].
  exists x. by rewrite list_elem_of_In.
Qed.

Lemma update_acted item p f h h' d :
  hb_deliveries h' = update_all p f (hb_deliveries h) →
  (∀ x, p x = true → dl_id x = wi_ID item) →
  d ∈ hb_deliveries h → p d = true → delivery_held (wi_ID item) (wi_LeaseID item) d = true →
  lease_live (hb_now h) d = true → acted item f h h'.
Proof.
  intros Hh Hp Hd Hpd (Hid & Hst & e & Hl)%delivery_held_spec Hlive. unfold lease_live in Hlive.
  rewrite Hl in Hlive. apply Z.ltb_lt in Hlive. exists d, e. do 5 (split; [done|]). rewrite Hh. split.
  - unfold update_all. apply list_elem_of_fmap. exists d. by rewrite Hpd.
  - intros x Hx Hne. apply update_all_keep; [done|]. apply not_true_is_false. intros Hpx. by apply Hne, Hp.
Qed.

Lemma FinalizeWebhook_ok now request item h h' :
  fz_ID request = wi_ID item → fz_LeaseID request = wi_LeaseID item →
  FinalizeWebhook now request h = (h', Ok tt) →
  acted item (finalized_delivery (hb_now h) request) h h' ∧ hb_core h' = hb_core h ∧
  (fz_State request = FinalRetry → now < fz_NextAttempt request).
Proof.
  intros Hid Hlease. unfold FinalizeWebhook. destruct (_ || _); [done|].
  destruct (_ && _) eqn:Hretry; [done|]. destruct (negb (bool_decide _)); [done|].
  unfold update_deliveries. destruct (count _ _ <>? 1) eqn:Hc; [done|]. intros [= <-]. bools.
  destruct (count_pos _ _ _ Hc ltac:(lia)) as (d & Hd & Hp). rewrite Hid, Hlease in *.
  pose proof Hp as [Hheld Hlive]%andb_true_iff. split; [|split; [done|]].
  - eapply update_acted; [reflexivity| |exact Hd|exact Hp|exact Hheld|exact Hlive].
    intros x [(? & _)%delivery_held_spec _]%andb_true_iff. done.
  - intros Hs. destruct Hretry as [Hretry|Hretry]; bools; [done|]. by apply Z.ltb_lt.
Qed.

Lemma FinalizeWebhook_err now request h h' e : FinalizeWebhook now request h = (h', Err e) → h' = h.
Proof.
  unfold FinalizeWebhook. destruct (_ || _); [by intros [= <- _]|]. destruct (_ && _); [by intros [= <- _]|].
  destruct (negb _); [by intros [= <- _]|]. destruct (update_deliveries _ _ _) as [h1 n].
  by destruct (_ <>? 1); intros [= <- _].
Qed.

Lemma leased_delivery_spec item h d :
  leased_delivery item h = Some d →
  d ∈ hb_deliveries h ∧ delivery_held (wi_ID item) (wi_LeaseID item) d = true ∧ lease_live (hb_now h) d = true.
Proof.
  unfold leased_delivery. destruct (list_find _ _) as [[i x]|] eqn:Hf; [|done]. intros [= <-].
  apply list_find_Some in Hf as (Hx%list_elem_of_lookup_2 & Hp & _). by apply andb_true_iff in Hp as [??].
Qed.

Lemma complete_acted item repository run error h h0 h' d :
  leased_delivery item h0 = Some d → hb_deliveries h = hb_deliveries h0 → hb_now h = hb_now h0 →
  complete_delivery item repository run error h = Ok h' →
  acted item (processed_delivery (hb_now h) repository run error) h0 h'.
Proof.
  intros (Hd & Hheld & Hlive)%leased_delivery_spec Hrows Hnow ->%complete_delivery_rows.
  eapply update_acted; [by rewrite <-Hrows| |exact Hd|exact Hheld|exact Hheld|exact Hlive].
  by intros x (? & _)%delivery_held_spec.
Qed.

(** ** The insertion of a run *)

Section Facts.
Variable uuid_String : uuid → string.
Variable json_marshal : Plan → string.
Variable json_unmarshal : string → option Plan.

Lemma enqueue_runs o run st d d' :
  enqueueCommitStatusForRun uuid_String o run st d = Ok d' → db_runs d' = db_runs d ∧ db_now d' = db_now d.
Proof. intros He%enqueue_spec. by rewrite (en_same _ _ _ _ _ He). Qed.

Lemma insertRun_runs o ids record d d' :
  insertRun uuid_String json_unmarshal o ids record d = Ok d' →
  db_runs d' = db_runs d ++ [record] ∧ db_now d' = db_now d ∧ rn_ID record ∉ rn_ID <$> db_runs d.
Proof.
  unfold insertRun. destruct (_ || _) eqn:Hf; [done|]. bools. destruct (json_unmarshal _); [|done]. cbv zeta.
  destruct (_ || _); [done|]. intros [Hr Hn]%enqueue_runs. by rewrite Hr, Hn.
Qed.

(** The effect of a transaction that commits a run for a delivery. *)
Definition run_committed (item : WorkItem) (repository : uuid) (status : Status) (created : bool)
    (error : option string * option string) (h h' : hub) : Prop :=
  ∃ r, acted item (processed_delivery (hb_now h) repository (rn_ID r) error) h h' ∧
    rn_ProjectID r = Some repository ∧ rn_IdempotencyKey r = webhook_key uuid_String item ∧
    rn_CommitSHA r = ev_AfterSHA (wi_Event item) ∧ rn_Event r = ev_Type (wi_Event item) ∧
    if created then db_runs (hb_core h') = db_runs (hb_core h) ++ [r] ∧ rn_Status r = status
    else r ∈ db_runs (hb_core h) ∧ hb_core h' = hb_core h.

Lemma lock_delivery_ok item id path h d :
  lock_delivery item id path h = Ok d → leased_delivery item h = Some d.
Proof.
  unfold lock_delivery. destruct (leased_delivery item h) as [x|]; [|done].
  destruct (if (_ : bool) then _ else _) as [u|e]; [|done]. by intros [= <-].
Qed.

Lemma existing_run_spec item h r :
  existing_run uuid_String item h = Some r →
  r ∈ db_runs (hb_core h) ∧ rn_IdempotencyKey r = webhook_key uuid_String item.
Proof.
  unfold existing_run. destruct (list_find _ _) as [[i x]|] eqn:Hf; [|done]. intros [= <-].
  by apply list_find_Some in Hf as (Hx%list_elem_of_lookup_2 & Hp & _).
Qed.

Lemma same_run_spec item repository name config r :
  same_run item repository name config r = true →
  rn_ProjectID r = Some repository ∧ rn_CommitSHA r = ev_AfterSHA (wi_Event item) ∧ rn_Event r = ev_Type (wi_Event item).
Proof. unfold same_run. intros H. by bools. Qed.

Lemma CommitWebhookRun_ok ids request h h' result :
  CommitWebhookRun uuid_String json_marshal json_unmarshal ids request h = (h', Ok result) →
  run_committed (cm_Delivery request) (cm_RepositoryID request) StatusQueued (rs_Created result) (None, None) h h'.
Proof.
  unfold CommitWebhookRun. destruct (validateWebhookRunCommit request); [|done].
  match goal with |- context [hub_transaction ?b h] => destruct (hub_transaction_cases b h) as [(h1 & res & Hb & ->)|(e & Hb & ->)] end;
    intros [= <- <-].
  revert Hb. destruct (lock_delivery _ _ _ _) as [d|] eqn:Hlock; [|done]. apply lock_delivery_ok in Hlock.
  cbn [rbind]. destruct (existing_run _ _ _) as [run|] eqn:Hex.
  - destruct (negb _) eqn:Hsame; [done|]. apply negb_false_iff, same_run_spec in Hsame as (? & ? & ?).
    apply existing_run_spec in Hex as [Hin Hkey].
    destruct (finishWebhookRun _ _ _) as [h2|] eqn:Hf; [|done]. intros [= <- <-]. exists run.
    split; [by eapply complete_acted|]. apply complete_delivery_rows in Hf as ->. done.
  - unfold create_webhook_run. destruct (put_definition _ _ _ _ _) as [ds did]. destruct (put_version _ _ _ _ _ _) as [vs vid].
    destruct (on_core _ _) as [h2|] eqn:Hc; [|done]. apply on_core_inv in Hc as (core & Hi & ->).
    apply insertRun_runs in Hi as (Hruns & Hnow & _). cbn [rbind].
    destruct (finishWebhookRun _ _ _) as [h3|] eqn:Hf; [|done]. intros [= <- <-].
    exists (webhook_run uuid_String json_marshal ids request vid). split.
    + assert (Ha : acted (cm_Delivery request) (processed_delivery (hb_now h) (cm_RepositoryID request) (id_run ids) (None, None)) h h3).
      { pose proof (complete_acted _ _ _ _ (with_core core (with_pipelines ds vs h)) h _ d Hlock eq_refl Hnow Hf) as Ha.
        by change (hb_now (with_core core _)) with (db_now core) in Ha; rewrite Hnow in Ha. }
      exact Ha.
    + apply complete_delivery_rows in Hf as ->. done.
Qed.

Lemma CommitWebhookFailedRun_ok ids request h h' result :
  CommitWebhookFailedRun uuid_String json_marshal json_unmarshal ids request h = (h', Ok result) →
  run_committed (fc_Delivery request) (fc_RepositoryID request) StatusFailed (rs_Created result) (failure_error request) h h'.
Proof.
  unfold CommitWebhookFailedRun. destruct (validateWebhookFailedRunCommit request); [|done].
  match goal with |- context [hub_transaction ?b h] => destruct (hub_transaction_cases b h) as [(h1 & res & Hb & ->)|(e & Hb & ->)] end;
    intros [= <- <-].
  revert Hb. destruct (lock_delivery _ _ _ _) as [d|] eqn:Hlock; [|done]. apply lock_delivery_ok in Hlock.
  cbn [rbind]. destruct (existing_run _ _ _) as [run|] eqn:Hex.
  - destruct (_ || _) eqn:Hsame; [done|]. apply orb_false_iff in Hsame as [Hsame _].
    apply negb_false_iff, same_run_spec in Hsame as (? & ? & ?). apply existing_run_spec in Hex as [Hin Hkey].
    destruct (complete_delivery _ _ _ _ _) as [h2|] eqn:Hf; [|done]. intros [= <- <-]. exists run.
    split; [by eapply complete_acted|]. apply complete_delivery_rows in Hf as ->. done.
  - unfold create_failed_run.
    destruct (on_core _ _) as [h2|] eqn:Hc; [|done]. apply on_core_inv in Hc as (core & Hi & ->).
    apply insertRun_runs in Hi as (Hruns & Hnow & _). cbn [rbind].
    destruct (complete_delivery _ _ _ _ _) as [h3|] eqn:Hf; [|done]. intros [= <- <-].
    exists (failed_run uuid_String json_marshal ids request). split.
    + assert (Ha : acted (fc_Delivery request) (processed_delivery (hb_now h) (fc_RepositoryID request) (id_run ids) (failure_error request)) h h3).
      { pose proof (complete_acted _ _ _ _ (with_core core h) h _ d Hlock eq_refl Hnow Hf) as Ha.
        by change (hb_now (with_core core _)) with (db_now core) in Ha; rewrite Hnow in Ha. }
      exact Ha.
    + apply complete_delivery_rows in Hf as ->. done.
Qed.

Lemma commit_err ids request h h' e :
  CommitWebhookRun uuid_String json_marshal json_unmarshal ids request h = (h', Err e) → h' = h.
Proof.
  unfold CommitWebhookRun. destruct (validateWebhookRunCommit request); [|by intros [= <- _]].
  match goal with |- context [hub_transaction ?b h] => destruct (hub_transaction_cases b h) as [(h1 & res & _ & ->)|(e' & _ & ->)] end;
    [done|by intros [= <- _]].
Qed.

Lemma commit_failed_err ids request h h' e :
  CommitWebhookFailedRun uuid_String json_marshal json_unmarshal ids request h = (h', Err e) → h' = h.
Proof.
  unfold CommitWebhookFailedRun. destruct (validateWebhookFailedRunCommit request); [|by intros [= <- _]].
  match goal with |- context [hub_transaction ?b h] => destruct (hub_transaction_cases b h) as [(h1 & res & _ & ->)|(e' & _ & ->)] end;
    [done|by intros [= <- _]].
Qed.
End Facts.
