(* ===== verification/HubScenario.v ===== *)
(** A signed push to the project of the concrete database, from the request to the
    claimed delivery, for the examples at which the theorems are applied. *)

From S2P Require Import Prelude GoStd Codecs RunModel Pipeline Compiler PlanFacts Scenario Authorization Database Identity PgScenario GithubHook Automation Hub PgAutomation GithubCI.

#[local] Existing Instance library_order.

(** ** The request *)

Definition demo_secret : bytes := chars "0123456789abcdef".
Definition demo_body : bytes := chars "push".
Definition demo_sha : string := "0123456789012345678901234567890123456789".

Definition demo_repository : repositoryResponse :=
  mkRepositoryResponse "77" "r" "https://evil.test/clone" "https://evil.test" "main" false "ada".

Definition demo_push (body : bytes) : option pushPayload :=
  if body =? demo_body then Some (mkPushPayload "refs/heads/main" "" demo_sha demo_repository "ada") else None.
Definition no_pull (body : bytes) : option pullPayload := None.

Definition demo_headers (signature : string) : Header :=
  <["X-Github-Delivery" := ["d-1"]]> (<["X-Github-Event" := ["push"]]> {["X-Hub-Signature-256" := [signature]]}).

Definition demo_event : Event :=
  mkEvent "github" "d-1" "push" "" (mkRepository "77" "ada" "r" "" "" "main" false) "refs/heads/main" "" demo_sha "ada"
    Second ∅.

Definition demo_delivery : Delivery :=
  mkDelivery "github" GitHubInstance "d-1" "push" (PayloadDigest demo_body) demo_event Second.

Lemma demo_accepted :
  checked_delivery demo_push no_pull Second (Ok demo_secret) (demo_headers (github_signature demo_secret demo_body)) demo_body
  = Ok demo_delivery.
Proof. vm_compute. reflexivity. Qed.

Lemma demo_forged :
  checked_delivery demo_push no_pull Second (Ok demo_secret) (demo_headers (github_signature demo_body demo_secret)) demo_body
  = Err ErrInvalidHook.
Proof. vm_compute. reflexivity. Qed.

(** ** The database *)

Definition demo_settings : AutomationSettings := mkAutomationSettings true ".yuanci.yml" true true true true 2.

Definition demo_hub : hub :=
  mkHub (elapse Second demo_database) [] [] {[3%N := demo_settings]} ∅
    {[3%N := mkLinkRow GitHubInstance (Some 5) None]} (Some (mkAppRow 9 5 true)) ∅ ∅ ∅ ∅ [] [].

Definition hub_received : hub := (ReceiveWebhook 70 demo_delivery demo_hub).1.
Definition hub_claimed : hub := (ClaimWebhook no_lock 71 Second Minute hub_received).1.
Definition demo_item : WorkItem := mkWorkItem 70 71 demo_event 1 (Second + Minute).

Lemma demo_claim : ClaimWebhook no_lock 71 Second Minute hub_received = (hub_claimed, Ok demo_item).
Proof. vm_compute. reflexivity. Qed.

(** ** The pipeline *)

Definition demo_decode (source : string) : option Pipeline := if source =? "demo" then Some demo_pipeline else None.
Definition demo_canonical (p : Pipeline) : option string := Some "demo".
Definition demo_fetch (event : Event) (path : string) : result HookError (uuid * string) := Ok (3%N, "demo"%string).

#[local] Instance PlanStage_eq_dec : EqDecision PlanStage.
Proof. solve_decision. Defined.
#[local] Instance Plan_eq_dec : EqDecision Plan.
Proof. solve_decision. Defined.

(** The plans of the examples, which are made two seconds after the epoch, and their
    texts. *)
Definition compiled_demo : Plan := mkPlan "v1" "demo" (PayloadDigest (chars "demo")) (2 * Second) demo_stages.
Definition rejected_demo : Plan := mkPlan "v1" ".yuanci.yml" (PayloadDigest []) (2 * Second) [].
Definition demo_marshal (plan : Plan) : string :=
  if plan =? compiled_demo then "demo" else if plan =? rejected_demo then "rejected" else "".
Definition hub_unmarshal (text : string) : option Plan :=
  if text =? "demo" then Some compiled_demo else if text =? "rejected" then Some rejected_demo else None.

Lemma demo_round_trip plan plan' : hub_unmarshal (demo_marshal plan) = Some plan' → plan' = plan.
Proof.
  unfold demo_marshal. case_bool_decide as H1; [subst; by intros [= <-]|].
  case_bool_decide as H2; [subst; by intros [= <-]|done].
Qed.

Definition demo_ids_of (base : uuid) : CommitIDs := mkCommitIDs base (base + 1) (base + 2) (base + 3) (λ i, base + 4 + N.of_nat i)%N.

Definition keep (h : hub) : hub := h.

Definition demo_process (fetch : Event → string → result HookError (uuid * string)) (item : WorkItem) (h : hub)
    : hub * result HookError Outcome :=
  Process demo_uuid demo_marshal hub_unmarshal demo_decode demo_canonical fetch (demo_ids_of 80) keep
    (2 * Second) (2 * Second) (2 * Second) item h.

Example demo_run_created :
  let '(h, r) := demo_process demo_fetch demo_item hub_claimed in
  r = Ok OutcomeRunCreated ∧ rn_CommitSHA <$> db_runs (hb_core h) = [demo_sha]
  ∧ dl_status <$> hb_deliveries h = ["processed"] ∧ length (db_jobs (hb_core h)) = 3%nat.
Proof. vm_compute. repeat split. Qed.

Example demo_retry :
  let '(h, r) := demo_process (λ _ _, Err ErrRateLimited) demo_item hub_claimed in
  r = Ok OutcomeRetryScheduled ∧ dl_status <$> hb_deliveries h = ["received"]
  ∧ dl_next_attempt_at <$> hb_deliveries h = [7 * Second].
Proof. vm_compute. repeat split. Qed.

Example demo_missing :
  let '(h, r) := demo_process (λ _ _, Err ErrNotFound) demo_item hub_claimed in
  r = Ok OutcomeFailedRunCreated ∧ rn_Status <$> db_runs (hb_core h) = [StatusFailed]
  ∧ dl_error <$> hb_deliveries h = [(Some "pipeline_not_found", Some "Pipeline configuration was not found at the event commit")].
Proof. vm_compute. repeat split. Qed.
