(* ===== verification/GithubCIProps.v ===== *)
(** Theorems on webhook deliveries: what is accepted, how often and by whom it is
    processed, and what every outcome of the orchestrator means. *)

From stdpp Require Import relations.
From S2P Require Import Prelude GoStd Codecs Regex RunModel Pipeline Compiler PlanFacts CompilerProps Scenario Authorization Database PgStore PgRefine PgSubmit PgActions PgRuns PgScenario GithubHook Automation Hub PgAutomation.
From S2P Require Import GithubCI GithubCIFacts HubScenario.

(** ** Processing *)

(** What an outcome of the orchestrator says about the database. *)
Section Outcomes.
Context `{MapOrder}.
Variable uuid_String : uuid → string.
Variable json_marshal : Plan → string.
Variable json_unmarshal : string → option Plan.
Variable yaml_decode : string → option Pipeline.
Variable json_canonical : Pipeline → option string.
Variable FetchPipeline : Event → string → result HookError (uuid * string).

Inductive settles (item : WorkItem) (h h' : hub) : Outcome → Prop :=
| settles_ignored o code summary :
    o ∈ [OutcomeIgnoredDisabled; OutcomeIgnoredFork; OutcomeIgnoredTrigger] →
    acted item (finalized_delivery (hb_now h)
      (mkFinalize (wi_ID item) (wi_LeaseID item) FinalIgnored time_zero code summary)) h h' →
    hb_core h' = hb_core h → settles item h h' o
| settles_run repository created :
    run_committed uuid_String item repository StatusQueued created (None, None) h h' →
    settles item h h' (if created then OutcomeRunCreated else OutcomeRunReused)
| settles_failed_run repository created code summary :
    code ∈ ["pipeline_not_found"; "pipeline_invalid"] →
    run_committed uuid_String item repository StatusFailed created (Some code, Some summary) h h' →
    settles item h h' (if created then OutcomeFailedRunCreated else OutcomeFailedRunReused)
| settles_retry now code summary :
    wi_Attempt item < MaxAttempts →
    acted item (finalized_delivery (hb_now h)
      (mkFinalize (wi_ID item) (wi_LeaseID item) FinalRetry (now + retryDelay (wi_Attempt item)) code summary)) h h' →
    hb_core h' = hb_core h → settles item h h' OutcomeRetryScheduled
| settles_dead code summary :
    acted item (finalized_delivery (hb_now h)
      (mkFinalize (wi_ID item) (wi_LeaseID item) FinalDead time_zero code summary)) h h' →
    hb_core h' = hb_core h → settles item h h' OutcomeDeadLettered.

(** Every error leaves the database as it was. *)
Definition settled (item : WorkItem) (h : hub) (r : hub * result HookError Outcome) : Prop :=
  match r.2 with Ok o => settles item h r.1 o | Err _ => r.1 = h end.

Lemma ignore_settled now item o code summary h :
  o ∈ [OutcomeIgnoredDisabled; OutcomeIgnoredFork; OutcomeIgnoredTrigger] →
  settled item h (ignore now item o code summary h).
Proof.
  intros Ho. unfold ignore, settled. destruct (FinalizeWebhook _ _ _) as [h1 [[]|e]] eqn:Hf; simpl.
  - eapply FinalizeWebhook_ok in Hf as (Ha & Hc & _); [|done..]. by eapply settles_ignored.
  - by eapply FinalizeWebhook_err.
Qed.

Lemma configuration_settled ids now item repository path source failure h :
  fl_code failure ∈ ["pipeline_not_found"; "pipeline_invalid"] →
  settled item h (commitConfigurationFailure uuid_String json_marshal json_unmarshal ids now item repository path source failure h).
Proof.
  intros Hcode. unfold commitConfigurationFailure, settled.
  destruct (CommitWebhookFailedRun _ _ _ _ _ _) as [h1 [result|e]] eqn:Hf; simpl.
  - apply CommitWebhookFailedRun_ok in Hf. by eapply settles_failed_run.
  - by eapply commit_failed_err.
Qed.

Lemma process_settled ids others now item h :
  let r := process uuid_String json_marshal json_unmarshal yaml_decode json_canonical FetchPipeline ids others now item h in
  ∃ h0, (h0 = h ∨ h0 = others h) ∧ settled item h0 r.
Proof.
  cbv zeta. unfold process. destruct (_ || _); [exists h; by split; [left|]|].
  destruct (if (_ : bool) then _ else _) as [[repository settings]|e]; [|exists h; by split; [left|]].
  destruct (negb (as_Enabled _)); [exists h; split; [by left|apply ignore_settled; set_solver]|].
  destruct (_ && _); [exists h; split; [by left|apply ignore_settled; set_solver]|].
  destruct (negb (triggerEnabled _ _)); [exists h; split; [by left|apply ignore_settled; set_solver]|].
  exists (others h). split; [by right|]. cbv zeta. destruct (FetchPipeline _ _) as [[id source]|e].
  - destruct (id <>? repository); [done|]. destruct (compile_source _ _ _ _) as [plan|e] eqn:Hc.
    + unfold settled. destruct (CommitWebhookRun _ _ _ _ _ _) as [h1 [result|e]] eqn:Hf; simpl.
      * apply CommitWebhookRun_ok in Hf. by eapply settles_run.
      * by eapply commit_err.
    + apply configuration_settled. assert (e = ErrInvalidPipeline) as ->; [|set_solver].
      unfold compile_source in Hc. destruct (Compile _ _ _ _ _); congruence.
  - destruct (e =? ErrNotFound) eqn:He; [|done]. bools. subst. apply configuration_settled. set_solver.
Qed.

Lemma failure_settled now store_now item e h : settled item h (finalizeFailure now store_now item e h).
Proof.
  unfold finalizeFailure, failure_final. destruct (fl_transient _ && _) eqn:Ht.
  - apply andb_true_iff in Ht as [_ Ht%Z.ltb_lt]. unfold settled. destruct (FinalizeWebhook _ _ _) as [h1 [[]|e']] eqn:Hf; simpl.
    + eapply FinalizeWebhook_ok in Hf as (Ha & Hc & _); [|done..]. by eapply settles_retry.
    + by eapply FinalizeWebhook_err.
  - destruct (if fl_transient _ then _ else _) as [code summary]. unfold settled.
    destruct (FinalizeWebhook _ _ _) as [h1 [[]|e']] eqn:Hf; simpl.
    + eapply FinalizeWebhook_ok in Hf as (Ha & Hc & _); [|done..]. by eapply settles_dead.
    + by eapply FinalizeWebhook_err.
Qed.

(** Every call of the orchestrator does one of two things.  With an outcome, it has
    moved the delivery, as the holder of its live lease and in one transaction, to
    the state that the outcome names: ignored; processed with a run for its commit,
    which is new exactly when the outcome says so; waiting for a later attempt,
    while attempts are left; or dead.  Without one, nothing has changed and the
    lease will expire. *)
Theorem process_outcome ids others now failure_now store_now item h :
  let r := Process uuid_String json_marshal json_unmarshal yaml_decode json_canonical FetchPipeline
             ids others now failure_now store_now item h in
  ∃ h0, (h0 = h ∨ h0 = others h) ∧
    match r.2 with Ok outcome => settles item h0 r.1 outcome | Err _ => r.1 = h0 end.
Proof.
  cbv zeta. unfold Process. destruct (process_settled ids others now item h) as (h0 & Hh0 & Hs).
  destruct (process _ _ _ _ _ _ _ _ _ _ _) as [h1 [o|e]]; unfold settled in Hs; simpl in Hs; [by exists h0|subst h1].
  exists h0. split; [done|]. destruct (_ || _); [done|]. apply failure_settled.
Qed.
End Outcomes.

(** The delay before attempt n+1 is five seconds doubled n-1 times, at most fifteen
    minutes: the loop of the code ends and never passes its bound. *)
Theorem retryDelay_closed_form (attempt : nat) :
  (0 < attempt)%nat → retryDelay (Z.of_nat attempt) = Z.min (15 * Minute) (5 * Second * 2 ^ (Z.of_nat attempt - 1)).
Proof.
  intros Ha. destruct (decide (attempt < 9)%nat) as [Hs|Hs].
  - do 9 (destruct attempt as [|attempt]; [try lia; vm_compute; reflexivity|]). lia.
  - rewrite Z.min_l.
    2:{ etrans; [|apply Z.mul_le_mono_nonneg_l; [done|apply (Z.pow_le_mono_r 2 8); lia]]. vm_compute. discriminate. }
    unfold retryDelay. do 8 (rewrite retry_loop_step; [|lia|vm_compute; reflexivity]). reflexivity.
Qed.
Lemma retryDelay_closed_form_witness : (0 < 3)%nat ∧ retryDelay 3 = 20 * Second.
Proof. split; [lia|]. change 3 with (Z.of_nat 3). rewrite retryDelay_closed_form by lia. reflexivity. Defined.

(** ** Acceptance *)

Lemma HasPrefix_split s p : HasPrefix s p = true → s = p +:+ TrimPrefix s p.
Proof.
  intros Hp. unfold TrimPrefix. rewrite Hp. unfold HasPrefix in Hp. apply has_prefix_spec in Hp as [k Hk].
  apply (inj chars). rewrite chars_app, Hk, drop_app_length, chars_of_chars. done.
Qed.

(** A signature in GitHub's format is accepted exactly when the secret has at least
    16 bytes and the hexadecimal digits, in either case, are those of the keyed
    digest of the body; the signature that GitHub computes is accepted. *)
Theorem VerifyHMACSHA256_exact secret body received :
  (VerifyHMACSHA256 secret body received "sha256=" = Ok tt ↔
   16 ≤ len (of_chars secret) ∧ ∃ digits, received = "sha256=" +:+ digits ∧ hex_decode (chars digits) = Some (hmac secret body)) ∧
  (VerifyHMACSHA256 secret body (github_signature secret body) "sha256=" = Ok tt ↔ 16 ≤ len (of_chars secret)).
Proof.
  assert (Hiff : ∀ received, VerifyHMACSHA256 secret body received "sha256=" = Ok tt ↔
    16 ≤ len (of_chars secret) ∧ ∃ digits, received = "sha256=" +:+ digits ∧ hex_decode (chars digits) = Some (hmac secret body)).
  { clear received. intros received. split.
    - intros (Hl & Hp & Hd)%VerifyHMACSHA256_inv. split; [done|]. eexists. split; [by apply HasPrefix_split|done].
    - intros (Hl & digits & -> & Hd). unfold VerifyHMACSHA256. rewrite (proj2 (Z.ltb_ge _ _) Hl).
      destruct (TrimPrefix_app "sha256=" digits) as [-> ->].
      rewrite bool_decide_eq_false_2 by done. change ("sha256=" <>? "") with true. cbv iota. cbn [negb andb].
      rewrite Hd, length_hmac, bool_decide_eq_true_2 by done. done. }
  split; [apply Hiff|]. rewrite Hiff. split; [by intros [? _]|]. intros Hl. split; [done|].
  eexists. split; [reflexivity|]. by rewrite chars_of_chars, hex_decode_encode.
Qed.

(** C28: nothing reaches the inbox unless the body is not empty, of bounded size and
    signed with the secret of the App; what is kept names the body by its digest,
    satisfies the checks on events and carries no URL from the request. *)
Theorem webhook_authentic `{MapOrder} unmarshal_push unmarshal_pull now secret headers body delivery :
  checked_delivery unmarshal_push unmarshal_pull now secret headers body = Ok delivery →
  (∃ key signature, secret = Ok key ∧ singleHeader headers "X-Hub-Signature-256" = Some signature ∧
     HasPrefix signature "sha256=" = true ∧ hex_decode (chars (TrimPrefix signature "sha256=")) = Some (hmac key body)) ∧
  0 < len (of_chars body) ≤ MaxBodyBytes ∧
  de_PayloadSHA256 delivery = PayloadDigest body ∧
  validateEvent (de_NormalizedEvent delivery) = Ok tt ∧
  re_CloneURL (ev_Repository (de_NormalizedEvent delivery)) = "" ∧
  re_WebURL (ev_Repository (de_NormalizedEvent delivery)) = "".
Proof.
  unfold checked_delivery. destruct (_ || _) eqn:Hbody; [done|].
  destruct (singleHeader headers "X-GitHub-Delivery") as [id|]; [|done]. destruct (negb _); [done|].
  destruct (singleHeader headers "X-GitHub-Event") as [type|]; [|done]. destruct (64 <? len type); [done|].
  destruct (singleHeader headers "X-Hub-Signature-256") as [signature|]; [|done].
  destruct secret as [key|e]; [|done]. cbn [rbind]. destruct (VerifyHMACSHA256 _ _ _ _) as [[]|] eqn:Hv; [|done].
  cbn [is_ok negb]. destruct (ParseWebhook _ _ _ _ _ _) as [event|e]; [|done].
  destruct (validateEvent event) as [[]|] eqn:Hval; [|done]. cbn [rbind]. intros [= <-]. bools.
  apply VerifyHMACSHA256_inv in Hv as (_ & Hp & Hd). split; [by exists key, signature|]. split; [|done].
  assert (0 ≤ len (of_chars body)) by (rewrite len_chars; lia). lia.
Qed.
Lemma webhook_authentic_witness :
  len (of_chars demo_body) = 4 ∧ de_PayloadSHA256 demo_delivery = PayloadDigest demo_body.
Proof.
  split; [reflexivity|].
  apply (webhook_authentic (H := library_order) demo_push no_pull Second (Ok demo_secret)
    (demo_headers (github_signature demo_secret demo_body)) demo_body demo_delivery demo_accepted).
Defined.

(** ** The inbox *)

Lemma list_find_app_new {A} (P : A → Prop) `{∀ x, Decision (P x)} l x :
  list_find P l = None → P x → list_find P (l ++ [x]) = Some (length l, x).
Proof.
  intros Hn Hx. rewrite list_find_app_r by done. simpl. rewrite decide_True by done. reflexivity.
Qed.

(** Deliveries are received once: a repeated delivery is acknowledged with the
    identifier of the first one and changes nothing, and the same delivery ID with
    another event type or payload is refused and changes no delivery. *)
Theorem inbox_idempotent id delivery h h' receipt :
  ReceiveWebhook id delivery h = (h', Ok receipt) →
  (∀ id', ReceiveWebhook id' delivery h' = (h', Ok (mkReceipt (rc_ID receipt) true))) ∧
  (∀ id' other,
     (de_Provider other, de_ProviderInstance other, de_DeliveryID other)
       = (de_Provider delivery, de_ProviderInstance delivery, de_DeliveryID delivery) →
     (de_EventType other, de_PayloadSHA256 other) ≠ (de_EventType delivery, de_PayloadSHA256 delivery) →
     (ReceiveWebhook id' other h').2 ∈ [Err ErrConflict; Err ErrInvalidRequest]
     ∧ hb_deliveries (ReceiveWebhook id' other h').1 = hb_deliveries h').
Proof.
  unfold ReceiveWebhook at 1. destruct (_ || _) eqn:Hvalid; [done|]. intros Hreceived.
  assert (Hfound : ∃ i d, list_find (λ d, same_delivery delivery d = true) (hb_deliveries h') = Some (i, d) ∧
    dl_id d = rc_ID receipt ∧ dl_event_type d = de_EventType delivery ∧ dl_payload_sha256 d = de_PayloadSHA256 delivery).
  { destruct (list_find _ (hb_deliveries h)) as [[i d]|] eqn:Hf; revert Hreceived.
    - destruct ((dl_event_type d <>? _) || _) eqn:Hsame; [done|]. intros [= <- <-]. bools. by exists i, d.
    - destruct (bool_decide (id ∈ _)); [done|]. intros [= <- <-]. eexists _, (new_delivery id delivery).
      split; [apply list_find_app_new; [done|]|done]. unfold same_delivery. simpl. by rewrite !bool_decide_eq_true_2. }
  clear Hreceived. destruct Hfound as (i & d & Hf & Hid & Htype & Hdigest).
  assert (Hagain : ∀ id', ReceiveWebhook id' delivery h' = (h', Ok (mkReceipt (rc_ID receipt) true))).
  { intros id'. unfold ReceiveWebhook. rewrite Hvalid, Hf, Htype, Hdigest, Hid, !bool_decide_eq_true_2 by done. done. }
  split; [done|]. intros id' other [= Hp Hi Hd] Hne. clear Hvalid.
  assert (Hsame : ∀ x, same_delivery other x = same_delivery delivery x).
  { intros x. unfold same_delivery. by rewrite Hp, Hi, Hd. }
  unfold ReceiveWebhook. destruct (_ || _); [split; [set_solver|done]|].
  rewrite (list_find_ext _ (λ d, same_delivery delivery d = true)) by (intros x; by rewrite Hsame).
  rewrite Hf. destruct (_ || _) eqn:Hother; [split; [set_solver|done]|]. exfalso. apply Hne. bools. congruence.
Qed.
Lemma inbox_idempotent_witness :
  (ReceiveWebhook 90 demo_delivery hub_received).2 = Ok (mkReceipt 70 true).
Proof.
  assert (Hr : ReceiveWebhook 70 demo_delivery demo_hub = (hub_received, Ok (mkReceipt 70 false))) by (vm_compute; reflexivity).
  by rewrite (proj1 (inbox_idempotent 70 demo_delivery demo_hub hub_received (mkReceipt 70 false) Hr)).
Defined.

(** ** Attempts and leases *)

Abbreviation demo_step := (inbox_step demo_uuid demo_marshal hub_unmarshal).
Abbreviation demo_inbox := (inbox_reachable demo_uuid demo_marshal hub_unmarshal).

Lemma demo_inbox_received : demo_inbox (mkInbox hub_received []).
Proof.
  apply (reachable_step _ _ _ None (mkInbox demo_hub [])); [by apply reachable_start|].
  apply (step_receive _ _ _ 70 demo_delivery (mkInbox demo_hub [])).
Qed.

Lemma demo_inbox_claimed : demo_inbox (mkInbox hub_claimed [demo_item]).
Proof.
  apply (reachable_step _ _ _ (Some 71%N) (mkInbox hub_received [])); [apply demo_inbox_received|].
  eapply (step_claim _ _ _ no_lock 71 Second Minute demo_item hub_claimed (mkInbox hub_received [])); [apply not_elem_of_nil|].
  exact demo_claim.
Qed.

(** C5: in every history of the inbox, whatever the interleaving of workers, retries,
    recoveries and lost leases, a delivery is attempted at most twelve times, one
    that waits has an attempt left, a delivery is leased exactly while it is
    processed, and no two rows stand for the same delivery. *)
Theorem attempts_bounded uuid_String json_marshal json_unmarshal s :
  inbox_reachable uuid_String json_marshal json_unmarshal s →
  NoDup (delivery_key <$> ib_rows s) ∧
  ∀ d, d ∈ ib_rows s →
    0 ≤ dl_attempt_count d ≤ MaxAttempts ∧
    (dl_status d = "received" → dl_attempt_count d < MaxAttempts) ∧
    (dl_status d = "processing" ↔ dl_lease d ≠ None).
Proof.
  intros [_ Hkeys _ Hrows]%inbox_reachable_inv. split; [done|]. intros d Hd.
  destruct (Hrows d Hd) as [_ Hat Hre Hl]. split; [done|]. split; [done|]. unfold lease_ok in Hl.
  destruct (dl_lease d) as [[l e]|]; [by destruct Hl|done].
Qed.
Lemma attempts_bounded_witness :
  demo_inbox (mkInbox hub_claimed [demo_item]) ∧ dl_attempt_count <$> hb_deliveries hub_claimed = [1]
  ∧ NoDup (delivery_key <$> hb_deliveries hub_claimed).
Proof.
  split; [apply demo_inbox_claimed|]. split; [vm_compute; reflexivity|].
  apply (attempts_bounded _ _ _ _ demo_inbox_claimed).
Defined.

(** Steps of anyone but the holder of a lease, while it lasts. *)
Definition foreign_step uuid_String json_marshal json_unmarshal (lease : uuid) (expires : time) (s s' : inbox) : Prop :=
  ∃ a, inbox_step uuid_String json_marshal json_unmarshal a s s' ∧ a ≠ Some lease ∧ hb_now (ib_hub s) < expires.

(** C24: a worker that holds the lease of a delivery is its only owner: until the lease
    expires, no sequence of steps of other workers, of new deliveries or of the
    recovery changes that delivery. *)
Theorem delivery_lease_exclusive uuid_String json_marshal json_unmarshal s s' d lease expires :
  inbox_reachable uuid_String json_marshal json_unmarshal s → d ∈ ib_rows s → dl_lease d = Some (lease, expires) →
  rtc (foreign_step uuid_String json_marshal json_unmarshal lease expires) s s' → d ∈ ib_rows s'.
Proof.
  intros Hs Hd Hl Hsteps. induction Hsteps as [s|s s1 s' (a & Hstep & Ha & He) _ IH]; [done|].
  apply IH; [by eapply reachable_step|]. eapply step_keeps; [by eapply inbox_reachable_inv|done..].
Qed.
Lemma delivery_lease_exclusive_witness :
  ∃ d, d ∈ hb_deliveries hub_claimed ∧ dl_lease d = Some (71%N, Second + Minute) ∧
    d ∈ hb_deliveries (RecoverWebhookLeases no_lock 100 hub_claimed).1.
Proof.
  eexists. split; [left|]. split; [vm_compute; reflexivity|].
  eapply (delivery_lease_exclusive demo_uuid demo_marshal hub_unmarshal _
    (mkInbox (RecoverWebhookLeases no_lock 100 hub_claimed).1 [demo_item])); [apply demo_inbox_claimed|left|vm_compute; reflexivity|].
  apply rtc_once. exists None. split; [apply (step_recover _ _ _ no_lock 100 (mkInbox hub_claimed [demo_item]))|].
  split; [done|]. vm_compute. reflexivity.
Defined.

Lemma take_all_elem {A} (x : A) l n : x ∈ l → (length l ≤ n)%nat → x ∈ take n l.
Proof. intros Hx Hn. by rewrite take_ge. Qed.

(** A delivery whose worker died is not lost: once its lease has expired, a recovery
    that no lock and no limit keeps away from it makes it available at once, or
    declares it dead if it has used its twelve attempts. *)
Theorem expired_lease_recovered locked limit h d lease expires :
  d ∈ hb_deliveries h → dl_status d = "processing" → dl_lease d = Some (lease, expires) → expires ≤ hb_now h →
  locked (dl_id d) = false → 1 ≤ limit ≤ 1000 → count (stale_delivery (hb_now h)) (hb_deliveries h) ≤ limit →
  recovered_delivery (hb_now h) d ∈ hb_deliveries (RecoverWebhookLeases locked limit h).1 ∧
  (dl_attempt_count d < MaxAttempts → deliverable (hb_now h) (recovered_delivery (hb_now h) d) = bool_decide (is_Some (dl_event d))) ∧
  (MaxAttempts ≤ dl_attempt_count d → dl_status (recovered_delivery (hb_now h) d) = "dead_letter").
Proof.
  intros Hd Hst Hl He Hlock Hlimit Hcount. split; [|split].
  - unfold RecoverWebhookLeases. rewrite (proj2 (Z.ltb_ge limit 1)), (proj2 (Z.ltb_ge 1000 limit)) by lia. simpl.
    unfold update_all. apply list_elem_of_fmap. exists d. rewrite bool_decide_eq_true_2; [done|].
    apply list_elem_of_fmap_2. unfold expired_deliveries. set (stale := List.filter _ _).
    assert (Hin : d ∈ stale).
    { apply list_elem_of_In, filter_In. split; [by apply list_elem_of_In|]. unfold stale_delivery.
      rewrite Hst, Hl, Hlock, bool_decide_eq_true_2 by done. by apply Z.leb_le in He as ->. }
    apply take_all_elem; [by rewrite merge_sort_Permutation|]. rewrite merge_sort_Permutation.
    assert (Hlen : count (λ d, stale_delivery (hb_now h) d && negb (locked (dl_id d))) (hb_deliveries h)
      ≤ count (stale_delivery (hb_now h)) (hb_deliveries h)).
    { clear. induction (hb_deliveries h) as [|x l IH]; [done|]. rewrite !count_cons.
      destruct (stale_delivery _ x), (locked _); simpl; lia. }
    unfold count at 1 in Hlen. fold stale in Hlen. lia.
  - intros Ha. unfold deliverable, recovered_delivery. simpl. rewrite (proj2 (Z.leb_gt _ _) Ha), Z.leb_refl. by rewrite andb_true_r.
  - intros Ha. unfold recovered_delivery. simpl. by rewrite (proj2 (Z.leb_le _ _) Ha).
Qed.
Lemma expired_lease_recovered_witness :
  let h := with_core (elapse (2 * Minute) (hb_core hub_claimed)) hub_claimed in
  ∃ d, dl_id d = 70%N ∧ recovered_delivery (hb_now h) d ∈ hb_deliveries (RecoverWebhookLeases no_lock 100 h).1.
Proof.
  eexists. split; [|eapply (expired_lease_recovered no_lock 100 _ _ 71 (Second + Minute));
    [left|vm_compute; reflexivity|vm_compute; reflexivity|vm_compute; discriminate|reflexivity|lia|vm_compute; discriminate]].
  vm_compute. reflexivity.
Defined.

(** ** Runs that deliveries start *)

Section Scheduled.
Context `{MapOrder}.
Variable sha256 : string → string.
Variable uuid_String : uuid → string.
Variable json_marshal : Plan → string.
Variable json_unmarshal : string → option Plan.
Variable yaml_decode : string → option Pipeline.
Variable json_canonical : Pipeline → option string.
Variable FetchPipeline : Event → string → result HookError (uuid * string).

(** The JSON decoder does not invent: what it reads back is what was written. *)
Hypothesis json_round_trip : ∀ plan plan', json_unmarshal (json_marshal plan) = Some plan' → plan' = plan.

Abbreviation db_reachable := (pg_reachable sha256 uuid_String json_unmarshal).

(** The transactions of a webhook, as operations of the run store. *)
Lemma insert_reachable o ids record d d' event :
  startable json_unmarshal record ∨ rejected json_unmarshal record →
  insertRun uuid_String json_unmarshal o ids record d = Ok d' →
  db_reachable d → db_reachable (with_audit (db_audit d' ++ [event]) d').
Proof.
  intros Hrec He Hd. apply (pg_reachable_step _ _ _ (PAudit [event])); [|done].
  assert (d' = (PgCreate uuid_String json_unmarshal o ids record d).1) as ->.
  { unfold PgCreate, transaction. by rewrite He. }
  destruct Hrec; [by apply (pg_reachable_step _ _ _ (PCreate o ids record))|by apply (pg_reachable_step _ _ _ (PReject o ids record))].
Qed.

Lemma CommitWebhookRun_reachable ids request h :
  stages_ok (pn_Stages (cm_Plan request)) → db_reachable (hb_core h) →
  db_reachable (hb_core (CommitWebhookRun uuid_String json_marshal json_unmarshal ids request h).1).
Proof.
  intros Hplan Hd. unfold CommitWebhookRun. destruct (validateWebhookRunCommit request); [|done].
  match goal with |- context [hub_transaction ?b h] => destruct (hub_transaction_cases b h) as [(h1 & res & Hb & ->)|(e & Hb & ->)] end;
    [|done]. revert Hb. destruct (lock_delivery _ _ _ _) as [d|]; [|done]. cbn [rbind].
  destruct (existing_run _ _ _) as [run|].
  - destruct (negb _); [done|]. destruct (finishWebhookRun _ _ _) as [h2|] eqn:Hf; [|done]. intros [= <- _].
    by apply complete_delivery_rows in Hf as ->.
  - unfold create_webhook_run. destruct (put_definition _ _ _ _ _) as [ds did]. destruct (put_version _ _ _ _ _ _) as [vs vid].
    destruct (on_core _ _) as [h2|] eqn:Hc; [|done]. apply on_core_inv in Hc as (core & Hi & ->). cbn [rbind].
    destruct (finishWebhookRun _ _ _) as [h3|] eqn:Hf; [|done]. intros [= <- _].
    apply complete_delivery_rows in Hf as ->. eapply insert_reachable; [|exact Hi|exact Hd].
    left. split; [|done..]. intros plan. cbn [rn_Plan webhook_run]. by intros ->%json_round_trip.
Qed.

Lemma CommitWebhookFailedRun_reachable ids request h :
  db_reachable (hb_core h) →
  db_reachable (hb_core (CommitWebhookFailedRun uuid_String json_marshal json_unmarshal ids request h).1).
Proof.
  intros Hd. unfold CommitWebhookFailedRun. destruct (validateWebhookFailedRunCommit request); [|done].
  match goal with |- context [hub_transaction ?b h] => destruct (hub_transaction_cases b h) as [(h1 & res & Hb & ->)|(e & Hb & ->)] end;
    [|done]. revert Hb. destruct (lock_delivery _ _ _ _) as [d|]; [|done]. cbn [rbind].
  destruct (existing_run _ _ _) as [run|].
  - destruct (_ || _); [done|]. destruct (complete_delivery _ _ _ _ _) as [h2|] eqn:Hf; [|done]. intros [= <- _].
    by apply complete_delivery_rows in Hf as ->.
  - unfold create_failed_run. destruct (on_core _ _) as [h2|] eqn:Hc; [|done].
    apply on_core_inv in Hc as (core & Hi & ->). cbn [rbind].
    destruct (complete_delivery _ _ _ _ _) as [h3|] eqn:Hf; [|done]. intros [= <- _].
    apply complete_delivery_rows in Hf as ->. eapply insert_reachable; [|exact Hi|exact Hd].
    right. split; [|done..]. intros plan. cbn [rn_Plan failed_run]. by intros ->%json_round_trip.
Qed.

Lemma FinalizeWebhook_core now request h : hb_core (FinalizeWebhook now request h).1 = hb_core h.
Proof.
  unfold FinalizeWebhook, update_deliveries. destruct (_ || _); [done|]. destruct (_ && _); [done|].
  destruct (negb _); [done|]. by destruct (_ <>? 1).
Qed.

Lemma ignore_core now item o code summary h : hb_core (ignore now item o code summary h).1 = hb_core h.
Proof.
  unfold ignore. pose proof (FinalizeWebhook_core now (mkFinalize (wi_ID item) (wi_LeaseID item) FinalIgnored time_zero code summary) h) as Hc.
  by destruct (FinalizeWebhook _ _ _) as [h1 []].
Qed.

Lemma failure_core now store_now item e h : hb_core (finalizeFailure now store_now item e h).1 = hb_core h.
Proof.
  unfold finalizeFailure. destruct (failure_final _ _ _) as [final o].
  pose proof (FinalizeWebhook_core store_now final h) as Hc. by destruct (FinalizeWebhook _ _ _) as [h1 []].
Qed.

Lemma configuration_reachable ids now item repository path source failure h :
  db_reachable (hb_core h) →
  db_reachable (hb_core (commitConfigurationFailure uuid_String json_marshal json_unmarshal ids now item repository path source failure h).1).
Proof.
  intros Hd. unfold commitConfigurationFailure. set (request := mkFailedRunCommit _ _ _ _ _ _ _).
  pose proof (CommitWebhookFailedRun_reachable ids request h Hd) as Hr. by destruct (CommitWebhookFailedRun _ _ _ _ _ _) as [h1 []].
Qed.

(** C4: whatever a delivery leads to, the runs stay a history of the run store: a run
    that an event starts is a submission of a compiled plan, one that cannot be
    compiled is recorded as failed.  So every theorem on reachable databases holds
    for the runs of webhooks too. *)
Theorem webhook_runs_are_scheduled ids others now failure_now store_now item h :
  db_reachable (hb_core h) → db_reachable (hb_core (others h)) →
  db_reachable (hb_core (Process uuid_String json_marshal json_unmarshal yaml_decode json_canonical FetchPipeline
    ids others now failure_now store_now item h).1).
Proof.
  intros Hd Ho. unfold Process.
  set (r := process _ _ _ _ _ _ _ _ _ _ _). assert (Hr : db_reachable (hb_core r.1)).
  { unfold r, process. destruct (_ || _); [done|]. destruct (if (_ : bool) then _ else _) as [[repository settings]|e]; [|done].
    destruct (negb (as_Enabled _)); [by rewrite ignore_core|]. destruct (_ && _); [by rewrite ignore_core|].
    destruct (negb (triggerEnabled _ _)); [by rewrite ignore_core|]. cbv zeta.
    destruct (FetchPipeline _ _) as [[id source]|e]; [|destruct (e =? ErrNotFound); [by apply configuration_reachable|done]].
    destruct (id <>? repository); [done|]. destruct (compile_source _ _ _ _) as [plan|e] eqn:Hc; [|by apply configuration_reachable].
    assert (Hplan : stages_ok (pn_Stages plan)).
    { unfold compile_source in Hc. destruct (Compile _ _ _ _ _) eqn:Hcomp; [|done]. injection Hc as ->. by eapply Compile_stages_ok. }
    set (request := mkRunCommit _ _ _ _ _ _). pose proof (CommitWebhookRun_reachable ids request (others h) Hplan Ho) as Hcommit.
    by destruct (CommitWebhookRun _ _ _ _ _ _) as [h1 []]. }
  destruct r as [h1 [o|e]]; [done|]. destruct (_ || _); [done|]. by rewrite failure_core.
Qed.
End Scheduled.

#[local] Existing Instance library_order.

Lemma demo_hub_reachable : pg_reachable demo_sha256 demo_uuid hub_unmarshal (hb_core hub_claimed).
Proof. exists (hb_core hub_claimed). split; [by repeat split|constructor]. Qed.

Lemma webhook_runs_are_scheduled_witness :
  let h := (demo_process demo_fetch demo_item hub_claimed).1 in
  length (db_jobs (hb_core h)) = 3%nat ∧ pg_reachable demo_sha256 demo_uuid hub_unmarshal (hb_core h).
Proof.
  split; [vm_compute; reflexivity|].
  apply (webhook_runs_are_scheduled (H := library_order) demo_sha256 demo_uuid demo_marshal hub_unmarshal demo_decode
    demo_canonical demo_fetch demo_round_trip); apply demo_hub_reachable.
Defined.
