(* ===== verification/AutomationProps.v ===== *)
(** Theorems on project automation: accepted paths stay below the repository, an
    enabled project has a validated pipeline, and updates do not overwrite each
    other. *)

From S2P Require Import Prelude GoStd Regex RunModel Authorization Codecs Database Identity PgScenario GithubHook Automation Hub PgAutomation HubScenario.

(** A pipeline path that is accepted is relative and names a file below the root of
    the repository: no segment is empty, "." or "..", nothing in it is a backslash
    or a control character, and it ends in .yml or .yaml. *)
Theorem pipeline_path_safe value :
  ValidatePipelinePath value = Ok tt →
  below_root (Split value "/") ∧ 1 ≤ len value ≤ 256 ∧ Contains value "\" = false ∧
  contains_control (chars value) = false ∧ (HasSuffix value ".yml" || HasSuffix value ".yaml") = true.
Proof. intros (? & ? & ? & ? & ?)%ValidatePipelinePath_inv. done. Qed.
Lemma pipeline_path_safe_witness : below_root (Split "ci/build.yaml" "/").
Proof. apply (pipeline_path_safe "ci/build.yaml"). vm_compute. reflexivity. Defined.

(** ** Histories of settings *)

Section History.
Variable sha256 : string → string.

Inductive automation_step : hub → hub → Prop :=
| step_update locked_for waited token id update h :
    automation_step h (UpdateProjectAutomation sha256 locked_for waited token id update h).1
| step_validated locked_for waited token validation h :
    automation_step h (RecordProjectAutomationValidation sha256 locked_for waited token validation h).1
| step_gitee_validated locked_for waited token expected settings proof h :
    automation_step h (RecordGiteeValidation sha256 locked_for waited token expected settings proof h).1
| step_gitee_webhook locked_for waited token expected h :
    automation_step h (SaveGiteeWebhook sha256 locked_for waited token expected h).1
| step_elsewhere h h' :   (** everything that leaves the settings and the validations alone *)
    hb_settings h' = hb_settings h → hb_validations h' = hb_validations h →
    hb_gitee_validations h' = hb_gitee_validations h → automation_step h h'.

Inductive automation_reachable : hub → Prop :=
| automation_start h : hb_settings h = ∅ → automation_reachable h
| automation_next h h' : automation_reachable h → automation_step h h' → automation_reachable h'.

(** The pipeline at a path was validated for a project. *)
Definition validated (h : hub) (id : uuid) (path : string) : Prop :=
  (∃ v, hb_validations h !! id = Some v ∧ va_PipelinePath v = path) ∨
  (∃ v, hb_gitee_validations h !! id = Some v ∧ gv_pipeline_path v = path).

Record settings_ok (h : hub) (id : uuid) (s : AutomationSettings) : Prop := {
  so_path : ValidatePipelinePath (as_PipelinePath s) = Ok tt;
  so_trigger : as_Enabled s = true → (as_TriggerPush s || as_TriggerTag s || as_TriggerPullRequest s) = true;
  so_validated : as_Enabled s = true → validated h id (as_PipelinePath s);
  so_revision : 1 ≤ as_Revision s;
}.

Definition automation_inv (h : hub) : Prop := ∀ id s, hb_settings h !! id = Some s → settings_ok h id s.

(** What the successful branches write. *)
Lemma update_spec locked_for waited token id update h h' s :
  UpdateProjectAutomation sha256 locked_for waited token id update h = (h', Ok s) →
  AutomationUpdate_Validate update = Ok tt ∧
  default 0 (as_Revision <$> hb_settings h !! id) = up_ExpectedRevision update ∧
  s = updated_settings update (hb_settings h !! id) ∧
  hb_settings h' = <[id := s]> (hb_settings h) ∧ hb_validations h' = hb_validations h ∧
  hb_gitee_validations h' = hb_gitee_validations h ∧
  (up_Enabled update = true → validated h id (up_PipelinePath update)).
Proof.
  unfold UpdateProjectAutomation. destruct (AutomationUpdate_Validate update) as [[]|]; [|done]. unfold hub_transaction.
  destruct (project_session _ _ _ _ _) as [session|]; [|done]. cbn [rbind hb_settings with_core].
  set (row := hb_settings h !! id). set (current := match row with Some _ => _ | None => _ end).
  destruct (current <>? _) eqn:Hc; [done|]. destruct (_ && _ && _) eqn:Hready; [done|].
  destruct (still_live _ _ _) as [h2|] eqn:Hl; [|done]. cbn [rbind]. intros [= <- <-].
  unfold still_live in Hl. destruct (lift _); [|done]. injection Hl as <-. split; [done|]. split.
  { bools. rewrite <-Hc. unfold current. by destruct row. }
  do 4 (split; [done|]). intros He. rewrite He in Hready. cbn [andb] in Hready.
  apply andb_false_iff in Hready as [Hg|Hg]; apply negb_false_iff in Hg.
  - left. unfold github_ready in Hg. cbn [hb_validations with_core] in Hg. destruct (hb_validations h !! id) as [v|]; [|done].
    destruct (app_revision _ _); [|done]. exists v. by bools.
  - right. unfold gitee_ready in Hg. cbn [hb_gitee_validations with_core] in Hg.
    destruct (hb_gitee_validations h !! id) as [v|]; [|done].
    destruct (provider_repository _ _ _); [|done]. destruct (hb_gitee_hooks _ !! id); [|done].
    destruct (gitee_grant _ _); [|done]. exists v. by bools.
Qed.

Lemma validation_spec locked_for waited token v h h' :
  RecordProjectAutomationValidation sha256 locked_for waited token v h = (h', Ok tt) →
  hb_settings h' = hb_settings h ∧ hb_gitee_validations h' = hb_gitee_validations h ∧
  hb_validations h' = <[va_RepositoryID v := v]> (hb_validations h) ∧
  (∀ s, hb_settings h !! va_RepositoryID v = Some s → va_PipelinePath v = as_PipelinePath s).
Proof.
  unfold RecordProjectAutomationValidation. destruct (AutomationValidation_Validate v); [|done]. unfold hub_transaction.
  destruct (project_session _ _ _ _ _) as [session|]; [|done]. cbn [rbind].
  destruct (app_revision _ _) as [revision|]; [|done].
  destruct (current_settings _ _) as [path current] eqn:Hs. destruct (_ || _) eqn:Hc; [done|].
  destruct (still_live _ _ _) as [h2|] eqn:Hl; [|done]. cbn [rbind]. intros [= <-].
  unfold still_live in Hl. destruct (lift _); [|done]. injection Hl as <-. do 3 (split; [done|]).
  intros s Hrow. unfold current_settings in Hs. cbn [hb_settings with_core] in Hs. rewrite Hrow in Hs.
  injection Hs as <- <-. by bools.
Qed.

Lemma giteeProjectTx_ok {A} locked_for waited token id (fn : Session → Binding → hub → result HookError (hub * A)) h h' a :
  giteeProjectTx sha256 locked_for waited token id fn h = (h', Ok a) →
  ∃ session binding h1 h2, hb_settings h1 = hb_settings h ∧ hb_validations h1 = hb_validations h ∧
    hb_gitee_validations h1 = hb_gitee_validations h ∧ bd_ProjectID binding = id ∧
    fn session binding h1 = Ok (h2, a) ∧
    hb_settings h' = hb_settings h2 ∧ hb_validations h' = hb_validations h2 ∧
    hb_gitee_validations h' = hb_gitee_validations h2.
Proof.
  unfold giteeProjectTx, hub_transaction. destruct (project_session _ _ _ _ _) as [session|]; [|done]. cbn [rbind].
  set (h1 := with_core _ h). destruct (gitee_binding id h1) as [binding|] eqn:Hb; [|done].
  destruct (fn session binding h1) as [[h2 b]|] eqn:Hf; [|done]. cbn [rbind].
  destruct (still_live _ _ _) as [h3|] eqn:Hl; [|done]. cbn [rbind]. intros [= <- <-].
  unfold still_live in Hl. destruct (lift _); [|done]. injection Hl as <-.
  exists session, binding, h1, h2. do 3 (split; [done|]). split; [|done].
  unfold gitee_binding in Hb. destruct (provider_repository _ _ _); [|done]. cbn in Hb.
  destruct (hb_links h !! id) as [link|]; [|done]. cbn in Hb. destruct (lk_gitee_grant link); [|done]. cbn in Hb.
  destruct (hb_gitee_grants h !! _); [|done]. cbn in Hb. destruct (_ && _); [|done]. by injection Hb as <-.
Qed.

Lemma gitee_validation_spec locked_for waited token expected settings proof h h' :
  RecordGiteeValidation sha256 locked_for waited token expected settings proof h = (h', Ok tt) →
  ∃ id v, hb_settings h' = hb_settings h ∧ hb_validations h' = hb_validations h ∧
    hb_gitee_validations h' = <[id := v]> (hb_gitee_validations h) ∧
    (∀ s, hb_settings h !! id = Some s → gv_pipeline_path v = as_PipelinePath s).
Proof.
  unfold RecordGiteeValidation. destruct (_ || _); [done|].
  intros (session & b & h1 & h2 & Hs1 & Hv1 & Hg1 & Hid & Hf & Hs & Hv & Hg)%giteeProjectTx_ok. rewrite Hs, Hv, Hg.
  cbv beta zeta in Hf. destruct (_ || _); [done|]. destruct (hb_gitee_grants h1 !! _) as [grant|]; [|done].
  destruct (negb _); [done|]. destruct (_ <>? _); [done|]. destruct (negb _); [done|]. injection Hf as <-.
  cbn. rewrite Hs1, Hv1, Hg1. eexists _, _. do 3 (split; [done|]). intros s Hrow. simpl. unfold giteeAutomation.
  by rewrite Hs1, Hrow.
Qed.

Lemma gitee_webhook_spec locked_for waited token expected h h' :
  SaveGiteeWebhook sha256 locked_for waited token expected h = (h', Ok tt) →
  hb_settings h' = hb_settings h ∧ hb_validations h' = hb_validations h ∧ hb_gitee_validations h' = hb_gitee_validations h.
Proof.
  unfold SaveGiteeWebhook.
  intros (session & b & h1 & h2 & Hs1 & Hv1 & Hg1 & Hid & Hf & Hs & Hv & Hg)%giteeProjectTx_ok. rewrite Hs, Hv, Hg.
  cbv beta zeta in Hf. destruct (_ || _); [done|]. injection Hf as <-. done.
Qed.

(** A transaction that fails changes nothing. *)
Lemma transaction_err {A} (body : hub → result HookError (hub * A)) h h' e : hub_transaction body h = (h', Err e) → h' = h.
Proof. unfold hub_transaction. destruct (body h) as [[? ?]|?]; [done|by intros [= <- _]]. Qed.

Lemma giteeProjectTx_err {A} locked_for waited token id (fn : Session → Binding → hub → result HookError (hub * A)) h h' e :
  giteeProjectTx sha256 locked_for waited token id fn h = (h', Err e) → h' = h.
Proof. apply transaction_err. Qed.

Lemma settings_ok_same h h' id s :
  hb_validations h' = hb_validations h → hb_gitee_validations h' = hb_gitee_validations h →
  settings_ok h id s → settings_ok h' id s.
Proof. intros Hv Hg [Hp Ht Hval Hr]. split; [done..| |done]. intros He. unfold validated. rewrite Hv, Hg. by apply Hval. Qed.

Lemma same_automation h h' :
  hb_settings h' = hb_settings h → hb_validations h' = hb_validations h →
  hb_gitee_validations h' = hb_gitee_validations h → automation_inv h → automation_inv h'.
Proof. intros Hs Hv Hg Hinv id s. rewrite Hs. intros Hrow. eapply settings_ok_same; [done|done|by apply Hinv]. Qed.

Lemma validated_insert h h' id v :
  hb_validations h' = <[id := v]> (hb_validations h) ∧ hb_gitee_validations h' = hb_gitee_validations h →
  (∀ s, hb_settings h !! id = Some s → va_PipelinePath v = as_PipelinePath s) →
  hb_settings h' = hb_settings h → automation_inv h → automation_inv h'.
Proof.
  intros [Hv Hg] Hpath Hs Hinv id' s. rewrite Hs. intros Hrow. destruct (Hinv _ _ Hrow) as [Hp Ht Hval Hr].
  split; [done..| |done]. intros He. unfold validated. rewrite Hv, Hg. destruct (decide (id' = id)) as [->|Hne].
  - left. exists v. rewrite lookup_insert_eq. split; [done|by apply Hpath].
  - rewrite lookup_insert_ne by done. by apply Hval.
Qed.

Lemma gitee_validated_insert h h' id v :
  hb_validations h' = hb_validations h ∧ hb_gitee_validations h' = <[id := v]> (hb_gitee_validations h) →
  (∀ s, hb_settings h !! id = Some s → gv_pipeline_path v = as_PipelinePath s) →
  hb_settings h' = hb_settings h → automation_inv h → automation_inv h'.
Proof.
  intros [Hv Hg] Hpath Hs Hinv id' s. rewrite Hs. intros Hrow. destruct (Hinv _ _ Hrow) as [Hp Ht Hval Hr].
  split; [done..| |done]. intros He. unfold validated. rewrite Hv, Hg. destruct (decide (id' = id)) as [->|Hne].
  - right. exists v. rewrite lookup_insert_eq. split; [done|by apply Hpath].
  - rewrite lookup_insert_ne by done. by apply Hval.
Qed.

Lemma settings_update_inv locked_for waited token id update h h' s :
  UpdateProjectAutomation sha256 locked_for waited token id update h = (h', Ok s) → automation_inv h → automation_inv h'.
Proof.
  intros (Hvalid & Hrev & -> & Hs & Hv & Hg & Hready)%update_spec Hinv id' s'. rewrite Hs.
  destruct (decide (id' = id)) as [->|Hne].
  2:{ rewrite lookup_insert_ne by done. intros Hrow. eapply settings_ok_same; [done|done|by apply Hinv]. }
  rewrite lookup_insert_eq. intros [= <-]. unfold AutomationUpdate_Validate in Hvalid.
  destruct (_ || _) eqn:Hu; [done|]. apply orb_false_iff in Hu as [[Hneg Hpath]%orb_false_iff Htrigger].
  split; simpl.
  - by destruct (ValidatePipelinePath _) as [[]|].
  - intros He. rewrite He in Htrigger. by destruct (up_TriggerPush update), (up_TriggerTag update), (up_TriggerPullRequest update).
  - intros He. unfold validated. rewrite Hv, Hg. by apply Hready.
  - destruct (hb_settings h !! id) as [old|] eqn:Hrow; [|done]. pose proof (so_revision _ _ _ (Hinv _ _ Hrow)). lia.
Qed.

Lemma automation_step_inv h h' : automation_step h h' → automation_inv h → automation_inv h'.
Proof.
  intros [] Hinv.
  - destruct (UpdateProjectAutomation _ _ _ _ _ _ _) as [h1 [s|e]] eqn:Hu; [by eapply settings_update_inv|].
    unfold UpdateProjectAutomation in Hu. destruct (AutomationUpdate_Validate _); [by apply transaction_err in Hu as ->|].
    by injection Hu as <- _.
  - destruct (RecordProjectAutomationValidation _ _ _ _ _ _) as [h1 [[]|e]] eqn:Hu.
    + apply validation_spec in Hu as (Hs & Hg & Hv & Hp). by eapply validated_insert.
    + unfold RecordProjectAutomationValidation in Hu.
      destruct (AutomationValidation_Validate _); [by apply transaction_err in Hu as ->|]. by injection Hu as <- _.
  - destruct (RecordGiteeValidation _ _ _ _ _ _ _ _) as [h1 [[]|e]] eqn:Hu.
    + apply gitee_validation_spec in Hu as (id & v & Hs & Hv & Hg & Hp). by eapply gitee_validated_insert.
    + unfold RecordGiteeValidation in Hu. destruct (_ || _); [by injection Hu as <- _|]. by apply giteeProjectTx_err in Hu as ->.
  - destruct (SaveGiteeWebhook _ _ _ _ _ _) as [h1 [[]|e]] eqn:Hu.
    + apply gitee_webhook_spec in Hu as (Hs & Hv & Hg). by eapply same_automation.
    + by apply giteeProjectTx_err in Hu as ->.
  - by eapply same_automation.
Qed.

Lemma automation_reachable_inv h : automation_reachable h → automation_inv h.
Proof.
  induction 1 as [h Hs|h h' _ IH Hstep]; [|by eapply automation_step_inv].
  intros id s. rewrite Hs. by rewrite lookup_empty.
Qed.

(** In every history of settings, proofs and integrations, a project whose
    automation is enabled has a validated pipeline at exactly the path that events
    will use, at least one trigger, and a path that is safe. *)
Theorem enabled_means_validated h id s :
  automation_reachable h → hb_settings h !! id = Some s → as_Enabled s = true →
  validated h id (as_PipelinePath s) ∧ (as_TriggerPush s || as_TriggerTag s || as_TriggerPullRequest s) = true ∧
  ValidatePipelinePath (as_PipelinePath s) = Ok tt.
Proof. intros Hr%automation_reachable_inv Hrow He. destruct (Hr _ _ Hrow) as [Hp Ht Hv _]. auto. Qed.

(** An update takes effect only at the revision that its author has seen, and the
    next revision is new: of two updates made against the same revision, at most
    one succeeds. *)
Theorem update_detects_conflicts locked_for waited token id update h h' s :
  UpdateProjectAutomation sha256 locked_for waited token id update h = (h', Ok s) →
  default 0 (as_Revision <$> hb_settings h !! id) = up_ExpectedRevision update ∧
  as_Revision s = up_ExpectedRevision update + 1 ∧ hb_settings h' !! id = Some s ∧
  (∀ id', id' ≠ id → hb_settings h' !! id' = hb_settings h !! id') ∧
  (∀ locked_for' waited' token' update' h2, hb_settings h2 = hb_settings h' →
     up_ExpectedRevision update' = up_ExpectedRevision update →
     is_ok (UpdateProjectAutomation sha256 locked_for' waited' token' id update' h2).2 = false).
Proof.
  intros (Hvalid & Hrev & -> & Hs & _)%update_spec.
  assert (Hnext : as_Revision (updated_settings update (hb_settings h !! id)) = up_ExpectedRevision update + 1).
  { rewrite <-Hrev. by destruct (hb_settings h !! id). }
  split; [done|]. split; [done|]. rewrite Hs. split; [apply lookup_insert_eq|].
  split; [intros id' Hne; by apply lookup_insert_ne|]. intros lf w t update' h2 H2 Hsame.
  destruct (UpdateProjectAutomation _ lf w t id update' h2) as [h3 [s'|e]] eqn:Hu; [|done].
  apply update_spec in Hu as (_ & Hrev' & _). rewrite H2, lookup_insert_eq in Hrev'.
  change (as_Revision (updated_settings update (hb_settings h !! id)) = up_ExpectedRevision update') in Hrev'. lia.
Qed.
End History.

(** ** The maintainer of the concrete database enables the automation *)

Definition demo_validation : AutomationValidation :=
  mkAutomationValidation 3 9 1 "ci/build.yml" demo_sha (PayloadDigest []) "demo" Second.
Definition demo_update (enabled : bool) (expected : Z) : AutomationUpdate :=
  mkAutomationUpdate enabled "ci/build.yml" true false false true expected.

Abbreviation demo_change enabled expected := (UpdateProjectAutomation demo_sha256 0 0 demo_token 3 (demo_update enabled expected)).

Definition hub_unset : hub := with_settings ∅ demo_hub.
Definition hub_saved : hub := (demo_change false 0 hub_unset).1.
Definition hub_validated : hub := (RecordProjectAutomationValidation demo_sha256 0 0 demo_token demo_validation hub_saved).1.
Definition hub_enabled : hub := (demo_change true 1 hub_validated).1.

Lemma hub_enabled_reachable : automation_reachable demo_sha256 hub_enabled.
Proof.
  apply (automation_next _ hub_validated); [|apply step_update]. apply (automation_next _ hub_saved); [|apply step_validated].
  apply (automation_next _ hub_unset); [by apply automation_start|apply step_update].
Qed.

Lemma enabled_means_validated_witness :
  (demo_change true 1 hub_saved).2 = Err ErrAutomationNotReady ∧ validated hub_enabled 3 "ci/build.yml".
Proof.
  split; [vm_compute; reflexivity|].
  destruct (enabled_means_validated demo_sha256 hub_enabled 3 (mkAutomationSettings true "ci/build.yml" true false false true 2)
    hub_enabled_reachable) as (Hv & _); [vm_compute; reflexivity|reflexivity|exact Hv].
Defined.

Lemma update_detects_conflicts_witness :
  is_ok (demo_change false 1 hub_enabled).2 = false.
Proof.
  assert (Hu : demo_change true 1 hub_validated = (hub_enabled, Ok (mkAutomationSettings true "ci/build.yml" true false false true 2)))
    by (vm_compute; reflexivity).
  apply (update_detects_conflicts demo_sha256 0 0 demo_token 3 (demo_update true 1) hub_validated hub_enabled _ Hu); reflexivity.
Defined.
