(* ===== verification/RunnerAuth.v ===== *)
(** internal/runnerauth: the identities of runners.  service.go decides about
    registration tokens, enrolment, authentication and rotation over the interface of a
    store; pki.go checks certificate requests and issues certificates.

    crypto/x509 and encoding/pem are arguments: the parsers, the encoders and the
    signature work on values that carry the fields which the code reads. *)

From S2P Require Import Prelude GoStd Regex Codecs.

Definition DefaultRegistrationTTL : duration := 10 * Minute.
Definition MaximumRegistrationTTL : duration := 24 * Hour.
Definition RotationGracePeriod : duration := 15 * Minute.
Definition MaxCSRBytes : Z := 16 * 2 ^ 10.
Definition DefaultRunnerLifetime : duration := 24 * Hour.
Definition runnerCertificateBackdate : duration := Minute.

Inductive AuthError :=
| ErrDenied
| ErrInvalidInput
| ErrInvalidCSR
| ErrCannotSign              (** "cannot sign Runner certificate" *)
| ErrCertificateLifetime     (** "invalid Runner certificate lifetime" *)
| ErrIssuerNotValid          (** "Runner certificate issuer is not currently valid" *)
| ErrExceedsIssuer           (** "Runner certificate exceeds issuer lifetime" *)
| ErrCannotParse             (** "cannot parse signed Runner certificate" *)
| ErrRegistry.               (** a constraint of the database was violated *)
#[export] Instance AuthError_eq_dec : EqDecision AuthError.
Proof. solve_decision. Defined.

Definition name_tail (extra : string) : regex :=
  RSeq (RClass is_alnum) (RUpTo 127 (RClass (λ c, is_alnum c || one_of extra c))).
(** [^[A-Za-z0-9][A-Za-z0-9._-]{0,127}$] and [^[A-Za-z0-9][A-Za-z0-9._/-]{0,127}$] *)
Definition runnerNameRegexp : regex := name_tail "._-".
Definition labelRegexp : regex := name_tail "._/-".

Record Capabilities := mkCapabilities {
  ca_OS : string;
  ca_Architecture : string;
  ca_Executor : string;
  ca_IsolationLevel : string;
  ca_Labels : gmap string string;
  ca_Capacity : Z;
  ca_AvailableDiskBytes : Z;
  ca_ProtocolVersion : Z;
  ca_RunnerVersion : string;
}.

Record RegistrationToken := mkRegistrationToken {
  rt_ID : uuid;
  rt_PoolName : string;
  rt_Digest : bytes;
  rt_ExpiresAt : time;
  rt_MaxUses : Z;
  rt_CreatedBy : option uuid;
}.

Record CertificateRecord := mkCertificateRecord {
  cr_Serial : string;
  cr_CSRFingerprint : bytes;
  cr_PublicKeyFingerprint : bytes;
  cr_ChainPEM : bytes;
  cr_NotBefore : time;
  cr_NotAfter : time;
  cr_PreviousValidUntil : time;
}.

Record Enrollment := mkEnrollment {
  en_TokenDigest : bytes;
  en_RunnerID : uuid;
  en_Name : string;
  en_Capabilities : Capabilities;
  en_Certificate : CertificateRecord;
}.

(** [runnerauth.Identity] *)
Record RunnerIdentity := mkRunnerIdentity {
  id_RunnerID : uuid;
  id_PoolID : uuid;
  id_PoolType : string;
  id_Name : string;
  id_CertificateID : uuid;
  id_Serial : string;
  id_Capabilities : Capabilities;
}.

Record Rotation := mkRotation {
  ro_RunnerID : uuid;
  ro_OldSerial : string;
  ro_Certificate : CertificateRecord;
  ro_GracePeriod : duration;
}.

(** The interface [Store]; the identifiers that an implementation draws are arguments. *)
Class RunnerStore (St : Type) : Type := {
  CreateRegistrationToken : RegistrationToken → St → St * result AuthError unit;
  EnrollRunner : uuid → Enrollment → St → St * result AuthError RunnerIdentity;
  AuthenticateRunner : uuid → string → St → result AuthError RunnerIdentity;
  RotateRunnerCertificate : uuid → Rotation → St → St * result AuthError CertificateRecord;
  DisableRunner : uuid → string → option uuid → St → St * result AuthError unit;
  RevokeRunnerCertificate : string → string → option uuid → St → St * result AuthError unit;
}.

(** ** Tokens *)

(** [NewRegistrationToken]; [raw] is what the random generator returned. *)
Definition NewRegistrationToken (raw : bytes) : string * bytes :=
  let token := of_chars (hex_encode raw) in (token, Sum256 (chars token)).

Definition TokenDigest (token : string) : result AuthError bytes :=
  fail_if len token <>? 64 with ErrDenied;;
  match hex_decode (chars token) with
  | None => Err ErrDenied
  | Some decoded => fail_if negb (length decoded =? 32)%nat with ErrDenied;; Ok (Sum256 (chars token))
  end.

Definition validateCapabilities (name : string) (capability : Capabilities) : result AuthError unit :=
  fail_if negb (re_match runnerNameRegexp name) || (len (ca_OS capability) <? 1) || (64 <? len (ca_OS capability))
    || (len (ca_Architecture capability) <? 1) || (64 <? len (ca_Architecture capability))
    || (len (ca_Executor capability) <? 1) || (64 <? len (ca_Executor capability))
    || ((ca_IsolationLevel capability <>? "standard") && (ca_IsolationLevel capability <>? "privileged")
        && (ca_IsolationLevel capability <>? "deployment"))
    || (ca_Capacity capability <? 1) || (256 <? ca_Capacity capability) || (ca_AvailableDiskBytes capability <? 0)
    || (ca_ProtocolVersion capability <? 1) || (1024 <? ca_ProtocolVersion capability)
    || (len (ca_RunnerVersion capability) <? 1) || (128 <? len (ca_RunnerVersion capability))
    || (128 <? Z.of_nat (size (ca_Labels capability))) with ErrInvalidInput;;
  (* the order of the labels does not matter *)
  fail_if existsb (λ '(key, value), negb (re_match labelRegexp key) || (256 <? len value))
    (map_to_list (ca_Labels capability)) with ErrInvalidInput;;
  Ok tt.

(** ** Certificates *)

Inductive PublicKey :=
| Ed25519Key (key : bytes)
| ECDSAKey (curve : string) (x y : Z)
| RSAKey (N E : Z)
| OtherKey.

Record URL := mkURL {
  ur_Scheme : string;
  ur_Host : string;
  ur_Path : string;
  ur_EscapedPath : string;
  ur_RawQuery : string;
  ur_Fragment : string;
  ur_User : bool;   (** the pointer is set *)
}.

(** [x509.Certificate]: a parsed certificate, or the template of one. *)
Record Certificate := mkCertificate {
  ce_SerialNumber : option Z;
  ce_Subject : string;              (** Subject.String() *)
  ce_NotBefore : time;
  ce_NotAfter : time;
  ce_KeyUsage : Z;
  ce_ExtKeyUsage : list Z;
  ce_UnknownExtKeyUsage : list string;
  ce_BasicConstraintsValid : bool;
  ce_IsCA : bool;
  ce_DNSNames : list string;
  ce_EmailAddresses : list string;
  ce_IPAddresses : list bytes;
  ce_URIs : list (option URL);
  ce_SubjectKeyId : bytes;
  ce_AuthorityKeyId : bytes;
  ce_PublicKey : PublicKey;
  ce_Raw : bytes;
}.

#[export] Instance PublicKey_eq_dec : EqDecision PublicKey.
Proof. solve_decision. Defined.
#[export] Instance URL_eq_dec : EqDecision URL.
Proof. solve_decision. Defined.
#[export] Instance Certificate_eq_dec : EqDecision Certificate.
Proof. solve_decision. Defined.

(** [x509.CertificateRequest] *)
Record CertificateRequest := mkCertificateRequest {
  cq_SignatureValid : bool;         (** CheckSignature() returns nil *)
  cq_Subject : string;
  cq_DNSNames : list string;
  cq_IPAddresses : list bytes;
  cq_EmailAddresses : list string;
  cq_URIs : list (option URL);
  cq_Extensions : list bytes;
  cq_ExtraExtensions : list bytes;
  cq_Attributes : list bytes;
  cq_PublicKey : PublicKey;
}.

Record pemBlock := mkPemBlock { pb_Type : string; pb_Headers : gmap string string; pb_Bytes : bytes }.

Record CSRInfo := mkCSRInfo {
  ci_Request : CertificateRequest;
  ci_CSRFingerprint : bytes;
  ci_PublicKeyFingerprint : bytes;
}.

Record IssuedCertificate := mkIssuedCertificate {
  ic_Certificate : Certificate;
  ic_ChainPEM : bytes;
  ic_CSRFingerprint : bytes;
  ic_PublicKeyFingerprint : bytes;
}.

Definition KeyUsageDigitalSignature : Z := 1.
Definition KeyUsageCertSign : Z := 32.
Definition ExtKeyUsageClientAuth : Z := 2.

(** [big.Int.BitLen] of a non-negative number. *)
Definition BitLen (n : Z) : Z := if n =? 0 then 0 else Z.log2 n + 1.

Definition supportedPublicKey (public : PublicKey) : bool :=
  match public with
  | Ed25519Key key => Z.of_nat (length key) =? 32
  | ECDSAKey curve _ _ => curve =? "P-256"
  | RSAKey N E => (2048 <=? BitLen N) && (BitLen N <=? 4096) && (65537 <=? E) && (E mod 2 =? 1)
  | OtherKey => false
  end.

(** [big.Int.Text(16)] of a positive number; lower case. *)
Fixpoint hex_text (fuel : nat) (n : Z) (acc : bytes) : bytes :=
  match fuel with
  | O => acc
  | S fuel =>
    let acc := hex_digit (n mod 16) :: acc in
    if n <? 16 then acc else hex_text fuel (n / 16) acc
  end.
Definition Text16 (n : Z) : string := of_chars (hex_text (S (Z.to_nat (Z.log2 n))) n []).

(** [big.Int.SetBytes]: big-endian. *)
Definition SetBytes (l : bytes) : Z := foldl (λ n c, n * 256 + byte_value c) 0 l.

(** [randomSerial]; [value] is what the random generator returned. *)
Definition randomSerial (value : bytes) : Z :=
  SetBytes match value with
           | c :: l => value_byte (Z.lor (Z.land (byte_value c) 127) 64) :: l
           | [] => []
           end.

(** [time.Time.Truncate]: relative to the zero time. *)
Definition Truncate (t : time) (d : duration) : time := t - (t - time_zero) mod d.

Section PKI.
Variable pem_Decode : bytes → option pemBlock * bytes.
Variable pem_EncodeToMemory : string → bytes → bytes.
Variable ParseCertificateRequest : bytes → option CertificateRequest.
Variable MarshalPKIXPublicKey : PublicKey → option bytes.
Variable ParseCertificate : bytes → option Certificate.
(** A private key with its public part. *)
Variable Signer : Type.
Variable Public : Signer → PublicKey.
(** [x509.CreateCertificate(rand.Reader, template, parent, public, key)] *)
Variable CreateCertificate : Certificate → Certificate → PublicKey → Signer → option bytes.
(** [uuid.UUID.String] and [uuid.Parse] *)
Variable uuid_String : uuid → string.
Variable uuid_Parse : string → option uuid.

(** ** pki.go *)

Definition publicKeysEqual (left right : PublicKey) : bool :=
  match MarshalPKIXPublicKey left, MarshalPKIXPublicKey right with
  | Some leftDER, Some rightDER => leftDER =? rightDER
  | _, _ => false
  end.

Definition ValidateRunnerCSR (csrPEM : bytes) : result AuthError CSRInfo :=
  fail_if (Z.of_nat (length csrPEM) =? 0) || (MaxCSRBytes <? Z.of_nat (length csrPEM)) with ErrInvalidCSR;;
  match pem_Decode csrPEM with
  | (None, _) => Err ErrInvalidCSR
  | (Some block, rest) =>
    fail_if ((pb_Type block <>? "CERTIFICATE REQUEST") && (pb_Type block <>? "NEW CERTIFICATE REQUEST"))
      || negb (size (pb_Headers block) =? 0)%nat || (len (TrimSpace (of_chars rest)) <>? 0) with ErrInvalidCSR;;
    match ParseCertificateRequest (pb_Bytes block) with
    | None => Err ErrInvalidCSR
    | Some request =>
      fail_if negb (cq_SignatureValid request) with ErrInvalidCSR;;
      fail_if (cq_Subject request <>? "") || (cq_DNSNames request <>? []) || (cq_IPAddresses request <>? [])
        || (cq_EmailAddresses request <>? []) || negb (length (cq_URIs request) =? 0)%nat
        || (cq_Extensions request <>? []) || (cq_ExtraExtensions request <>? [])
        || (cq_Attributes request <>? []) with ErrInvalidCSR;;
      fail_if negb (supportedPublicKey (cq_PublicKey request)) with ErrInvalidCSR;;
      match MarshalPKIXPublicKey (cq_PublicKey request) with
      | None => Err ErrInvalidCSR
      | Some publicDER => Ok (mkCSRInfo request (Sum256 (pb_Bytes block)) (Sum256 publicDER))
      end
    end
  end.

(** [url.Parse("yuanci://runner/" + id)]: an identifier has no character that is escaped. *)
Definition runner_url (runnerID : uuid) : URL :=
  let path := ("/" +:+ uuid_String runnerID)%string in mkURL "yuanci" "runner" path path "" "" false.

(** The template that [SignRunnerCertificate] signs. *)
Definition runner_template (serial : Z) (notBefore notAfter : time) (runnerID : uuid) (issuer : Certificate)
    (fingerprint : bytes) : Certificate := {|
  ce_SerialNumber := Some serial; ce_Subject := ""; ce_NotBefore := notBefore; ce_NotAfter := notAfter;
  ce_KeyUsage := KeyUsageDigitalSignature; ce_ExtKeyUsage := [ExtKeyUsageClientAuth]; ce_UnknownExtKeyUsage := [];
  ce_BasicConstraintsValid := true; ce_IsCA := false; ce_DNSNames := []; ce_EmailAddresses := [];
  ce_IPAddresses := []; ce_URIs := [Some (runner_url runnerID)]; ce_SubjectKeyId := fingerprint;
  ce_AuthorityKeyId := ce_SubjectKeyId issuer; ce_PublicKey := OtherKey; ce_Raw := [] |}.

(** [random] is what the random generator returned for the serial number. *)
Definition SignRunnerCertificate (random csrPEM : bytes) (runnerID : uuid) (issuer : option Certificate)
    (issuerKey : option Signer) (now : time) (lifetime : duration) : result AuthError IssuedCertificate :=
  match ValidateRunnerCSR csrPEM, issuer, issuerKey with
  | Ok info, Some issuer, Some issuerKey =>
    fail_if (runnerID =? uuid_Nil) || negb (ce_IsCA issuer)
      || (Z.land (ce_KeyUsage issuer) KeyUsageCertSign =? 0) with ErrCannotSign;;
    fail_if negb (publicKeysEqual (ce_PublicKey issuer) (Public issuerKey)) with ErrCannotSign;;
    fail_if (lifetime <=? 0) || (DefaultRunnerLifetime <? lifetime) with ErrCertificateLifetime;;
    let now := Truncate now Second in
    fail_if (now <? ce_NotBefore issuer) || negb (now <? ce_NotAfter issuer) with ErrIssuerNotValid;;
    let notBefore := now - runnerCertificateBackdate in
    let notBefore := if notBefore <? ce_NotBefore issuer then ce_NotBefore issuer else notBefore in
    let notAfter := now + lifetime in
    fail_if (ce_NotAfter issuer <? notAfter) || negb (notBefore <? ce_NotAfter issuer) with ErrExceedsIssuer;;
    let template := runner_template (randomSerial random) notBefore notAfter runnerID issuer (ci_PublicKeyFingerprint info) in
    match CreateCertificate template issuer (cq_PublicKey (ci_Request info)) issuerKey with
    | None => Err ErrCannotSign
    | Some der =>
      match ParseCertificate der with
      | None => Err ErrCannotParse
      | Some certificate =>
        let chain := pem_EncodeToMemory "CERTIFICATE" der ++ pem_EncodeToMemory "CERTIFICATE" (ce_Raw issuer) in
        Ok (mkIssuedCertificate certificate chain (ci_CSRFingerprint info) (ci_PublicKeyFingerprint info))
      end
    end
  | _, _, _ => Err ErrCannotSign
  end.

(** ** service.go *)

(** The text of a serial number; [certificateRecord] assumes that there is one. *)
Definition serial_text (certificate : Certificate) : string :=
  match ce_SerialNumber certificate with Some n => ToLower (Text16 n) | None => "" end.

Definition CertificateIdentity (certificate : option Certificate) : result AuthError (uuid * string) :=
  match certificate with
  | None => Err ErrDenied
  | Some certificate =>
    fail_if match ce_SerialNumber certificate with Some n => n <=? 0 | None => true end
      || negb (length (ce_URIs certificate) =? 1)%nat || (ce_DNSNames certificate <>? [])
      || (ce_IPAddresses certificate <>? []) || (ce_EmailAddresses certificate <>? [])
      || (ce_Subject certificate <>? "") || ce_IsCA certificate || negb (ce_BasicConstraintsValid certificate)
      || (ce_KeyUsage certificate <>? KeyUsageDigitalSignature) || (ce_UnknownExtKeyUsage certificate <>? [])
      || (ce_ExtKeyUsage certificate <>? [ExtKeyUsageClientAuth]) with ErrDenied;;
    match ce_URIs certificate !! 0%nat with
    | Some (Some uri) =>
      fail_if (ur_Scheme uri <>? "yuanci") || (ur_Host uri <>? "runner") || (ur_RawQuery uri <>? "")
        || (ur_Fragment uri <>? "") || ur_User uri with ErrDenied;;
      fail_if ur_EscapedPath uri <>? ur_Path uri with ErrDenied;;
      match uuid_Parse (TrimPrefix (ur_Path uri) "/") with
      | None => Err ErrDenied
      | Some runnerID =>
        fail_if ur_Path uri <>? ("/" +:+ uuid_String runnerID)%string with ErrDenied;;
        let serial := serial_text certificate in
        fail_if (len serial <? 16) || (64 <? len serial) with ErrDenied;;
        Ok (runnerID, serial)
      end
    | _ => Err ErrDenied
    end
  end.

Definition certificateRecord (issued : IssuedCertificate) : CertificateRecord := {|
  cr_Serial := serial_text (ic_Certificate issued); cr_CSRFingerprint := ic_CSRFingerprint issued;
  cr_PublicKeyFingerprint := ic_PublicKeyFingerprint issued; cr_ChainPEM := ic_ChainPEM issued;
  cr_NotBefore := ce_NotBefore (ic_Certificate issued); cr_NotAfter := ce_NotAfter (ic_Certificate issued);
  cr_PreviousValidUntil := time_zero |}.

(** [Service]: the issuer and its key; the lifetime of certificates is the default one. *)
Record Service := mkService { sv_issuer : Certificate; sv_issuerKey : Signer; sv_certLife : duration }.

Definition New (issuer : option Certificate) (issuerKey : option Signer) : result AuthError Service :=
  match issuer, issuerKey with
  | Some issuer, Some issuerKey => Ok (mkService issuer issuerKey DefaultRunnerLifetime)
  | _, _ => Err ErrInvalidInput
  end.

Section Service.
Context {St : Type} `{RunnerStore St}.
Variable s : Service.

(** [raw] and [id]: the random token and the new identifier. *)
Definition IssueToken (raw : bytes) (id : uuid) (now : time) (pool : string) (ttl : duration) (maxUses : Z)
    (actor : option uuid) (st : St) : St * result AuthError (string * RegistrationToken) :=
  let pool := TrimSpace pool in
  if (pool =? "") || (128 <? len pool) || (ttl <? Minute) || (MaximumRegistrationTTL <? ttl)
     || (maxUses <? 1) || (256 <? maxUses)
  then (st, Err ErrInvalidInput)
  else
    let '(token, digest) := NewRegistrationToken raw in
    let record := mkRegistrationToken id pool digest (now + ttl) maxUses actor in
    match CreateRegistrationToken record st with
    | (st, Err e) => (st, Err e)
    | (st, Ok _) => (st, Ok (token, record))
    end.

(** Every error of the store becomes [ErrDenied]. *)
Definition denied {A} (r : St * result AuthError A) : St * result AuthError A :=
  match r with (st, Ok a) => (st, Ok a) | (st, Err _) => (st, Err ErrDenied) end.

Definition Enroll (runnerID certificateID : uuid) (random : bytes) (now : time) (token name : string)
    (capabilities : Capabilities) (csrPEM : bytes) (st : St)
    : St * result AuthError (RunnerIdentity * CertificateRecord) :=
  match TokenDigest token, validateCapabilities name capabilities with
  | Ok digest, Ok _ =>
    match SignRunnerCertificate random csrPEM runnerID (Some (sv_issuer s)) (Some (sv_issuerKey s)) now (sv_certLife s) with
    | Err _ => (st, Err ErrDenied)
    | Ok issued =>
      let record := certificateRecord issued in
      match EnrollRunner certificateID (mkEnrollment digest runnerID name capabilities record) st with
      | (st, Ok found) => (st, Ok (found, record))
      | (st, Err _) => (st, Err ErrDenied)
      end
    end
  | _, _ => (st, Err ErrDenied)
  end.

Definition Authenticate (certificate : option Certificate) (st : St) : result AuthError RunnerIdentity :=
  match CertificateIdentity certificate with
  | Err _ => Err ErrDenied
  | Ok (runnerID, serial) =>
    match AuthenticateRunner runnerID serial st with Ok found => Ok found | Err _ => Err ErrDenied end
  end.

Definition Rotate (certificateID : uuid) (random : bytes) (now : time) (current : RunnerIdentity) (csrPEM : bytes) (st : St)
    : St * result AuthError CertificateRecord :=
  if (id_RunnerID current =? uuid_Nil) || (id_Serial current =? "") then (st, Err ErrDenied)
  else
    match SignRunnerCertificate random csrPEM (id_RunnerID current) (Some (sv_issuer s)) (Some (sv_issuerKey s)) now
            (sv_certLife s) with
    | Err _ => (st, Err ErrDenied)
    | Ok issued =>
      denied (RotateRunnerCertificate certificateID
        (mkRotation (id_RunnerID current) (id_Serial current) (certificateRecord issued) RotationGracePeriod) st)
    end.
End Service.
End PKI.
