(* ===== verification/PgRunnerIdentity.v ===== *)
(** internal/store/postgres/runner_identity.go: registration tokens, runners and their
    certificates (migrations 1, 7 and 9), as transactions on typed tables. *)

From S2P Require Import Prelude GoStd Regex RunModel Database RunnerAuth.

(** ** Tables *)

Record poolRow := mkPoolRow { pl_id : uuid; pl_name : string; pl_type : string }.

(** A row of [runner_registration_tokens]. *)
Record tokenRow := mkTokenRow {
  tk_id : uuid;
  tk_pool_id : uuid;
  tk_digest : bytes;
  tk_expires_at : time;
  tk_max_uses : Z;
  tk_used_count : Z;
  tk_created_by : option uuid;
  tk_last_used : option (time * uuid);      (** last_used_at and last_used_runner_id *)
  tk_revoked_at : option time;
}.

(** A row of [runner_certificates]. *)
Record certRow := mkCertRow {
  ct_id : uuid;
  ct_runner_id : uuid;
  ct_serial : string;
  ct_csr_fingerprint : bytes;
  ct_public_key_fingerprint : bytes;
  ct_state : string;
  ct_chain_pem : bytes;
  ct_not_before : time;
  ct_not_after : time;
  ct_retire_at : option time;
  ct_revoked : option (time * string);      (** revoked_at and revocation_reason *)
  ct_replaces : option uuid;
}.

(** The columns of [runners] that [runnerRow] leaves out. *)
Record memberRow := mkMemberRow {
  mr_pool_id : uuid;
  mr_name : string;
  mr_certificate_serial : option string;
  mr_isolation_level : string;
  mr_runner_version : string;
  mr_disabled_reason : option string;
}.

Record registry := mkRegistry {
  rg_core : database;                       (** [db_runners] has the other columns *)
  rg_pools : list poolRow;
  rg_tokens : list tokenRow;
  rg_members : gmap uuid memberRow;
  rg_certs : list certRow;
}.

Definition rg_now (g : registry) : time := db_now (rg_core g).

Definition rg_with_core (x : database) (g : registry) : registry :=
  mkRegistry x (rg_pools g) (rg_tokens g) (rg_members g) (rg_certs g).
Definition rg_with_tokens (x : list tokenRow) (g : registry) : registry :=
  mkRegistry (rg_core g) (rg_pools g) x (rg_members g) (rg_certs g).
Definition rg_with_members (x : gmap uuid memberRow) (g : registry) : registry :=
  mkRegistry (rg_core g) (rg_pools g) (rg_tokens g) x (rg_certs g).
Definition rg_with_certs (x : list certRow) (g : registry) : registry :=
  mkRegistry (rg_core g) (rg_pools g) (rg_tokens g) (rg_members g) x.

Definition registry_transaction {A} (body : registry → result AuthError (registry * A)) (g : registry)
    : registry * result AuthError A :=
  match body g with
  | Ok (g', a) => (g', Ok a)
  | Err e => (g, Err e)
  end.

(** [appendRunnerAudit] *)
Definition appendRunnerAudit (actor : option uuid) (action resource : string) (id : uuid) (g : registry) : registry :=
  rg_with_core (append_audit actor action resource id (rg_core g)) g.

Definition set_certificate_serial (serial : option string) (m : memberRow) : memberRow :=
  mkMemberRow (mr_pool_id m) (mr_name m) serial (mr_isolation_level m) (mr_runner_version m) (mr_disabled_reason m).

(** State, retirement and revocation of a certificate. *)
Definition ct_set (state : string) (retire : option time) (revoked : option (time * string)) (c : certRow) : certRow :=
  mkCertRow (ct_id c) (ct_runner_id c) (ct_serial c) (ct_csr_fingerprint c) (ct_public_key_fingerprint c) state
    (ct_chain_pem c) (ct_not_before c) (ct_not_after c) retire revoked (ct_replaces c).

(** ** Constraints *)

(** [length(text)]: the number of characters, for text in UTF-8. *)
Definition characters (s : string) : Z :=
  Z.of_nat (length (List.filter (λ c, negb ((128 <=? nat_of_ascii c) && (nat_of_ascii c <? 192))%nat) (chars s))).
Definition length_between (lo hi : Z) (s : string) : bool := (lo <=? characters s) && (characters s <=? hi).

Definition serial_pattern : regex :=
  let hex := RClass (λ c, is_digit c || in_range "a" "f" c) in RSeq (RTimes 16 hex) (RUpTo 48 hex).

(** The checks of a row of [runner_registration_tokens] and its unique columns. *)
Definition token_insertable (g : registry) (t : tokenRow) : bool :=
  bool_decide (tk_id t ∉ tk_id <$> rg_tokens g) && bool_decide (tk_digest t ∉ tk_digest <$> rg_tokens g)
  && (length (tk_digest t) =? 32)%nat && (1 <=? tk_max_uses t) && (tk_max_uses t <=? 256) && (rg_now g <? tk_expires_at t)
  && match tk_created_by t with
     | Some user => bool_decide (is_Some (di_users (db_directory (rg_core g)) !! user))
     | None => true
     end.

(** The checks of a row of [runners]. *)
Definition runner_insertable (g : registry) (id : uuid) (ru : runnerRow) (m : memberRow) : bool :=
  bool_decide (db_runners (rg_core g) !! id = None) && bool_decide (rg_members g !! id = None)
  && bool_decide (mr_name m ∉ (mr_name ∘ snd <$> map_to_list (rg_members g)))
  && (0 <? ru_capacity ru) && (ru_capacity ru <=? 256) && length_between 1 64 (ru_os ru)
  && length_between 1 64 (ru_architecture ru) && length_between 1 64 (ru_executor ru)
  && bool_decide (mr_isolation_level m ∈ ["standard"; "privileged"; "deployment"])
  && match ru_available_disk_bytes ru with Some n => 0 <=? n | None => true end
  && (1 <=? ru_protocol_version ru) && (ru_protocol_version ru <=? 1024) && length_between 1 128 (mr_runner_version m).

(** The checks of a row of [runner_certificates], its unique columns and indexes. *)
Definition certificate_insertable (g : registry) (c : certRow) : bool :=
  bool_decide (ct_id c ∉ ct_id <$> rg_certs g) && bool_decide (ct_serial c ∉ ct_serial <$> rg_certs g)
  && bool_decide ((ct_runner_id c, ct_csr_fingerprint c) ∉ (λ x, (ct_runner_id x, ct_csr_fingerprint x)) <$> rg_certs g)
  && negb (existsb (λ x, (ct_runner_id x =? ct_runner_id c) && (ct_state x =? "active")) (rg_certs g))
  && match ct_replaces c with
     | Some old => bool_decide (old ∈ ct_id <$> rg_certs g) && (old <>? ct_id c)
                   && bool_decide (Some old ∉ ct_replaces <$> rg_certs g)
     | None => true
     end
  && bool_decide (is_Some (db_runners (rg_core g) !! ct_runner_id c)) && re_match serial_pattern (ct_serial c)
  && (length (ct_csr_fingerprint c) =? 32)%nat && (length (ct_public_key_fingerprint c) =? 32)%nat
  && (1 <=? Z.of_nat (length (ct_chain_pem c))) && (Z.of_nat (length (ct_chain_pem c)) <=? 32768)
  && (ct_not_before c <? ct_not_after c).

(** ** Operations *)

Definition pool_named (name : string) (g : registry) : option poolRow :=
  snd <$> list_find (λ p, pl_name p = name) (rg_pools g).
Definition pool_by_id (id : uuid) (g : registry) : option poolRow :=
  snd <$> list_find (λ p, pl_id p = id) (rg_pools g).

Definition PgCreateRegistrationToken (record : RegistrationToken) : registry → registry * result AuthError unit :=
  if (rt_ID record =? uuid_Nil) || (rt_PoolName record =? "") || (rt_MaxUses record <? 1)
  then λ g, (g, Err ErrInvalidInput)
  else registry_transaction (λ g,
    match pool_named (rt_PoolName record) g with
    | None => Err ErrInvalidInput
    | Some pool =>
      let row := mkTokenRow (rt_ID record) (pl_id pool) (rt_Digest record) (rt_ExpiresAt record) (rt_MaxUses record) 0
                   (rt_CreatedBy record) None None in
      fail_if negb (token_insertable g row) with ErrRegistry;;
      Ok (appendRunnerAudit (rt_CreatedBy record) "runner_registration_token.created" "runner_registration_token"
            (rt_ID record) (rg_with_tokens (rg_tokens g ++ [row]) g), tt)
    end).

(** The condition on the token of an enrolment. *)
Definition usable_token (now : time) (digest : bytes) (t : tokenRow) : bool :=
  (tk_digest t =? digest) && bool_decide (tk_revoked_at t = None) && (now <? tk_expires_at t)
  && (tk_used_count t <? tk_max_uses t).

Definition used_token (now : time) (runnerID : uuid) (t : tokenRow) : tokenRow :=
  mkTokenRow (tk_id t) (tk_pool_id t) (tk_digest t) (tk_expires_at t) (tk_max_uses t) (tk_used_count t + 1)
    (tk_created_by t) (Some (now, runnerID)) (tk_revoked_at t).

Definition runner_of (poolType : string) (c : Capabilities) : runnerRow :=
  mkRunnerRow poolType "offline" (ca_OS c) (ca_Architecture c) (ca_Executor c) (ca_Labels c) (ca_Capacity c)
    (Some (ca_AvailableDiskBytes c)) (ca_ProtocolVersion c) None.

Definition insertRunnerCertificate (id runnerID : uuid) (certificate : CertificateRecord) (replaces : option uuid)
    (g : registry) : result AuthError registry :=
  let row := mkCertRow id runnerID (cr_Serial certificate) (cr_CSRFingerprint certificate)
               (cr_PublicKeyFingerprint certificate) "active" (cr_ChainPEM certificate) (cr_NotBefore certificate)
               (cr_NotAfter certificate) None None replaces in
  fail_if negb (certificate_insertable g row) with ErrRegistry;;
  Ok (rg_with_certs (rg_certs g ++ [row]) g).

(** [certificateID] is the new identifier of the certificate. *)
Definition PgEnrollRunner (certificateID : uuid) (enrollment : Enrollment)
    : registry → registry * result AuthError RunnerIdentity :=
  registry_transaction (λ g,
    let id := en_RunnerID enrollment in
    let capabilities := en_Capabilities enrollment in
    let certificate := en_Certificate enrollment in
    match list_find (λ t, usable_token (rg_now g) (en_TokenDigest enrollment) t = true) (rg_tokens g) with
    | None => Err ErrDenied
    | Some (_, token) =>
      match pool_by_id (tk_pool_id token) g with
      | None => Err ErrDenied
      | Some pool =>
        fail_if pl_type pool <>? ca_IsolationLevel capabilities with ErrDenied;;
        let ru := runner_of (pl_type pool) capabilities in
        let m := mkMemberRow (pl_id pool) (en_Name enrollment) (Some (cr_Serial certificate))
                   (ca_IsolationLevel capabilities) (ca_RunnerVersion capabilities) None in
        fail_if negb (runner_insertable g id ru m) with ErrDenied;;
        let g := rg_with_members (<[id := m]> (rg_members g))
                   (rg_with_core (with_runners (<[id := ru]> (db_runners (rg_core g))) (rg_core g)) g) in
        let? g := insertRunnerCertificate certificateID id certificate None g in
        let hit t := (tk_id t =? tk_id token) && (tk_used_count t <? tk_max_uses t) in
        fail_if count hit (rg_tokens g) <>? 1 with ErrDenied;;
        let g := rg_with_tokens (update_all hit (used_token (rg_now g) id) (rg_tokens g)) g in
        Ok (appendRunnerAudit None "runner.enrolled" "runner" id g,
            mkRunnerIdentity id (pl_id pool) (pl_type pool) (en_Name enrollment) certificateID (cr_Serial certificate)
              capabilities)
      end
    end).

(** The condition on a certificate in [AuthenticateRunner]. *)
Definition live_certificate (now : time) (c : certRow) : bool :=
  (ct_not_before c <=? now) && (now <? ct_not_after c)
  && ((ct_state c =? "active")
      || ((ct_state c =? "retiring") && match ct_retire_at c with Some t => now <? t | None => false end)).

(** A runner that is not disabled, joined with its pool. *)
Definition enabled_runner (id : uuid) (g : registry) : option (runnerRow * memberRow) :=
  ru ← db_runners (rg_core g) !! id;
  m ← rg_members g !! id;
  if ru_status ru <>? "disabled" then Some (ru, m) else None.

Definition PgAuthenticateRunner (runnerID : uuid) (serial : string) (g : registry) : result AuthError RunnerIdentity :=
  match list_find (λ c, ct_serial c = serial ∧ ct_runner_id c = runnerID ∧ live_certificate (rg_now g) c = true)
          (rg_certs g), enabled_runner runnerID g with
  | Some (_, c), Some (ru, m) =>
    match pool_by_id (mr_pool_id m) g with
    | None => Err ErrDenied
    | Some pool =>
      Ok (mkRunnerIdentity runnerID (mr_pool_id m) (pl_type pool) (mr_name m) (ct_id c) (ct_serial c)
        (mkCapabilities (ru_os ru) (ru_architecture ru) (ru_executor ru) (mr_isolation_level m) (ru_labels ru)
           (ru_capacity ru) (default 0 (ru_available_disk_bytes ru)) (ru_protocol_version ru) (mr_runner_version m)))
    end
  | _, _ => Err ErrDenied
  end.

(** The certificate that replaced an old one, with the end of the old one.  A
    missing time of retirement cannot be scanned. *)
Definition replacementCertificate (old : certRow) (g : registry) : result AuthError (option CertificateRecord) :=
  match list_find (λ c, ct_replaces c = Some (ct_id old)) (rg_certs g) with
  | None => Ok None
  | Some (_, c) =>
    match ct_retire_at old with
    | None => Err ErrRegistry
    | Some retire =>
      Ok (Some (mkCertificateRecord (ct_serial c) (ct_csr_fingerprint c) (ct_public_key_fingerprint c) (ct_chain_pem c)
                  (ct_not_before c) (ct_not_after c) retire))
    end
  end.

Definition set_valid_until (t : time) (c : CertificateRecord) : CertificateRecord :=
  mkCertificateRecord (cr_Serial c) (cr_CSRFingerprint c) (cr_PublicKeyFingerprint c) (cr_ChainPEM c) (cr_NotBefore c)
    (cr_NotAfter c) t.

Definition PgRotateRunnerCertificate (newID : uuid) (rotation : Rotation)
    : registry → registry * result AuthError CertificateRecord :=
  if (ro_GracePeriod rotation <=? 0) || (RotationGracePeriod <? ro_GracePeriod rotation) then λ g, (g, Err ErrDenied)
  else registry_transaction (λ g,
    match list_find (λ c, ct_serial c = ro_OldSerial rotation ∧ ct_runner_id c = ro_RunnerID rotation) (rg_certs g),
          enabled_runner (ro_RunnerID rotation) g with
    | Some (_, old), Some _ =>
      let? existing := replacementCertificate old g in
      match existing with
      | Some existing =>
        fail_if cr_CSRFingerprint existing <>? cr_CSRFingerprint (ro_Certificate rotation) with ErrDenied;;
        Ok (g, existing)
      | None =>
        fail_if ct_state old <>? "active" with ErrDenied;;
        let retire := Z.min (ct_not_after old) (rg_now g + ro_GracePeriod rotation) in
        let certificate := set_valid_until retire (ro_Certificate rotation) in
        let g := rg_with_certs (update_all (λ c, (ct_id c =? ct_id old) && (ct_state c =? "active"))
                   (λ c, ct_set "retiring" (Some retire) (ct_revoked c) c) (rg_certs g)) g in
        let? g := insertRunnerCertificate newID (ro_RunnerID rotation) certificate (Some (ct_id old)) g in
        let g := rg_with_members (alter (set_certificate_serial (Some (cr_Serial certificate))) (ro_RunnerID rotation)
                   (rg_members g)) g in
        Ok (appendRunnerAudit None "runner_certificate.rotated" "runner" (ro_RunnerID rotation) g, certificate)
      end
    | _, _ => Err ErrDenied
    end).

(** [UPDATE runner_certificates SET state='revoked',... WHERE state IN ('active','retiring') AND p];
    a certificate that is not valid yet violates the check on [revoked_at]. *)
Definition revoke_certificates (p : certRow → bool) (reason : string) (g : registry) : result AuthError registry :=
  let hit c := p c && ((ct_state c =? "active") || (ct_state c =? "retiring")) in
  fail_if existsb (λ c, hit c && (rg_now g <? ct_not_before c)) (rg_certs g) with ErrRegistry;;
  Ok (rg_with_certs (update_all hit (ct_set "revoked" None (Some (rg_now g, reason))) (rg_certs g)) g).

Definition disabled_runner (ru : runnerRow) : runnerRow :=
  mkRunnerRow (ru_pool_type ru) "disabled" (ru_os ru) (ru_architecture ru) (ru_executor ru) (ru_labels ru)
    (ru_capacity ru) (ru_available_disk_bytes ru) (ru_protocol_version ru) (ru_last_seen_at ru).
Definition disabled_member (reason : string) (m : memberRow) : memberRow :=
  mkMemberRow (mr_pool_id m) (mr_name m) None (mr_isolation_level m) (mr_runner_version m) (Some reason).

Definition PgDisableRunner (runnerID : uuid) (reason : string) (actor : option uuid)
    : registry → registry * result AuthError unit :=
  if (runnerID =? uuid_Nil) || (len reason <? 1) || (256 <? len reason) then λ g, (g, Err ErrInvalidInput)
  else registry_transaction (λ g,
    match enabled_runner runnerID g with
    | None => Err ErrDenied
    | Some (ru, m) =>
      let g := rg_with_members (<[runnerID := disabled_member reason m]> (rg_members g))
                 (rg_with_core (with_runners (<[runnerID := disabled_runner ru]> (db_runners (rg_core g))) (rg_core g)) g) in
      let? g := revoke_certificates (λ c, ct_runner_id c =? runnerID) reason g in
      Ok (appendRunnerAudit actor "runner.disabled" "runner" runnerID g, tt)
    end).

Definition PgRevokeRunnerCertificate (serial reason : string) (actor : option uuid)
    : registry → registry * result AuthError unit :=
  if (len serial <? 16) || (64 <? len serial) || (len reason <? 1) || (256 <? len reason)
  then λ g, (g, Err ErrInvalidInput)
  else registry_transaction (λ g,
    match list_find (λ c, ct_serial c = serial ∧ (ct_state c = "active" ∨ ct_state c = "retiring")) (rg_certs g) with
    | None => Err ErrDenied
    | Some (_, c) =>
      let runnerID := ct_runner_id c in
      let? g := revoke_certificates (λ c, ct_serial c =? serial) reason g in
      let g := match rg_members g !! runnerID with
               | Some m => if bool_decide (mr_certificate_serial m = Some serial)
                           then rg_with_members (<[runnerID := set_certificate_serial None m]> (rg_members g)) g else g
               | None => g
               end in
      Ok (appendRunnerAudit actor "runner_certificate.revoked" "runner" runnerID g, tt)
    end).

#[export] Instance pg_runner_store : RunnerStore registry := {|
  CreateRegistrationToken := PgCreateRegistrationToken;
  EnrollRunner := PgEnrollRunner;
  AuthenticateRunner := PgAuthenticateRunner;
  RotateRunnerCertificate := PgRotateRunnerCertificate;
  DisableRunner := PgDisableRunner;
  RevokeRunnerCertificate := PgRevokeRunnerCertificate;
|}.
