(* ===== verification/RunnerIdentityFacts.v ===== *)
(** The registry of runners: its invariant, and that every operation keeps it. *)

From S2P Require Import Prelude GoStd Regex RunModel Database RunnerAuth PgStore PgRunnerIdentity.

(** ** The certificate table *)

(** A certificate is active, retiring until a moment of its validity, or revoked. *)
Definition cert_ok (c : certRow) : Prop :=
  (ct_state c = "active" ∧ ct_retire_at c = None ∧ ct_revoked c = None) ∨
  (ct_state c = "retiring" ∧ (∃ t, ct_retire_at c = Some t ∧ t ≤ ct_not_after c) ∧ ct_revoked c = None) ∨
  (ct_state c = "revoked" ∧ ct_retire_at c = None ∧ is_Some (ct_revoked c)).

Record certs_ok (l : list certRow) : Prop := {
  co_ids : NoDup (ct_id <$> l);
  co_serials : NoDup (ct_serial <$> l);
  co_active : ∀ c c', c ∈ l → c' ∈ l → ct_runner_id c = ct_runner_id c' →
    ct_state c = "active" → ct_state c' = "active" → c = c';
  co_states : ∀ c, c ∈ l → cert_ok c;
}.

Lemma insertable_spec g c :
  certificate_insertable g c = true →
  (ct_id c ∉ ct_id <$> rg_certs g) ∧ (ct_serial c ∉ ct_serial <$> rg_certs g) ∧
  (∀ x, x ∈ rg_certs g → ct_runner_id x = ct_runner_id c → ct_state x ≠ "active") ∧
  is_Some (db_runners (rg_core g) !! ct_runner_id c) ∧ re_match serial_pattern (ct_serial c) = true ∧
  ct_not_before c < ct_not_after c ∧ (∀ old, ct_replaces c = Some old → Some old ∉ (ct_replaces <$> rg_certs g)).
Proof.
  unfold certificate_insertable. intros H. bools.
  match goal with H : existsb _ _ = false |- _ => rename H into Hact end.
  match goal with H : match ct_replaces c with _ => _ end = true |- _ => rename H into Hrep end.
  split_and!; try done; try lia.
  - intros x Hx Hr Hs. rewrite <-not_true_iff_false in Hact. apply Hact, existsb_exists.
    exists x. split; [by apply list_elem_of_In|]. by rewrite Hr, Hs, !bool_decide_eq_true_2.
  - intros old Ho. rewrite Ho in Hrep. by bools.
Qed.

Lemma certs_insert g c l :
  certificate_insertable g c = true → rg_certs g = l → certs_ok l → ct_state c = "active" →
  ct_retire_at c = None → ct_revoked c = None → certs_ok (l ++ [c]).
Proof.
  intros (Hid & Hs & Hone & _)%insertable_spec <- [Hids Hser Hact Hst] Ha Hre Hrv. split.
  - rewrite fmap_app. apply NoDup_app. split; [done|]. split; [|apply NoDup_singleton].
    intros x Hx ->%list_elem_of_singleton. done.
  - rewrite fmap_app. apply NoDup_app. split; [done|]. split; [|apply NoDup_singleton].
    intros x Hx ->%list_elem_of_singleton. done.
  - intros x y [Hx|Hx%list_elem_of_singleton]%elem_of_app [Hy|Hy%list_elem_of_singleton]%elem_of_app Hr Hax Hay; subst;
      [by apply Hact|by destruct (Hone x Hx Hr)|by destruct (Hone y Hy (eq_sym Hr))|done].
  - intros x [Hx|Hx%list_elem_of_singleton]%elem_of_app; [by apply Hst|]. subst. by left.
Qed.

(** A statement that retires or revokes the certificates of a condition. *)
Lemma certs_update p f l :
  certs_ok l → (∀ c, ct_id (f c) = ct_id c ∧ ct_serial (f c) = ct_serial c ∧ ct_state (f c) ≠ "active") →
  (∀ c, c ∈ l → p c = true → cert_ok (f c)) → certs_ok (update_all p f l).
Proof.
  intros [Hids Hser Hact Hst] Hf Hok. split.
  - rewrite fmap_update_keep; [done|]. intros c. apply Hf.
  - rewrite fmap_update_keep; [done|]. intros c. apply Hf.
  - unfold update_all. intros c c' (x & -> & Hx)%list_elem_of_fmap (y & -> & Hy)%list_elem_of_fmap Hr Hc Hc'.
    destruct (p x) eqn:Hpx; [by destruct (Hf x) as (_ & _ & [])|].
    destruct (p y) eqn:Hpy; [by destruct (Hf y) as (_ & _ & [])|]. auto.
  - unfold update_all. intros c (x & -> & Hx)%list_elem_of_fmap. destruct (p x) eqn:Hpx; auto.
Qed.

Lemma elem_of_update {A} (p : A → bool) f l x :
  x ∈ update_all p f l ↔ ∃ y, y ∈ l ∧ x = if p y then f y else y.
Proof. unfold update_all. rewrite list_elem_of_fmap. naive_solver. Qed.

(** ** The registry *)

Record tokens_ok (l : list tokenRow) : Prop := {
  to_ids : NoDup (tk_id <$> l);
  to_digests : NoDup (tk_digest <$> l);
  to_uses : ∀ t, t ∈ l → 0 ≤ tk_used_count t ≤ tk_max_uses t ∧ tk_max_uses t ≤ 256;
}.

Definition is_disabled (id : uuid) (g : registry) : Prop :=
  ∃ ru, db_runners (rg_core g) !! id = Some ru ∧ ru_status ru = "disabled".

Record registry_inv (g : registry) : Prop := {
  ri_certs : certs_ok (rg_certs g);
  ri_tokens : tokens_ok (rg_tokens g);
  ri_dom : ∀ id, is_Some (rg_members g !! id) ↔ is_Some (db_runners (rg_core g) !! id);
  ri_owner : ∀ c, c ∈ rg_certs g → is_Some (rg_members g !! ct_runner_id c);
  ri_disabled : ∀ c, c ∈ rg_certs g → is_disabled (ct_runner_id c) g → ct_state c = "revoked";
  ri_serial : ∀ id m s, rg_members g !! id = Some m →
    mr_certificate_serial m = Some s ↔
    ∃ c, c ∈ rg_certs g ∧ ct_runner_id c = id ∧ ct_serial c = s ∧ ct_state c = "active";
  ri_pool : ∀ id ru m, db_runners (rg_core g) !! id = Some ru → rg_members g !! id = Some m →
    ru_pool_type ru = mr_isolation_level m;
}.

(** What happens to the tables of the run store elsewhere: time passes, and a runner
    keeps its pool type and stays disabled or enabled. *)
Definition core_step (d d' : database) : Prop :=
  db_now d ≤ db_now d' ∧
  ∀ id, match db_runners d !! id, db_runners d' !! id with
        | Some ru, Some ru' => ru_pool_type ru' = ru_pool_type ru ∧ (ru_status ru' = "disabled" ↔ ru_status ru = "disabled")
        | None, None => True
        | _, _ => False
        end.

Lemma core_step_same d d' : db_now d ≤ db_now d' → db_runners d' = db_runners d → core_step d d'.
Proof. intros Hn Hr. split; [done|]. intros id. rewrite Hr. by destruct (db_runners d !! id). Qed.

(** One operation; a successful enrolment is labelled with the digest of its token. *)
Inductive registry_step : option bytes → registry → registry → Prop :=
| rs_token record g : registry_step None g (PgCreateRegistrationToken record g).1
| rs_enroll id e g g' found : PgEnrollRunner id e g = (g', Ok found) → registry_step (Some (en_TokenDigest e)) g g'
| rs_refused id e g g' err : PgEnrollRunner id e g = (g', Err err) → registry_step None g g'
| rs_rotate id r g : registry_step None g (PgRotateRunnerCertificate id r g).1
| rs_disable id reason actor g : registry_step None g (PgDisableRunner id reason actor g).1
| rs_revoke serial reason actor g : registry_step None g (PgRevokeRunnerCertificate serial reason actor g).1
| rs_core d g : core_step (rg_core g) d → registry_step None g (rg_with_core d g).

(** A history from an empty registry, with the digests of its enrolments. *)
Inductive registry_history : list bytes → registry → Prop :=
| rh_start d pools : db_runners d = ∅ → registry_history [] (mkRegistry d pools [] ∅ [])
| rh_step log g label g' : registry_history log g → registry_step label g g' →
    registry_history (log ++ option_list label) g'.

(** ** What the operations do *)

Lemma transaction_cases {A} (body : registry → result AuthError (registry * A)) g :
  (∃ g' a, body g = Ok (g', a) ∧ registry_transaction body g = (g', Ok a)) ∨
  (∃ e, registry_transaction body g = (g, Err e)).
Proof. unfold registry_transaction. destruct (body g) as [[g' a]|e]; eauto. Qed.

(** Case analysis on a transaction: committed, with the equation of its body, or refused. *)
Ltac run_transaction :=
  match goal with
  | |- context [registry_transaction ?body ?g] =>
    destruct (transaction_cases body g) as [(?g' & ?a & Hb & ->)|[?e ->]]; [revert Hb|]
  end.

(** A refused operation changes nothing. *)
Lemma enroll_err id e g g' err : PgEnrollRunner id e g = (g', Err err) → g' = g.
Proof. unfold PgEnrollRunner. run_transaction; [congruence|by intros [= <- _]]. Qed.
Lemma rotate_err id r g g' err : PgRotateRunnerCertificate id r g = (g', Err err) → g' = g.
Proof.
  unfold PgRotateRunnerCertificate. destruct (_ || _); [by intros [= <- _]|].
  run_transaction; [congruence|by intros [= <- _]].
Qed.
Lemma disable_err id reason actor g g' err : PgDisableRunner id reason actor g = (g', Err err) → g' = g.
Proof.
  unfold PgDisableRunner. destruct (_ || _); [by intros [= <- _]|]. run_transaction; [congruence|by intros [= <- _]].
Qed.
Lemma revoke_err serial reason actor g g' err : PgRevokeRunnerCertificate serial reason actor g = (g', Err err) → g' = g.
Proof.
  unfold PgRevokeRunnerCertificate. destruct (_ || _); [by intros [= <- _]|].
  run_transaction; [congruence|by intros [= <- _]].
Qed.

Lemma core_step_audit a ac r id d : core_step d (append_audit a ac r id d).
Proof. by apply core_step_same. Qed.

Lemma core_inv d g : registry_inv g → core_step (rg_core g) d → registry_inv (rg_with_core d g).
Proof.
  intros [Hc Ht Hd Ho Hdis Hs Hp] [_ Hrun]. split; simpl; try done.
  - intros id. rewrite Hd. specialize (Hrun id). clear -Hrun.
    by destruct (db_runners (rg_core g) !! id), (db_runners d !! id).
  - intros c Hin (ru' & Hru' & Hst). apply (Hdis c Hin). specialize (Hrun (ct_runner_id c)).
    cbn [rg_core rg_with_core] in Hru'. rewrite Hru' in Hrun.
    destruct (db_runners (rg_core g) !! ct_runner_id c) as [ru|] eqn:Hru; [|done]. exists ru. split; [done|]. by apply Hrun.
  - intros id ru' m Hru' Hm. specialize (Hrun id). rewrite Hru' in Hrun.
    destruct (db_runners (rg_core g) !! id) as [ru|] eqn:Hru; [|done]. destruct Hrun as [-> _]. by eapply Hp.
Qed.

Lemma audit_inv a ac r id g : registry_inv g → registry_inv (appendRunnerAudit a ac r id g).
Proof. intros Hg. apply core_inv; [done|]. apply core_step_audit. Qed.

Lemma token_row_inv t g :
  registry_inv g → token_insertable g t = true → tk_used_count t = 0 →
  registry_inv (rg_with_tokens (rg_tokens g ++ [t]) g).
Proof.
  intros [Hc [Hids Hdig Huse] Hd Ho Hdis Hs Hp] Hi Hz. split; try done. unfold token_insertable in Hi. bools. split; simpl.
  - rewrite fmap_app. apply NoDup_app. split; [done|]. split; [|apply NoDup_singleton]. by intros x Hx ->%list_elem_of_singleton.
  - rewrite fmap_app. apply NoDup_app. split; [done|]. split; [|apply NoDup_singleton]. by intros x Hx ->%list_elem_of_singleton.
  - intros x [Hx|Hx%list_elem_of_singleton]%elem_of_app; [by apply Huse|]. subst. lia.
Qed.

Lemma create_token_inv record g : registry_inv g → registry_inv (PgCreateRegistrationToken record g).1.
Proof.
  intros Hg. unfold PgCreateRegistrationToken. destruct (_ || _); [done|].
  run_transaction; [|done].
  destruct (pool_named _ _) as [pool|]; [|done]. destruct (negb _) eqn:Hi; [done|]. intros [= <- _].
  apply audit_inv, token_row_inv; [done| |done]. by apply negb_false_iff.
Qed.

(** The result of a successful enrolment. *)
Lemma enroll_spec id e g g' found :
  PgEnrollRunner id e g = (g', Ok found) →
  ∃ t pool row, t ∈ rg_tokens g ∧ usable_token (rg_now g) (en_TokenDigest e) t = true ∧
    pool_by_id (tk_pool_id t) g = Some pool ∧ pl_type pool = ca_IsolationLevel (en_Capabilities e) ∧
    let rid := en_RunnerID e in
    let ru := runner_of (pl_type pool) (en_Capabilities e) in
    let m := mkMemberRow (pl_id pool) (en_Name e) (Some (cr_Serial (en_Certificate e)))
               (ca_IsolationLevel (en_Capabilities e)) (ca_RunnerVersion (en_Capabilities e)) None in
    let g1 := rg_with_members (<[rid := m]> (rg_members g))
                (rg_with_core (with_runners (<[rid := ru]> (db_runners (rg_core g))) (rg_core g)) g) in
    let hit u := (tk_id u =? tk_id t) && (tk_used_count u <? tk_max_uses u) in
    runner_insertable g rid ru m = true ∧ certificate_insertable g1 row = true ∧
    count hit (rg_tokens g) = 1 ∧
    row = mkCertRow id rid (cr_Serial (en_Certificate e)) (cr_CSRFingerprint (en_Certificate e))
            (cr_PublicKeyFingerprint (en_Certificate e)) "active" (cr_ChainPEM (en_Certificate e))
            (cr_NotBefore (en_Certificate e)) (cr_NotAfter (en_Certificate e)) None None None ∧
    found = mkRunnerIdentity rid (pl_id pool) (pl_type pool) (en_Name e) id (cr_Serial (en_Certificate e)) (en_Capabilities e) ∧
    g' = appendRunnerAudit None "runner.enrolled" "runner" rid
           (rg_with_tokens (update_all hit (used_token (rg_now g) rid) (rg_tokens g))
              (rg_with_certs (rg_certs g ++ [row]) g1)).
Proof.
  unfold PgEnrollRunner, registry_transaction. destruct (list_find _ _) as [[i t]|] eqn:Ht; [|done].
  apply list_find_Some in Ht as (Hin & Hu & _). apply list_elem_of_lookup_2 in Hin.
  destruct (pool_by_id _ _) as [pool|] eqn:Hpool; [|done]. destruct (negb (bool_decide (pl_type pool = _))) eqn:Hty; [done|].
  cbv zeta. destruct (negb (runner_insertable _ _ _ _)) eqn:Hru; [done|]. unfold insertRunnerCertificate.
  destruct (negb (certificate_insertable _ _)) eqn:Hci; [done|]. cbn [rbind].
  destruct (negb (bool_decide (count _ _ = 1))) eqn:Hcount; [done|]. intros [= <- <-]. bools.
  eexists t, pool, _. cbv zeta. split_and!; done.
Qed.

Lemma enrolled_tokens g rid (hit : tokenRow → bool) :
  tokens_ok (rg_tokens g) → (∀ t, hit t = true → tk_used_count t < tk_max_uses t) →
  tokens_ok (update_all hit (used_token (rg_now g) rid) (rg_tokens g)).
Proof.
  intros [Hids Hdig Huse] Hhit. split.
  - by rewrite fmap_update_keep.
  - by rewrite fmap_update_keep.
  - intros t (u & Hu & ->)%elem_of_update. specialize (Huse u Hu).
    destruct (hit u) eqn:Hh; [|done]. specialize (Hhit u Hh). simpl. lia.
Qed.

Lemma enroll_inv id e g g' found : registry_inv g → PgEnrollRunner id e g = (g', Ok found) → registry_inv g'.
Proof.
  intros [Hc Ht Hd Ho Hdis Hs Hp] He. apply enroll_spec in He as (t & pool & row & _ & _ & _ & Hty & He).
  cbv zeta in He. destruct He as (Hru & Hci & _ & Hrow & _ & ->). apply audit_inv.
  pose proof Hci as (_ & _ & Hnone & _)%insertable_spec. unfold runner_insertable in Hru. bools.
  assert (Hnew : ∀ c, c ∈ rg_certs g → ct_runner_id c ≠ en_RunnerID e).
  { intros c Hin Heq. destruct (Ho c Hin) as [m Hm]. rewrite Heq in Hm. congruence. }
  assert (Hrid : ct_runner_id row = en_RunnerID e) by by rewrite Hrow.
  split; cbn [rg_certs rg_tokens rg_members rg_core rg_with_certs rg_with_members rg_with_tokens rg_with_core with_runners db_runners].
  - apply (certs_insert _ _ _ Hci eq_refl Hc); by rewrite Hrow.
  - apply enrolled_tokens; [done|]. intros u Hu. bools. lia.
  - intros id'. destruct (decide (id' = en_RunnerID e)) as [->|Hne]; [by rewrite !lookup_insert_eq|].
    by rewrite !lookup_insert_ne by done.
  - intros c [Hin|Hin%list_elem_of_singleton]%elem_of_app.
    + rewrite lookup_insert_ne; [by apply Ho|]. intros Heq. by apply (Hnew c Hin).
    + subst c. rewrite Hrid, lookup_insert_eq. by eexists.
  - intros c [Hin|Hin%list_elem_of_singleton]%elem_of_app (ru & Hlook & Hst); cbn [rg_core rg_with_certs rg_with_members rg_with_tokens rg_with_core with_runners db_runners] in Hlook.
    + rewrite lookup_insert_ne in Hlook by (intros Heq; by apply (Hnew c Hin)). apply Hdis; [done|]. by exists ru.
    + subst c. rewrite Hrid, lookup_insert_eq in Hlook. injection Hlook as <-. done.
  - intros id' m s Hm. destruct (decide (id' = en_RunnerID e)) as [->|Hne].
    + rewrite lookup_insert_eq in Hm. injection Hm as <-. simpl. split.
      * intros [= <-]. exists row. rewrite elem_of_app, list_elem_of_singleton. split; [by right|]. by rewrite Hrow.
      * intros (c & [Hin|Hin%list_elem_of_singleton]%elem_of_app & Hcr & Hcs & _); [by destruct (Hnew c Hin)|].
        subst c. by rewrite <-Hcs, Hrow.
    + rewrite lookup_insert_ne in Hm by done. rewrite (Hs id' m s Hm). split.
      * intros (c & Hin & Hrest). exists c. split; [|done]. apply elem_of_app. by left.
      * intros (c & [Hin|Hin%list_elem_of_singleton]%elem_of_app & Hcr & Hrest); [by exists c|]. subst c. congruence.
  - intros id' ru m. destruct (decide (id' = en_RunnerID e)) as [->|Hne].
    + rewrite !lookup_insert_eq. intros [= <-] [= <-]. done.
    + rewrite !lookup_insert_ne by done. apply Hp.
Qed.

Lemma enabled_spec id g ru m :
  enabled_runner id g = Some (ru, m) →
  db_runners (rg_core g) !! id = Some ru ∧ rg_members g !! id = Some m ∧ ru_status ru ≠ "disabled".
Proof.
  unfold enabled_runner. destruct (db_runners (rg_core g) !! id) as [ru'|]; [|done]. simpl.
  destruct (rg_members g !! id) as [m'|]; [|done]. simpl. case_bool_decide; [done|]. by intros [= <- <-].
Qed.

Lemma enabled_not_disabled id g : is_Some (enabled_runner id g) → ¬ is_disabled id g.
Proof. intros [[ru m] (Hru & _ & Hs)%enabled_spec] (ru' & Hru' & Hst). congruence. Qed.

(** The rows after the old certificate [old] has been retired. *)
Definition retired (old : certRow) (retire : time) (l : list certRow) : list certRow :=
  update_all (λ c, (ct_id c =? ct_id old) && (ct_state c =? "active"))
    (λ c, ct_set "retiring" (Some retire) (ct_revoked c) c) l.

(** A successful rotation repeats an earlier one or replaces an active certificate. *)
Lemma rotate_spec id r g g' record :
  PgRotateRunnerCertificate id r g = (g', Ok record) →
  0 < ro_GracePeriod r ≤ RotationGracePeriod ∧ ∃ old, old ∈ rg_certs g ∧ ct_serial old = ro_OldSerial r ∧
  ct_runner_id old = ro_RunnerID r ∧ is_Some (enabled_runner (ro_RunnerID r) g) ∧
  ((replacementCertificate old g = Ok (Some record) ∧ cr_CSRFingerprint record = cr_CSRFingerprint (ro_Certificate r) ∧ g' = g) ∨
   (replacementCertificate old g = Ok None ∧ ct_state old = "active" ∧
    let retire := Z.min (ct_not_after old) (rg_now g + ro_GracePeriod r) in
    let g1 := rg_with_certs (retired old retire (rg_certs g)) g in
    ∃ row, record = set_valid_until retire (ro_Certificate r) ∧
      row = mkCertRow id (ro_RunnerID r) (cr_Serial record) (cr_CSRFingerprint record) (cr_PublicKeyFingerprint record)
              "active" (cr_ChainPEM record) (cr_NotBefore record) (cr_NotAfter record) None None (Some (ct_id old)) ∧
      certificate_insertable g1 row = true ∧
      g' = appendRunnerAudit None "runner_certificate.rotated" "runner" (ro_RunnerID r)
             (rg_with_members (alter (set_certificate_serial (Some (cr_Serial record))) (ro_RunnerID r) (rg_members g))
                (rg_with_certs (retired old retire (rg_certs g) ++ [row]) g)))).
Proof.
  unfold PgRotateRunnerCertificate. destruct (_ || _) eqn:Hgrace; [done|].
  apply orb_false_iff in Hgrace as [?%Z.leb_gt ?%Z.ltb_ge]. unfold registry_transaction.
  destruct (list_find _ _) as [[i old]|] eqn:Hf; [|done]. apply list_find_Some in Hf as (Hin & [Hser Hrun] & _).
  apply list_elem_of_lookup_2 in Hin. destruct (enabled_runner _ g) eqn:Hen; [|done].
  destruct (replacementCertificate old g) as [[existing|]|e] eqn:Hrep; cbn [rbind]; [| |done].
  - destruct (negb _) eqn:Hcsr; [done|]. intros [= <- <-]. bools. split; [done|]. exists old.
    split_and!; [done..|by eexists|by left].
  - destruct (negb _) eqn:Hst; [done|]. bools. unfold insertRunnerCertificate. cbv zeta.
    destruct (negb (certificate_insertable _ _)) eqn:Hci; [done|]. cbn [rbind]. intros [= <- <-]. bools.
    split; [done|]. exists old. split_and!; [done..|by eexists|]. right. split_and!; [done..|].
    eexists. split_and!; [done..|exact Hci|done].
Qed.

Lemma retired_certs_ok old retire l :
  certs_ok l → old ∈ l → retire ≤ ct_not_after old → certs_ok (retired old retire l).
Proof.
  intros Hl Hold Hr. apply certs_update; [done|done|]. intros c Hc Hhit. bools. right; left. simpl.
  assert (c = old) as -> by by eapply (NoDup_key_unique ct_id); [apply Hl|..].
  destruct (co_states _ Hl old Hold) as [(_ & _ & Hrv)|[(? & _)|(? & _)]]; [|congruence..].
  split; [done|]. split; [by eexists|done].
Qed.

(** Who is active after the retirement of an active certificate. *)
Lemma retired_active old retire l c :
  certs_ok l → old ∈ l → ct_state old = "active" →
  c ∈ retired old retire l ∧ ct_state c = "active" ↔ c ∈ l ∧ ct_state c = "active" ∧ c ≠ old.
Proof.
  intros Hl Hold Hst. unfold retired. rewrite elem_of_update. split.
  - intros [(y & Hy & ->) Hc]. destruct (_ && _) eqn:Hhit; [done|]. split; [done|]. split; [done|]. intros ->.
    rewrite !bool_decide_eq_true_2 in Hhit by done. done.
  - intros (Hc & Hs & Hne). split; [|done]. exists c. split; [done|]. rewrite bool_decide_eq_false_2; [done|].
    intros Hid. apply Hne. by eapply (NoDup_key_unique ct_id); [apply Hl|..].
Qed.

Lemma rotate_inv id r g : registry_inv g → registry_inv (PgRotateRunnerCertificate id r g).1.
Proof.
  intros Hg. destruct (PgRotateRunnerCertificate id r g) as [g' [record|e]] eqn:Hr; simpl.
  2:{ by apply rotate_err in Hr as ->. }
  apply rotate_spec in Hr as (_ & old & Hin & _ & Hown & Hen & [(_ & _ & ->)|(_ & Hst & Hrest)]); [done|].
  cbv zeta in Hrest. destruct Hrest as (row & -> & Hrow & Hci & ->). set (retire := Z.min _ _) in *.
  apply audit_inv. destruct Hg as [Hc Ht Hd Ho Hdis Hs Hp]. set (l := retired old retire (rg_certs g)) in *.
  assert (Hl : certs_ok l) by (apply retired_certs_ok; [done|done|unfold retire; lia]).
  assert (Hsame : ∀ c, c ∈ l → ∃ x, x ∈ rg_certs g ∧ ct_runner_id c = ct_runner_id x ∧ (ct_state x = "revoked" → ct_state c = "revoked")).
  { intros c (x & Hx & ->)%elem_of_update. exists x. split; [done|]. destruct (_ && _) eqn:Hhit; [|done]. split; [done|].
    bools. congruence. }
  assert (Hrr : ct_runner_id row = ro_RunnerID r) by by rewrite Hrow.
  split; cbn [rg_certs rg_tokens rg_members rg_core rg_with_certs rg_with_members]; try done.
  - apply (certs_insert _ _ _ Hci eq_refl Hl); by rewrite Hrow.
  - intros id'. rewrite <-Hd. destruct (decide (id' = ro_RunnerID r)) as [->|Hne]; [|by rewrite lookup_alter_ne].
    rewrite lookup_alter_eq. by destruct (rg_members g !! _).
  - intros c [Hx|Hx%list_elem_of_singleton]%elem_of_app.
    + destruct (Hsame c Hx) as (x & Hx' & -> & _). destruct (Ho x Hx') as [m Hm]. destruct (decide (ct_runner_id x = ro_RunnerID r)) as [->|Hne].
      * rewrite lookup_alter_eq. destruct (enabled_runner _ _) as [[ru m']|] eqn:He; [|by destruct Hen].
        apply enabled_spec in He as (_ & -> & _). by eexists.
      * rewrite lookup_alter_ne by done. by eexists.
    + subst c. rewrite Hrr, lookup_alter_eq. destruct (enabled_runner _ _) as [[ru m']|] eqn:He; [|by destruct Hen].
      apply enabled_spec in He as (_ & -> & _). by eexists.
  - intros c [Hx|Hx%list_elem_of_singleton]%elem_of_app Hdd.
    + destruct (Hsame c Hx) as (x & Hx' & Heq & Hrev). apply Hrev, Hdis; [done|]. by rewrite <-Heq.
    + subst c. rewrite Hrr in Hdd. by destruct (enabled_not_disabled _ _ Hen).
  - intros id' m s Hm. destruct (decide (id' = ro_RunnerID r)) as [->|Hne].
    + rewrite lookup_alter_eq in Hm. destruct (rg_members g !! ro_RunnerID r) as [m0|]; [|done]. injection Hm as <-. simpl. split.
      * intros [= <-]. exists row. rewrite elem_of_app, list_elem_of_singleton. split; [by right|]. by rewrite Hrow.
      * intros (c & Hx & Hcr & Hcs & Ha). apply elem_of_app in Hx as [Hx|Hx%list_elem_of_singleton].
        -- destruct (proj1 (retired_active old retire _ c Hc Hin Hst) (conj Hx Ha)) as (Hcg & _ & Hneq). destruct Hneq.
           apply (co_active _ Hc); [done|done|congruence|done..].
        -- subst c. by rewrite <-Hcs, Hrow.
    + rewrite lookup_alter_ne in Hm by done. rewrite (Hs id' m s Hm). split.
      * intros (c & Hx & Hcr & Hcs & Ha). exists c. split; [|done]. apply elem_of_app. left.
        eapply (retired_active old retire _ c Hc Hin Hst). split; [done|]. split; [done|]. intros ->. congruence.
      * intros (c & [Hx|Hx%list_elem_of_singleton]%elem_of_app & Hcr & Hcs & Ha); [|subst c; congruence].
        exists c. split; [|done]. by eapply (retired_active old retire _ c Hc Hin Hst).
  - intros id' ru m Hru Hm. destruct (decide (id' = ro_RunnerID r)) as [->|Hne].
    + rewrite lookup_alter_eq in Hm. destruct (rg_members g !! ro_RunnerID r) as [m0|] eqn:Hm0; [|done].
      injection Hm as <-. exact (Hp _ _ _ Hru Hm0).
    + rewrite lookup_alter_ne in Hm by done. by eapply Hp.
Qed.

(** ** Revocation *)

(** The rows after the certificates of a condition have been revoked. *)
Definition revoked (p : certRow → bool) (now : time) (reason : string) (l : list certRow) : list certRow :=
  update_all (λ c, p c && ((ct_state c =? "active") || (ct_state c =? "retiring")))
    (ct_set "revoked" None (Some (now, reason))) l.

Lemma revoke_spec p reason g g' :
  revoke_certificates p reason g = Ok g' → g' = rg_with_certs (revoked p (rg_now g) reason (rg_certs g)) g.
Proof. unfold revoke_certificates. destruct (existsb _ _); [done|]. by intros [= <-]. Qed.

Lemma revoked_certs_ok p now reason l : certs_ok l → certs_ok (revoked p now reason l).
Proof. intros Hl. apply certs_update; [done|done|]. intros c _ _. right; right. simpl. by eauto. Qed.

(** A row after a revocation comes from one with the same owner; a row of the
    condition is revoked, another one is unchanged. *)
Lemma elem_of_revoked p now reason l c :
  certs_ok l → c ∈ revoked p now reason l →
  ∃ x, x ∈ l ∧ ct_runner_id c = ct_runner_id x ∧ ct_serial c = ct_serial x ∧ ct_id c = ct_id x ∧
    if p x then ct_state c = "revoked" else c = x.
Proof.
  intros Hl (x & Hx & ->)%elem_of_update. exists x. split; [done|].
  destruct (p x) eqn:Hp; simpl; [|done].
  destruct (co_states _ Hl x Hx) as [(Hs & _)|[(Hs & _)|(Hs & _)]]; rewrite Hs; simpl; done.
Qed.

Lemma kept_revoked (p : certRow → bool) now reason l c : c ∈ l → p c = false → c ∈ revoked p now reason l.
Proof. intros Hc Hp. apply elem_of_update. exists c. split; [done|]. by rewrite Hp. Qed.

(** A successful disabling. *)
Lemma disable_spec id reason actor g g' :
  PgDisableRunner id reason actor g = (g', Ok tt) →
  ∃ ru m, enabled_runner id g = Some (ru, m) ∧
    g' = appendRunnerAudit actor "runner.disabled" "runner" id
      (mkRegistry (with_runners (<[id := disabled_runner ru]> (db_runners (rg_core g))) (rg_core g)) (rg_pools g) (rg_tokens g)
         (<[id := disabled_member reason m]> (rg_members g))
         (revoked (λ c, ct_runner_id c =? id) (rg_now g) reason (rg_certs g))).
Proof.
  unfold PgDisableRunner. destruct (_ || _); [done|]. unfold registry_transaction.
  destruct (enabled_runner id g) as [[ru m]|]; [|done].
  destruct (revoke_certificates _ _ _) as [g1|e] eqn:Hr; cbn [rbind]; [|done]. intros [= <-].
  apply revoke_spec in Hr as ->. by exists ru, m.
Qed.

Lemma disable_inv id reason actor g : registry_inv g → registry_inv (PgDisableRunner id reason actor g).1.
Proof.
  intros Hg. destruct (PgDisableRunner id reason actor g) as [g' [[]|e]] eqn:Hr; simpl.
  2:{ by apply disable_err in Hr as ->. }
  apply disable_spec in Hr as (ru & m & (Hru & Hm & _)%enabled_spec & ->).
  apply audit_inv. destruct Hg as [Hc Ht Hd Ho Hdis Hs Hp].
  pose proof (λ c, elem_of_revoked (λ c, ct_runner_id c =? id) (rg_now g) reason (rg_certs g) c Hc) as Hel.
  split; cbn [rg_certs rg_tokens rg_members rg_core db_runners with_runners]; try done.
  - by apply revoked_certs_ok.
  - intros id'. destruct (decide (id' = id)) as [->|Hne]; [by rewrite !lookup_insert_eq|by rewrite !lookup_insert_ne].
  - intros c (x & Hx & -> & _)%Hel. destruct (decide (ct_runner_id x = id)) as [->|Hne]; [by rewrite lookup_insert_eq|].
    rewrite lookup_insert_ne by done. by apply Ho.
  - intros c (x & Hx & Hown & _ & _ & Hif)%Hel (ru' & Hru' & Hst). case_bool_decide as Heq; [done|]. subst x.
    cbn [rg_core db_runners with_runners] in Hru'. rewrite lookup_insert_ne in Hru' by done.
    apply Hdis; [done|]. by exists ru'.
  - intros id' m' s Hm'. destruct (decide (id' = id)) as [->|Hne].
    + rewrite lookup_insert_eq in Hm'. injection Hm' as <-. simpl. split; [done|].
      intros (c & (x & Hx & Hown & _ & _ & Hif)%Hel & Hcr & _ & Ha). rewrite <-Hown, Hcr, bool_decide_eq_true_2 in Hif by done.
      congruence.
    + rewrite lookup_insert_ne in Hm' by done. rewrite (Hs id' m' s Hm'). split.
      * intros (c & Hx & Hcr & Hrest). exists c. split; [|done]. apply kept_revoked; [done|]. apply bool_decide_eq_false_2. congruence.
      * intros (c & (x & Hx & Hown & _ & _ & Hif)%Hel & Hcr & Hrest). case_bool_decide; [congruence|]. subst x. by exists c.
  - intros id' ru' m'. destruct (decide (id' = id)) as [->|Hne].
    + rewrite !lookup_insert_eq. intros [= <-] [= <-]. exact (Hp _ _ _ Hru Hm).
    + rewrite !lookup_insert_ne by done. apply Hp.
Qed.

(** The runner of a revoked certificate no longer names it. *)
Definition forget_serial (id : uuid) (serial : string) (members : gmap uuid memberRow) : gmap uuid memberRow :=
  match members !! id with
  | Some m => if bool_decide (mr_certificate_serial m = Some serial)
              then <[id := set_certificate_serial None m]> members else members
  | None => members
  end.

Lemma revoke_certificate_spec serial reason actor g g' :
  PgRevokeRunnerCertificate serial reason actor g = (g', Ok tt) →
  ∃ c, c ∈ rg_certs g ∧ ct_serial c = serial ∧ (ct_state c = "active" ∨ ct_state c = "retiring") ∧
    g' = appendRunnerAudit actor "runner_certificate.revoked" "runner" (ct_runner_id c)
      (mkRegistry (rg_core g) (rg_pools g) (rg_tokens g) (forget_serial (ct_runner_id c) serial (rg_members g))
         (revoked (λ c, ct_serial c =? serial) (rg_now g) reason (rg_certs g))).
Proof.
  unfold PgRevokeRunnerCertificate. destruct (_ || _); [done|]. unfold registry_transaction.
  destruct (list_find _ _) as [[i c]|] eqn:Hf; [|done]. apply list_find_Some in Hf as (Hin & [Hser Hst] & _).
  apply list_elem_of_lookup_2 in Hin. destruct (revoke_certificates _ _ _) as [g1|e] eqn:Hr; cbn [rbind]; [|done].
  intros [= <-]. apply revoke_spec in Hr as ->. exists c. split_and!; [done..|].
  unfold forget_serial. cbn [rg_members rg_with_certs]. destruct (rg_members g !! _) as [m|]; [|done].
  by case_bool_decide.
Qed.

Lemma forget_lookup id serial members id' m' :
  forget_serial id serial members !! id' = Some m' →
  ∃ m, members !! id' = Some m ∧ mr_isolation_level m' = mr_isolation_level m ∧
    mr_certificate_serial m' = if (id' =? id) && bool_decide (mr_certificate_serial m = Some serial) then None
                               else mr_certificate_serial m.
Proof.
  unfold forget_serial. destruct (members !! id) as [m|] eqn:Hm.
  - destruct (decide (id' = id)) as [->|Hne].
    + case_bool_decide as Hs; [rewrite lookup_insert_eq; intros [= <-]|rewrite Hm; intros [= <-]]; exists m;
        rewrite (bool_decide_eq_true_2 (id = id)) by done; [by rewrite (bool_decide_eq_true_2 (_ = Some serial))|].
      by rewrite (bool_decide_eq_false_2 (_ = Some serial)).
    + rewrite (bool_decide_eq_false_2 (id' = id)) by done. case_bool_decide; [rewrite lookup_insert_ne by done|]; eauto.
  - intros Hl. exists m'. split; [done|]. split; [done|]. case_bool_decide; [congruence|done].
Qed.

Lemma forget_dom id serial members id' : is_Some (forget_serial id serial members !! id') ↔ is_Some (members !! id').
Proof.
  unfold forget_serial. destruct (members !! id) as [m|] eqn:Hm; [|done]. case_bool_decide; [|done].
  destruct (decide (id' = id)) as [->|Hne]; [|by rewrite lookup_insert_ne]. rewrite lookup_insert_eq, Hm.
  split; by eexists.
Qed.

Lemma revoke_inv serial reason actor g : registry_inv g → registry_inv (PgRevokeRunnerCertificate serial reason actor g).1.
Proof.
  intros Hg. destruct (PgRevokeRunnerCertificate serial reason actor g) as [g' [[]|e]] eqn:Hr; simpl.
  2:{ by apply revoke_err in Hr as ->. }
  apply revoke_certificate_spec in Hr as (c0 & Hin0 & Hser0 & Hst0 & ->).
  apply audit_inv. destruct Hg as [Hc Ht Hd Ho Hdis Hs Hp].
  pose proof (λ c, elem_of_revoked (λ c, ct_serial c =? serial) (rg_now g) reason (rg_certs g) c Hc) as Hel.
  split; cbn [rg_certs rg_tokens rg_members rg_core]; try done.
  - by apply revoked_certs_ok.
  - intros id. by rewrite forget_dom.
  - intros c (x & Hx & -> & _)%Hel. apply forget_dom. by apply Ho.
  - intros c (x & Hx & Hown & _ & _ & Hif)%Hel Hdd. case_bool_decide; [done|]. subst x. by apply Hdis.
  - intros id m s (m0 & Hm0 & _ & ->)%forget_lookup. specialize (Hs id m0). split.
    + destruct (_ && _) eqn:Hhit; [done|]. intros Hms. apply (Hs s Hm0) in Hms as Hex.
      destruct Hex as (c & Hx & Hcr & Hcs & Ha). exists c. split; [|done]. apply kept_revoked; [done|].
      apply bool_decide_eq_false_2. intros Heq. apply andb_false_iff in Hhit as [Hhit%bool_decide_eq_false|Hhit%bool_decide_eq_false].
      * apply Hhit. assert (c = c0) as ->; [|done]. eapply (NoDup_key_unique ct_serial); [apply Hc|done|done|congruence].
      * apply Hhit. congruence.
    + intros (c & (x & Hx & Hown & _ & _ & Hif)%Hel & Hcr & Hcs & Ha). case_bool_decide as Heq; [congruence|]. subst x.
      assert (Hms : mr_certificate_serial m0 = Some s) by (apply (Hs s Hm0); by exists c).
      rewrite (bool_decide_eq_false_2 (mr_certificate_serial m0 = _)); [by rewrite andb_false_r|]. congruence.
  - intros id ru m Hru (m0 & Hm0 & -> & _)%forget_lookup. by eapply Hp.
Qed.

Lemma registry_step_inv label g g' : registry_inv g → registry_step label g g' → registry_inv g'.
Proof.
  intros Hg Hstep. destruct Hstep as [record g|id e g g' found He|id e g g' err He|id r g|id reason actor g|serial reason actor g|d g Hd].
  - by apply create_token_inv.
  - by eapply enroll_inv.
  - by apply enroll_err in He as ->.
  - by apply rotate_inv.
  - by apply disable_inv.
  - by apply revoke_inv.
  - by apply core_inv.
Qed.

Lemma registry_history_inv log g : registry_history log g → registry_inv g.
Proof.
  induction 1 as [d pools Hd|log g label g' _ IH Hstep]; [|by eapply registry_step_inv].
  split; cbn [rg_certs rg_tokens rg_members rg_core]; try done.
  - split; [apply NoDup_nil_2|apply NoDup_nil_2|by intros c c' ?%not_elem_of_nil|by intros c ?%not_elem_of_nil].
  - split; [apply NoDup_nil_2|apply NoDup_nil_2|by intros t ?%not_elem_of_nil].
  - intros id. by rewrite Hd, !lookup_empty.
  - by intros c ?%not_elem_of_nil.
  - by intros c ?%not_elem_of_nil.
Qed.

(** The clock of a registry never goes back. *)
Lemma registry_step_now label g g' : registry_step label g g' → rg_now g ≤ rg_now g'.
Proof.
  intros Hstep. destruct Hstep as [record g|id e g g' found He|id e g g' err He|id r g|id reason actor g|serial reason actor g|d g Hd].
  - unfold PgCreateRegistrationToken. destruct (_ || _); [done|]. run_transaction; [|done].
    destruct (pool_named _ _); [|done]. destruct (negb _); [done|]. by intros [= <- _].
  - apply enroll_spec in He as (t & pool & row & _ & _ & _ & _ & He). cbv zeta in He.
    destruct He as (_ & _ & _ & _ & _ & ->). done.
  - by apply enroll_err in He as ->.
  - destruct (PgRotateRunnerCertificate id r g) as [g' [record|e]] eqn:Hr; simpl.
    + apply rotate_spec in Hr as (_ & old & _ & _ & _ & _ & [(_ & _ & ->)|(_ & _ & Hrest)]); [done|].
      cbv zeta in Hrest. by destruct Hrest as (row & _ & _ & _ & ->).
    + by apply rotate_err in Hr as ->.
  - destruct (PgDisableRunner id reason actor g) as [g' [[]|e]] eqn:Hr; simpl.
    + by apply disable_spec in Hr as (ru & m & _ & ->).
    + by apply disable_err in Hr as ->.
  - destruct (PgRevokeRunnerCertificate serial reason actor g) as [g' [[]|e]] eqn:Hr; simpl.
    + by apply revoke_certificate_spec in Hr as (c & _ & _ & _ & ->).
    + by apply revoke_err in Hr as ->.
  - apply Hd.
Qed.
