(* ===== verification/RunnerIdentityProps.v ===== *)
(** The properties of runner identities: the registry, the bound on enrolments,
    revocation, rotation, and certificates that authenticate the runner they name. *)

From stdpp Require Import relations.
From S2P Require Import Prelude GoStd Regex Codecs RunModel Database RunnerAuth PgStore PgScenario PgRunnerIdentity RunnerIdentityFacts.

(** ** Reading the registry *)

Lemma cert_found g c (P : certRow → Prop) `{∀ x, Decision (P x)} :
  certs_ok (rg_certs g) → c ∈ rg_certs g → P c → (∀ x, P x → ct_serial x = ct_serial c) →
  ∃ i, list_find P (rg_certs g) = Some (i, c).
Proof.
  intros Hl Hc HP Hu. destruct (list_find P (rg_certs g)) as [[i x]|] eqn:Hf.
  - apply list_find_Some in Hf as (Hx & HPx & _). apply list_elem_of_lookup_2 in Hx.
    exists i. do 2 f_equal. eapply (NoDup_key_unique ct_serial); [apply Hl|done|done|]. by apply Hu.
  - apply list_find_None in Hf. rewrite Forall_forall in Hf. by destruct (Hf c Hc).
Qed.

(** A row authenticates its runner, when that is enabled, exactly while it is live. *)
Lemma auth_row g c ru m pool :
  certs_ok (rg_certs g) → c ∈ rg_certs g → enabled_runner (ct_runner_id c) g = Some (ru, m) →
  pool_by_id (mr_pool_id m) g = Some pool →
  is_ok (PgAuthenticateRunner (ct_runner_id c) (ct_serial c) g) = live_certificate (rg_now g) c.
Proof.
  intros Hl Hc He Hp. unfold PgAuthenticateRunner. rewrite He. destruct (live_certificate (rg_now g) c) eqn:Hlive.
  - destruct (cert_found g c (λ x, ct_serial x = ct_serial c ∧ ct_runner_id x = ct_runner_id c
      ∧ live_certificate (rg_now g) x = true) Hl Hc) as [i ->]; [done|naive_solver|]. by rewrite Hp.
  - destruct (list_find _ _) as [[i x]|] eqn:Hf; [|done]. apply list_find_Some in Hf as (Hx & (Hs & _ & Hx') & _).
    apply list_elem_of_lookup_2 in Hx. assert (x = c) as ->; [|congruence].
    by eapply (NoDup_key_unique ct_serial); [apply Hl|..].
Qed.

Lemma auth_ok id serial g :
  is_ok (PgAuthenticateRunner id serial g) = true →
  ∃ c ru m pool, c ∈ rg_certs g ∧ ct_serial c = serial ∧ ct_runner_id c = id ∧ live_certificate (rg_now g) c = true ∧
    enabled_runner id g = Some (ru, m) ∧ pool_by_id (mr_pool_id m) g = Some pool.
Proof.
  unfold PgAuthenticateRunner. destruct (list_find _ _) as [[i c]|] eqn:Hf; [|done].
  apply list_find_Some in Hf as (Hx & (Hs & Hr & Hl) & _). apply list_elem_of_lookup_2 in Hx.
  destruct (enabled_runner id g) as [[ru m]|] eqn:He; [|done]. destruct (pool_by_id _ _) as [pool|] eqn:Hp; [|done].
  intros _. by exists c, ru, m, pool.
Qed.

(** ** The registry *)

(** C27: in every history of registration tokens, enrolments, rotations and revocations,
    a runner has at most one active certificate, which is the one that its record
    names; a disabled runner has only revoked ones; serial numbers are unique, and no
    token is used more often than it allows. *)
Theorem runner_registry_wellformed log g :
  registry_history log g →
  NoDup (ct_serial <$> rg_certs g) ∧
  (∀ c c', c ∈ rg_certs g → c' ∈ rg_certs g → ct_runner_id c = ct_runner_id c' →
     ct_state c = "active" → ct_state c' = "active" → c = c') ∧
  (∀ id m s, rg_members g !! id = Some m →
     mr_certificate_serial m = Some s ↔
     ∃ c, c ∈ rg_certs g ∧ ct_runner_id c = id ∧ ct_serial c = s ∧ ct_state c = "active") ∧
  (∀ c, c ∈ rg_certs g → is_disabled (ct_runner_id c) g → ct_state c = "revoked") ∧
  (∀ t, t ∈ rg_tokens g → 0 ≤ tk_used_count t ≤ tk_max_uses t ∧ tk_max_uses t ≤ 256).
Proof. intros [[_ Hser Hact _] [_ _ Huse] _ _ Hdis Hs _]%registry_history_inv. split_and!; done. Qed.

(** ** Enrolments *)

(** How often a token has been used. *)
Abbreviation uses digest log := (count (λ d : bytes, d =? digest) log).

Lemma uses_app digest log label : uses digest (log ++ option_list label)
  = uses digest log + match label with Some d => if d =? digest then 1 else 0 | None => 0 end.
Proof.
  unfold count. rewrite List.filter_app, length_app. destruct label as [d|]; simpl; [|lia].
  destruct (d =? digest); simpl; lia.
Qed.

Lemma step_tokens label g g' :
  registry_inv g → registry_step label g g' →
  match label with
  | Some digest => ∃ rid, rg_tokens g' = update_all (λ t, tk_digest t =? digest) (used_token (rg_now g) rid) (rg_tokens g) ∧
      digest ∈ tk_digest <$> rg_tokens g
  | None => rg_tokens g' = rg_tokens g ∨
      ∃ t, rg_tokens g' = rg_tokens g ++ [t] ∧ tk_used_count t = 0 ∧ tk_digest t ∉ tk_digest <$> rg_tokens g
  end.
Proof.
  intros Hg Hstep. destruct Hstep as [record g|id e g g' found He|id e g g' err He|id r g|id reason actor g|serial reason actor g|d g Hd].
  - unfold PgCreateRegistrationToken. destruct (_ || _); [by left|]. run_transaction; [|by left].
    destruct (pool_named _ _); [|done]. destruct (negb _) eqn:Hi; [done|]. intros [= <- _]. right.
    eexists. split; [done|]. split; [done|]. unfold token_insertable in Hi. by bools.
  - apply enroll_spec in He as (t & pool & row & Ht & Hu & _ & _ & He). cbv zeta in He.
    destruct He as (_ & _ & _ & _ & _ & ->). exists (en_RunnerID e). unfold usable_token in Hu. bools. subst.
    match goal with H : tk_digest t = _ |- _ => rewrite <-H end. split; [|by apply list_elem_of_fmap_2].
    cbn [rg_tokens appendRunnerAudit rg_with_tokens rg_with_core]. unfold update_all. apply list_fmap_ext.
    intros i u Hi%list_elem_of_lookup_2. destruct (ri_tokens _ Hg) as [Hids Hdig _].
    destruct (decide (tk_id u = tk_id t)) as [Heq|Hne].
    + assert (u = t) as -> by by eapply (NoDup_key_unique tk_id).
      rewrite !bool_decide_eq_true_2 by done. match goal with H : (_ <? _) = true |- _ => by rewrite H end.
    + rewrite (bool_decide_eq_false_2 (tk_id u = tk_id t)), (bool_decide_eq_false_2 (tk_digest u = tk_digest t)); [done| |done].
      intros Heq. apply Hne. f_equal. by eapply (NoDup_key_unique tk_digest).
  - apply enroll_err in He as ->. by left.
  - left. destruct (PgRotateRunnerCertificate id r g) as [g' [record|e]] eqn:Hr; simpl; [|by apply rotate_err in Hr as ->].
    apply rotate_spec in Hr as (_ & old & _ & _ & _ & _ & [(_ & _ & ->)|(_ & _ & Hrest)]); [done|].
    cbv zeta in Hrest. by destruct Hrest as (row & _ & _ & _ & ->).
  - left. destruct (PgDisableRunner id reason actor g) as [g' [[]|e]] eqn:Hr; simpl; [|by apply disable_err in Hr as ->].
    by apply disable_spec in Hr as (ru & m & _ & ->).
  - left. destruct (PgRevokeRunnerCertificate serial reason actor g) as [g' [[]|e]] eqn:Hr; simpl; [|by apply revoke_err in Hr as ->].
    by apply revoke_certificate_spec in Hr as (c & _ & _ & _ & ->).
  - by left.
Qed.

(** A registration token admits no more runners than it was issued for: the number
    of successful enrolments with its digest is the recorded number of uses, which
    never passes the limit, and nobody enrols with anything but an issued token. *)
Theorem enrollments_bounded log g :
  registry_history log g →
  (∀ t, t ∈ rg_tokens g → uses (tk_digest t) log = tk_used_count t ∧ tk_used_count t ≤ tk_max_uses t) ∧
  (∀ digest, digest ∈ log → digest ∈ tk_digest <$> rg_tokens g).
Proof.
  intros Hh. assert (Hboth : (∀ t, t ∈ rg_tokens g → uses (tk_digest t) log = tk_used_count t) ∧
    (∀ digest, digest ∈ log → digest ∈ tk_digest <$> rg_tokens g)).
  { induction Hh as [d pools Hd|log g label g' Hh IH Hstep].
    { split; [by intros t ?%not_elem_of_nil|by intros t ?%not_elem_of_nil]. }
    destruct IH as [Huses Hknown]. apply step_tokens in Hstep; [|by eapply registry_history_inv].
    destruct label as [digest|]; [destruct Hstep as (rid & -> & Hin)|destruct Hstep as [->|(t & -> & Hz & Hnew)]].
    - split.
      + intros t (u & Hu & ->)%elem_of_update. rewrite uses_app. specialize (Huses u Hu).
        destruct (decide (tk_digest u = digest)) as [Heq|Hne].
        * rewrite !(bool_decide_eq_true_2 (tk_digest u = digest)) by done. cbn [tk_digest tk_used_count used_token].
          rewrite bool_decide_eq_true_2 by done. lia.
        * rewrite !(bool_decide_eq_false_2 (tk_digest u = digest)) by done. rewrite bool_decide_eq_false_2 by done. lia.
      + rewrite fmap_update_keep by done. intros x [Hx|Hx%list_elem_of_singleton]%elem_of_app; [by apply Hknown|by subst].
    - simpl. rewrite app_nil_r. done.
    - simpl. rewrite app_nil_r. split.
      + intros x [Hx|Hx%list_elem_of_singleton]%elem_of_app; [by apply Huses|]. subst x. rewrite Hz. unfold count.
        destruct (List.filter _ log) as [|x l] eqn:Hf; [done|]. assert (Hx : x ∈ List.filter (λ d, d =? tk_digest t) log).
        { rewrite Hf. left. }
        apply list_elem_of_In, filter_In in Hx as [Hx%list_elem_of_In Hxt%bool_decide_eq_true]. subst x. by destruct (Hnew (Hknown _ Hx)).
      + intros x Hx. rewrite fmap_app. apply elem_of_app. left. by apply Hknown. }
  destruct Hboth as [Huses Hknown]. split; [|done]. intros t Ht. split; [by apply Huses|].
  by apply (to_uses _ (ri_tokens _ (registry_history_inv _ _ Hh))).
Qed.

(** ** Revocation *)

Definition registry_steps : registry → registry → Prop := rtc (λ g g', ∃ label, registry_step label g g').

Lemma steps_inv g g' : registry_inv g → registry_steps g g' → registry_inv g'.
Proof. intros Hg Hs. induction Hs as [g|g g1 g' [l Hstep] _ IH]; [done|]. apply IH. by eapply registry_step_inv. Qed.

Lemma disabled_kept id label g g' : registry_inv g → registry_step label g g' → is_disabled id g → is_disabled id g'.
Proof.
  intros Hg Hstep (ru & Hru & Hst).
  destruct Hstep as [record g|id' e g g' found He|id' e g g' err He|id' r g|id' reason actor g|serial reason actor g|d g Hd].
  - unfold PgCreateRegistrationToken. destruct (_ || _); [by exists ru|]. run_transaction; [|by exists ru].
    destruct (pool_named _ _); [|done]. destruct (negb _); [done|]. intros [= <- _]. by exists ru.
  - apply enroll_spec in He as (t & pool & row & _ & _ & _ & _ & He). cbv zeta in He.
    destruct He as (Hri & _ & _ & _ & _ & ->). exists ru. split; [|done].
    cbn [rg_core appendRunnerAudit rg_with_core rg_with_tokens rg_with_certs rg_with_members append_audit with_audit db_runners with_runners].
    rewrite lookup_insert_ne; [done|]. intros Heq. unfold runner_insertable in Hri. bools. congruence.
  - apply enroll_err in He as ->. by exists ru.
  - destruct (PgRotateRunnerCertificate id' r g) as [g' [record|e]] eqn:Hr; simpl; [|apply rotate_err in Hr as ->; by exists ru].
    apply rotate_spec in Hr as (_ & old & _ & _ & _ & _ & [(_ & _ & ->)|(_ & _ & Hrest)]); [by exists ru|].
    cbv zeta in Hrest. destruct Hrest as (row & _ & _ & _ & ->). by exists ru.
  - destruct (PgDisableRunner id' reason actor g) as [g' [[]|e]] eqn:Hr; simpl; [|apply disable_err in Hr as ->; by exists ru].
    apply disable_spec in Hr as (ru' & m & (Hru' & _ & Hen)%enabled_spec & ->). exists ru. split; [|done].
    cbn [rg_core appendRunnerAudit rg_with_core append_audit with_audit db_runners with_runners].
    rewrite lookup_insert_ne; [done|]. intros ->. congruence.
  - destruct (PgRevokeRunnerCertificate serial reason actor g) as [g' [[]|e]] eqn:Hr; simpl; [|apply revoke_err in Hr as ->; by exists ru].
    apply revoke_certificate_spec in Hr as (c & _ & _ & _ & ->). by exists ru.
  - destruct Hd as [_ Hd]. specialize (Hd id). rewrite Hru in Hd. destruct (db_runners d !! id) as [ru'|] eqn:Hru'; [|done].
    exists ru'. split; [done|]. by apply Hd.
Qed.

(** A certificate that is revoked stays in the table as it is. *)
Lemma revoked_kept c label g g' :
  registry_inv g → registry_step label g g' → c ∈ rg_certs g → ct_state c = "revoked" → c ∈ rg_certs g'.
Proof.
  intros Hg Hstep Hc Hst.
  assert (Hskip : ∀ (p : certRow → bool) f, p c = false → c ∈ update_all p f (rg_certs g)).
  { intros p f Hp. apply elem_of_update. exists c. split; [done|]. by rewrite Hp. }
  destruct Hstep as [record g|id' e g g' found He|id' e g g' err He|id' r g|id' reason actor g|serial reason actor g|d g Hd].
  - unfold PgCreateRegistrationToken. destruct (_ || _); [done|]. run_transaction; [|done].
    destruct (pool_named _ _); [|done]. destruct (negb _); [done|]. by intros [= <- _].
  - apply enroll_spec in He as (t & pool & row & _ & _ & _ & _ & He). cbv zeta in He.
    destruct He as (_ & _ & _ & _ & _ & ->). apply elem_of_app. by left.
  - by apply enroll_err in He as ->.
  - destruct (PgRotateRunnerCertificate id' r g) as [g' [record|e]] eqn:Hr; simpl; [|by apply rotate_err in Hr as ->].
    apply rotate_spec in Hr as (_ & old & _ & _ & _ & _ & [(_ & _ & ->)|(_ & _ & Hrest)]); [done|].
    cbv zeta in Hrest. destruct Hrest as (row & _ & _ & _ & ->). apply elem_of_app. left. apply Hskip. by rewrite Hst, andb_false_r.
  - destruct (PgDisableRunner id' reason actor g) as [g' [[]|e]] eqn:Hr; simpl; [|by apply disable_err in Hr as ->].
    apply disable_spec in Hr as (ru & m & _ & ->). apply Hskip. by rewrite Hst, andb_false_r.
  - destruct (PgRevokeRunnerCertificate serial reason actor g) as [g' [[]|e]] eqn:Hr; simpl; [|by apply revoke_err in Hr as ->].
    apply revoke_certificate_spec in Hr as (x & _ & _ & _ & ->). apply Hskip. by rewrite Hst, andb_false_r.
  - done.
Qed.

(** C6: revocation is final: once a runner has been disabled, none of its certificates
    authenticates again, and once a certificate has been revoked, it authenticates
    nobody, whatever tokens, enrolments, rotations and revocations follow. *)
Theorem revocation_is_final log g g1 g2 :
  registry_history log g → registry_steps g1 g2 →
  (∀ id reason actor serial, PgDisableRunner id reason actor g = (g1, Ok tt) →
     PgAuthenticateRunner id serial g2 = Err ErrDenied) ∧
  (∀ serial reason actor id, PgRevokeRunnerCertificate serial reason actor g = (g1, Ok tt) →
     PgAuthenticateRunner id serial g2 = Err ErrDenied).
Proof.
  intros Hg%registry_history_inv Hsteps.
  assert (Hdenied : ∀ id serial g', is_ok (PgAuthenticateRunner id serial g') = false → PgAuthenticateRunner id serial g' = Err ErrDenied).
  { intros id serial g'. unfold PgAuthenticateRunner. break_all; done. }
  split; intros x reason actor y Hop; apply Hdenied, not_true_is_false.
  - pose proof (disable_inv x reason actor g Hg) as Hg1. rewrite Hop in Hg1. cbn [fst] in Hg1.
    assert (Hd : is_disabled x g1).
    { apply disable_spec in Hop as (ru & m & _ & ->). exists (disabled_runner ru). split; [apply lookup_insert_eq|done]. }
    clear Hop. induction Hsteps as [g1|g1 g' g2 [l Hstep] _ IH].
    + intros (c & ru & m & pool & _ & _ & _ & _ & He & _)%auth_ok. eapply enabled_not_disabled; [by eexists|done].
    + apply IH; [by eapply registry_step_inv|by eapply disabled_kept].
  - pose proof (revoke_inv x reason actor g Hg) as Hg1. rewrite Hop in Hg1. cbn [fst] in Hg1.
    assert (Hd : ∃ c, c ∈ rg_certs g1 ∧ ct_serial c = x ∧ ct_state c = "revoked").
    { apply revoke_certificate_spec in Hop as (c & Hc & Hs & Hst & ->). eexists. split; [apply elem_of_update; by exists c|].
      rewrite (bool_decide_eq_true_2 (ct_serial c = x)) by done. by destruct Hst as [-> | ->]. }
    clear Hop. induction Hsteps as [g1|g1 g' g2 [l Hstep] _ IH].
    + destruct Hd as (c & Hc & Hs & Hst). intros (c' & _ & _ & _ & Hc' & Hs' & _ & Hl & _)%auth_ok.
      assert (c' = c) as ->; [eapply (NoDup_key_unique ct_serial); [apply Hg1|done|done|congruence]|].
      unfold live_certificate in Hl. rewrite Hst in Hl. by rewrite andb_false_r in Hl.
    + apply IH; [by eapply registry_step_inv|]. destruct Hd as (c & Hc & Hrest). exists c. split; [|done].
      eapply revoked_kept; [done|done|done|apply Hrest].
Qed.

(** ** Rotation *)

Definition registry_elapse (waited : duration) (g : registry) : registry := rg_with_core (elapse waited (rg_core g)) g.

(** The replacement of a certificate is the only row that names it. *)
Lemma replacement_found g old row retire l :
  replacementCertificate old g = Ok None → ct_replaces row = Some (ct_id old) →
  (∃ p f, l = update_all p f (rg_certs g) ∧ ∀ c, ct_replaces (f c) = ct_replaces c) →
  replacementCertificate (ct_set "retiring" (Some retire) None old) (rg_with_certs (l ++ [row]) g)
  = Ok (Some (mkCertificateRecord (ct_serial row) (ct_csr_fingerprint row) (ct_public_key_fingerprint row)
                (ct_chain_pem row) (ct_not_before row) (ct_not_after row) retire)).
Proof.
  unfold replacementCertificate. intros Hnone Hrow (p & f & -> & Hf).
  destruct (list_find _ (rg_certs g)) as [[i c]|] eqn:Hg; [by destruct (ct_retire_at old)|].
  apply list_find_None in Hg. rewrite Forall_forall in Hg. cbn [rg_certs rg_with_certs].
  rewrite list_find_app_r; [|apply list_find_None, Forall_forall].
  - cbn [list_find]. rewrite decide_True by (by rewrite Hrow). done.
  - intros c (x & Hx & ->)%elem_of_update. specialize (Hg x Hx). destruct (p x); [by rewrite Hf|done].
Qed.

(** A rotation that has taken place, seen from the registry after it. *)
Lemma rotated log g id r g' record :
  registry_history log g → PgRotateRunnerCertificate id r g = (g', Ok record) → g' ≠ g →
  ∃ old row, old ∈ rg_certs g ∧ ct_serial old = ro_OldSerial r ∧ ct_runner_id old = ro_RunnerID r ∧
    let retire := Z.min (ct_not_after old) (rg_now g + ro_GracePeriod r) in
    ct_set "retiring" (Some retire) None old ∈ rg_certs g' ∧ row ∈ rg_certs g' ∧ ct_runner_id row = ro_RunnerID r ∧
    ct_state row = "active" ∧ ct_serial row = cr_Serial record ∧ ct_not_before row = cr_NotBefore record ∧
    ct_not_after row = cr_NotAfter record ∧ cr_PreviousValidUntil record = retire ∧
    replacementCertificate (ct_set "retiring" (Some retire) None old) g' = Ok (Some record) ∧
    rg_now g' = rg_now g ∧ rg_pools g' = rg_pools g ∧
    ∀ ru m, enabled_runner (ro_RunnerID r) g = Some (ru, m) →
      enabled_runner (ro_RunnerID r) g' = Some (ru, set_certificate_serial (Some (cr_Serial record)) m).
Proof.
  intros Hg%registry_history_inv Hr Hne.
  apply rotate_spec in Hr as (_ & old & Hin & Hser & Hown & Hen & [(_ & _ & ->)|(Hnone & Hst & Hrest)]); [done|].
  cbv zeta in Hrest. destruct Hrest as (row & -> & Hrow & Hci & ->). exists old, row. cbv zeta.
  set (retire := Z.min _ _) in *. destruct (co_states _ (ri_certs _ Hg) old Hin) as [(_ & _ & Hrv)|[(? & _)|(? & _)]]; [|congruence..].
  split_and!; try done; try (by rewrite Hrow); cbn [rg_certs appendRunnerAudit rg_with_core rg_with_members rg_with_certs].
  - apply elem_of_app. left. apply elem_of_update. exists old. split; [done|].
    rewrite !bool_decide_eq_true_2 by done. by rewrite Hrv.
  - apply elem_of_app. right. by apply list_elem_of_singleton.
  - transitivity (replacementCertificate (ct_set "retiring" (Some retire) None old)
      (rg_with_certs (retired old retire (rg_certs g) ++ [row]) g)); [done|].
    rewrite (replacement_found g old row retire (retired old retire (rg_certs g))); [by rewrite Hrow|done|by rewrite Hrow|].
    unfold retired. eauto.
  - intros ru m (Hru & Hm & Hdis)%enabled_spec. unfold enabled_runner.
    cbn [rg_core appendRunnerAudit rg_with_core rg_with_members rg_with_certs append_audit with_audit db_runners rg_members].
    rewrite Hru, lookup_alter_eq, Hm. simpl. by rewrite bool_decide_eq_false_2.
Qed.

(** A rotation hands over without a gap and without a second identity: the old
    certificate authenticates until the announced moment, which is at most fifteen
    minutes away, and no longer; the new one authenticates throughout its validity;
    and a rotation that is repeated with the same request, because its answer was
    lost, returns the same certificate, while another request is refused. *)
Theorem rotation_handover log g id r g' record :
  registry_history log g → is_ok (PgAuthenticateRunner (ro_RunnerID r) (ro_OldSerial r) g) = true →
  PgRotateRunnerCertificate id r g = (g', Ok record) → g' ≠ g →
  (∀ waited, 0 ≤ waited →
     is_ok (PgAuthenticateRunner (ro_RunnerID r) (ro_OldSerial r) (registry_elapse waited g'))
       = (rg_now g + waited <? cr_PreviousValidUntil record) ∧
     is_ok (PgAuthenticateRunner (ro_RunnerID r) (cr_Serial record) (registry_elapse waited g'))
       = (cr_NotBefore record <=? rg_now g + waited) && (rg_now g + waited <? cr_NotAfter record)) ∧
  cr_PreviousValidUntil record ≤ rg_now g + RotationGracePeriod ∧
  (∀ id' r', ro_RunnerID r' = ro_RunnerID r → ro_OldSerial r' = ro_OldSerial r →
     0 < ro_GracePeriod r' ≤ RotationGracePeriod →
     PgRotateRunnerCertificate id' r' g'
       = (g', if cr_CSRFingerprint (ro_Certificate r') =? cr_CSRFingerprint record then Ok record else Err ErrDenied)).
Proof.
  intros Hg Hauth Hr Hne. pose proof (rotate_spec _ _ _ _ _ Hr) as ([_ Hgrace] & _).
  assert (Hc' : certs_ok (rg_certs g')).
  { pose proof (rotate_inv id r g (registry_history_inv _ _ Hg)) as Hi. rewrite Hr in Hi. apply Hi. }
  destruct (rotated _ _ _ _ _ _ Hg Hr Hne) as (old & row & Hin & Hs & Ho & Hrest). cbv zeta in Hrest. set (retire := Z.min _ _) in *.
  destruct Hrest as (Hold' & Hrow & Hrr & Hact & Hrs & Hnb & Hna & Hprev & Hrep & Hnow & Hpools & Hen).
  apply auth_ok in Hauth as (c & ru & m & pool & Hc & Hcs & _ & Hl & He & Hpool).
  assert (c = old) as ->.
  { eapply (NoDup_key_unique ct_serial); [apply (registry_history_inv _ _ Hg)|done|done|congruence]. }
  apply Hen in He as He'. unfold live_certificate in Hl. apply andb_true_iff in Hl as [[Hnb0%Z.leb_le Hna0%Z.ltb_lt]%andb_true_iff _].
  assert (Hpool' : pool_by_id (mr_pool_id m) g' = Some pool) by (unfold pool_by_id in *; by rewrite Hpools).
  set (m' := set_certificate_serial (Some (cr_Serial record)) m) in *.
  split; [|split].
  - intros waited Hw. assert (Hnow' : rg_now (registry_elapse waited g') = rg_now g + waited).
    { unfold rg_now in *. simpl. by rewrite Hnow. }
    pose proof (auth_row (registry_elapse waited g') (ct_set "retiring" (Some retire) None old) ru m' pool Hc' Hold') as Ha.
    cbn [ct_set ct_runner_id ct_serial] in Ha. rewrite Ho, Hs in Ha. rewrite (Ha He' Hpool').
    pose proof (auth_row (registry_elapse waited g') row ru m' pool Hc' Hrow) as Hb.
    rewrite Hrr, Hrs in Hb. rewrite (Hb He' Hpool'). rewrite Hnow', Hprev. unfold live_certificate. rewrite Hact, Hnb, Hna.
    split; [|by rewrite (bool_decide_eq_true_2 ("active" = "active")), orb_true_l, andb_true_r by done].
    cbn [ct_set ct_state ct_retire_at ct_not_before ct_not_after].
    destruct (Z.leb_spec (ct_not_before old) (rg_now g + waited)); [|lia].
    destruct (Z.ltb_spec (rg_now g + waited) retire) as [Hlt|Hge]; [|by rewrite !andb_false_r].
    destruct (Z.ltb_spec (rg_now g + waited) (ct_not_after old)) as [|Hge]; [done|]. unfold retire in Hlt. lia.
  - rewrite Hprev. unfold retire. lia.
  - intros id' r' Hr1 Hr2 [Hg1 Hg2]. unfold PgRotateRunnerCertificate.
    rewrite (proj2 (Z.leb_gt _ _) Hg1), (proj2 (Z.ltb_ge _ _) Hg2), Hr1, Hr2. simpl. unfold registry_transaction.
    destruct (cert_found g' (ct_set "retiring" (Some retire) None old)
      (λ c, ct_serial c = ro_OldSerial r ∧ ct_runner_id c = ro_RunnerID r) Hc' Hold' (conj Hs Ho)) as [i ->].
    { intros x [Hx _]. by rewrite Hx, <-Hs. }
    rewrite He', Hrep. cbn [rbind]. rewrite (bool_decide_ext (cr_CSRFingerprint record = _) (cr_CSRFingerprint (ro_Certificate r') = cr_CSRFingerprint record)) by naive_solver.
    by case_bool_decide.
Qed.

(** ** Serial numbers *)

Definition is_hex (c : ascii) : bool := is_digit c || in_range "a" "f" c.

Lemma hex_digit_hex n : 0 ≤ n < 16 → is_hex (hex_digit n) = true.
Proof. intros Hn. by apply (below_all 16 (λ n, is_hex (hex_digit n)) eq_refl n Hn). Qed.

Lemma hex_lower c : is_hex c = true → lower_byte c = c.
Proof. destruct c as [[] [] [] [] [] [] [] []]; vm_compute; done. Qed.

Lemma hex_text_hex fuel n acc :
  0 ≤ n → Forall (λ c, is_hex c = true) acc → Forall (λ c, is_hex c = true) (hex_text fuel n acc).
Proof.
  revert n acc. induction fuel as [|fuel IH]; intros n acc Hn Hacc; [done|]. cbn [hex_text].
  assert (Forall (λ c, is_hex c = true) (hex_digit (n mod 16) :: acc)).
  { constructor; [|done]. apply hex_digit_hex, Z.mod_pos_bound. lia. }
  destruct (n <? 16); [done|]. apply IH; [|done]. by apply Z.div_pos.
Qed.

Lemma length_hex_text k fuel n acc :
  16 ^ Z.of_nat k ≤ n < 16 ^ Z.of_nat (S k) → (k < fuel)%nat → length (hex_text fuel n acc) = (S k + length acc)%nat.
Proof.
  revert n acc fuel. induction k as [|k IH]; intros n acc [|fuel] Hn Hf; try lia; cbn [hex_text].
  - change (16 ^ Z.of_nat 1) with 16 in Hn. by rewrite (proj2 (Z.ltb_lt n 16)) by lia.
  - rewrite !Nat2Z.inj_succ, !Z.pow_succ_r in Hn by lia. pose proof (Z.pow_pos_nonneg 16 (Z.of_nat k)).
    rewrite (proj2 (Z.ltb_ge n 16)) by lia. rewrite IH; [simpl; lia| |lia].
    rewrite Nat2Z.inj_succ, Z.pow_succ_r by lia.
    split; [apply Z.div_le_lower_bound|apply Z.div_lt_upper_bound]; lia.
Qed.

Lemma matches_times p l : Forall (λ c, p c = true) l → matches (RTimes (length l) (RClass p)) l.
Proof. induction 1 as [|c l Hc _ IH]; simpl; [constructor|]. apply (m_seq _ _ [c] l); [by constructor|done]. Qed.

Lemma matches_up_to p n l : Forall (λ c, p c = true) l → (length l ≤ n)%nat → matches (RUpTo n (RClass p)) l.
Proof.
  intros Hl. revert n. induction Hl as [|c l Hc _ IH]; intros n Hn.
  - destruct n; [|apply m_alt_l]; constructor.
  - destruct n as [|n]; [simpl in Hn; lia|]. apply m_alt_r, (m_seq _ _ [c] l); [by constructor|]. apply IH. simpl in Hn. lia.
Qed.

(** Text of 16 to 64 hexadecimal digits passes the check on serial numbers. *)
Lemma serial_pattern_hex l :
  Forall (λ c, is_hex c = true) l → (16 ≤ length l ≤ 64)%nat → re_match serial_pattern (of_chars l) = true.
Proof.
  intros Hl Hn. apply re_match_spec. rewrite chars_of_chars. unfold serial_pattern.
  rewrite <-(take_drop 16 l). apply m_seq.
  - replace 16%nat with (length (take 16 l)) at 1 by (rewrite length_take; lia). apply matches_times. by apply Forall_take.
  - apply matches_up_to; [by apply Forall_drop|]. rewrite length_drop. lia.
Qed.

Lemma SetBytes_bounds l a :
  0 ≤ a → a * 256 ^ Z.of_nat (length l) ≤ foldl (λ n c, n * 256 + byte_value c) a l < (a + 1) * 256 ^ Z.of_nat (length l).
Proof.
  revert a. induction l as [|c l IH]; intros a Ha; [simpl; lia|]. cbn [foldl length].
  pose proof (byte_value_bounds c). specialize (IH (a * 256 + byte_value c) ltac:(lia)).
  rewrite Nat2Z.inj_succ, Z.pow_succ_r by lia. pose proof (Z.pow_pos_nonneg 256 (Z.of_nat (length l))). nia.
Qed.

(** A random serial number has forty hexadecimal digits. *)
Lemma randomSerial_bounds random : length random = 20%nat → 16 ^ 39 ≤ randomSerial random < 16 ^ 40.
Proof.
  destruct random as [|c l]; [done|]. intros [= Hl]. unfold randomSerial, SetBytes. cbn [foldl].
  set (b := Z.lor (Z.land (byte_value c) 127) 64).
  assert (Hb : 64 ≤ b < 128).
  { pose proof (below_all 256 (λ n, (64 <=? Z.lor (Z.land n 127) 64) && (Z.lor (Z.land n 127) 64 <? 128)) eq_refl (byte_value c)
      (byte_value_bounds c)) as H. cbv beta in H. bools. unfold b. lia. }
  assert (Hv : byte_value (value_byte b) = b).
  { unfold byte_value, value_byte. rewrite N_ascii_embedding; [lia|]. lia. }
  pose proof (SetBytes_bounds l (0 * 256 + byte_value (value_byte b)) ltac:(lia)) as H. rewrite Hv, Hl in *.
  change (256 ^ Z.of_nat 19) with (256 ^ 19) in H. lia.
Qed.

Lemma Text16_spec n : 16 ^ 39 ≤ n < 16 ^ 40 →
  len (ToLower (Text16 n)) = 40 ∧ re_match serial_pattern (ToLower (Text16 n)) = true.
Proof.
  intros Hn. unfold ToLower, Text16. rewrite chars_of_chars. set (l := hex_text _ n []).
  assert (Hl : length l = 40%nat).
  { unfold l. rewrite (length_hex_text 39); [done|exact Hn|].
    assert (Z.log2 (16 ^ 39) ≤ Z.log2 n) as Hlog by (apply Z.log2_le_mono; lia).
    replace (Z.log2 (16 ^ 39)) with 156 in Hlog by (vm_compute; reflexivity). lia. }
  assert (Hh : Forall (λ c, is_hex c = true) l) by (apply hex_text_hex; [lia|constructor]).
  assert (lower_byte <$> l = l) as ->.
  { clear Hl. induction Hh as [|c l' Hc _ IH]; [done|]. rewrite fmap_cons, IH. f_equal. by apply hex_lower. }
  split; [|apply serial_pattern_hex; [done|lia]]. by rewrite len_chars, chars_of_chars, Hl.
Qed.

(** ** Certificates that authenticate *)

(** What [x509.CreateCertificate] followed by [x509.ParseCertificate] keeps of a
    template; times are stored in whole seconds. *)
Record signed (template c : Certificate) : Prop := {
  sg_serial : ce_SerialNumber c = ce_SerialNumber template;
  sg_subject : ce_Subject c = ce_Subject template;
  sg_not_before : ce_NotBefore c = Truncate (ce_NotBefore template) Second;
  sg_not_after : ce_NotAfter c = Truncate (ce_NotAfter template) Second;
  sg_usage : ce_KeyUsage c = ce_KeyUsage template;
  sg_extended : ce_ExtKeyUsage c = ce_ExtKeyUsage template;
  sg_unknown : ce_UnknownExtKeyUsage c = ce_UnknownExtKeyUsage template;
  sg_constraints : ce_BasicConstraintsValid c = ce_BasicConstraintsValid template;
  sg_ca : ce_IsCA c = ce_IsCA template;
  sg_names : (ce_DNSNames c, ce_EmailAddresses c, ce_IPAddresses c)
             = (ce_DNSNames template, ce_EmailAddresses template, ce_IPAddresses template);
  sg_uris : ce_URIs c = ce_URIs template;
}.

Section Issue.
Context (pem_Decode : bytes → option pemBlock * bytes) (pem_EncodeToMemory : string → bytes → bytes).
Context (ParseCertificateRequest : bytes → option CertificateRequest) (MarshalPKIXPublicKey : PublicKey → option bytes).
Context (ParseCertificate : bytes → option Certificate) (Signer : Type) (Public : Signer → PublicKey).
Context (CreateCertificate : Certificate → Certificate → PublicKey → Signer → option bytes).
Context (uuid_String : uuid → string) (uuid_Parse : string → option uuid).
Hypothesis created : ∀ template issuer public key der c,
  CreateCertificate template issuer public key = Some der → ParseCertificate der = Some c → signed template c.
Hypothesis uuid_round_trip : ∀ u, uuid_Parse (uuid_String u) = Some u.

Abbreviation Sign := (SignRunnerCertificate pem_Decode pem_EncodeToMemory ParseCertificateRequest MarshalPKIXPublicKey
  ParseCertificate Signer Public CreateCertificate uuid_String).

(** The next check of the code is passed. *)
Ltac pass H := match goal with |- (if ?guard then _ else _) = _ → _ => destruct guard eqn:H; [done|] end.

Lemma sign_spec random csr id issuer key now life issued :
  Sign random csr id (Some issuer) key now life = Ok issued →
  id ≠ uuid_Nil ∧ 0 < life ≤ DefaultRunnerLifetime ∧ ∃ notBefore fingerprint,
    Truncate now Second - Minute ≤ notBefore ∧ Truncate now Second + life ≤ ce_NotAfter issuer ∧
    signed (runner_template uuid_String (randomSerial random) notBefore (Truncate now Second + life) id issuer fingerprint)
      (ic_Certificate issued).
Proof.
  unfold SignRunnerCertificate. destruct (ValidateRunnerCSR _ _ _ _) as [info|]; [|done]. destruct key as [key|]; [|done].
  pass H1. pass Hkeys. pass H2. cbv zeta. pass H4. set (notBefore := if _ <? ce_NotBefore issuer then _ else _). pass H3.
  destruct (CreateCertificate _ _ _ _) as [der|] eqn:Hc; [|done]. destruct (ParseCertificate der) as [c|] eqn:Hp; [|done].
  intros [= <-]. bools. split; [done|]. split; [lia|]. exists notBefore. eexists. split; [|split; [lia|by eapply created]].
  unfold notBefore, runnerCertificateBackdate. destruct (Z.ltb_spec (Truncate now Second - Minute) (ce_NotBefore issuer)); lia.
Qed.

(** The certificate that is issued for a runner identifies that runner: the checks
    of authentication accept it and read back the runner's identifier and the serial
    number under which the store keeps it, which is forty hexadecimal digits; it ends
    within a day and not after the issuer. *)
Theorem issued_certificate_identity random csr id issuer key now life issued :
  length random = 20%nat → Sign random csr id (Some issuer) key now life = Ok issued →
  CertificateIdentity uuid_String uuid_Parse (Some (ic_Certificate issued)) = Ok (id, cr_Serial (certificateRecord issued)) ∧
  re_match serial_pattern (cr_Serial (certificateRecord issued)) = true ∧
  cr_NotAfter (certificateRecord issued) ≤ Z.min (ce_NotAfter issuer) (now + DefaultRunnerLifetime).
Proof.
  intros Hr (_ & Hlife & notBefore & fingerprint & _ & Hna & [Hs Hsub Hnb Hnaf Hu He Hunk Hb Hca Hn Hur])%sign_spec.
  pose proof (randomSerial_bounds random Hr) as Hserial. pose proof (Text16_spec _ Hserial) as [Hlen Hpat].
  assert (Htext : serial_text (ic_Certificate issued) = ToLower (Text16 (randomSerial random))).
  { unfold serial_text. by rewrite Hs. }
  assert (Htrunc : ∀ t, Truncate t Second ≤ t).
  { intros t. unfold Truncate. pose proof (Z.mod_pos_bound (t - time_zero) Second ltac:(done)). lia. }
  unfold certificateRecord. cbn [cr_Serial cr_NotAfter]. split_and!.
  - unfold CertificateIdentity. injection Hn as Hdns Hmail Hip.
    rewrite Hs, Hsub, Hu, He, Hunk, Hb, Hca, Hdns, Hmail, Hip, Hur, Htext. cbn [runner_template ce_SerialNumber ce_URIs].
    rewrite (proj2 (Z.leb_gt _ _)) by lia. cbn -[ToLower Text16 randomSerial TrimPrefix]. rewrite !bool_decide_eq_true_2 by done.
    cbn -[ToLower Text16 randomSerial TrimPrefix]. rewrite (proj1 (TrimPrefix_app "/" _)), uuid_round_trip, Hlen.
    rewrite !bool_decide_eq_true_2 by done. done.
  - by rewrite Htext.
  - rewrite Hnaf. cbn [runner_template ce_NotAfter]. pose proof (Htrunc (Truncate now Second + life)). pose proof (Htrunc now). lia.
Qed.

(** The identity that the certificate of a new runner authenticates. *)
Lemma enrolled_auth id e g g' found :
  registry_inv g → PgEnrollRunner id e g = (g', Ok found) →
  cr_NotBefore (en_Certificate e) ≤ rg_now g < cr_NotAfter (en_Certificate e) →
  PgAuthenticateRunner (en_RunnerID e) (cr_Serial (en_Certificate e)) g' = Ok found.
Proof.
  intros Hg He Hvalid. pose proof (enroll_inv _ _ _ _ _ Hg He) as Hg'.
  apply enroll_spec in He as (t & pool & row & Ht & _ & Hpool & Hty & He). cbv zeta in He.
  destruct He as (Hri & _ & _ & Hrow & -> & Heq). unfold runner_insertable in Hri. bools.
  assert (Hin : row ∈ rg_certs g'). { rewrite Heq. apply elem_of_app. right. by apply list_elem_of_singleton. }
  unfold PgAuthenticateRunner.
  destruct (cert_found g' row (λ c, ct_serial c = cr_Serial (en_Certificate e) ∧ ct_runner_id c = en_RunnerID e
    ∧ live_certificate (rg_now g') c = true)) as [i ->]; [apply Hg'|done| |intros x [-> _]; by rewrite Hrow|].
  { assert (rg_now g' = rg_now g) as -> by by rewrite Heq. rewrite Hrow. split_and!; [done..|].
    unfold live_certificate. cbn [ct_not_before ct_not_after ct_state].
    by rewrite (proj2 (Z.leb_le _ _)), (proj2 (Z.ltb_lt _ _)) by lia. }
  assert (enabled_runner (en_RunnerID e) g' = Some (runner_of (pl_type pool) (en_Capabilities e),
    mkMemberRow (pl_id pool) (en_Name e) (Some (cr_Serial (en_Certificate e)))
      (ca_IsolationLevel (en_Capabilities e)) (ca_RunnerVersion (en_Capabilities e)) None)) as ->.
  { rewrite Heq. unfold enabled_runner.
    cbn [rg_core rg_members appendRunnerAudit rg_with_core rg_with_tokens rg_with_certs rg_with_members append_audit with_audit
         db_runners with_runners]. by rewrite !lookup_insert_eq. }
  cbn [mr_pool_id]. assert (pool_by_id (pl_id pool) g' = Some pool) as ->.
  { rewrite Heq. change (pool_by_id (pl_id pool) g = Some pool). rewrite <-Hpool. f_equal.
    unfold pool_by_id in Hpool. destruct (list_find _ _) as [[k x]|] eqn:Hf; [|done]. injection Hpool as <-.
    by apply list_find_Some in Hf as (_ & Hx & _). }
  rewrite Hrow. cbn. by destruct (en_Capabilities e).
Qed.

(** C19: a runner that enrols can authenticate: with a token that was issued and the
    capabilities of its pool, the service stores a certificate for it, and presenting
    that certificate while it is valid returns the identity that enrolment returned. *)
Theorem enrolled_runner_authenticates s log rid cid random now token name capabilities csr g g' found record :
  registry_history log g → length random = 20%nat →
  Enroll pem_Decode pem_EncodeToMemory ParseCertificateRequest MarshalPKIXPublicKey ParseCertificate Signer Public
    CreateCertificate uuid_String s rid cid random now token name capabilities csr g = (g', Ok (found, record)) →
  id_RunnerID found = rid ∧ id_PoolType found = ca_IsolationLevel capabilities ∧
  (∃ t, t ∈ rg_tokens g ∧ TokenDigest token = Ok (tk_digest t) ∧ rg_now g < tk_expires_at t ∧ tk_used_count t < tk_max_uses t) ∧
  ∃ issued, Sign random csr rid (Some (sv_issuer Signer s)) (Some (sv_issuerKey Signer s)) now (sv_certLife Signer s) = Ok issued ∧
    record = certificateRecord issued ∧
    (cr_NotBefore record ≤ rg_now g < cr_NotAfter record →
     Authenticate uuid_String uuid_Parse (Some (ic_Certificate issued)) g' = Ok found).
Proof.
  intros Hg%registry_history_inv Hlen. unfold Enroll. destruct (TokenDigest token) as [digest|] eqn:Htoken; [|done].
  destruct (validateCapabilities _ _); [|done]. destruct (Sign _ _ _ _ _ _ _) as [issued|] eqn:Hsign; [|done]. cbv zeta.
  destruct (EnrollRunner _ _ _) as [g1 [id|]] eqn:He; [|done]. intros [= <- <- <-].
  pose proof He as He'. apply enroll_spec in He' as (t & pool & row & Ht & Hu & _ & Hty & Hrest). cbv zeta in Hrest.
  destruct Hrest as (_ & _ & _ & _ & -> & _). split_and!; [done|done| |].
  - exists t. unfold usable_token in Hu. bools. split_and!; [done| |lia|lia]. by f_equal.
  - exists issued. split_and!; [done..|]. intros Hvalid. unfold Authenticate.
    rewrite (proj1 (issued_certificate_identity _ _ _ _ _ _ _ _ Hlen Hsign)).
    pose proof (enrolled_auth _ _ _ _ _ Hg He Hvalid) as Hauth. cbn [en_RunnerID en_Certificate] in Hauth.
    cbn [AuthenticateRunner pg_runner_store]. by rewrite Hauth.
Qed.
End Issue.

(** ** A concrete registry *)

Definition plain_parse (s : string) : option uuid := Some (N.of_nat (length (chars s))).

Lemma plain_round_trip u : plain_parse (demo_uuid u) = Some u.
Proof. unfold plain_parse, demo_uuid. rewrite chars_of_chars, length_replicate. by rewrite N2Nat.id. Qed.

Definition plain_key : PublicKey := Ed25519Key (replicate 32 zero).
Definition plain_issuer : Certificate := {|
  ce_SerialNumber := Some 1; ce_Subject := "CN=YuanCI Runner Intermediate CA"; ce_NotBefore := 0; ce_NotAfter := 1000 * Hour;
  ce_KeyUsage := 96; ce_ExtKeyUsage := []; ce_UnknownExtKeyUsage := []; ce_BasicConstraintsValid := true; ce_IsCA := true;
  ce_DNSNames := []; ce_EmailAddresses := []; ce_IPAddresses := []; ce_URIs := []; ce_SubjectKeyId := [one];
  ce_AuthorityKeyId := []; ce_PublicKey := plain_key; ce_Raw := [zero] |}.
Definition plain_request : CertificateRequest := mkCertificateRequest true "" [] [] [] [] [] [] [] plain_key.
Definition plain_marshal (k : PublicKey) : option bytes := match k with Ed25519Key l => Some l | _ => None end.
Definition plain_pem (l : bytes) : option pemBlock * bytes := (Some (mkPemBlock "CERTIFICATE REQUEST" ∅ l), []).
Definition plain_random : bytes := replicate 20 one.

(** The one certificate that the stand-ins sign: for runner 7, at noon of the first day. *)
Definition plain_template : Certificate :=
  runner_template demo_uuid (randomSerial plain_random) (12 * Hour - Minute) (36 * Hour) 7 plain_issuer
    (Sum256 (replicate 32 zero)).
Definition plain_create (template issuer : Certificate) (public : PublicKey) (key : unit) : option bytes :=
  if template =? plain_template then Some [one] else None.
Definition plain_parse_certificate (l : bytes) : option Certificate := if l =? [one] then Some plain_template else None.

Lemma plain_created template issuer public key der c :
  plain_create template issuer public key = Some der → plain_parse_certificate der = Some c → signed template c.
Proof.
  unfold plain_create, plain_parse_certificate. case_bool_decide as Ht; [|done]. intros _. case_bool_decide; [|done].
  intros [= <-]. rewrite Ht. by split.
Qed.

Definition reg_start : registry :=
  mkRegistry (mkDatabase [] ∅ [] ∅ [] [] ∅ ∅ demo_directory (12 * Hour)) [mkPoolRow 1 "standard" "standard"] [] ∅ [].
Definition plain_capabilities : Capabilities := mkCapabilities "linux" "amd64" "docker" "standard" ∅ 2 1000 2 "v1".
Definition plain_service : Service unit := mkService unit plain_issuer tt DefaultRunnerLifetime.

Definition reg_issue := IssueToken (replicate 32 one) 40 (12 * Hour) " standard " Hour 1 None reg_start.
Definition reg_token : registry := reg_issue.1.
Definition plain_token : string := (NewRegistrationToken (replicate 32 one)).1.
Definition reg_enroll := Enroll plain_pem (λ _ l, zero :: l) (λ _, Some plain_request) plain_marshal plain_parse_certificate unit
  (λ _, plain_key) plain_create demo_uuid plain_service 7 41 plain_random (12 * Hour) plain_token "builder-1"
  plain_capabilities (replicate 8 zero) reg_token.
Definition reg_enrolled : registry := reg_enroll.1.

Definition plain_issued : IssuedCertificate := mkIssuedCertificate plain_template [zero; one; zero; zero]
  (Sum256 (replicate 8 zero)) (Sum256 (replicate 32 zero)).
Definition plain_record : CertificateRecord := certificateRecord plain_issued.
Definition plain_enrollment : Enrollment :=
  mkEnrollment (NewRegistrationToken (replicate 32 one)).2 7 "builder-1" plain_capabilities plain_record.
Definition plain_found : RunnerIdentity :=
  mkRunnerIdentity 7 1 "standard" "builder-1" 41 (cr_Serial plain_record) plain_capabilities.

Lemma reg_enroll_result : reg_enroll = (reg_enrolled, Ok (plain_found, plain_record)).
Proof. vm_compute. reflexivity. Qed.

Lemma reg_token_history : registry_history [] reg_token.
Proof.
  assert (reg_token = (PgCreateRegistrationToken (mkRegistrationToken 40 "standard" (en_TokenDigest plain_enrollment) (13 * Hour) 1 None)
    reg_start).1) as -> by (vm_compute; reflexivity).
  apply (rh_step [] reg_start None); [by apply rh_start|apply rs_token].
Qed.

Lemma reg_enrolled_history : registry_history [en_TokenDigest plain_enrollment] reg_enrolled.
Proof.
  apply (rh_step [] reg_token (Some (en_TokenDigest plain_enrollment))); [apply reg_token_history|].
  apply (rs_enroll 41 plain_enrollment _ _ plain_found). vm_compute. reflexivity.
Qed.

Lemma runner_registry_wellformed_witness :
  ∃ m, rg_members reg_enrolled !! 7%N = Some m ∧ mr_certificate_serial m = Some (cr_Serial plain_record).
Proof.
  pose proof (runner_registry_wellformed _ _ reg_enrolled_history) as (_ & _ & Hserial & _).
  eexists. split; [vm_compute; reflexivity|]. apply (Hserial 7%N); [vm_compute; reflexivity|].
  assert (Hrow : rg_certs reg_enrolled = [mkCertRow 41 7 (cr_Serial plain_record) (cr_CSRFingerprint plain_record)
    (cr_PublicKeyFingerprint plain_record) "active" (cr_ChainPEM plain_record) (cr_NotBefore plain_record)
    (cr_NotAfter plain_record) None None None]) by (vm_compute; reflexivity).
  rewrite Hrow. eexists. split; [left|]. split; [reflexivity|split; reflexivity].
Defined.

Lemma enrollments_bounded_witness :
  ∃ t, t ∈ rg_tokens reg_enrolled ∧ uses (tk_digest t) [en_TokenDigest plain_enrollment] ≤ tk_max_uses t.
Proof.
  pose proof (enrollments_bounded _ _ reg_enrolled_history) as [Huses _].
  assert (Hin : hd (mkTokenRow 0 0 [] 0 0 0 None None None) (rg_tokens reg_enrolled) ∈ rg_tokens reg_enrolled).
  { vm_compute. left. }
  eexists. split; [exact Hin|]. rewrite (proj1 (Huses _ Hin)). apply (Huses _ Hin).
Defined.

Lemma elapse_step waited g : 0 ≤ waited → registry_step None g (registry_elapse waited g).
Proof. intros Hw. apply rs_core, core_step_same; [simpl; lia|done]. Qed.

Definition reg_disabled : registry := (PgDisableRunner 7 "compromised" None reg_enrolled).1.
Lemma revocation_is_final_witness :
  PgAuthenticateRunner 7 (cr_Serial plain_record) (registry_elapse Hour reg_disabled) = Err ErrDenied.
Proof.
  assert (Hsteps : registry_steps reg_disabled (registry_elapse Hour reg_disabled)).
  { apply rtc_once. exists None. apply elapse_step. vm_compute. discriminate. }
  apply (proj1 (revocation_is_final _ _ _ _ reg_enrolled_history Hsteps) 7%N "compromised" None). vm_compute. reflexivity.
Defined.

Definition plain_rotation : Rotation := mkRotation 7 (cr_Serial plain_record)
  (mkCertificateRecord (Repeat "b" 40) (replicate 32 one) (replicate 32 one) [one] (12 * Hour - Minute) (36 * Hour) time_zero)
  RotationGracePeriod.
Definition reg_rotated : registry := (PgRotateRunnerCertificate 42 plain_rotation reg_enrolled).1.
Lemma rotation_handover_witness :
  let old := PgAuthenticateRunner (ro_RunnerID plain_rotation) (ro_OldSerial plain_rotation) in
  is_ok (old (registry_elapse (14 * Minute) reg_rotated)) = true ∧
  is_ok (old (registry_elapse (15 * Minute) reg_rotated)) = false.
Proof.
  destruct (rotation_handover _ reg_enrolled 42 plain_rotation reg_rotated
    (set_valid_until (12 * Hour + 15 * Minute) (ro_Certificate plain_rotation)) reg_enrolled_history) as (Hauth & _).
  - vm_compute. reflexivity.
  - vm_compute. reflexivity.
  - intros Heq. apply (f_equal (length ∘ rg_certs)) in Heq. vm_compute in Heq. discriminate.
  - cbv zeta. rewrite (proj1 (Hauth (14 * Minute) ltac:(vm_compute; discriminate))).
    rewrite (proj1 (Hauth (15 * Minute) ltac:(vm_compute; discriminate))). split; vm_compute; reflexivity.
Defined.

Lemma issued_certificate_identity_witness :
  CertificateIdentity demo_uuid plain_parse (Some plain_template) = Ok (7%N, cr_Serial plain_record).
Proof.
  apply (issued_certificate_identity plain_pem (λ _ l, zero :: l) (λ _, Some plain_request) plain_marshal plain_parse_certificate
    unit (λ _, plain_key) plain_create demo_uuid plain_parse plain_created plain_round_trip plain_random (replicate 8 zero) 7
    plain_issuer (Some tt) (12 * Hour) DefaultRunnerLifetime plain_issued); [done|]. vm_compute. reflexivity.
Defined.

Lemma enrolled_runner_authenticates_witness :
  Authenticate demo_uuid plain_parse (Some plain_template) reg_enrolled = Ok plain_found.
Proof.
  destruct (enrolled_runner_authenticates plain_pem (λ _ l, zero :: l) (λ _, Some plain_request) plain_marshal
    plain_parse_certificate unit (λ _, plain_key) plain_create demo_uuid plain_parse plain_created plain_round_trip plain_service
    [] 7 41 plain_random (12 * Hour) plain_token "builder-1" plain_capabilities (replicate 8 zero) reg_token reg_enrolled
    plain_found plain_record reg_token_history eq_refl reg_enroll_result) as (_ & _ & _ & issued & Hsign & _ & Hauth).
  assert (issued = plain_issued) as -> by (vm_compute in Hsign; injection Hsign as <-; vm_compute; reflexivity).
  apply Hauth. split; [vm_compute; discriminate|vm_compute; reflexivity].
Defined.
