(* ===== verification/WorkProtocol.v ===== *)
(** The messages of the Work stream between a runner (internal/runner) and the control
    plane (internal/runnergrpc), as far as the code reads the generated types.  A message
    carries a parsed identifier, [None] when [uuid.Parse] refuses the text, and a time is
    [None] when it is missing or not valid. *)

From S2P Require Import Prelude GoStd RunModel Logs.

(** [runnerv1.IsolationLevel] and [runnerv1.RunnerCapabilities] *)
Inductive IsolationLevel := LevelUnspecified | LevelStandard | LevelPrivileged | LevelDeployment.

Record RunnerCapabilities := mkRunnerCapabilities {
  wa_Os : string;
  wa_Architecture : string;
  wa_Executor : string;
  wa_IsolationLevel : IsolationLevel;
  wa_Labels : gmap string string;
  wa_Capacity : Z;
  wa_AvailableDiskBytes : Z;
}.

Inductive LocalJobState := LocalUnspecified | LocalReceived | LocalRunning.

Record wireLease := mkWireLease {
  wl_JobId : option uuid;
  wl_LeaseToken : string;
  wl_State : LocalJobState;
}.

Record wireHeartbeat := mkWireHeartbeat {
  wh_Capabilities : option RunnerCapabilities;
  wh_ProtocolVersion : Z;
  wh_ActiveLeases : list (option wireLease);   (** the elements are pointers *)
}.

(** [runnerv1.JobAccepted] and [runnerv1.JobStarted], the interface [receiptMessage] *)
Record receiptMessage := mkReceipt { rm_JobId : option uuid; rm_LeaseToken : string }.

Inductive JobConclusion :=
  ConclusionUnspecified | ConclusionSucceeded | ConclusionFailed | ConclusionCanceled.
#[export] Instance JobConclusion_eq_dec : EqDecision JobConclusion.
Proof. solve_decision. Defined.

(** [runnerv1.JobCompleted] *)
Record wireCompletion := mkWireCompletion {
  wp_JobId : option uuid;
  wp_LeaseToken : string;
  wp_Conclusion : JobConclusion;
  wp_Detail : string;
  wp_Duration : duration;
}.

(** [runnerv1.SourceCheckout] and [runnerv1.EphemeralCredential] *)
Record wireSource := mkWireSource {
  ws_Provider : string;
  ws_RepositoryId : string;
  ws_CloneUrl : string;
  ws_CommitSha : string;
}.
Record wireCredential := mkWireCredential { wd_Token : bytes; wd_ExpiresAt : option time }.

Record JobAssignment := mkJobAssignment {
  ja_JobId : option uuid;
  ja_RunId : option uuid;
  ja_LeaseToken : string;
  ja_LeaseExpiresAt : option time;
  ja_ExecutionPlanJson : bytes;
  ja_Source : option wireSource;
  ja_Credential : option wireCredential;
}.

(** The bodies of [runnerv1.WorkRequest] and [runnerv1.WorkResponse]; the argument of a
    body is a pointer where the code tests it. *)
Inductive WorkRequest :=
| Heartbeat (heartbeat : option wireHeartbeat)
| JobAccepted (message : receiptMessage)
| JobStarted (message : receiptMessage)
| JobCompleted (message : option wireCompletion)
| LogChunkSent (jobId : option uuid) (leaseToken : string) (chunk : wireChunk).

Inductive WorkResponse :=
| ResponseAssignment (assignment : option JobAssignment)
| ResponseLeaseRenewed (jobId : option uuid) (expiresAt : option time)
| ResponseLogAcknowledged (jobId : option uuid) (sequence : Z)
| ResponseCancel (jobId : option uuid)
| ResponseJobRejected (body : option (option uuid)).

(** The leases that a request presents: jobs with their tokens. *)
Definition wire_lease (l : option wireLease) : list (uuid * string) :=
  match l with
  | Some (mkWireLease (Some id) token _) => [(id, token)]
  | _ => []
  end.
Definition presents (m : WorkRequest) : list (uuid * string) :=
  match m with
  | Heartbeat (Some h) => mjoin (wire_lease <$> wh_ActiveLeases h)
  | JobAccepted (mkReceipt (Some id) token) | JobStarted (mkReceipt (Some id) token) => [(id, token)]
  | JobCompleted (Some c) => match wp_JobId c with Some id => [(id, wp_LeaseToken c)] | None => [] end
  | LogChunkSent (Some id) token _ => [(id, token)]
  | _ => []
  end.
