(* ===== verification/WorkClient.v ===== *)
(** internal/runner/work.go and source.go: the work loop of a runner.  The state of a
    session is explicit: the active jobs, the results that executions have posted and
    what has been sent; every branch of the loop is a function from the state to the
    next state, the messages to send and whether the session ends.

    The clock does not move within one turn. *)

From S2P Require Import Prelude GoStd Regex RunModel Pipeline Logs WorkProtocol.

Definition workHeartbeatInterval : duration := 5 * Second.
Definition workReconnectMinimum : duration := Second.
Definition workReconnectMaximum : duration := 30 * Second.
Definition runnerProtocolVersion : Z := 2.
Definition maximumCheckoutToken : Z := 4 * 2 ^ 10.

(** The errors that end a session. *)
Inductive WorkError :=
| ErrInvalidResponse | ErrInvalidAssignment | ErrInvalidPlan | ErrInvalidSource | ErrConflictingAssignment
| ErrLocalCapacity | ErrExpiredAssignment | ErrInvalidRenewal | ErrUnknownRenewal | ErrCompletionState
| ErrInvalidAcknowledgement | ErrInvalidCancellation | ErrInvalidRejection | ErrRotationDue.
#[export] Instance WorkError_eq_dec : EqDecision WorkError.
Proof. solve_decision. Defined.

(** ** Local jobs *)

Inductive localJobPhase := jobAwaitingAcceptance | jobAwaitingStart | jobRunning | jobCompleted.
#[export] Instance localJobPhase_eq_dec : EqDecision localJobPhase.
Proof. solve_decision. Defined.

Record executionResult := mkExecutionResult {
  er_jobID : uuid;
  er_conclusion : JobConclusion;
  er_detail : string;
  er_duration : duration;
}.

Record localSource := mkLocalSource {
  so_provider : string;
  so_repositoryID : string;
  so_cloneURL : string;
  so_commitSHA : string;
  so_credential : bytes;
  so_expiresAt : time;
}.

(** A [time.Timer]: none yet, running until a moment, or fired or stopped. *)
Inductive leaseTimer := NoTimer | Armed (deadline : time) | Spent.
#[export] Instance leaseTimer_eq_dec : EqDecision leaseTimer.
Proof. solve_decision. Defined.

Record localJob := mkLocalJob {
  lj_id : uuid;
  lj_leaseToken : string;
  lj_leaseExpires : time;
  lj_plan : PlanJob;
  lj_phase : localJobPhase;
  lj_result : option executionResult;
  lj_leaseTimer : leaseTimer;
  lj_authorityLost : bool;
  lj_source : option localSource;
  lj_chunk : option wireChunk;          (** the pending chunk of [logs] *)
}.

Definition lj_set (phase : localJobPhase) (expires : time) (timer : leaseTimer) (lost : bool)
    (result : option executionResult) (chunk : option wireChunk) (j : localJob) : localJob :=
  mkLocalJob (lj_id j) (lj_leaseToken j) expires (lj_plan j) phase result timer lost (lj_source j) chunk.
Definition lj_set_phase (phase : localJobPhase) (j : localJob) : localJob :=
  lj_set phase (lj_leaseExpires j) (lj_leaseTimer j) (lj_authorityLost j) (lj_result j) (lj_chunk j) j.
Definition lj_set_expires (t : time) (j : localJob) : localJob :=
  lj_set (lj_phase j) t (lj_leaseTimer j) (lj_authorityLost j) (lj_result j) (lj_chunk j) j.
Definition lj_set_timer (timer : leaseTimer) (j : localJob) : localJob :=
  lj_set (lj_phase j) (lj_leaseExpires j) timer (lj_authorityLost j) (lj_result j) (lj_chunk j) j.
Definition lj_set_chunk (chunk : option wireChunk) (j : localJob) : localJob :=
  lj_set (lj_phase j) (lj_leaseExpires j) (lj_leaseTimer j) (lj_authorityLost j) (lj_result j) chunk j.

(** [loseLease]: the context of the job is canceled with it; the notification of the
    loop is the flag itself. *)
Definition loseLease (j : localJob) : localJob :=
  lj_set (lj_phase j) (lj_leaseExpires j) (lj_leaseTimer j) true (lj_result j) (lj_chunk j) j.

(** [armLeaseDeadline] *)
Definition armLeaseDeadline (now : time) (j : localJob) : localJob * bool :=
  if lj_authorityLost j || negb (now <? lj_leaseExpires j) then (loseLease j, false)
  else (lj_set_timer (Armed (lj_leaseExpires j)) j, true).

(** [resetLeaseDeadline]: [Stop] returns false for a timer that has fired. *)
Definition resetLeaseDeadline (now : time) (j : localJob) : localJob * bool :=
  if lj_authorityLost j then (j, false)
  else match lj_leaseTimer j with
       | Spent => (loseLease j, false)
       | NoTimer => armLeaseDeadline now j
       | Armed _ => armLeaseDeadline now (lj_set_timer Spent j)
       end.

(** The timer of a job: it fires at its deadline. *)
Definition fire_timer (now : time) (j : localJob) : localJob :=
  match lj_leaseTimer j with
  | Armed deadline => if deadline <=? now then lj_set_timer Spent (loseLease j) else j
  | _ => j
  end.

(** ** The session *)

(** An execution that has started: the job and the lease it runs under. *)
Record workState := mkWorkState {
  wk_active : gmap uuid localJob;
  wk_executions : list (uuid * string);              (** running calls of [executeJob] *)
  wk_results : list (executionResult * string);      (** posted results, with the lease of the execution *)
  wk_sentLogs : gmap uuid Z;
}.

Definition wk_with_active (x : gmap uuid localJob) (s : workState) : workState :=
  mkWorkState x (wk_executions s) (wk_results s) (wk_sentLogs s).
Definition put_job (j : localJob) (s : workState) : workState := wk_with_active (<[lj_id j := j]> (wk_active s)) s.

(** [forgetJob]: the job leaves the map; its execution is canceled and may still post a result. *)
Definition forgetJob (id : uuid) (s : workState) : workState := wk_with_active (delete id (wk_active s)) s.

Definition start_execution (j : localJob) (s : workState) : workState :=
  mkWorkState (wk_active s) ((lj_id j, lj_leaseToken j) :: wk_executions s) (wk_results s) (wk_sentLogs s).

Definition completionRequest (j : localJob) (r : executionResult) : WorkRequest :=
  JobCompleted (Some (mkWireCompletion (Some (lj_id j)) (lj_leaseToken j) (er_conclusion r) (er_detail r) (er_duration r))).

Definition receipt_of (j : localJob) : receiptMessage := mkReceipt (Some (lj_id j)) (lj_leaseToken j).

Definition resendTransition (j : localJob) : list WorkRequest :=
  match lj_phase j with
  | jobAwaitingAcceptance => [JobAccepted (receipt_of j)]
  | jobAwaitingStart => [JobStarted (receipt_of j)]
  | _ => []
  end.

(** The leases of a heartbeat, in the order in which the map is visited. *)
Definition heartbeat_lease (j : localJob) : option (option wireLease) :=
  if lj_authorityLost j || ((lj_phase j <>? jobRunning) && (lj_phase j <>? jobCompleted)) then None
  else Some (Some (mkWireLease (Some (lj_id j)) (lj_leaseToken j) LocalRunning)).
Definition sendHeartbeat (capabilities : RunnerCapabilities) (order : list localJob) : WorkRequest :=
  Heartbeat (Some (mkWireHeartbeat (Some capabilities) runnerProtocolVersion (omap heartbeat_lease order))).

(** What [runSession] sends first: the transitions whose answers may be lost. *)
Definition reconcile (capabilities : RunnerCapabilities) (order : list localJob) : list WorkRequest :=
  mjoin (resendTransition <$> order) ++ [sendHeartbeat capabilities order].

(** The steps of a session: the new state, what is sent, and the error that ends it. *)
Definition turn : Type := workState * list WorkRequest * option WorkError.

(** ** Source descriptors (source.go) *)

Definition name_byte (extra : string) (c : ascii) : bool := is_alnum c || one_of extra c.
Definition githubOwnerPattern : regex := RSeq (RClass is_alnum) (RUpTo 99 (RClass (name_byte "_-"))).
Definition githubRepositoryPattern : regex :=
  RSeq (RClass (name_byte "_.-")) (RUpTo 99 (RClass (name_byte "_.-"))).
Definition commitSHAPattern : regex :=
  RTimes 40 (RClass (λ c, is_digit c || in_range "a" "f" c || in_range "A" "F" c)).

Definition validGitHubRepositoryID (value : string) : bool :=
  match ParseInt value with
  | Some id => (0 <? id) && (FormatInt id =? value)
  | None => false
  end.

Section Client.
(** [url.Parse], and the decoder of a plan that refuses unknown fields and trailing data. *)
Variable url_Parse : string → option parsedURL.
Variable decode_plan : bytes → option PlanJob.

(** The checks that both kinds of address share, and that differ in the host. *)
Definition plain_url (u : parsedURL) : bool :=
  (pu_Scheme u =? "https") && negb (pu_User u) && (pu_Opaque u =? "") && (pu_RawPath u =? "")
  && (pu_RawQuery u =? "") && negb (pu_ForceQuery u) && (pu_Fragment u =? "").

Definition validGiteeBrokerURL (value repositoryID : string) : bool :=
  match url_Parse value with
  | None => false
  | Some u =>
    if negb (plain_url u) || (pu_Hostname u =? "") then false
    else (pu_Path u =? ("/api/v1/checkout/gitee/" +:+ repositoryID +:+ ".git")%string)
         && (value =? ("https://" +:+ pu_Host u +:+ pu_Path u)%string)
  end.

Definition validGitHubCloneURL (value : string) : bool :=
  match url_Parse value with
  | None => false
  | Some parsed =>
    if negb (plain_url parsed) || (pu_Host parsed <>? "github.com") then false
    else match Split (TrimPrefix (pu_Path parsed) "/") "/" with
    | [owner; part] =>
      if negb (HasSuffix part ".git") then false
      else
        let repository := TrimSuffix part ".git" in
        if negb (re_match githubOwnerPattern owner) || negb (re_match githubRepositoryPattern repository)
           || (repository =? ".") || (repository =? "..") then false
        else value =? ("https://github.com/" +:+ owner +:+ "/" +:+ repository +:+ ".git")%string
    | _ => false
    end
  end.

(** [true] when [validateSourceDescriptor] returns nil. *)
Definition validateSourceDescriptor (source : wireSource) : bool :=
  if negb (validGitHubRepositoryID (ws_RepositoryId source)) || negb (re_match commitSHAPattern (ws_CommitSha source))
  then false
  else ((ws_Provider source =? "github") && validGitHubCloneURL (ws_CloneUrl source))
       || ((ws_Provider source =? "gitee") && validGiteeBrokerURL (ws_CloneUrl source) (ws_RepositoryId source)).

(** ** Assignments *)

(** The source with its credential: both or neither. *)
Definition decodeSource (now : time) (source : option wireSource) (credential : option wireCredential)
    : result WorkError (option localSource) :=
  match source, credential with
  | None, None => Ok None
  | Some source, Some credential =>
    let n := Z.of_nat (length (wd_Token credential)) in
    fail_if negb (validateSourceDescriptor source) || (n =? 0) || (maximumCheckoutToken <? n) with ErrInvalidSource;;
    match wd_ExpiresAt credential with
    | None => Err ErrInvalidSource
    | Some expires =>
      fail_if negb (now <? expires) with ErrInvalidSource;;
      Ok (Some (mkLocalSource (ws_Provider source) (ws_RepositoryId source) (ws_CloneUrl source) (ws_CommitSha source)
                  (wd_Token credential) expires))
    end
  | _, _ => Err ErrInvalidSource
  end.

Definition decodeAssignment (now : time) (assignment : option JobAssignment) : result WorkError localJob :=
  match assignment with
  | None => Err ErrInvalidAssignment
  | Some a =>
    let n := Z.of_nat (length (ja_ExecutionPlanJson a)) in
    fail_if (ja_LeaseToken a =? "") || (512 <? len (ja_LeaseToken a)) || (n =? 0) || (2 ^ 20 <? n)
      with ErrInvalidAssignment;;
    match ja_LeaseExpiresAt a, ja_JobId a, ja_RunId a with
    | Some expires, Some jobID, Some _ =>
      fail_if negb (now <? expires) with ErrInvalidAssignment;;
      match decode_plan (ja_ExecutionPlanJson a) with
      | None => Err ErrInvalidPlan
      | Some plan =>
        fail_if pj_Name plan =? "" with ErrInvalidPlan;;
        let? source := decodeSource now (ja_Source a) (ja_Credential a) in
        Ok (mkLocalJob jobID (ja_LeaseToken a) expires plan jobAwaitingAcceptance None NoTimer false source None)
      end
    | _, _, _ => Err ErrInvalidAssignment
    end
  end.

(** ** Responses *)

Definition acceptedRequest (j : localJob) : WorkRequest := JobAccepted (receipt_of j).
Definition startedRequest (j : localJob) : WorkRequest := JobStarted (receipt_of j).

(** The branch of an assignment. *)
Definition handle_assignment (capacity : Z) (now : time) (a : option JobAssignment) (s : workState) : turn :=
  match decodeAssignment now a with
  | Err e => (s, [], Some e)
  | Ok job =>
    match wk_active s !! lj_id job with
    | Some existing =>
      if lj_leaseToken existing <>? lj_leaseToken job then (s, [], Some ErrConflictingAssignment)
      else (s, resendTransition existing, None)
    | None =>
      if capacity <=? Z.of_nat (size (wk_active s)) then (s, [], Some ErrLocalCapacity)
      else match armLeaseDeadline now job with
           | (_, false) => (s, [], Some ErrExpiredAssignment)
           | (job, true) => (put_job job s, [acceptedRequest job], None)
           end
    end
  end.

(** What a renewal does to a job whose lease holds. *)
Definition advance (job : localJob) (s : workState) : turn :=
  match lj_phase job with
  | jobAwaitingAcceptance => (put_job (lj_set_phase jobAwaitingStart job) s, [startedRequest job], None)
  | jobAwaitingStart => (start_execution job (put_job (lj_set_phase jobRunning job) s), [], None)
  | jobRunning => (put_job job s, [], None)
  | jobCompleted =>
    match lj_result job with
    | None => (put_job job s, [], Some ErrCompletionState)
    | Some result => (put_job job s, [completionRequest job result], None)
    end
  end.

Definition handle_renewal (now : time) (jobID : option uuid) (expiresAt : option time) (s : workState) : turn :=
  match expiresAt with
  | None => (s, [], Some ErrInvalidRenewal)
  | Some expires =>
    match jobID ≫= λ id, wk_active s !! id with
    | None => (s, [], Some ErrUnknownRenewal)
    | Some job =>
      if lj_authorityLost job then (forgetJob (lj_id job) s, [], None)
      else match resetLeaseDeadline now (lj_set_expires expires job) with
           | (_, false) => (forgetJob (lj_id job) s, [], None)
           | (job, true) => advance job s
           end
    end
  end.

(** [logBuffer.ack] *)
Definition ack_chunk (sequence : Z) (j : localJob) : localJob :=
  match lj_chunk j with
  | Some c => if wc_Sequence c =? sequence then lj_set_chunk None j else j
  | None => j
  end.

Definition forget_known (id : uuid) (s : workState) : workState :=
  match wk_active s !! id with Some job => forgetJob (lj_id job) s | None => s end.

Definition handleResponse (capacity : Z) (now : time) (response : option WorkResponse) (s : workState) : turn :=
  match response with
  | None => (s, [], Some ErrInvalidResponse)
  | Some (ResponseAssignment a) => handle_assignment capacity now a s
  | Some (ResponseLeaseRenewed id expires) => handle_renewal now id expires s
  | Some (ResponseLogAcknowledged id sequence) =>
    if sequence =? 0 then (s, [], Some ErrInvalidAcknowledgement)
    else match id with
         | None => (s, [], Some ErrInvalidAcknowledgement)
         | Some id => (match wk_active s !! id with Some job => put_job (ack_chunk sequence job) s | None => s end, [], None)
         end
  | Some (ResponseCancel None) => (s, [], Some ErrInvalidCancellation)
  | Some (ResponseCancel (Some id)) => (forget_known id s, [], None)
  | Some (ResponseJobRejected None) => (s, [], Some ErrInvalidRejection)
  | Some (ResponseJobRejected (Some None)) => (s, [], None)
  | Some (ResponseJobRejected (Some (Some id))) => (forget_known id s, [], None)
  end.
End Client.

(** ** The other branches of the loop of [runSession] *)

(** A result that an execution posted. *)
Definition handle_result (now : time) (r : executionResult) (s : workState) : turn :=
  match wk_active s !! er_jobID r with
  | None => (s, [], None)
  | Some job =>
    let expired := negb (now <? lj_leaseExpires job) in
    if (lj_phase job <>? jobRunning) || lj_authorityLost job || expired then
      (if expired || lj_authorityLost job then forgetJob (lj_id job) s else s, [], None)
    else
      let job := lj_set jobCompleted (lj_leaseExpires job) (lj_leaseTimer job) (lj_authorityLost job) (Some r) (lj_chunk job) job in
      (put_job job s, [completionRequest job r], None)
  end.

(** The tick of the logs; [order] is how the map of jobs is visited. *)
Definition tick_job (turn : gmap uuid Z * list WorkRequest) (job : localJob) : gmap uuid Z * list WorkRequest :=
  let '(sent, messages) := turn in
  match lj_chunk job with
  | Some chunk =>
    if lj_authorityLost job || (default 0 (sent !! lj_id job) =? wc_Sequence chunk) then turn
    else (<[lj_id job := wc_Sequence chunk]> sent, messages ++ [LogChunkSent (Some (lj_id job)) (lj_leaseToken job) chunk])
  | None => turn
  end.
Definition handle_log_tick (order : list localJob) (s : workState) : turn :=
  let known := filter (λ '(id, _), is_Some (wk_active s !! id)) (wk_sentLogs s) in
  let '(sent, messages) := foldl tick_job (known, []) order in
  (mkWorkState (wk_active s) (wk_executions s) (wk_results s) sent, messages, None).

(** A lost lease: the notification may come late or not at all. *)
Definition handle_loss (id : uuid) (s : workState) : turn :=
  match wk_active s !! id with
  | Some job => (if lj_authorityLost job then forgetJob (lj_id job) s else s, [], None)
  | None => (s, [], None)
  end.

(** A new session: nothing has been sent on its stream. *)
Definition open_session (capabilities : RunnerCapabilities) (order : list localJob) (s : workState) : turn :=
  (mkWorkState (wk_active s) (wk_executions s) (wk_results s) ∅, reconcile capabilities order, None).

(** The first result in the channel. *)
Definition take_result (s : workState) : option (executionResult * workState) :=
  match wk_results s with
  | [] => None
  | (r, _) :: rest => Some (r, mkWorkState (wk_active s) (wk_executions s) rest (wk_sentLogs s))
  end.

(** ** Executions *)

(** [executeJob]: what the executor returned, whether the context was done. *)
Definition executeJob (jobID : uuid) (failed done : bool) (duration : duration) : executionResult :=
  if failed then
    if done then mkExecutionResult jobID ConclusionCanceled "job execution canceled" duration
    else mkExecutionResult jobID ConclusionFailed "job execution failed" duration
  else mkExecutionResult jobID ConclusionSucceeded "" duration.

(** The context of an execution is canceled once its job has lost its lease or was forgotten. *)
Definition canceled (x : uuid * string) (s : workState) : bool :=
  match wk_active s !! x.1 with
  | Some job => lj_authorityLost job || (lj_leaseToken job <>? x.2)
  | None => true
  end.

(** The execution at position [i] ends: its result is posted, or dropped when the context is done. *)
Definition end_execution (i : nat) (post : option executionResult) (s : workState) : workState :=
  match wk_executions s !! i with
  | None => s
  | Some x =>
    mkWorkState (wk_active s) (delete i (wk_executions s))
      (wk_results s ++ match post with Some r => [(r, x.2)] | None => [] end) (wk_sentLogs s)
  end.

(** The timer of a job, and a chunk that its writer offers. *)
Definition timer_fires (now : time) (id : uuid) (s : workState) : workState :=
  match wk_active s !! id with Some job => put_job (fire_timer now job) s | None => s end.
Definition offer_chunk (id : uuid) (chunk : wireChunk) (s : workState) : workState :=
  match wk_active s !! id with Some job => put_job (lj_set_chunk (Some chunk) job) s | None => s end.

(** [cancelJobs], when the process ends. *)
Definition cancelJobs (s : workState) : workState :=
  wk_with_active ((λ j, lj_set (lj_phase j) (lj_leaseExpires j)
    (match lj_leaseTimer j with NoTimer => NoTimer | _ => Spent end) true (lj_result j) (lj_chunk j) j) <$> wk_active s) s.

(** ** Between sessions *)

Definition nextBackoff (backoff : duration) : duration := Z.min (backoff * 2) workReconnectMaximum.

(** [jitter]; [random] is what the generator returned for the bound [value/2+1]. *)
Definition jitter (value random : duration) : duration :=
  if value <=? 0 then 0 else value `quot` 2 + random.

Definition certificateRotateAhead : duration := 6 * Hour.

(** The delay of the rotation timer; [None] without a directory for the credentials. *)
Definition rotationTimer (stateDir : string) (notAfter now : time) : option duration :=
  if stateDir =? "" then None else Some (Z.max 0 (notAfter - certificateRotateAhead - now)).

(** How [Run] goes on after a session: it stops, starts again at once with new
    credentials, or waits. *)
Inductive continuation := RunStops | RunAgain (backoff : duration) | RunWaits (delay backoff : duration).

Definition after_session (done : bool) (error : option WorkError) (rotated : bool) (random backoff : duration)
    : continuation :=
  if done then RunStops
  else if bool_decide (error = Some ErrRotationDue) && rotated then RunAgain workReconnectMinimum
  else RunWaits (jitter backoff random) (nextBackoff backoff).
