(* ===== verification/WorkServer.v ===== *)
(** internal/runnergrpc/server.go and auth.go: the control plane's side of the Work
    stream.  Every request is one function from the store to the store, the responses to
    send and the status that ends the stream.  A heartbeat is two of them, the renewal of
    the leases and one turn of the loop that claims jobs, because the transactions of other
    streams may run in between. *)

From S2P Require Import Prelude GoStd RunModel Pipeline RunnerAuth Database PgStore LeaseStore Logs WorkProtocol.

Definition maxMessageBytes : Z := 2 * 2 ^ 20.
Definition heartbeatInterval : duration := 10 * Second.
Definition leaseDuration : duration := 30 * Second.
Definition minimumProtocol : Z := 1.
Definition currentProtocol : Z := 2.

(** [codes.Code] *)
Inductive StatusCode :=
| InvalidArgument | FailedPrecondition | Internal | PermissionDenied | AlreadyExists | ResourceExhausted
| Unauthenticated | Unavailable.
#[export] Instance StatusCode_eq_dec : EqDecision StatusCode.
Proof. solve_decision. Defined.

Definition supportedProtocol (version : Z) : bool := (minimumProtocol <=? version) && (version <=? currentProtocol).

(** [githubapp.CheckoutCredential] *)
Record CheckoutCredential := mkCheckoutCredential {
  cc_RepositoryID : string;
  cc_CloneURL : string;
  cc_Token : bytes;
  cc_ExpiresAt : time;
}.

(** What an issuer reports: [permanent] for [ErrRepositoryUnavailable] and [ErrCredentialUnavailable]. *)
Inductive IssueError := PermanentIssueError | TransientIssueError.

(** [CredentialIssuer]; the second function is there when it is an [AssignmentCredentialIssuer]. *)
Record CredentialIssuer := mkCredentialIssuer {
  IssueCheckoutCredential : uuid → string → result IssueError CheckoutCredential;
  IssueAssignmentCredential : option (uuid → Assignment → result IssueError CheckoutCredential);
}.

(** [workStoreError] *)
Definition workStoreError (e : RunError) : StatusCode :=
  match e with
  | ErrInvalidRunnerRequest => InvalidArgument
  | ErrLeaseInvalid => FailedPrecondition
  | _ => Internal
  end.

(** [capabilities] *)
Definition isolation_level (l : IsolationLevel) : option string :=
  match l with
  | LevelStandard => Some "standard"
  | LevelPrivileged => Some "privileged"
  | LevelDeployment => Some "deployment"
  | LevelUnspecified => None
  end.
Definition capabilities (input : RunnerCapabilities) (protocol : Z) : option Capabilities :=
  match isolation_level (wa_IsolationLevel input) with
  | None => None
  | Some isolation =>
    if (64 <? size (wa_Labels input))%nat then None
    else if existsb (λ '(key, value), (128 <? len key) || (512 <? len value)) (map_to_list (wa_Labels input)) then None
    else Some (mkCapabilities (wa_Os input) (wa_Architecture input) (wa_Executor input) isolation (wa_Labels input)
                 (wa_Capacity input) (wa_AvailableDiskBytes input) protocol ("protocol-v" +:+ FormatInt protocol)%string)
  end.

(** ** Heartbeats: what the store is asked *)

Definition local_state (s : LocalJobState) : string :=
  match s with LocalReceived => "received" | LocalRunning => "running" | LocalUnspecified => "" end.

Definition active_lease (l : option wireLease) : option ActiveLease :=
  match l with
  | Some (mkWireLease (Some id) token state) =>
    if (512 <? len token) || (local_state state =? "") then None else Some (mkActive id token (local_state state))
  | _ => None
  end.

Definition heartbeat_request (found : RunnerIdentity) (heartbeat : option wireHeartbeat) : option HeartbeatRequest :=
  match heartbeat with
  | None => None
  | Some h =>
    match wh_Capabilities h with
    | None => None
    | Some input =>
      if negb (supportedProtocol (wh_ProtocolVersion h))
         || (MaximumHeartbeatJobCount <? Z.of_nat (length (wh_ActiveLeases h))) then None
      else match capabilities input (wh_ProtocolVersion h) with
      | None => None
      | Some c =>
        if (ca_IsolationLevel c <>? id_PoolType found)
           || (ca_ProtocolVersion c <>? ca_ProtocolVersion (id_Capabilities found)) then None
        else
          let runner := mkRunner (id_RunnerID found) (id_PoolType found) (ca_OS c) (ca_Architecture c) (ca_Executor c)
            (ca_Labels c) (ca_Capacity c) (ca_AvailableDiskBytes c) (ca_ProtocolVersion c) in
          mkHeartbeat runner <$> mapM active_lease (wh_ActiveLeases h)
      end
    end
  end.

(** The response for one renewed lease. *)
Definition lease_response (l : LeaseResult) : WorkResponse :=
  if le_Renewed l then ResponseLeaseRenewed (Some (le_JobID l)) (Some (le_LeaseExpires l))
  else ResponseCancel (Some (le_JobID l)).

(** ** Requests, over the interface of the store *)

Section Handlers.
Context {St : Type} `{RunnerJobStore St}.
(** [RenewRunnerLeases] of the store, and the encoder of plans. *)
Variable RenewRunnerLeases : HeartbeatRequest → St → St * result RunError HeartbeatResult.
Variable encode_plan : PlanJob → option bytes.

(** [handleHeartbeat] up to the loop. *)
Definition handleHeartbeat (found : RunnerIdentity) (heartbeat : option wireHeartbeat) (st : St)
    : St * result StatusCode (list WorkResponse) :=
  match heartbeat_request found heartbeat with
  | None => (st, Err InvalidArgument)
  | Some request =>
    match RenewRunnerLeases request st with
    | (st, Err e) => (st, Err (workStoreError e))
    | (st, Ok r) => (st, Ok (lease_response <$> hr_Jobs r))
    end
  end.

(** The first half of a turn of the loop; [token] is the lease token that is drawn. *)
Definition claim_turn (token : string) (runnerID : uuid) (st : St) : St * result StatusCode (option Assignment) :=
  match claim token runnerID st with
  | (st, Err e) => (st, Err (workStoreError e))
  | (st, Ok a) => (st, Ok a)
  end.

(** [fail] of [attachSourceCredential] *)
Definition fail_assignment (permanent : bool) (runnerID : uuid) (a : Assignment) (st : St) : St * result StatusCode JobAssignment :=
  let lease := mkLease runnerID (as_JobID a) (as_LeaseToken a) in
  match (if permanent then complete (completion_of lease JobFailed) st else release lease st) with
  | (st, Err e) => (st, Err (workStoreError e))
  | (st, Ok _) => (st, Err Internal)
  end.

Definition issue_credential (issuer : CredentialIssuer) (runnerID : uuid) (a : Assignment) (source : SourceCheckout)
    : result IssueError CheckoutCredential :=
  if sc_Provider source =? "gitee" then
    match IssueAssignmentCredential issuer with
    | None => Err PermanentIssueError
    | Some issue => issue runnerID a
    end
  else IssueCheckoutCredential issuer (sc_RepositoryUUID source) (sc_RepositoryID source).

Definition attachSourceCredential (credentials : option CredentialIssuer) (now : time) (runnerID : uuid) (a : Assignment)
    (source : SourceCheckout) (message : JobAssignment) (st : St) : St * result StatusCode JobAssignment :=
  match credentials with
  | None => fail_assignment true runnerID a st
  | Some issuer =>
    if ((sc_Provider source <>? "github") && (sc_Provider source <>? "gitee")) || (sc_RepositoryUUID source =? uuid_Nil)
    then fail_assignment true runnerID a st
    else match issue_credential issuer runnerID a source with
    | Err PermanentIssueError => fail_assignment true runnerID a st
    | Err TransientIssueError => fail_assignment false runnerID a st
    | Ok credential =>
      let n := Z.of_nat (length (cc_Token credential)) in
      if (cc_RepositoryID credential <>? sc_RepositoryID source) || (n =? 0) || (4 * 2 ^ 10 <? n)
         || (cc_ExpiresAt credential <=? now) then fail_assignment true runnerID a st
      else if (sc_Provider source =? "gitee") && (cc_CloneURL credential =? "") then fail_assignment true runnerID a st
      else
        let url := if sc_Provider source =? "gitee" then cc_CloneURL credential else sc_CloneURL source in
        let wire := mkWireSource (sc_Provider source) (sc_RepositoryID source) url (sc_CommitSHA source) in
        (st, Ok (mkJobAssignment (ja_JobId message) (ja_RunId message) (ja_LeaseToken message) (ja_LeaseExpiresAt message)
                   (ja_ExecutionPlanJson message) (Some wire)
                   (Some (mkWireCredential (cc_Token credential) (Some (cc_ExpiresAt credential))))))
    end
  end.

(** The second half of a turn: the message that carries the assignment. *)
Definition issue_turn (credentials : option CredentialIssuer) (now : time) (runnerID : uuid) (a : Assignment) (st : St)
    : St * result StatusCode JobAssignment :=
  match encode_plan (as_Spec a) with
  | None => (st, Err Internal)
  | Some plan =>
    if 2 ^ 20 <? Z.of_nat (length plan) then (st, Err Internal)
    else
      let message := mkJobAssignment (Some (as_JobID a)) (Some (as_RunID a)) (as_LeaseToken a) (Some (as_LeaseExpires a))
        plan None None in
      match as_Source a with
      | None => (st, Ok message)
      | Some source => attachSourceCredential credentials now runnerID a source message st
      end
  end.

(** The loop of [handleHeartbeat] when nothing runs in between: what is sent, and how it
    ends.  Every turn draws a lease token. *)
Fixpoint claim_loop (fuel : nat) (draw : nat → string) (credentials : option CredentialIssuer) (now : time) (runnerID : uuid)
    (st : St) : option (St * list WorkResponse * result StatusCode unit) :=
  match fuel with
  | O => None
  | S fuel =>
    match claim_turn (draw fuel) runnerID st with
    | (st, Err e) => Some (st, [], Err e)
    | (st, Ok None) => Some (st, [], Ok tt)
    | (st, Ok (Some a)) =>
      match issue_turn credentials now runnerID a st with
      | (st, Err e) => Some (st, [], Err e)
      | (st, Ok m) =>
        (λ '(st, messages, end_), (st, ResponseAssignment (Some m) :: messages, end_))
          <$> claim_loop fuel draw credentials now runnerID st
      end
    end
  end.

Definition handleReceipt (runnerID : uuid) (message : receiptMessage) (started : bool) (st : St)
    : St * result StatusCode (list WorkResponse) :=
  match rm_JobId message with
  | None => (st, Err InvalidArgument)
  | Some jobID =>
    if 512 <? len (rm_LeaseToken message) then (st, Err InvalidArgument)
    else
      let request := mkLease runnerID jobID (rm_LeaseToken message) in
      match (if started then start request st else acknowledge request st) with
      | (st, Err e) => (st, Err (workStoreError e))
      | (st, Ok lease) => (st, Ok [ResponseLeaseRenewed (Some (ls_JobID lease)) (Some (ls_LeaseExpires lease))])
      end
  end.

Definition completion_status (c : JobConclusion) : option JobStatus :=
  match c with
  | ConclusionSucceeded => Some JobSucceeded
  | ConclusionFailed => Some JobFailed
  | ConclusionCanceled => Some JobCanceled
  | ConclusionUnspecified => None
  end.

Definition handleCompletion (runnerID : uuid) (message : option wireCompletion) (st : St)
    : St * result StatusCode (list WorkResponse) :=
  match message with
  | None => (st, Err InvalidArgument)
  | Some m =>
    if 512 <? len (wp_LeaseToken m) then (st, Err InvalidArgument)
    else match wp_JobId m, completion_status (wp_Conclusion m) with
    | Some jobID, Some status =>
      match complete (mkCompletion runnerID jobID (wp_LeaseToken m) status) st with
      | (st, Err e) => (st, Err (workStoreError e))
      | (st, Ok _) => (st, Ok [])
      end
    | _, _ => (st, Err InvalidArgument)
    end
  end.
End Handlers.

(** ** Sessions *)

(** [beginSession] and [endSession]: one Work stream per runner. *)
Definition beginSession (runnerID : uuid) (sessions : gset uuid) : gset uuid * bool :=
  if bool_decide (runnerID ∈ sessions) then (sessions, false) else ({[runnerID]} ∪ sessions, true).
Definition endSession (runnerID : uuid) (sessions : gset uuid) : gset uuid := sessions ∖ {[runnerID]}.

(** ** Requests of the stream, over PostgreSQL *)

Section Work.
Context `{MapOrder}.
Variable sha256 : string → string.
Variable uuid_String : uuid → string.

(** The status of a chunk that [handleLog] (Logs.v) does not acknowledge. *)
Definition log_status (q : LeaseRequest) (chunk : wireChunk) (d : database) : StatusCode :=
  let output := if wc_Stderr chunk then "stderr" else "stdout" in
  let c := mkChunk q (wc_Sequence chunk) (wc_StepIndex chunk) output (wc_Data chunk) (wc_Truncated chunk) in
  if (MaxJobLogChunks <? wc_Sequence chunk) || (1023 <? wc_StepIndex chunk) || negb (ValidateLogChunk c) then InvalidArgument
  else match (AppendLogChunk sha256 c d).2 with
       | Err ErrLeaseInvalid | Err ErrLogSequence | Err ErrLogLimit | Err ErrLogExpired => FailedPrecondition
       | _ => Unavailable
       end.

(** The log chunk of a request; the job identifier is parsed first. *)
Definition work_log (runnerID : uuid) (jobID : option uuid) (token : string) (chunk : wireChunk) (d : database)
    : database * result StatusCode (list WorkResponse) :=
  match jobID with
  | None => (d, Err InvalidArgument)
  | Some id =>
    match handleLog sha256 (mkLease runnerID id token) chunk d with
    | (d, true) => (d, Ok [ResponseLogAcknowledged (Some id) (wc_Sequence chunk)])
    | (d', false) => (d', Err (log_status (mkLease runnerID id token) chunk d))
    end
  end.

(** The [switch] of [Work]: the store, the responses, or the status that ends the stream.
    After a heartbeat the handler goes on with the loop that claims jobs. *)
Definition Work (store : RunnerJobStore database) (found : RunnerIdentity) (request : option WorkRequest) (d : database)
    : database * result StatusCode (list WorkResponse) :=
  let runnerID := id_RunnerID found in
  match request with
  | None => (d, Err InvalidArgument)
  | Some (Heartbeat h) => handleHeartbeat (PgRenewRunnerLeases sha256) found h d
  | Some (JobAccepted m) => handleReceipt runnerID m false d
  | Some (JobStarted m) => handleReceipt runnerID m true d
  | Some (JobCompleted m) => handleCompletion runnerID m d
  | Some (LogChunkSent id token chunk) => work_log runnerID id token chunk d
  end.
End Work.

(** ** Registration and rotation *)

(** The connection as TLS verified it: the certificates of the peer and of the first chain. *)
Record tlsPeer := mkTlsPeer {
  tp_PeerCertificates : list (option Certificate);
  tp_VerifiedChain : list (option Certificate);
}.

Definition sameCertificate (left right : option Certificate) : bool :=
  match left, right with Some l, Some r => ce_Raw l =? ce_Raw r | _, _ => false end.

Record RegisterRequest := mkRegisterRequest {
  rq_OneTimeToken : string;
  rq_Name : string;
  rq_CsrPem : bytes;
  rq_Capabilities : option RunnerCapabilities;
  rq_ProtocolVersion : Z;
}.

Section Registration.
Variable pem_Decode : bytes → option pemBlock * bytes.
Variable pem_EncodeToMemory : string → bytes → bytes.
Variable ParseCertificateRequest : bytes → option CertificateRequest.
Variable MarshalPKIXPublicKey : PublicKey → option bytes.
Variable ParseCertificate : bytes → option Certificate.
Variable Signer : Type.
Variable Public : Signer → PublicKey.
Variable CreateCertificate : Certificate → Certificate → PublicKey → Signer → option bytes.
Variable uuid_String : uuid → string.
Variable uuid_Parse : string → option uuid.
Context {St : Type} `{RunnerStore St}.
Variable auth : RunnerAuth.Service Signer.

(** [authenticatePeer]; [None] when the connection has no TLS state. *)
Definition authenticatePeer (remote : option tlsPeer) (st : St) : result StatusCode RunnerIdentity :=
  match remote with
  | None => Err Unauthenticated
  | Some tls =>
    fail_if (length (tp_VerifiedChain tls) <? 2)%nat with Unauthenticated;;
    match tp_PeerCertificates tls, tp_VerifiedChain tls with
    | leaf :: _, verified :: _ =>
      fail_if negb (sameCertificate leaf verified) with Unauthenticated;;
      match Authenticate uuid_String uuid_Parse leaf st with
      | Err _ => Err Unauthenticated
      | Ok found => Ok found
      end
    | _, _ => Err Unauthenticated
    end
  end.

(** [Register]; [busy] is the number of registrations in progress, of sixteen slots.  The
    last arguments are what the service draws. *)
Definition Register (busy : nat) (request : option RegisterRequest) (runnerID certificateID : uuid) (random : bytes)
    (now : time) (st : St) : St * result StatusCode (RunnerIdentity * CertificateRecord) :=
  if (16 <=? busy)%nat then (st, Err ResourceExhausted)
  else match request with
  | None => (st, Err InvalidArgument)
  | Some r =>
    match rq_Capabilities r with
    | None => (st, Err InvalidArgument)
    | Some input =>
      if negb (supportedProtocol (rq_ProtocolVersion r)) || (512 <? len (rq_OneTimeToken r)) || (128 <? len (rq_Name r))
         || (MaxCSRBytes <? Z.of_nat (length (rq_CsrPem r))) then (st, Err InvalidArgument)
      else match capabilities input (rq_ProtocolVersion r) with
      | None => (st, Err InvalidArgument)
      | Some capability =>
        match Enroll pem_Decode pem_EncodeToMemory ParseCertificateRequest MarshalPKIXPublicKey ParseCertificate Signer Public
                CreateCertificate uuid_String auth runnerID certificateID random now (rq_OneTimeToken r) (rq_Name r)
                capability (rq_CsrPem r) st with
        | (st, Err _) => (st, Err PermissionDenied)
        | (st, Ok issued) => (st, Ok issued)
        end
      end
    end
  end.

(** [RotateCertificate]; [found] is what the interceptor stored in the context. *)
Definition RotateCertificate (found : option RunnerIdentity) (csrPEM : bytes) (protocol : Z) (certificateID : uuid)
    (random : bytes) (now : time) (st : St) : St * result StatusCode CertificateRecord :=
  match found with
  | None => (st, Err Unauthenticated)
  | Some current =>
    let n := Z.of_nat (length csrPEM) in
    if negb (supportedProtocol protocol) || (n =? 0) || (MaxCSRBytes <? n) then (st, Err InvalidArgument)
    else match Rotate pem_Decode pem_EncodeToMemory ParseCertificateRequest MarshalPKIXPublicKey ParseCertificate Signer
                 Public CreateCertificate uuid_String auth certificateID random now current csrPEM st with
    | (st, Err _) => (st, Err PermissionDenied)
    | (st, Ok record) => (st, Ok record)
    end
  end.
End Registration.
