(* ===== verification/WorkDatabase.v ===== *)
(** What the transactions of the PostgreSQL store do to the leases and to the jobs that
    have begun.  A transaction that is not a claim gives no lease to a job, and no
    transaction takes a job back that a runner has started. *)

From stdpp Require Import relations.
From S2P Require Import Prelude GoStd RunModel Pipeline Database Identity PgStore PgActions CommitStatus Logs PgRefine PgRuns.

(** The job has been started, or has its result. *)
Definition begun (st : JobStatus) : bool :=
  negb ((st =? JobBlocked) || (st =? JobQueued) || (st =? JobAssigned)).

(** The hash of the token of the lease under which a runner holds the row. *)
Definition lease_hash (j : jobRow) : option string :=
  if job_leased (jr_status j) then jr_lease_token_hash j else None.

Record row_evolves (j j' : jobRow) : Prop := {
  re_id : jr_id j' = jr_id j;
  re_begun : begun (jr_status j) = true → begun (jr_status j') = true;
  re_lease : ∀ h, lease_hash j' = Some h → lease_hash j = Some h;
}.

(** The rows before and after: none is removed, and new rows are not leased. *)
Record rows_evolve (l l' : list jobRow) : Prop := {
  ro_rows : ∃ l1 l2, l' = l1 ++ l2 ∧ Forall2 row_evolves l l1 ∧ Forall (λ j, lease_hash j = None) l2;
  ro_ids : NoDup (jr_id <$> l) → NoDup (jr_id <$> l');
}.

Abbreviation evolves d d' := (rows_evolve (db_jobs d) (db_jobs d')).

#[export] Instance row_evolves_preorder : PreOrder row_evolves.
Proof.
  split; [by split|]. intros x y z [Hi Hb Hl] [Hi' Hb' Hl']. split; [congruence|auto..].
Qed.

#[export] Instance rows_evolve_preorder : PreOrder rows_evolve.
Proof.
  split.
  - intros l. split; [|done]. exists l, []. rewrite app_nil_r. split; [done|]. split; [|constructor].
    by apply Forall_Forall2_diag, Forall_true.
  - intros l m n [(m1 & m2 & -> & H1 & Hn) Hi] [(n1 & n2 & -> & H2 & Hn') Hi']. split; [|auto].
    apply Forall2_app_inv_l in H2 as (a & b & Ha & Hb & ->).
    exists a, (b ++ n2). rewrite app_assoc. split; [done|]. split.
    + eapply transitivity; [exact H1|exact Ha].
    + apply Forall_app. split; [|done]. clear -Hb Hn. induction Hb as [|x y m2 b Hxy _ IH]; [constructor|].
      apply Forall_cons in Hn as [Hx Hn]. constructor; [|by apply IH].
      destruct (lease_hash y) as [h|] eqn:Hy; [|done]. by rewrite (re_lease _ _ Hxy h Hy) in Hx.
Qed.

(** *** The rows of a database *)

Lemma evolves_back l l' j' :
  rows_evolve l l' → j' ∈ l' → lease_hash j' = None ∨ ∃ j, j ∈ l ∧ row_evolves j j'.
Proof.
  intros [(l1 & l2 & -> & H1 & Hn) _] [Hj|Hj]%elem_of_app.
  - right. apply list_elem_of_lookup in Hj as [i Hi]. destruct (Forall2_lookup_r _ _ _ _ _ H1 Hi) as (j & Hj & Hr).
    exists j. split; [by eapply list_elem_of_lookup_2|done].
  - left. rewrite Forall_forall in Hn. by apply Hn.
Qed.

Lemma evolves_lease l l' j' h :
  rows_evolve l l' → j' ∈ l' → lease_hash j' = Some h → ∃ j, j ∈ l ∧ jr_id j = jr_id j' ∧ lease_hash j = Some h.
Proof.
  intros He Hj Hh. destruct (evolves_back _ _ _ He Hj) as [Hn|(j & Hin & Hr)]; [by rewrite Hn in Hh|].
  exists j. split; [done|]. split; [by rewrite (re_id _ _ Hr)|by apply Hr].
Qed.

Lemma evolves_forth l l' j : rows_evolve l l' → j ∈ l → ∃ j', j' ∈ l' ∧ row_evolves j j'.
Proof.
  intros [(l1 & l2 & -> & H1 & _) _] [i Hi]%list_elem_of_lookup.
  destruct (Forall2_lookup_l _ _ _ _ _ H1 Hi) as (j' & Hj' & Hr). exists j'. split; [|done].
  apply elem_of_app. left. by eapply list_elem_of_lookup_2.
Qed.

Lemma update_evolves p f d :
  (∀ j, p j = true → row_evolves j (f j)) → evolves d (update_jobs p f d).1.
Proof.
  intros Hf. unfold update_jobs, update_all. cbn [fst db_jobs with_jobs].
  assert (Hone : ∀ j, row_evolves j (if p j then f j else j)).
  { intros j. destruct (p j) eqn:Hp; [by apply Hf|done]. }
  assert (H2 : Forall2 row_evolves (db_jobs d) ((λ j, if p j then f j else j) <$> db_jobs d)).
  { apply Forall2_fmap_r, Forall_Forall2_diag, Forall_true, Hone. }
  split.
  - exists ((λ j, if p j then f j else j) <$> db_jobs d), []. rewrite app_nil_r. by repeat split.
  - rewrite <-list_fmap_compose. intros Hnd.
    enough (compose jr_id (λ j, if p j then f j else j) <$> db_jobs d = jr_id <$> db_jobs d) as -> by done.
    apply list_fmap_ext. intros i j _. apply Hone.
Qed.

Lemma update_evolves_eq p f d d' n :
  update_jobs p f d = (d', n) → (∀ j, p j = true → row_evolves j (f j)) → evolves d d'.
Proof. intros Hu Hf. change d' with (d', n).1. rewrite <-Hu. by apply update_evolves. Qed.

Lemma transaction_evolves {A} (body : database → result RunError (database * A)) d :
  (∀ d' a, body d = Ok (d', a) → evolves d d') → evolves d (transaction body d).1.
Proof. intros Hb. unfold transaction. destruct (body d) as [[d' a]|e]; [by eapply Hb|done]. Qed.

(** Appending rows that no runner holds. *)
Lemma append_evolves l l2 :
  Forall (λ j, lease_hash j = None) l2 → NoDup (jr_id <$> l ++ l2) → rows_evolve l (l ++ l2).
Proof.
  intros Hl Hnd. split; [|done]. exists l, l2. split; [done|]. split; [|done].
  by apply Forall_Forall2_diag, Forall_true.
Qed.

(** *** Rows that an update touches *)

Lemma evolves_closed j j' :
  jr_id j' = jr_id j → begun (jr_status j') = true → job_leased (jr_status j') = false → row_evolves j j'.
Proof. intros Hi Hb Hl. split; [done|done|]. intros h. unfold lease_hash. by rewrite Hl. Qed.

Lemma evolves_unleased j j' :
  jr_id j' = jr_id j → begun (jr_status j) = false → job_leased (jr_status j') = false → row_evolves j j'.
Proof. intros Hi Hb Hl. split; [done|by rewrite Hb|]. intros h. unfold lease_hash. by rewrite Hl. Qed.

(** The columns of the lease and the status stay, or a held job is started. *)
Lemma evolves_held j j' :
  jr_id j' = jr_id j → jr_lease_token_hash j' = jr_lease_token_hash j → job_leased (jr_status j) = true →
  jr_status j' = jr_status j ∨ jr_status j' = JobRunning → row_evolves j j'.
Proof.
  intros Hi Hh Hl Hst. split; [done|..].
  - intros Hb. by destruct Hst as [-> | ->].
  - intros h. unfold lease_hash. rewrite Hh, Hl. by destruct (job_leased (jr_status j')).
Qed.

Ltac row_done :=
  first [apply evolves_closed; by simpl
        |apply evolves_unleased; [done| |done]; by_status; done
        |apply evolves_held; [done|done| |first [by left|by right]]; solve [done|by_status; done]].

(** ** The transactions *)

Section Evolution.
Variable sha256 : string → string.
Variable uuid_String : uuid → string.
Variable json_unmarshal : string → option Plan.

Lemma enqueue_evolves o run st d d' : enqueueCommitStatusForRun uuid_String o run st d = Ok d' → evolves d d'.
Proof. intros [He _ _]%enqueue_spec. by rewrite He. Qed.

Lemma unblock_evolves run d : evolves d (unblock_jobs run d).
Proof. apply update_evolves. intros j Hp. bools. row_done. Qed.

Lemma skip_evolves run d : evolves d (skip_jobs run d).
Proof. apply update_evolves. intros j Hp. row_done. Qed.

Lemma cancel_evolves run d : evolves d (cancel_jobs run d).
Proof. apply update_evolves. intros j Hp. row_done. Qed.

Lemma complete_row_evolves p outcome d d' n :
  job_outcome outcome = true → complete_row p outcome d = (d', n) → evolves d d'.
Proof. intros Ho Hu. eapply update_evolves_eq; [exact Hu|]. intros j Hp. destruct outcome; try done; row_done. Qed.

Lemma finalize_evolves o run outcome d d' :
  finalizeRunJobs uuid_String o run outcome d = Ok d' → evolves d d'.
Proof.
  unfold finalizeRunJobs. cbv zeta. set (d1 := if outcome =? JobSucceeded then _ else _).
  assert (H1 : evolves d d1).
  { unfold d1. destruct (outcome =? JobSucceeded); [apply unblock_evolves|]. destruct (_ || _); [apply skip_evolves|done]. }
  destruct (_ <>? 0); [by intros [= <-]|]. intros He%enqueue_evolves. by etrans.
Qed.

Lemma insertRun_evolves o ids record d d' :
  insertRun uuid_String json_unmarshal o ids record d = Ok d' → evolves d d'.
Proof.
  unfold insertRun. destruct (_ || _); [done|]. cbv zeta. destruct (json_unmarshal _) as [plan|]; [|done].
  destruct (_ || _) eqn:Hg; [done|]. intros He%enqueue_evolves. etrans; [|exact He].
  cbn [db_jobs with_jobs with_runs db_now] in *. apply orb_false_iff in Hg as [_ Hg]. bools.
  apply append_evolves; [|done]. apply Forall_forall. intros j (i & [stage job] & -> & _)%elem_of_lookup_imap.
  unfold lease_hash, new_row. simpl. by destruct (length _ =? 0)%nat.
Qed.

Lemma PgCreate_evolves o ids record d : evolves d (PgCreate uuid_String json_unmarshal o ids record d).1.
Proof.
  apply transaction_evolves. intros d' a. destruct (insertRun _ _ _ _ _ _) as [d1|] eqn:Hi; [|done].
  intros [= <- _]. by eapply insertRun_evolves.
Qed.

Lemma locked_evolves waited token projectID runID action d d' session r :
  lockAuthorizedRun sha256 waited token projectID runID action d = Ok (d', session, r) → evolves d d'.
Proof. by intros [-> _]%lockAuthorizedRun_spec. Qed.

Lemma CreateAuthorizedRun_evolves waited o ids token projectID record d :
  evolves d (CreateAuthorizedRun sha256 uuid_String json_unmarshal waited o ids token projectID record d).1.
Proof.
  apply transaction_evolves. intros d' a. destruct (authenticateSession _ _ _) as [s|]; [|done]. cbn [rbind].
  destruct (authorize _ _ _ _) as [[]|]; [|done]. cbn [rbind]. cbv zeta.
  destruct (sessionLive _ _) as [[]|]; [|done]. cbn [rbind].
  destruct (insertRun _ _ _ _ _ _) as [d1|] eqn:Hi; [|done]. intros [= <- _].
  by apply insertRun_evolves in Hi.
Qed.

Lemma reuse_evolves next run d : evolves d (reuse_jobs next run d).
Proof. apply update_evolves. intros j Hp. row_done. Qed.

Lemma RerunAuthorizedRun_evolves waited now o next_id ids token projectID runID mode requestID d :
  evolves d (RerunAuthorizedRun sha256 uuid_String json_unmarshal waited now o next_id ids token projectID runID
               mode requestID d).1.
Proof.
  unfold RerunAuthorizedRun. destruct (_ || _); [done|]. apply transaction_evolves. intros d' a.
  destruct (lockAuthorizedRun _ _ _ _ _ _ _) as [[[d1 s] r]|] eqn:Hl; [|done]. cbn [rbind].
  apply locked_evolves in Hl. destruct (_ || _); [done|]. cbv zeta.
  destruct (list_find _ _) as [[k previous]|]; [by intros [= <- _]|]. destruct (_ =? 0); [done|].
  destruct (insertRun _ _ _ _ _ _) as [d2|] eqn:Hi; [|done]. cbn [rbind]. apply insertRun_evolves in Hi.
  intros [= <- _]. etrans; [exact Hl|]. etrans; [exact Hi|]. cbn [append_audit with_audit db_jobs].
  destruct (mode =? "failed"); [|done]. etrans; [|apply unblock_evolves].
  apply (reuse_evolves next_id runID (with_reruns (<[next_id:=(runID, mode)]> (db_reruns d2)) d2)).
Qed.

Lemma CancelAuthorizedRun_evolves waited o token projectID runID d :
  evolves d (CancelAuthorizedRun sha256 uuid_String waited o token projectID runID d).1.
Proof.
  apply transaction_evolves. intros d' a.
  destruct (lockAuthorizedRun _ _ _ _ _ _ _) as [[[d1 s] r]|] eqn:Hl; [|done]. cbn [rbind].
  apply locked_evolves in Hl. destruct (Terminal _); [by intros [= <- _]|]. cbv zeta.
  destruct (enqueueCommitStatusForRun _ _ _ _ _) as [d2|] eqn:Hq; [|done]. intros [= <- _].
  apply enqueue_evolves in Hq. etrans; [exact Hl|]. etrans; [apply (cancel_evolves runID)|exact Hq].
Qed.

Lemma PgStartJob_evolves id token d : evolves d (PgStartJob sha256 id token d).1.
Proof.
  apply transaction_evolves. intros d' []. destruct (update_jobs _ _ d) as [d1 n] eqn:Hu.
  destruct (n <>? 1); intros [= <-]. eapply update_evolves_eq; [exact Hu|]. intros j Hp. cbv beta in Hp. bools. row_done.
Qed.

Lemma PgCompleteJob_evolves o id token outcome d :
  evolves d (PgCompleteJob sha256 uuid_String o id token outcome d).1.
Proof.
  unfold PgCompleteJob. destruct (negb _) eqn:Ho; [done|]. apply transaction_evolves. intros d' [].
  destruct (list_find _ _) as [[i job]|]; [|done]. destruct (complete_row _ _ d) as [d1 n] eqn:Hc.
  destruct (n =? 0); [done|]. destruct (finalizeRunJobs _ _ _ _ d1) as [d2|] eqn:Hf; intros [= <-].
  etrans; [eapply complete_row_evolves; [by bools|exact Hc]|by eapply finalize_evolves].
Qed.

Lemma PgCompleteRunnerJob_evolves o q d : evolves d (PgCompleteRunnerJob sha256 uuid_String o q d).1.
Proof.
  unfold PgCompleteRunnerJob. destruct (_ || _); [done|]. destruct (negb _) eqn:Ho; [done|].
  apply transaction_evolves. intros d' []. destruct (list_find _ _) as [[i job]|]; [|done].
  destruct (complete_row _ _ d) as [d1 n] eqn:Hc. destruct (n =? 0); [done|].
  destruct (finalizeRunJobs _ _ _ _ d1) as [d2|] eqn:Hf; intros [= <-].
  etrans; [eapply complete_row_evolves; [by bools|exact Hc]|by eapply finalize_evolves].
Qed.

Lemma leased_row_hash now q j :
  leased_row sha256 now q j = true →
  jr_id j = lr_JobID q ∧ job_leased (jr_status j) = true ∧ lease_hash j = Some (sha256 (lr_LeaseToken q)).
Proof. intros Hl. unfold leased_row, lease_matches in Hl. unfold lease_hash. bools. by replace (job_leased (jr_status j)) with true. Qed.

Lemma PgAcknowledge_evolves q d : evolves d (PgAcknowledgeRunnerJob sha256 q d).1.
Proof.
  unfold PgAcknowledgeRunnerJob. destruct (negb _); [done|]. apply transaction_evolves. intros d' a.
  destruct (update_jobs _ _ d) as [d1 n] eqn:Hu. destruct (n =? 0); intros [= <- _].
  eapply update_evolves_eq; [exact Hu|]. intros j (_ & Hl & _)%leased_row_hash. row_done.
Qed.

Lemma PgStartRunnerJob_evolves q d : evolves d (PgStartRunnerJob sha256 q d).1.
Proof.
  unfold PgStartRunnerJob. destruct (negb _); [done|]. apply transaction_evolves. intros d' a.
  destruct (update_jobs _ _ d) as [d1 n] eqn:Hu. destruct (n =? 0); intros [= <- _].
  eapply update_evolves_eq; [exact Hu|]. intros j [(_ & Hl & _)%leased_row_hash _]%andb_true_iff. row_done.
Qed.

Lemma PgReleaseRunnerJob_evolves q d : evolves d (PgReleaseRunnerJob sha256 q d).1.
Proof.
  unfold PgReleaseRunnerJob. destruct (negb _); [done|]. apply transaction_evolves. intros d' [].
  destruct (update_jobs _ _ d) as [d1 n] eqn:Hu. destruct (n <>? 1); intros [= <-].
  eapply update_evolves_eq; [exact Hu|]. intros j Hp. cbv beta in Hp. bools. row_done.
Qed.

Lemma renew_row_evolves r now expires a d : evolves d (renew_row sha256 r now expires a d).1.
Proof.
  unfold renew_row. destruct (update_jobs _ _ d) as [d1 n] eqn:Hu. destruct (n =? 1); cbn [fst];
    (eapply update_evolves_eq; [exact Hu|]; intros j (_ & Hl & _)%leased_row_hash; row_done).
Qed.

Lemma renew_rows_evolves r now expires active d : evolves d (renew_rows sha256 r now expires active d).1.
Proof.
  revert d. induction active as [|a active IH]; intros d; [done|]. cbn [renew_rows].
  pose proof (renew_row_evolves r now expires a d) as H1. destruct (renew_row _ _ _ _ _ d) as [d1 l].
  specialize (IH d1). destruct (renew_rows _ _ _ _ _ d1) as [d2 ls]. by etrans.
Qed.

Lemma PgRenew_evolves `{MapOrder} q d : evolves d (PgRenewRunnerLeases sha256 q d).1.
Proof.
  unfold PgRenewRunnerLeases. destruct (negb _); [done|]. apply transaction_evolves. intros d' a.
  destruct (db_runners d !! _) as [ru|]; [|done]. destruct (_ || _); [done|]. set (d1 := with_runners _ d).
  pose proof (renew_rows_evolves (rd_ID (hb_Runner q)) (db_now d1) (db_now d1 + 30 * Second) (hb_ActiveJobs q) d1) as Hr.
  destruct (renew_rows _ _ _ _ _ d1) as [d2 rs]. by intros [= <- _].
Qed.

(** *** Recovery *)

Lemma recover_row_evolves run job state :
  evolves state.1.1.1 (recover_row run job state).1.1.1.
Proof.
  destruct state as [[[d r] processed] failedRun]. unfold recover_row. cbn [fst].
  destruct (_ =? JobAssigned); destruct (update_jobs _ _ d) as [d1 n] eqn:Hu.
  - assert (H1 : evolves d d1).
    { eapply update_evolves_eq; [exact Hu|]. intros j Hp. cbv beta in Hp. bools. row_done. }
    by destruct (n <>? 1).
  - assert (H1 : evolves d d1).
    { eapply update_evolves_eq; [exact Hu|]. intros j Hp. cbv beta in Hp. row_done. }
    destruct (n <>? 1); [done|]. cbn [fst append_audit with_audit db_jobs]. etrans; [exact H1|].
    apply update_evolves. intros j Hp. row_done.
Qed.

Lemma recover_loop_evolves run jobs state :
  evolves state.1.1.1 (foldl (λ state job, recover_row run job state) state jobs).1.1.1.
Proof.
  revert state. induction jobs as [|job jobs IH]; intros state; [done|]. cbn [foldl].
  etrans; [apply (recover_row_evolves run job)|apply IH].
Qed.

Lemma recover_runs_evolves locked outbox_ids limit runIDs processed r d d' r' :
  recover_runs uuid_String locked outbox_ids limit runIDs processed r d = Ok (d', r') → evolves d d'.
Proof.
  revert processed r d. induction runIDs as [|run runIDs IH]; intros processed r d; cbn [recover_runs].
  { by intros [= <- _]. }
  destruct (limit <=? processed); [by intros [= <- _]|]. destruct (_ || _); [apply IH|]. cbv zeta.
  set (jobs := expired_rows _ _ _ _).
  pose proof (recover_loop_evolves run jobs (d, r, processed, false)) as Hl.
  destruct (foldl _ _ _) as [[[d1 r1] processed1] failedRun]. cbn [fst] in Hl. destruct failedRun.
  - destruct (enqueueCommitStatusForRun _ _ _ _ _) as [d2|] eqn:Hq; [|done]. cbn [rbind]. intros He%IH.
    apply enqueue_evolves in Hq. etrans; [exact Hl|]. etrans; [exact Hq|exact He].
  - intros He%IH. etrans; [exact Hl|]. by destruct (0 <? length jobs)%nat.
Qed.

Lemma PgRecover_evolves locked outbox_ids limit d :
  evolves d (PgRecoverExpiredRunnerLeases uuid_String locked outbox_ids limit d).1.
Proof.
  unfold PgRecoverExpiredRunnerLeases. destruct (_ || _); [done|].
  apply transaction_evolves. intros d' r. apply recover_runs_evolves.
Qed.

(** *** All transactions but the claims *)

Definition is_claim (o : pg_op) : bool :=
  match o with PClaimJob _ _ _ | PClaimRunnerJob _ _ _ => true | _ => false end.

Lemma AppendLogChunk_evolves c d : evolves d (AppendLogChunk sha256 c d).1.
Proof.
  unfold AppendLogChunk. destruct (negb _); [done|]. apply transaction_evolves. intros d' a.
  destruct (list_find _ _) as [[i job]|]; [|done]. cbv zeta.
  destruct (_ <=? _); [done|]. destruct (_ <? _).
  - destruct (_ !! _) as [k|]; [|done]. destruct (k <>? _); by intros [= <- _].
  - destruct (_ <>? _); [done|]. destruct (_ || _); by intros [= <- _].
Qed.

(** Transactions that do not touch the rows of jobs. *)
Lemma jobs_evolves d d' : db_jobs d' = db_jobs d → evolves d d'.
Proof. by intros ->. Qed.

Lemma update_outbox_jobs p f d d' n : update_outbox p f d = (d', n) → db_jobs d' = db_jobs d.
Proof. by intros [= <- _]. Qed.

Lemma GetAuthorizedRun_evolves w token p run d : evolves d (GetAuthorizedRun sha256 w token p run d).1.
Proof.
  apply transaction_evolves. intros d' a. destruct (lockAuthorizedRun _ _ _ _ _ _ _) as [[[d1 s] r]|] eqn:Hl; [|done].
  apply locked_evolves in Hl. cbn [rbind]. cbv zeta. destruct (_ <? _)%nat; by intros [= <- _].
Qed.

Lemma ListAuthorizedRuns_evolves w token p limit d : evolves d (ListAuthorizedRuns sha256 w token p limit d).1.
Proof.
  apply transaction_evolves. intros d' a. destruct (authenticateSession _ _ _) as [s|]; [|done]. cbn [rbind].
  destruct (authorize _ _ _ _) as [[]|]; [|done]. cbn [rbind]. cbv zeta.
  destruct (sessionLive _ _) as [[]|]; [|done]. by intros [= <- _].
Qed.

Lemma ReadAuthorizedLogs_evolves w token p run job after d :
  evolves d (ReadAuthorizedLogs sha256 w token p run job after d).1.
Proof.
  unfold ReadAuthorizedLogs. destruct (_ || _); [done|]. apply transaction_evolves. intros d' a.
  destruct (lockAuthorizedRun _ _ _ _ _ _ _) as [[[d1 s] r]|] eqn:Hl; [|done].
  apply locked_evolves in Hl. cbn [rbind]. destruct (list_find _ _) as [[k j]|]; [|done]. cbv zeta.
  destruct (_ <=? _); by intros [= <- _].
Qed.

Lemma ClaimCommitStatus_jobs locked owner lease d : db_jobs (ClaimCommitStatus locked owner lease d).1 = db_jobs d.
Proof.
  unfold ClaimCommitStatus, transaction. destruct (_ || _); [done|]. destruct (candidate_status _ _); [|done].
  by destruct (_ <? _).
Qed.

Lemma RecoverCommitStatus_jobs locked limit d : db_jobs (RecoverCommitStatusLeases locked limit d).1 = db_jobs d.
Proof. unfold RecoverCommitStatusLeases. by destruct (_ || _). Qed.

Lemma FinishCommitStatus_jobs id owner d : db_jobs (FinishCommitStatus id owner d).1 = db_jobs d.
Proof.
  unfold FinishCommitStatus. destruct (_ || _); [done|]. destruct (update_outbox _ _ d) as [d1 n] eqn:Hu.
  destruct (n <>? 1); by eapply update_outbox_jobs.
Qed.

Lemma RescheduleCommitStatus_jobs id owner available code dead d :
  db_jobs (RescheduleCommitStatus id owner available code dead d).1 = db_jobs d.
Proof.
  unfold RescheduleCommitStatus. destruct (_ || _); [done|]. cbv zeta.
  destruct (update_outbox _ _ d) as [d1 n] eqn:Hu. destruct (n <>? 1); by eapply update_outbox_jobs.
Qed.

Lemma ReplayCommitStatus_jobs id actor d : db_jobs (ReplayCommitStatus id actor d).1 = db_jobs d.
Proof.
  unfold ReplayCommitStatus, transaction. destruct (_ || _); [done|].
  destruct (update_outbox _ _ d) as [d1 n] eqn:Hu. apply update_outbox_jobs in Hu. by destruct (n <>? 1).
Qed.

Lemma IssueSession_jobs id value userID ttl d : db_jobs (IssueSession sha256 id value userID ttl d).1 = db_jobs d.
Proof.
  unfold IssueSession, transaction, issueSession. destruct (_ || _); [done|].
  destruct (_ !! userID) as [user|]; [|done]. destruct (negb _); [done|]. cbv zeta. by case_bool_decide.
Qed.

Lemma RevokeSession_jobs token d : db_jobs (RevokeSession sha256 token d).1 = db_jobs d.
Proof.
  unfold RevokeSession. destruct (TokenDigest _ _); [|done]. unfold transaction.
  by destruct (list_find _ _) as [[i row]|].
Qed.

Lemma ChangeMembership_evolves w id token subject scope role add d :
  evolves d (ChangeMembership sha256 w id token subject scope role add d).1.
Proof.
  unfold ChangeMembership. destruct (_ || _); [done|]. destruct (negb _); [done|].
  apply transaction_evolves. intros d' a. destruct (authenticateSession _ _ _) as [s|]; [|done]. cbn [rbind].
  destruct (_ =? _); [done|]. destruct (authorize _ _ _ _) as [[]|]; [|done]. cbn [rbind].
  destruct (_ !! subject) as [row|]; [|done]. destruct (_ && _); [done|]. cbv zeta.
  destruct (sessionLive _ _) as [[]|]; [|done]. cbn [rbind].
  destruct add, (List.filter _ _); by intros [= <- _].
Qed.

Create Rewrite HintDb same_jobs.
#[local] Hint Rewrite ClaimCommitStatus_jobs RecoverCommitStatus_jobs FinishCommitStatus_jobs
  RescheduleCommitStatus_jobs ReplayCommitStatus_jobs IssueSession_jobs RevokeSession_jobs : same_jobs.

Lemma pg_exec_evolves `{MapOrder} o d :
  is_claim o = false → evolves d (pg_exec sha256 uuid_String json_unmarshal o d).
Proof.
  destruct o; cbn [pg_exec is_claim]; intros Ho; try done;
    first [apply PgCreate_evolves|apply CreateAuthorizedRun_evolves|apply RerunAuthorizedRun_evolves
          |apply CancelAuthorizedRun_evolves|apply PgStartJob_evolves|apply PgCompleteJob_evolves
          |apply PgAcknowledge_evolves|apply PgReleaseRunnerJob_evolves|apply PgStartRunnerJob_evolves
          |apply PgRenew_evolves|apply PgCompleteRunnerJob_evolves|apply PgRecover_evolves
          |apply AppendLogChunk_evolves|apply GetAuthorizedRun_evolves
          |apply ListAuthorizedRuns_evolves|apply ReadAuthorizedLogs_evolves|apply ChangeMembership_evolves
          |apply jobs_evolves; by autorewrite with same_jobs
          |done].
Qed.

(** ** Claims *)

(** A claim leases one job that was queued, and nothing else changes. *)
Record claimed (h : string) (id : uuid) (l l' : list jobRow) : Prop := {
  cd_queued : ∃ j, j ∈ l ∧ jr_id j = id ∧ jr_status j = JobQueued;
  cd_ids : jr_id <$> l' = jr_id <$> l;
  cd_rows : ∀ j', j' ∈ l' →
    (jr_id j' = id ∧ begun (jr_status j') = false ∧ lease_hash j' = Some h) ∨ (jr_id j' ≠ id ∧ j' ∈ l);
}.

Lemma claim_claimed d job f d' n h :
  NoDup (jr_id <$> db_jobs d) → job ∈ db_jobs d → jr_status job = JobQueued →
  update_jobs (λ j, (jr_id j =? jr_id job) && (jr_status j =? JobQueued)) f d = (d', n) →
  (∀ j, jr_id (f j) = jr_id j ∧ jr_status (f j) = JobAssigned ∧ jr_lease_token_hash (f j) = Some h) →
  claimed h (jr_id job) (db_jobs d) (db_jobs d').
Proof.
  intros Hnd Hjob Hq [= <- _] Hf. cbn [db_jobs with_jobs]. unfold update_all. split.
  - by exists job.
  - rewrite <-list_fmap_compose. apply list_fmap_ext. intros i j _. simpl.
    destruct (_ && _); [apply Hf|done].
  - intros j' (j & -> & Hj)%list_elem_of_fmap. destruct ((jr_id j =? jr_id job) && (jr_status j =? JobQueued)) eqn:Hp.
    + left. destruct (Hf j) as (Hi & Hs & Hh). unfold lease_hash. rewrite Hi, Hs, Hh. by bools.
    + right. split; [|done]. intros Hid. assert (j = job) as ->; [by eapply (NoDup_key_unique jr_id)|].
      by rewrite Hq, !bool_decide_eq_true_2 in Hp.
Qed.

Lemma PgClaimRunnerJob_claimed locked token runnerID d d' r :
  NoDup (jr_id <$> db_jobs d) → PgClaimRunnerJob sha256 locked token runnerID d = (d', r) →
  match r with
  | Ok (Some a) => as_LeaseToken a = token ∧ claimed (sha256 token) (as_JobID a) (db_jobs d) (db_jobs d')
  | _ => d' = d
  end.
Proof.
  intros Hnd. unfold PgClaimRunnerJob, transaction. destruct (_ =? uuid_Nil); [by intros [= <- <-]|].
  destruct (db_runners d !! _) as [ru|]; [|by intros [= <- <-]]. destruct (_ || _); [by intros [= <- <-]|].
  destruct (_ <=? _); [by intros [= <- <-]|].
  destruct (pick_run _ _ d) as [run|]; [|by intros [= <- <-]].
  destruct (pick_job _ _ _ d) as [job|] eqn:Hjob; [|by intros [= <- <-]].
  destruct (source_of run d) as [source|e]; [|by intros [= <- <-]]. cbn [rbind]. cbv zeta.
  destruct (update_jobs _ _ d) as [d1 n] eqn:Hu. destruct (n =? 0); intros [= <- <-]; [done|].
  apply pick_job_spec in Hjob as (Hin & _ & Hq & _). split; [done|].
  by eapply (claim_claimed d job _ d1 n).
Qed.

Lemma PgClaimJob_claimed locked token now d d' r :
  NoDup (jr_id <$> db_jobs d) → PgClaimJob sha256 locked token now d = (d', r) →
  match r with
  | Ok (Some a) => as_LeaseToken a = token ∧ claimed (sha256 token) (as_JobID a) (db_jobs d) (db_jobs d')
  | _ => d' = d
  end.
Proof.
  intros Hnd. unfold PgClaimJob, transaction. destruct (pick_run _ _ d) as [run|]; [|by intros [= <- <-]].
  destruct (pick_job _ _ _ d) as [job|] eqn:Hjob; [|by intros [= <- <-]]. cbv zeta.
  destruct (update_jobs _ _ d) as [d1 n] eqn:Hu. destruct (n <>? 1); intros [= <- <-]; [done|].
  apply pick_job_spec in Hjob as (Hin & _ & Hq & _). split; [done|].
  by eapply (claim_claimed d job _ d1 n).
Qed.

(** ** Requests that succeed *)

(** A lease is live: a row carries the hash of its token. *)
Definition live (id : uuid) (h : string) (d : database) : Prop :=
  ∃ j, j ∈ db_jobs d ∧ jr_id j = id ∧ lease_hash j = Some h.

Lemma live_evolves id h d d' : evolves d d' → live id h d' → live id h d.
Proof. intros He (j' & Hj & Hi & Hh). destruct (evolves_lease _ _ _ _ He Hj Hh) as (j & ? & ? & ?). exists j. split_and!; [done|congruence|done]. Qed.

(** An update that found a row which a lease request covers. *)
Lemma update_live p f q d d' n :
  update_jobs p f d = (d', n) → n ≠ 0 → (∀ j, p j = true → leased_row sha256 (db_now d) q j = true) →
  live (lr_JobID q) (sha256 (lr_LeaseToken q)) d.
Proof.
  intros [= _ Hn] Hne Hp. destruct (List.filter p (db_jobs d)) as [|j l] eqn:Hf; [by subst n|].
  assert (Hj : In j (List.filter p (db_jobs d))) by (rewrite Hf; by left).
  apply filter_In in Hj as [Hj Hpj%Hp]. apply leased_row_hash in Hpj as (Hi & _ & Hh).
  exists j. by rewrite list_elem_of_In.
Qed.

Lemma PgAcknowledge_live q d d' l :
  PgAcknowledgeRunnerJob sha256 q d = (d', Ok l) →
  ls_JobID l = lr_JobID q ∧ live (lr_JobID q) (sha256 (lr_LeaseToken q)) d.
Proof.
  unfold PgAcknowledgeRunnerJob, transaction. destruct (negb _); [done|].
  destruct (update_jobs _ _ d) as [d1 n] eqn:Hu. case_bool_decide as Hn; intros [= _ <-].
  split; [done|]. by eapply update_live.
Qed.

Lemma PgStart_live q d d' l :
  PgStartRunnerJob sha256 q d = (d', Ok l) →
  ls_JobID l = lr_JobID q ∧ live (lr_JobID q) (sha256 (lr_LeaseToken q)) d.
Proof.
  unfold PgStartRunnerJob, transaction. destruct (negb _); [done|].
  destruct (update_jobs _ _ d) as [d1 n] eqn:Hu. case_bool_decide as Hn; intros [= _ <-].
  split; [done|]. by eapply update_live; [exact Hu|done|intros j [Hl _]%andb_true_iff].
Qed.

(** A start that succeeds leaves the job running under its lease. *)
Lemma PgStart_begun q d d' l :
  PgStartRunnerJob sha256 q d = (d', Ok l) → NoDup (jr_id <$> db_jobs d) →
  ∃ j', j' ∈ db_jobs d' ∧ jr_id j' = lr_JobID q ∧ jr_status j' = JobRunning ∧
    lease_hash j' = Some (sha256 (lr_LeaseToken q)).
Proof.
  unfold PgStartRunnerJob, transaction. destruct (negb _); [done|].
  destruct (update_jobs _ _ d) as [d1 n] eqn:Hu. case_bool_decide as Hn; intros [= <- _] Hnd.
  destruct (update_row_cases (lr_JobID q) _ _ _ _ _ Hu Hnd) as [[-> _]|(_ & i & j & Hj & Hp & ->)]; [|done|].
  { intros j [Hl _]%andb_true_iff. by apply leased_row_hash in Hl as [? _]. }
  apply andb_true_iff in Hp as [(Hid & Hl & Hh)%leased_row_hash _].
  eexists (jr_set_started _ (jr_set_status JobRunning j)). split_and!; [|done|done|].
  - apply list_elem_of_lookup. exists i. cbn [db_jobs with_jobs]. by rewrite list_lookup_alter_eq, Hj.
  - revert Hh. unfold lease_hash. by rewrite Hl.
Qed.

Lemma renew_rows_live r now expires active d d' rs x :
  renew_rows sha256 r now expires active d = (d', rs) → db_now d = now → x ∈ rs → le_Renewed x = true →
  ∃ a, a ∈ active ∧ al_JobID a = le_JobID x ∧ live (al_JobID a) (sha256 (al_LeaseToken a)) d.
Proof.
  revert d rs. induction active as [|a active IH]; intros d rs; cbn [renew_rows].
  { intros [= _ <-] _ Hx. by apply not_elem_of_nil in Hx. }
  destruct (renew_row _ _ _ _ a d) as [d1 l] eqn:H1. destruct (renew_rows _ _ _ _ active d1) as [d2 ls] eqn:H2.
  intros [= -> <-] Hnow Hx Hr. pose proof (renew_row_evolves r now expires a d) as He. rewrite H1 in He. cbn [fst] in He.
  unfold renew_row in H1. destruct (update_jobs _ _ d) as [d1' n] eqn:Hu.
  assert (Hd1 : d1 = d1') by (by destruct (n =? 1); simplify_eq). subst d1'.
  assert (Hn1 : db_now d1 = now) by (by injection Hu as <- _).
  apply elem_of_cons in Hx as [->|Hx].
  - exists a. split; [left|]. case_bool_decide as Hn; simplify_eq/=. split; [done|].
    by eapply (update_live _ _ (mkLease r (al_JobID a) (al_LeaseToken a))); [exact Hu|done|].
  - destruct (IH d1 ls H2 Hn1 Hx Hr) as (b & Hb & Hid & Hl). exists b. split; [by right|]. split; [done|].
    by eapply live_evolves.
Qed.

Lemma PgRenew_live `{MapOrder} q d d' r x :
  PgRenewRunnerLeases sha256 q d = (d', Ok r) → x ∈ hr_Jobs r → le_Renewed x = true →
  ∃ a, a ∈ hb_ActiveJobs q ∧ al_JobID a = le_JobID x ∧ live (al_JobID a) (sha256 (al_LeaseToken a)) d.
Proof.
  unfold PgRenewRunnerLeases, transaction. destruct (negb _); [done|]. destruct (db_runners d !! _) as [ru|]; [|done].
  destruct (_ || _); [done|]. destruct (renew_rows _ _ _ _ _ _) as [d2 rs] eqn:Hr. intros [= _ <-] Hx Ht.
  exact (renew_rows_live _ _ _ _ _ _ _ _ Hr eq_refl Hx Ht).
Qed.
End Evolution.
