(* ===== verification/WorkFacts.v ===== *)
(** What the two sides of a Work stream do: the answers of the control plane and the turns of
    a runner. *)

From S2P Require Import Prelude GoStd RunModel Pipeline RunnerAuth Database PgStore LeaseStore PgLease Logs LogsProps WorkProtocol WorkServer WorkDatabase WorkClient.

(** * What the control plane's answers on a Work stream say about the leases. *)

(** The leases for which a request asks to be kept: all but completions and logs. *)
Definition asks (m : WorkRequest) : list (uuid * string) :=
  match m with
  | JobCompleted _ | LogChunkSent _ _ _ => []
  | _ => presents m
  end.

(** The job that a response renews. *)
Definition renews (x : WorkResponse) : option uuid :=
  match x with ResponseLeaseRenewed id _ => id | _ => None end.

(** The job and the token that a response assigns. *)
Definition assigns (x : WorkResponse) : option (uuid * string) :=
  match x with
  | ResponseAssignment (Some a) => (λ id, (id, ja_LeaseToken a)) <$> ja_JobId a
  | _ => None
  end.

Lemma elem_of_presents_heartbeat h id token :
  (id, token) ∈ presents (Heartbeat (Some h)) ↔ ∃ st, Some (mkWireLease (Some id) token st) ∈ wh_ActiveLeases h.
Proof.
  cbn [presents]. rewrite list_elem_of_join. split.
  - intros (l & Hin & (w & -> & Hw)%list_elem_of_fmap).
    destruct w as [[[id'|] token' st]|]; simpl in Hin; [|by apply not_elem_of_nil in Hin..].
    apply list_elem_of_singleton in Hin. simplify_eq. by exists st.
  - intros [st Hst]. exists [(id, token)]. split; [left|].
    apply list_elem_of_fmap. by exists (Some (mkWireLease (Some id) token st)).
Qed.

Section Facts.
Context `{MapOrder}.
Variable sha256 : string → string.
Variable uuid_String : uuid → string.
Variable locked : uuid → bool.
Variable outbox_id : uuid.

Abbreviation store := (pg_store sha256 uuid_String locked outbox_id).

Lemma heartbeat_request_leases found h q a :
  heartbeat_request found (Some h) = Some q → a ∈ hb_ActiveJobs q → (al_JobID a, al_LeaseToken a) ∈ presents (Heartbeat (Some h)).
Proof.
  unfold heartbeat_request. destruct (wh_Capabilities h) as [input|]; [|done]. destruct (_ || _); [done|].
  destruct (capabilities _ _) as [c|]; [|done]. destruct (_ || _); [done|].
  destruct (mapM active_lease _) as [jobs|] eqn:Hm; [|done]. intros [= <-] Ha. cbn [hb_ActiveJobs] in Ha.
  apply elem_of_presents_heartbeat. apply mapM_Some in Hm.
  apply list_elem_of_lookup in Ha as [i Hi]. destruct (Forall2_lookup_r _ _ _ _ _ Hm Hi) as (w & Hw & Hl).
  unfold active_lease in Hl. destruct w as [[[id|] token st]|]; [|done..].
  destruct (_ || _); [done|]. injection Hl as <-. exists st. by eapply list_elem_of_lookup_2.
Qed.

Lemma handleLog_evolves q c d : rows_evolve (db_jobs d) (db_jobs (handleLog sha256 q c d).1).
Proof.
  unfold handleLog. destruct (_ || _); [done|]. cbv zeta. destruct (negb _); [done|].
  match goal with |- context [AppendLogChunk sha256 ?x d] => pose proof (AppendLogChunk_evolves sha256 x d) as He end.
  by destruct (AppendLogChunk _ _ d).
Qed.

(** What every request does to the rows, and which leases its answers renew. *)
Lemma Work_spec found m d d' r :
  Work sha256 store found (Some m) d = (d', r) →
  rows_evolve (db_jobs d) (db_jobs d') ∧
  ∀ rs x, r = Ok rs → x ∈ rs → assigns x = None ∧
    ∀ id, renews x = Some id → ∃ token, (id, token) ∈ asks m ∧ live id (sha256 token) d.
Proof.
  destruct m as [[h|]|[[id|] token]|[[id|] token]|[c|]|[id|] token chunk]; cbn [Work handleReceipt handleCompletion work_log rm_JobId rm_LeaseToken].
  - unfold handleHeartbeat. destruct (heartbeat_request found (Some h)) as [q|] eqn:Hq; [|by intros [= <- <-]].
    pose proof (PgRenew_evolves sha256 q d) as He. destruct (PgRenewRunnerLeases sha256 q d) as [d1 [hr|e]] eqn:Hr;
      intros [= <- <-]; (split; [exact He|]); [|done].
    intros rs x [= <-] (l & -> & Hl)%list_elem_of_fmap. unfold lease_response.
    destruct (le_Renewed l) eqn:Hren; [|done]. split; [done|]. intros id [= <-].
    destruct (PgRenew_live _ _ _ _ _ _ Hr Hl Hren) as (a & Ha & Hid & Hlive). exists (al_LeaseToken a).
    rewrite <-Hid. split; [|done]. by eapply heartbeat_request_leases.
  - by intros [= <- <-].
  - destruct (_ <? _); [by intros [= <- <-]|]. cbn [acknowledge pg_store].
    pose proof (PgAcknowledge_evolves sha256 (mkLease (id_RunnerID found) id token) d) as He.
    destruct (PgAcknowledgeRunnerJob _ _ d) as [d1 [l|e]] eqn:Hr; intros [= <- <-]; (split; [exact He|]); [|done].
    intros rs x [= <-] ->%list_elem_of_singleton. split; [done|]. intros id' [= <-].
    apply PgAcknowledge_live in Hr as [Hid Hl]. cbn in Hid, Hl. exists token. rewrite Hid. split; [left|done].
  - by intros [= <- <-].
  - destruct (_ <? _); [by intros [= <- <-]|]. cbn [start pg_store].
    pose proof (PgStartRunnerJob_evolves sha256 (mkLease (id_RunnerID found) id token) d) as He.
    destruct (PgStartRunnerJob _ _ d) as [d1 [l|e]] eqn:Hr; intros [= <- <-]; (split; [exact He|]); [|done].
    intros rs x [= <-] ->%list_elem_of_singleton. split; [done|]. intros id' [= <-].
    apply PgStart_live in Hr as [Hid Hl]. cbn in Hid, Hl. exists token. rewrite Hid. split; [left|done].
  - by intros [= <- <-].
  - destruct (_ <? _); [by intros [= <- <-]|]. destruct (wp_JobId c) as [id|]; [|by intros [= <- <-]].
    destruct (completion_status _) as [st|]; [|by intros [= <- <-]]. cbn [complete pg_store].
    pose proof (PgCompleteRunnerJob_evolves sha256 uuid_String outbox_id (mkCompletion (id_RunnerID found) id (wp_LeaseToken c) st) d) as He.
    destruct (PgCompleteRunnerJob _ _ _ _ d) as [d1 [l|e]]; intros [= <- <-]; (split; [exact He|]); [|done].
    by intros rs x [= <-] Hx%not_elem_of_nil.
  - by intros [= <- <-].
  - pose proof (handleLog_evolves (mkLease (id_RunnerID found) id token) chunk d) as He.
    destruct (handleLog _ _ _ d) as [d1 [|]]; intros [= <- <-]; (split; [exact He|]); [|done].
    by intros rs x [= <-] ->%list_elem_of_singleton.
  - by intros [= <- <-].
Qed.

Lemma Work_receipt found started id token d d' rs :
  Work sha256 store found (Some ((if (started : bool) then JobStarted else JobAccepted) (mkReceipt (Some id) token))) d = (d', Ok rs) →
  ∃ expires, rs = [ResponseLeaseRenewed (Some id) expires].
Proof.
  destruct started; cbn [Work handleReceipt rm_JobId rm_LeaseToken]; (destruct (_ <? _); [done|]).
  - cbn [start pg_store]. destruct (PgStartRunnerJob _ _ d) as [d1 [l|e]] eqn:Hr; intros [= _ <-].
    apply PgStart_live in Hr as [-> _]. by eexists.
  - cbn [acknowledge pg_store]. destruct (PgAcknowledgeRunnerJob _ _ d) as [d1 [l|e]] eqn:Hr; intros [= _ <-].
    apply PgAcknowledge_live in Hr as [-> _]. by eexists.
Qed.

Lemma Work_started found id token d d' rs :
  NoDup (jr_id <$> db_jobs d) →
  Work sha256 store found (Some (JobStarted (mkReceipt (Some id) token))) d = (d', Ok rs) →
  ∃ j', j' ∈ db_jobs d' ∧ jr_id j' = id ∧ jr_status j' = JobRunning ∧ lease_hash j' = Some (sha256 token).
Proof.
  intros Hnd. cbn [Work handleReceipt rm_JobId rm_LeaseToken start pg_store]. destruct (_ <? _); [done|].
  destruct (PgStartRunnerJob _ _ d) as [d1 [l|e]] eqn:Hr; intros [= <- _].
  by destruct (PgStart_begun _ _ _ _ _ Hr Hnd) as (j' & ? & ? & ? & ?); exists j'.
Qed.

(** The second half of a turn of the claim loop. *)
Lemma fail_assignment_spec permanent r a d :
  rows_evolve (db_jobs d) (db_jobs (@fail_assignment _ store permanent r a d).1) ∧
  is_ok (@fail_assignment _ store permanent r a d).2 = false.
Proof.
  unfold fail_assignment. cbn [complete release pg_store]. destruct permanent.
  - set (q := completion_of _ _). pose proof (PgCompleteRunnerJob_evolves sha256 uuid_String outbox_id q d) as He.
    by destruct (PgCompleteRunnerJob _ _ _ q d) as [d1 [[]|e]].
  - set (q := mkLease _ _ _). pose proof (PgReleaseRunnerJob_evolves sha256 q d) as He.
    by destruct (PgReleaseRunnerJob _ q d) as [d1 [[]|e]].
Qed.

Lemma issue_turn_spec encode_plan credentials now r a d d' res :
  @issue_turn _ store encode_plan credentials now r a d = (d', res) →
  rows_evolve (db_jobs d) (db_jobs d') ∧
  ∀ message, res = Ok message → assigns (ResponseAssignment (Some message)) = Some (as_JobID a, as_LeaseToken a).
Proof.
  assert (Hfail : ∀ permanent d' res, @fail_assignment _ store permanent r a d = (d', res) →
    rows_evolve (db_jobs d) (db_jobs d') ∧
    ∀ message, res = Ok message → assigns (ResponseAssignment (Some message)) = Some (as_JobID a, as_LeaseToken a)).
  { intros p d1 res1 Hf. destruct (fail_assignment_spec p r a d) as [He Hok]. rewrite Hf in He, Hok. split; [done|].
    by intros message ->. }
  unfold issue_turn, attachSourceCredential. destruct (encode_plan _) as [plan|]; [|by intros [= <- <-]].
  destruct (_ <? _); [by intros [= <- <-]|]. cbv zeta. destruct (as_Source a) as [source|]; [|intros [= <- <-]; split; [done|by intros ? [= <-]]].
  destruct credentials as [issuer|]; [|apply Hfail]. destruct (_ || _); [apply Hfail|].
  destruct (issue_credential _ _ _ _) as [credential|[|]]; [|apply Hfail|apply Hfail].
  destruct (_ || _); [apply Hfail|]. destruct (_ && _); [apply Hfail|].
  intros [= <- <-]. split; [done|]. by intros ? [= <-].
Qed.

Lemma claim_turn_spec token r d d' res :
  NoDup (jr_id <$> db_jobs d) → @claim_turn _ store token r d = (d', res) →
  match res with
  | Ok (Some a) => as_LeaseToken a = token ∧ claimed (sha256 token) (as_JobID a) (db_jobs d) (db_jobs d')
  | _ => d' = d
  end.
Proof.
  intros Hnd. unfold claim_turn. cbn [claim pg_store].
  destruct (PgClaimRunnerJob _ _ _ _ d) as [d1 res1] eqn:Hc. apply PgClaimRunnerJob_claimed in Hc; [|done].
  destruct res1 as [[a|]|e]; intros [= <- <-]; done.
Qed.
End Facts.

(** * What a turn of a runner's work loop does to its jobs: it takes a new one, moves one
    from acceptance to start or from start to execution, or leaves the waiting ones alone. *)

Definition waiting (p : localJobPhase) : bool :=
  (p =? jobAwaitingAcceptance) || (p =? jobAwaitingStart).

(** The jobs are stored under their identifiers. *)
Definition keyed (s : workState) : Prop := ∀ id job, wk_active s !! id = Some job → lj_id job = id.

(** The same lease, and a phase that has changed only to one that does not wait. *)
Record continues (j j' : localJob) : Prop := {
  cn_id : lj_id j' = lj_id j;
  cn_token : lj_leaseToken j' = lj_leaseToken j;
  cn_phase : lj_phase j' = lj_phase j ∨ waiting (lj_phase j') = false;
}.

#[export] Instance continues_refl : Reflexive continues.
Proof. intros j. split; auto. Qed.

(** Jobs may end or go on, and what is sent about a waiting job is no answer that it waits for. *)
Record settles (s s' : workState) (messages : list WorkRequest) : Prop := {
  sl_jobs : ∀ id job', wk_active s' !! id = Some job' → ∃ job, wk_active s !! id = Some job ∧ continues job job';
  sl_sent : ∀ m id token, m ∈ messages → (id, token) ∈ presents m →
    ∃ job, wk_active s !! id = Some job ∧ lj_leaseToken job = token ∧
      ((id, token) ∈ asks m → waiting (lj_phase job) = false);
  sl_executions : (length (wk_executions s') ≤ length (wk_executions s))%nat;
}.

(** The turns; [x] is the response that was consumed. *)
Inductive moves (s : workState) (x : option WorkResponse) (s' : workState) (messages : list WorkRequest) : Prop :=
| mv_settles : settles s s' messages → moves s x s' messages
| mv_accept y id job :
    x = Some y → assigns y = Some (id, lj_leaseToken job) → wk_active s !! id = None → lj_id job = id →
    lj_phase job = jobAwaitingAcceptance → wk_active s' = <[id := job]> (wk_active s) →
    messages = [acceptedRequest job] → wk_executions s' = wk_executions s → moves s x s' messages
| mv_again y id job :
    x = Some y → assigns y = Some (id, lj_leaseToken job) → wk_active s !! id = Some job → moves s x s' messages
| mv_start y id job job' :
    x = Some y → renews y = Some id → wk_active s !! id = Some job → continues job (lj_set_phase (lj_phase job) job') →
    lj_phase job = jobAwaitingAcceptance → lj_phase job' = jobAwaitingStart →
    wk_active s' = <[id := job']> (wk_active s) → messages = [startedRequest job'] →
    wk_executions s' = wk_executions s → moves s x s' messages
| mv_run y id job job' :
    x = Some y → renews y = Some id → wk_active s !! id = Some job → continues job job' →
    lj_phase job = jobAwaitingStart → lj_phase job' = jobRunning →
    wk_active s' = <[id := job']> (wk_active s) → messages = [] →
    wk_executions s' = (id, lj_leaseToken job) :: wk_executions s → moves s x s' messages.

(** ** Settled turns *)

Lemma settles_same s : settles s s [].
Proof. split; [intros id job Hj; by exists job|by intros m id t ?%not_elem_of_nil|done]. Qed.

Lemma settles_send s m :
  (∀ id token, (id, token) ∈ presents m → ∃ job, wk_active s !! id = Some job ∧ lj_leaseToken job = token ∧
     ((id, token) ∈ asks m → waiting (lj_phase job) = false)) → settles s s [m].
Proof.
  intros Hm. split; [intros id job Hj; by exists job| |done]. intros m' id t ->%list_elem_of_singleton. apply Hm.
Qed.

Lemma settles_forget id s : settles s (forgetJob id s) [].
Proof.
  split; [|by intros m i t ?%not_elem_of_nil|done]. intros i job. cbn [forgetJob wk_with_active wk_active].
  intros [_ Hj]%lookup_delete_Some. by exists job.
Qed.

Lemma settles_forget_known id s : settles s (forget_known id s) [].
Proof. unfold forget_known. destruct (_ !! id) as [job|]; [apply settles_forget|apply settles_same]. Qed.

Lemma settles_put s id job job' messages :
  wk_active s !! id = Some job → lj_id job = id → continues job job' →
  (∀ m i t, m ∈ messages → (i, t) ∈ presents m → i = id ∧ t = lj_leaseToken job ∧ ((i, t) ∉ asks m)) →
  settles s (put_job job' s) messages.
Proof.
  intros Hj Hid Hc Hm. split; [| |done].
  - intros i k. cbn [put_job wk_with_active wk_active]. rewrite (cn_id _ _ Hc), Hid. intros [[<- <-]|[_ Hk]]%lookup_insert_Some;
      [by exists job|by exists k].
  - intros m i t Hin Hp. destruct (Hm m i t Hin Hp) as (-> & -> & Hn). exists job. split; [done|]. by split.
Qed.

Ltac no_messages := intros ? ? ? ?%not_elem_of_nil; done.

(** ** The turns of the loop *)

Lemma arm_continues now j j' ok : armLeaseDeadline now j = (j', ok) → lj_id j' = lj_id j ∧ lj_leaseToken j' = lj_leaseToken j ∧ lj_phase j' = lj_phase j.
Proof. unfold armLeaseDeadline. destruct (_ || _); by intros [= <- _]. Qed.

Lemma reset_continues now j j' ok : resetLeaseDeadline now j = (j', ok) → lj_id j' = lj_id j ∧ lj_leaseToken j' = lj_leaseToken j ∧ lj_phase j' = lj_phase j.
Proof.
  unfold resetLeaseDeadline. destruct (lj_authorityLost j); [by intros [= <- _]|].
  destruct (lj_leaseTimer j); [apply arm_continues|by intros H%arm_continues|by intros [= <- _]].
Qed.

Section Moves.
Variable url_Parse : string → option parsedURL.
Variable decode_plan : bytes → option PlanJob.

Lemma decodeAssignment_spec now a job :
  decodeAssignment url_Parse decode_plan now a = Ok job →
  ∃ b, a = Some b ∧ ja_JobId b = Some (lj_id job) ∧ lj_leaseToken job = ja_LeaseToken b ∧
    lj_phase job = jobAwaitingAcceptance.
Proof.
  unfold decodeAssignment. destruct a as [b|]; [|done]. cbv zeta. destruct (_ || _); [done|].
  destruct (ja_LeaseExpiresAt b) as [e|]; [|done]. destruct (ja_JobId b) as [id|] eqn:Hid; [|done].
  destruct (ja_RunId b); [|done]. destruct (negb _); [done|]. destruct (decode_plan _) as [plan|]; [|done].
  destruct (_ =? ""); [done|]. destruct (decodeSource _ _ _ _) as [source|]; [|done]. cbn [rbind].
  intros [= <-]. by exists b.
Qed.

Lemma handle_assignment_moves capacity now a s s' messages e :
  handle_assignment url_Parse decode_plan capacity now a s = (s', messages, e) →
  moves s (Some (ResponseAssignment a)) s' messages ∧ (e ≠ None → settles s s' messages).
Proof.
  unfold handle_assignment. destruct (decodeAssignment _ _ _ _) as [job|err] eqn:Hd;
    [|intros [= <- <- <-]; split; [apply mv_settles|intros _]; apply settles_same].
  apply decodeAssignment_spec in Hd as (b & -> & Hid & Htok & Hph).
  destruct (wk_active s !! lj_id job) as [existing|] eqn:Hex.
  - case_bool_decide as Heq; simpl; intros [= <- <- <-]; [|split; [apply mv_settles|intros _]; apply settles_same].
    split; [|done]. eapply (mv_again _ _ _ _ _ (lj_id job) existing); [done| |done].
    cbn [assigns]. by rewrite Hid, Heq, Htok.
  - destruct (_ <=? _); [intros [= <- <- <-]; split; [apply mv_settles|intros _]; apply settles_same|].
    destruct (armLeaseDeadline now job) as [job' [|]] eqn:Harm; intros [= <- <- <-];
      [|split; [apply mv_settles|intros _]; apply settles_same].
    apply arm_continues in Harm as (Hi & Ht & Hp). split; [|done].
    apply (mv_accept _ _ _ _ (ResponseAssignment (Some b)) (lj_id job) job'); try done.
    + cbn [assigns]. by rewrite Hid, Ht, Htok.
    + by rewrite Hp.
    + cbn [put_job wk_with_active wk_active]. by rewrite Hi.
Qed.

Lemma handle_renewal_moves now id expires s s' messages e :
  keyed s → handle_renewal now id expires s = (s', messages, e) →
  moves s (Some (ResponseLeaseRenewed id expires)) s' messages ∧ (e ≠ None → settles s s' messages).
Proof.
  intros Hkey. unfold handle_renewal.
  destruct expires as [t|]; [|intros [= <- <- <-]; split; [apply mv_settles|intros _]; apply settles_same].
  destruct (id ≫= _) as [job|] eqn:Hj; [|intros [= <- <- <-]; split; [apply mv_settles|intros _]; apply settles_same].
  destruct id as [id|]; [|done]. simpl in Hj. pose proof (Hkey id job Hj) as Hid.
  destruct (lj_authorityLost job); [intros [= <- <- <-]; split; [apply mv_settles|intros _]; apply settles_forget|].
  destruct (resetLeaseDeadline now _) as [job' [|]] eqn:Hr;
    [|intros [= <- <- <-]; split; [apply mv_settles|intros _]; apply settles_forget].
  apply reset_continues in Hr as (Hi & Ht & Hp). cbn in Hi, Ht, Hp.
  assert (Hc : continues job job') by (split; [done|done|by left]).
  unfold advance. rewrite Hp. destruct (lj_phase job) eqn:Hph.
  - intros [= <- <- <-]. split; [|done].
    apply (mv_start _ _ _ _ (ResponseLeaseRenewed (Some id) (Some t)) id job (lj_set_phase jobAwaitingStart job')); try done.
    + split; [done|done|by left].
    + cbn [put_job wk_with_active wk_active lj_id lj_set_phase lj_set]. by rewrite Hi, Hid.
  - intros [= <- <- <-]. split; [|done].
    apply (mv_run _ _ _ _ (ResponseLeaseRenewed (Some id) (Some t)) id job (lj_set_phase jobRunning job')); try done.
    + split; [done|done|by right].
    + cbn [start_execution put_job wk_with_active wk_active lj_id lj_set_phase lj_set]. by rewrite Hi, Hid.
    + cbn [start_execution put_job wk_with_active wk_executions]. by rewrite Hi, Hid, Ht.
  - intros [= <- <- <-]. split; [apply mv_settles|intros _]; (apply (settles_put s id job); [done..|no_messages]).
  - assert (Hsend : ∀ r m i t', m ∈ [completionRequest job' r] → (i, t') ∈ presents m →
      i = id ∧ t' = lj_leaseToken job ∧ (i, t') ∉ asks m).
    { intros r m i t' ->%list_elem_of_singleton. cbn [presents completionRequest wp_JobId wp_LeaseToken].
      intros [= -> ->]%list_elem_of_singleton. rewrite Hi, Hid, Ht. split_and!; [done|done|apply not_elem_of_nil]. }
    destruct (lj_result job') as [result|]; intros [= <- <- <-]; (split; [apply mv_settles|intros _]);
      (apply (settles_put s id job); [done..|]); first [apply Hsend|no_messages].
Qed.

Lemma handleResponse_moves capacity now x s s' messages e :
  keyed s → handleResponse url_Parse decode_plan capacity now (Some x) s = (s', messages, e) →
  moves s (Some x) s' messages ∧ (e ≠ None → settles s s' messages).
Proof.
  intros Hkey. destruct x as [a|id t|id n|[id|]|[[id|]|]]; cbn [handleResponse].
  - apply handle_assignment_moves.
  - by apply handle_renewal_moves.
  - destruct (n =? 0); [intros [= <- <- <-]; split; [apply mv_settles|intros _]; apply settles_same|].
    destruct id as [id|]; [|intros [= <- <- <-]; split; [apply mv_settles|intros _]; apply settles_same].
    intros [= <- <- <-]. split; [apply mv_settles|done].
    destruct (wk_active s !! id) as [job|] eqn:Hj; [|apply settles_same].
    apply (settles_put s id job); [done|by apply Hkey| |no_messages].
    unfold ack_chunk. destruct (lj_chunk job) as [c|]; [|done]. destruct (_ =? n); [|done]. split; [done|done|by left].
  - intros [= <- <- <-]. split; [apply mv_settles|intros _]; apply settles_forget_known.
  - intros [= <- <- <-]. split; [apply mv_settles|intros _]; apply settles_same.
  - intros [= <- <- <-]. split; [apply mv_settles|intros _]; apply settles_forget_known.
  - intros [= <- <- <-]. split; [apply mv_settles|intros _]; apply settles_same.
  - intros [= <- <- <-]. split; [apply mv_settles|intros _]; apply settles_same.
Qed.
End Moves.

Lemma take_result_active s r s' : take_result s = Some (r, s') → wk_active s' = wk_active s ∧ wk_executions s' = wk_executions s.
Proof. unfold take_result. destruct (wk_results s) as [|[r' t] rest]; [done|]. by intros [= _ <-]. Qed.

Lemma handle_result_settles now r s s' messages e :
  keyed s → handle_result now r s = (s', messages, e) → settles s s' messages ∧ e = None.
Proof.
  intros Hkey. unfold handle_result. destruct (wk_active s !! er_jobID r) as [job|] eqn:Hj;
    [|intros [= <- <- <-]; split; [apply settles_same|done]]. cbv zeta.
  pose proof (Hkey _ _ Hj) as Hid. destruct (_ || _).
  - intros [= <- <- <-]. split; [|done]. destruct (_ || _); [apply settles_forget|apply settles_same].
  - intros [= <- <- <-]. split; [|done]. apply (settles_put s (er_jobID r) job); [done..| |].
    + split; [done|done|by right].
    + intros m i t ->%list_elem_of_singleton. cbn [presents completionRequest wp_JobId wp_LeaseToken lj_id lj_leaseToken lj_set].
      intros [= -> ->]%list_elem_of_singleton. rewrite Hid. split_and!; [done|done|apply not_elem_of_nil].
Qed.

Lemma handle_loss_settles id s s' messages e :
  handle_loss id s = (s', messages, e) → settles s s' messages ∧ e = None.
Proof.
  unfold handle_loss. destruct (_ !! id) as [job|]; intros [= <- <- <-]; (split; [|done]); [|apply settles_same].
  destruct (lj_authorityLost job); [apply settles_forget|apply settles_same].
Qed.

(** ** Messages about many jobs *)

Lemma heartbeat_presents capabilities jobs id token :
  (id, token) ∈ presents (sendHeartbeat capabilities jobs) →
  ∃ job, job ∈ jobs ∧ lj_id job = id ∧ lj_leaseToken job = token ∧ waiting (lj_phase job) = false.
Proof.
  unfold sendHeartbeat. intros [st Hst]%elem_of_presents_heartbeat. cbn [wh_ActiveLeases] in Hst.
  apply list_elem_of_omap in Hst as (job & Hjob & Hl). exists job. split; [done|].
  unfold heartbeat_lease in Hl. destruct (lj_authorityLost job); [done|]. simpl in Hl.
  destruct (lj_phase job); simpl in Hl; by simplify_eq.
Qed.

Lemma tick_job_presents turn job m :
  m ∈ (tick_job turn job).2 → m ∈ turn.2 ∨ ∃ chunk, m = LogChunkSent (Some (lj_id job)) (lj_leaseToken job) chunk.
Proof.
  destruct turn as [sent messages]. unfold tick_job. destruct (lj_chunk job) as [chunk|]; [|by left].
  destruct (_ || _); [by left|]. cbn [snd]. intros [?|Hs%list_elem_of_singleton]%elem_of_app; [by left|right]. by exists chunk.
Qed.

Lemma log_tick_presents jobs turn m :
  m ∈ (foldl tick_job turn jobs).2 →
  m ∈ turn.2 ∨ ∃ job chunk, job ∈ jobs ∧ m = LogChunkSent (Some (lj_id job)) (lj_leaseToken job) chunk.
Proof.
  revert turn. induction jobs as [|job jobs IH]; intros turn; simpl; [by left|]. intros [Hm|(k & c & Hk & ->)]%IH.
  - apply tick_job_presents in Hm as [?|[c ->]]; [by left|right]. exists job, c. split; [left|done].
  - right. exists k, c. split; [by right|done].
Qed.

Lemma handle_log_tick_settles jobs s s' messages e :
  (∀ job, job ∈ jobs → wk_active s !! lj_id job = Some job) → handle_log_tick jobs s = (s', messages, e) →
  settles s s' messages ∧ e = None.
Proof.
  intros Hjobs. unfold handle_log_tick. cbv zeta. destruct (foldl tick_job _ jobs) as [sent l] eqn:Hf.
  intros [= <- <- <-]. split; [|done]. split; [intros id job Hj; by exists job| |done].
  intros m id t Hm Hp. assert (Hl : m ∈ (foldl tick_job (filter (λ '(id, _), is_Some (wk_active s !! id)) (wk_sentLogs s), []) jobs).2)
    by (by rewrite Hf). apply log_tick_presents in Hl as [Hl|(job & c & Hjob & ->)]; [by apply not_elem_of_nil in Hl|].
  cbn in Hp. apply list_elem_of_singleton in Hp as [= -> ->]. exists job. split; [by apply Hjobs|].
  split; [done|]. by intros ?%not_elem_of_nil.
Qed.
