(* ===== verification/WorkSystem.v ===== *)
(** Runners and the control plane together: every runner has its work loop
    (WorkClient.v), at most one Work stream and what the control plane still reads of an
    earlier one; the handlers of the streams (WorkServer.v) work on the database of the
    PostgreSQL store, where all other transactions may happen in between.

    A stream delivers in order.  It can break at any moment; then the runner connects
    again, while the handler of the old stream goes on with the requests that have
    arrived, unseen by the runner.  There is one control plane process, so a runner has at
    most one handler ([beginSession]). *)

From stdpp Require Import functions.
From S2P Require Import Prelude GoStd RunModel Pipeline RunnerAuth Database PgStore LeaseStore PgLease PgRuns Logs WorkProtocol WorkClient WorkServer WorkDatabase.

(** ** State *)

(** The handler of a stream: not begun, waiting for a request, at one of the two halves of
    the claim loop, or returned. *)
Inductive handlerPhase := Waiting | Receiving | Claiming | Issuing (a : Assignment) | Closed.

Record stream := mkStream {
  sm_up : list WorkRequest;
  sm_down : list WorkResponse;
  sm_phase : handlerPhase;
}.

Record link := mkLink {
  ln_client : workState;
  ln_stream : option stream;
  ln_orphan : option stream;   (** an earlier stream that the control plane still reads *)
}.

(** The lease tokens that were handed out, as the hash, the runner and the job; and the
    executions that were started, as the runner, the job and the token. *)
Record system := mkSystem {
  sy_db : database;
  sy_links : uuid → link;
  sy_tokens : list (string * option uuid * uuid);
  sy_executed : list (uuid * uuid * string);
}.

Definition work_start : workState := mkWorkState ∅ [] [] ∅.
Definition link_start : link := mkLink work_start None None.
Definition system_start (d : database) : system := mkSystem d (λ _, link_start) [] [].

Definition serving (s : option stream) : bool :=
  match s with
  | Some s => match sm_phase s with Receiving | Claiming | Issuing _ => true | _ => false end
  | None => false
  end.

(** The runner leaves its stream. *)
Definition disconnect (l : link) : link :=
  mkLink (ln_client l) None (if serving (ln_stream l) then ln_stream l else ln_orphan l).

Definition set_link (r : uuid) (l : link) (s : system) : system :=
  mkSystem (sy_db s) (<[r := l]> (sy_links s)) (sy_tokens s) (sy_executed s).

(** ** Events *)

(** The cases of the [select] of [runSession]; an order is how a map is visited. *)
Inductive client_event :=
| EvResponse (now : time)
| EvResult (now : time)
| EvHeartbeat (order : list uuid)
| EvLogTick (order : list uuid)
| EvLoss (id : uuid)
| EvRotate.

(** What happens in a runner outside the loop. *)
Inductive quiet_event :=
| QEnd (i : nat) (failed posted : bool) (duration : duration)
| QTimer (now : time) (id : uuid)
| QChunk (id : uuid) (chunk : wireChunk).

Inductive server_event :=
| SrvReceive (found : RunnerIdentity) (locked : uuid → bool) (outbox_id : uuid)
| SrvClaim (locked : uuid → bool) (token : string)
| SrvIssue (credentials : option CredentialIssuer) (now : time) (locked : uuid → bool) (outbox_id : uuid)
| SrvEnd.

Inductive action :=
| AConnect (r : uuid) (order : list uuid)
| ADisconnect (r : uuid)
| ARestart (r : uuid)
| AClient (r : uuid) (e : client_event)
| AQuiet (r : uuid) (e : quiet_event)
| ABegin (r : uuid)
| AServe (r : uuid) (orphan : bool) (e : server_event)
| AStore (o : pg_op)
| AClaimJob (locked : uuid → bool) (token : string) (now : time).

Section System.
Context `{MapOrder}.
Variable sha256 : string → string.
Variable uuid_String : uuid → string.
Variable json_unmarshal : string → option Plan.
Variable encode_plan : PlanJob → option bytes.
Variable url_Parse : string → option parsedURL.
Variable decode_plan : bytes → option PlanJob.
(** What each runner is configured with. *)
Variable caps : uuid → RunnerCapabilities.

Definition store_of (locked : uuid → bool) (outbox_id : uuid) : RunnerJobStore database :=
  pg_store sha256 uuid_String locked outbox_id.

(** ** Runners *)

(** The jobs in the order in which the map is visited. *)
Definition in_order (order : list uuid) (s : workState) : option (list localJob) :=
  if bool_decide (order ≡ₚ elements (dom (wk_active s))) then Some (omap (λ id, wk_active s !! id) order) else None.

Definition client_turn (capabilities : RunnerCapabilities) (e : client_event) (s : workState) (down : list WorkResponse)
    : option (turn * list WorkResponse) :=
  match e with
  | EvResponse now =>
    match down with
    | x :: rest => Some (handleResponse url_Parse decode_plan (wa_Capacity capabilities) now (Some x) s, rest)
    | [] => None
    end
  | EvResult now => (λ '(r, s), (handle_result now r s, down)) <$> take_result s
  | EvHeartbeat order => (λ jobs, ((s, [sendHeartbeat capabilities jobs], None), down)) <$> in_order order s
  | EvLogTick order => (λ jobs, (handle_log_tick jobs s, down)) <$> in_order order s
  | EvLoss id => Some (handle_loss id s, down)
  | EvRotate => Some ((s, [], Some ErrRotationDue), down)
  end.

(** The executions that a turn starts. *)
Definition new_executions (r : uuid) (s s' : workState) : list (uuid * uuid * string) :=
  (λ x, (r, x.1, x.2)) <$> take (length (wk_executions s') - length (wk_executions s)) (wk_executions s').

Definition client_step (r : uuid) (e : client_event) (s : system) : option system :=
  let l := sy_links s r in
  match ln_stream l with
  | None => None
  | Some st =>
    match client_turn (caps r) e (ln_client l) (sm_down st) with
    | None => None
    | Some (client, messages, error, down) =>
      let l' := mkLink client (Some (mkStream (sm_up st ++ messages) down (sm_phase st))) (ln_orphan l) in
      let l' := match error with None => l' | Some _ => disconnect l' end in
      Some (mkSystem (sy_db s) (<[r := l']> (sy_links s)) (sy_tokens s)
              (new_executions r (ln_client l) client ++ sy_executed s))
    end
  end.

(** A result is dropped only when the context is done, and posted only while the channel
    has room. *)
Definition quiet_turn (capacity : Z) (e : quiet_event) (s : workState) : option workState :=
  match e with
  | QEnd i failed posted d =>
    match wk_executions s !! i with
    | None => None
    | Some x =>
      let done := canceled x s in
      if (if posted then Z.of_nat (length (wk_results s)) <? capacity else done)
      then Some (end_execution i (if posted then Some (executeJob x.1 failed done d) else None) s)
      else None
    end
  | QTimer now id => Some (timer_fires now id s)
  | QChunk id chunk => Some (offer_chunk id chunk s)
  end.

Definition connect (r : uuid) (order : list uuid) (s : system) : option system :=
  let l := sy_links s r in
  match ln_stream l, in_order order (ln_client l) with
  | None, Some jobs =>
    let '(client, messages, _) := open_session (caps r) jobs (ln_client l) in
    Some (set_link r (mkLink client (Some (mkStream messages [] Waiting)) (ln_orphan l)) s)
  | _, _ => None
  end.

(** ** The control plane *)

Definition serve (r : uuid) (e : server_event) (d : database) (tokens : list (string * option uuid * uuid)) (st : stream)
    : option (database * list (string * option uuid * uuid) * stream) :=
  match sm_phase st, e with
  | Receiving, SrvReceive found locked outbox_id =>
    match sm_up st with
    | m :: rest =>
      if id_RunnerID found <>? r then None
      else match Work sha256 (store_of locked outbox_id) found (Some m) d with
      | (d, Ok responses) =>
        let next := match m with Heartbeat _ => Claiming | _ => Receiving end in
        Some (d, tokens, mkStream rest (sm_down st ++ responses) next)
      | (d, Err _) => Some (d, tokens, mkStream rest (sm_down st) Closed)
      end
    | [] => None
    end
  | Claiming, SrvClaim locked token =>
    (* tokens are drawn at random: a new one is none of the earlier ones *)
    if bool_decide (sha256 token ∈ tokens.*1.*1) then None
    else match @claim_turn _ (store_of locked uuid_Nil) token r d with
    | (d, Ok (Some a)) =>
      Some (d, tokens ++ [(sha256 token, Some r, as_JobID a)], mkStream (sm_up st) (sm_down st) (Issuing a))
    | (d, Ok None) => Some (d, tokens, mkStream (sm_up st) (sm_down st) Receiving)
    | (d, Err _) => Some (d, tokens, mkStream (sm_up st) (sm_down st) Closed)
    end
  | Issuing a, SrvIssue credentials now locked outbox_id =>
    match @issue_turn _ (store_of locked outbox_id) encode_plan credentials now r a d with
    | (d, Ok message) =>
      Some (d, tokens, mkStream (sm_up st) (sm_down st ++ [ResponseAssignment (Some message)]) Claiming)
    | (d, Err _) => Some (d, tokens, mkStream (sm_up st) (sm_down st) Closed)
    end
  | Receiving, SrvEnd | Claiming, SrvEnd | Issuing _, SrvEnd =>
    Some (d, tokens, mkStream (sm_up st) (sm_down st) Closed)
  | _, _ => None
  end.

Definition serve_step (r : uuid) (orphan : bool) (e : server_event) (s : system) : option system :=
  let l := sy_links s r in
  match (if orphan then ln_orphan l else ln_stream l) with
  | None => None
  | Some st =>
    match serve r e (sy_db s) (sy_tokens s) st with
    | None => None
    | Some (d, tokens, st) =>
      let l := if orphan then mkLink (ln_client l) (ln_stream l) (Some st) else mkLink (ln_client l) (Some st) (ln_orphan l) in
      Some (mkSystem d (<[r := l]> (sy_links s)) tokens (sy_executed s))
    end
  end.

(** A stream reaches the control plane: [beginSession] refuses it while an earlier handler
    of the runner is running. *)
Definition begin_step (r : uuid) (s : system) : option system :=
  let l := sy_links s r in
  match ln_stream l with
  | Some (mkStream up down Waiting) =>
    let '(_, accepted) := beginSession r (if serving (ln_orphan l) then {[r]} else ∅) in
    Some (set_link r (mkLink (ln_client l) (Some (mkStream up down (if accepted then Receiving else Closed))) (ln_orphan l)) s)
  | _ => None
  end.

(** ** Steps *)

Definition step (a : action) (s : system) : option system :=
  match a with
  | AConnect r order => connect r order s
  | ADisconnect r => Some (set_link r (disconnect (sy_links s r)) s)
  | ARestart r =>
    let l := disconnect (sy_links s r) in Some (set_link r (mkLink work_start None (ln_orphan l)) s)
  | AClient r e => client_step r e s
  | AQuiet r e =>
    let l := sy_links s r in
    (λ client, set_link r (mkLink client (ln_stream l) (ln_orphan l)) s) <$> quiet_turn (wa_Capacity (caps r)) e (ln_client l)
  | ABegin r => begin_step r s
  | AServe r orphan e => serve_step r orphan e s
  | AStore o =>
    if is_claim o then None
    else Some (mkSystem (pg_exec sha256 uuid_String json_unmarshal o (sy_db s)) (sy_links s) (sy_tokens s) (sy_executed s))
  | AClaimJob locked token now =>
    if bool_decide (sha256 token ∈ (sy_tokens s).*1.*1) then None
    else match PgClaimJob sha256 locked token now (sy_db s) with
    | (d, Ok (Some a)) => Some (mkSystem d (sy_links s) (sy_tokens s ++ [(sha256 token, None, as_JobID a)]) (sy_executed s))
    | (d, _) => Some (mkSystem d (sy_links s) (sy_tokens s) (sy_executed s))
    end
  end.

(** The states that the system reaches from a database without runs. *)
Inductive sys_reachable : system → Prop :=
| reach_start d : pg_empty d → sys_reachable (system_start d)
| reach_step a s s' : sys_reachable s → step a s = Some s' → sys_reachable s'.

Fixpoint run_actions (actions : list action) (s : system) : option system :=
  match actions with
  | [] => Some s
  | a :: actions => step a s ≫= run_actions actions
  end.

Lemma run_actions_reachable actions s s' : sys_reachable s → run_actions actions s = Some s' → sys_reachable s'.
Proof.
  revert s. induction actions as [|a actions IH]; intros s Hs; simpl; [by intros [= <-]|].
  destruct (step a s) as [s1|] eqn:Ha; [|done]. simpl. apply IH. by eapply reach_step.
Qed.
End System.
