(* ===== verification/WorkInv.v ===== *)
(** The invariant of the Work protocol.  Lease tokens are numbered in the order in which
    they were handed out; for every runner the tokens that it presents are no newer than
    the last one that it took for the job, and the ones on their way to it are newer.  A
    job that waits for an answer has exactly one request or one answer in flight. *)

From stdpp Require Import functions.
From S2P Require Import Prelude GoStd RunModel Pipeline RunnerAuth Database PgStore LeaseStore PgLease PgRuns Logs WorkProtocol WorkClient WorkServer WorkDatabase WorkFacts WorkSystem.

Section Inv.
Variable sha256 : string → string.

Abbreviation tokens_t := (list (string * option uuid * uuid)).

(** The [n]th token was given to [r] for the job. *)
Definition tok (tokens : tokens_t) (r id : uuid) (token : string) (n : nat) : Prop :=
  tokens !! n = Some (sha256 token, Some r, id).

(** No token of the job is newer. *)
Definition latest (tokens : tokens_t) (id : uuid) (n : nat) : Prop :=
  ∀ m x, tokens !! m = Some x → x.2 = id → (m ≤ n)%nat.

Definition up (l : link) : list WorkRequest := match ln_stream l with Some s => sm_up s | None => [] end.
Definition down (l : link) : list WorkResponse := match ln_stream l with Some s => sm_down s | None => [] end.
Definition old_up (l : link) : list WorkRequest := match ln_orphan l with Some s => sm_up s | None => [] end.

(** The assignments on their way to the runner, the last one perhaps not yet sent. *)
Definition issuing (p : handlerPhase) : list (uuid * string) :=
  match p with Issuing a => [(as_JobID a, as_LeaseToken a)] | _ => [] end.
Definition coming (l : link) : list (uuid * string) :=
  match ln_stream l with Some s => omap assigns (sm_down s) ++ issuing (sm_phase s) | None => [] end.

(** Requests that may renew the lease with the given hash, and the answers. *)
Definition own_request (id : uuid) (h : string) (m : WorkRequest) : bool :=
  existsb (λ '(i, t), (i =? id) && (sha256 t =? h)) (asks m).
Definition own_answer (id : uuid) (x : WorkResponse) : bool := renews x =? Some id.

(** The request whose answer a waiting job expects. *)
Definition awaited (p : localJobPhase) (id : uuid) (token : string) : WorkRequest :=
  (match p with jobAwaitingAcceptance => JobAccepted | _ => JobStarted end) (mkReceipt (Some id) token).

Record awaits (started : uuid → option string) (r id : uuid) (job : localJob)
    (executed : list (uuid * uuid * string)) (u : list WorkRequest) (d : list WorkResponse) : Prop := {
  aw_kind : ∀ m t, m ∈ u → (id, t) ∈ asks m → sha256 t = sha256 (lj_leaseToken job) →
    m = awaited (lj_phase job) id t;
  aw_one : count (own_request id (sha256 (lj_leaseToken job))) u + count (own_answer id) d ≤ 1;
  aw_started : lj_phase job = jobAwaitingStart → ∀ x, x ∈ d → renews x = Some id →
    started id = Some (sha256 (lj_leaseToken job));
  aw_fresh : ∀ t, (r, id, t) ∈ executed → sha256 t ≠ sha256 (lj_leaseToken job);
}.

Record link_ok (tokens : tokens_t) (executed : list (uuid * uuid * string)) (started : uuid → option string)
    (seen : uuid → option nat) (r : uuid) (l : link) : Prop := {
  lk_sent : ∀ m id t, m ∈ up l ++ old_up l → (id, t) ∈ presents m →
    ∃ n k, tok tokens r id t n ∧ seen id = Some k ∧ (n ≤ k)%nat;
  lk_active : ∀ id job, wk_active (ln_client l) !! id = Some job →
    lj_id job = id ∧ ∃ n, tok tokens r id (lj_leaseToken job) n ∧ seen id = Some n;
  lk_coming : ∃ ns, Sorted.StronglySorted lt ns ∧
    Forall2 (λ x n, tok tokens r x.1 x.2 n ∧ ∀ k, seen x.1 = Some k → (k < n)%nat) (coming l) ns;
  lk_order : ∀ pre x post id, down l = pre ++ x :: post → fst <$> assigns x = Some id →
    ∀ y, y ∈ post → renews y ≠ Some id;
  lk_waiting : ∀ id job, wk_active (ln_client l) !! id = Some job → waiting (lj_phase job) = true →
    awaits started r id job executed (up l) (down l);
  lk_executed : ∀ id t, (r, id, t) ∈ executed → ∃ n k, tok tokens r id t n ∧ seen id = Some k ∧ (n ≤ k)%nat;
  lk_seen : ∀ id k, seen id = Some k → (k < length tokens)%nat;
}.

(** A row is leased under the newest token of its job, and a started job has begun under
    the lease that started it. *)
Record db_ok (tokens : tokens_t) (started : uuid → option string) (d : database) : Prop := {
  do_ids : NoDup (jr_id <$> db_jobs d);
  do_leases : ∀ j h, j ∈ db_jobs d → lease_hash j = Some h →
    ∃ n r, tokens !! n = Some (h, r, jr_id j) ∧ latest tokens (jr_id j) n;
  do_started : ∀ id h, started id = Some h → (∃ j, j ∈ db_jobs d ∧ jr_id j = id) ∧
    ∀ j, j ∈ db_jobs d → jr_id j = id → begun (jr_status j) = true ∧ ∀ h', lease_hash j = Some h' → h' = h;
}.

Record sys_ok (s : system) (started : uuid → option string) (seen : uuid → uuid → option nat) : Prop := {
  so_db : db_ok (sy_tokens s) started (sy_db s);
  so_tokens : NoDup (sy_tokens s).*1.*1;
  so_links : ∀ r, link_ok (sy_tokens s) (sy_executed s) started (seen r) r (sy_links s r);
  so_executed : ∀ r id t, (r, id, t) ∈ sy_executed s → started id = Some (sha256 t);
  so_once : NoDup ((λ x, x.1.2) <$> sy_executed s);
}.

(** ** Tokens *)

Lemma tok_inj tokens r r' id id' t t' n n' :
  NoDup tokens.*1.*1 → tok tokens r id t n → tok tokens r' id' t' n' → sha256 t = sha256 t' → n = n' ∧ r = r' ∧ id = id'.
Proof.
  unfold tok. intros Hnd H1 H2 Hh. assert (n = n') as <-.
  { apply (NoDup_lookup tokens.*1.*1 n n' (sha256 t) Hnd); rewrite !list_lookup_fmap; [by rewrite H1|by rewrite H2, Hh]. }
  rewrite H1 in H2. by injection H2.
Qed.

Lemma tok_mono tokens tokens' r id t n : tok tokens r id t n → tok (tokens ++ tokens') r id t n.
Proof. unfold tok. apply lookup_app_l_Some. Qed.

Lemma tok_bound tokens r id t n : tok tokens r id t n → (n < length tokens)%nat.
Proof. unfold tok. apply lookup_lt_Some. Qed.

Lemma tok_hash tokens r id t t' n : tok tokens r id t n → tok tokens r id t' n → sha256 t = sha256 t'.
Proof. unfold tok. intros ->. by injection 1. Qed.

(** A live lease is the newest of its job. *)
Lemma live_latest tokens started d id t r n :
  NoDup tokens.*1.*1 → db_ok tokens started d → live id (sha256 t) d → tok tokens r id t n → latest tokens id n.
Proof.
  intros Hnd Hd (j & Hj & <- & Hh) Hn. destruct (do_leases _ _ _ Hd j _ Hj Hh) as (m & r' & Hm & Hl).
  assert (n = m) as ->; [|done]. unfold tok in Hn.
  apply (NoDup_lookup tokens.*1.*1 n m (sha256 t) Hnd); rewrite !list_lookup_fmap; [by rewrite Hn|by rewrite Hm].
Qed.

(** ** Persistence *)

(** A link keeps its invariant while other links and the store go on. *)
Lemma link_ok_mono tokens more executed executed' started started' seen r l :
  link_ok tokens executed started seen r l →
  (∀ id h, started id = Some h → started' id = Some h) →
  (∀ id t, (r, id, t) ∈ executed' → (r, id, t) ∈ executed) →
  link_ok (tokens ++ more) executed' started' seen r l.
Proof.
  intros [Hs Ha Hc Ho Hw He Hbd] Hst Hex. split.
  - intros m id t Hm Hp. destruct (Hs m id t Hm Hp) as (n & k & ? & ? & ?). exists n, k. split_and!; [by apply tok_mono|done|done].
  - intros id job Hj. destruct (Ha id job Hj) as (? & n & ? & ?). split; [done|]. exists n. split; [by apply tok_mono|done].
  - destruct Hc as (ns & ? & Hf). exists ns. split; [done|]. eapply Forall2_impl; [exact Hf|].
    intros x n [? ?]. split; [by apply tok_mono|done].
  - done.
  - intros id job Hj Hwt. destruct (Hw id job Hj Hwt) as [H1 H2 H3 H4]. split; [done|done| |].
    + intros Hp x Hx Hr. by eapply Hst, H3.
    + intros t Ht. by apply H4, Hex.
  - intros id t Ht. destruct (He id t (Hex id t Ht)) as (n & k & ? & ? & ?). exists n, k. split_and!; [by apply tok_mono|done|done].
  - intros id k Hk. rewrite length_app. specialize (Hbd id k Hk). lia.
Qed.

Lemma count_app {A} (p : A → bool) l1 l2 : count p (l1 ++ l2) = count p l1 + count p l2.
Proof. unfold count. rewrite List.filter_app, length_app. lia. Qed.

Lemma count_none {A} (p : A → bool) l : (∀ x, x ∈ l → p x = false) → count p l = 0.
Proof.
  intros Hp. rewrite (count_ext p (λ _, false) l Hp). unfold count. induction l as [|x l IH]; [done|].
  apply IH. intros y Hy. apply Hp. by right.
Qed.

Lemma count_zero {A} (p : A → bool) l : count p l ≤ 0 → ∀ x, x ∈ l → p x = false.
Proof.
  induction l as [|y l IH]; [by intros _ x ?%not_elem_of_nil|]. rewrite count_cons. pose proof (count_nonneg p l).
  intros Hc x [->|Hx]%elem_of_cons; [by destruct (p y); [lia|]|]. apply IH; [destruct (p y); lia|done].
Qed.

Lemma own_request_spec id h m : own_request id h m = true ↔ ∃ t, (id, t) ∈ asks m ∧ sha256 t = h.
Proof.
  unfold own_request. rewrite existsb_exists. split.
  - intros ([i t] & Hin%list_elem_of_In & Hp). bools. subst i. by exists t.
  - intros (t & Hin & Ht). exists (id, t). rewrite <-list_elem_of_In. split; [done|]. by rewrite !bool_decide_eq_true_2.
Qed.

Lemma asks_presents m x : x ∈ asks m → x ∈ presents m.
Proof. destruct m; try done; by intros ?%not_elem_of_nil. Qed.

(** ** The runner *)

Section Client.
Context (tokens : tokens_t) (executed : list (uuid * uuid * string)) (started : uuid → option string)
  (seen : uuid → option nat) (r : uuid) (Htokens : NoDup tokens.*1.*1).

Abbreviation ok := (link_ok tokens executed started seen r).

(** The waiting of a job when the queues change. *)
Lemma awaits_sub id job job' u u' d d' :
  awaits started r id job executed u d → lj_leaseToken job' = lj_leaseToken job → lj_phase job' = lj_phase job →
  (∀ m, m ∈ u' → own_request id (sha256 (lj_leaseToken job)) m = true → m ∈ u) →
  (∀ x, x ∈ d' → x ∈ d) →
  count (own_request id (sha256 (lj_leaseToken job))) u' + count (own_answer id) d'
    ≤ count (own_request id (sha256 (lj_leaseToken job))) u + count (own_answer id) d →
  awaits started r id job' executed u' d'.
Proof.
  intros [H1 H2 H3 H4] Ht Hp Hu Hd Hc. split; rewrite ?Ht, ?Hp.
  - intros m t Hm Ha Heq. apply H1; [|done|done]. apply Hu; [done|]. apply own_request_spec. by exists t.
  - lia.
  - intros Hph x Hx. apply H3; auto.
  - done.
Qed.

Lemma coming_drop xs d p ns :
  Sorted.StronglySorted lt ns →
  Forall2 (λ x n, tok tokens r x.1 x.2 n ∧ ∀ k, seen x.1 = Some k → (k < n)%nat) (omap assigns (xs ++ d) ++ issuing p) ns →
  ∃ ns', Sorted.StronglySorted lt ns' ∧
    Forall2 (λ x n, tok tokens r x.1 x.2 n ∧ ∀ k, seen x.1 = Some k → (k < n)%nat) (omap assigns d ++ issuing p) ns'.
Proof.
  rewrite omap_app, <-app_assoc. intros Hs (n1 & n2 & _ & H2 & ->)%Forall2_app_inv_l. exists n2. split; [|done].
  clear -Hs. induction n1 as [|n n1 IH]; [done|]. apply Sorted.StronglySorted_inv in Hs as [Hs _]. auto.
Qed.

Lemma settles_ok c c' u d xs p o messages :
  ok (mkLink c (Some (mkStream u (xs ++ d) p)) o) → settles c c' messages →
  ok (mkLink c' (Some (mkStream (u ++ messages) d p)) o).
Proof.
  intros [Hs Ha (ns & Hns & Hc) Ho Hw He Hbd] [Hjobs Hsent _]. split; cbn [up down old_up coming ln_client ln_stream ln_orphan sm_up sm_down sm_phase] in *.
  - intros m id t Hm Hp. rewrite <-app_assoc in Hm. apply elem_of_app in Hm as [Hm|[Hm|Hm]%elem_of_app].
    + apply (Hs m id t); [|done]. apply elem_of_app. by left.
    + destruct (Hsent m id t Hm Hp) as (job & Hj & <- & _). destruct (Ha id job Hj) as (_ & n & ? & ?). by exists n, n.
    + apply (Hs m id t); [|done]. apply elem_of_app. by right.
  - intros id job' Hj'. destruct (Hjobs id job' Hj') as (job & Hj & [Hi Ht _]). rewrite Hi, Ht. by apply Ha.
  - by eapply coming_drop.
  - intros pre x post id Heq. apply (Ho (xs ++ pre) x post id). by rewrite Heq, app_assoc.
  - intros id job' Hj' Hwt. destruct (Hjobs id job' Hj') as (job & Hj & [Hi Ht Hph]).
    assert (Hp : lj_phase job' = lj_phase job) by (destruct Hph as [?|Hn]; [done|by rewrite Hn in Hwt]).
    rewrite Hp in Hwt.
    assert (Hown : ∀ m, m ∈ messages → own_request id (sha256 (lj_leaseToken job)) m = false).
    { intros m Hm. apply not_true_is_false. intros (t & Hin & _)%own_request_spec.
      destruct (Hsent m id t Hm (asks_presents _ _ Hin)) as (job1 & Hj1 & _ & Hno). simplify_eq. by rewrite (Hno Hin) in Hwt. }
    apply (awaits_sub id job job' u _ (xs ++ d)); [by apply Hw|done|done| | |].
    + intros m [?|Hm]%elem_of_app Hb; [done|]. by rewrite (Hown m Hm) in Hb.
    + intros x Hx. apply elem_of_app. by right.
    + rewrite !count_app, (count_none _ messages Hown). pose proof (count_nonneg (own_answer id) xs). lia.
  - done.
  - done.
Qed.

Lemma disconnect_ok l : ok l → ok (disconnect l).
Proof.
  intros [Hs Ha Hc Ho Hw He Hbd]. split; cbn [disconnect up down coming ln_client ln_stream ln_orphan].
  - intros m id t Hm. apply Hs. cbn [app] in Hm. revert Hm. unfold old_up, up, disconnect. cbn [ln_orphan].
    destruct (serving (ln_stream l)); intros Hm; apply elem_of_app; [by left|by right].
  - done.
  - exists []. split; constructor.
  - intros [|? ?] ? ? ? Heq; done.
  - intros id job Hj Hwt. destruct (Hw id job Hj Hwt) as [_ _ _ Hf]. split; [|by unfold count| |done].
    + by intros m t ?%not_elem_of_nil.
    + by intros _ x ?%not_elem_of_nil.
  - done.
  - done.
Qed.

(** An assignment that is consumed is newer than all that was seen of its job. *)
Lemma coming_head x d p ns id t :
  assigns x = Some (id, t) →
  Forall2 (λ x n, tok tokens r x.1 x.2 n ∧ ∀ k, seen x.1 = Some k → (k < n)%nat) (omap assigns (x :: d) ++ issuing p) ns →
  ∃ n ns', ns = n :: ns' ∧ tok tokens r id t n ∧ (∀ k, seen id = Some k → (k < n)%nat) ∧
    Forall2 (λ x n, tok tokens r x.1 x.2 n ∧ ∀ k, seen x.1 = Some k → (k < n)%nat) (omap assigns d ++ issuing p) ns'.
Proof.
  intros Hx. simpl. rewrite Hx. intros (n & ns' & [Ht Hk] & Hf & ->)%Forall2_cons_inv_l. by exists n, ns'.
Qed.

Lemma again_absurd c u d p o x id job :
  ok (mkLink c (Some (mkStream u (x :: d) p)) o) → assigns x = Some (id, lj_leaseToken job) →
  wk_active c !! id = Some job → False.
Proof.
  intros [_ Ha (ns & _ & Hc) _ _ _ _] Hx Hj. destruct (Ha id job Hj) as (_ & k & Hk & Hseen).
  destruct (coming_head _ _ _ _ _ _ Hx Hc) as (n & _ & _ & Hn & Hlt & _).
  destruct (tok_inj _ _ _ _ _ _ _ _ _ Htokens Hk Hn eq_refl) as [-> _]. specialize (Hlt n Hseen). lia.
Qed.

(** Requests and answers about another job. *)
Lemma awaits_other i j u x d messages :
  awaits started r i j executed u (x :: d) → (∀ m t, m ∈ messages → (i, t) ∉ asks m) →
  awaits started r i j executed (u ++ messages) d.
Proof.
  intros Hw Hm. assert (Hown : ∀ m, m ∈ messages → own_request i (sha256 (lj_leaseToken j)) m = false).
  { intros m Hin. apply not_true_is_false. intros (t & Ht & _)%own_request_spec. by apply (Hm m t). }
  apply (awaits_sub i j j u _ (x :: d)); [done..| | |].
  - intros m [?|Hin]%elem_of_app Hb; [done|]. by rewrite Hown in Hb.
  - intros y Hy. by right.
  - rewrite count_app, count_cons, (count_none _ messages Hown). destruct (own_answer i x); lia.
Qed.

Lemma asks_receipt (k : receiptMessage → WorkRequest) job i t :
  (k = JobAccepted ∨ k = JobStarted) → (i, t) ∈ asks (k (receipt_of job)) → i = lj_id job ∧ t = lj_leaseToken job.
Proof. intros [-> | ->] [= -> ->]%list_elem_of_singleton; done. Qed.

(** A request that was just sent is the only one in flight. *)
Lemma awaits_sent (k : receiptMessage → WorkRequest) id job u d :
  (k = JobAccepted ∧ lj_phase job = jobAwaitingAcceptance ∨ k = JobStarted ∧ lj_phase job = jobAwaitingStart) →
  lj_id job = id → (∀ m, m ∈ u → own_request id (sha256 (lj_leaseToken job)) m = false) →
  (∀ y, y ∈ d → renews y ≠ Some id) → (∀ t, (r, id, t) ∈ executed → sha256 t ≠ sha256 (lj_leaseToken job)) →
  awaits started r id job executed (u ++ [k (receipt_of job)]) d.
Proof.
  intros Hk Hid Hu Hd Hf. split; [| | |done].
  - intros m t [Hm|Hm%list_elem_of_singleton]%elem_of_app Hin Heq.
    + assert (Hb : own_request id (sha256 (lj_leaseToken job)) m = true) by (apply own_request_spec; by exists t).
      by rewrite Hu in Hb.
    + subst m. destruct (asks_receipt k job id t) as [_ ->]; [by destruct Hk as [[? _]|[? _]]; [left|right]|done|].
      unfold awaited, receipt_of. rewrite Hid. by destruct Hk as [[-> ->]|[-> ->]].
  - rewrite count_app, (count_none _ u Hu), count_cons, (count_none (own_answer id) d).
    { unfold count. simpl. destruct (own_request _ _ _); lia. }
    intros y Hy. by apply bool_decide_eq_false, Hd.
  - intros _ x Hx Hr. by destruct (Hd x Hx).
Qed.

(** The seen tokens after an assignment was taken. *)
Lemma accept_ok c c' u d p o x id job :
  ok (mkLink c (Some (mkStream u (x :: d) p)) o) → assigns x = Some (id, lj_leaseToken job) →
  wk_active c !! id = None → lj_id job = id → lj_phase job = jobAwaitingAcceptance →
  wk_active c' = <[id := job]> (wk_active c) →
  ∃ n, link_ok tokens executed started (<[id := Some n]> seen) r
         (mkLink c' (Some (mkStream (u ++ [acceptedRequest job]) d p)) o).
Proof.
  intros [Hs Ha (ns & Hns & Hc) Ho Hw He Hbd] Hx Hnone Hid Hph Hact.
  cbn [up down old_up coming ln_client ln_stream ln_orphan sm_up sm_down sm_phase] in *.
  destruct (coming_head _ _ _ _ _ _ Hx Hc) as (n & ns' & -> & Hn & Hlt & Hc').
  apply Sorted.StronglySorted_inv in Hns as [Hns Hfst]. exists n.
  assert (Hold : ∀ i m k, seen i = Some k → (m ≤ k)%nat → ∃ k', <[id:=Some n]> seen i = Some k' ∧ (m ≤ k')%nat).
  { intros i m k Hk Hm. destruct (decide (i = id)) as [->|Hne].
    - exists n. rewrite fn_lookup_insert. split; [done|]. specialize (Hlt k Hk). lia.
    - exists k. by rewrite fn_lookup_insert_ne. }
  assert (Hfresh : ∀ i t m k, tok tokens r i t m → seen i = Some k → (m ≤ k)%nat → i = id → sha256 t ≠ sha256 (lj_leaseToken job)).
  { intros i t m k Hm Hk Hle -> Heq. destruct (tok_inj _ _ _ _ _ _ _ _ _ Htokens Hm Hn Heq) as [-> _].
    specialize (Hlt k Hk). lia. }
  split; cbn [up down old_up coming ln_client ln_stream ln_orphan sm_up sm_down sm_phase].
  - intros m i t Hm Hp. rewrite <-app_assoc in Hm. apply elem_of_app in Hm as [Hm|[Hm|Hm]%elem_of_app].
    + destruct (Hs m i t) as (a & k & Htk & Hk & Hle); [apply elem_of_app; by left|done|].
      destruct (Hold i a k Hk Hle) as (k' & ? & ?). by exists a, k'.
    + apply list_elem_of_singleton in Hm as ->. cbn [presents acceptedRequest receipt_of] in Hp.
      apply list_elem_of_singleton in Hp as [= -> ->]. exists n, n. rewrite Hid, fn_lookup_insert. by split_and!.
    + destruct (Hs m i t) as (a & k & Htk & Hk & Hle); [apply elem_of_app; by right|done|].
      destruct (Hold i a k Hk Hle) as (k' & ? & ?). by exists a, k'.
  - intros i j. rewrite Hact. intros [[<- <-]|[Hne Hj]]%lookup_insert_Some.
    + split; [done|]. exists n. by rewrite fn_lookup_insert.
    + destruct (Ha i j Hj) as (? & m & ? & ?). split; [done|]. exists m. by rewrite fn_lookup_insert_ne.
  - exists ns'. split; [done|]. clear -Hc' Hfst. induction Hc' as [|y m l ns' [Hy Hk] _ IH]; [constructor|].
    apply Forall_cons in Hfst as [Hm Hfst]. constructor; [|by apply IH]. split; [done|]. intros k.
    destruct (decide (y.1 = id)) as [->|Hne]; [rewrite fn_lookup_insert; by intros [= <-]|].
    rewrite fn_lookup_insert_ne by done. apply Hk.
  - intros pre y post i Heq. apply (Ho (x :: pre) y post i). by rewrite Heq.
  - intros i j. rewrite Hact. intros [[<- <-]|[Hne Hj]]%lookup_insert_Some Hwt.
    + assert (Hnone_u : ∀ m, m ∈ u → own_request id (sha256 (lj_leaseToken job)) m = false).
      { intros m Hm. apply not_true_is_false. intros (t & Hin & Heq)%own_request_spec.
        destruct (Hs m id t) as (a & k & Htk & Hk & Hle); [apply elem_of_app; by left|by apply asks_presents|].
        by apply (Hfresh id t a k). }
      apply awaits_sent; [by left|done|done| |].
      * intros y. apply (Ho [] x d id eq_refl). by rewrite Hx.
      * intros t Ht. destruct (He id t Ht) as (a & k & Htk & Hk & Hle). by apply (Hfresh id t a k).
    + apply (awaits_other i j u x); [by apply Hw|]. intros m t ->%list_elem_of_singleton Hin.
      apply (asks_receipt JobAccepted) in Hin as [Hi _]; [congruence|by left].
  - intros i t Ht. destruct (He i t Ht) as (a & k & ? & Hk & Hle). destruct (Hold i a k Hk Hle) as (k' & ? & ?). by exists a, k'.
  - intros i k. destruct (decide (i = id)) as [->|Hne]; [|rewrite fn_lookup_insert_ne by done; apply Hbd].
    rewrite fn_lookup_insert. intros [= <-]. by eapply tok_bound.
Qed.

(** A job whose answer is consumed has nothing else in flight. *)
Lemma answered id job u x d :
  awaits started r id job executed u (x :: d) → renews x = Some id →
  (∀ m, m ∈ u → own_request id (sha256 (lj_leaseToken job)) m = false) ∧ (∀ y, y ∈ d → renews y ≠ Some id).
Proof.
  intros [_ Hone _ _] Hx. rewrite count_cons in Hone. unfold own_answer in Hone at 1.
  rewrite bool_decide_eq_true_2 in Hone by done.
  pose proof (count_nonneg (own_request id (sha256 (lj_leaseToken job))) u). pose proof (count_nonneg (own_answer id) d).
  split.
  - intros m Hm. apply (count_zero _ u); [lia|done].
  - intros y Hy Hr. assert (own_answer id y = false) as Hn by (apply (count_zero _ d); [lia|done]).
    unfold own_answer in Hn. by rewrite bool_decide_eq_true_2 in Hn.
Qed.

(** The parts of the invariant that do not depend on the phases. *)
Lemma advance_ok c c' u d p o x id job job' messages executed' :
  ok (mkLink c (Some (mkStream u (x :: d) p)) o) → wk_active c !! id = Some job →
  lj_id job' = lj_id job → lj_leaseToken job' = lj_leaseToken job → renews x = Some id →
  wk_active c' = <[id := job']> (wk_active c) →
  (∀ m i t, m ∈ messages → (i, t) ∈ presents m → i = id ∧ t = lj_leaseToken job) →
  (∀ i t, (r, i, t) ∈ executed' → (r, i, t) ∈ executed ∨ i = id ∧ t = lj_leaseToken job) →
  (waiting (lj_phase job') = true → awaits started r id job' executed' (u ++ messages) d) →
  link_ok tokens executed' started seen r (mkLink c' (Some (mkStream (u ++ messages) d p)) o).
Proof.
  intros [Hs Ha (ns & Hns & Hc) Ho Hw He Hbd] Hj Hi Ht Hx Hact Hm Hex Hwait.
  cbn [up down old_up coming ln_client ln_stream ln_orphan sm_up sm_down sm_phase] in *.
  destruct (Ha id job Hj) as (Hid & n & Hn & Hseen).
  split; cbn [up down old_up coming ln_client ln_stream ln_orphan sm_up sm_down sm_phase].
  - intros m i t Hin Hp. rewrite <-app_assoc in Hin. apply elem_of_app in Hin as [Hin|[Hin|Hin]%elem_of_app].
    + apply (Hs m i t); [apply elem_of_app; by left|done].
    + destruct (Hm m i t Hin Hp) as [-> ->]. by exists n, n.
    + apply (Hs m i t); [apply elem_of_app; by right|done].
  - intros i k. rewrite Hact. intros [[<- <-]|[_ Hk]]%lookup_insert_Some; [|by apply Ha].
    rewrite Hi, Ht. split; [done|]. by exists n.
  - apply (coming_drop [x] d p ns Hns Hc).
  - intros pre y post i Heq. apply (Ho (x :: pre) y post i). by rewrite Heq.
  - intros i k. rewrite Hact. intros [[<- <-]|[Hne Hk]]%lookup_insert_Some Hwt; [by apply Hwait|].
    assert (Ho1 : awaits started r i k executed (u ++ messages) d).
    { apply (awaits_other i k u x); [by apply Hw|]. intros m t Hin Hp.
      by destruct (Hm m i t Hin (asks_presents _ _ Hp)). }
    destruct Ho1 as [H1 H2 H3 H4]. split; [done|done|done|]. intros t [Hin|[-> _]]%Hex; [by apply H4|done].
  - intros i t [Hin|[-> ->]]%Hex; [by apply He|]. by exists n, n.
  - done.
Qed.

Lemma start_ok c c' u d p o x id job job' :
  ok (mkLink c (Some (mkStream u (x :: d) p)) o) → wk_active c !! id = Some job → renews x = Some id →
  lj_id job' = lj_id job → lj_leaseToken job' = lj_leaseToken job →
  lj_phase job = jobAwaitingAcceptance → lj_phase job' = jobAwaitingStart →
  wk_active c' = <[id := job']> (wk_active c) →
  ok (mkLink c' (Some (mkStream (u ++ [startedRequest job']) d p)) o).
Proof.
  intros Hok Hj Hx Hi Ht Hp Hp' Hact. pose proof (lk_active _ _ _ _ _ _ Hok id job Hj) as [Hid _].
  eapply advance_ok; [exact Hok|exact Hj|done..| |by auto|].
  - intros m i t ->%list_elem_of_singleton Hin. change (presents _) with (asks (startedRequest job')) in Hin.
    apply (asks_receipt JobStarted) in Hin as [-> ->]; [|by right]. by rewrite Hi, Ht.
  - intros _. assert (Hw : awaits started r id job executed u (x :: d)).
    { apply (lk_waiting _ _ _ _ _ _ Hok id job Hj). by rewrite Hp. }
    destruct (answered _ _ _ _ _ Hw Hx) as [Hu Hd].
    apply awaits_sent; rewrite ?Ht; [by right|congruence|done|done|]. apply Hw.
Qed.

Lemma run_ok c c' u d p o x id job job' :
  ok (mkLink c (Some (mkStream u (x :: d) p)) o) → wk_active c !! id = Some job → renews x = Some id →
  lj_id job' = lj_id job → lj_leaseToken job' = lj_leaseToken job →
  lj_phase job = jobAwaitingStart → lj_phase job' = jobRunning →
  wk_active c' = <[id := job']> (wk_active c) →
  link_ok tokens ((r, id, lj_leaseToken job) :: executed) started seen r (mkLink c' (Some (mkStream u d p)) o) ∧
  started id = Some (sha256 (lj_leaseToken job)) ∧
  (∃ n, tok tokens r id (lj_leaseToken job) n) ∧
  ∀ t, (r, id, t) ∈ executed → sha256 t ≠ sha256 (lj_leaseToken job).
Proof.
  intros Hok Hj Hx Hi Ht Hp Hp' Hact. pose proof (lk_active _ _ _ _ _ _ Hok id job Hj) as (Hid & n & Hn & _).
  assert (Hw : awaits started r id job executed u (x :: d)).
  { apply (lk_waiting _ _ _ _ _ _ Hok id job Hj). by rewrite Hp. }
  split; [|split; [|split; [by exists n|apply Hw]]].
  - rewrite <-(app_nil_r u). eapply advance_ok; [exact Hok|exact Hj|done..| | |].
    + by intros m i t ?%not_elem_of_nil.
    + intros i t [[= -> ->]|Hin]%elem_of_cons; [by right|by left].
    + by rewrite Hp'.
  - apply (aw_started _ _ _ _ _ _ _ Hw Hp x); [left|done].
Qed.
End Client.

(** ** The database *)

Lemma db_ok_evolves tokens started d d' :
  db_ok tokens started d → rows_evolve (db_jobs d) (db_jobs d') → db_ok tokens started d'.
Proof.
  intros [Hi Hl Hs] He. pose proof (ro_ids _ _ He Hi) as Hi'. split; [done|..].
  - intros j' h Hj' Hh. destruct (evolves_lease _ _ _ _ He Hj' Hh) as (j & Hj & <- & Hjh). by apply Hl.
  - intros id h Hst. destruct (Hs id h Hst) as [(j & Hj & Hid) Hall].
    destruct (evolves_forth _ _ _ He Hj) as (j1 & Hj1 & Hr). destruct (Hall j Hj Hid) as [Hb Hh].
    assert (Hid1 : jr_id j1 = id) by (by rewrite (re_id _ _ Hr)).
    split; [by exists j1|]. intros j' Hj' Hid'.
    assert (j' = j1) as -> by (eapply (NoDup_key_unique jr_id); [exact Hi'|done|done|congruence]).
    split; [by apply Hr|]. intros h' Hh'. by apply Hh, Hr.
Qed.

Lemma latest_app tokens x id n : latest tokens id n → x.2 ≠ id → latest (tokens ++ [x]) id n.
Proof.
  intros Hl Hx m y [Hm|[_ Hm]]%lookup_app_Some Hy; [by eapply Hl|].
  apply list_lookup_singleton_Some in Hm as [_ <-]. done.
Qed.

Lemma latest_last tokens x id : latest (tokens ++ [x]) id (length tokens).
Proof. intros m y Hm%lookup_lt_Some _. rewrite length_app in Hm. simpl in Hm. lia. Qed.

Lemma db_ok_claimed tokens started d d' h r id :
  db_ok tokens started d → claimed h id (db_jobs d) (db_jobs d') → db_ok (tokens ++ [(h, r, id)]) started d'.
Proof.
  intros [Hi Hl Hs] [(q & Hq & Hqid & Hqs) Hids Hrows]. split.
  - by rewrite Hids.
  - intros j' h' Hj' Hh'. destruct (Hrows j' Hj') as [(-> & _ & Hh)|[Hne Hj]].
    + rewrite Hh in Hh'. injection Hh' as <-. exists (length tokens), r. split; [|apply latest_last].
      by rewrite lookup_app_r, Nat.sub_diag by done.
    + destruct (Hl j' h' Hj Hh') as (n & r' & Hn & Hlat). exists n, r'. split; [by apply lookup_app_l_Some|].
      by apply latest_app.
  - intros i hs Hst. destruct (Hs i hs Hst) as [(j & Hj & Hid) Hall]. split.
    + assert (Hin : i ∈ jr_id <$> db_jobs d') by (rewrite Hids, <-Hid; by apply list_elem_of_fmap_2).
      apply list_elem_of_fmap in Hin as (j' & ? & ?). by exists j'.
    + intros j' Hj' Hid'. destruct (Hrows j' Hj') as [(Heq & _ & _)|[Hne Hin]]; [|by apply Hall].
      destruct (Hall q Hq) as [Hb _]; [congruence|]. by rewrite Hqs in Hb.
Qed.

(** A start that succeeds agrees with an earlier start of the job. *)
Lemma db_ok_start tokens started d j id h :
  db_ok tokens started d → j ∈ db_jobs d → jr_id j = id → jr_status j = JobRunning → lease_hash j = Some h →
  db_ok tokens (<[id := Some h]> started) d ∧ ∀ i h', started i = Some h' → <[id := Some h]> started i = Some h'.
Proof.
  intros [Hi Hl Hs] Hj Hid Hrun Hh. split.
  - split; [done|done|]. intros i h'. destruct (decide (i = id)) as [->|Hne]; [|rewrite fn_lookup_insert_ne by done; apply Hs].
    rewrite fn_lookup_insert. intros [= <-]. split; [by exists j|]. intros k Hk Hkid.
    assert (k = j) as -> by (eapply (NoDup_key_unique jr_id); [exact Hi|done|done|congruence]).
    rewrite Hrun, Hh. split; [done|]. by intros h' [= <-].
  - intros i h' Hst. destruct (decide (i = id)) as [->|Hne]; [|by rewrite fn_lookup_insert_ne].
    rewrite fn_lookup_insert. f_equal. destruct (Hs id h' Hst) as [_ Hall]. destruct (Hall j Hj Hid) as [_ Heq]. by apply Heq.
Qed.
End Inv.
