(* ===== verification/WorkSteps.v ===== *)
(** Every step of the system keeps the invariant of the Work protocol. *)

From stdpp Require Import functions.
From S2P Require Import Prelude GoStd RunModel Pipeline RunnerAuth Database PgStore LeaseStore PgLease PgRuns Logs WorkProtocol WorkClient WorkServer WorkDatabase WorkFacts WorkSystem WorkInv.

Section Safety.
Context `{MapOrder}.
Variable sha256 : string → string.
Variable uuid_String : uuid → string.
Variable json_unmarshal : string → option Plan.
Variable encode_plan : PlanJob → option bytes.
Variable url_Parse : string → option parsedURL.
Variable decode_plan : bytes → option PlanJob.
Variable caps : uuid → RunnerCapabilities.

Abbreviation link_ok := (link_ok sha256).
Abbreviation sys_ok := (sys_ok sha256).
Abbreviation tok := (tok sha256).

(** ** Runners *)

Lemma visit_jobs order s jobs :
  keyed s → in_order order s = Some jobs → ∀ job, job ∈ jobs → wk_active s !! lj_id job = Some job.
Proof.
  unfold in_order. intros Hkey. case_bool_decide; [|done]. intros [= <-] job (id & _ & Hj)%list_elem_of_omap.
  by rewrite (Hkey id job Hj).
Qed.

Lemma settles_executions s s' messages :
  settles s s' messages → ∀ r, new_executions r s s' = [].
Proof. intros [_ _ Hl] r. unfold new_executions. by replace (_ - _)%nat with 0%nat by lia. Qed.

Lemma client_turn_moves capabilities e s down s' messages err down' :
  keyed s → client_turn url_Parse decode_plan capabilities e s down = Some (s', messages, err, down') →
  (down' = down ∧ settles s s' messages) ∨
  (∃ x, down = x :: down' ∧ moves s (Some x) s' messages ∧ (err ≠ None → settles s s' messages)).
Proof.
  intros Hkey. destruct e as [now|now|order|order|id|]; cbn [client_turn].
  - destruct down as [|x rest]; [done|]. intros [= Hh <-]. right. exists x. split; [done|].
    by eapply handleResponse_moves.
  - destruct (take_result s) as [[res s1]|] eqn:Ht; [|done]. intros [= Hh <-]. left. split; [done|].
    apply take_result_active in Ht as [Ha He]. assert (Hkey1 : keyed s1) by (intros i j; rewrite Ha; apply Hkey).
    destruct (handle_result_settles _ _ _ _ _ _ Hkey1 Hh) as [[H1 H2 H3] _]. rewrite Ha, He in *. by split.
  - destruct (in_order order s) as [jobs|] eqn:Hv; [|done]. intros [= <- <- _ <-]. left. split; [done|].
    apply settles_send. intros id token (job & Hjob & <- & <- & Hw)%heartbeat_presents. exists job.
    split; [by eapply visit_jobs|done].
  - destruct (in_order order s) as [jobs|] eqn:Hv; [|done]. intros [= Hh <-]. left. split; [done|].
    eapply handle_log_tick_settles; [|exact Hh]. by eapply visit_jobs.
  - intros [= Hh <-]. left. split; [done|]. by eapply handle_loss_settles.
  - intros [= <- <- _ <-]. left. split; [done|]. apply settles_same.
Qed.

(** What an execution that starts can rely on. *)
Definition starts (tokens : list (string * option uuid * uuid)) (executed : list (uuid * uuid * string))
    (started : uuid → option string) (r : uuid) (new : list (uuid * uuid * string)) : Prop :=
  new = [] ∨ ∃ id t n, new = [(r, id, t)] ∧ started id = Some (sha256 t) ∧ tok tokens r id t n ∧
    ∀ t', (r, id, t') ∈ executed → sha256 t' ≠ sha256 t.

Lemma moves_ok tokens executed started seen r c c' u x d p o messages :
  NoDup tokens.*1.*1 → link_ok tokens executed started seen r (mkLink c (Some (mkStream u (x :: d) p)) o) →
  moves c (Some x) c' messages →
  ∃ seen', starts tokens executed started r (new_executions r c c') ∧
    link_ok tokens (new_executions r c c' ++ executed) started seen' r (mkLink c' (Some (mkStream (u ++ messages) d p)) o).
Proof.
  intros Hnd Hok Hm. destruct Hm as [Hs|y id job [= <-] Ha Hn Hid Hp Hact -> Hex|y id job [= <-] Ha Hj
    |y id job job' [= <-] Hr Hj [Hi Ht _] Hp Hp' Hact -> Hex|y id job job' [= <-] Hr Hj [Hi Ht _] Hp Hp' Hact -> Hex].
  - exists seen. rewrite (settles_executions _ _ _ Hs). split; [by left|]. by apply (settles_ok _ _ _ _ _ _ c c' u d [x]).
  - destruct (accept_ok _ _ _ _ _ _ Hnd _ _ _ _ _ _ _ _ _ Hok Ha Hn Hid Hp Hact) as [n Hn']. eexists.
    unfold new_executions. rewrite Hex, Nat.sub_diag. split; [by left|exact Hn'].
  - exfalso. by eapply again_absurd.
  - exists seen. unfold new_executions. rewrite Hex, Nat.sub_diag. split; [by left|].
    by eapply start_ok.
  - exists seen. destruct (run_ok _ _ _ _ _ _ _ _ _ _ _ _ _ _ _ _ Hok Hj Hr Hi Ht Hp Hp' Hact) as (Hl & Hst & [n Hn] & Hf).
    unfold new_executions. rewrite Hex. cbn [length]. rewrite Nat.sub_succ_l, Nat.sub_diag by done. cbn [take fmap list_fmap].
    rewrite app_nil_r. split; [|exact Hl]. right. by exists id, (lj_leaseToken job), n.
Qed.

Lemma client_link_ok tokens executed started seen r l st e c' messages err down' :
  NoDup tokens.*1.*1 → link_ok tokens executed started seen r l → ln_stream l = Some st →
  client_turn url_Parse decode_plan (caps r) e (ln_client l) (sm_down st) = Some (c', messages, err, down') →
  let l' := mkLink c' (Some (mkStream (sm_up st ++ messages) down' (sm_phase st))) (ln_orphan l) in
  ∃ seen', starts tokens executed started r (new_executions r (ln_client l) c') ∧
    link_ok tokens (new_executions r (ln_client l) c' ++ executed) started seen' r
      (match err with None => l' | Some _ => disconnect l' end).
Proof.
  intros Hnd Hok Hst Ht l'. destruct l as [c s o]. cbn in Hst. subst s. destruct st as [u d p]. cbn in Ht, l'.
  assert (Hkey : keyed c) by (intros id job Hj; by apply (lk_active _ _ _ _ _ _ _ Hok)).
  assert (Hlink : ∃ seen', starts tokens executed started r (new_executions r c c') ∧
    link_ok tokens (new_executions r c c' ++ executed) started seen' r l').
  { destruct (client_turn_moves _ _ _ _ _ _ _ _ Hkey Ht) as [[-> Hs]|(x & -> & Hm & _)].
    - exists seen. rewrite (settles_executions _ _ _ Hs). split; [by left|]. by apply (settles_ok _ _ _ _ _ _ c c' u d []).
    - by eapply moves_ok. }
  destruct Hlink as (seen' & Hs & Hl). exists seen'. split; [done|].
  destruct err; [by apply disconnect_ok|done].
Qed.

(** What happens to the jobs of a runner outside its turns. *)
Lemma settles_link_ok tokens executed started seen r l c' :
  NoDup tokens.*1.*1 → link_ok tokens executed started seen r l → settles (ln_client l) c' [] →
  link_ok tokens executed started seen r (mkLink c' (ln_stream l) (ln_orphan l)).
Proof.
  intros Hnd Hok Hs. destruct l as [c [[u d p]|] o]; cbn [ln_client ln_stream ln_orphan] in *.
  - rewrite <-(app_nil_r u). by apply (settles_ok _ _ _ _ _ _ c c' u d []).
  - destruct Hok as [H1 H2 H3 H4 H5 H6 H7]. destruct Hs as [Hjobs _ _]. split; [done| |done|done| |done|done].
    + intros id job' Hj'. destruct (Hjobs id job' Hj') as (job & Hj & [Hi Ht _]). rewrite Hi, Ht. by apply H2.
    + intros id job' Hj' Hwt. destruct (Hjobs id job' Hj') as (job & Hj & [Hi Ht Hph]).
      assert (Hp : lj_phase job' = lj_phase job) by (destruct Hph as [?|Hn]; [done|by rewrite Hn in Hwt]).
      rewrite Hp in Hwt. by eapply awaits_sub; [exact (H5 id job Hj Hwt)|done..].
Qed.

Lemma quiet_settles capacity e c c' : keyed c → quiet_turn capacity e c = Some c' → settles c c' [].
Proof.
  intros Hkey. destruct e as [i failed posted t|now id|id chunk]; cbn [quiet_turn].
  - destruct (wk_executions c !! i) as [x|] eqn:Hx; [|done]. cbv zeta. destruct (if posted then _ else _); [|done].
    intros [= <-]. unfold end_execution. rewrite Hx. split; [intros id job Hj; by exists job|by intros m id t' ?%not_elem_of_nil|].
    cbn [wk_executions]. rewrite length_delete by (by eapply mk_is_Some). lia.
  - intros [= <-]. unfold timer_fires. destruct (wk_active c !! id) as [job|] eqn:Hj; [|apply settles_same].
    apply (settles_put c id job); [done|by apply Hkey| |by intros m i t ?%not_elem_of_nil].
    unfold fire_timer. destruct (lj_leaseTimer job) as [|deadline|]; [done| |done].
    destruct (_ <=? now); [|done]. split; [done|done|by left].
  - intros [= <-]. unfold offer_chunk. destruct (wk_active c !! id) as [job|] eqn:Hj; [|apply settles_same].
    apply (settles_put c id job); [done|by apply Hkey| |by intros m i t ?%not_elem_of_nil]. split; [done|done|by left].
Qed.

(** ** A new stream *)

Lemma resend_presents job m id t :
  m ∈ resendTransition job → (id, t) ∈ presents m →
  m = awaited (lj_phase job) (lj_id job) (lj_leaseToken job) ∧ id = lj_id job ∧ t = lj_leaseToken job.
Proof.
  unfold resendTransition. destruct (lj_phase job); [| |by intros ?%not_elem_of_nil..];
    intros ->%list_elem_of_singleton [= -> ->]%list_elem_of_singleton; done.
Qed.

Lemma resend_count id h jobs :
  NoDup (lj_id <$> jobs) → count (own_request sha256 id h) (mjoin (resendTransition <$> jobs)) ≤ (if bool_decide (id ∈ lj_id <$> jobs) then 1 else 0).
Proof.
  induction jobs as [|job jobs IH]; intros Hnd; [done|]. apply NoDup_cons in Hnd as [Hn Hnd]. specialize (IH Hnd).
  rewrite !fmap_cons, mjoin_cons, count_app.
  assert (Hone : count (own_request sha256 id h) (resendTransition job) ≤ 1).
  { unfold resendTransition, count. destruct (lj_phase job); simpl; try lia; destruct (own_request sha256 id h _); simpl; lia. }
  destruct (decide (lj_id job = id)) as [<-|Hne].
  - rewrite (bool_decide_eq_true_2 (_ ∈ _ :: _)) by left. rewrite bool_decide_eq_false_2 in IH by done. lia.
  - rewrite (count_none _ (resendTransition job)).
    + destruct (decide (id ∈ lj_id <$> jobs)) as [Hin|Hout].
      * rewrite (bool_decide_eq_true_2 (_ ∈ _ :: _)) by (by right). rewrite bool_decide_eq_true_2 in IH by done. lia.
      * rewrite bool_decide_eq_false_2 in IH by done. destruct (bool_decide _); lia.
    + intros m Hm. apply not_true_is_false. intros (t & Hin & _)%own_request_spec.
      by destruct (resend_presents _ _ _ _ Hm (asks_presents _ _ Hin)) as (_ & -> & _).
Qed.

Lemma visit_ids order s jobs : keyed s → in_order order s = Some jobs → NoDup (lj_id <$> jobs).
Proof.
  unfold in_order. intros Hkey. case_bool_decide as Hp; [|done]. intros [= <-].
  assert (Hnd : NoDup order) by (rewrite Hp; apply NoDup_elements). clear Hp.
  induction order as [|id order IH]; [constructor|]. apply NoDup_cons in Hnd as [Hn Hnd]. cbn [omap list_omap].
  destruct (wk_active s !! id) as [job|] eqn:Hj; [|by apply IH]. rewrite fmap_cons. apply NoDup_cons. split; [|by apply IH].
  intros (k & Hk & (i & Hi & Hs)%list_elem_of_omap)%list_elem_of_fmap. apply Hn.
  by rewrite <-(Hkey id job Hj), Hk, (Hkey i k Hs).
Qed.

Lemma connect_link_ok tokens executed started seen r l order jobs :
  NoDup tokens.*1.*1 → link_ok tokens executed started seen r l → ln_stream l = None →
  in_order order (ln_client l) = Some jobs →
  link_ok tokens executed started seen r
    (mkLink (open_session (caps r) jobs (ln_client l)).1.1
       (Some (mkStream (reconcile (caps r) jobs) [] Waiting)) (ln_orphan l)).
Proof.
  intros Hnd [H1 H2 H3 H4 H5 H6 H7] Hst Hv. destruct l as [c s o]. cbn in Hst, Hv. subst s.
  assert (Hkey : keyed c) by (intros id job Hj; by apply H2).
  pose proof (visit_jobs _ _ _ Hkey Hv) as Hjobs. pose proof (visit_ids _ _ _ Hkey Hv) as Hids.
  assert (Hsent : ∀ m id t, m ∈ reconcile (caps r) jobs → (id, t) ∈ presents m →
    ∃ job, wk_active c !! id = Some job ∧ t = lj_leaseToken job ∧
      (waiting (lj_phase job) = true → m = awaited (lj_phase job) id t)).
  { intros m id t [(l & Hin & (job & -> & Hjob)%list_elem_of_fmap)%list_elem_of_join|Hm]%elem_of_app Hp.
    - destruct (resend_presents _ _ _ _ Hin Hp) as (-> & -> & ->). exists job. split; [by apply Hjobs|done].
    - apply list_elem_of_singleton in Hm as ->. apply heartbeat_presents in Hp as (job & Hjob & <- & <- & Hw).
      exists job. split; [by apply Hjobs|]. split; [done|]. by rewrite Hw. }
  split; cbn [up down old_up coming ln_client ln_stream ln_orphan sm_up sm_down sm_phase open_session fst wk_active issuing] in *.
  - intros m id t [Hm|Hm]%elem_of_app Hp; [|by apply (H1 m id t)].
    destruct (Hsent m id t Hm Hp) as (job & Hj & -> & _). destruct (H2 id job Hj) as (_ & n & ? & ?). by exists n, n.
  - exact H2.
  - exists []. split; constructor.
  - intros [|? ?] ? ? ? Heq; done.
  - intros id job Hj Hwt. destruct (H5 id job Hj Hwt) as [_ _ _ Hf]. split; [| |by intros _ x ?%not_elem_of_nil|done].
    + intros m t Hm Hin _. destruct (Hsent m id t Hm (asks_presents _ _ Hin)) as (k & Hk & _ & Haw). simplify_eq. by apply Haw.
    + unfold reconcile. rewrite count_app. pose proof (resend_count id (sha256 (lj_leaseToken job)) jobs Hids) as Hc.
      rewrite (count_none _ [sendHeartbeat _ _]).
      { unfold count at 2. simpl. destruct (bool_decide _); lia. }
      intros m ->%list_elem_of_singleton. apply not_true_is_false. intros (t & Hin & _)%own_request_spec.
      apply asks_presents, heartbeat_presents in Hin as (k & Hk & Hid & _ & Hw). apply Hjobs in Hk. rewrite Hid in Hk. simplify_eq.
      by rewrite Hw in Hwt.
  - exact H6.
  - exact H7.
Qed.
End Safety.

(** * The steps of the control plane keep the invariant of the Work protocol, and so do all
    steps of the system. *)

Section Steps.
Context `{MapOrder}.
Variable sha256 : string → string.
Variable uuid_String : uuid → string.
Variable json_unmarshal : string → option Plan.
Variable encode_plan : PlanJob → option bytes.
Variable url_Parse : string → option parsedURL.
Variable decode_plan : bytes → option PlanJob.
Variable caps : uuid → RunnerCapabilities.

Abbreviation link_ok := (link_ok sha256).
Abbreviation sys_ok := (sys_ok sha256).
Abbreviation db_ok := db_ok.
Abbreviation tok := (tok sha256).

(** ** Links *)

(** What the answers to a request say: every renewal is of a live lease that the request
    presents, and a receipt has at most one answer. *)
Record answers (tokens : list (string * option uuid * uuid)) (started' : uuid → option string) (r : uuid)
    (m : WorkRequest) (rs : list WorkResponse) : Prop := {
  an_plain : ∀ x, x ∈ rs → assigns x = None;
  an_live : ∀ x id, x ∈ rs → renews x = Some id →
    ∃ t, (id, t) ∈ asks m ∧ ∀ n, tok tokens r id t n → latest tokens id n;
  an_one : ∀ p id t, waiting p = true → m = awaited p id t →
    rs = [] ∨ ∃ e, rs = [ResponseLeaseRenewed (Some id) e] ∧ (p = jobAwaitingStart → started' id = Some (sha256 t));
}.

Section Link.
Context (tokens : list (string * option uuid * uuid)) (executed : list (uuid * uuid * string))
  (seen : uuid → option nat) (r : uuid) (Htokens : NoDup tokens.*1.*1).

(** A renewal is never of a job with an assignment on its way. *)
Lemma renewal_not_coming started started' c m u d p o rs x id t :
  link_ok tokens executed started seen r (mkLink c (Some (mkStream (m :: u) d p)) o) →
  answers tokens started' r m rs → x ∈ rs → renews x = Some id → (id, t) ∉ omap assigns d.
Proof.
  intros [Hs _ (ns & _ & Hc) _ _ _ _] Ha Hx Hr Hin.
  destruct (an_live _ _ _ _ _ Ha x id Hx Hr) as (t0 & Hask & Hlat).
  destruct (Hs m id t0) as (n & k & Hn & Hk & Hle); [apply elem_of_app; left; left|by apply asks_presents|].
  cbn [coming ln_stream sm_down sm_phase] in Hc. assert (Hin' : (id, t) ∈ omap assigns d ++ issuing p) by (apply elem_of_app; by left).
  apply list_elem_of_lookup in Hin' as [i Hi]. destruct (Forall2_lookup_l _ _ _ _ _ Hc Hi) as (n' & _ & Hn' & Hlt).
  specialize (Hlt k Hk). specialize (Hlat n Hn n' _ Hn' eq_refl). lia.
Qed.

(** A renewal of a waiting job answers the request with its own token. *)
Lemma renewal_own started started' c m u d p o rs x id job :
  link_ok tokens executed started seen r (mkLink c (Some (mkStream (m :: u) d p)) o) →
  answers tokens started' r m rs → x ∈ rs → renews x = Some id → wk_active c !! id = Some job →
  own_request sha256 id (sha256 (lj_leaseToken job)) m = true.
Proof.
  intros [Hs Hact _ _ _ _ _] Ha Hx Hr Hj.
  destruct (an_live _ _ _ _ _ Ha x id Hx Hr) as (t0 & Hask & Hlat).
  destruct (Hs m id t0) as (n & k & Hn & Hk & Hle); [apply elem_of_app; left; left|by apply asks_presents|].
  destruct (Hact id job Hj) as (_ & n' & Hn' & Hk'). simplify_eq.
  specialize (Hlat n Hn k _ Hn' eq_refl). assert (n = k) as -> by lia.
  apply own_request_spec. exists t0. split; [done|]. by eapply tok_hash.
Qed.

(** The waiting of a job when a request is answered. *)
Lemma awaits_answered started started' c m u d p o rs id job :
  link_ok tokens executed started seen r (mkLink c (Some (mkStream (m :: u) d p)) o) →
  (∀ id h, started id = Some h → started' id = Some h) → answers tokens started' r m rs →
  wk_active c !! id = Some job → waiting (lj_phase job) = true →
  awaits sha256 started' r id job executed u (d ++ rs).
Proof.
  intros Hok Hst Ha Hj Hwt. destruct (lk_waiting _ _ _ _ _ _ _ Hok id job Hj Hwt) as [Hk Hone Hsta Hf].
  cbn [up down ln_stream sm_up sm_down] in Hk, Hone, Hsta. rewrite count_cons in Hone.
  destruct (own_request sha256 id (sha256 (lj_leaseToken job)) m) eqn:Hown.
  - apply own_request_spec in Hown as (t & Hask & Ht).
    pose proof (count_nonneg (own_request sha256 id (sha256 (lj_leaseToken job))) u). pose proof (count_nonneg (own_answer id) d).
    assert (Hd : ∀ x, x ∈ d → own_answer id x = false) by (apply count_zero; lia).
    destruct (an_one _ _ _ _ _ Ha _ id t Hwt (Hk m t (list_elem_of_here _ _) Hask Ht)) as [->|(e & -> & Hs)].
    + split; [| |by intros Hp x [Hx|?%not_elem_of_nil]%elem_of_app Hr;
        [specialize (Hd x Hx); unfold own_answer in Hd; rewrite bool_decide_eq_true_2 in Hd|]|done].
      * intros m' t' Hm'. apply Hk. by right.
      * rewrite app_nil_r. lia.
    + split; [| |intros Hp _ _ _; by rewrite <-Ht, Hs|done].
      * intros m' t' Hm'. apply Hk. by right.
      * rewrite count_app, (count_none _ d Hd). unfold count at 2. simpl. destruct (own_answer _ _); simpl; lia.
  - assert (Hrs : ∀ x, x ∈ rs → own_answer id x = false).
    { intros x Hx. apply bool_decide_eq_false. intros Hr. by rewrite (renewal_own _ _ _ _ _ _ _ _ _ _ _ _ Hok Ha Hx Hr Hj) in Hown. }
    split; [| | |done].
    + intros m' t' Hm'. apply Hk. by right.
    + rewrite count_app, (count_none _ rs Hrs). lia.
    + intros Hp x [Hx|Hx]%elem_of_app Hr; [by eapply Hst, Hsta|].
      specialize (Hrs x Hx). unfold own_answer in Hrs. by rewrite bool_decide_eq_true_2 in Hrs.
Qed.

Lemma receive_ok started started' c m u d p p' o rs :
  link_ok tokens executed started seen r (mkLink c (Some (mkStream (m :: u) d p)) o) →
  (∀ id h, started id = Some h → started' id = Some h) → answers tokens started' r m rs →
  issuing p = [] → issuing p' = [] →
  link_ok tokens executed started' seen r (mkLink c (Some (mkStream u (d ++ rs) p')) o).
Proof.
  intros Hok Hst Ha Hp Hp'. pose proof Hok as [Hs Hact (ns & Hns & Hc) Ho Hw He Hb].
  split; cbn [up down old_up coming ln_client ln_stream ln_orphan sm_up sm_down sm_phase] in *.
  - intros m' id t Hm'. apply Hs. apply elem_of_app in Hm' as [?|?]; apply elem_of_app; [left; by right|by right].
  - done.
  - exists ns. split; [done|]. rewrite Hp in Hc. rewrite Hp', omap_app.
    assert (omap assigns rs = []) as ->; [|by rewrite app_nil_r].
    pose proof (an_plain _ _ _ _ _ Ha) as Hplain. clear -Hplain. induction rs as [|x rs IH]; [done|]. cbn.
    rewrite Hplain by left. apply IH. intros y Hy. apply Hplain. by right.
  - intros pre x post id Heq Hx y Hy Hr. destruct (assigns x) as [[i t]|] eqn:Hax; [|done]. injection Hx as ->.
    assert (Hxd : ∃ post', d = pre ++ x :: post' ∧ post = post' ++ rs).
    { apply app_eq_inv in Heq as [(k & -> & Hk)|(k & -> & Hk)].
      - destruct k as [|x' k]; [|injection Hk as <- ->; by exists k].
        exfalso. simpl in Hk. assert (Hin : x ∈ rs) by (rewrite <-Hk; left). by rewrite (an_plain _ _ _ _ _ Ha x Hin) in Hax.
      - exfalso. assert (Hin : x ∈ rs) by (rewrite Hk; apply elem_of_app; right; left).
        by rewrite (an_plain _ _ _ _ _ Ha x Hin) in Hax. }
    destruct Hxd as (post' & -> & ->). apply elem_of_app in Hy as [Hy|Hy].
    + eapply (Ho pre x post' id); [done|by rewrite Hax|exact Hy|done].
    + eapply (renewal_not_coming started started'); [exact Hok|exact Ha|exact Hy|exact Hr|].
      apply list_elem_of_omap. exists x. split; [|exact Hax]. apply elem_of_app. right. left.
  - intros id job Hj Hwt. by eapply (awaits_answered started started').
  - done.
  - done.
Qed.

Abbreviation ok tokens := (λ started, link_ok tokens executed started seen r).

(** A handler that returns. *)
Lemma close_ok started c u d p o :
  ok tokens started (mkLink c (Some (mkStream u d p)) o) → ok tokens started (mkLink c (Some (mkStream u d Closed)) o).
Proof.
  intros [H1 H2 (ns & Hns & Hc) H4 H5 H6 H7]. split; [done|done| |done|done|done|done].
  cbn [coming ln_stream sm_down sm_phase issuing] in *. rewrite app_nil_r.
  apply Forall2_app_inv_l in Hc as (n1 & n2 & Hc & _ & ->). exists n1. split; [|done].
  clear -Hns. induction n1 as [|n n1 IH]; [constructor|]. apply Sorted.StronglySorted_inv in Hns as [Hs Hf].
  apply Forall_app in Hf as [Hf _]. constructor; auto.
Qed.

Lemma phase_ok started c u d p p' o :
  ok tokens started (mkLink c (Some (mkStream u d p)) o) → issuing p = issuing p' →
  ok tokens started (mkLink c (Some (mkStream u d p')) o).
Proof. intros [H1 H2 H3 H4 H5 H6 H7] Hp. split; try done. cbn in *. by rewrite <-Hp. Qed.

(** The orphan's queue of requests only shrinks. *)
Lemma orphan_ok started c s st st' :
  ok tokens started (mkLink c s (Some st)) → (∀ m, m ∈ sm_up st' → m ∈ sm_up st) →
  ok tokens started (mkLink c s (Some st')).
Proof.
  intros [H1 H2 H3 H4 H5 H6 H7] Hu. split; [|done..]. intros m id t Hm. apply H1.
  apply elem_of_app in Hm as [?|Hm]; apply elem_of_app; [by left|right]. by apply Hu.
Qed.

(** A new token. *)
Lemma claim_ok started c u d o a :
  ok tokens started (mkLink c (Some (mkStream u d Claiming)) o) →
  ok (tokens ++ [(sha256 (as_LeaseToken a), Some r, as_JobID a)]) started (mkLink c (Some (mkStream u d (Issuing a))) o).
Proof.
  intros Hok. pose proof (link_ok_mono _ _ [(sha256 (as_LeaseToken a), Some r, as_JobID a)] _ executed _ started _ _ _ Hok) as Hm.
  destruct Hm as [H1 H2 (ns & Hns & Hc) H4 H5 H6 _]; [done|done|]. pose proof (lk_seen _ _ _ _ _ _ _ Hok) as Hb.
  pose proof (lk_coming _ _ _ _ _ _ _ Hok) as (ns' & Hns' & Hc'). clear Hok Hns Hc ns.
  split; [done|done| |done|done|done|].
  - cbn [coming ln_stream sm_down sm_phase issuing] in *. rewrite app_nil_r in Hc'. exists (ns' ++ [length tokens]). split.
    + assert (Hlt : Forall (λ n, (n < length tokens)%nat) ns').
      { apply Forall_forall. intros n [i Hi]%list_elem_of_lookup. destruct (Forall2_lookup_r _ _ _ _ _ Hc' Hi) as (x & _ & Hx & _).
        by eapply tok_bound. }
      clear -Hns' Hlt. induction ns' as [|n ns IH]; [repeat constructor|]. apply Sorted.StronglySorted_inv in Hns' as [Hs Hf].
      apply Forall_cons in Hlt as [Hn Hlt]. cbn. constructor; [by apply IH|]. apply Forall_app. split; [done|]. by constructor.
    + apply Forall2_app; [|constructor; [|constructor]].
      * eapply Forall2_impl; [exact Hc'|]. intros x n [? ?]. split; [by apply tok_mono|done].
      * split; [|apply Hb]. unfold WorkInv.tok. by rewrite lookup_app_r, Nat.sub_diag by done.
  - intros id k Hk%Hb. rewrite length_app. lia.
Qed.

(** The assignment is sent. *)
Lemma issue_ok started c u d o a x :
  ok tokens started (mkLink c (Some (mkStream u d (Issuing a))) o) →
  assigns x = Some (as_JobID a, as_LeaseToken a) → renews x = None →
  ok tokens started (mkLink c (Some (mkStream u (d ++ [x]) Claiming)) o).
Proof.
  intros [H1 H2 H3 H4 H5 H6 H7] Hx Hr. split; cbn [up down old_up coming ln_client ln_stream ln_orphan sm_up sm_down sm_phase issuing] in *;
    [done|done| | | |done|done].
  - rewrite omap_app, app_nil_r. cbn [omap list_omap]. by rewrite Hx.
  - intros pre y post id Heq Hy z Hz Hrz. apply app_eq_inv in Heq as [(k & -> & Hk)|(k & -> & Hk)].
    + destruct k as [|y' k]; simpl in Hk; [injection Hk as -> ->; by apply not_elem_of_nil in Hz|].
      injection Hk as <- ->. apply elem_of_app in Hz as [Hz|Hz]; [by eapply (H4 pre y k id)|].
      apply list_elem_of_singleton in Hz as ->. by rewrite Hr in Hrz.
    + destruct k as [|y' k]; simpl in Hk; [injection Hk as <- <-; by apply not_elem_of_nil in Hz|]. by destruct k.
  - intros id job Hj Hwt. assert (Hn : own_answer id x = false) by (unfold own_answer; by rewrite Hr).
    destruct (H5 id job Hj Hwt) as [Hk Hone Hs Hf]. split; [done| | |done].
    + rewrite count_app, count_cons, Hn. unfold count at 3. simpl. lia.
    + intros Hp y [Hy|Hy%list_elem_of_singleton]%elem_of_app Hry; [by eapply Hs|]. subst y. by rewrite Hr in Hry.
Qed.
End Link.

(** ** Handlers *)

(** The jobs that are started stay started under the same lease. *)
Definition ghost_grows (started started' : uuid → option string) : Prop :=
  ∀ id h, started id = Some h → started' id = Some h.
Lemma ghost_grows_refl started : ghost_grows started started.
Proof. by intros id h. Qed.
#[local] Hint Resolve ghost_grows_refl : core.

Lemma receive_spec tokens started r found locked outbox_id m d d' res :
  NoDup tokens.*1.*1 → db_ok tokens started d →
  Work sha256 (store_of sha256 uuid_String locked outbox_id) found (Some m) d = (d', res) →
  ∃ started', ghost_grows started started' ∧ db_ok tokens started' d' ∧
    answers tokens started' r m (match res with Ok rs => rs | Err _ => [] end).
Proof.
  intros Hnd Hd Hw. destruct (Work_spec _ _ _ _ _ _ _ _ _ Hw) as [He Hrs].
  pose proof (db_ok_evolves _ _ _ _ Hd He) as Hd'.
  assert (Hlive : ∀ rs, res = Ok rs → (∀ x, x ∈ rs → assigns x = None) ∧
    ∀ x id, x ∈ rs → renews x = Some id → ∃ t, (id, t) ∈ asks m ∧ ∀ n, tok tokens r id t n → latest tokens id n).
  { intros rs Hres. split; [intros x Hx; by eapply Hrs|]. intros x id Hx Hr. destruct (Hrs rs x Hres Hx) as [_ Hl].
    destruct (Hl id Hr) as (t & Hask & Ht). exists t. split; [done|]. intros n Hn.
    exact (live_latest _ _ _ _ _ _ _ _ Hnd Hd Ht Hn). }
  destruct res as [rs|e].
  2: { exists started. split; [done|]. split; [done|]. split; [by intros x ?%not_elem_of_nil|by intros x id ?%not_elem_of_nil|by left]. }
  destruct (Hlive rs eq_refl) as [Hplain Hren].
  assert (Hcase : (∃ id t, m = JobStarted (mkReceipt (Some id) t)) ∨ ∀ id t, m ≠ JobStarted (mkReceipt (Some id) t)).
  { destruct m as [h|k|[[i0|] t0]|k|i0 t0 k]; [| |left; by exists i0, t0|..]; right; by intros ? ? [=]. }
  destruct Hcase as [(id & t & ->)|Hno].
  - destruct (Work_started _ _ _ _ _ _ _ _ _ _ (do_ids _ _ _ Hd) Hw) as (j' & Hj' & Hid & Hrun & Hh).
    destruct (db_ok_start _ _ _ _ id _ Hd' Hj' Hid Hrun Hh) as [Hd2 Hext].
    exists (<[id := Some (sha256 t)]> started). split; [exact Hext|]. split; [done|]. split; [done|done|].
    intros p i t' Hp Heq. right. destruct (Work_receipt _ _ _ _ _ true _ _ _ _ _ Hw) as [e ->].
    destruct p; try done. injection Heq as <- <-. exists e. split; [done|]. intros _. by rewrite fn_lookup_insert.
  - exists started. split; [done|]. split; [done|]. split; [done|done|]. intros p i t' Hp ->. right.
    destruct p; [|by destruct (Hno i t')|done..].
    destruct (Work_receipt _ _ _ _ _ false _ _ _ _ _ Hw) as [e ->]. by exists e.
Qed.

Lemma serve_spec tokens started r e d st d' tokens' st' :
  NoDup tokens.*1.*1 → db_ok tokens started d →
  serve sha256 uuid_String encode_plan r e d tokens st = Some (d', tokens', st') →
  ∃ started' more, tokens' = tokens ++ more ∧ NoDup tokens'.*1.*1 ∧ db_ok tokens' started' d' ∧ ghost_grows started started' ∧
    (∀ executed seen c o, link_ok tokens executed started seen r (mkLink c (Some st) o) →
       link_ok tokens' executed started' seen r (mkLink c (Some st') o)) ∧
    (∀ m, m ∈ sm_up st' → m ∈ sm_up st).
Proof.
  intros Hnd Hd. destruct st as [u dn p]. unfold serve. cbn [sm_phase sm_up sm_down].
  assert (Hsame : ∀ p', issuing p' = issuing p → db_ok tokens started d' →
    Some (d', tokens, mkStream u dn p') = Some (d', tokens', st') → ∃ started' more, tokens' = tokens ++ more ∧
      NoDup tokens'.*1.*1 ∧ db_ok tokens' started' d' ∧ ghost_grows started started' ∧
      (∀ executed seen c o, link_ok tokens executed started seen r (mkLink c (Some (mkStream u dn p)) o) →
         link_ok tokens' executed started' seen r (mkLink c (Some st') o)) ∧ (∀ m, m ∈ sm_up st' → m ∈ u)).
  { intros p' Hp Hd' [= <- <-]. exists started, []. rewrite app_nil_r. split_and!; try done.
    intros executed seen c o Hl. by eapply phase_ok. }
  assert (Hclose : db_ok tokens started d' →
    Some (d', tokens, mkStream u dn Closed) = Some (d', tokens', st') → ∃ started' more, tokens' = tokens ++ more ∧
      NoDup tokens'.*1.*1 ∧ db_ok tokens' started' d' ∧ ghost_grows started started' ∧
      (∀ executed seen c o, link_ok tokens executed started seen r (mkLink c (Some (mkStream u dn p)) o) →
         link_ok tokens' executed started' seen r (mkLink c (Some st') o)) ∧ (∀ m, m ∈ sm_up st' → m ∈ u)).
  { intros Hd' [= <- <-]. exists started, []. rewrite app_nil_r. split_and!; try done.
    intros executed seen c o Hl. by eapply close_ok. }
  destruct p as [| | |a|], e as [found locked outbox_id|locked token|credentials now locked outbox_id|]; try done;
    try (intros Heq; assert (d' = d) as -> by congruence; by apply Hclose).
  - destruct u as [|m u]; [done|]. destruct (_ <>? r); [done|].
    destruct (Work _ _ _ _ d) as [d1 res] eqn:Hw. destruct (receive_spec _ _ r _ _ _ _ _ _ _ Hnd Hd Hw) as (started' & Hext & Hd1 & Ha).
    intros Heq. exists started', []. rewrite app_nil_r.
    assert (Hst : ∃ p', d' = d1 ∧ tokens' = tokens ∧ issuing p' = [] ∧
      st' = mkStream u (dn ++ match res with Ok rs => rs | Err _ => [] end) p').
    { destruct res as [rs|err]; injection Heq as <- <- <-; [|exists Closed; by rewrite app_nil_r].
      exists (match m with Heartbeat _ => Claiming | _ => Receiving end). by destruct m. }
    destruct Hst as (p' & -> & -> & Hp' & ->). split_and!; try done.
    + intros executed seen c o Hl. by eapply receive_ok.
    + intros m' Hm'. by right.
  - case_bool_decide as Hfresh; [done|]. destruct (claim_turn _ _ d) as [d1 res] eqn:Hc.
    apply (claim_turn_spec _ _ _ _ _ _ _ _ _ (do_ids _ _ _ Hd)) in Hc.
    destruct res as [[a|]|err]; [destruct Hc as [Htok Hcl]| |].
    + intros [= <- <- <-]. exists started, [(sha256 token, Some r, as_JobID a)].
      split_and!; [done| |by eapply db_ok_claimed|done| |done].
      * rewrite !fmap_app. apply NoDup_app. split; [done|]. split; [|apply NoDup_singleton].
        by intros h Hh ->%list_elem_of_singleton.
      * intros executed seen c o Hl. rewrite <-Htok. by apply claim_ok.
    + subst d1. intros Heq. assert (d' = d) as -> by congruence. by apply (Hsame Receiving).
    + subst d1. intros Heq. assert (d' = d) as -> by congruence. by apply Hclose.
  - destruct (issue_turn _ _ _ _ _ d) as [d1 res] eqn:Hi. apply issue_turn_spec in Hi as [He Hm].
    pose proof (db_ok_evolves _ _ _ _ Hd He) as Hd1. destruct res as [message|err].
    + intros [= <- <- <-]. exists started, []. rewrite app_nil_r. split_and!; try done.
      intros executed seen c o Hl. eapply issue_ok; [exact Hl|by apply Hm|done].
    + intros Heq. assert (d' = d1) as -> by congruence. by apply Hclose.
Qed.

(** ** All steps *)

(** One link changes; the store, the tokens and what has started only grow. *)
Lemma sys_ok_link s d more executed' started started' seen seen' r l :
  sys_ok s started seen → NoDup (sy_tokens s ++ more).*1.*1 → db_ok (sy_tokens s ++ more) started' d → ghost_grows started started' →
  link_ok (sy_tokens s ++ more) executed' started' seen' r l →
  (∀ r' id t, r' ≠ r → (r', id, t) ∈ executed' → (r', id, t) ∈ sy_executed s) →
  (∀ r' id t, (r', id, t) ∈ executed' → started' id = Some (sha256 t)) → NoDup ((λ x, x.1.2) <$> executed') →
  sys_ok (mkSystem d (<[r := l]> (sy_links s)) (sy_tokens s ++ more) executed') started' (<[r := seen']> seen).
Proof.
  intros Hs Hnd Hd Hext Hl Hex Hst Hone. split; cbn [sy_db sy_links sy_tokens sy_executed]; [done|done| |done|done].
  intros r'. destruct (decide (r' = r)) as [->|Hne]; [by rewrite !fn_lookup_insert|].
  rewrite !fn_lookup_insert_ne by done. eapply link_ok_mono; [by apply Hs|exact Hext|]. intros id t. by apply Hex.
Qed.

Lemma set_link_ok s started seen r seen' l :
  sys_ok s started seen → link_ok (sy_tokens s) (sy_executed s) started seen' r l →
  sys_ok (set_link r l s) started (<[r := seen']> seen).
Proof.
  intros Hs Hl. unfold set_link. rewrite <-(app_nil_r (sy_tokens s)) in Hl |- *.
  eapply sys_ok_link; rewrite ?app_nil_r in *; try done; apply Hs.
Qed.

(** Tokens and rows change, the links do not. *)
Lemma store_ok s d more started seen :
  sys_ok s started seen → NoDup (sy_tokens s ++ more).*1.*1 → db_ok (sy_tokens s ++ more) started d →
  sys_ok (mkSystem d (sy_links s) (sy_tokens s ++ more) (sy_executed s)) started seen.
Proof.
  intros Hs Hnd Hd. split; [done|done| |apply Hs|apply Hs]. intros r. by eapply link_ok_mono; [apply Hs|..].
Qed.

Lemma fresh_tokens tokens h r id : NoDup tokens.*1.*1 → h ∉ tokens.*1.*1 → NoDup (tokens ++ [(h, r, id)] : list (string * option uuid * uuid)).*1.*1.
Proof.
  intros Hnd Hf. rewrite !fmap_app. apply NoDup_app. split; [done|]. split; [|apply NoDup_singleton].
  by intros x Hx ->%list_elem_of_singleton.
Qed.

(** The executions of a turn are the first of their jobs. *)
Lemma starts_once s started seen r new :
  sys_ok s started seen → starts sha256 (sy_tokens s) (sy_executed s) started r new →
  (∀ r' id t, (r', id, t) ∈ new ++ sy_executed s → started id = Some (sha256 t)) ∧
  (∀ r' id t, r' ≠ r → (r', id, t) ∈ new ++ sy_executed s → (r', id, t) ∈ sy_executed s) ∧
  NoDup ((λ x, x.1.2) <$> new ++ sy_executed s).
Proof.
  intros Hs [->|(id & t & n & -> & Hst & Hn & Hf)]; [split_and!; [apply Hs|done|apply Hs]|]. split_and!.
  - intros r' i t' [[= -> -> ->]|Hin]%elem_of_cons; [done|]. by eapply so_executed.
  - intros r' i t' Hne [[= -> -> ->]|Hin]%elem_of_cons; done.
  - cbn. apply NoDup_cons. split; [|apply Hs]. intros ([[r0 i0] t0] & Heq & Hin)%list_elem_of_fmap. cbn in Heq. subst i0.
    pose proof (so_executed _ _ _ _ Hs _ _ _ Hin) as Hst0. assert (Hh : sha256 t0 = sha256 t) by congruence.
    destruct (lk_executed _ _ _ _ _ _ _ (so_links _ _ _ _ Hs r0) _ _ Hin) as (n0 & _ & Hn0 & _).
    destruct (tok_inj _ _ _ _ _ _ _ _ _ _ (so_tokens _ _ _ _ Hs) Hn0 Hn Hh) as (_ & -> & _). by apply (Hf t0).
Qed.

Abbreviation step := (step sha256 uuid_String json_unmarshal encode_plan url_Parse decode_plan caps).

Lemma client_step_ok s s' started seen r e :
  sys_ok s started seen → client_step url_Parse decode_plan caps r e s = Some s' → ∃ seen', sys_ok s' started seen'.
Proof.
  intros Hs. unfold client_step. destruct (ln_stream (sy_links s r)) as [st|] eqn:Hst; [|done].
  destruct (client_turn _ _ _ _ _ _) as [[[[c' messages] err] down']|] eqn:Ht; [|done]. intros [= <-].
  destruct (client_link_ok _ _ _ _ _ _ _ _ _ _ _ _ _ _ _ _ (so_tokens _ _ _ _ Hs) (so_links _ _ _ _ Hs r) Hst Ht) as (seen' & Hstart & Hl).
  destruct (starts_once _ _ _ _ _ Hs Hstart) as (H1 & H2 & H3). exists (<[r := seen']> seen).
  rewrite <-(app_nil_r (sy_tokens s)) at 1. eapply sys_ok_link; rewrite ?app_nil_r; try done; apply Hs.
Qed.

Lemma serve_step_ok s s' started seen r orphan e :
  sys_ok s started seen → serve_step sha256 uuid_String encode_plan r orphan e s = Some s' →
  ∃ started' seen', sys_ok s' started' seen'.
Proof.
  intros Hs. unfold serve_step. set (l := sy_links s r). pose proof (so_links _ _ _ _ Hs r) as Hl. fold l in Hl.
  destruct (if orphan then ln_orphan l else ln_stream l) as [st|] eqn:Hst; [|done].
  destruct (serve _ _ _ _ _ _ _ _) as [[[d' tokens'] st']|] eqn:Hv; [|done]. intros [= <-].
  destruct (serve_spec _ _ _ _ _ _ _ _ _ (so_tokens _ _ _ _ Hs) (so_db _ _ _ _ Hs) Hv) as (started' & more & -> & Hnd & Hd & Hext & Hlink & Hup).
  exists started', (<[r := seen r]> seen). eapply sys_ok_link; [exact Hs|done|done|done| |done| |apply Hs].
  - destruct l as [c o1 o2], orphan; cbn in Hst |- *; subst.
    + eapply orphan_ok; [|exact Hup]. by eapply link_ok_mono.
    + by apply Hlink.
  - intros r' id t Hin. apply Hext. by eapply so_executed.
Qed.

Lemma begin_step_ok s s' started seen r :
  sys_ok s started seen → begin_step r s = Some s' → ∃ seen', sys_ok s' started seen'.
Proof.
  intros Hs. unfold begin_step. pose proof (so_links _ _ _ _ Hs r) as Hl. destruct (sy_links s r) as [c [[u d []]|] o]; try done.
  cbn [ln_stream ln_client ln_orphan] in *. destruct (beginSession _ _) as [g accepted]. intros [= <-].
  eexists. apply set_link_ok; [exact Hs|]. eapply phase_ok; [exact Hl|by destruct accepted].
Qed.

Lemma restart_ok tokens executed started seen r l :
  NoDup tokens.*1.*1 → link_ok tokens executed started seen r l →
  link_ok tokens executed started seen r (mkLink work_start None (ln_orphan (disconnect l))).
Proof.
  intros Hnd Hl%disconnect_ok. apply (settles_link_ok _ _ _ _ _ _ (disconnect l) work_start Hnd Hl).
  split; [intros id job Hj; cbn in Hj; by rewrite lookup_empty in Hj|by intros m id t ?%not_elem_of_nil|cbn; lia].
Qed.

Lemma step_ok a s s' started seen :
  sys_ok s started seen → step a s = Some s' → ∃ started' seen', sys_ok s' started' seen'.
Proof.
  intros Hs. pose proof (so_tokens _ _ _ _ Hs) as Hnd.
  destruct a as [r order|r|r|r e|r e|r|r orphan e|o|locked token now]; cbn [WorkSystem.step].
  - unfold connect. pose proof (so_links _ _ _ _ Hs r) as Hl. destruct (ln_stream (sy_links s r)) as [st|] eqn:Hst; [done|].
    destruct (in_order order (ln_client (sy_links s r))) as [jobs|] eqn:Hv; [|done]. intros [= <-].
    exists started. eexists. apply set_link_ok; [exact Hs|]. by eapply connect_link_ok.
  - intros [= <-]. exists started. eexists. apply set_link_ok; [exact Hs|]. apply disconnect_ok, Hs.
  - intros [= <-]. exists started. eexists. apply set_link_ok; [exact Hs|]. apply restart_ok; [done|apply Hs].
  - intros Hc. exists started. by eapply client_step_ok.
  - destruct (quiet_turn _ e _) as [c'|] eqn:Hq; [|done]. intros [= <-]. exists started. eexists. apply set_link_ok; [exact Hs|].
    eapply settles_link_ok; [done|apply Hs|]. eapply quiet_settles; [|exact Hq].
    intros id job Hj. by apply (lk_active _ _ _ _ _ _ _ (so_links _ _ _ _ Hs r)).
  - intros Hb. exists started. by eapply begin_step_ok.
  - intros Hv. eapply serve_step_ok; [exact Hs|exact Hv].
  - destruct (is_claim o) eqn:Ho; [done|]. intros [= <-]. exists started, seen. rewrite <-(app_nil_r (sy_tokens s)).
    apply store_ok; rewrite ?app_nil_r; [done|done|]. eapply db_ok_evolves; [apply Hs|by apply pg_exec_evolves].
  - case_bool_decide as Hf; [done|]. destruct (PgClaimJob _ _ _ _ _) as [d res] eqn:Hc.
    apply PgClaimJob_claimed in Hc; [|apply (so_db _ _ _ _ Hs)]. destruct res as [[a|]|err]; intros [= <-].
    + destruct Hc as [_ Hc]. exists started, seen. apply store_ok; [done|by apply fresh_tokens|]. by eapply db_ok_claimed; [apply Hs|].
    + subst d. exists started, seen. by destruct s.
    + subst d. exists started, seen. by destruct s.
Qed.

Lemma reachable_ok s :
  sys_reachable sha256 uuid_String json_unmarshal encode_plan url_Parse decode_plan caps s → ∃ started seen, sys_ok s started seen.
Proof.
  induction 1 as [d (_ & Hrows & _)|a s s' _ (started & seen & Hs) Hstep]; [|by eapply step_ok].
  exists (λ _, None), (λ _ _, None). split; [| | | |constructor]; cbn [system_start sy_db sy_tokens sy_links sy_executed].
  - split; rewrite ?Hrows; [constructor|by intros j h ?%not_elem_of_nil|done].
  - constructor.
  - intros r. split; cbn.
    + by intros m id t ?%not_elem_of_nil.
    + intros id job Hj. cbn in Hj. by rewrite lookup_empty in Hj.
    + exists []. split; constructor.
    + by intros [|? ?].
    + intros id job Hj. cbn in Hj. by rewrite lookup_empty in Hj.
    + by intros id t ?%not_elem_of_nil.
    + done.
  - by intros r id t ?%not_elem_of_nil.
Qed.
End Steps.
