(* ===== verification/WorkTrace.v ===== *)
(** What a runner keeps is traced to the executions that it started: running executions,
    posted results, jobs past their start and completions on their way all carry the lease
    of an execution; and the jobs never outnumber the capacity. *)

From stdpp Require Import functions.
From S2P Require Import Prelude GoStd RunModel Pipeline RunnerAuth Database PgStore LeaseStore PgLease PgRuns Logs WorkProtocol WorkClient WorkServer WorkDatabase WorkFacts WorkSystem WorkInv WorkSteps.

Abbreviation executions := (list (uuid * uuid * string)).

Record traced (executed : executions) (capacity : Z) (r : uuid) (s : workState) : Prop := {
  tr_running : ∀ id t, (id, t) ∈ wk_executions s → (r, id, t) ∈ executed;
  tr_results : ∀ res t, (res, t) ∈ wk_results s → (r, er_jobID res, t) ∈ executed;
  tr_active : ∀ id job, wk_active s !! id = Some job →
    lj_id job = id ∧ (waiting (lj_phase job) = false → (r, id, lj_leaseToken job) ∈ executed);
  tr_size : Z.of_nat (size (wk_active s)) ≤ Z.max 0 capacity;
}.

(** Completions name executions. *)
Definition reports (executed : executions) (r : uuid) (messages : list WorkRequest) : Prop :=
  ∀ c, JobCompleted (Some c) ∈ messages → ∃ id, wp_JobId c = Some id ∧ (r, id, wp_LeaseToken c) ∈ executed.

Definition reports_nil executed r : reports executed r [].
Proof. by intros c ?%not_elem_of_nil. Qed.
#[export] Hint Resolve reports_nil : core.

Lemma reports_app executed r l1 l2 : reports executed r (l1 ++ l2) ↔ reports executed r l1 ∧ reports executed r l2.
Proof.
  unfold reports. split; [intros Hr; split; intros c Hc; apply Hr, elem_of_app; auto|].
  intros [H1 H2] c [?|?]%elem_of_app; auto.
Qed.

Lemma reports_mono executed executed' r messages : executed ⊆ executed' → reports executed r messages → reports executed' r messages.
Proof. intros Hs Hr c Hc. destruct (Hr c Hc) as (id & ? & ?). exists id. split; [done|by apply Hs]. Qed.

Lemma traced_mono executed executed' capacity r s : executed ⊆ executed' → traced executed capacity r s → traced executed' capacity r s.
Proof.
  intros Hs [H1 H2 H3 H4]. split; [by eauto..| |done]. intros id job Hj. destruct (H3 id job Hj) as [? Hw]. eauto.
Qed.

Section Turns.
Context (executed : executions) (capacity : Z) (r : uuid).

Abbreviation ok := (traced executed capacity r).
Abbreviation fine := (reports executed r).

(** A message that is no completion. *)
Lemma reports_other m : (∀ c, m ≠ JobCompleted (Some c)) → fine [m].
Proof. intros Hm c Hc%list_elem_of_singleton. by subst m; destruct (Hm c). Qed.

Lemma reports_completion job res :
  (r, lj_id job, lj_leaseToken job) ∈ executed → fine [completionRequest job res].
Proof. intros He c [= ->]%list_elem_of_singleton. by exists (lj_id job). Qed.

(** A job that is stored again. *)
Lemma put_traced s id job job' :
  ok s → wk_active s !! id = Some job → lj_id job' = id →
  (waiting (lj_phase job') = false → (r, id, lj_leaseToken job') ∈ executed) → ok (put_job job' s).
Proof.
  intros [H1 H2 H3 H4] Hj Hid Hw. split; cbn [put_job wk_with_active wk_active wk_executions wk_results]; [done..| |].
  - rewrite Hid. intros i k. intros [[<- <-]|[_ Hk]]%lookup_insert_Some; [done|by apply H3].
  - rewrite Hid, map_size_insert_Some; [done|by eexists].
Qed.

(** The same with the same lease and phase. *)
Lemma update_traced s id job job' :
  ok s → wk_active s !! id = Some job → lj_id job' = lj_id job → lj_leaseToken job' = lj_leaseToken job →
  lj_phase job' = lj_phase job → ok (put_job job' s).
Proof.
  intros Hs Hj Hi Ht Hp. destruct (tr_active _ _ _ _ Hs id job Hj) as [Hid Hw].
  apply (put_traced s id job); [done|done|by rewrite Hi|]. by rewrite Ht, Hp.
Qed.

Lemma forget_traced s id : ok s → ok (forgetJob id s).
Proof.
  intros [H1 H2 H3 H4]. split; cbn [forgetJob wk_with_active wk_active wk_executions wk_results]; [done..| |].
  - intros i k [_ Hk]%lookup_delete_Some. by apply H3.
  - rewrite map_size_delete. destruct (wk_active s !! id); simpl; lia.
Qed.

Lemma forget_known_traced s id : ok s → ok (forget_known id s).
Proof. unfold forget_known. destruct (_ !! id); [apply forget_traced|done]. Qed.
End Turns.
#[export] Hint Resolve forget_traced forget_known_traced : core.

Section Client.
Variable url_Parse : string → option parsedURL.
Variable decode_plan : bytes → option PlanJob.
Context (capacity : Z) (r : uuid).

(** The executions after a turn. *)
Abbreviation after executed s s' := (new_executions r s s' ++ executed).

Lemma new_none s s' : wk_executions s' = wk_executions s → new_executions r s s' = [].
Proof. intros He. unfold new_executions. by rewrite He, Nat.sub_diag. Qed.

Lemma new_one s s' id t : wk_executions s' = (id, t) :: wk_executions s → new_executions r s s' = [(r, id, t)].
Proof.
  intros He. unfold new_executions. rewrite He. cbn [length]. rewrite Nat.sub_succ_l, Nat.sub_diag by done. done.
Qed.

Lemma assignment_traced executed now a s s' messages e :
  traced executed capacity r s → handle_assignment url_Parse decode_plan capacity now a s = (s', messages, e) →
  wk_executions s' = wk_executions s ∧ traced executed capacity r s' ∧ reports executed r messages.
Proof.
  intros Hs. unfold handle_assignment. destruct (decodeAssignment _ _ _ _) as [job|err] eqn:Hd; [|by intros [= <- <- <-]].
  apply decodeAssignment_spec in Hd as (b & -> & _ & _ & Hph).
  destruct (wk_active s !! lj_id job) as [existing|] eqn:Hex.
  - case_bool_decide; simpl; intros [= <- <- <-]; (split_and!; [done|done|]); [|done].
    unfold resendTransition. destruct (lj_phase existing); first [done|by apply reports_other].
  - destruct (capacity <=? _) eqn:Hcap; [by intros [= <- <- <-]|].
    destruct (armLeaseDeadline now job) as [job' [|]] eqn:Harm; intros [= <- <- <-]; [|done].
    apply arm_continues in Harm as (Hi & Ht & Hp). split_and!; [done| |by apply reports_other].
    destruct Hs as [H1 H2 H3 H4]. split; cbn [put_job wk_with_active wk_active wk_executions wk_results]; [done..| |].
    + intros i k [[<- <-]|[_ Hk]]%lookup_insert_Some; [|by apply H3]. split; [done|]. by rewrite Hp, Hph.
    + bools. rewrite map_size_insert_None by (by rewrite Hi). lia.
Qed.

Lemma advance_traced executed s s0 id job0 job messages e :
  traced executed capacity r s → wk_active s !! id = Some job0 → lj_id job = lj_id job0 →
  lj_leaseToken job = lj_leaseToken job0 → lj_phase job = lj_phase job0 → advance job s = (s0, messages, e) →
  traced (after executed s s0) capacity r s0 ∧ reports (after executed s s0) r messages.
Proof.
  intros Hs Hj Hi Ht Hp. destruct (tr_active _ _ _ _ Hs id job0 Hj) as [Hid Hw]. rewrite Hid in Hi.
  unfold advance. destruct (lj_phase job) eqn:Hph.
  - intros [= <- <- <-]. rewrite new_none by done. split; [|by apply reports_other].
    by eapply put_traced; [exact Hs|exact Hj|..].
  - intros [= <- <- <-]. rewrite (new_one _ _ (lj_id job) (lj_leaseToken job)) by done. split; [|done].
    assert (Hput : traced ((r, id, lj_leaseToken job) :: executed) capacity r (put_job (lj_set_phase jobRunning job) s)).
    { eapply put_traced; [eapply traced_mono; [|exact Hs]; by right|exact Hj|done|]. intros _. left. }
    rewrite Hi. destruct Hput as [H1 H2 H3 H4]. split; [|done..]. cbn [start_execution wk_executions put_job wk_with_active].
    intros i t [[= -> ->]|Hin]%elem_of_cons; [rewrite Hi; left|right; by apply (tr_running _ _ _ _ Hs)].
  - intros [= <- <- <-]. rewrite new_none by done. split; [|done].
    by eapply update_traced; [exact Hs|exact Hj|rewrite Hi, Hid|..]; rewrite ?Hph.
  - rewrite <-Hp in Hw. assert (Hex : (r, lj_id job, lj_leaseToken job) ∈ executed) by (rewrite Hi, Ht; by apply Hw).
    assert (Hput : traced executed capacity r (put_job job s)).
    { by eapply update_traced; [exact Hs|exact Hj|rewrite Hi, Hid|..]; rewrite ?Hph. }
    destruct (lj_result job) as [res|]; intros [= <- <- <-]; rewrite new_none by done; (split; [done|]);
      [by apply reports_completion|done].
Qed.

Lemma renewal_traced executed now id expires s s' messages e :
  traced executed capacity r s → handle_renewal now id expires s = (s', messages, e) →
  traced (after executed s s') capacity r s' ∧ reports (after executed s s') r messages.
Proof.
  intros Hs. unfold handle_renewal. destruct expires as [t|]; [|intros [= <- <- <-]; by rewrite new_none].
  destruct (id ≫= _) as [job|] eqn:Hj; [|intros [= <- <- <-]; by rewrite new_none].
  destruct id as [id|]; [|done]. simpl in Hj.
  destruct (lj_authorityLost job); [intros [= <- <- <-]; rewrite new_none by done; auto|].
  destruct (resetLeaseDeadline now _) as [job' [|]] eqn:Hr;
    [|intros [= <- <- <-]; rewrite new_none by done; auto].
  apply reset_continues in Hr as (Hi & Ht & Hp). by apply (advance_traced executed s s' id job).
Qed.

Lemma response_traced executed now x s s' messages e :
  traced executed capacity r s → handleResponse url_Parse decode_plan capacity now (Some x) s = (s', messages, e) →
  traced (after executed s s') capacity r s' ∧ reports (after executed s s') r messages.
Proof.
  intros Hs. destruct x as [a|id t|id n|[id|]|[[id|]|]]; cbn [handleResponse].
  - intros (Hex & ? & ?)%(assignment_traced executed); [|done]. by rewrite new_none.
  - by apply renewal_traced.
  - destruct (n =? 0); [intros [= <- <- <-]; by rewrite new_none|].
    destruct id as [id|]; [|intros [= <- <- <-]; by rewrite new_none].
    intros [= <- <- <-]. rewrite new_none by (by destruct (_ !! id)). split; [|done].
    destruct (wk_active s !! id) as [job|] eqn:Hj; [|done].
    eapply update_traced; [exact Hs|exact Hj|..]; unfold ack_chunk; (destruct (lj_chunk job) as [c|]; [|done]); by destruct (_ =? n).
  - intros [= <- <- <-]. rewrite new_none by (unfold forget_known; by destruct (_ !! id)). auto.
  - intros [= <- <- <-]. by rewrite new_none.
  - intros [= <- <- <-]. rewrite new_none by (unfold forget_known; by destruct (_ !! id)). auto.
  - intros [= <- <- <-]. by rewrite new_none.
  - intros [= <- <- <-]. by rewrite new_none.
Qed.

Lemma result_traced executed now res s s' messages e :
  traced executed capacity r s → handle_result now res s = (s', messages, e) →
  wk_executions s' = wk_executions s ∧ traced executed capacity r s' ∧ reports executed r messages.
Proof.
  intros Hs. unfold handle_result. destruct (wk_active s !! er_jobID res) as [job|] eqn:Hj; [|by intros [= <- <- <-]].
  cbv zeta. destruct (lj_phase job <>? jobRunning) eqn:Hp; simpl.
  { intros [= <- <- <-]. destruct (_ || _); auto. }
  destruct (_ || _); [intros [= <- <- <-]; destruct (_ || _); auto|]. intros [= <- <- <-]. bools.
  destruct (tr_active _ _ _ _ Hs _ job Hj) as [Hid Hw].
  assert (Hph : lj_phase job = jobRunning) by (by destruct (lj_phase job)). rewrite Hph in Hw. specialize (Hw eq_refl).
  split_and!; [done| |apply reports_completion; cbn [lj_id lj_leaseToken lj_set]; by rewrite Hid].
  by eapply put_traced; [exact Hs|exact Hj|..].
Qed.

Lemma client_turn_traced capabilities executed ev s down s' messages err down' :
  wa_Capacity capabilities = capacity → traced executed capacity r s →
  client_turn url_Parse decode_plan capabilities ev s down = Some (s', messages, err, down') →
  traced (after executed s s') capacity r s' ∧ reports (after executed s s') r messages.
Proof.
  intros Hcap Hs. destruct ev as [now|now|order|order|id|]; cbn [client_turn]; rewrite ?Hcap.
  - destruct down as [|x rest]; [done|]. intros [= Hh <-]. by eapply response_traced.
  - destruct (take_result s) as [[res s1]|] eqn:Ht; [|done]. intros [= Hh <-].
    unfold take_result in Ht. destruct (wk_results s) as [|[res' t] rest] eqn:Hr; [done|]. injection Ht as -> <-.
    assert (Hs1 : traced executed capacity r (mkWorkState (wk_active s) (wk_executions s) rest (wk_sentLogs s))).
    { destruct Hs as [H1 H2 H3 H4]. split; [done| |done..]. intros res1 t1 Hin. apply H2. rewrite Hr. by right. }
    destruct (result_traced executed now res _ _ _ _ Hs1 Hh) as (Hex & ? & ?). by rewrite new_none.
  - destruct (in_order order s) as [jobs|]; [|done]. intros [= <- <- _ <-]. rewrite new_none by done.
    split; [done|by apply reports_other].
  - destruct (in_order order s) as [jobs|]; [|done]. intros [= Hh <-]. unfold handle_log_tick in Hh. cbv zeta in Hh.
    destruct (foldl tick_job _ jobs) as [sent l] eqn:Hf. injection Hh as <- <- _. rewrite new_none by done.
    split; [by destruct Hs|]. intros c Hc.
    assert (Hl : JobCompleted (Some c) ∈ (foldl tick_job (filter (λ '(id, _), is_Some (wk_active s !! id)) (wk_sentLogs s), []) jobs).2)
      by (by rewrite Hf). by apply log_tick_presents in Hl as [?%not_elem_of_nil|(? & ? & _ & ?)].
  - intros [= Hh <-]. unfold handle_loss in Hh. destruct (_ !! id) as [job|]; injection Hh as <- <- _;
      [|by rewrite new_none]. rewrite new_none by (by destruct (lj_authorityLost job)). destruct (lj_authorityLost job); auto.
  - intros [= <- <- _ <-]. by rewrite new_none.
Qed.

(** A turn starts at most one execution. *)
Lemma response_executions now x s s' messages e :
  handleResponse url_Parse decode_plan capacity now (Some x) s = (s', messages, e) →
  wk_executions s' = wk_executions s ∨ ∃ id t, wk_executions s' = (id, t) :: wk_executions s.
Proof.
  destruct x as [a|id t|id n|[id|]|[[id|]|]]; cbn [handleResponse]; try (by intros [= <- _ _]; left).
  - unfold handle_assignment. destruct (decodeAssignment _ _ _ _) as [job|err]; [|by intros [= <- _ _]; left].
    destruct (_ !! _); [destruct (_ <>? _); by intros [= <- _ _]; left|].
    destruct (_ <=? _); [by intros [= <- _ _]; left|]. destruct (armLeaseDeadline now job) as [job' [|]]; by intros [= <- _ _]; left.
  - unfold handle_renewal. destruct t as [t|]; [|by intros [= <- _ _]; left].
    destruct (id ≫= _) as [job|]; [|by intros [= <- _ _]; left].
    destruct (lj_authorityLost job); [by intros [= <- _ _]; left|].
    destruct (resetLeaseDeadline now _) as [job' [|]]; [|by intros [= <- _ _]; left].
    unfold advance. destruct (lj_phase job'); [by intros [= <- _ _]; left| |by intros [= <- _ _]; left|].
    + intros [= <- _ _]. right. by eexists _, _.
    + by destruct (lj_result job'); intros [= <- _ _]; left.
  - destruct (n =? 0); [by intros [= <- _ _]; left|]. destruct id as [id|]; intros [= <- _ _]; left; [|done]. by destruct (_ !! id).
  - intros [= <- _ _]. left. unfold forget_known. by destruct (_ !! id).
  - intros [= <- _ _]. left. unfold forget_known. by destruct (_ !! id).
Qed.

Lemma turn_executions capabilities ev s down s' messages err down' :
  wa_Capacity capabilities = capacity →
  client_turn url_Parse decode_plan capabilities ev s down = Some (s', messages, err, down') →
  wk_executions s' = wk_executions s ∨ ∃ id t, wk_executions s' = (id, t) :: wk_executions s.
Proof.
  intros Hcap. destruct ev as [now|now|order|order|id|]; cbn [client_turn]; rewrite ?Hcap.
  - destruct down as [|x rest]; [done|]. intros [= Hh _]. by eapply response_executions.
  - unfold take_result. destruct (wk_results s) as [|[res t] rest]; [done|]. intros [= Hh _]. left. revert Hh.
    unfold handle_result. cbn [wk_active]. destruct (_ !! _); [|by intros [= <- _ _]]. cbv zeta.
    destruct (_ || _); [destruct (_ || _)|]; by intros [= <- _ _].
  - destruct (in_order order s) as [jobs|]; [|done]. intros [= <- _ _ _]. by left.
  - destruct (in_order order s) as [jobs|]; [|done]. intros [= Hh _]. revert Hh. unfold handle_log_tick. cbv zeta.
    destruct (foldl tick_job _ jobs). intros [= <- _ _]. by left.
  - unfold handle_loss. destruct (_ !! id) as [job|]; [destruct (lj_authorityLost job)|]; intros [= <- _ _ _]; by left.
  - intros [= <- _ _ _]. by left.
Qed.

(** Outside the loop. *)
Lemma quiet_traced executed ev s s' :
  traced executed capacity r s → quiet_turn capacity ev s = Some s' → traced executed capacity r s'.
Proof.
  intros Hs. destruct ev as [i failed posted d|now id|id chunk]; cbn [quiet_turn].
  - destruct (wk_executions s !! i) as [[id t]|] eqn:Hx; [|done]. cbv zeta.
    destruct (if posted then _ else _); [|done]. intros [= <-]. unfold end_execution. rewrite Hx.
    pose proof (tr_running _ _ _ _ Hs id t (list_elem_of_lookup_2 _ _ _ Hx)) as Hex.
    destruct Hs as [H1 H2 H3 H4]. split; cbn [wk_executions wk_results wk_active]; [| |done..].
    + intros j u Hin. apply H1. eapply elem_of_submseteq; [exact Hin|apply sublist_submseteq, sublist_delete].
    + intros res u [?|Hin]%elem_of_app; [by apply H2|]. destruct posted; [|by apply not_elem_of_nil in Hin].
      apply list_elem_of_singleton in Hin as [= -> ->]. unfold executeJob. by destruct failed, (canceled (id, t) s).
  - intros [= <-]. unfold timer_fires. destruct (wk_active s !! id) as [job|] eqn:Hj; [|done].
    eapply update_traced; [exact Hs|exact Hj|..]; unfold fire_timer; (destruct (lj_leaseTimer job); [done| |done]); by destruct (_ <=? now).
  - intros [= <-]. unfold offer_chunk. destruct (wk_active s !! id) as [job|] eqn:Hj; [|done].
    by eapply update_traced; [exact Hs|exact Hj|..].
Qed.
End Client.

(** ** Reachable states *)

Section Reachable.
Context `{MapOrder}.
Variable sha256 : string → string.
Variable uuid_String : uuid → string.
Variable json_unmarshal : string → option Plan.
Variable encode_plan : PlanJob → option bytes.
Variable url_Parse : string → option parsedURL.
Variable decode_plan : bytes → option PlanJob.
Variable caps : uuid → RunnerCapabilities.

(** The requests of a link, on both of its streams. *)
Definition sent (l : link) : list WorkRequest :=
  match ln_stream l with Some s => sm_up s | None => [] end ++ match ln_orphan l with Some s => sm_up s | None => [] end.

Definition link_traced (executed : executions) (r : uuid) (l : link) : Prop :=
  traced executed (wa_Capacity (caps r)) r (ln_client l) ∧ reports executed r (sent l).

Lemma traced_start executed capacity r : traced executed capacity r work_start.
Proof.
  split; cbn [work_start wk_executions wk_results wk_active]; [by intros ? ? ?%not_elem_of_nil..| |].
  - intros id job. by rewrite lookup_empty.
  - rewrite map_size_empty. lia.
Qed.

Lemma disconnect_traced executed r l : link_traced executed r l → link_traced executed r (disconnect l).
Proof.
  unfold link_traced, sent, disconnect. cbn [ln_client ln_stream ln_orphan]. intros [? [? ?]%reports_app]. split; [done|].
  by destruct (serving (ln_stream l)).
Qed.

Lemma reconcile_reports executed r capabilities jobs : reports executed r (reconcile capabilities jobs).
Proof.
  intros c. unfold reconcile. intros [(l & Hc & (job & -> & _)%list_elem_of_fmap)%list_elem_of_join|Hc%list_elem_of_singleton]%elem_of_app;
    [|done]. unfold resendTransition in Hc. by destruct (lj_phase job); [apply list_elem_of_singleton in Hc..|apply not_elem_of_nil in Hc|apply not_elem_of_nil in Hc].
Qed.

(** A handler only takes requests away. *)
Lemma serve_up r e d tokens st d' tokens' st' :
  serve sha256 uuid_String encode_plan r e d tokens st = Some (d', tokens', st') → sm_up st' ⊆ sm_up st.
Proof.
  unfold serve. destruct (sm_phase st), e; try done.
  - destruct (sm_up st) as [|m rest] eqn:Hu; [done|]. destruct (_ <>? r); [done|].
    destruct (Work _ _ _ _ _) as [d1 [rs|err]]; intros [= _ _ <-]; cbn [sm_up]; by right.
  - by intros [= _ _ <-].
  - destruct (bool_decide _); [done|]. destruct (claim_turn _ _ _) as [d1 [[a|]|err]]; by intros [= _ _ <-].
  - by intros [= _ _ <-].
  - destruct (issue_turn _ _ _ _ _ _) as [d1 [m|err]]; by intros [= _ _ <-].
  - by intros [= _ _ <-].
Qed.

Lemma reports_sub executed r l1 l2 : l1 ⊆ l2 → reports executed r l2 → reports executed r l1.
Proof. intros Hs Hr c Hc. by apply Hr, Hs. Qed.

Definition system_traced (s : system) : Prop := ∀ r, link_traced (sy_executed s) r (sy_links s r).

(** Every other runner keeps what it has. *)
Lemma system_traced_link s s' r l :
  system_traced s → sy_executed s ⊆ sy_executed s' → sy_links s' = <[r := l]> (sy_links s) →
  link_traced (sy_executed s') r l → system_traced s'.
Proof.
  intros Hs Hsub Hl Hr r'. rewrite Hl. destruct (decide (r' = r)) as [->|Hne]; [by rewrite fn_lookup_insert|].
  rewrite fn_lookup_insert_ne by done. destruct (Hs r') as [? ?]. split; [by eapply traced_mono|by eapply reports_mono].
Qed.

Lemma client_step_traced s s' r e :
  system_traced s → client_step url_Parse decode_plan caps r e s = Some s' → system_traced s'.
Proof.
  intros Hs. unfold client_step. destruct (ln_stream (sy_links s r)) as [st|] eqn:Hst; [|done].
  destruct (client_turn _ _ _ _ _ _) as [[[[c messages] err] d]|] eqn:Ht; [|done]. cbv zeta.
  destruct (Hs r) as [Hc Hsent]. destruct (client_turn_traced _ _ _ r _ _ _ _ _ _ _ _ _ eq_refl Hc Ht) as [Hc' Hm].
  unfold sent in Hsent. rewrite Hst in Hsent. apply reports_app in Hsent as [H1 H2].
  intros [= <-]. eapply (system_traced_link s _ r); [done| |done|]; cbn [sy_executed].
  { intros x Hx. apply elem_of_app. by right. }
  set (executed := _ ++ sy_executed s) in *. assert (Hsub : sy_executed s ⊆ executed) by (intros x Hx; apply elem_of_app; by right).
  assert (Hl : link_traced executed r (mkLink c (Some (mkStream (sm_up st ++ messages) d (sm_phase st))) (ln_orphan (sy_links s r)))).
  { split; [done|]. unfold sent. cbn [ln_stream ln_orphan sm_up]. rewrite !reports_app.
    split; [split; [by eapply reports_mono|done]|by eapply reports_mono]. }
  destruct err; [by apply disconnect_traced|done].
Qed.

Lemma serve_step_traced s s' r orphan e :
  system_traced s → serve_step sha256 uuid_String encode_plan r orphan e s = Some s' → system_traced s'.
Proof.
  intros Hs. unfold serve_step. cbv zeta. destruct (if orphan then _ else _) as [st|] eqn:Hst; [|done].
  destruct (serve _ _ _ _ _ _ _ _) as [[[d tokens] st']|] eqn:Hv; [|done]. apply serve_up in Hv.
  intros [= <-]. eapply (system_traced_link s _ r); [done|done|done|]. cbn [sy_executed].
  destruct (Hs r) as [Hc Hsent]. unfold sent in Hsent. apply reports_app in Hsent as [H1 H2].
  destruct orphan; (split; [done|]); unfold sent; cbn [ln_stream ln_orphan]; rewrite reports_app; rewrite Hst in *;
    (split; [|done]) || (split; [done|]); by eapply reports_sub.
Qed.

Lemma step_traced a s s' :
  system_traced s → step sha256 uuid_String json_unmarshal encode_plan url_Parse decode_plan caps a s = Some s' → system_traced s'.
Proof.
  intros Hs. destruct a as [r order|r|r|r e|r e|r|r orphan e|o|locked token now]; cbn [WorkSystem.step].
  - unfold connect. destruct (Hs r) as [Hc Hsent]. unfold sent in Hsent. destruct (ln_stream (sy_links s r)); [done|].
    destruct (in_order order (ln_client (sy_links s r))) as [jobs|]; [|done]. cbn [open_session]. intros [= <-].
    eapply (system_traced_link s _ r); [done..|]. split; [by destruct Hc|]. unfold sent. cbn [ln_stream ln_orphan sm_up].
    apply reports_app. split; [apply reconcile_reports|done].
  - intros [= <-]. eapply (system_traced_link s _ r); [done..|]. by apply disconnect_traced, Hs.
  - intros [= <-]. eapply (system_traced_link s _ r); [done..|]. destruct (disconnect_traced _ _ _ (Hs r)) as [_ Hd].
    split; [apply traced_start|done].
  - by apply client_step_traced.
  - destruct (quiet_turn _ e _) as [c'|] eqn:Hq; [|done]. intros [= <-]. destruct (Hs r) as [Hc Hsent].
    eapply (system_traced_link s _ r); [done..|]. split; [by eapply quiet_traced|done].
  - unfold begin_step. destruct (Hs r) as [Hc Hsent]. unfold sent in Hsent.
    destruct (ln_stream (sy_links s r)) as [[u d []]|]; try done. destruct (beginSession _ _). intros [= <-].
    by eapply (system_traced_link s _ r).
  - by apply serve_step_traced.
  - destruct (is_claim o); [done|]. by intros [= <-].
  - case_bool_decide; [done|]. destruct (PgClaimJob _ _ _ _ _) as [d [[a|]|err]]; by intros [= <-].
Qed.

(** A runner executes a job at most once at a time. *)
Definition lone (s : system) : Prop := ∀ r, NoDup (wk_executions (ln_client (sy_links s r))).*1.

Lemma lone_link s s' r l :
  lone s → sy_links s' = <[r := l]> (sy_links s) → NoDup (wk_executions (ln_client l)).*1 → lone s'.
Proof.
  intros Hs Hl Hr r'. rewrite Hl. destruct (decide (r' = r)) as [->|Hne]; [by rewrite fn_lookup_insert|].
  by rewrite fn_lookup_insert_ne.
Qed.

Lemma client_step_lone s s' r e :
  system_traced s → NoDup ((λ x, x.1.2) <$> sy_executed s') → lone s →
  client_step url_Parse decode_plan caps r e s = Some s' → lone s'.
Proof.
  intros Hs Hnd Hl. unfold client_step. destruct (ln_stream (sy_links s r)) as [st|]; [|done].
  destruct (client_turn _ _ _ _ _ _) as [[[[c messages] err] d]|] eqn:Ht; [|done]. cbv zeta. intros Heq.
  assert (Hc : NoDup (wk_executions c).*1).
  { destruct (turn_executions _ _ _ _ _ _ _ _ _ _ _ eq_refl Ht) as [->|(id & t & He)]; [apply Hl|].
    injection Heq as <-. cbn [sy_executed] in Hnd. rewrite (new_one r _ _ _ _ He) in Hnd. rewrite He.
    cbn in Hnd |- *. apply NoDup_cons in Hnd as [Hnot _]. apply NoDup_cons. split; [|apply Hl].
    intros ([id' t'] & -> & Hin)%list_elem_of_fmap. apply Hnot, list_elem_of_fmap. exists (r, id', t'). split; [done|].
    by apply (tr_running _ _ _ _ (proj1 (Hs r))). }
  injection Heq as <-. eapply (lone_link s _ r); [done|done|]. by destruct err.
Qed.

Lemma step_lone a s s' :
  system_traced s → NoDup ((λ x, x.1.2) <$> sy_executed s') → lone s →
  step sha256 uuid_String json_unmarshal encode_plan url_Parse decode_plan caps a s = Some s' → lone s'.
Proof.
  intros Hs Hnd Hl. destruct a as [r order|r|r|r e|r e|r|r orphan e|o|locked token now]; cbn [WorkSystem.step].
  - unfold connect. destruct (ln_stream (sy_links s r)); [done|]. destruct (in_order _ _); [|done]. cbn [open_session].
    intros [= <-]. eapply (lone_link s _ r); [done..|]. apply Hl.
  - intros [= <-]. eapply (lone_link s _ r); [done..|]. apply Hl.
  - intros [= <-]. eapply (lone_link s _ r); [done..|]. constructor.
  - by apply client_step_lone.
  - destruct (quiet_turn _ e _) as [c'|] eqn:Hq; [|done]. intros [= <-]. eapply (lone_link s _ r); [done..|]. cbn [ln_client].
    revert Hq. destruct e as [i failed posted d|now id|id chunk]; cbn [quiet_turn].
    + destruct (_ !! i) as [x|] eqn:Hx; [|done]. cbv zeta. destruct (if posted then _ else _); [|done]. intros [= <-].
      unfold end_execution. rewrite Hx. cbn [wk_executions]. eapply sublist_NoDup; [apply (Hl r)|].
      apply fmap_sublist, sublist_delete.
    + intros [= <-]. unfold timer_fires. destruct (_ !! id); apply Hl.
    + intros [= <-]. unfold offer_chunk. destruct (_ !! id); apply Hl.
  - unfold begin_step. destruct (ln_stream (sy_links s r)) as [[u d []]|]; try done. destruct (beginSession _ _). intros [= <-].
    eapply (lone_link s _ r); [done..|]. apply Hl.
  - unfold serve_step. cbv zeta. destruct (if orphan then _ else _) as [st|]; [|done].
    destruct (serve _ _ _ _ _ _ _ _) as [[[d tokens] st']|]; [|done]. intros [= <-].
    eapply (lone_link s _ r); [done..|]. destruct orphan; apply Hl.
  - destruct (is_claim o); [done|]. by intros [= <-].
  - case_bool_decide; [done|]. destruct (PgClaimJob _ _ _ _ _) as [d [[a|]|err]]; by intros [= <-].
Qed.

Lemma reachable_traced s :
  sys_reachable sha256 uuid_String json_unmarshal encode_plan url_Parse decode_plan caps s → system_traced s.
Proof.
  induction 1 as [d _|a s s' _ IH Hstep]; [|by eapply step_traced].
  intros r. split; [apply traced_start|done].
Qed.

Lemma reachable_lone s :
  sys_reachable sha256 uuid_String json_unmarshal encode_plan url_Parse decode_plan caps s → lone s.
Proof.
  induction 1 as [d _|a s s' Hs IH Hstep]; [intros r; constructor|].
  destruct (reachable_ok _ _ _ _ _ _ _ s' (reach_step _ _ _ _ _ _ _ _ _ _ Hs Hstep)) as (? & ? & Hok).
  eapply step_lone; [by apply reachable_traced|apply Hok|done|exact Hstep].
Qed.

(** The executions that have not lost their lease belong to active jobs. *)
Lemma live_executions c :
  NoDup (wk_executions c).*1 → (length (filter (λ x, canceled x c = false) (wk_executions c)) ≤ size (wk_active c))%nat.
Proof.
  intros Hnd. rewrite <-(length_fmap fst). set (l := fst <$> _).
  assert (Hl : NoDup l) by (eapply sublist_NoDup; [exact Hnd|]; apply fmap_sublist, sublist_filter).
  rewrite <-(size_list_to_set (C := gset uuid)) by done. rewrite <-size_dom. apply subseteq_size. intros id.
  rewrite elem_of_list_to_set. intros ([id' t] & -> & [Hc _]%list_elem_of_filter)%list_elem_of_fmap.
  apply elem_of_dom. unfold canceled in Hc. cbn [fst] in *. by destruct (wk_active c !! id').
Qed.
End Reachable.
