(* ===== verification/WorkHandshake.v ===== *)
(** One assignment from the claim to the execution, over the interface of the store: the
    messages of WorkServer.v meet the turns of WorkClient.v. *)

From S2P Require Import Prelude GoStd RunModel Pipeline MemoryStore RunnerAuth Database PgStore PgRefine LeaseStore PgLease WorkProtocol WorkClient WorkServer WorkFacts.

(** ** What the control plane sends *)

Section Server.
Context {St : Type} `{RunnerJobStore St}.
Variable encode_plan : PlanJob → option bytes.

(** The source that a message carries. *)
Definition source_sent (credentials : option CredentialIssuer) (r : uuid) (a : Assignment) (m : JobAssignment) : Prop :=
  match as_Source a with
  | None => ja_Source m = None ∧ ja_Credential m = None
  | Some source =>
    ∃ issuer credential, credentials = Some issuer ∧ issue_credential issuer r a source = Ok credential ∧
      ja_Source m = Some (mkWireSource (sc_Provider source) (sc_RepositoryID source)
        (if sc_Provider source =? "gitee" then cc_CloneURL credential else sc_CloneURL source) (sc_CommitSHA source)) ∧
      ja_Credential m = Some (mkWireCredential (cc_Token credential) (Some (cc_ExpiresAt credential))) ∧
      0 < Z.of_nat (length (cc_Token credential)) ≤ maximumCheckoutToken
  end.

Lemma fail_assignment_err permanent r a st : is_ok (fail_assignment permanent r a st).2 = false.
Proof. unfold fail_assignment. destruct permanent; [destruct (complete _ _) as [? []]|destruct (release _ _) as [? []]]; done. Qed.

Lemma issue_turn_ok credentials now r a st st' m :
  issue_turn encode_plan credentials now r a st = (st', Ok m) →
  st' = st ∧ ja_JobId m = Some (as_JobID a) ∧ ja_RunId m = Some (as_RunID a) ∧ ja_LeaseToken m = as_LeaseToken a ∧
  ja_LeaseExpiresAt m = Some (as_LeaseExpires a) ∧ encode_plan (as_Spec a) = Some (ja_ExecutionPlanJson m) ∧
  Z.of_nat (length (ja_ExecutionPlanJson m)) ≤ 2 ^ 20 ∧ source_sent credentials r a m.
Proof.
  assert (Hfail : ∀ p st' m, fail_assignment p r a st ≠ (st', Ok m)).
  { intros p s' x Hf. pose proof (fail_assignment_err p r a st) as He. by rewrite Hf in He. }
  unfold issue_turn. destruct (encode_plan _) as [plan|]; [|done]. destruct (Z.ltb_spec (2 ^ 20) (Z.of_nat (length plan))); [done|].
  cbv zeta. unfold source_sent. destruct (as_Source a) as [source|]; [|by intros [= <- <-]].
  unfold attachSourceCredential. destruct credentials as [issuer|]; [|by intros ?%Hfail].
  destruct (_ || _); [by intros ?%Hfail|].
  destruct (issue_credential _ _ _ _) as [credential|[|]] eqn:Hi; [|by intros ?%Hfail..].
  cbv zeta. destruct (_ || _) eqn:Hg; [by intros ?%Hfail|]. destruct (_ && _); [by intros ?%Hfail|]. bools.
  intros [= <- <-]. split_and!; try done. exists issuer, credential. unfold maximumCheckoutToken. split_and!; try done; lia.
Qed.

Lemma handleReceipt_ok r id token started st st' l :
  len token ≤ 512 → (if (started : bool) then start else acknowledge) (mkLease r id token) st = (st', Ok l) →
  handleReceipt r (mkReceipt (Some id) token) started st = (st', Ok [ResponseLeaseRenewed (Some (ls_JobID l)) (Some (ls_LeaseExpires l))]).
Proof.
  intros Hlen Hs. unfold handleReceipt. cbn [rm_JobId rm_LeaseToken]. destruct (Z.ltb_spec 512 (len token)); [lia|].
  cbv zeta. destruct started; by rewrite Hs.
Qed.
End Server.

(** ** What a runner makes of it *)

Section Client.
Variable url_Parse : string → option parsedURL.
Variable decode_plan : bytes → option PlanJob.

Lemma decodeAssignment_lease now a job :
  decodeAssignment url_Parse decode_plan now (Some a) = Ok job →
  ja_JobId a = Some (lj_id job) ∧ lj_leaseToken job = ja_LeaseToken a ∧ ja_LeaseExpiresAt a = Some (lj_leaseExpires job) ∧
  now < lj_leaseExpires job ∧ len (lj_leaseToken job) ≤ 512 ∧ lj_phase job = jobAwaitingAcceptance ∧ lj_authorityLost job = false.
Proof.
  unfold decodeAssignment. cbv zeta. destruct (_ || _) eqn:Hg; [done|].
  destruct (ja_LeaseExpiresAt a) as [e|]; [|done]. destruct (ja_JobId a) as [id|]; [|done].
  destruct (ja_RunId a); [|done]. destruct (negb _) eqn:He; [done|]. destruct (decode_plan _) as [plan|]; [|done].
  destruct (pj_Name plan =? ""); [done|]. destruct (decodeSource _ _ _ _) as [source|]; cbn [rbind]; [|done].
  intros [= <-]. bools. cbn. split_and!; try done; lia.
Qed.

(** A job that holds its lease: its timer runs. *)
Definition armed (s : workState) (id : uuid) (token : string) (phase : localJobPhase) : Prop :=
  ∃ job e, wk_active s !! id = Some job ∧ lj_id job = id ∧ lj_leaseToken job = token ∧ lj_phase job = phase ∧
    lj_authorityLost job = false ∧ lj_leaseTimer job = Armed e.

Lemma assignment_accepted capacity now a job s :
  decodeAssignment url_Parse decode_plan now (Some a) = Ok job → wk_active s !! lj_id job = None →
  Z.of_nat (size (wk_active s)) < capacity →
  ∃ s1, handle_assignment url_Parse decode_plan capacity now (Some a) s
      = (s1, [JobAccepted (mkReceipt (Some (lj_id job)) (lj_leaseToken job))], None) ∧
    armed s1 (lj_id job) (lj_leaseToken job) jobAwaitingAcceptance ∧ wk_executions s1 = wk_executions s.
Proof.
  intros Hd Hn Hcap. unfold handle_assignment. rewrite Hd, Hn. destruct (Z.leb_spec capacity (Z.of_nat (size (wk_active s)))); [lia|].
  apply decodeAssignment_lease in Hd as (_ & _ & _ & Hlt & _ & Hp & Ha). unfold armLeaseDeadline.
  rewrite Ha, (proj2 (Z.ltb_lt _ _) Hlt). cbn [negb orb]. eexists. split; [done|]. split; [|done].
  eexists _, _. split; [apply lookup_insert_eq|]. done.
Qed.

Lemma renewal_reset now id e s token phase :
  armed s id token phase → now < e →
  ∃ job, handle_renewal now (Some id) (Some e) s = advance job s ∧ lj_id job = id ∧ lj_leaseToken job = token ∧
    lj_phase job = phase ∧ lj_authorityLost job = false ∧ lj_leaseTimer job = Armed e ∧
    (∃ job0, wk_active s !! id = Some job0 ∧ lj_result job = lj_result job0).
Proof.
  intros (job & e0 & Hj & Hid & Ht & Hp & Ha & Htimer) Hlt. unfold handle_renewal. cbn [mbind option_bind]. rewrite Hj, Ha.
  unfold resetLeaseDeadline, armLeaseDeadline. cbn [lj_set_expires lj_set lj_authorityLost lj_leaseTimer lj_leaseExpires lj_set_timer].
  rewrite Ha, Htimer. cbn [lj_set_expires lj_set lj_authorityLost lj_leaseTimer lj_leaseExpires lj_set_timer].
  rewrite ?Ha, (proj2 (Z.ltb_lt _ _) Hlt). cbn [negb orb]. eexists. split; [done|]. cbn. split_and!; try done. by exists job.
Qed.

Lemma renewal_starts now id e s token :
  armed s id token jobAwaitingAcceptance → now < e →
  ∃ s1, handle_renewal now (Some id) (Some e) s = (s1, [JobStarted (mkReceipt (Some id) token)], None) ∧
    armed s1 id token jobAwaitingStart ∧ wk_executions s1 = wk_executions s.
Proof.
  intros Hs Hlt. destruct (renewal_reset now id e s token _ Hs Hlt) as (job & -> & <- & <- & Hp & Ha & Ht & _).
  unfold advance. rewrite Hp. eexists. split; [done|]. split; [|done].
  eexists _, _. split; [apply lookup_insert_eq|]. done.
Qed.

Lemma renewal_runs now id e s token :
  armed s id token jobAwaitingStart → now < e →
  ∃ s1, handle_renewal now (Some id) (Some e) s = (s1, [], None) ∧ armed s1 id token jobRunning ∧
    wk_executions s1 = (id, token) :: wk_executions s.
Proof.
  intros Hs Hlt. destruct (renewal_reset now id e s token _ Hs Hlt) as (job & -> & <- & <- & Hp & Ha & Ht & _).
  unfold advance. rewrite Hp. eexists. split; [done|]. split; [|done].
  eexists _, _. split; [apply lookup_insert_eq|]. done.
Qed.
End Client.

(** ** The claim loop *)

Section Loop.
Context `{MapOrder}.
Variable sha256 : string → string.
Variable uuid_String : uuid → string.
Variable json_unmarshal : string → option Plan.
Variable encode_plan : PlanJob → option bytes.
Variable locked : uuid → bool.
Variable outbox_id : uuid.

Abbreviation store := (pg_store sha256 uuid_String locked outbox_id).

(** The slots of a runner that are free. *)
Definition free_slots (r : uuid) (ru : runnerRow) (d : database) : nat :=
  Z.to_nat (ru_capacity ru - count_jobs (held_by r (db_now d)) d).

Lemma claim_loop_bounded credentials draw now r fuel d ru :
  pg_inv uuid_String json_unmarshal d → db_runners d !! r = Some ru → (free_slots r ru d < fuel)%nat →
  ∃ d' messages e, @claim_loop _ store encode_plan fuel draw credentials now r d = Some (d', messages, e) ∧
    (length messages ≤ free_slots r ru d)%nat.
Proof.
  revert d. induction fuel as [|fuel IH]; intros d Hd Hru Hf; [lia|]. cbn [claim_loop].
  unfold claim_turn. cbn [claim pg_store]. destruct (PgClaimRunnerJob _ _ _ _ d) as [d1 [[a|]|e]] eqn:Hc;
    [|by eexists _, [], _; split; [done|]; simpl; lia..].
  destruct (@issue_turn _ store _ _ _ _ _ d1) as [d2 [m|e]] eqn:Hi; [|by eexists _, [], _; split; [done|]; simpl; lia].
  apply (@issue_turn_ok _ store) in Hi as (-> & _).
  destruct (pg_claim_held _ _ _ _ _ _ _ _ _ Hd Hc) as (ru' & Hru' & Hrs & Hheld & Hcap). rewrite Hru in Hru'. injection Hru' as <-.
  assert (Hd1 : pg_inv uuid_String json_unmarshal d1).
  { pose proof (proj1 (PgClaimRunnerJob_refines sha256 uuid_String json_unmarshal locked (draw fuel) r d Hd)) as Hw. by rewrite Hc in Hw. }
  destruct (IH d1 Hd1) as (d' & messages & e & -> & Hlen); [by rewrite Hrs|unfold free_slots in *; lia|].
  eexists _, _, _. split; [done|]. cbn [length]. unfold free_slots in *. lia.
Qed.
End Loop.
