(* ===== verification/WorkProps.v ===== *)
(** The properties of the Work protocol between runners and the control plane, and a concrete
    run at which they are applied. *)

From stdpp Require Import functions.
From S2P Require Import Prelude GoStd RunModel Pipeline Scenario RunnerAuth Database PgStore LeaseStore PgLease PgRuns PgScenario Logs WorkProtocol WorkClient WorkServer WorkDatabase WorkSystem MemoryStore Scheduler RunSpec.
From S2P Require Import MemoryRefine MemoryLease PgRefine WorkFacts WorkInv WorkSteps WorkTrace WorkHandshake.

(** * A concrete run of the whole system, for the examples at which the theorems are
    applied: the runner 7 with two slots, on the database of PgScenario.v. *)

#[local] Existing Instance library_order.

Definition demo_caps (r : uuid) : RunnerCapabilities :=
  mkRunnerCapabilities "linux" "amd64" "docker" LevelStandard ∅ 2 0.

Definition demo_identity : RunnerIdentity :=
  mkRunnerIdentity 7 8 "standard" "runner" 9 "01" (mkCapabilities "linux" "amd64" "docker" "standard" ∅ 2 0 2 "protocol-v2").

(** Stand-ins for the encoder and the decoder of plans, and for [url.Parse]. *)
Definition demo_encode (p : PlanJob) : option bytes := Some [zero].
Definition demo_decode (b : bytes) : option PlanJob := Some (demo_plan_job "compile" []).
Definition demo_url (s : string) : option parsedURL :=
  if s =? "https://github.com/o/r.git"
  then Some (mkParsedURL "https" "github.com" "github.com" "/o/r.git" "" "" "" false "" false) else None.

Abbreviation demo_reachable :=
  (sys_reachable demo_sha256 demo_uuid demo_unmarshal demo_encode demo_url demo_decode demo_caps).
Definition demo_act : list action → system → option system :=
  run_actions demo_sha256 demo_uuid demo_unmarshal demo_encode demo_url demo_decode demo_caps.

Definition receive : action := AServe 7 false (SrvReceive demo_identity no_lock 50).
Definition respond (now : time) : action := AClient 7 (EvResponse now).

(** The run 60 is submitted; the runner connects, and its first heartbeat leads to the
    assignment of the job 100. *)
Definition demo_assign : list action :=
  [AStore (PCreate 50 (demo_ids 100) (demo_record 60 "demo")); AConnect 7 []; ABegin 7; receive;
   AServe 7 false (SrvClaim no_lock "t"); AServe 7 false (SrvIssue None 0 no_lock 50);
   AServe 7 false (SrvClaim no_lock "u")].

(** Acceptance and start. *)
Definition demo_start_job : list action := [respond 0; receive; respond 1; receive; respond 2].

(** A heartbeat is on its way when the execution ends and its result is sent. *)
Definition demo_race : list action :=
  [AClient 7 (EvHeartbeat [100%N]); receive; AServe 7 false (SrvClaim no_lock "v"); AQuiet 7 (QEnd 0 false true 5);
   AClient 7 (EvResult 3); respond 4; receive; receive].

Definition demo_state (actions : list action) : system :=
  match demo_act actions (system_start demo_database) with Some s => s | None => system_start demo_database end.

Lemma demo_state_reachable actions : demo_reachable (demo_state actions).
Proof.
  assert (Hd : demo_reachable (system_start demo_database)) by by apply reach_start.
  unfold demo_state. destruct (demo_act actions _) as [s|] eqn:Hs; [|done]. by eapply run_actions_reachable.
Qed.

Definition demo_executing : system := demo_state (demo_assign ++ demo_start_job).
Definition demo_raced : system := demo_state (demo_assign ++ demo_start_job ++ demo_race).

Example demo_executes :
  (sy_executed demo_executing, wk_executions (ln_client (sy_links demo_executing 7%N)),
   jr_status <$> db_jobs (sy_db demo_executing))
  = ([(7%N, 100%N, "t")], [(100%N, "t")], [JobRunning; JobBlocked; JobBlocked]).
Proof. vm_compute. reflexivity. Qed.

(** The second completion ends the stream although nothing went wrong. *)
Example demo_race_ends :
  ((λ s, match sm_phase s with Closed => true | _ => false end) <$> ln_stream (sy_links demo_raced 7%N),
   jr_status <$> db_jobs (sy_db demo_raced)) = (Some true, [JobSucceeded; JobQueued; JobBlocked]).
Proof. vm_compute. reflexivity. Qed.

(** * The properties of the Work protocol between runners and the control plane. *)

Section Properties.
Context `{MapOrder}.
Variable sha256 : string → string.
Variable uuid_String : uuid → string.
Variable json_unmarshal : string → option Plan.
Variable encode_plan : PlanJob → option bytes.
Variable url_Parse : string → option parsedURL.
Variable decode_plan : bytes → option PlanJob.
Variable caps : uuid → RunnerCapabilities.

Abbreviation reachable_system :=
  (sys_reachable sha256 uuid_String json_unmarshal encode_plan url_Parse decode_plan caps).

(** C1: whatever runners, streams and transactions do and however they fail, no job is
    ever executed twice, neither by one runner nor by two; a job that was executed has
    begun in the database, and a lease that it still has there is the one of the
    execution. *)
Theorem at_most_once_execution s :
  reachable_system s →
  NoDup ((λ x, x.1.2) <$> sy_executed s) ∧
  ∀ r id t, (r, id, t) ∈ sy_executed s →
    (∃ j, j ∈ db_jobs (sy_db s) ∧ jr_id j = id) ∧
    ∀ j, j ∈ db_jobs (sy_db s) → jr_id j = id →
      begun (jr_status j) = true ∧ ∀ h, lease_hash j = Some h → h = sha256 t.
Proof.
  intros Hs. destruct (reachable_ok _ _ _ _ _ _ _ s Hs) as (started & seen & Hok). split; [apply Hok|].
  intros r id t Hx. apply (do_started _ _ _ (so_db _ _ _ _ Hok)). by apply (so_executed _ _ _ _ Hok r).
Qed.

(** Every completion that a runner has sent names an execution that it started, with
    the lease of that execution, and a result that waits in the channel belongs to the
    lease under which the runner holds the job: the loop, which finds the job by its
    identifier alone, never reports the result of one lease under another. *)
Theorem completions_report_own_execution s r :
  reachable_system s →
  (∀ c, JobCompleted (Some c) ∈ sent (sy_links s r) →
     ∃ id, wp_JobId c = Some id ∧ (r, id, wp_LeaseToken c) ∈ sy_executed s) ∧
  (∀ res t job, (res, t) ∈ wk_results (ln_client (sy_links s r)) →
     wk_active (ln_client (sy_links s r)) !! er_jobID res = Some job → waiting (lj_phase job) = false →
     lj_leaseToken job = t).
Proof.
  intros Hs. destruct (reachable_traced _ _ _ _ _ _ _ s Hs r) as [Ht Hr]. split; [exact Hr|].
  intros res t job Hres Hj Hw. apply (tr_results _ _ _ _ Ht) in Hres.
  destruct (tr_active _ _ _ _ Ht _ job Hj) as [_ Hjob]. specialize (Hjob Hw).
  destruct (reachable_ok _ _ _ _ _ _ _ s Hs) as (? & ? & Hok).
  assert (Heq : (r, er_jobID res, lj_leaseToken job) = (r, er_jobID res, t)); [|by injection Heq].
  by apply (NoDup_key_unique (λ x, x.1.2) (sy_executed s)); [apply Hok|..].
Qed.

(** C40: a runner never has more jobs than its capacity, executes none of them twice at a
    time, and never executes more that still hold their lease than it has jobs. *)
Theorem runner_capacity s r :
  reachable_system s →
  let c := ln_client (sy_links s r) in
  Z.of_nat (size (wk_active c)) ≤ Z.max 0 (wa_Capacity (caps r)) ∧ NoDup (wk_executions c).*1 ∧
  (length (filter (λ x, canceled x c = false) (wk_executions c)) ≤ size (wk_active c))%nat.
Proof.
  intros Hs c. pose proof (reachable_lone _ _ _ _ _ _ _ s Hs r) as Hl.
  split; [apply (reachable_traced _ _ _ _ _ _ _ s Hs r)|]. split; [exact Hl|by apply live_executions].
Qed.
End Properties.

(** ** Over the interface of the store *)

Section Interface.
Context {St : Type} {wf : St → Prop} `{RunnerJobLaws St wf}.
Variable encode_plan : PlanJob → option bytes.
Variable url_Parse : string → option parsedURL.
Variable decode_plan : bytes → option PlanJob.

(** C10: an assignment that a runner can read and has room for is accepted, acknowledged,
    started and executed under the lease of the claim, whatever other runners do to the
    store in between, as long as the renewals arrive before they expire. *)
Theorem assignment_leads_to_execution credentials capacity r token st0 st1 a st2 m now job (s : workState) cs st3 :
  wf st0 → token ≠ "" → claim token r st0 = (st1, Ok (Some a)) → as_JobID a ≠ uuid_Nil →
  issue_turn encode_plan credentials now r a st1 = (st2, Ok m) →
  decodeAssignment url_Parse decode_plan now (Some m) = Ok job →
  wk_active s !! as_JobID a = None → Z.of_nat (size (wk_active s)) < capacity →
  interleaving (as_JobID a) cs st2 st3 →
  let receipt := mkReceipt (Some (as_JobID a)) token in
  let renewal e := ResponseLeaseRenewed (Some (as_JobID a)) (Some e) in
  ∃ s1 st4 e1,
    handle_assignment url_Parse decode_plan capacity now (Some m) s = (s1, [JobAccepted receipt], None) ∧
    handleReceipt r receipt false st3 = (st4, Ok [renewal e1]) ∧
    ∀ now1 cs' st5, now1 < e1 → interleaving (as_JobID a) cs' st4 st5 →
    ∃ s2 st6 e2,
      handle_renewal now1 (Some (as_JobID a)) (Some e1) s1 = (s2, [JobStarted receipt], None) ∧
      handleReceipt r receipt true st5 = (st6, Ok [renewal e2]) ∧
      lease_view st6 (lease_of r a) = Some (JobRunning, true) ∧
      ∀ now2, now2 < e2 → ∃ s3,
        handle_renewal now2 (Some (as_JobID a)) (Some e2) s2 = (s3, [], None) ∧
        wk_executions s3 = (as_JobID a, token) :: wk_executions s.
Proof.
  intros Hwf Ht Hc Hid Hi Hd Hn Hcap Hcs. cbv zeta.
  destruct (claim_law token r st0 st1 a Hwf Ht Hc Hid) as (Htok & Hq & Hv1 & _ & _).
  assert (Hwf1 : wf st1) by (pose proof (claim_wf token r st0 Hwf) as Hw; by rewrite Hc in Hw).
  destruct (issue_turn_ok _ _ _ _ _ _ _ _ Hi) as (-> & Hjob & _ & Hlt & _).
  destruct (decodeAssignment_lease _ _ _ _ _ Hd) as (Hjid & Hjt & _ & _ & Hlen & _ & _).
  rewrite Hjob in Hjid. injection Hjid as Hjid. rewrite Hlt, Htok in Hjt. rewrite Hjt in Hlen.
  destruct (assignment_accepted _ _ capacity now m job s Hd) as (s1 & Hs1 & Ha1 & He1); [by rewrite <-Hjid|done|].
  rewrite <-Hjid, Hjt in Hs1, Ha1.
  destruct (lease_isolation (lease_of r a) _ cs st1 st3 Hwf1 Hv1 Hcs) as [Hwf3 Hv3].
  pose proof (acknowledge_law (lease_of r a) st3 Hwf3 Hq) as Hack. rewrite Hv3 in Hack.
  destruct Hack as (st4 & l1 & Hack & Hwf4 & Hv4 & _ & Hl1). unfold lease_of in Hack. rewrite Htok in Hack.
  exists s1, st4, (ls_LeaseExpires l1). split; [exact Hs1|]. split.
  { by rewrite (handleReceipt_ok _ _ _ false _ _ _ Hlen Hack), Hl1. }
  intros now1 cs' st5 Hnow1 Hcs'. destruct (lease_isolation (lease_of r a) _ cs' st4 st5 Hwf4 Hv4 Hcs') as [Hwf5 Hv5].
  pose proof (start_law (lease_of r a) st5 Hwf5 Hq) as Hst. rewrite Hv5 in Hst.
  destruct Hst as (st6 & l2 & Hst & _ & Hv6 & _ & Hl2). unfold lease_of in Hst. rewrite Htok in Hst.
  destruct (renewal_starts now1 _ (ls_LeaseExpires l1) s1 token Ha1 Hnow1) as (s2 & Hs2 & Ha2 & He2).
  exists s2, st6, (ls_LeaseExpires l2). split; [exact Hs2|]. split.
  { by rewrite (handleReceipt_ok _ _ _ true _ _ _ Hlen Hst), Hl2. }
  split; [exact Hv6|]. intros now2 Hnow2.
  destruct (renewal_runs now2 _ (ls_LeaseExpires l2) s2 token Ha2 Hnow2) as (s3 & Hs3 & _ & He3).
  exists s3. split; [exact Hs3|]. by rewrite He3, He2, He1.
Qed.
End Interface.

(** What the control plane encodes, the runner decodes: the job, its lease and plan,
    and the source with its credential. *)
Theorem assignment_roundtrip {St} `{RunnerJobStore St} encode_plan decode_plan url_Parse credentials now now' r a st st' m :
  issue_turn encode_plan credentials now r a st = (st', Ok m) →
  (∀ b, encode_plan (as_Spec a) = Some b → b ≠ [] ∧ decode_plan b = Some (as_Spec a)) →
  as_LeaseToken a ≠ "" → len (as_LeaseToken a) ≤ 512 → pj_Name (as_Spec a) ≠ "" → now' < as_LeaseExpires a →
  (∀ w, ja_Source m = Some w → validateSourceDescriptor url_Parse w = true) →
  (∀ c t, ja_Credential m = Some c → wd_ExpiresAt c = Some t → now' < t) →
  ∃ source, decodeAssignment url_Parse decode_plan now' (Some m)
      = Ok (mkLocalJob (as_JobID a) (as_LeaseToken a) (as_LeaseExpires a) (as_Spec a) jobAwaitingAcceptance None NoTimer
              false source None) ∧
    match as_Source a with
    | None => source = None
    | Some s => ∃ issuer credential, credentials = Some issuer ∧ issue_credential issuer r a s = Ok credential ∧
        source = Some (mkLocalSource (sc_Provider s) (sc_RepositoryID s)
          (if sc_Provider s =? "gitee" then cc_CloneURL credential else sc_CloneURL s) (sc_CommitSHA s)
          (cc_Token credential) (cc_ExpiresAt credential))
    end.
Proof.
  intros (_ & Hj & Hr & Ht & He & Hp & Hlen & Hs)%issue_turn_ok Hcodec Htok Hshort Hname Hexp Hvalid Hfresh.
  destruct (Hcodec _ Hp) as [Hne Hdec]. unfold decodeAssignment. cbv zeta. rewrite Hj, Hr, Ht, He, Hdec.
  rewrite bool_decide_eq_false_2, (proj2 (Z.ltb_ge _ _) Hshort) by done.
  rewrite bool_decide_eq_false_2 by (intros Hz; apply Hne, length_zero_iff_nil; lia).
  rewrite (proj2 (Z.ltb_ge _ _) Hlen), (proj2 (Z.ltb_lt _ _) Hexp), bool_decide_eq_false_2 by done. cbn [orb negb].
  unfold source_sent in Hs. destruct (as_Source a) as [s|].
  - destruct Hs as (issuer & credential & Hi & Hc & Hsrc & Hcred & Hn). rewrite Hsrc, Hcred. cbn [decodeSource].
    rewrite (Hvalid _ Hsrc). cbn [wd_Token wd_ExpiresAt ws_Provider ws_RepositoryId ws_CloneUrl ws_CommitSha].
    rewrite bool_decide_eq_false_2 by lia. rewrite (proj2 (Z.ltb_ge _ _) (proj2 Hn)).
    rewrite (proj2 (Z.ltb_lt _ _) (Hfresh _ _ Hcred eq_refl)). cbn [orb negb rbind]. eexists. split; [done|]. by exists issuer, credential.
  - destruct Hs as [-> ->]. by exists None.
Qed.

(** C31: the loop of a heartbeat that claims jobs ends after at most as many assignments as
    the runner has free slots. *)
Theorem claim_loop_ends `{MapOrder} sha256 uuid_String json_unmarshal encode_plan locked outbox_id credentials draw now r d ru fuel :
  pg_reachable sha256 uuid_String json_unmarshal d → db_runners d !! r = Some ru → (free_slots r ru d < fuel)%nat →
  ∃ d' messages e,
    @claim_loop _ (pg_store sha256 uuid_String locked outbox_id) encode_plan fuel draw credentials now r d
      = Some (d', messages, e) ∧ (length messages ≤ free_slots r ru d)%nat.
Proof. intros Hd. eapply claim_loop_bounded. by eapply pg_reachable_inv. Qed.

(** A renewal that was on its way when the result was sent makes the runner send the
    completion again, and the control plane, which has taken the first one, answers the
    second by ending the stream. *)
Theorem completion_sent_twice {St} {wf : St → Prop} `{RunnerJobLaws St wf} r id token st v (s : workState) job res status e0 e now now' :
  wf st → validateLeaseRequest (mkLease r id token) = true → lease_view st (mkLease r id token) = Some v → len token ≤ 512 →
  wk_active s !! id = Some job → lj_id job = id → lj_leaseToken job = token → lj_phase job = jobRunning →
  lj_authorityLost job = false → lj_leaseTimer job = Armed e0 → now < lj_leaseExpires job → now' < e →
  er_jobID res = id → completion_status (er_conclusion res) = Some status →
  ∃ c s1 s2 st1,
    handle_result now res s = (s1, [JobCompleted (Some c)], None) ∧
    handle_renewal now' (Some id) (Some e) s1 = (s2, [JobCompleted (Some c)], None) ∧
    handleCompletion r (Some c) st = (st1, Ok []) ∧
    handleCompletion r (Some c) st1 = (st1, Err FailedPrecondition).
Proof.
  intros Hwf Hq Hv Hlen Hj Hid Ht Hp Ha Htimer Hnow Hnow' Hres Hst.
  assert (Ho : job_outcome status = true) by (destruct (er_conclusion res); simpl in Hst; by simplify_eq).
  pose proof (complete_law (mkLease r id token) status st Hwf Hq Ho) as Hc1. rewrite Hv in Hc1.
  destruct Hc1 as (st1 & Hc1 & Hwf1 & Hv1 & _). specialize (Hv1 _ Hq eq_refl).
  pose proof (complete_law (mkLease r id token) status st1 Hwf1 Hq Ho) as Hc2. rewrite Hv1 in Hc2.
  assert (Hserver : ∀ stx, handleCompletion r (Some (mkWireCompletion (Some id) token (er_conclusion res) (er_detail res) (er_duration res))) stx
    = match complete (completion_of (mkLease r id token) status) stx with (st, Err e) => (st, Err (workStoreError e)) | (st, Ok _) => (st, Ok []) end).
  { intros stx. cbn [handleCompletion wp_LeaseToken wp_JobId wp_Conclusion]. by rewrite (proj2 (Z.ltb_ge _ _) Hlen), Hst. }
  unfold handle_result. rewrite Hres, Hj. cbv zeta. rewrite Hp, Ha, (proj2 (Z.ltb_lt _ _) Hnow). cbn [orb negb].
  rewrite bool_decide_eq_true_2 by done. cbn [orb negb]. set (done_job := lj_set jobCompleted _ _ _ _ _ _).
  assert (Harmed : armed (put_job done_job s) id token jobCompleted).
  { exists done_job, e0. split; [cbn; rewrite Hid; apply lookup_insert_eq|]. by rewrite <-Hid, <-Ht. }
  destruct (renewal_reset now' id e _ token _ Harmed Hnow') as (job' & Hr & Hid' & Ht' & Hp' & _ & _ & job0 & Hj0 & Hres').
  cbn in Hj0. rewrite Hid, lookup_insert_eq in Hj0. injection Hj0 as <-. cbn in Hres'.
  exists (mkWireCompletion (Some id) token (er_conclusion res) (er_detail res) (er_duration res)), (put_job done_job s).
  eexists _, st1. split; [|split; [|split]].
  - unfold completionRequest. change (lj_id done_job) with (lj_id job). change (lj_leaseToken done_job) with (lj_leaseToken job).
    by rewrite Hid, Ht.
  - rewrite Hr. unfold advance. rewrite Hp', Hres'. unfold completionRequest. by rewrite Hid', Ht'.
  - by rewrite Hserver, Hc1.
  - by rewrite Hserver, Hc2.
Qed.

(** ** The properties at concrete inputs *)

Lemma at_most_once_execution_witness :
  sy_executed demo_executing = [(7%N, 100%N, "t")] ∧
  ∀ j, j ∈ db_jobs (sy_db demo_executing) → jr_id j = 100%N → begun (jr_status j) = true.
Proof.
  assert (Hx : sy_executed demo_executing = [(7%N, 100%N, "t")]) by (vm_compute; reflexivity).
  split; [exact Hx|]. intros j Hj Hid.
  destruct (at_most_once_execution demo_sha256 demo_uuid demo_unmarshal demo_encode demo_url demo_decode demo_caps demo_executing
    (demo_state_reachable _)) as [_ Hdb].
  destruct (Hdb 7%N 100%N "t") as [_ Hrow]; [rewrite Hx; left|]. exact (proj1 (Hrow j Hj Hid)).
Defined.

(** The execution has ended, and its result waits in the channel. *)
Definition demo_posted : system := demo_state (demo_assign ++ demo_start_job ++ [AQuiet 7 (QEnd 0 true true 5)]).

Lemma completions_report_own_execution_witness :
  ∃ res t job, (res, t) ∈ wk_results (ln_client (sy_links demo_posted 7%N)) ∧
    wk_active (ln_client (sy_links demo_posted 7%N)) !! er_jobID res = Some job ∧ lj_leaseToken job = t.
Proof.
  destruct (wk_results (ln_client (sy_links demo_posted 7%N))) as [|[res t] rest] eqn:Hr; [vm_compute in Hr; discriminate Hr|].
  assert (Hid : er_jobID res = 100%N) by (vm_compute in Hr; injection Hr as <- _ _; reflexivity).
  destruct (wk_active (ln_client (sy_links demo_posted 7%N)) !! er_jobID res) as [job|] eqn:Hj;
    [|rewrite Hid in Hj; vm_compute in Hj; discriminate Hj].
  assert (Hw : waiting (lj_phase job) = false) by (rewrite Hid in Hj; vm_compute in Hj; injection Hj as <-; reflexivity).
  exists res, t, job. split; [left|]. split; [exact Hj|].
  apply (completions_report_own_execution demo_sha256 demo_uuid demo_unmarshal demo_encode demo_url demo_decode demo_caps demo_posted
    7%N (demo_state_reachable _)) with (res := res); [rewrite Hr; left|exact Hj|exact Hw].
Defined.

Lemma runner_capacity_witness :
  size (wk_active (ln_client (sy_links demo_executing 7%N))) = 1%nat ∧
  Z.of_nat (size (wk_active (ln_client (sy_links demo_executing 7%N)))) ≤ 2.
Proof.
  split; [vm_compute; reflexivity|].
  exact (proj1 (runner_capacity demo_sha256 demo_uuid demo_unmarshal demo_encode demo_url demo_decode demo_caps demo_executing 7%N
    (demo_state_reachable _))).
Defined.

(** The first claim of the runner 7 in the in-memory store, and its message. *)
Definition memory_claim := claim (St := MemoryStore) "t" 7 (demo_start "demo").
Definition memory_assignment : Assignment :=
  match memory_claim.2 with Ok (Some a) => a | _ => mkAssignment 0 0 "" "" 0 "" 0 (demo_plan_job "" []) None end.
Definition memory_message : JobAssignment :=
  match (issue_turn (St := MemoryStore) demo_encode None 0 7 memory_assignment memory_claim.1).2 with
  | Ok m => m
  | Err _ => mkJobAssignment None None "" None [] None None
  end.

Lemma assignment_leads_to_execution_witness :
  ∃ s1 st4 e1,
    handle_assignment demo_url demo_decode 2 0 (Some memory_message) work_start
      = (s1, [JobAccepted (mkReceipt (Some 100%N) "t")], None) ∧
    handleReceipt (St := MemoryStore) 7 (mkReceipt (Some 100%N) "t") false memory_claim.1
      = (st4, Ok [ResponseLeaseRenewed (Some 100%N) (Some e1)]).
Proof.
  destruct (decodeAssignment demo_url demo_decode 0 (Some memory_message)) as [job|e] eqn:Hd; [|vm_compute in Hd; discriminate Hd].
  destruct (assignment_leads_to_execution (St := MemoryStore) (wf := mem_wf) demo_encode demo_url demo_decode None 2 7 "t"
    (demo_start "demo") memory_claim.1 memory_assignment memory_claim.1 memory_message 0 job work_start [] memory_claim.1)
    as (s1 & st4 & e1 & H1 & H2 & _).
  - apply (reachable_mem_wf demo_unmarshal), demo_start_reachable.
  - discriminate.
  - vm_compute. reflexivity.
  - vm_compute. discriminate.
  - vm_compute. reflexivity.
  - exact Hd.
  - vm_compute. reflexivity.
  - vm_compute. reflexivity.
  - constructor.
  - exists s1, st4, e1. split; [exact H1|exact H2].
Defined.

(** An assignment with a source, and the issuer of its credential. *)
Definition source_assignment : Assignment :=
  mkAssignment 100 60 "build" "compile" 1 "t" 30 (demo_plan_job "compile" [])
    (Some (mkSource 3 "github" "77" "https://github.com/o/r.git" "0123456789012345678901234567890123456789")).
Definition demo_issuer : CredentialIssuer :=
  mkCredentialIssuer (λ _ _, Ok (mkCheckoutCredential "77" "" [zero] 20)) None.
Definition source_message : JobAssignment :=
  match (issue_turn (St := MemoryStore) demo_encode (Some demo_issuer) 0 7 source_assignment (demo_start "demo")).2 with
  | Ok m => m
  | Err _ => mkJobAssignment None None "" None [] None None
  end.

Lemma assignment_roundtrip_witness :
  ∃ source, decodeAssignment demo_url demo_decode 5 (Some source_message)
      = Ok (mkLocalJob 100 "t" 30 (demo_plan_job "compile" []) jobAwaitingAcceptance None NoTimer false source None) ∧
    (so_credential <$> source) = Some [zero].
Proof.
  destruct (assignment_roundtrip (St := MemoryStore) demo_encode demo_decode demo_url (Some demo_issuer) 0 5 7 source_assignment
    (demo_start "demo") (demo_start "demo") source_message) as (source & Hd & issuer & credential & Hi & Hc & ->).
  - vm_compute. reflexivity.
  - intros b Hb. injection Hb as <-. split; [discriminate|reflexivity].
  - discriminate.
  - vm_compute. discriminate.
  - discriminate.
  - reflexivity.
  - intros w Hw. vm_compute in Hw. injection Hw as <-. vm_compute. reflexivity.
  - intros c t Hc Ht. vm_compute in Hc. injection Hc as <-. vm_compute in Ht. injection Ht as <-. reflexivity.
  - injection Hi as <-. vm_compute in Hc. injection Hc as <-. eexists. split; [exact Hd|reflexivity].
Defined.

Lemma claim_loop_ends_witness :
  ∃ d' messages e,
    @claim_loop _ (pg_store demo_sha256 demo_uuid no_lock 50) demo_encode 3 (λ i, demo_uuid (N.of_nat (S i))) None 0 7 (pg_start "demo")
      = Some (d', messages, e) ∧ (length messages ≤ 2)%nat.
Proof.
  apply (claim_loop_ends demo_sha256 demo_uuid demo_unmarshal demo_encode no_lock 50 None _ 0 7 (pg_start "demo") demo_runner_row 3).
  - exists demo_database. split; [done|apply pg_start_history].
  - vm_compute. reflexivity.
  - vm_compute. lia.
Defined.

(** A job that runs, and its result. *)
Definition running_job : localJob :=
  mkLocalJob 100 "t" 30 (demo_plan_job "compile" []) jobRunning None (Armed 30) false None None.
Definition running_state : workState := mkWorkState {[100%N := running_job]} [] [] ∅.
Definition running_store : MemoryStore :=
  play [OClaimRunnerJob "t" 7; OAcknowledge (mkLease 7 100 "t"); OStart (mkLease 7 100 "t")] (demo_start "demo").

Lemma completion_sent_twice_witness :
  ∃ c s1 s2 st1,
    handle_result 1 (mkExecutionResult 100 ConclusionSucceeded "" 5) running_state = (s1, [JobCompleted (Some c)], None) ∧
    handle_renewal 2 (Some 100%N) (Some 40) s1 = (s2, [JobCompleted (Some c)], None) ∧
    handleCompletion (St := MemoryStore) 7 (Some c) running_store = (st1, Ok []) ∧
    handleCompletion (St := MemoryStore) 7 (Some c) st1 = (st1, Err FailedPrecondition).
Proof.
  apply (completion_sent_twice (wf := mem_wf) 7 100 "t" running_store (JobRunning, true) running_state running_job
    (mkExecutionResult 100 ConclusionSucceeded "" 5) JobSucceeded 30 40 1 2); try reflexivity.
  - apply (reachable_mem_wf demo_unmarshal), play_reachable; [reflexivity|apply demo_start_reachable].
  - vm_compute. discriminate.
Defined.
