(* ===== verification/Secrets.v ===== *)
(** internal/secrets/crypto.go: secrets at rest are sealed under a data key of their own,
    which is sealed under the master key; both are bound to the purpose of the secret. *)

From S2P Require Import Prelude GoStd Codecs.

Definition keySize : Z := 32.

(** What [cipher.AEAD] does with a sealed text: it panics on a nonce of the wrong length. *)
Inductive opened := Plain (text : bytes) | Refused | Panics.
#[export] Instance opened_eq_dec : EqDecision opened.
Proof. solve_decision. Defined.

(** [cipher.AEAD]; the arguments are the nonce, the text and the additional data. *)
Record AEAD := mkAEAD {
  NonceSize : Z;
  Overhead : Z;
  ae_Seal : bytes → bytes → bytes → bytes;
  ae_Open : bytes → bytes → bytes → opened;
}.

Record Envelope := mkEnvelope {
  en_EncryptedDataKey : bytes;
  en_KeyNonce : bytes;
  en_DataNonce : bytes;
  en_Ciphertext : bytes;
}.
#[export] Instance Envelope_eq_dec : EqDecision Envelope.
Proof. solve_decision. Defined.

(** What the random generator returns for one secret. *)
Record sealing := mkSealing { sl_dataKey : bytes; sl_dataNonce : bytes; sl_keyNonce : bytes }.

Definition Zlen (b : bytes) : Z := Z.of_nat (length b).

Section Cipher.
(** [aes.NewCipher] followed by [cipher.NewGCM]. *)
Variable gcm : bytes → option AEAD.

(** [NewCipher]: the cipher is the AEAD of the master key. *)
Definition NewCipher (masterKey : bytes) : option AEAD :=
  if Zlen masterKey <>? keySize then None else gcm masterKey.

Definition ParseMasterKey (encoded : string) : option bytes :=
  match DecodeString StdEncoding (chars encoded) with
  | Some value => if Zlen value <>? keySize then None else Some value
  | None => None
  end.

(** [GenerateMasterKey]; [value] is what the generator returned. *)
Definition GenerateMasterKey (value : bytes) : string := of_chars (encode StdEncoding value).

Definition dek_data (associatedData : bytes) : bytes := chars "yuanci:dek:" ++ associatedData.

Definition Seal (master : AEAD) (random : sealing) (plaintext associatedData : bytes) : option Envelope :=
  match gcm (sl_dataKey random) with
  | None => None
  | Some dataCipher =>
    Some (mkEnvelope (ae_Seal master (sl_keyNonce random) (sl_dataKey random) (dek_data associatedData))
            (sl_keyNonce random) (sl_dataNonce random)
            (ae_Seal dataCipher (sl_dataNonce random) plaintext associatedData))
  end.

Definition Open (master : AEAD) (envelope : Envelope) (associatedData : bytes) : opened :=
  if (Zlen (en_KeyNonce envelope) <>? NonceSize master)
     || (Zlen (en_EncryptedDataKey envelope) <>? keySize + Overhead master) then Refused
  else match ae_Open master (en_KeyNonce envelope) (en_EncryptedDataKey envelope) (dek_data associatedData) with
  | Plain dataKey =>
    match gcm dataKey with
    | None => Refused
    | Some dataCipher =>
      if Zlen (en_DataNonce envelope) <>? NonceSize dataCipher then Refused
      else ae_Open dataCipher (en_DataNonce envelope) (en_Ciphertext envelope) associatedData
    end
  | other => other
  end.

(** ** What authenticated encryption promises *)

(** The additional data of the secrets that are stored.  Two of them are told apart; no
    tag of a fixed length can do that for all texts. *)
Variable purposes : list bytes.

Record aead_ok (used : list bytes) (c : AEAD) : Prop := {
  ao_opens : ∀ nonce text data, Zlen nonce = NonceSize c → ae_Open c nonce (ae_Seal c nonce text data) data = Plain text;
  ao_binds : ∀ nonce text data data', Zlen nonce = NonceSize c → data ∈ used → data' ∈ used → data ≠ data' →
    ae_Open c nonce (ae_Seal c nonce text data) data' = Refused;
  ao_length : ∀ nonce text data, Zlen (ae_Seal c nonce text data) = Zlen text + Overhead c;
  ao_total : ∀ nonce sealed data, Zlen nonce = NonceSize c → ae_Open c nonce sealed data ≠ Panics;
}.

Class AEADLaws : Prop := {
  gcm_total key : Zlen key = keySize → is_Some (gcm key);
  gcm_ok key c : gcm key = Some c → aead_ok (dek_data <$> purposes) c;
}.

(** The generator fills the buffers. *)
Definition sealing_ok (master : AEAD) (random : sealing) : Prop :=
  Zlen (sl_dataKey random) = keySize ∧ Zlen (sl_keyNonce random) = NonceSize master ∧
  ∀ c, gcm (sl_dataKey random) = Some c → Zlen (sl_dataNonce random) = NonceSize c.

Context `{AEADLaws}.

(** What was sealed can be opened for its purpose, and for no other. *)
Lemma Open_Seal master key random plaintext data :
  NewCipher key = Some master → sealing_ok master random →
  ∃ envelope, Seal master random plaintext data = Some envelope ∧ Open master envelope data = Plain plaintext ∧
    ∀ data', data ∈ purposes → data' ∈ purposes → data' ≠ data → Open master envelope data' = Refused.
Proof.
  unfold NewCipher. case_bool_decide; cbn [negb]; [|done]. intros Hm (Hk & Hn & Hd). apply gcm_ok in Hm as [Hopen Hbind Hlen _].
  unfold Seal. destruct (gcm_total _ Hk) as [c Hc]. rewrite Hc. specialize (Hd c Hc). eexists. split; [done|].
  destruct (gcm_ok _ _ Hc) as [Hopen' _ _ _]. unfold Open. cbn [en_KeyNonce en_EncryptedDataKey en_DataNonce en_Ciphertext].
  rewrite Hlen, Hk, Hn, !bool_decide_eq_true_2 by done. cbn [negb orb]. split.
  - rewrite Hopen, Hc, Hd, bool_decide_eq_true_2 by done. cbn [negb]. by apply Hopen'.
  - intros data' Hp Hp' Hne. rewrite Hbind; [done|done|by apply list_elem_of_fmap_2|by apply list_elem_of_fmap_2|].
    unfold dek_data. intros ?%(inj (app _)). by apply Hne.
Qed.

(** No stored envelope, however damaged, makes the process panic. *)
Lemma Open_no_panic master key envelope data : NewCipher key = Some master → Open master envelope data ≠ Panics.
Proof.
  unfold NewCipher. destruct (_ <>? keySize); [done|]. intros Hm. apply gcm_ok in Hm as [_ _ _ Htotal]. unfold Open.
  destruct (Zlen (en_KeyNonce envelope) <>? NonceSize master) eqn:Hn; [done|]. bools. cbn [orb].
  destruct (_ <>? _); [done|]. destruct (ae_Open master _ _ _) as [dataKey| |] eqn:Ho; [|done|by apply Htotal in Ho].
  destruct (gcm dataKey) as [c|] eqn:Hc; [|done]. destruct (Zlen (en_DataNonce envelope) <>? NonceSize c) eqn:Hd; [done|]. bools.
  by apply (gcm_ok _ _ Hc).
Qed.
End Cipher.

(** ** A toy cipher, for the examples at which the theorems are applied *)

(** The tag is the end of the additional data. *)
Definition toy_tag (data : bytes) : bytes := take 16 (reverse data ++ replicate 16 zero).
Definition toy_open (nonce sealed data : bytes) : opened :=
  if negb (Zlen nonce =? 12) then Panics
  else if bool_decide (take 16 sealed = toy_tag data) then Plain (drop 16 sealed) else Refused.
Definition toy_aead : AEAD := mkAEAD 12 16 (λ nonce text data, toy_tag data ++ text) toy_open.
Definition toy_gcm (key : bytes) : option AEAD := if Zlen key =? keySize then Some toy_aead else None.

Lemma length_toy_tag data : length (toy_tag data) = 16%nat.
Proof. unfold toy_tag. rewrite length_take, length_app, length_replicate. lia. Qed.

Lemma toy_laws purposes : NoDup (toy_tag <$> (dek_data <$> purposes)) → AEADLaws toy_gcm purposes.
Proof.
  intros Hnd. split.
  - intros key Hk. unfold toy_gcm. rewrite bool_decide_eq_true_2 by done. by eexists.
  - intros key c. unfold toy_gcm. destruct (_ =? _); [|done]. intros [= <-].
    assert (Hopen : ∀ nonce text data data', Zlen nonce = 12 →
      toy_open nonce (toy_tag data ++ text) data' = if bool_decide (toy_tag data = toy_tag data') then Plain text else Refused).
    { intros nonce text data data' Hn. unfold toy_open. rewrite bool_decide_eq_true_2 by done. cbn [negb].
      by rewrite take_app_length', drop_app_length' by (by rewrite length_toy_tag). }
    split; cbn [toy_aead ae_Open ae_Seal NonceSize Overhead].
    + intros nonce text data Hn. rewrite Hopen by done. by rewrite bool_decide_eq_true_2.
    + intros nonce text data data' Hn Hd Hd' Hne. rewrite Hopen by done. rewrite bool_decide_eq_false_2; [done|].
      intros Heq. apply Hne. by eapply (NoDup_key_unique toy_tag).
    + intros nonce text data. unfold Zlen. rewrite length_app, length_toy_tag. lia.
    + intros nonce sealed data Hn. unfold toy_open. rewrite bool_decide_eq_true_2 by done. cbn [negb]. by destruct (bool_decide _).
Qed.
