(* ===== verification/SignIn.v ===== *)
(** internal/identity/oauth.go, internal/provisioning/service.go and the transactions of
    internal/store/postgres/oauth.go and provisioning.go: how people sign in with an account
    of GitHub or Gitee, and how the first of them becomes the administrator.

    Every transaction but [ConsumeOAuth] holds the lock of [oauthLock], so they run one after
    the other. *)

From S2P Require Import Prelude GoStd RunModel Authorization Codecs Database Identity Secrets.

(** ** oauth.go of internal/identity *)

Definition FlowTTL : duration := 5 * Minute.
Definition DefaultTTL : duration := 8 * Hour.

Record ExternalUser := mkExternalUser {
  xu_Provider : string;
  xu_Instance : string;
  xu_Subject : string;
  xu_Login : string;
  xu_Name : string;
}.

(** Carriage return, line feed and NUL. *)
Definition line_breaks : string := of_chars ["013"; "010"; "000"]%char.

Definition ValidUser (user : ExternalUser) : bool :=
  ValidProviderInstance (xu_Provider user) (xu_Instance user) && ValidGitHubSubject (xu_Subject user)
  && (0 <? len (xu_Login user)) && (len (xu_Login user) <=? 100) && (len (xu_Name user) <=? 256)
  && negb (ContainsAny (xu_Login user +:+ xu_Name user)%string line_breaks).

(** ** Tables (migrations 1, 3, 4 and 17) *)

Record bootstrapRow := mkBootstrapRow {
  bo_provider : string;
  bo_instance : string;
  bo_subject : string;
  bo_consumed : option (time * uuid);   (** consumed_at and user_id *)
}.

Record flowRow := mkFlowRow {
  fl_state_hash : string;
  fl_browser_hash : string;
  fl_link_session : option uuid;
  fl_completion_hash : option string;
  fl_expires_at : time;
  fl_config : option uuid;
  fl_verify_session : option uuid;
  fl_verify_setup : option string;
}.

Record setupRow := mkSetupRow {
  su_code : option (string * time);      (** code_hash and code_expires_at *)
  su_session : option (string * time);   (** session_hash and session_expires_at *)
  su_finished_at : option time;
  su_master_key_digest : option string;
}.

Record configRow := mkConfigRow {
  lc_id : uuid;
  lc_provider : string;
  lc_instance : string;
  lc_client_id : string;
  lc_encrypted_secret : Envelope;
  lc_bootstrap_subject : string;
  lc_status : string;
  lc_expected_active : option uuid;
  lc_created_by : option uuid;
  lc_setup_hash : option string;
  lc_created_at : time;
  lc_expires_at : time;
}.

Record identityRow := mkIdentityRow {
  ex_id : uuid;
  ex_user_id : uuid;
  ex_provider : string;
  ex_instance : string;
  ex_external_id : string;
  ex_login : string;
}.

(** The tables of sign-in beside those of Database.v; [si_created] is the column
    [created_at] of the sessions, and there is one row of [auth_setup]. *)
Record signin := mkSignin {
  si_db : database;
  si_created : gmap uuid time;
  si_bootstrap : option bootstrapRow;
  si_flows : list flowRow;
  si_setup : setupRow;
  si_configs : list configRow;
  si_identities : list identityRow;
}.

Definition si_now (s : signin) : time := db_now (si_db s).
Definition si_directory (s : signin) : directory := db_directory (si_db s).

Definition with_db (x : database) (s : signin) : signin :=
  mkSignin x (si_created s) (si_bootstrap s) (si_flows s) (si_setup s) (si_configs s) (si_identities s).
Definition with_created (x : gmap uuid time) (s : signin) : signin :=
  mkSignin (si_db s) x (si_bootstrap s) (si_flows s) (si_setup s) (si_configs s) (si_identities s).
Definition with_bootstrap (x : option bootstrapRow) (s : signin) : signin :=
  mkSignin (si_db s) (si_created s) x (si_flows s) (si_setup s) (si_configs s) (si_identities s).
Definition with_flows (x : list flowRow) (s : signin) : signin :=
  mkSignin (si_db s) (si_created s) (si_bootstrap s) x (si_setup s) (si_configs s) (si_identities s).
Definition with_setup (x : setupRow) (s : signin) : signin :=
  mkSignin (si_db s) (si_created s) (si_bootstrap s) (si_flows s) x (si_configs s) (si_identities s).
Definition with_configs (x : list configRow) (s : signin) : signin :=
  mkSignin (si_db s) (si_created s) (si_bootstrap s) (si_flows s) (si_setup s) x (si_identities s).
Definition with_identities (x : list identityRow) (s : signin) : signin :=
  mkSignin (si_db s) (si_created s) (si_bootstrap s) (si_flows s) (si_setup s) (si_configs s) x.

Definition with_users (x : gmap uuid userRow) (d : database) : database :=
  let di := db_directory d in
  with_directory (mkDirectory (di_instance di) (di_organizations di) (di_repositories di) (di_environments di)
    x (di_sessions di) (di_memberships di)) d.

Definition audit (actor : option uuid) (action resource : string) (id : uuid) (s : signin) : signin :=
  with_db (append_audit actor action resource id (si_db s)) s.

(** [setupAudit]; the resource is the row of [auth_setup]. *)
Definition setupAudit (action : string) (s : signin) : signin := audit None action "auth_setup" uuid_Nil s.

Inductive SignInError :=
| SiRun (e : RunError)
| ErrOAuthFlow | ErrIdentityConflict | ErrBootstrap | ErrFlowCapacity   (** internal/identity *)
| ErrSetupConflict | ErrSetup | ErrLoginConfig.                         (** internal/provisioning *)
#[export] Instance SignInError_eq_dec : EqDecision SignInError.
Proof. solve_decision. Defined.

Abbreviation ErrSignInDatabase := (SiRun ErrDatabase) (only parsing).

Definition lift {A} (r : result RunError A) : result SignInError A :=
  match r with Ok a => Ok a | Err e => Err (SiRun e) end.

Definition committed {A} (body : signin → result SignInError (signin * A)) (s : signin) : signin * result SignInError A :=
  match body s with Ok (s', a) => (s', Ok a) | Err e => (s, Err e) end.

(** [a = b] and [a OR b] of SQL, where [None] is NULL. *)
Definition sql_eq {A} `{EqDecision A} (a b : option A) : option bool :=
  match a, b with Some a, Some b => Some (bool_decide (a = b)) | _, _ => None end.
Definition sql_or (a b : option bool) : option bool :=
  match a, b with
  | Some true, _ | _, Some true => Some true
  | Some false, Some false => Some false
  | _, _ => None
  end.
Definition sql_true (a : option bool) : bool := match a with Some true => true | _ => false end.

(** A membership of an administrator of the instance. *)
Definition instance_admin (m : membershipRow) : bool := (sc_Kind (me_scope m) =? Instance_) && (me_role m =? Admin).
Definition has_admin (s : signin) : bool := existsb instance_admin (di_memberships (si_directory s)).

Section SignIn.
Variable sha256 : string → string.

Abbreviation digest_of := (TokenDigest sha256).

(** [identity.TokenDigest] of the tokens of a request *)
Definition digest (e : SignInError) (token : string) : result SignInError string :=
  match digest_of token with Some h => Ok h | None => Err e end.

(** ** Access to the settings (provisioning.go) *)

(** [provisioning.Access] *)
Record SettingsAccess := mkSettingsAccess { sx_SessionToken : string; sx_SetupToken : string }.

(** The zero session stands for a holder of a setup session. *)
Definition zero_session : Session := mkSession uuid_Nil uuid_Nil "" time_zero.
Record settingsActor := mkSettingsActor { sa_session : Session; sa_setup_hash : option string }.

Definition flowLive (expiry : time) (s : signin) : result SignInError unit :=
  if si_now s <? expiry then Ok tt else Err ErrOAuthFlow.

Definition recentSession (id : uuid) (s : signin) : result SignInError unit :=
  match si_created s !! id with
  | None => Err ErrSignInDatabase
  | Some created => if si_now s - 10 * Minute <? created then Ok tt else Err (SiRun ErrUnauthenticated)
  end.

Definition bootstrap_consumed (s : signin) : bool :=
  match si_bootstrap s with Some b => bool_decide (bo_consumed b ≠ None) | None => false end.

Definition settingsAccess (access : SettingsAccess) (recent : bool) (s : signin) : result SignInError settingsActor :=
  fail_if bool_decide ((sx_SessionToken access = "") ↔ (sx_SetupToken access = "")) with SiRun ErrUnauthenticated;;
  if sx_SessionToken access <>? "" then
    let? session := lift (authenticateSession sha256 (sx_SessionToken access) (si_db s)) in
    let? _ := lift (authorize session (mkScope Instance_ (di_instance (si_directory s))) InstanceManage (si_db s)) in
    let? _ := (if recent then recentSession (ss_ID session) s else Ok tt) in
    let? _ := lift (sessionLive session (si_db s)) in
    Ok (mkSettingsActor session None)
  else
    let? h := digest ErrSetup (sx_SetupToken access) in
    match su_session (si_setup s) with
    | Some (hash, expiry) =>
      fail_if (hash <>? h) || bool_decide (su_finished_at (si_setup s) ≠ None) || bootstrap_consumed s with ErrSetup;;
      if si_now s <? expiry then Ok (mkSettingsActor zero_session (Some h)) else Err ErrSetup
    | None => Err ErrSetup
    end.

Definition actorOwner (actor : settingsActor) : option uuid :=
  if ss_UserID (sa_session actor) =? uuid_Nil then None else Some (ss_UserID (sa_session actor)).

Definition active_config (s : signin) : option configRow := snd <$> list_find (λ c, lc_status c = "active") (si_configs s).
Definition activeID (s : signin) : option uuid := lc_id <$> active_config s.

Definition find_config (id : uuid) (s : signin) : option configRow :=
  snd <$> list_find (λ c, lc_id c = id) (si_configs s).

Definition set_config_status (status : string) (c : configRow) : configRow :=
  mkConfigRow (lc_id c) (lc_provider c) (lc_instance c) (lc_client_id c) (lc_encrypted_secret c) (lc_bootstrap_subject c)
    status (lc_expected_active c) (lc_created_by c) (lc_setup_hash c) (lc_created_at c) (lc_expires_at c).

(** [UPDATE login_configs SET status='retired'] for the candidates with [p] *)
Definition retire (p : configRow → bool) (s : signin) : signin :=
  with_configs (update_all (λ c, (lc_status c =? "candidate") && p c) (set_config_status "retired") (si_configs s)) s.

(** [ProvisioningStatus]: initialized, configured and the provider *)
Definition ProvisioningStatus (s : signin) : bool * bool * string :=
  (bootstrap_consumed s, bool_decide (active_config s ≠ None), default "" (lc_provider <$> active_config s)).

(** ** Setup *)

(** [BindManagedMasterKey] *)
Definition BindManagedMasterKey (key : bytes) : signin → signin * result SignInError unit :=
  if Z.of_nat (length key) <>? 32 then λ s, (s, Err ErrLoginConfig)
  else committed (λ s,
    let su := si_setup s in
    let h := sha256 (of_chars key) in
    fail_if match su_master_key_digest su with Some existing => existing <>? h | None => false end with ErrLoginConfig;;
    Ok (with_setup (mkSetupRow (su_code su) (su_session su) (su_finished_at su) (Some h)) s, tt)).

Definition IssueSetupCode (code : string) : signin → signin * result SignInError unit :=
  match digest ErrSetup code with
  | Err e => λ s, (s, Err e)
  | Ok h => committed (λ s,
      let su := si_setup s in
      fail_if bool_decide (su_finished_at su ≠ None) || bool_decide (si_bootstrap s ≠ None) || has_admin s with ErrSetup;;
      let s := with_setup (mkSetupRow (Some (h, si_now s + 15 * Minute)) None (su_finished_at su) (su_master_key_digest su)) s in
      let s := retire (λ c, bool_decide (lc_setup_hash c ≠ None)) s in
      Ok (setupAudit "setup.code_issued" s, tt))
  end.

Definition ExchangeSetupCode (code token : string) : signin → signin * result SignInError unit :=
  match digest ErrSetup code, digest ErrSetup token with
  | Ok h, Ok t => committed (λ s,
      let su := si_setup s in
      match su_code su with
      | Some (hash, expires) =>
        fail_if (hash <>? h) || negb (si_now s <? expires) || bool_decide (su_finished_at su ≠ None)
          || bool_decide (si_bootstrap s ≠ None) with ErrSetup;;
        let s := with_setup (mkSetupRow None (Some (t, si_now s + 30 * Minute)) (su_finished_at su) (su_master_key_digest su)) s in
        Ok (setupAudit "setup.code_redeemed" s, tt)
      | None => Err ErrSetup
      end)
  | _, _ => λ s, (s, Err ErrSetup)
  end.

(** ** Login configurations *)

(** [provisioning.Config] as it is saved *)
Record LoginConfig := mkLoginConfig {
  cf_ID : uuid;
  cf_Provider : string;
  cf_Instance : string;
  cf_ClientID : string;
  cf_BootstrapSubject : string;
  cf_Encrypted : Envelope;
  cf_ExpectedActive : option uuid;
}.

(** [provisioning.Settings]: the active configuration and the newest candidate of the actor *)
Definition owned_by (actor : settingsActor) (c : configRow) : option bool :=
  sql_or (sql_eq (lc_created_by c) (actorOwner actor)) (sql_eq (lc_setup_hash c) (sa_setup_hash actor)).

Definition LoginSettings (access : SettingsAccess) (s : signin)
    : result SignInError (option configRow * option configRow) :=
  let? actor := settingsAccess access false s in
  let candidates := List.filter (λ c, (lc_status c =? "candidate") && (si_now s <? lc_expires_at c) && sql_true (owned_by actor c)) (si_configs s) in
  Ok (active_config s, least_row (λ a b, lc_created_at b <? lc_created_at a) candidates).

(** The defaults of callers that name no provider. *)
Definition with_provider (c : LoginConfig) : LoginConfig :=
  if (cf_Provider c =? "") && (cf_Instance c =? "")
  then mkLoginConfig (cf_ID c) "github" GitHubInstance (cf_ClientID c) (cf_BootstrapSubject c) (cf_Encrypted c) (cf_ExpectedActive c)
  else c.

(** The constraints of [login_configs] that a new row must meet. *)
Definition config_insertable (c : configRow) (s : signin) : bool :=
  bool_decide (lc_id c ∉ lc_id <$> si_configs s)
  && match lc_expected_active c with Some id => bool_decide (id ∈ lc_id <$> si_configs s) | None => true end
  && xorb (bool_decide (lc_created_by c ≠ None)) (bool_decide (lc_setup_hash c ≠ None)).

Definition SaveLoginCandidate (access : SettingsAccess) (config : LoginConfig) : signin → signin * result SignInError unit :=
  let config := with_provider config in
  if (cf_ID config =? uuid_Nil) || negb (ValidProviderInstance (cf_Provider config) (cf_Instance config))
     || negb (ValidGitHubSubject (cf_BootstrapSubject config))
  then λ s, (s, Err ErrLoginConfig)
  else committed (λ s,
    let? actor := settingsAccess access true s in
    fail_if activeID s <>? cf_ExpectedActive config with ErrSetupConflict;;
    let? _ :=
      if ss_UserID (sa_session actor) =? uuid_Nil then Ok tt
      else match si_bootstrap s with
      | Some b =>
        fail_if bool_decide (bo_consumed b = None) with ErrSetupConflict;;
        fail_if (cf_Provider config <>? bo_provider b) || (cf_Instance config <>? bo_instance b)
          || (cf_BootstrapSubject config <>? bo_subject b) with ErrLoginConfig;;
        Ok tt
      | None => Err ErrSetupConflict
      end in
    let s := retire (λ c, (lc_expires_at c <=? si_now s) || sql_true (owned_by actor c)) s in
    fail_if 100 <=? Z.of_nat (length (List.filter (λ c, lc_status c =? "candidate") (si_configs s))) with ErrFlowCapacity;;
    let row := mkConfigRow (cf_ID config) (cf_Provider config) (cf_Instance config) (cf_ClientID config) (cf_Encrypted config)
      (cf_BootstrapSubject config) "candidate" (cf_ExpectedActive config) (actorOwner actor) (sa_setup_hash actor)
      (si_now s) (si_now s + 30 * Minute) in
    fail_if negb (config_insertable row s) with ErrSignInDatabase;;
    let s := with_configs (si_configs s ++ [row]) s in
    Ok (audit (actorOwner actor) "login_config.candidate_saved" "login_config" (cf_ID config) s, tt)).

(** A scan of NULL into a Go [bool] is an error. *)
Definition checkCandidate (config : configRow) (actor : settingsActor) (s : signin) : result SignInError unit :=
  fail_if lc_status config <>? "candidate" with ErrSetupConflict;;
  fail_if negb (si_now s <? lc_expires_at config) with ErrSetupConflict;;
  fail_if activeID s <>? lc_expected_active config with ErrSetupConflict;;
  match owned_by actor config with
  | None => Err ErrSetupConflict
  | Some false => Err (SiRun ErrForbidden)
  | Some true => Ok tt
  end.

(** ** Flows *)

(** The flows that have not expired, and the new one. *)
Definition begin_flow (flow : flowRow) (s : signin) : result SignInError signin :=
  let flows := List.filter (λ f, si_now s <? fl_expires_at f) (si_flows s) in
  fail_if 1000 <=? Z.of_nat (length flows) with ErrFlowCapacity;;
  fail_if bool_decide (fl_state_hash flow ∈ fl_state_hash <$> flows) with ErrSignInDatabase;;
  Ok (with_flows (flows ++ [flow]) s).

(** The session of [linkToken], which must be recent. *)
Definition link_session (linkToken : string) (s : signin) : result SignInError (option uuid) :=
  if linkToken =? "" then Ok None
  else
    let? session := lift (authenticateSession sha256 linkToken (si_db s)) in
    let? _ := recentSession (ss_ID session) s in
    Ok (Some (ss_ID session)).

Definition BeginOAuth (state nonce linkToken : string) : signin → signin * result SignInError unit :=
  match digest ErrOAuthFlow state, digest ErrOAuthFlow nonce with
  | Ok h, Ok b => committed (λ s,
      let? link := link_session linkToken s in
      let? s := begin_flow (mkFlowRow h b link None (si_now s + FlowTTL) None None None) s in
      Ok (s, tt))
  | _, _ => λ s, (s, Err ErrOAuthFlow)
  end.

Definition BeginManagedOAuth (state nonce linkToken : string) (candidate : uuid) (access : SettingsAccess)
    : signin → signin * result SignInError configRow :=
  match digest ErrOAuthFlow state, digest ErrOAuthFlow nonce with
  | Ok h, Ok b => committed (λ s,
      let? '(config, link, verify, setup) :=
        if candidate <>? uuid_Nil then
          let? actor := settingsAccess access true s in
          match find_config candidate s with
          | None => Err ErrSetupConflict
          | Some config =>
            let? _ := checkCandidate config actor s in
            let verify := if ss_ID (sa_session actor) =? uuid_Nil then None else Some (ss_ID (sa_session actor)) in
            Ok (config, None, verify, sa_setup_hash actor)
          end
        else
          match active_config s with
          | None => Err ErrSetupConflict
          | Some config => let? link := link_session linkToken s in Ok (config, link, None, None)
          end in
      let? s := begin_flow (mkFlowRow h b link None (si_now s + FlowTTL) (Some (lc_id config)) verify setup) s in
      Ok (s, config))
  | _, _ => λ s, (s, Err ErrOAuthFlow)
  end.

Definition set_completion (h : string) (f : flowRow) : flowRow :=
  mkFlowRow (fl_state_hash f) (fl_browser_hash f) (fl_link_session f) (Some h) (fl_expires_at f) (fl_config f)
    (fl_verify_session f) (fl_verify_setup f).

(** [value] is what the ticket is made of. *)
Definition ConsumeOAuth (value : bytes) (state nonce : string) : signin → signin * result SignInError string :=
  match digest ErrOAuthFlow state, digest ErrOAuthFlow nonce with
  | Ok h, Ok b => committed (λ s,
      let ticket := NewToken value in
      let t := default "" (digest_of ticket) in
      let waiting f := (fl_state_hash f =? h) && (fl_browser_hash f =? b) && bool_decide (fl_completion_hash f = None)
        && (si_now s <? fl_expires_at f) in
      fail_if negb (existsb waiting (si_flows s)) with ErrOAuthFlow;;
      fail_if bool_decide (Some t ∈ fl_completion_hash <$> si_flows s) with ErrSignInDatabase;;
      Ok (with_flows (update_all waiting (set_completion t) (si_flows s)) s, ticket))
  | _, _ => λ s, (s, Err ErrOAuthFlow)
  end.

Definition ManagedFlowConfig (ticket : string) (s : signin) : result SignInError configRow :=
  let? h := digest ErrOAuthFlow ticket in
  let flow := list_find (λ f, fl_completion_hash f = Some h ∧ si_now s < fl_expires_at f) (si_flows s) in
  match (flow ≫= λ x, fl_config x.2) ≫= λ id, find_config id s with
  | Some config => Ok config
  | None => Err ErrSetupConflict
  end.

(** ** Completion *)

(** [INSERT INTO oauth_bootstrap]: there is at most one row. *)
Definition insert_bootstrap (b : bootstrapRow) (s : signin) : result SignInError signin :=
  match si_bootstrap s with
  | Some _ => Err ErrSetupConflict
  | None => Ok (with_bootstrap (Some b) s)
  end.

Definition find_identity (user : ExternalUser) (s : signin) : option identityRow :=
  snd <$> list_find (λ x, ex_provider x = xu_Provider user ∧ ex_instance x = xu_Instance user ∧ ex_external_id x = xu_Subject user)
    (si_identities s).

(** The configuration to activate and the user who verified it, [uuid.Nil] for none. *)
Definition prepareManagedCompletion (flow : flowRow) (user : ExternalUser) (currentToken setupToken : string) (s : signin)
    : result SignInError (signin * option configRow * uuid) :=
  match fl_config flow with
  | None => Ok (s, None, uuid_Nil)
  | Some id =>
    match find_config id s with
    | None => Err ErrSetupConflict
    | Some config =>
      let same_provider := (xu_Provider user =? lc_provider config) && (xu_Instance user =? lc_instance config) in
      if bool_decide (fl_verify_session flow = None) && bool_decide (fl_verify_setup flow = None) then
        fail_if negb same_provider with SiRun ErrForbidden;;
        fail_if lc_status config <>? "active" with ErrSetupConflict;;
        Ok (s, None, uuid_Nil)
      else
        let access := match fl_verify_session flow with
          | Some _ => mkSettingsAccess currentToken ""
          | None => mkSettingsAccess "" setupToken
          end in
        let? actor := settingsAccess access true s in
        fail_if match fl_verify_session flow with Some id => ss_ID (sa_session actor) <>? id | None => false end
          with SiRun ErrUnauthenticated;;
        fail_if match fl_verify_setup flow with Some h => sa_setup_hash actor <>? Some h | None => false end with ErrSetup;;
        let? _ := checkCandidate config actor s in
        match fl_verify_session flow with
        | None =>
          fail_if negb same_provider || (xu_Subject user <>? lc_bootstrap_subject config) with SiRun ErrForbidden;;
          let? s := insert_bootstrap (mkBootstrapRow (lc_provider config) (lc_instance config) (lc_bootstrap_subject config) None) s in
          Ok (s, Some config, ss_UserID (sa_session actor))
        | Some _ =>
          fail_if negb same_provider with SiRun ErrForbidden;;
          match find_identity user s with
          | None => Err (SiRun ErrForbidden)
          | Some x =>
            fail_if ex_user_id x <>? ss_UserID (sa_session actor) with SiRun ErrForbidden;;
            Ok (s, Some config, ss_UserID (sa_session actor))
          end
        end
    end
  end.

Definition activateLoginConfig (config : configRow) (owner : uuid) (s : signin) : signin :=
  let configs := update_all (λ c, lc_status c =? "active") (set_config_status "retired") (si_configs s) in
  let configs := update_all (λ c, lc_id c =? lc_id config) (set_config_status "active") configs in
  let su := si_setup s in
  let setup := mkSetupRow None None (Some (default (si_now s) (su_finished_at su))) (su_master_key_digest su) in
  audit (Some owner) "login_config.activated" "login_config" (lc_id config) (with_setup setup (with_configs configs s)).

(** [ConfigureGitHubBootstrap]: the administrator named by the configuration file. *)
Definition ConfigureGitHubBootstrap (subject : string) : signin → signin * result SignInError unit :=
  if negb (ValidGitHubSubject subject) then λ s, (s, Err ErrBootstrap)
  else committed (λ s,
    match si_bootstrap s with
    | Some b => fail_if bo_subject b <>? subject with ErrBootstrap;; Ok (s, tt)
    | None =>
      fail_if has_admin s with ErrBootstrap;;
      Ok (with_bootstrap (Some (mkBootstrapRow "github" GitHubInstance subject None)) s, tt)
    end).

(** What a completion draws: identifiers of the user, the identity, the membership and the
    session, and the session token; and the time it waits for locks. *)
Record completionDraws := mkDraws {
  dr_user : uuid;
  dr_identity : uuid;
  dr_membership : uuid;
  dr_session : uuid;
  dr_token : bytes;
  dr_waited : duration;
}.

(** [INSERT INTO users], with [name] or else [login] *)
Definition insert_user (id : uuid) (user : ExternalUser) (s : signin) : result SignInError signin :=
  let users := di_users (si_directory s) in
  let name := if xu_Name user =? "" then xu_Login user else xu_Name user in
  fail_if bool_decide (is_Some (users !! id)) with ErrSignInDatabase;;
  Ok (with_db (with_users (<[id := mkUserRow name true]> users) (si_db s)) s).

(** The owner of the identity, or the user to whom it will belong. *)
Definition completion_owner (owner : uuid) (existing : option identityRow) : result SignInError uuid :=
  match existing with
  | None => Ok owner
  | Some x => fail_if (owner <>? uuid_Nil) && (owner <>? ex_user_id x) with ErrIdentityConflict;; Ok (ex_user_id x)
  end.

Definition bind_identity (id owner : uuid) (user : ExternalUser) (s : signin) : result SignInError signin :=
  fail_if bool_decide (find_identity user s ≠ None) with ErrSignInDatabase;;
  let row := mkIdentityRow id owner (xu_Provider user) (xu_Instance user) (xu_Subject user) (xu_Login user) in
  Ok (audit (Some owner) "identity.linked" "identity" id (with_identities (si_identities s ++ [row]) s)).

(** The first sign-in makes its user the administrator of the instance. *)
Definition bootstrap_instance (id owner : uuid) (b : bootstrapRow) (s : signin) : result SignInError signin :=
  fail_if has_admin s with ErrBootstrap;;
  let instance := di_instance (si_directory s) in
  let memberships := di_memberships (si_directory s) ++ [mkMembershipRow id owner Admin (mkScope Instance_ instance)] in
  let s := with_db (with_memberships memberships (si_db s)) s in
  let s := with_bootstrap (Some (mkBootstrapRow (bo_provider b) (bo_instance b) (bo_subject b) (Some (si_now s, owner)))) s in
  Ok (audit (Some owner) "instance.bootstrapped" "instance" instance s).

Definition open_session (id : uuid) (value : bytes) (owner : uuid) (s : signin) : result SignInError (signin * Credentials) :=
  let? '(d, credentials) := lift (issueSession sha256 id value owner DefaultTTL (si_db s)) in
  Ok (with_created (<[id := si_now s]> (si_created s)) (with_db d s), credentials).

(** The session that the browser had before is revoked. *)
Definition revoke_current (token : string) (s : signin) : signin :=
  match digest_of token with
  | None => s
  | Some _ => with_db (RevokeSession sha256 token (si_db s)).1 s
  end.

Definition active_user (owner : uuid) (s : signin) : result SignInError unit :=
  match di_users (si_directory s) !! owner with
  | None => Err ErrSignInDatabase
  | Some u => if us_active u then Ok tt else Err (SiRun ErrUnauthenticated)
  end.

Definition finish_flow (draws : completionDraws) (flow : flowRow) (user : ExternalUser) (currentToken setupToken : string)
    (s : signin) : result SignInError (signin * Credentials) :=
  let? '(s, activation, owner) := prepareManagedCompletion flow user currentToken setupToken s in
  let? owner :=
    match fl_link_session flow with
    | None => Ok owner
    | Some link =>
      let? session := lift (authenticateSession sha256 currentToken (si_db s)) in
      fail_if ss_ID session <>? link with SiRun ErrUnauthenticated;;
      let? _ := recentSession (ss_ID session) s in
      Ok (ss_UserID session)
    end in
  let existing := find_identity user s in
  let? owner := completion_owner owner existing in
  match si_bootstrap s with
  | None => Err ErrBootstrap
  | Some b =>
    let bootstrapped := bool_decide (bo_consumed b ≠ None) in
    fail_if negb bootstrapped && ((xu_Provider user <>? bo_provider b) || (xu_Instance user <>? bo_instance b)
      || (xu_Subject user <>? bo_subject b)) with SiRun ErrForbidden;;
    let? '(s, owner) :=
      if owner =? uuid_Nil then let? s := insert_user (dr_user draws) user s in Ok (s, dr_user draws) else Ok (s, owner) in
    let? _ := active_user owner s in
    let? s := match existing with None => bind_identity (dr_identity draws) owner user s | Some _ => Ok s end in
    let? s := if bootstrapped then Ok s else bootstrap_instance (dr_membership draws) owner b s in
    let s := with_db (elapse (dr_waited draws) (si_db s)) s in
    let? _ := flowLive (fl_expires_at flow) s in
    let? '(s, credentials) := open_session (dr_session draws) (dr_token draws) owner s in
    let s := match activation with Some config => activateLoginConfig config owner s | None => s end in
    Ok (revoke_current currentToken s, credentials)
  end.

(** [finishOAuth]; [FinishOAuth] presents no setup token. *)
Definition finishOAuth (draws : completionDraws) (ticket : string) (user : ExternalUser) (currentToken setupToken : string)
    : signin → signin * result SignInError Credentials :=
  if negb (ValidUser user) then λ s, (s, Err (SiRun ErrUnauthenticated))
  else match digest_of ticket with
  | None => λ s, (s, Err ErrOAuthFlow)
  | Some h => committed (λ s,
      let taken f := bool_decide (fl_completion_hash f = Some h) && (si_now s <? fl_expires_at f) in
      match List.filter taken (si_flows s) with
      | [] => Err ErrOAuthFlow
      | flow :: _ =>
        finish_flow draws flow user currentToken setupToken
          (with_flows (List.filter (λ f, negb (taken f)) (si_flows s)) s)
      end)
  end.
End SignIn.
