(* ===== verification/SignInService.v ===== *)
(** Signing in: the service over the transactions of SignIn.v, and both as a system. *)

From S2P Require Import Prelude GoStd RunModel Authorization Codecs Database Identity Secrets SignIn.

(** * internal/provisioning/service.go, the providers of internal/identity (github.go and
    gitee.go) as far as they are configured, and the callback of internal/httpapi/oauth.go:
    the secrets of the providers and the order in which a sign-in consumes its flow, asks
    the provider and is completed. *)

(** [identity.GitHub] and [identity.Gitee] *)
Record OAuthProvider := mkOAuthProvider {
  op_provider : string;
  op_clientID : string;
  op_clientSecret : string;
  op_callback : string;
}.
#[export] Instance OAuthProvider_eq_dec : EqDecision OAuthProvider.
Proof. solve_decision. Defined.

Definition github_callback : string := "/api/v1/auth/github/callback".

(** [provisioning.Service]; the factories are those of [New]. *)
Record LoginService := mkLoginService { lv_cipher : AEAD; lv_Callback : string }.

(** [provisioning.Input] *)
Record LoginInput := mkLoginInput {
  li_Provider : string;
  li_ClientID : string;
  li_ClientSecret : string;
  li_BootstrapSubject : string;
  li_ExpectedActive : option uuid;
}.

(** What the callback reads of its request: the values of the query, the cookies and the
    number of authorization headers. *)
Record callbackRequest := mkCallback {
  cb_query_ok : bool;
  cb_state : list string;
  cb_code : list string;
  cb_error : list string;
  cb_flows : list string;
  cb_sessions : list string;
  cb_setup : list string;
  cb_authorization : nat;
  cb_provider : string;      (** [loginProvider]: what the path names *)
}.

Section Service.
Variable sha256 : string → string.
Variable hmac_sha256 : string → string → bytes.
Variable gcm : bytes → option AEAD.
Variable url_Parse : string → option parsedURL.
Variable uuid_String : uuid → string.

(** ** Providers *)

(** The checks on a callback address that both providers share. *)
Definition callback_ok (path callback : string) : bool :=
  match url_Parse callback with
  | None => false
  | Some u =>
    (pu_Scheme u =? "https") && (pu_Host u <>? "") && negb (pu_User u) && (pu_RawQuery u =? "") && negb (pu_ForceQuery u)
    && (pu_Fragment u =? "") && (pu_Path u =? path)
  end.

Definition secret_ok (clientID clientSecret : string) : bool :=
  (clientID <>? "") && (16 <=? len clientSecret) && (len clientSecret <=? 4096)
  && negb (ContainsAny (clientID +:+ clientSecret)%string line_breaks).

Definition NewGitHub (clientID clientSecret callback : string) : option OAuthProvider :=
  if negb (callback_ok github_callback callback) || negb (secret_ok clientID clientSecret) then None
  else Some (mkOAuthProvider "github" clientID clientSecret callback).

Definition NewGitee (clientID clientSecret callback : string) : option OAuthProvider :=
  if negb (callback_ok "/api/v1/auth/gitee/callback" callback) || (4096 <? len clientID) || negb (secret_ok clientID clientSecret)
  then None else Some (mkOAuthProvider "gitee" clientID clientSecret callback).

Definition PKCEVerifier (state nonce : string) : string :=
  of_chars (encode RawURLEncoding (hmac_sha256 nonce ("yuanci:oauth:pkce:v1:" +:+ state)%string)).

(** ** Configurations *)

Definition configAAD (provider instance : string) (id : uuid) : bytes :=
  if provider =? "github" then chars ("yuanci:login:github:" +:+ uuid_String id)%string
  else chars ("yuanci:login:" +:+ provider +:+ ":" +:+ instance +:+ ":" +:+ uuid_String id)%string.

Definition CallbackFor (sv : LoginService) (provider : string) : string :=
  (TrimSuffix (lv_Callback sv) github_callback +:+ "/api/v1/auth/" +:+ provider +:+ "/callback")%string.

(** [Exchange]; [value] is what the token of the setup session is made of. *)
Definition ExchangeCode (value : bytes) (code : string) (s : signin) : signin * result SignInError string :=
  match ExchangeSetupCode sha256 code (NewToken value) s with
  | (s, Ok _) => (s, Ok (NewToken value))
  | (s, Err e) => (s, Err e)
  end.

Definition Save (sv : LoginService) (id : uuid) (random : sealing) (access : SettingsAccess) (input : LoginInput) (s : signin)
    : signin * result SignInError uuid :=
  let provider := if li_Provider input =? "" then "github" else li_Provider input in
  let instance := if provider =? "gitee" then GiteeInstance else GitHubInstance in
  if negb (ValidProviderInstance provider instance) || negb (ValidGitHubSubject (li_BootstrapSubject input))
  then (s, Err ErrLoginConfig)
  else
    let validated :=
      if provider =? "gitee" then NewGitee (li_ClientID input) (li_ClientSecret input) (CallbackFor sv "gitee")
      else NewGitHub (li_ClientID input) (li_ClientSecret input) (lv_Callback sv) in
    match validated with
    | None => (s, Err ErrLoginConfig)
    | Some _ =>
      match Seal gcm (lv_cipher sv) random (chars (li_ClientSecret input)) (configAAD provider instance id) with
      | None => (s, Err ErrLoginConfig)
      | Some encrypted =>
        let config := mkLoginConfig id provider instance (li_ClientID input) (li_BootstrapSubject input) encrypted
          (li_ExpectedActive input) in
        match SaveLoginCandidate sha256 access config s with
        | (s, Ok _) => (s, Ok id)
        | (s, Err e) => (s, Err e)
        end
      end
    end.

(** The provider of a stored configuration; [ErrLoginConfig] stands for the error of the
    factories too. *)
Definition provider_of (sv : LoginService) (c : configRow) : result SignInError OAuthProvider :=
  if negb (ValidProviderInstance (lc_provider c) (lc_instance c)) then Err ErrLoginConfig
  else match Open gcm (lv_cipher sv) (lc_encrypted_secret c) (configAAD (lc_provider c) (lc_instance c) (lc_id c)) with
  | Plain secret =>
    let made :=
      if lc_provider c =? "gitee" then NewGitee (lc_client_id c) (of_chars secret) (CallbackFor sv "gitee")
      else NewGitHub (lc_client_id c) (of_chars secret) (lv_Callback sv) in
    match made with Some p => Ok p | None => Err ErrLoginConfig end
  | _ => Err ErrLoginConfig
  end.

Definition StartFor (sv : LoginService) (state nonce linkToken : string) (candidate : uuid) (access : SettingsAccess)
    (provider : string) (s : signin) : signin * result SignInError OAuthProvider :=
  match BeginManagedOAuth sha256 state nonce linkToken candidate access s with
  | (s, Err e) => (s, Err e)
  | (s, Ok config) =>
    (s, if (provider <>? "") && (provider <>? lc_provider config) then Err ErrOAuthFlow else provider_of sv config)
  end.

Definition ProviderFor (sv : LoginService) (ticket provider : string) (s : signin) : result SignInError OAuthProvider :=
  let? config := ManagedFlowConfig sha256 ticket s in
  if (provider <>? "") && (provider <>? lc_provider config) then Err ErrOAuthFlow else provider_of sv config.

(** ** The callback *)

(** The provider of the configuration file, or the settings of the database. *)
Inductive loginMode := FileLogin (provider : OAuthProvider) | ManagedLogin (service : LoginService).

(** [Exchange] of the providers, a request to the remote service. *)
Variable Exchange : OAuthProvider → string → string → option ExternalUser.

(** The tokens of the request: state, nonce, session and setup session. *)
Definition callback_tokens (request : callbackRequest) : result SignInError (string * string * string * string) :=
  fail_if negb (cb_query_ok request) || negb (length (cb_state request) =? 1)%nat || (1 <? length (cb_code request))%nat
    || (1 <? length (cb_error request))%nat || negb (length (cb_flows request) =? 1)%nat
    || (1 <? length (cb_sessions request))%nat || (1 <? length (cb_setup request))%nat
    || negb (cb_authorization request =? 0)%nat with ErrOAuthFlow;;
  let first l := default "" (head l) in
  let? _ := digest sha256 ErrOAuthFlow (first (cb_state request)) in
  let? _ := digest sha256 ErrOAuthFlow (first (cb_flows request)) in
  let? _ := (match cb_sessions request with [] => Ok "" | token :: _ => digest sha256 ErrOAuthFlow token end) in
  Ok (first (cb_state request), first (cb_flows request), first (cb_sessions request), first (cb_setup request)).

(** [finishLogin]; the last component is what the provider was asked.  [ErrProvider] of the
    code is [SiRun ErrDatabase] here: the user only learns that the provider failed. *)
Definition finishLogin (mode : loginMode) (value : bytes) (draws : completionDraws) (request : callbackRequest) (s : signin)
    : signin * result SignInError Credentials * list (OAuthProvider * string * string) :=
  match callback_tokens request with
  | Err e => (s, Err e, [])
  | Ok (state, nonce, currentToken, setupToken) =>
    match ConsumeOAuth sha256 value state nonce s with
    | (s, Err e) => (s, Err e, [])
    | (s, Ok ticket) =>
      let code := default "" (head (cb_code request)) in
      if negb (length (cb_error request) =? 0)%nat || (code =? "") || (1024 <? len code) then (s, Err ErrOAuthFlow, [])
      else
        let provider := match mode with
          | FileLogin p => Ok p
          | ManagedLogin sv => ProviderFor sv ticket (cb_provider request) s
          end in
        match provider with
        | Err e => (s, Err e, [])
        | Ok p =>
          let asked := [(p, code, PKCEVerifier state nonce)] in
          match Exchange p code (PKCEVerifier state nonce) with
          | None => (s, Err (SiRun ErrDatabase), asked)
          | Some user =>
            let '(s, r) := finishOAuth sha256 draws ticket user currentToken
              (match mode with FileLogin _ => "" | ManagedLogin _ => setupToken end) s in
            (s, r, asked)
          end
        end
    end
  end.
End Service.

(** * Signing in as a system: the transactions of SignIn.v, the callback of SignInService.v and
    the transactions of Identity.v that change accounts, in any order, with any arguments, and
    between changes of the other tables. *)

Inductive signin_op :=
| OpBindMasterKey (key : bytes)
| OpConfigureBootstrap (subject : string)
| OpIssueSetupCode (code : string)
| OpExchangeSetupCode (code token : string)
| OpSaveCandidate (access : SettingsAccess) (config : LoginConfig)
| OpBegin (state nonce linkToken : string)
| OpBeginManaged (state nonce linkToken : string) (candidate : uuid) (access : SettingsAccess)
| OpConsume (value : bytes) (state nonce : string)
| OpFinish (draws : completionDraws) (ticket : string) (user : ExternalUser) (currentToken setupToken : string)
| OpRevokeSession (token : string)
| OpChangeMembership (waited : duration) (id : uuid) (token : string) (subjectID : uuid) (scope : Scope) (role : Role) (add : bool).

Section System.
Variable sha256 : string → string.

(** The new state and whether the operation succeeded. *)
Definition outcome {A} (x : signin * result SignInError A) : signin * option SignInError :=
  (x.1, match x.2 with Ok _ => None | Err e => Some e end).

(** A transaction of Identity.v *)
Definition on_accounts (f : database → database * result RunError unit) (s : signin) : signin * result SignInError unit :=
  let '(d, r) := f (si_db s) in (with_db d s, lift r).

Definition execute (op : signin_op) (s : signin) : signin * option SignInError :=
  match op with
  | OpBindMasterKey key => outcome (BindManagedMasterKey sha256 key s)
  | OpConfigureBootstrap subject => outcome (ConfigureGitHubBootstrap subject s)
  | OpIssueSetupCode code => outcome (IssueSetupCode sha256 code s)
  | OpExchangeSetupCode code token => outcome (ExchangeSetupCode sha256 code token s)
  | OpSaveCandidate access config => outcome (SaveLoginCandidate sha256 access config s)
  | OpBegin state nonce linkToken => outcome (BeginOAuth sha256 state nonce linkToken s)
  | OpBeginManaged state nonce linkToken candidate access =>
    outcome (BeginManagedOAuth sha256 state nonce linkToken candidate access s)
  | OpConsume value state nonce => outcome (ConsumeOAuth sha256 value state nonce s)
  | OpFinish draws ticket user currentToken setupToken => outcome (finishOAuth sha256 draws ticket user currentToken setupToken s)
  | OpRevokeSession token => outcome (on_accounts (RevokeSession sha256 token) s)
  | OpChangeMembership waited id token subjectID scope role add =>
    outcome (on_accounts (ChangeMembership sha256 waited id token subjectID scope role add) s)
  end.

(** The operation starts a flow with the state of digest [h]. *)
Definition begins (op : signin_op) (h : string) : Prop :=
  match op with
  | OpBegin state _ _ | OpBeginManaged state _ _ _ _ => TokenDigest sha256 state = Some h
  | _ => False
  end.

(** Changes of the setup and of candidates. *)
Inductive settings_change (s : signin) : signin → Prop :=
| sc_none : settings_change s s
| sc_setup su :
    su_finished_at su = su_finished_at (si_setup s) →
    (su_finished_at su ≠ None → su_code su = su_code (si_setup s) ∧ su_session su = su_session (si_setup s)) →
    settings_change s (with_setup su s)
| sc_audit s' actor action resource id : settings_change s s' → settings_change s (audit actor action resource id s')
| sc_retire s' p : settings_change s s' → settings_change s (retire p s')
| sc_config s' c :
    settings_change s s' → config_insertable c s' = true → lc_status c = "candidate" →
    settings_change s (with_configs (si_configs s' ++ [c]) s').

(** The ways in which an operation can change a state. *)
Inductive change (s : signin) : signin_op → signin → Prop :=
| ch_settings op s' : settings_change s s' → change s op s'
| ch_bootstrap subject :
    si_bootstrap s = None → has_admin s = false →
    change s (OpConfigureBootstrap subject) (with_bootstrap (Some (mkBootstrapRow "github" GitHubInstance subject None)) s)
| ch_begin op flow s' :
    begin_flow flow s = Ok s' → fl_completion_hash flow = None → begins op (fl_state_hash flow) → change s op s'
| ch_consume value state nonce s' ticket :
    ConsumeOAuth sha256 value state nonce s = (s', Ok ticket) → change s (OpConsume value state nonce) s'
| ch_finish draws ticket user currentToken setupToken s' credentials :
    finishOAuth sha256 draws ticket user currentToken setupToken s = (s', Ok credentials) →
    change s (OpFinish draws ticket user currentToken setupToken) s'
| ch_revoke token d r : RevokeSession sha256 token (si_db s) = (d, r) → change s (OpRevokeSession token) (with_db d s)
| ch_membership waited id token subjectID scope role add d r :
    ChangeMembership sha256 waited id token subjectID scope role add (si_db s) = (d, r) →
    change s (OpChangeMembership waited id token subjectID scope role add) (with_db d s).

(** What the rest of the program does: time passes, and tables change that hold no accounts. *)
Definition same_accounts (d d' : database) : Prop :=
  di_instance (db_directory d') = di_instance (db_directory d) ∧ di_users (db_directory d') = di_users (db_directory d) ∧
  di_sessions (db_directory d') = di_sessions (db_directory d) ∧
  di_memberships (db_directory d') = di_memberships (db_directory d) ∧ db_now d ≤ db_now d'.

(** A step of a history in which only [allowed] operations occur. *)
Inductive signin_step (allowed : signin_op → Prop) : signin → signin → Prop :=
| step_execute op s : allowed op → signin_step allowed s (execute op s).1
| step_elsewhere s d : same_accounts (si_db s) d → signin_step allowed s (with_db d s).

(** A database after the migrations: nobody has signed in. *)
Definition signin_start (s : signin) : Prop :=
  si_bootstrap s = None ∧ si_flows s = [] ∧ si_configs s = [] ∧ si_identities s = [] ∧
  di_sessions (si_directory s) = [] ∧ si_setup s = mkSetupRow None None None None.

(** [uuid.New] never returns the zero identifier, and a token is made of 32 bytes. *)
Definition possible_op (op : signin_op) : Prop :=
  match op with
  | OpFinish draws _ _ _ _ => dr_user draws ≠ uuid_Nil ∧ length (dr_token draws) = 32%nat
  | OpConsume value _ _ => length value = 32%nat
  | _ => True
  end.

Definition signin_history : signin → signin → Prop := rtc (signin_step possible_op).
Definition signin_reachable (s : signin) : Prop := ∃ s0, signin_start s0 ∧ signin_history s0 s.

(** ** Well-formed states *)

Definition identity_key (x : identityRow) : string * string * string := (ex_provider x, ex_instance x, ex_external_id x).
Definition user_key (user : ExternalUser) : string * string * string := (xu_Provider user, xu_Instance user, xu_Subject user).
Definition bootstrap_key (b : bootstrapRow) : string * string * string := (bo_provider b, bo_instance b, bo_subject b).

Definition one_owner (c : configRow) : Prop :=
  (is_Some (lc_created_by c) ∧ lc_setup_hash c = None) ∨ (lc_created_by c = None ∧ is_Some (lc_setup_hash c)).

Record signin_ok (s : signin) : Prop := {
  (** Configurations are distinct, belong to one owner, and one of them is active. *)
  so_configs : NoDup (lc_id <$> si_configs s);
  so_owner : ∀ c, c ∈ si_configs s → one_owner c;
  so_active : ∀ c c', c ∈ si_configs s → c' ∈ si_configs s → lc_status c = "active" → lc_status c' = "active" → c = c';
  (** Setup is finished when a configuration is active, and leaves no credential behind. *)
  so_finished : ∀ c, c ∈ si_configs s → lc_status c = "active" → su_finished_at (si_setup s) ≠ None;
  so_closed : su_finished_at (si_setup s) ≠ None → su_code (si_setup s) = None ∧ su_session (si_setup s) = None;
  (** A state and a ticket belong to one flow. *)
  so_states : NoDup (fl_state_hash <$> si_flows s);
  so_tickets : ∀ f f' t, f ∈ si_flows s → f' ∈ si_flows s → fl_completion_hash f = Some t → fl_completion_hash f' = Some t → f = f';
  (** An external account belongs to one user, who exists; sessions belong to such users. *)
  so_identities : NoDup (identity_key <$> si_identities s);
  so_users : ∀ x, x ∈ si_identities s → ex_user_id x ≠ uuid_Nil ∧ is_Some (di_users (si_directory s) !! ex_user_id x);
  so_sessions : ∀ se, se ∈ di_sessions (si_directory s) → se_user_id se ∈ ex_user_id <$> si_identities s;
  (** Whoever bootstrapped the instance owns the external account that was named for it. *)
  so_bootstrap : ∀ b t u, si_bootstrap s = Some b → bo_consumed b = Some (t, u) →
    has_admin s = true ∧ ∃ x, x ∈ si_identities s ∧ identity_key x = bootstrap_key b ∧ ex_user_id x = u;
}.
End System.
