(* ===== verification/SignInFacts.v ===== *)
(** Facts about the transactions of SignIn.v: what each does to the tables, and that every
    state of SignInService.v is well formed. *)

From S2P Require Import Prelude GoStd RunModel Authorization Codecs Database Identity Secrets SignIn SignInService.

(** ** Accounts *)

Lemma instance_admin_true m : instance_admin m = true ↔ sc_Kind (me_scope m) = Instance_ ∧ me_role m = Admin.
Proof. unfold instance_admin. by rewrite andb_true_iff, !bool_decide_eq_true. Qed.

Lemma has_admin_true s : has_admin s = true ↔ ∃ m, m ∈ di_memberships (si_directory s) ∧ instance_admin m = true.
Proof.
  unfold has_admin. rewrite existsb_exists. split; intros (m & Hm & Ha); exists m; (split; [by apply list_elem_of_In|done]).
Qed.

(** Only administrators manage the instance or its members. *)
Lemma authorize_instance session scope action d :
  authorize session scope action d = Ok tt → sc_Kind scope = Instance_ → action = MembersManage ∨ action = InstanceManage →
  ss_UserID session ≠ uuid_Nil ∧ ∃ m, m ∈ di_memberships (db_directory d) ∧ me_user_id m = ss_UserID session ∧ instance_admin m = true.
Proof.
  unfold authorize, scopeResource. intros Ha Hk Hact. rewrite Hk, bool_decide_eq_true_2 in Ha by done.
  destruct (sc_ID scope <>? _) eqn:Hid; [done|]. cbn [rbind] in Ha. destruct (Allowed _ _ _) eqn:Hal; [|done]. clear Ha. bools.
  apply Allowed_spec in Hal as (target & g & [_ Hn _ _ _ _] & Hg & [Hs Hr _ _ Hp]). split; [done|].
  cbn [rq_Action rq_Resource rc_Path resource_path pr_ID] in *. 
  apply list_elem_of_singleton in Hp. unfold grants_of in Hg.
  apply list_elem_of_fmap in Hg as (m & -> & Hm). apply list_elem_of_filter in Hm as [Hu Hm]. cbn [gr_Role gr_Scope] in *.
  exists m. split; [done|]. split; [done|]. apply instance_admin_true. rewrite Hp. split; [done|].
  unfold roleAllows in Hr. destruct Hact as [-> | ->]; by repeat (case_bool_decide; [try done; by vm_compute in Hr|]).
Qed.

Section Accounts.
Variable sha256 : string → string.

(** What a membership change does. *)
Lemma ChangeMembership_spec waited new_id token subjectID scope role add d d' r :
  ChangeMembership sha256 waited new_id token subjectID scope role add d = (d', r) →
  d' = d ∨
  ∃ session, authenticateSession sha256 token d = Ok session ∧ authorize session scope MembersManage d = Ok tt ∧
    ss_UserID session ≠ subjectID ∧
    di_users (db_directory d') = di_users (db_directory d) ∧ di_sessions (db_directory d') = di_sessions (db_directory d) ∧
    di_instance (db_directory d') = di_instance (db_directory d) ∧
    (di_memberships (db_directory d') = di_memberships (db_directory d) ∨
     add = true ∧ di_memberships (db_directory d') = di_memberships (db_directory d) ++ [mkMembershipRow new_id subjectID role scope] ∨
     di_memberships (db_directory d') = List.filter (λ m, negb (same_membership subjectID scope role m)) (di_memberships (db_directory d))).
Proof.
  unfold ChangeMembership. destruct (_ || _); [intros [= <- _]; by left|]. destruct (negb _); [intros [= <- _]; by left|].
  unfold transaction. destruct (authenticateSession _ _ _) as [session|]; cbn [rbind]; [|intros [= <- _]; by left].
  destruct (_ =? subjectID) eqn:Hs; [intros [= <- _]; by left|]. bools.
  destruct (authorize _ _ _ _) as [[]|] eqn:Ha; cbn [rbind]; [|intros [= <- _]; by left].
  destruct (_ !! subjectID) as [subject|]; [|intros [= <- _]; by left]. destruct (_ && _); [intros [= <- _]; by left|]. cbv zeta.
  destruct (sessionLive _ _) as [[]|]; cbn [rbind]; [|intros [= <- _]; by left].
  destruct add, (List.filter _ _); intros [= <- _]; right; exists session; cbn; repeat split; try done; auto.
Qed.

(** Nobody can remove the membership of oneself, so an administrator remains. *)
Lemma ChangeMembership_admin waited new_id token subjectID scope role add d d' r m :
  ChangeMembership sha256 waited new_id token subjectID scope role add d = (d', r) →
  m ∈ di_memberships (db_directory d) → instance_admin m = true →
  ∃ m', m' ∈ di_memberships (db_directory d') ∧ instance_admin m' = true.
Proof.
  intros [-> |(session & _ & Ha & Hne & _ & _ & _ & [-> |[[_ ->]| ->]])]%ChangeMembership_spec Hm Hadm; [by exists m|by exists m| |].
  - exists m. split; [|done]. apply elem_of_app. by left.
  - assert (Hfilter : ∀ m', m' ∈ di_memberships (db_directory d) → same_membership subjectID scope role m' = false →
      m' ∈ List.filter (λ m, negb (same_membership subjectID scope role m)) (di_memberships (db_directory d))).
    { intros m' Hm' Hs. apply list_elem_of_In, filter_In. split; [by apply list_elem_of_In|by rewrite Hs]. }
    destruct (same_membership subjectID scope role m) eqn:Hs; [|by exists m; split; [apply Hfilter|]].
    unfold same_membership in Hs. bools. apply instance_admin_true in Hadm as [Hk _].
    destruct (authorize_instance _ _ _ _ Ha ltac:(by subst) ltac:(by left)) as (_ & a & Hia & Hu & Hadm').
    exists a. split; [|done]. apply Hfilter; [done|]. unfold same_membership.
    by rewrite (bool_decide_eq_false_2 (me_user_id a = subjectID)) by congruence.
Qed.

Lemma RevokeSession_accounts token d d' r :
  RevokeSession sha256 token d = (d', r) →
  di_users (db_directory d') = di_users (db_directory d) ∧ di_memberships (db_directory d') = di_memberships (db_directory d) ∧
  di_instance (db_directory d') = di_instance (db_directory d) ∧ db_now d' = db_now d ∧
  se_user_id <$> di_sessions (db_directory d') = se_user_id <$> di_sessions (db_directory d).
Proof.
  unfold RevokeSession. destruct (TokenDigest _ _); [|by intros [= <- _]]. unfold transaction.
  destruct (list_find _ _) as [[i row]|]; intros [= <- _]; [|done]. cbn. repeat split; try done. by apply fmap_update_keep.
Qed.
End Accounts.

(** ** Changes of one table *)

Lemma committed_keeps {A} (P : signin → Prop) (body : signin → result SignInError (signin * A)) s :
  P s → (∀ s' a, body s = Ok (s', a) → P s') → P (committed body s).1.
Proof. intros Hs Hbody. unfold committed. destruct (body s) as [[s' a]|] eqn:Hb; [by eapply Hbody|done]. Qed.

Lemma elem_of_update_all {A} (p : A → bool) f l (x : A) :
  x ∈ update_all p f l → ∃ y, y ∈ l ∧ x = if p y then f y else y.
Proof. intros (y & -> & Hy)%list_elem_of_fmap. by exists y. Qed.

Lemma elem_of_bfilter {A} (p : A → bool) l (x : A) : x ∈ List.filter p l ↔ x ∈ l ∧ p x = true.
Proof. by rewrite !list_elem_of_In, filter_In. Qed.

Lemma NoDup_fmap_bfilter {A B} (key : A → B) p l : NoDup (key <$> l) → NoDup (key <$> List.filter p l).
Proof.
  intros Hnd. eapply sublist_NoDup; [exact Hnd|]. apply fmap_sublist. clear Hnd.
  induction l as [|x l IH]; [done|]. cbn [List.filter]. destruct (p x); by constructor.
Qed.

Lemma NoDup_snoc {A B} (key : A → B) l x : NoDup (key <$> l) → key x ∉ key <$> l → NoDup (key <$> (l ++ [x])).
Proof.
  intros Hnd Hx. rewrite fmap_app. apply NoDup_app. split; [done|]. split; [|apply NoDup_singleton].
  intros k Hk ->%list_elem_of_singleton. done.
Qed.

Lemma ok_with_db s d :
  signin_ok s →
  (∀ id, is_Some (di_users (si_directory s) !! id) → is_Some (di_users (db_directory d) !! id)) →
  (∀ se, se ∈ di_sessions (db_directory d) → se_user_id se ∈ ex_user_id <$> si_identities s) →
  (has_admin s = true → has_admin (with_db d s) = true) →
  signin_ok (with_db d s).
Proof.
  intros [? ? ? ? ? ? ? ? Hu Hs Hb] Husers Hsessions Hadmin. split; try done; cbn.
  - intros x Hx. destruct (Hu x Hx) as [Hn Hx']. split; [done|by apply Husers].
  - intros b t u Hbo Hc. destruct (Hb b t u Hbo Hc) as [Ha Hx]. split; [by apply Hadmin|done].
Qed.

(** Changes outside of users, sessions and memberships. *)
Lemma ok_same_directory s d :
  signin_ok s → di_users (db_directory d) = di_users (si_directory s) →
  di_memberships (db_directory d) = di_memberships (si_directory s) →
  se_user_id <$> di_sessions (db_directory d) = se_user_id <$> di_sessions (si_directory s) → signin_ok (with_db d s).
Proof.
  intros Hok Hu Hm Hse. apply ok_with_db; [done|by rewrite Hu| |].
  - intros se Hin. apply (list_elem_of_fmap_2 se_user_id) in Hin. rewrite Hse in Hin.
    apply list_elem_of_fmap in Hin as (se' & Heq & Hin). rewrite Heq. by apply (so_sessions s Hok).
  - unfold has_admin, si_directory, with_db. cbn. by rewrite Hm.
Qed.

Lemma ok_audit actor action resource id s : signin_ok s → signin_ok (audit actor action resource id s).
Proof. intros Hok. by apply ok_same_directory. Qed.
#[local] Hint Resolve ok_audit : yuanci.

Lemma ok_with_setup su s :
  signin_ok s → (su_finished_at su ≠ None → su_code su = None ∧ su_session su = None) →
  (su_finished_at (si_setup s) ≠ None → su_finished_at su ≠ None) → signin_ok (with_setup su s).
Proof. intros [? ? ? Hf ? ? ? ? ? ? ?] Hclosed Hfin. split; try done; cbn. intros c Hc Ha. by eapply Hfin, Hf. Qed.

Lemma ok_retire p s : signin_ok s → signin_ok (retire p s).
Proof.
  intros [Hc Ho Ha Hf ? ? ? ? ? ? ?].
  assert (Hel : ∀ c, c ∈ si_configs (retire p s) → ∃ c0, c0 ∈ si_configs s ∧
    (c = c0 ∨ c = set_config_status "retired" c0)).
  { intros c (c0 & Hc0 & ->)%elem_of_update_all. exists c0. split; [done|]. destruct (_ && p c0); auto. }
  split; try done; cbn.
  - unfold update_all. rewrite <-list_fmap_compose. erewrite list_fmap_ext; [exact Hc|].
    intros i c _. simpl. by destruct (_ && p c).
  - intros c (c0 & Hc0 & [-> | ->])%Hel; by apply (Ho c0).
  - intros c c' (c0 & Hc0 & [-> | ->])%Hel (c0' & Hc0' & [-> | ->])%Hel; try done. by apply Ha.
  - intros c (c0 & Hc0 & [-> | ->])%Hel; [by apply Hf|done].
Qed.
#[local] Hint Resolve ok_retire : yuanci.

Lemma ok_add_config c s :
  signin_ok s → config_insertable c s = true → lc_status c ≠ "active" → signin_ok (with_configs (si_configs s ++ [c]) s).
Proof.
  intros [Hc Ho Ha Hf ? ? ? ? ? ? ?] Hins Hst. unfold config_insertable in Hins. bools.
  split; try done; cbn.
  - by apply NoDup_snoc.
  - intros c' [Hc'| ->%list_elem_of_singleton]%elem_of_app; [by apply Ho|]. unfold one_owner.
    destruct (lc_created_by c), (lc_setup_hash c); naive_solver.
  - intros c1 c2 [Hc1| ->%list_elem_of_singleton]%elem_of_app [Hc2| ->%list_elem_of_singleton]%elem_of_app; try done. by apply Ha.
  - intros c' [Hc'| ->%list_elem_of_singleton]%elem_of_app; [by apply Hf|done].
Qed.

Lemma ok_filter_flows p s : signin_ok s → signin_ok (with_flows (List.filter p (si_flows s)) s).
Proof.
  intros [? ? ? ? ? Hs Ht ? ? ? ?]. split; try done; cbn; [by apply NoDup_fmap_bfilter|].
  intros f f' t [Hf _]%elem_of_bfilter [Hf' _]%elem_of_bfilter. by apply Ht.
Qed.

Lemma ok_begin_flow flow s s' : signin_ok s → fl_completion_hash flow = None → begin_flow flow s = Ok s' → signin_ok s'.
Proof.
  unfold begin_flow. intros Hok Hnew. pose proof (ok_filter_flows (λ f, si_now s <? fl_expires_at f) s Hok) as [? ? ? ? ? Hs Ht ? ? ? ?].
  cbn in Hs, Ht. destruct (_ <=? _); [done|]. destruct (bool_decide _) eqn:Hin; [done|]. intros [= <-]. bools.
  split; try done; cbn; [by apply NoDup_snoc|].
  intros f f' t [Hf| ->%list_elem_of_singleton]%elem_of_app [Hf'| ->%list_elem_of_singleton]%elem_of_app ? ?; try congruence. by eapply Ht.
Qed.

Section Transactions.
Variable sha256 : string → string.

Lemma ok_consume h t (waiting : flowRow → bool) s :
  signin_ok s → (∀ f, waiting f = true → fl_state_hash f = h) → (∀ f, f ∈ si_flows s → fl_completion_hash f ≠ Some t) →
  signin_ok (with_flows (update_all waiting (set_completion t) (si_flows s)) s).
Proof.
  intros [? ? ? ? ? Hs Ht ? ? ? ?] Hw Hnew. split; try done; cbn; [by rewrite fmap_update_keep|].
  intros f f' t' (g & Hg & ->)%elem_of_update_all (g' & Hg' & ->)%elem_of_update_all.
  destruct (waiting g) eqn:H1, (waiting g') eqn:H2; cbn; intros.
  - f_equal. apply (NoDup_key_unique fl_state_hash (si_flows s)); [done..|]. rewrite (Hw g), (Hw g'); done.
  - destruct (Hnew g' Hg'). congruence.
  - destruct (Hnew g Hg). congruence.
  - by eapply Ht.
Qed.

(** *** Who may change the settings *)

Definition by_session (token : string) (actor : settingsActor) (s : signin) : Prop :=
  authenticateSession sha256 token (si_db s) = Ok (sa_session actor) ∧ sa_setup_hash actor = None ∧
  authorize (sa_session actor) (mkScope Instance_ (di_instance (si_directory s))) InstanceManage (si_db s) = Ok tt.

Definition by_setup (token : string) (actor : settingsActor) (s : signin) : Prop :=
  ∃ h expiry, TokenDigest sha256 token = Some h ∧ actor = mkSettingsActor zero_session (Some h) ∧
    su_session (si_setup s) = Some (h, expiry) ∧ si_now s < expiry ∧
    su_finished_at (si_setup s) = None ∧ bootstrap_consumed s = false.

Lemma settingsAccess_spec access recent s actor :
  settingsAccess sha256 access recent s = Ok actor →
  by_session (sx_SessionToken access) actor s ∨ (sx_SessionToken access = "" ∧ by_setup (sx_SetupToken access) actor s).
Proof.
  unfold settingsAccess. destruct (bool_decide (_ ↔ _)); [done|]. destruct (_ <>? "") eqn:Hs.
  - destruct (authenticateSession _ _ _) as [session|] eqn:Hau; [|done]. cbn [lift rbind].
    destruct (authorize _ _ _ _) as [[]|] eqn:Haz; [|done]. cbn [lift rbind].
    destruct (if recent then _ else _) as [[]|]; [|done]. cbn [rbind].
    destruct (sessionLive _ _) as [[]|]; [|done]. intros [= <-]. by left.
  - bools. unfold digest. destruct (TokenDigest _ _) as [h|] eqn:Hh; [|done]. cbn [rbind].
    destruct (su_session _) as [[hash expiry]|] eqn:Hsu; [|done]. destruct (_ || bootstrap_consumed s) eqn:Hc; [done|].
    destruct (Z.ltb_spec (si_now s) expiry); [|done]. intros [= <-]. bools. subst hash. right. split; [done|].
    exists h, expiry. repeat split; try done. by apply dec_stable.
Qed.

Lemma by_session_user token actor s : by_session token actor s →
  ss_UserID (sa_session actor) ≠ uuid_Nil ∧
  ∃ m, m ∈ di_memberships (si_directory s) ∧ me_user_id m = ss_UserID (sa_session actor) ∧ instance_admin m = true.
Proof. intros (_ & _ & Ha). by eapply authorize_instance; [exact Ha|done|by right]. Qed.

Lemma checkCandidate_spec config actor s :
  checkCandidate config actor s = Ok tt →
  lc_status config = "candidate" ∧ si_now s < lc_expires_at config ∧ activeID s = lc_expected_active config ∧
  owned_by actor config = Some true.
Proof.
  unfold checkCandidate. destruct (_ <>? "candidate") eqn:Hst; [done|].
  destruct (Z.ltb_spec (si_now s) (lc_expires_at config)); [|done]. cbn [negb].
  destruct (_ <>? lc_expected_active _) eqn:Hact; [done|]. destruct (owned_by _ _) as [[]|]; intros [=]. by bools.
Qed.

Lemma owned_by_true actor c : owned_by actor c = Some true →
  (∃ u, lc_created_by c = Some u ∧ actorOwner actor = Some u) ∨ (∃ h, lc_setup_hash c = Some h ∧ sa_setup_hash actor = Some h).
Proof.
  unfold owned_by. destruct (lc_created_by c), (actorOwner actor), (lc_setup_hash c), (sa_setup_hash actor); cbn;
    repeat case_bool_decide; intros [=]; subst; eauto.
Qed.

(** *** The stages of a completion *)

(** The candidate that a completion activates, and whose it is. *)
Record verified (flow : flowRow) (user : ExternalUser) (currentToken setupToken : string) (s : signin) (config : configRow)
    (owner : uuid) : Prop := {
  ve_config : fl_config flow ≫= (λ id, find_config id s) = Some config;
  ve_status : lc_status config = "candidate";
  ve_live : si_now s < lc_expires_at config;
  ve_revision : activeID s = lc_expected_active config;
  ve_provider : xu_Provider user = lc_provider config ∧ xu_Instance user = lc_instance config;
  ve_owner :
    (∃ actor x, by_session currentToken actor s ∧ ss_UserID (sa_session actor) = owner ∧ lc_created_by config = Some owner ∧
      find_identity user s = Some x ∧ ex_user_id x = owner) ∨
    (∃ actor, by_setup setupToken actor s ∧ owner = uuid_Nil ∧ lc_setup_hash config = sa_setup_hash actor ∧
      xu_Subject user = lc_bootstrap_subject config ∧ si_bootstrap s = None);
}.

Lemma prepareManagedCompletion_spec flow user currentToken setupToken s s' activation owner :
  prepareManagedCompletion sha256 flow user currentToken setupToken s = Ok (s', activation, owner) →
  match activation with
  | None => s' = s ∧ owner = uuid_Nil
  | Some config =>
    verified flow user currentToken setupToken s config owner ∧
    (s' = s ∨ s' = with_bootstrap (Some (mkBootstrapRow (lc_provider config) (lc_instance config) (lc_bootstrap_subject config) None)) s
       ∧ si_bootstrap s = None ∧ ∃ actor, by_setup setupToken actor s)
  end.
Proof.
  unfold prepareManagedCompletion. destruct (fl_config flow) as [id|] eqn:Hf; [|by intros [= <- <- <-]].
  destruct (find_config id s) as [config|] eqn:Hc; [|done]. cbv zeta.
  destruct (bool_decide (fl_verify_session flow = None) && _) eqn:Hv.
  { destruct (negb (_ && _)); [done|]. destruct (_ <>? "active"); [done|]. by intros [= <- <- <-]. }
  destruct (settingsAccess _ _ _ _) as [actor|] eqn:Hacc; [|done]. cbn [rbind]. apply settingsAccess_spec in Hacc.
  destruct (match fl_verify_session flow with Some _ => _ | None => false end) eqn:Hses; [done|].
  destruct (match fl_verify_setup flow with Some _ => _ | None => false end) eqn:Hset; [done|].
  destruct (checkCandidate _ _ _) as [[]|] eqn:Hch; [|done]. cbn [rbind].
  apply checkCandidate_spec in Hch as (Hst & Hlive & Hrev & Hown).
  destruct (fl_verify_session flow) as [vs|] eqn:Hvs; cbn [sx_SessionToken sx_SetupToken] in Hacc.
  - destruct (negb (_ && _)) eqn:Hp; [done|]. destruct (find_identity user s) as [x|] eqn:Hx; [|done].
    destruct (_ <>? _) eqn:Hxo in |- *; [done|]. intros [= <- <- <-]. bools. split; [|by left].
    destruct Hacc as [Hby|[_ (h & expiry & Hd & _)]]; [|by vm_compute in Hd].
    split; try done; [by rewrite Hf|]. left. exists actor, x. destruct Hby as (? & Hsh & ?).
    destruct (by_session_user currentToken actor s) as [Hn _]; [done|].
    destruct (owned_by_true _ _ Hown) as [(u & Hcb & Hu)|(h & _ & Hh)]; [|congruence].
    unfold actorOwner in Hu. rewrite bool_decide_eq_false_2 in Hu by done. repeat split; congruence.
  - destruct (negb (_ && _) || _) eqn:Hp; [done|]. unfold insert_bootstrap.
    destruct (si_bootstrap s) eqn:Hb; [done|]. cbn [rbind]. intros [= <- <- <-]. bools.
    destruct Hacc as [Hby|[_ Hby]].
    { destruct Hby as (Hau & _). by vm_compute in Hau. }
    split; [|right; by eauto]. split; try done; [by rewrite Hf|]. right. exists actor. split; [done|].
    destruct Hby as (h & expiry & _ & -> & _). split; [done|]. split; [|done].
    destruct (owned_by_true _ _ Hown) as [(u & _ & Hu)|(h' & Hh' & Hh)]; [done|]. congruence.
Qed.

Lemma ok_insert_bootstrap b s : signin_ok s → bo_consumed b = None → signin_ok (with_bootstrap (Some b) s).
Proof. intros [? ? ? ? ? ? ? ? ? ? ?] Hb. split; try done; cbn. intros b' t u [= <-]. congruence. Qed.

Lemma find_identity_Some user s x : find_identity user s = Some x → x ∈ si_identities s ∧ identity_key x = user_key user.
Proof.
  unfold find_identity. destruct (list_find _ _) as [[i y]|] eqn:Hf; [|done]. intros [= ->].
  apply list_find_Some in Hf as (Hi & (H1 & H2 & H3) & _). split; [by eapply list_elem_of_lookup_2|].
  unfold identity_key, user_key. congruence.
Qed.

Lemma find_identity_None user s : find_identity user s = None ↔ user_key user ∉ identity_key <$> si_identities s.
Proof.
  unfold find_identity. rewrite fmap_None, list_find_None, Forall_forall. split.
  - intros Hn (x & Heq & Hx)%list_elem_of_fmap. apply (Hn x Hx). by injection Heq as -> -> ->.
  - intros Hn x Hx (H1 & H2 & H3). apply Hn, list_elem_of_fmap. exists x. split; [|done]. unfold identity_key, user_key. congruence.
Qed.

Lemma find_identity_elem user s x :
  signin_ok s → x ∈ si_identities s → identity_key x = user_key user → find_identity user s = Some x.
Proof.
  intros Hok Hx Hk. destruct (find_identity user s) as [y|] eqn:Hf.
  - apply find_identity_Some in Hf as [Hy Hk']. f_equal. apply (NoDup_key_unique identity_key (si_identities s)); [|done..|congruence].
    apply Hok.
  - apply find_identity_None in Hf. destruct Hf. rewrite <-Hk. by apply list_elem_of_fmap_2.
Qed.

Lemma ok_insert_user id user s s' : signin_ok s → insert_user id user s = Ok s' → signin_ok s'.
Proof.
  intros Hok. unfold insert_user. destruct (bool_decide _) eqn:Hf; [done|]. intros [= <-]. bools.
  apply ok_with_db; [done| |apply Hok|done]. cbn. intros id' Hs. rewrite lookup_insert. by case_decide.
Qed.

Lemma ok_bind_identity id owner user s s' :
  signin_ok s → owner ≠ uuid_Nil → is_Some (di_users (si_directory s) !! owner) → bind_identity id owner user s = Ok s' → signin_ok s'.
Proof.
  intros [? ? ? ? ? ? ? Hid Hu Hse Hb] Hn Ho. unfold bind_identity. destruct (bool_decide _) eqn:Hf; [done|]. intros [= <-].
  apply bool_decide_eq_false, dec_stable, find_identity_None in Hf. apply ok_audit. split; try done; cbn.
  - by apply NoDup_snoc.
  - intros x [Hx| ->%list_elem_of_singleton]%elem_of_app; [by apply Hu|done].
  - intros se Hin. rewrite fmap_app, elem_of_app. left. by apply Hse.
  - intros b t u Hbo Hc. destruct (Hb b t u Hbo Hc) as (Ha & x & Hx & Hk). split; [done|]. exists x.
    split; [apply elem_of_app; by left|done].
Qed.

Lemma ok_bootstrap_instance id owner b s s' :
  signin_ok s → (∃ x, x ∈ si_identities s ∧ identity_key x = bootstrap_key b ∧ ex_user_id x = owner) →
  bootstrap_instance id owner b s = Ok s' → signin_ok s'.
Proof.
  intros [? ? ? ? ? ? ? ? ? ? ?] Hx. unfold bootstrap_instance. destruct (has_admin s); [done|]. intros [= <-].
  apply ok_audit. split; try done; cbn. intros b' t u [= <-] [= <- <-]. split; [|done].
  apply existsb_exists. eexists. split; [apply in_or_app; right; by left|]. by apply instance_admin_true.
Qed.

Lemma ok_open_session id value owner s s' credentials :
  signin_ok s → owner ∈ ex_user_id <$> si_identities s → open_session sha256 id value owner s = Ok (s', credentials) → signin_ok s'.
Proof.
  intros Hok Ho. unfold open_session, issueSession. destruct (_ !! owner) as [u|]; [|done]. destruct (negb _); [done|]. cbv zeta.
  destruct (bool_decide _); [done|]. cbn [lift rbind]. intros [= <- _].
  match goal with |- signin_ok (with_created ?x (with_db ?d _)) => assert (signin_ok (with_db d s)) as [] end; [|by split].
  apply ok_with_db; [done|by auto| |by auto]. cbn.
  intros se [Hse| ->%list_elem_of_singleton]%elem_of_app; [by apply Hok|done].
Qed.

Lemma ok_revoke_current token s : signin_ok s → signin_ok (revoke_current sha256 token s).
Proof.
  intros Hok. unfold revoke_current. destruct (TokenDigest _ _); [|done].
  destruct (RevokeSession sha256 token (si_db s)) as [d r] eqn:Hr. apply RevokeSession_accounts in Hr as (? & ? & ? & ? & ?).
  by apply ok_same_directory.
Qed.

Lemma ok_activate config owner s : signin_ok s → signin_ok (activateLoginConfig config owner s).
Proof.
  intros [Hc Ho Ha Hf ? ? ? ? ? ? ?]. unfold activateLoginConfig. apply ok_audit.
  set (f := λ c, if lc_id c =? lc_id config then set_config_status "active" c else c).
  set (g := λ c, if lc_status c =? "active" then set_config_status "retired" c else c).
  assert (Hel : ∀ c, c ∈ f <$> (g <$> si_configs s) → ∃ c0, c0 ∈ si_configs s ∧ c = f (g c0)).
  { intros c (c1 & -> & (c0 & -> & Hc0)%list_elem_of_fmap)%list_elem_of_fmap. by exists c0. }
  assert (Hid : ∀ c, lc_id (f (g c)) = lc_id c).
  { intros c. unfold f, g. by repeat case_bool_decide. }
  assert (Hact : ∀ c, lc_status (f (g c)) = "active" → lc_id c = lc_id config).
  { intros c. unfold f, g. by repeat (case_bool_decide; cbn in * ). }
  split; try done; cbn.
  - unfold update_all. fold f g. rewrite <-!list_fmap_compose. erewrite list_fmap_ext; [exact Hc|]. intros i c _. apply Hid.
  - intros c (c0 & Hc0 & ->)%Hel. pose proof (Ho c0 Hc0). unfold f, g. by repeat case_bool_decide.
  - intros c c' (c0 & Hc0 & ->)%Hel (c0' & Hc0' & ->)%Hel H1%Hact H2%Hact. do 2 f_equal.
    apply (NoDup_key_unique lc_id (si_configs s)); [done..|congruence].
Qed.

(** The user to whom a linking flow adds the external account. *)
Definition linked_owner (flow : flowRow) (currentToken : string) (owner linked : uuid) (s : signin) : Prop :=
  match fl_link_session flow with
  | None => linked = owner
  | Some link => ∃ session, authenticateSession sha256 currentToken (si_db s) = Ok session ∧ ss_ID session = link ∧
      linked = ss_UserID session
  end.

(** The states between the stages of a completion that succeeds. *)
Record completed (draws : completionDraws) (flow : flowRow) (user : ExternalUser) (currentToken setupToken : string)
    (s s1 s2 s3 s4 s5 s' : signin) (activation : option configRow) (before linked known owner : uuid) (b : bootstrapRow)
    (credentials : Credentials) : Prop := {
  cm_prepare : prepareManagedCompletion sha256 flow user currentToken setupToken s = Ok (s1, activation, before);
  cm_link : linked_owner flow currentToken before linked s1;
  cm_known : completion_owner linked (find_identity user s1) = Ok known;
  cm_bootstrap : si_bootstrap s1 = Some b;
  cm_first : bo_consumed b = None → user_key user = bootstrap_key b;
  cm_user : (known = uuid_Nil ∧ owner = dr_user draws ∧ insert_user (dr_user draws) user s1 = Ok s2) ∨
    (known ≠ uuid_Nil ∧ owner = known ∧ s2 = s1);
  cm_active : is_Some (di_users (si_directory s2) !! owner);
  cm_bind : match find_identity user s1 with
    | None => bind_identity (dr_identity draws) owner user s2 = Ok s3
    | Some _ => s3 = s2
    end;
  cm_grant : match bo_consumed b with
    | None => bootstrap_instance (dr_membership draws) owner b s3 = Ok s4
    | Some _ => s4 = s3
    end;
  cm_session : open_session sha256 (dr_session draws) (dr_token draws) owner (with_db (elapse (dr_waited draws) (si_db s4)) s4)
    = Ok (s5, credentials);
  cm_end : s' = revoke_current sha256 currentToken
    (match activation with Some config => activateLoginConfig config owner s5 | None => s5 end);
}.

Lemma finish_flow_spec draws flow user currentToken setupToken s s' credentials :
  finish_flow sha256 draws flow user currentToken setupToken s = Ok (s', credentials) →
  ∃ s1 s2 s3 s4 s5 activation before linked known owner b,
    completed draws flow user currentToken setupToken s s1 s2 s3 s4 s5 s' activation before linked known owner b credentials.
Proof.
  unfold finish_flow. destruct (prepareManagedCompletion _ _ _ _ _ _) as [[[s1 activation] before]|] eqn:Hprep; [|done].
  cbn [rbind]. destruct (match fl_link_session flow with Some _ => _ | None => _ end) as [linked|] eqn:Hlink; [|done].
  cbn [rbind]. destruct (completion_owner _ _) as [known|] eqn:Hknown; [|done]. cbn [rbind].
  destruct (si_bootstrap s1) as [b|] eqn:Hb; [|done]. cbv zeta. destruct (_ && (_ || _)) eqn:Hfirst; [done|].
  destruct (if known =? uuid_Nil then _ else _) as [[s2 owner]|] eqn:Huser; [|done]. cbn [rbind].
  destruct (active_user _ _) as [[]|] eqn:Hact; [|done]. cbn [rbind].
  destruct (match find_identity user s1 with Some _ => _ | None => _ end) as [s3|] eqn:Hbind; [|done]. cbn [rbind].
  destruct (if bool_decide _ then Ok s3 else _) as [s4|] eqn:Hgrant; [|done]. cbn [rbind].
  destruct (flowLive _ _) as [[]|]; [|done]. cbn [rbind]. destruct (open_session _ _ _ _ _) as [[s5 cred]|] eqn:Hopen; [|done].
  cbn [rbind]. intros [= <- <-]. exists s1, s2, s3, s4, s5, activation, before, linked, known, owner, b. split; try done.
  - unfold linked_owner. destruct (fl_link_session flow) as [link|]; [|by injection Hlink].
    destruct (authenticateSession _ _ _) as [session|] eqn:Hau; [|done]. cbn [lift rbind] in Hlink.
    destruct (_ <>? link) eqn:Hid; [done|]. destruct (recentSession _ _) as [[]|]; [|done]. injection Hlink as <-. bools. by exists session.
  - intros Hc. rewrite Hc in Hfirst. cbn in Hfirst. bools. unfold user_key, bootstrap_key. congruence.
  - destruct (known =? uuid_Nil) eqn:Hk; bools.
    + destruct (insert_user _ _ _) as [s2'|] eqn:Hins; [|done]. injection Huser as <- <-. by left.
    + injection Huser as <- <-. by right.
  - unfold active_user in Hact. by destruct (_ !! owner).
  - destruct (find_identity user s1); [by injection Hbind|done].
  - destruct (bo_consumed b); [by injection Hgrant|done].
Qed.

(** *** Consuming and finishing a flow *)

Lemma ConsumeOAuth_spec value state nonce s s' r :
  ConsumeOAuth sha256 value state nonce s = (s', r) →
  (s' = s ∧ ∃ e, r = Err e) ∨
  ∃ h b t f, r = Ok (NewToken value) ∧ TokenDigest sha256 state = Some h ∧ TokenDigest sha256 nonce = Some b ∧
    t = default "" (TokenDigest sha256 (NewToken value)) ∧ (∀ g, g ∈ si_flows s → fl_completion_hash g ≠ Some t) ∧ f ∈ si_flows s ∧ fl_state_hash f = h ∧ fl_browser_hash f = b ∧
    fl_completion_hash f = None ∧ si_now s < fl_expires_at f ∧
    s' = with_flows (update_all (λ f, (fl_state_hash f =? h) && (fl_browser_hash f =? b) && bool_decide (fl_completion_hash f = None)
           && (si_now s <? fl_expires_at f)) (set_completion t) (si_flows s)) s.
Proof.
  unfold ConsumeOAuth, digest. destruct (TokenDigest _ state) as [h|] eqn:Hh; [|intros [= <- <-]; eauto].
  destruct (TokenDigest _ nonce) as [b|] eqn:Hb; [|intros [= <- <-]; eauto]. unfold committed. cbv zeta.
  destruct (existsb _ _) eqn:Hex; cbn [negb]; [|intros [= <- <-]; eauto].
  destruct (bool_decide (Some _ ∈ _)) eqn:Hin; [intros [= <- <-]; eauto|]. intros [= <- <-]. right.
  apply existsb_exists in Hex as (f & Hf & Hw). apply list_elem_of_In in Hf. bools.
  exists h, b. do 2 eexists. repeat split; try done; [|by apply Z.ltb_lt].
  intros g Hg Heq. match goal with H : _ ∉ _ |- _ => apply H end. rewrite <-Heq. by apply list_elem_of_fmap_2.
Qed.

Lemma finishOAuth_spec draws ticket user currentToken setupToken s s' r :
  finishOAuth sha256 draws ticket user currentToken setupToken s = (s', r) →
  (s' = s ∧ ∃ e, r = Err e) ∨
  ∃ h flow credentials, r = Ok credentials ∧ TokenDigest sha256 ticket = Some h ∧ flow ∈ si_flows s ∧
    fl_completion_hash flow = Some h ∧ si_now s < fl_expires_at flow ∧ ValidUser user = true ∧
    finish_flow sha256 draws flow user currentToken setupToken
      (with_flows (List.filter (λ f, negb (bool_decide (fl_completion_hash f = Some h) && (si_now s <? fl_expires_at f))) (si_flows s)) s)
      = Ok (s', credentials).
Proof.
  unfold finishOAuth. destruct (ValidUser user) eqn:Hv; cbn [negb]; [|intros [= <- <-]; eauto].
  destruct (TokenDigest _ _) as [h|] eqn:Hh; [|intros [= <- <-]; eauto]. unfold committed. cbv zeta.
  destruct (List.filter _ _) as [|flow flows] eqn:Hf; [intros [= <- <-]; eauto|].
  destruct (finish_flow _ _ _ _ _ _ _) as [[s1 credentials]|] eqn:Hfin; [|intros [= <- <-]; eauto]. intros [= <- <-]. right.
  assert (flow ∈ List.filter (λ f, bool_decide (fl_completion_hash f = Some h) && (si_now s <? fl_expires_at f)) (si_flows s))
    as [Hin Ht]%elem_of_bfilter by (rewrite Hf; left).
  bools. exists h, flow, credentials. repeat split; try done. by apply Z.ltb_lt.
Qed.

(** *** Every operation keeps states well formed *)

Lemma session_has_identity token s session :
  signin_ok s → authenticateSession sha256 token (si_db s) = Ok session → ∃ x, x ∈ si_identities s ∧ ex_user_id x = ss_UserID session.
Proof.
  intros Hok. unfold authenticateSession. destruct (TokenDigest _ _) as [h|]; [|done].
  destruct (list_find _ _) as [[i row]|] eqn:Hf; [|done]. destruct (_ !! _) as [user|]; [|done]. destruct (negb _); [done|]. cbv zeta.
  destruct (sessionLive _ _) as [[]|]; [|done]. intros [= <-]. cbn.
  apply list_find_Some in Hf as (Hi & _). apply list_elem_of_lookup_2, (so_sessions s Hok), list_elem_of_fmap in Hi as (x & -> & Hx).
  by exists x.
Qed.

Lemma prepare_keeps flow user currentToken setupToken s s1 activation before :
  prepareManagedCompletion sha256 flow user currentToken setupToken s = Ok (s1, activation, before) →
  ∃ x, s1 = with_bootstrap x s ∧ (x = si_bootstrap s ∨ si_bootstrap s = None ∧ ∃ b, x = Some b ∧ bo_consumed b = None).
Proof.
  intros H%prepareManagedCompletion_spec. assert (with_bootstrap (si_bootstrap s) s = s) as Heq by by destruct s.
  destruct activation as [config|]; [|destruct H as [-> _]; exists (si_bootstrap s); auto].
  destruct H as [_ [-> |(-> & Hb & _)]]; [exists (si_bootstrap s); auto|]. eexists. split; [done|]. right. split; [done|]. by eexists.
Qed.

Lemma ok_prepare flow user currentToken setupToken s s1 activation before :
  signin_ok s → prepareManagedCompletion sha256 flow user currentToken setupToken s = Ok (s1, activation, before) → signin_ok s1.
Proof.
  intros Hok (x & -> & [-> |(_ & b & -> & Hb)])%prepare_keeps; [by destruct s|by apply ok_insert_bootstrap].
Qed.

(** A completion ends with a session of the owner of the external account. *)
Lemma completed_owner draws flow user currentToken setupToken s s1 s2 s3 s4 s5 s' activation before linked known owner b credentials :
  signin_ok s → dr_user draws ≠ uuid_Nil →
  completed draws flow user currentToken setupToken s s1 s2 s3 s4 s5 s' activation before linked known owner b credentials →
  signin_ok s1 ∧ signin_ok s2 ∧ signin_ok s3 ∧ owner ≠ uuid_Nil ∧
  ∃ x, x ∈ si_identities s3 ∧ identity_key x = user_key user ∧ ex_user_id x = owner.
Proof.
  intros Hok Hdr [Hprep _ Hknown _ _ Huser Hact Hbind _ _ _]. assert (Hok1 : signin_ok s1) by by eapply ok_prepare.
  assert (signin_ok s2 ∧ owner ≠ uuid_Nil ∧ si_identities s2 = si_identities s1) as (Hok2 & Hn & Hids).
  { destruct Huser as [(_ & -> & Hins)|(Hk & -> & ->)]; [|done]. split; [by eapply ok_insert_user|]. split; [done|].
    unfold insert_user in Hins. destruct (bool_decide _); [done|]. by injection Hins as <-. }
  split; [done|]. split; [done|]. destruct (find_identity user s1) as [x|] eqn:Hx.
  - subst s3. split; [done|]. split; [done|]. exists x. rewrite Hids. apply find_identity_Some in Hx as [Hx Hk].
    split; [done|]. split; [done|]. unfold completion_owner in Hknown. destruct (_ && _); [done|]. injection Hknown as <-.
    destruct (so_users s1 Hok1 x Hx) as [Hnx _]. by destruct Huser as [(? & _)|(_ & -> & _)].
  - split; [by eapply ok_bind_identity|]. split; [done|]. unfold bind_identity in Hbind. destruct (bool_decide _); [done|].
    injection Hbind as <-. cbn. eexists. split; [apply elem_of_app; right; by apply list_elem_of_singleton|done].
Qed.

Lemma ok_finish_flow draws flow user currentToken setupToken s s' credentials :
  signin_ok s → dr_user draws ≠ uuid_Nil →
  finish_flow sha256 draws flow user currentToken setupToken s = Ok (s', credentials) → signin_ok s'.
Proof.
  intros Hok Hdr (s1 & s2 & s3 & s4 & s5 & activation & before & linked & known & owner & b & Hc)%finish_flow_spec.
  destruct (completed_owner _ _ _ _ _ _ _ _ _ _ _ _ _ _ _ _ _ _ _ Hok Hdr Hc) as (_ & _ & Hok3 & _ & x & Hx & Hk & Ho).
  destruct Hc as [_ _ _ _ Hfirst _ _ _ Hgrant Hsession ->].
  assert (signin_ok s4 ∧ si_identities s4 = si_identities s3) as [Hok4 Hids].
  { destruct (bo_consumed b); [by subst|]. split; [|by unfold bootstrap_instance in Hgrant; destruct (has_admin s3); simplify_eq].
    eapply ok_bootstrap_instance; [exact Hok3| |exact Hgrant]. exists x. by rewrite Hk, Hfirst. }
  apply ok_revoke_current. assert (signin_ok s5) as Hok5.
  { eapply ok_open_session; [| |exact Hsession]; [by apply ok_same_directory|]. cbn. rewrite Hids, <-Ho. by apply list_elem_of_fmap_2. }
  destruct activation; [by apply ok_activate|done].
Qed.

Lemma execute_change op s : change sha256 s op (execute sha256 op s).1.
Proof.
  pose proof (ch_settings sha256 s op s (sc_none s)) as Hr.
  destruct op as [key|subject|code|code token|access config|state nonce link|state nonce link candidate access|value state nonce
    |draws ticket user current setup|token|waited id token subject scope role add]; cbn [execute outcome fst].
  - unfold BindManagedMasterKey. destruct (_ <>? 32); [done|]. apply committed_keeps; [done|]. intros s' []. cbv zeta.
    destruct (match su_master_key_digest _ with Some _ => _ | None => false end); [done|]. intros [= <-]. by apply ch_settings, sc_setup.
  - unfold ConfigureGitHubBootstrap. destruct (negb _); [done|]. apply committed_keeps; [done|]. intros s' [].
    destruct (si_bootstrap s) eqn:Hb; [by destruct (_ <>? _); [done|]; intros [= <-]|].
    destruct (has_admin s) eqn:Ha; [done|]. intros [= <-]. by apply ch_bootstrap.
  - unfold IssueSetupCode. destruct (digest _ _ _) as [h|]; [|done]. apply committed_keeps; [done|]. intros s' []. cbv zeta.
    destruct (_ || has_admin s) eqn:Hc; [done|]. intros [= <-]. bools. by apply ch_settings, sc_audit, sc_retire, sc_setup.
  - unfold ExchangeSetupCode. destruct (digest _ _ code) as [h|]; [|done]. destruct (digest _ _ token) as [t|]; [|done].
    apply committed_keeps; [done|]. intros s' []. cbv zeta. destruct (su_code _) as [[hash expires]|]; [|done].
    destruct (_ || _) eqn:Hc; [done|]. intros [= <-]. bools. by apply ch_settings, sc_audit, sc_setup.
  - unfold SaveLoginCandidate. cbv zeta. destruct (_ || _); [done|]. apply committed_keeps; [done|]. intros s' [].
    destruct (settingsAccess _ _ _ _) as [actor|]; [|done]. cbn [rbind]. destruct (_ <>? _); [done|].
    destruct (if _ =? uuid_Nil then _ else _) as [[]|]; [|done]. cbn [rbind]. destruct (100 <=? _); [done|].
    destruct (config_insertable _ _) eqn:Hins; [|done]. cbn [negb]. intros [= <-]. by apply ch_settings, sc_audit, sc_config; [apply sc_retire, sc_none|..].
  - unfold BeginOAuth, digest. destruct (TokenDigest _ state) as [h|] eqn:Hh; [|done]. destruct (TokenDigest _ nonce) as [b|]; [|done].
    apply committed_keeps; [done|]. intros s' []. destruct (link_session _ _ _) as [l|]; [|done]. cbn [rbind].
    destruct (begin_flow _ _) as [s1|] eqn:Hb; [|done]. cbn [rbind]. intros [= <-]. by eapply ch_begin; [exact Hb|..].
  - unfold BeginManagedOAuth, digest. destruct (TokenDigest _ state) as [h|] eqn:Hh; [|done]. destruct (TokenDigest _ nonce) as [b|]; [|done].
    apply committed_keeps; [done|]. intros s' a. destruct (if candidate <>? uuid_Nil then _ else _) as [[[[config l] verify] setup]|]; [|done].
    cbn [rbind]. destruct (begin_flow _ _) as [s1|] eqn:Hb; [|done]. cbn [rbind]. intros [= <- _]. by eapply ch_begin; [exact Hb|..].
  - destruct (ConsumeOAuth _ _ _ _ _) as [s' [ticket|]] eqn:Hc; [by eapply ch_consume|].
    by apply ConsumeOAuth_spec in Hc as [[-> _]|(h & b & t & f & [=] & _)].
  - destruct (finishOAuth _ _ _ _ _ _ _) as [s' [credentials|]] eqn:Hf; [by eapply ch_finish|].
    by apply finishOAuth_spec in Hf as [[-> _]|(h & flow & credentials & [=] & _)].
  - unfold on_accounts. destruct (RevokeSession _ _ _) as [d r] eqn:Hd. by eapply ch_revoke.
  - unfold on_accounts. destruct (ChangeMembership _ _ _ _ _ _ _ _ _) as [d r] eqn:Hd. by eapply ch_membership.
Qed.

Lemma ok_settings s s' : signin_ok s → settings_change s s' → signin_ok s'.
Proof.
  intros Hok. induction 1 as [|su Hfin Hsame| | |]; auto using ok_audit, ok_retire.
  - apply ok_with_setup; [done| |by rewrite Hfin]. intros Hf. destruct (Hsame Hf) as [-> ->]. apply Hok. by rewrite <-Hfin.
  - apply ok_add_config; auto. congruence.
Qed.

Lemma ok_change op s s' : signin_ok s → possible_op op → change sha256 s op s' → signin_ok s'.
Proof.
  intros Hok Hp Hch.
  destruct Hch as [op s' Hs|subject Hn _|op flow s' Hb Hc _|value state nonce s' ticket Hc|draws ticket user current setup s' credentials Hf
    |token d r Hr|waited id token subject scope role add d r Hr].
  - by eapply ok_settings.
  - by apply ok_insert_bootstrap.
  - by eapply ok_begin_flow.
  - apply ConsumeOAuth_spec in Hc as [[_ [e He]]|(h & b & t & f & _ & _ & _ & _ & Hnew & _ & _ & _ & _ & _ & ->)]; [done|].
    apply (ok_consume h); [done| |done]. intros g Hg. by bools.
  - apply finishOAuth_spec in Hf as [[_ [e He]]|(h & flow & c & _ & _ & _ & _ & _ & _ & Hfin)]; [done|].
    eapply ok_finish_flow; [|apply Hp|exact Hfin]. by apply ok_filter_flows.
  - apply RevokeSession_accounts in Hr as (? & ? & ? & ? & ?). by apply ok_same_directory.
  - assert (Hcase := Hr). apply ok_with_db; [done| | |].
    + apply ChangeMembership_spec in Hr as [-> |(session & _ & _ & _ & Hu & _)]; [by auto|]. by rewrite Hu.
    + apply ChangeMembership_spec in Hr as [-> |(session & _ & _ & _ & _ & Hu & _)]; [apply Hok|]. rewrite Hu. apply Hok.
    + rewrite !has_admin_true. intros (m & Hm & Ha). by eapply ChangeMembership_admin in Hr.
Qed.

Lemma ok_execute op s : signin_ok s → possible_op op → signin_ok (execute sha256 op s).1.
Proof. intros Hok Hp. eapply ok_change; [exact Hok|exact Hp|]. apply execute_change. Qed.

Lemma ok_start s : signin_start s → signin_ok s.
Proof.
  intros (Hb & Hf & Hc & Hi & Hs & Hsu).
  split; rewrite ?Hb, ?Hf, ?Hc, ?Hi, ?Hs, ?Hsu; try (by intros ? ?%not_elem_of_nil); try apply NoDup_nil_2; try done.
  all: by intros ? ? ? ?%not_elem_of_nil.
Qed.

Lemma ok_step s s' : signin_ok s → signin_step sha256 possible_op s s' → signin_ok s'.
Proof.
  intros Hok Hstep. destruct Hstep as [op s0 Hp|s0 d (Hi & Hu & Hs & Hm & _)]; [by apply ok_execute|]. apply ok_same_directory; [done..|by rewrite Hs].
Qed.

Lemma ok_history s s' : signin_ok s → signin_history sha256 s s' → signin_ok s'.
Proof. intros Hok. induction 1 as [|s1 s2 s3 Hstep _ IH]; [done|]. by apply IH; eapply ok_step. Qed.

Lemma ok_reachable s : signin_reachable sha256 s → signin_ok s.
Proof. intros (s0 & Hs & Hh). by eapply ok_history; [apply ok_start|]. Qed.
End Transactions.
