(* ===== verification/SignInEffects.v ===== *)
(** What the operations of SignInService.v change, and what they leave alone. *)

From S2P Require Import Prelude GoStd RunModel Authorization Codecs Database Identity Secrets SignIn SignInService SignInFacts.

Section Effects.
Variable sha256 : string → string.

(** ** Operations that appoint nobody *)

Record quiet (s s' : signin) : Prop := {
  qu_bootstrap : si_bootstrap s' = si_bootstrap s;
  qu_identities : si_identities s' = si_identities s;
  qu_memberships : di_memberships (si_directory s') = di_memberships (si_directory s);
  qu_active : ∀ c, c ∈ si_configs s' → lc_status c = "active" → c ∈ si_configs s;
}.

Lemma settings_quiet s s' : settings_change s s' → quiet s s'.
Proof.
  induction 1 as [|su|s' actor action resource id _ [? ? ? Hact]|s' p _ [? ? ? Hact]|s' c _ [? ? ? Hact] _ Hst]; try done.
  - split; [done..|]. intros c (c0 & Hc0 & ->)%elem_of_update_all. destruct (_ && p c0); [done|by apply Hact].
  - split; [done..|]. cbn. intros c' [Hc| ->%list_elem_of_singleton]%elem_of_app Ha; [by apply Hact|congruence].
Qed.

(** ** Completions *)

(** The tables after a completion that succeeds. *)
Record finished (user : ExternalUser) (draws : completionDraws) (s s' : signin) (activation : option configRow) (owner : uuid)
    (b : bootstrapRow) : Prop := {
  fd_memberships : di_memberships (si_directory s') = di_memberships (si_directory s) ++
    match bo_consumed b with
    | None => [mkMembershipRow (dr_membership draws) owner Admin (mkScope Instance_ (di_instance (si_directory s)))]
    | Some _ => []
    end;
  fd_admin : bo_consumed b = None → has_admin s = false ∧ user_key user = bootstrap_key b;
  fd_bootstrap : match bo_consumed b with
    | Some _ => si_bootstrap s' = si_bootstrap s
    | None => ∃ t, si_bootstrap s' = Some (mkBootstrapRow (bo_provider b) (bo_instance b) (bo_subject b) (Some (t, owner)))
    end;
  fd_configs : si_configs s' =
    match activation with
    | None => si_configs s
    | Some config => update_all (λ c, lc_id c =? lc_id config) (set_config_status "active")
        (update_all (λ c, lc_status c =? "active") (set_config_status "retired") (si_configs s))
    end;
  fd_flows : si_flows s' = si_flows s;
  fd_identities : ∀ x, x ∈ si_identities s → x ∈ si_identities s';
  fd_keys : ∀ x, x ∈ si_identities s' → x ∈ si_identities s ∨ identity_key x = user_key user ∧ ex_user_id x = owner;
}.

(** The stages change little, so what a stage leaves alone is read off its definition. *)
Lemma insert_user_frame id user s s' : insert_user id user s = Ok s' →
  ∃ users, s' = with_db (with_users users (si_db s)) s.
Proof. unfold insert_user. destruct (bool_decide _); [done|]. intros [= <-]. by eexists. Qed.

Lemma bind_identity_frame id owner user s s' : bind_identity id owner user s = Ok s' →
  ∃ row, s' = audit (Some owner) "identity.linked" "identity" id (with_identities (si_identities s ++ [row]) s) ∧
    identity_key row = user_key user ∧ ex_user_id row = owner.
Proof. unfold bind_identity. destruct (bool_decide _); [done|]. intros [= <-]. by eexists. Qed.

Lemma bootstrap_instance_frame id owner b s s' : bootstrap_instance id owner b s = Ok s' →
  has_admin s = false ∧
  di_memberships (si_directory s') = di_memberships (si_directory s) ++ [mkMembershipRow id owner Admin (mkScope Instance_ (di_instance (si_directory s)))] ∧
  si_bootstrap s' = Some (mkBootstrapRow (bo_provider b) (bo_instance b) (bo_subject b) (Some (si_now s, owner))) ∧
  si_configs s' = si_configs s ∧ si_flows s' = si_flows s ∧ si_identities s' = si_identities s.
Proof. unfold bootstrap_instance. destruct (has_admin s); [done|]. by intros [= <-]. Qed.

Lemma open_session_frame id value owner s s' credentials : open_session sha256 id value owner s = Ok (s', credentials) →
  di_memberships (si_directory s') = di_memberships (si_directory s) ∧ si_bootstrap s' = si_bootstrap s ∧
  si_configs s' = si_configs s ∧ si_flows s' = si_flows s ∧ si_identities s' = si_identities s.
Proof.
  unfold open_session, issueSession. destruct (_ !! owner) as [u|]; [|done]. destruct (negb _); [done|]. cbv zeta.
  destruct (bool_decide _); [done|]. cbn [lift rbind]. by intros [= <- _].
Qed.

Lemma revoke_current_frame token s :
  let s' := revoke_current sha256 token s in
  di_memberships (si_directory s') = di_memberships (si_directory s) ∧ si_bootstrap s' = si_bootstrap s ∧
  si_configs s' = si_configs s ∧ si_flows s' = si_flows s ∧ si_identities s' = si_identities s.
Proof.
  unfold revoke_current. destruct (TokenDigest _ _); [|done].
  destruct (RevokeSession sha256 token (si_db s)) as [d r] eqn:Hr. by apply RevokeSession_accounts in Hr as (_ & ? & _).
Qed.

Lemma completed_finished draws flow user currentToken setupToken s s1 s2 s3 s4 s5 s' activation before linked known owner b credentials :
  completed sha256 draws flow user currentToken setupToken s s1 s2 s3 s4 s5 s' activation before linked known owner b credentials →
  finished user draws s s' activation owner b.
Proof.
  intros [Hprep _ _ Hb Hfirst Huser _ Hbind Hgrant Hsession ->].
  apply prepare_keeps in Hprep as (x & -> & Hx).
  assert (∃ d, s2 = with_db d (with_bootstrap x s) ∧ di_memberships (db_directory d) = di_memberships (si_directory s)
    ∧ di_instance (db_directory d) = di_instance (si_directory s)) as (d2 & -> & Hm2 & Hi2).
  { destruct Huser as [(_ & _ & (users & ->)%insert_user_frame)|(_ & _ & ->)]; [by eexists|]. exists (si_db s). by destruct s. }
  assert (si_bootstrap s3 = x ∧ si_configs s3 = si_configs s ∧ si_flows s3 = si_flows s ∧
    di_memberships (si_directory s3) = di_memberships (si_directory s) ∧ di_instance (si_directory s3) = di_instance (si_directory s) ∧
    (∀ y, y ∈ si_identities s → y ∈ si_identities s3) ∧
    (∀ y, y ∈ si_identities s3 → y ∈ si_identities s ∨ identity_key y = user_key user ∧ ex_user_id y = owner))
    as (Hb3 & Hc3 & Hf3 & Hm3 & Hi3 & Hids & Hkeys).
  { destruct (find_identity user _); [subst s3; cbn; auto 10|].
    apply bind_identity_frame in Hbind as (row & -> & Hk & Ho). cbn. repeat split; try done.
    - intros y Hy. apply elem_of_app. by left.
    - intros y [Hy| ->%list_elem_of_singleton]%elem_of_app; auto. }
  apply open_session_frame in Hsession as (Hm5 & Hb5 & Hc5 & Hf5 & Hi5). cbn in Hm5, Hb5, Hc5, Hf5, Hi5.
  set (s6 := match activation with Some config => activateLoginConfig config owner s5 | None => s5 end).
  destruct (revoke_current_frame currentToken s6) as (Hm & Hb' & Hc & Hf & Hi). cbv zeta in *.
  assert (di_memberships (si_directory s6) = di_memberships (si_directory s5) ∧ si_bootstrap s6 = si_bootstrap s5 ∧
    si_flows s6 = si_flows s5 ∧ si_identities s6 = si_identities s5) as (Hm6 & Hb6 & Hf6 & Hi6) by by destruct activation.
  assert (has_admin s3 = has_admin s) as Hadm by (unfold has_admin; by rewrite Hm3).
  assert (bo_consumed b = None → has_admin s3 = false ∧ di_memberships (si_directory s4) = di_memberships (si_directory s) ++
      [mkMembershipRow (dr_membership draws) owner Admin (mkScope Instance_ (di_instance (si_directory s)))] ∧
      si_configs s4 = si_configs s ∧ si_flows s4 = si_flows s ∧ si_identities s4 = si_identities s3 ∧
      ∃ t, si_bootstrap s4 = Some (mkBootstrapRow (bo_provider b) (bo_instance b) (bo_subject b) (Some (t, owner)))) as Hnew.
  { intros Hn. rewrite Hn in Hgrant. apply bootstrap_instance_frame in Hgrant as (Ha & Hm4 & Hb4 & Hc4 & Hf4 & Hi4).
    rewrite Hm4, Hc4, Hf4, Hm3, Hi3. eauto 10. }
  cbn in Hb. subst x.
  destruct (bo_consumed b) as [consumed|] eqn:Hcons.
  - subst s4. split; rewrite ?Hcons; try congruence.
    + rewrite Hm, Hm6, app_nil_r. etransitivity; [exact Hm5|exact Hm3].
    + destruct Hx as [Hx|(_ & b' & [= <-] & Hn)]; congruence.
    + rewrite Hc. subst s6. destruct activation; cbn; rewrite Hc5, Hc3; done.
    + intros y Hy. rewrite Hi, Hi6, Hi5. by apply Hids.
    + intros y Hy. apply Hkeys. congruence.
  - destruct (Hnew eq_refl) as (Ha & Hm4 & Hc4 & Hf4 & Hi4 & t & Hb4). split; rewrite ?Hcons.
    + rewrite Hm, Hm6. etransitivity; [exact Hm5|exact Hm4].
    + intros _. split; [congruence|by apply Hfirst].
    + exists t. congruence.
    + rewrite Hc. subst s6. destruct activation; cbn; rewrite Hc5, Hc4; done.
    + congruence.
    + intros y Hy. rewrite Hi, Hi6, Hi5, Hi4. by apply Hids.
    + intros y Hy. apply Hkeys. congruence.
Qed.
Lemma finishOAuth_completed draws ticket user currentToken setupToken s s' credentials :
  finishOAuth sha256 draws ticket user currentToken setupToken s = (s', Ok credentials) →
  ∃ h flow s1 s2 s3 s4 s5 activation before linked known owner b,
    let s0 := with_flows (List.filter (λ f, negb (bool_decide (fl_completion_hash f = Some h) && (si_now s <? fl_expires_at f))) (si_flows s)) s in
    TokenDigest sha256 ticket = Some h ∧
    completed sha256 draws flow user currentToken setupToken s0 s1 s2 s3 s4 s5 s' activation before linked known owner b credentials.
Proof.
  intros [[_ [e He]]|(h & flow & c & [= <-] & Hh & _ & _ & _ & _ & Hfin)]%finishOAuth_spec; [done|].
  apply finish_flow_spec in Hfin as (s1 & s2 & s3 & s4 & s5 & activation & before & linked & known & owner & b & Hc).
  exists h, flow. by do 11 eexists.
Qed.

End Effects.

(** ** Histories *)

Section Histories.
Variable sha256 : string → string.

(** A property that every operation preserves in well-formed states holds along histories. *)
Lemma history_keeps (P : signin → Prop) s s' :
  (∀ t op, signin_ok t → possible_op op → P t → P (execute sha256 op t).1) →
  (∀ t d, same_accounts (si_db t) d → P t → P (with_db d t)) →
  signin_ok s → P s → signin_history sha256 s s' → P s'.
Proof.
  intros Hop Helse Hok HP Hh. induction Hh as [|s1 s2 s3 Hstep _ IH]; [done|]. apply IH; [by eapply ok_step|].
  destruct Hstep as [op s1 Hp|s1 d Hd]; auto.
Qed.

(** The operation is quiet, or one of the three others, which may fail without effect. *)
Lemma execute_cases op s :
  quiet s (execute sha256 op s).1 ∨
  (∃ subject, op = OpConfigureBootstrap subject ∧ si_bootstrap s = None ∧
    (execute sha256 op s).1 = with_bootstrap (Some (mkBootstrapRow "github" GitHubInstance subject None)) s) ∨
  (∃ draws ticket user currentToken setupToken credentials flow s0 s1 s2 s3 s4 s5 activation before linked known owner b,
    op = OpFinish draws ticket user currentToken setupToken ∧ ValidUser user = true ∧
    finishOAuth sha256 draws ticket user currentToken setupToken s = ((execute sha256 op s).1, Ok credentials) ∧
    flow ∈ si_flows s ∧ (∃ flows, s0 = with_flows flows s) ∧
    completed sha256 draws flow user currentToken setupToken s0 s1 s2 s3 s4 s5 (execute sha256 op s).1 activation before linked known owner b credentials) ∨
  (∃ waited id token subject scope role add d, op = OpChangeMembership waited id token subject scope role add ∧
    (ChangeMembership sha256 waited id token subject scope role add (si_db s)).1 = d ∧ (execute sha256 op s).1 = with_db d s).
Proof.
  destruct (execute_change sha256 op s) as [op s' Hs|subject Hn _|op flow s' Hb _ _|value state nonce s' ticket Hc
    |draws ticket user current setup s' credentials Hf|token d r Hr|waited id token subject scope role add d r Hr].
  - left. by apply settings_quiet.
  - right; left. by exists subject.
  - left. revert Hb. unfold begin_flow. destruct (_ <=? _); [done|]. destruct (bool_decide _); [done|]. by intros [= <-].
  - left. by apply ConsumeOAuth_spec in Hc as [[-> _]|(h & b & t & g & _ & _ & _ & _ & _ & _ & _ & _ & _ & _ & ->)].
  - right; right; left. assert (Hfin := Hf).
    apply finishOAuth_spec in Hfin as [[_ [e He]]|(h & flow & c & [= <-] & _ & Hin & _ & _ & Hv & Hfin)]; [done|].
    apply finish_flow_spec in Hfin as (s1 & s2 & s3 & s4 & s5 & activation & before & linked & known & owner & b & Hc).
    exists draws, ticket, user, current, setup, credentials, flow. do 12 eexists.
    split; [done|]. split; [done|]. split; [exact Hf|]. split; [done|]. split; [|exact Hc]. by eexists.
  - left. apply RevokeSession_accounts in Hr as (? & Hm & ? & ? & ?). by split.
  - right; right; right. exists waited, id, token, subject, scope, role, add, d. by rewrite Hr.
Qed.

Lemma execute_bootstrap op s b :
  si_bootstrap s = Some b → bo_consumed b ≠ None → si_bootstrap (execute sha256 op s).1 = Some b.
Proof.
  intros Hb Hc. destruct (execute_cases op s) as [[Hq _ _ _]|[(subject & _ & Hn & _)|[H|(waited & id & token & subject & scope & role & add & d & _ & _ & ->)]]];
    [congruence|congruence| |done].
  destruct H as (draws & ticket & user & current & setup & credentials & flow & s0 & s1 & s2 & s3 & s4 & s5 & activation & before &
    linked & known & owner & b' & _ & _ & _ & _ & (flows & ->) & Hcm).
  apply completed_finished in Hcm as Hfd. destruct Hfd as [_ _ Hbo _ _ _ _].
  destruct Hcm as [(x & -> & Hx)%prepare_keeps _ _ Hb' _ _ _ _ _ _ _]. cbn in *.
  destruct Hx as [-> |(Hn & _)]; [|congruence]. assert (b' = b) as -> by congruence. destruct (bo_consumed b); congruence.
Qed.

Lemma execute_identities op s x : x ∈ si_identities s → x ∈ si_identities (execute sha256 op s).1.
Proof.
  intros Hx. destruct (execute_cases op s) as [[_ Hq _ _]|[(subject & _ & _ & ->)|[H|(waited & id & token & subject & scope & role & add & d & _ & _ & ->)]]];
    [congruence|done| |done].
  destruct H as (draws & ticket & user & current & setup & credentials & flow & s0 & s1 & s2 & s3 & s4 & s5 & activation & before &
    linked & known & owner & b' & _ & _ & _ & _ & (flows & ->) & Hcm).
  apply completed_finished in Hcm as Hfd. by apply (fd_identities _ _ _ _ _ _ _ Hfd).
Qed.

Lemma execute_admin op s : has_admin s = true → has_admin (execute sha256 op s).1 = true.
Proof.
  rewrite !has_admin_true. intros (m & Hm & Ha).
  destruct (execute_cases op s) as [[_ _ Hq _]|[(subject & _ & _ & ->)|[H|(waited & id & token & subject & scope & role & add & d & _ & Hd & ->)]]];
    [exists m; by rewrite Hq|by exists m| |].
  - destruct H as (draws & ticket & user & current & setup & credentials & flow & s0 & s1 & s2 & s3 & s4 & s5 & activation & before &
      linked & known & owner & b' & _ & _ & _ & _ & (flows & ->) & Hcm).
    apply completed_finished in Hcm as Hfd. exists m. split; [|done]. rewrite (fd_memberships _ _ _ _ _ _ _ Hfd). apply elem_of_app. by left.
  - destruct (ChangeMembership _ _ _ _ _ _ _ _ _) as [d' r] eqn:Hr. cbn in Hd. subst d'.
    by eapply ChangeMembership_admin in Hr.
Qed.
End Histories.

(** ** Flows *)

Section Flows.
Variable sha256 : string → string.

Lemma settings_flows s s' : settings_change s s' → si_flows s' = si_flows s.
Proof. by induction 1. Qed.

(** Where the flows of the next state come from. *)
Lemma change_flows op s s' f :
  change sha256 s op s' → f ∈ si_flows s' →
  f ∈ si_flows s ∨ (∃ t g, g ∈ si_flows s ∧ f = set_completion t g) ∨ begins sha256 op (fl_state_hash f).
Proof.
  intros Hch. destruct Hch as [op s' Hs| |op flow s' Hb _ Hbeg|value state nonce s' ticket Hc|draws ticket user current setup s' credentials Hf| |]; auto.
  - left. by rewrite <-(settings_flows _ _ Hs).
  - revert Hb. unfold begin_flow. destruct (_ <=? _); [done|]. destruct (bool_decide _); [done|]. intros [= <-]. cbn.
    intros [[Hf _]%elem_of_bfilter| ->%list_elem_of_singleton]%elem_of_app; auto.
  - apply ConsumeOAuth_spec in Hc as [[_ [e He]]|(h & b & t & g & _ & _ & _ & _ & _ & _ & _ & _ & _ & _ & ->)]; [done|].
    intros (g' & Hg' & ->)%elem_of_update_all. destruct (_ && _); [|by left]. right; left. by eexists _, g'.
  - apply finishOAuth_completed in Hf as (h & flow & s1 & s2 & s3 & s4 & s5 & activation & before & linked & known & owner & b & _ & Hc).
    apply completed_finished in Hc as [_ _ _ _ -> _ _]. cbn. intros [Hfl _]%elem_of_bfilter. by left.
Qed.

(** No flow with the state of digest [h] waits for its callback. *)
Definition used_up (h : string) (s : signin) : Prop :=
  ∀ f, f ∈ si_flows s → fl_state_hash f = h → fl_completion_hash f ≠ None.

Lemma used_up_step h s s' : used_up h s → signin_step sha256 (λ op, possible_op op ∧ ¬ begins sha256 op h) s s' → used_up h s'.
Proof.
  intros Hu Hstep. destruct Hstep as [op s [_ Hb]|s d _]; [|done].
  intros f Hf Hh. destruct (change_flows op s _ f (execute_change sha256 op s) Hf) as [Hin|[(t & g & _ & ->)|Hbeg]]; [by apply Hu|done|]. by rewrite Hh in Hbeg.
Qed.

Lemma used_up_history h s s' :
  used_up h s → rtc (signin_step sha256 (λ op, possible_op op ∧ ¬ begins sha256 op h)) s s' → used_up h s'.
Proof. intros Hu. induction 1 as [|s1 s2 s3 Hstep _ IH]; [done|]. by apply IH; eapply used_up_step. Qed.

Lemma consumed_used_up value state nonce s s' ticket h :
  signin_ok s → TokenDigest sha256 state = Some h → ConsumeOAuth sha256 value state nonce s = (s', Ok ticket) → used_up h s'.
Proof.
  intros Hok Hh [[_ [e He]]|(h' & b & t & f & _ & Hh' & _ & _ & _ & Hf & Hs & Hb & Hc & Hnow & ->)]%ConsumeOAuth_spec; [done|].
  assert (h' = h) as -> by congruence. intros f' (g & Hg & ->)%elem_of_update_all Hst.
  destruct (_ && _) eqn:Hw; [done|]. assert (g = f) as ->.
  { apply (NoDup_key_unique fl_state_hash (si_flows s)); [apply Hok|done..|congruence]. }
  rewrite !bool_decide_eq_true_2 in Hw by done. apply Z.ltb_lt in Hnow. by rewrite Hnow in Hw.
Qed.

Lemma used_up_refuses value state nonce s h :
  used_up h s → TokenDigest sha256 state = Some h → ∃ e, ConsumeOAuth sha256 value state nonce s = (s, Err e).
Proof.
  intros Hu Hh. destruct (ConsumeOAuth _ _ _ _ _) as [s' r] eqn:Hc.
  destruct (ConsumeOAuth_spec _ _ _ _ _ _ _ Hc) as [[-> [e ->]]|(h' & b & t & f & _ & Hh' & _ & _ & _ & Hf & Hs & _ & Hn & _)]; [by exists e|].
  destruct (Hu f); [done|congruence|done].
Qed.
End Flows.

(** ** Sessions *)

Section Sessions.
Variable sha256 : string → string.

Lemma TokenDigest_NewToken value : length value = 32%nat → TokenDigest sha256 (NewToken value) = Some (sha256 (NewToken value)).
Proof.
  intros Hv. unfold TokenDigest, NewToken. rewrite encode_raw by done.
  rewrite bool_decide_eq_true_2.
  - cbn [negb]. rewrite chars_of_chars. rewrite <-(encode_raw (Strict RawURLEncoding)) by done.
    rewrite decode_encode_raw by done. by rewrite Hv.
  - by rewrite len_chars, chars_of_chars, length_fmap, length_sextets, Hv.
Qed.

Lemma open_session_spec id value owner s s' credentials :
  open_session sha256 id value owner s = Ok (s', credentials) →
  ∃ u, let t := default "" (TokenDigest sha256 (NewToken value)) in
    let expires := si_now s + DefaultTTL in
    di_users (si_directory s) !! owner = Some u ∧ us_active u = true ∧ (t ∉ (se_token_hash <$> di_sessions (si_directory s))) ∧
    credentials = mkCredentials (mkSession id owner (us_display_name u) expires) (NewToken value) ∧
    di_sessions (si_directory s') = di_sessions (si_directory s) ++ [mkSessionRow id owner t expires false] ∧
    di_users (si_directory s') = di_users (si_directory s) ∧ si_now s' = si_now s.
Proof.
  unfold open_session, issueSession. destruct (_ !! owner) as [u|] eqn:Hu; [|done]. destruct (us_active u) eqn:Ha; [|done]. cbv zeta.
  cbn [negb]. destruct (bool_decide _) eqn:Hin; [done|]. cbn [lift rbind]. intros [= <- <-]. bools. by exists u.
Qed.

(** Authentication in terms of the table of sessions. *)
Lemma authenticateSession_found token h row u d :
  TokenDigest sha256 token = Some h →
  list_find (λ s, se_token_hash s = h ∧ se_revoked s = false) (di_sessions (db_directory d)) = Some row →
  di_users (db_directory d) !! se_user_id row.2 = Some u → us_active u = true → db_now d < se_expires_at row.2 →
  authenticateSession sha256 token d =
    Ok (mkSession (se_id row.2) (se_user_id row.2) (us_display_name u) (se_expires_at row.2)).
Proof.
  intros Hh Hf Hu Ha Hnow. unfold authenticateSession. rewrite Hh, Hf. destruct row as [i row]. cbn in *. rewrite Hu, Ha. cbn [negb].
  unfold sessionLive. cbn. apply Z.ltb_lt in Hnow. by rewrite Hnow.
Qed.

Lemma list_find_new (l : list sessionRow) (new : sessionRow) p f :
  se_token_hash new ∉ se_token_hash <$> l → se_revoked new = false → (∀ x, se_token_hash (f x) = se_token_hash x) → p new = false →
  ∃ i, list_find (λ s, se_token_hash s = se_token_hash new ∧ se_revoked s = false) (update_all p f (l ++ [new])) = Some (i, new).
Proof.
  intros Hnew Hr Hf Hp. exists (length l). apply list_find_Some. split; [|split; [done|]].
  - rewrite lookup_update_all, list_lookup_middle by done. cbn. by rewrite Hp.
  - intros j y Hj Hlt. rewrite lookup_update_all, lookup_app_l in Hj by done. intros [Hy _]. apply Hnew.
    destruct (l !! j) as [z|] eqn:Hz; [|done]. injection Hj as <-. apply list_elem_of_lookup_2 in Hz.
    apply list_elem_of_fmap. exists z. split; [|done]. destruct (p z); rewrite <-Hy, ?Hf; done.
Qed.

Lemma revoke_current_spec token s :
  ∃ p, let f := λ x, mkSessionRow (se_id x) (se_user_id x) (se_token_hash x) (se_expires_at x) true in
    di_sessions (si_directory (revoke_current sha256 token s)) = update_all p f (di_sessions (si_directory s)) ∧
    di_users (si_directory (revoke_current sha256 token s)) = di_users (si_directory s) ∧
    si_now (revoke_current sha256 token s) = si_now s ∧
    (∀ x, Some (se_token_hash x) ≠ TokenDigest sha256 token → p x = false) ∧
    authenticateSession sha256 token (si_db (revoke_current sha256 token s)) = Err ErrUnauthenticated.
Proof.
  cbv zeta. unfold revoke_current, authenticateSession, RevokeSession. destruct (TokenDigest _ _) as [h|].
  2:{ exists (λ _, false). unfold update_all. rewrite list_fmap_id. by repeat split. }
  unfold transaction. destruct (list_find _ _) as [[i row]|] eqn:Hf; cbn [fst].
  - eexists. cbn. split; [done|]. split; [done|]. split; [done|]. split.
    + intros x Hx. cbn. by rewrite bool_decide_eq_false_2 by congruence.
    + rewrite (proj2 (list_find_None _ _)); [done|]. apply Forall_forall. intros x (y & _ & ->)%elem_of_update_all [Hh Hr].
      destruct (_ && _) eqn:Hw; [done|]. by rewrite Hh, Hr, bool_decide_eq_true_2 in Hw.
  - exists (λ _, false). unfold update_all. rewrite list_fmap_id. repeat split; try done. cbn. by rewrite Hf.
Qed.
End Sessions.

(** ** What completions and membership changes grant *)

Section Grants.
Variable sha256 : string → string.

Lemma ChangeMembership_granted waited id token subject scope role add d d' r m :
  ChangeMembership sha256 waited id token subject scope role add d = (d', r) →
  m ∈ di_memberships (db_directory d') → m ∉ di_memberships (db_directory d) →
  add = true ∧ m = mkMembershipRow id subject role scope ∧
  ∃ session, authenticateSession sha256 token d = Ok session ∧ ss_UserID session ≠ subject ∧
    authorize session scope MembersManage d = Ok tt.
Proof.
  intros [-> |(session & Hau & Ha & Hne & _ & _ & _ & Hms)]%ChangeMembership_spec Hm Hold; [done|].
  destruct Hms as [Heq|[[-> Heq]|Heq]]; rewrite Heq in Hm; [done| |by apply elem_of_bfilter in Hm as [Hm _]].
  apply elem_of_app in Hm as [Hm| ->%list_elem_of_singleton]; [done|]. split; [done|]. split; [done|]. by exists session.
Qed.

Lemma completed_bootstraps draws flow user currentToken setupToken s flows s1 s2 s3 s4 s5 s' activation before linked known owner b
    credentials m :
  completed sha256 draws flow user currentToken setupToken (with_flows flows s) s1 s2 s3 s4 s5 s' activation before linked known owner b
    credentials →
  m ∈ di_memberships (si_directory s') → m ∉ di_memberships (si_directory s) →
  has_admin s = false ∧ user_key user = bootstrap_key b ∧ bootstrap_consumed s = false ∧
  (si_bootstrap s = Some b ∨ si_bootstrap s = None ∧ ∃ actor, by_setup sha256 setupToken actor s) ∧
  me_role m = Admin ∧ me_scope m = mkScope Instance_ (di_instance (si_directory s)) ∧
  ∃ t, si_bootstrap s' = Some (mkBootstrapRow (bo_provider b) (bo_instance b) (bo_subject b) (Some (t, me_user_id m))).
Proof.
  intros Hcm Hm Hold. apply completed_finished in Hcm as Hfd. destruct Hfd as [Hms Hadm Hbo _ _ _ _].
  rewrite Hms in Hm. apply elem_of_app in Hm as [Hm|Hm]; [done|]. destruct (bo_consumed b) as [consumed|] eqn:Hc; [by apply not_elem_of_nil in Hm|].
  apply list_elem_of_singleton in Hm as ->. destruct (Hadm eq_refl) as [Ha Hk]. cbn [me_role me_scope me_user_id].
  assert (si_bootstrap s = Some b ∨ si_bootstrap s = None ∧ ∃ actor, by_setup sha256 setupToken actor s) as Hb.
  { destruct Hcm as [Hprep _ _ Hb1 _ _ _ _ _ _ _]. apply prepareManagedCompletion_spec in Hprep. destruct activation as [config|].
    - destruct Hprep as [_ [-> |(-> & Hn & Hby)]]; [by left|by right].
    - destruct Hprep as [-> _]. by left. }
  assert (bootstrap_consumed s = false) as Hcons by (unfold bootstrap_consumed; destruct Hb as [-> |[-> _]]; [by rewrite Hc|done]).
  by repeat (split; [done|]).
Qed.

Lemma completed_activates draws flow user currentToken setupToken s flows s1 s2 s3 s4 s5 s' activation before linked known owner b
    credentials c :
  completed sha256 draws flow user currentToken setupToken (with_flows flows s) s1 s2 s3 s4 s5 s' activation before linked known owner b
    credentials →
  NoDup (lc_id <$> si_configs s) → c ∈ si_configs s' → lc_status c = "active" → c ∉ si_configs s →
  ∃ config, verified sha256 flow user currentToken setupToken s config before ∧ c = set_config_status "active" config.
Proof.
  intros Hcm Hnd Hin Hact Hold. apply completed_finished in Hcm as Hfd. destruct Hfd as [_ _ _ Hcs _ _ _]. cbn in Hcs.
  destruct Hcm as [Hprep _ _ _ _ _ _ _ _ _ _]. apply prepareManagedCompletion_spec in Hprep.
  destruct activation as [config|]; [|by rewrite Hcs in Hin]. destruct Hprep as [Hver _]. exists config. split; [by destruct Hver|].
  rewrite Hcs in Hin. apply elem_of_update_all in Hin as (c1 & (c0 & Hc0 & ->)%elem_of_update_all & ->).
  assert (Hcin : config ∈ si_configs s).
  { pose proof (ve_config _ _ _ _ _ _ _ _ Hver) as Hf. destruct (fl_config flow) as [id|]; [|done].
    unfold find_config in Hf. cbn in Hf. destruct (list_find _ _) as [[i x]|] eqn:Hl; [|done]. injection Hf as ->.
    apply list_find_Some in Hl as (Hl & _). by eapply list_elem_of_lookup_2. }
  destruct (lc_status c0 =? "active") eqn:Ha0; bools.
  - cbn in *. destruct (lc_id c0 =? lc_id config) eqn:Hid; bools; [|done].
    assert (c0 = config) as -> by (by apply (NoDup_key_unique lc_id (si_configs s))).
    by rewrite (ve_status _ _ _ _ _ _ _ _ Hver) in Ha0.
  - destruct (lc_id c0 =? lc_id config) eqn:Hid; bools; [|done]. f_equal.
    by apply (NoDup_key_unique lc_id (si_configs s)).
Qed.
End Grants.

(** ** Sign-ins *)

Section SignIns.
Variable sha256 : string → string.

Lemma finishOAuth_ok draws ticket user currentToken setupToken s s' r :
  signin_ok s → dr_user draws ≠ uuid_Nil → finishOAuth sha256 draws ticket user currentToken setupToken s = (s', r) → signin_ok s'.
Proof.
  intros Hok Hdr [[-> _]|(h & flow & c & _ & _ & _ & _ & _ & _ & Hfin)]%finishOAuth_spec; [done|].
  eapply ok_finish_flow; [|exact Hdr|exact Hfin]. by apply ok_filter_flows.
Qed.

Lemma finishOAuth_identities draws ticket user currentToken setupToken s s' credentials x :
  finishOAuth sha256 draws ticket user currentToken setupToken s = (s', Ok credentials) → x ∈ si_identities s → x ∈ si_identities s'.
Proof.
  intros (h & flow & s1 & s2 & s3 & s4 & s5 & activation & before & linked & known & owner & b & _ & Hc)%finishOAuth_completed.
  apply completed_finished in Hc. apply (fd_identities _ _ _ _ _ _ _ Hc).
Qed.

(** The session belongs to the owner of the external account. *)
Lemma finishOAuth_session draws ticket user currentToken setupToken s s' credentials :
  signin_ok s → dr_user draws ≠ uuid_Nil →
  finishOAuth sha256 draws ticket user currentToken setupToken s = (s', Ok credentials) →
  cr_Token credentials = NewToken (dr_token draws) ∧
  ∃ x, find_identity user s' = Some x ∧ ex_user_id x = ss_UserID (cr_Session credentials).
Proof.
  intros Hok Hdr Hf. pose proof (finishOAuth_ok _ _ _ _ _ _ _ _ Hok Hdr Hf) as Hok'.
  apply finishOAuth_completed in Hf as (h & flow & s1 & s2 & s3 & s4 & s5 & activation & before & linked & known & owner & b & _ & Hc).
  pose proof (completed_owner _ _ _ _ _ _ _ _ _ _ _ _ _ _ _ _ _ _ _ _ (ok_filter_flows _ _ Hok) Hdr Hc) as (_ & _ & _ & _ & x & Hx & Hk & Ho).
  pose proof (cm_session _ _ _ _ _ _ _ _ _ _ _ _ _ _ _ _ _ _ _ _ Hc) as Hsession. apply open_session_spec in Hsession as Hcred.
  cbv zeta in Hcred. destruct Hcred as (u & _ & _ & _ & -> & _). cbn [cr_Token cr_Session ss_UserID]. split; [done|].
  exists x. split; [|done]. apply find_identity_elem; [done| |done].
  apply open_session_frame in Hsession as (_ & _ & _ & _ & Hi5). cbn in Hi5.
  destruct Hc as [_ _ _ _ _ _ _ _ Hgrant _ ->].
  assert (si_identities s4 = si_identities s3) as Hi4.
  { destruct (bo_consumed b); [by subst|]. by apply bootstrap_instance_frame in Hgrant as (_ & _ & _ & _ & _ & ?). }
  match goal with |- _ ∈ si_identities (revoke_current _ _ ?t) => destruct (revoke_current_frame sha256 currentToken t) as (_ & _ & _ & _ & ->) end.
  destruct activation; cbn; by rewrite Hi5, Hi4.
Qed.

(** The accounts at the end of a completion. *)
Lemma finishOAuth_sessions draws ticket user currentToken setupToken s s' credentials :
  finishOAuth sha256 draws ticket user currentToken setupToken s = (s', Ok credentials) →
  ∃ s5 s6, open_session sha256 (dr_session draws) (dr_token draws) (ss_UserID (cr_Session credentials)) s5 = Ok (s6, credentials) ∧
    ∃ s7, s' = revoke_current sha256 currentToken s7 ∧ di_sessions (si_directory s7) = di_sessions (si_directory s6) ∧
      di_users (si_directory s7) = di_users (si_directory s6) ∧ si_now s7 = si_now s6.
Proof.
  intros (h & flow & s1 & s2 & s3 & s4 & s5 & activation & before & linked & known & owner & b & _ & Hc)%finishOAuth_completed.
  destruct Hc as [_ _ _ _ _ _ _ _ _ Hsession ->]. do 2 eexists. split.
  - apply open_session_spec in Hsession as Hcred. cbv zeta in Hcred. destruct Hcred as (u & _ & _ & _ & Heq & _).
    assert (ss_UserID (cr_Session credentials) = owner) as -> by by rewrite Heq. exact Hsession.
  - eexists. split; [done|]. by destruct activation.
Qed.

Lemma finishOAuth_authenticates draws ticket user currentToken setupToken s s' credentials :
  length (dr_token draws) = 32%nat → TokenDigest sha256 currentToken ≠ TokenDigest sha256 (NewToken (dr_token draws)) →
  finishOAuth sha256 draws ticket user currentToken setupToken s = (s', Ok credentials) →
  AuthenticateSession sha256 (cr_Token credentials) (si_db s') = Ok (cr_Session credentials).
Proof.
  intros Hlen Hcur (s5 & s6 & Hopen & s7 & -> & Hs7 & Hu7 & Hn7)%finishOAuth_sessions.
  apply open_session_spec in Hopen. cbv zeta in Hopen. destruct Hopen as (u & Hu & Ha & Hnew & -> & Hs6 & Hu6 & Hn6).
  rewrite (TokenDigest_NewToken _ _ Hlen) in Hnew, Hs6, Hcur. cbn [default from_option id] in *.
  destruct (revoke_current_spec sha256 currentToken s7) as (p & Hs & Hu' & Hn & Hp & _).
  cbn [cr_Token cr_Session ss_UserID] in *. unfold AuthenticateSession.
  set (row := mkSessionRow _ _ _ _ false) in Hs6. rewrite Hs7, Hs6 in Hs.
  destruct (list_find_new (di_sessions (si_directory s5)) row p
    (λ x, mkSessionRow (se_id x) (se_user_id x) (se_token_hash x) (se_expires_at x) true)) as (i & Hi); [done|done|done| |].
  { apply Hp. cbn. congruence. }
  rewrite (authenticateSession_found _ _ (sha256 (NewToken (dr_token draws))) (i, row) u); [done|by apply TokenDigest_NewToken| | |done|].
  - unfold si_directory in Hs. by rewrite Hs.
  - cbn. unfold si_directory in *. congruence.
  - cbn. unfold si_now in *. rewrite Hn, Hn7, Hn6. unfold DefaultTTL, Hour, Minute, Second, Millisecond, Microsecond, Nanosecond. lia.
Qed.

Lemma finishOAuth_revokes draws ticket user currentToken setupToken s s' credentials :
  finishOAuth sha256 draws ticket user currentToken setupToken s = (s', Ok credentials) →
  AuthenticateSession sha256 currentToken (si_db s') = Err ErrUnauthenticated.
Proof.
  intros (s5 & s6 & _ & s7 & -> & _)%finishOAuth_sessions. by destruct (revoke_current_spec sha256 currentToken s7) as (p & _ & _ & _ & _ & ?).
Qed.

(** A ticket belongs to one flow, which its completion deletes. *)
Lemma finishOAuth_once draws ticket user currentToken setupToken s s' credentials draws' user' token' setup' :
  signin_ok s → finishOAuth sha256 draws ticket user currentToken setupToken s = (s', Ok credentials) →
  ∃ e, finishOAuth sha256 draws' ticket user' token' setup' s' = (s', Err e).
Proof.
  intros Hok Hf. destruct (finishOAuth sha256 draws' _ _ _ _ s') as [t r] eqn:Hf'.
  destruct (finishOAuth_spec _ _ _ _ _ _ _ _ _ Hf') as [[-> [e ->]]|(h & flow & c & -> & Hh & Hin & Hc & _)]; [by exists e|].
  exfalso. destruct (finishOAuth_spec _ _ _ _ _ _ _ _ _ Hf) as [[_ [e He]]|(h0 & flow0 & c0 & _ & Hh0 & Hin0 & Hc0 & Hnow0 & _ & Hfin)]; [done|].
  assert (h0 = h) as -> by congruence.
  apply finish_flow_spec in Hfin as (s1 & s2 & s3 & s4 & s5 & activation & before & linked & known & owner & b & Hcm).
  apply completed_finished in Hcm as [_ _ _ _ Hfl _ _]. rewrite Hfl in Hin. cbn in Hin. apply elem_of_bfilter in Hin as [Hin Hkept].
  assert (flow = flow0) as -> by (by eapply (so_tickets s Hok)).
  rewrite bool_decide_eq_true_2 in Hkept by done. apply Z.ltb_lt in Hnow0. by rewrite Hnow0 in Hkept.
Qed.
End SignIns.

(** ** Saving a configuration *)

Section Saving.
Variable sha256 : string → string.
Variable gcm : bytes → option AEAD.
Variable url_Parse : string → option parsedURL.
Variable uuid_String : uuid → string.

(** The additional data name the configuration. *)
Lemma configAAD_inj provider instance id provider' instance' id' :
  Inj (=) (=) uuid_String → ValidProviderInstance provider instance = true → ValidProviderInstance provider' instance' = true →
  configAAD uuid_String provider instance id = configAAD uuid_String provider' instance' id' → provider = provider' ∧ id = id'.
Proof.
  intros Hinj. unfold ValidProviderInstance, configAAD.
  destruct (provider =? "github") eqn:Hg, (provider' =? "github") eqn:Hg'; bools; subst.
  - intros _ _ Heq. by simplify_eq/=.
  - destruct (provider' =? "gitee") eqn:He; [|done]. bools. subst. by intros.
  - destruct (provider =? "gitee") eqn:He; [|done]. bools. subst. by intros.
  - destruct (provider =? "gitee") eqn:He; [|done]. destruct (provider' =? "gitee") eqn:He'; [|done]. bools. subst.
    intros Hi Hi' Heq. bools. subst. unfold GiteeInstance in Heq. by simplify_eq/=.
Qed.

Lemma SaveLoginCandidate_spec access config s s' :
  SaveLoginCandidate sha256 access config s = (s', Ok tt) → cf_Provider config ≠ "" →
  ∃ c, find_config (cf_ID config) s' = Some c ∧ lc_id c = cf_ID config ∧ lc_provider c = cf_Provider config ∧
    lc_instance c = cf_Instance config ∧ lc_client_id c = cf_ClientID config ∧ lc_encrypted_secret c = cf_Encrypted config ∧
    lc_status c = "candidate".
Proof.
  intros Hsave Hne. revert Hsave. unfold SaveLoginCandidate, with_provider. cbv zeta.
  rewrite (bool_decide_eq_false_2 (cf_Provider config = "")) by done. cbn [andb].
  destruct (_ || _); [done|]. unfold committed. destruct (settingsAccess _ _ _ _) as [actor|]; [|done]. cbn [rbind].
  destruct (_ <>? _); [done|]. destruct (if _ =? uuid_Nil then _ else _) as [[]|]; [|done]. cbn [rbind].
  destruct (100 <=? _); [done|]. destruct (config_insertable _ _) eqn:Hins; [|done]. cbn [negb]. intros [= <-].
  match type of Hins with config_insertable ?c _ = _ => exists c end. split; [|done].
  unfold config_insertable in Hins. bools. unfold find_config. cbn [si_configs audit with_configs with_db].
  match goal with |- context [list_find ?P (?l ++ _)] => rewrite (list_find_app_r P l) end; [cbn; by rewrite decide_True|].
  apply list_find_None, Forall_forall. intros c Hc Heq.
  match goal with H : _ ∉ _ |- _ => destruct H end. cbn. rewrite <-Heq. by apply list_elem_of_fmap_2.
Qed.

(** The factories keep what they are given. *)
Lemma factory_fields provider instance clientID clientSecret sv p :
  ValidProviderInstance provider instance = true →
  (if provider =? "gitee" then NewGitee url_Parse clientID clientSecret (CallbackFor sv "gitee")
   else NewGitHub url_Parse clientID clientSecret (lv_Callback sv)) = Some p →
  op_clientSecret p = clientSecret ∧ op_clientID p = clientID ∧ op_provider p = provider.
Proof.
  unfold ValidProviderInstance, NewGitee, NewGitHub. intros Hv. destruct (provider =? "gitee") eqn:Hg.
  - destruct (_ || _); [done|]. intros [= <-]. by bools.
  - destruct (_ || _); [done|]. intros [= <-]. destruct (provider =? "github") eqn:Hh; [|done]. by bools.
Qed.

Lemma Save_spec sv id random access input s s' id' :
  Save sha256 gcm url_Parse uuid_String sv id random access input s = (s', Ok id') →
  ∃ c envelope p, id' = lc_id c ∧ find_config id' s' = Some c ∧ lc_status c = "candidate" ∧
    Seal gcm (lv_cipher sv) random (chars (li_ClientSecret input)) (configAAD uuid_String (lc_provider c) (lc_instance c) (lc_id c)) = Some envelope ∧
    lc_encrypted_secret c = envelope ∧ ValidProviderInstance (lc_provider c) (lc_instance c) = true ∧
    (if lc_provider c =? "gitee" then NewGitee url_Parse (lc_client_id c) (li_ClientSecret input) (CallbackFor sv "gitee")
     else NewGitHub url_Parse (lc_client_id c) (li_ClientSecret input) (lv_Callback sv)) = Some p ∧
    (op_clientSecret p = li_ClientSecret input ∧ op_clientID p = li_ClientID input ∧ op_provider p = lc_provider c).
Proof.
  unfold Save. cbv zeta. set (provider := if li_Provider input =? "" then "github" else li_Provider input).
  assert (provider ≠ "") as Hne by (unfold provider; by case_bool_decide).
  destruct (ValidProviderInstance provider _) eqn:Hv; cbn [negb orb]; [|done]. destruct (negb (ValidGitHubSubject _)); [done|].
  destruct (if provider =? "gitee" then NewGitee _ _ _ _ else _) as [p|] eqn:Hmade; [|done].
  destruct (Seal _ _ _ _ _) as [envelope|] eqn:Hseal; [|done]. destruct (SaveLoginCandidate _ _ _ _) as [s1 [[]|]] eqn:Hsave; [|done].
  intros [= <- <-]. destruct (SaveLoginCandidate_spec _ _ _ _ Hsave Hne) as (c & Hf & Hid & Hp & Hi & Hc & He & Hst).
  cbn [cf_ID cf_Provider cf_Instance cf_ClientID cf_Encrypted] in *. exists c, envelope, p. rewrite Hid, Hp, Hi, Hc.
  repeat (split; [done|]). by eapply factory_fields.
Qed.
End Saving.
