(* ===== verification/SignInProps.v ===== *)
(** The properties of signing in, and a concrete history at which they are applied. *)

From stdpp Require Import pretty.
From S2P Require Import Prelude GoStd RunModel Authorization Codecs Database Identity Secrets SignIn SignInService SignInFacts SignInEffects.

(** * A concrete history of SignInService.v, at which its theorems are applied: a host issues a setup
    code, its holder saves a configuration for GitHub and signs in through it. *)

Section Run.
Variable sha256 : string → string.

Definition run_ops (ops : list signin_op) (s : signin) : signin := foldl (λ s op, (execute sha256 op s).1) s ops.

Lemma history_run s ops : Forall possible_op ops → signin_history sha256 s (run_ops ops s).
Proof.
  intros Hops. revert s. induction Hops as [|op ops Hp _ IH]; intros s; [apply rtc_refl|].
  eapply rtc_l; [by apply step_execute|apply IH].
Qed.

Lemma reachable_run s ops : signin_start s → Forall possible_op ops → signin_reachable sha256 (run_ops ops s).
Proof. intros Hs Hops. exists s. split; [done|by apply history_run]. Qed.
End Run.

(** The digest of the examples keeps different texts apart. *)
Definition sg_sha256 (s : string) : string := s.

Definition sg_value (c : ascii) : bytes := replicate 32 c.
Definition sg_token (c : ascii) : string := NewToken (sg_value c).

Definition sg_database : database :=
  mkDatabase [] ∅ [] ∅ [] [] ∅ ∅ (mkDirectory 1 ∅ ∅ ∅ ∅ [] []) (1000 * Hour).
Definition sg_start : signin := mkSignin sg_database ∅ None [] (mkSetupRow None None None None) [] [].

Definition sg_user : ExternalUser := mkExternalUser "github" GitHubInstance "4711" "octocat" "".
Definition sg_envelope : Envelope := mkEnvelope [] [] [] [].
Definition sg_config : LoginConfig := mkLoginConfig 20 "github" GitHubInstance "client" "4711" sg_envelope None.
Definition sg_access : SettingsAccess := mkSettingsAccess "" (sg_token "s").
Definition sg_draws : completionDraws := mkDraws 30 31 32 33 (sg_value "t") Second.

Definition sg_saved : list signin_op :=
  [OpIssueSetupCode (sg_token "c"); OpExchangeSetupCode (sg_token "c") (sg_token "s"); OpSaveCandidate sg_access sg_config].
Definition sg_begun : list signin_op := sg_saved ++ [OpBeginManaged (sg_token "a") (sg_token "n") "" 20 sg_access].
Definition sg_waiting : list signin_op := sg_begun ++ [OpConsume (sg_value "k") (sg_token "a") (sg_token "n")].
Definition sg_finish : signin_op := OpFinish sg_draws (sg_token "k") sg_user "" (sg_token "s").

Definition sg_at (ops : list signin_op) : signin := run_ops sg_sha256 ops sg_start.
Definition sg_end : signin := sg_at (sg_waiting ++ [sg_finish]).

Lemma sg_reachable ops : Forall possible_op ops → signin_reachable sg_sha256 (sg_at ops).
Proof. intros Hops. by apply reachable_run. Qed.

Lemma sg_possible : Forall possible_op (sg_waiting ++ [sg_finish]).
Proof. by repeat constructor. Qed.

Lemma sg_waiting_possible : Forall possible_op sg_waiting.
Proof. by repeat constructor. Qed.

Lemma sg_begun_possible : Forall possible_op sg_begun.
Proof. by repeat constructor. Qed.

Definition sg_membership : membershipRow := mkMembershipRow 32 30 Admin (mkScope Instance_ 1).
Definition sg_active : configRow :=
  mkConfigRow 20 "github" GitHubInstance "client" sg_envelope "4711" "active" None None (Some (sg_token "s"))
    (1000 * Hour) (1000 * Hour + 30 * Minute).
Definition sg_credentials : Credentials :=
  mkCredentials (mkSession 33 30 "octocat" (1000 * Hour + Second + DefaultTTL)) (sg_token "t").

(** The settings of the server, with the toy cipher of Secrets.v. *)
Definition sg_key : bytes := sg_value "m".
Definition sg_random : sealing := mkSealing (sg_value "d") (replicate 12 "x"%char) (replicate 12 "y"%char).
Definition sg_service : LoginService := mkLoginService toy_aead "https://ci.example/api/v1/auth/github/callback".
Definition sg_uuid_String (id : uuid) : string := pretty id.
#[export] Instance sg_uuid_String_inj : Inj (=) (=) sg_uuid_String.
Proof. unfold sg_uuid_String. apply _. Qed.
Definition sg_url_Parse (s : string) : option parsedURL :=
  if s =? lv_Callback sg_service
  then Some (mkParsedURL "https" "ci.example" "ci.example" github_callback "" "" "" false "" false) else None.
Definition sg_input : LoginInput := mkLoginInput "github" "client" "0123456789abcdef" "4711" None.
Definition sg_purposes : list bytes := [configAAD sg_uuid_String "github" GitHubInstance 20; configAAD sg_uuid_String "github" GitHubInstance 21].

Lemma sg_laws : AEADLaws toy_gcm sg_purposes.
Proof. apply toy_laws. by apply (bool_decide_unpack _), I. Qed.

Lemma sg_sealing_ok : sealing_ok toy_gcm toy_aead sg_random.
Proof. split; [done|]. split; [done|]. by intros c [= <-]. Qed.

Lemma sg_finish_possible : possible_op sg_finish.
Proof. by split. Qed.

(** * Properties of signing in: who becomes an administrator, whose sessions are issued, and
    how flows, configurations and secrets are used. *)

Section Accounts.
Variable sha256 : string → string.

(** C33: in every reachable state login configurations are distinct, each belongs to one owner
    and at most one is active; states and tickets identify one flow; an external account belongs
    to one existing user, every session to the owner of one; and whoever bootstrapped the instance
    owns the account that was named for it, while an administrator exists. *)
Theorem signin_wellformed s : signin_reachable sha256 s → signin_ok s.
Proof. apply ok_reachable. Qed.


(** C13: the bootstrap happens once.  After it, whatever happens, the account that bootstrapped the
    instance stays on record, an administrator remains, and no setup code is issued or exchanged and
    no setup session changes the settings. *)
Theorem setup_closed_for_good s s' :
  signin_reachable sha256 s → bootstrap_consumed s = true → signin_history sha256 s s' →
  si_bootstrap s' = si_bootstrap s ∧ has_admin s' = true ∧
  (∀ code, ∃ e, IssueSetupCode sha256 code s' = (s', Err e)) ∧
  (∀ code token, ∃ e, ExchangeSetupCode sha256 code token s' = (s', Err e)) ∧
  (∀ token recent, is_ok (settingsAccess sha256 (mkSettingsAccess "" token) recent s') = false).
Proof.
  intros Hreach Hcons Hh. apply ok_reachable in Hreach as Hok. unfold bootstrap_consumed in Hcons.
  destruct (si_bootstrap s) as [b|] eqn:Hb; [|done]. bools.
  assert (Hb' : si_bootstrap s' = Some b).
  { apply (history_keeps sha256 (λ t, si_bootstrap t = Some b) s); [|done..]. intros t op _ _ Ht. by apply execute_bootstrap. }
  pose proof (ok_history _ _ _ Hok Hh) as Hok'. split; [done|]. split.
  { destruct (bo_consumed b) as [[t u]|] eqn:Hc; [|done]. by apply (so_bootstrap _ Hok' _ _ _ Hb' Hc). }
  split; [|split].
  - intros code. unfold IssueSetupCode. destruct (digest _ _ _); [|by eexists]. unfold committed. cbv zeta. rewrite Hb'.
    rewrite (bool_decide_eq_true_2 (Some b ≠ None)) by done. rewrite orb_true_r. by eexists.
  - intros code token. unfold ExchangeSetupCode. destruct (digest _ _ code); [|by eexists]. destruct (digest _ _ token); [|by eexists].
    unfold committed. cbv zeta. destruct (su_code _) as [[hash expires]|]; [|by eexists]. rewrite Hb'.
    rewrite (bool_decide_eq_true_2 (Some b ≠ None)) by done. rewrite !orb_true_r. by eexists.
  - intros token recent. destruct (settingsAccess _ _ _ _) as [actor|] eqn:Ha; [|done].
    apply settingsAccess_spec in Ha as [(Hau & _)|(_ & h & expiry & _ & _ & _ & _ & _ & Hn)]; [by vm_compute in Hau|].
    unfold bootstrap_consumed in Hn. rewrite Hb' in Hn. by bools.
Qed.

(** A configuration becomes active only when the actor who saved it as a candidate signs in
    through it: an administrator with the live session that saved it and an external account of
    their own, or the holder of the setup session with the account named for the bootstrap.  The
    candidate was live, and the active configuration still the one it was made against. *)
Theorem configuration_activated_by_owner s op c :
  signin_reachable sha256 s → possible_op op →
  c ∈ si_configs (execute sha256 op s).1 → lc_status c = "active" → c ∉ si_configs s →
  ∃ draws ticket user currentToken setupToken flow config owner,
    op = OpFinish draws ticket user currentToken setupToken ∧ ValidUser user = true ∧ flow ∈ si_flows s ∧
    verified sha256 flow user currentToken setupToken s config owner ∧ c = set_config_status "active" config ∧
    ∀ c', c' ∈ si_configs (execute sha256 op s).1 → lc_status c' = "active" → c' = c.
Proof.
  intros Hreach Hp Hc Hact Hold. apply ok_reachable in Hreach as Hok. pose proof (ok_execute sha256 _ _ Hok Hp) as Hok'.
  destruct (execute_cases sha256 op s) as [[_ _ _ Hq]|[(subject & _ & _ & Heq)|[H|H]]].
  - by destruct (Hold (Hq c Hc Hact)).
  - by rewrite Heq in Hc.
  - destruct H as (draws & ticket & user & current & setup & credentials & flow & s0 & s1 & s2 & s3 & s4 & s5 & activation & before &
      linked & known & owner & b & -> & Hv & _ & Hin & (flows & ->) & Hcm).
    destruct (completed_activates _ _ _ _ _ _ _ _ _ _ _ _ _ _ _ _ _ _ _ _ _ _ Hcm (so_configs s Hok) Hc Hact Hold) as (config & Hver & ->).
    exists draws, ticket, user, current, setup, flow, config, before. repeat split; try done; try apply Hver.
    intros c' Hc' Ha'. by apply (so_active _ Hok').
  - destruct H as (waited & id & token & subject & scope & role & add & d & -> & Hd & Heq). by rewrite Heq in Hc.
Qed.

(** C21: a sign-in that succeeds issues a session of the user who owns the external account.  The
    session authenticates, the session that the browser had before does not any more, the ticket is
    used up, and from then on the account signs in as that user, whatever happens in between. *)
Theorem sign_in_session s draws ticket user currentToken setupToken s' credentials :
  signin_reachable sha256 s → dr_user draws ≠ uuid_Nil → length (dr_token draws) = 32%nat →
  TokenDigest sha256 currentToken ≠ TokenDigest sha256 (NewToken (dr_token draws)) →
  finishOAuth sha256 draws ticket user currentToken setupToken s = (s', Ok credentials) →
  cr_Token credentials = NewToken (dr_token draws) ∧
  AuthenticateSession sha256 (cr_Token credentials) (si_db s') = Ok (cr_Session credentials) ∧
  AuthenticateSession sha256 currentToken (si_db s') = Err ErrUnauthenticated ∧
  (∀ draws' user' token' setup', ∃ e, finishOAuth sha256 draws' ticket user' token' setup' s' = (s', Err e)) ∧
  (∃ x, find_identity user s' = Some x ∧ ex_user_id x = ss_UserID (cr_Session credentials)) ∧
  ∀ t draws' ticket' token' setup' t' credentials',
    signin_history sha256 s' t → dr_user draws' ≠ uuid_Nil →
    finishOAuth sha256 draws' ticket' user token' setup' t = (t', Ok credentials') →
    ss_UserID (cr_Session credentials') = ss_UserID (cr_Session credentials).
Proof.
  intros Hreach Hdr Hlen Hcur Hf. apply ok_reachable in Hreach as Hok.
  destruct (finishOAuth_session _ _ _ _ _ _ _ _ _ Hok Hdr Hf) as (Htoken & x & Hx & Ho).
  pose proof (ok_execute sha256 (OpFinish draws ticket user currentToken setupToken) s Hok (conj Hdr Hlen)) as Hok'.
  cbn in Hok'. rewrite Hf in Hok'. split; [done|]. split; [by eapply finishOAuth_authenticates|].
  split; [by eapply finishOAuth_revokes|]. split; [intros; by apply (finishOAuth_once _ _ _ _ _ _ _ _ _ _ _ _ _ Hok Hf)|]. split; [by exists x|].
  intros t draws' ticket' token' setup' t' credentials' Hh Hdr' Hf'.
  pose proof (ok_history _ _ _ Hok' Hh) as Hokt.
  destruct (finishOAuth_session _ _ _ _ _ _ _ _ _ Hokt Hdr' Hf') as (_ & x' & Hx' & Ho').
  rewrite <-Ho, <-Ho'. f_equal. apply find_identity_Some in Hx as [Hin Hk].
  assert (Hin' : x ∈ si_identities t').
  { eapply finishOAuth_identities; [exact Hf'|]. apply (history_keeps sha256 (λ t, x ∈ si_identities t) s'); [|done..].
    intros t0 op _ _ Ht. by apply execute_identities. }
  assert (find_identity user t' = Some x) as ? by (by apply find_identity_elem; [eapply finishOAuth_ok|..]). congruence.
Qed.

(** C25: a flow is consumed at most once.  After a callback has consumed the flow of a state, and until a
    flow is started with the same state, every further callback with that state is refused before the
    provider is asked anything, and changes nothing. *)
Theorem flow_consumed_once hmac_sha256 gcm url_Parse uuid_String Exchange s value state nonce s1 ticket h s2 :
  signin_reachable sha256 s → TokenDigest sha256 state = Some h →
  ConsumeOAuth sha256 value state nonce s = (s1, Ok ticket) →
  rtc (signin_step sha256 (λ op, possible_op op ∧ ¬ begins sha256 op h)) s1 s2 →
  ∀ mode value' draws request, cb_state request = [state] →
    ∃ e, finishLogin sha256 hmac_sha256 gcm url_Parse uuid_String Exchange mode value' draws request s2 = (s2, Err e, []).
Proof.
  intros Hreach Hh Hc Hhist mode value' draws request Hst. apply ok_reachable in Hreach as Hok.
  pose proof (used_up_history _ _ _ _ (consumed_used_up _ _ _ _ _ _ _ _ Hok Hh Hc) Hhist) as Hu.
  unfold finishLogin. destruct (callback_tokens _ _) as [[[[st nonce'] current] setup]|] eqn:Hcb; [|by eexists].
  assert (st = state) as ->.
  { revert Hcb. unfold callback_tokens. rewrite Hst. destruct (_ || _); [done|]. cbv zeta. cbn [head default from_option id].
    destruct (digest _ _ state); [|done]. cbn [rbind]. destruct (digest _ _ _); [|done]. cbn [rbind].
    destruct (match cb_sessions request with [] => _ | _ :: _ => _ end); [|done]. by intros [= <- _ _ _]. }
  destruct (used_up_refuses _ value' _ nonce' _ _ Hu Hh) as [e He]. rewrite He. by exists e.
Qed.

(** A candidate of somebody else is never reported as forbidden: the comparison of its owner is NULL,
    which is reported as a conflict. *)
Theorem foreign_candidate_is_a_conflict config actor s :
  one_owner config →
  checkCandidate config actor s ≠ Err (SiRun ErrForbidden) ∧
  (owned_by actor config ≠ Some true → checkCandidate config actor s = Err ErrSetupConflict).
Proof.
  intros Ho. assert (owned_by actor config ≠ Some false) as Hf.
  { unfold owned_by. destruct Ho as [[[u ->] ->]|[-> [h ->]]]; cbn [sql_eq].
    - by destruct (match actorOwner actor with Some _ => _ | None => _ end) as [[]|].
    - by destruct (match sa_setup_hash actor with Some _ => _ | None => _ end) as [[]|]. }
  unfold checkCandidate. destruct (_ <>? "candidate"); [done|]. destruct (negb _); [done|]. destruct (_ <>? _); [done|].
  by destruct (owned_by actor config) as [[]|].
Qed.
End Accounts.

(** ** Secrets *)

Section Secrets.
Variable sha256 : string → string.
Variable gcm : bytes → option AEAD.
Variable url_Parse : string → option parsedURL.
Variable uuid_String : uuid → string.
Variable purposes : list bytes.
Context `{!AEADLaws gcm purposes} `{!Inj (=) (=) uuid_String}.

Definition purpose (c : configRow) : bytes := configAAD uuid_String (lc_provider c) (lc_instance c) (lc_id c).

(** A configuration that was saved gives a provider with the client secret that was entered;
    and the sealed secret is of no use in another configuration. *)
Theorem saved_secret_opens key sv id random access input s s' id' :
  NewCipher gcm key = Some (lv_cipher sv) → sealing_ok gcm (lv_cipher sv) random →
  Save sha256 gcm url_Parse uuid_String sv id random access input s = (s', Ok id') →
  ∃ c p, find_config id' s' = Some c ∧ lc_status c = "candidate" ∧
    provider_of gcm url_Parse uuid_String sv c = Ok p ∧
    op_clientSecret p = li_ClientSecret input ∧ op_clientID p = li_ClientID input ∧ op_provider p = lc_provider c ∧
    ∀ c', lc_encrypted_secret c' = lc_encrypted_secret c → purpose c ∈ purposes → purpose c' ∈ purposes →
      lc_provider c' ≠ lc_provider c ∨ lc_id c' ≠ lc_id c →
      provider_of gcm url_Parse uuid_String sv c' = Err ErrLoginConfig.
Proof.
  intros Hkey Hrandom Hsave. destruct (Save_spec _ _ _ _ _ _ _ _ _ _ _ _ Hsave) as (c & envelope & p & -> & Hfind & Hst & Hseal & Henv & Hvalid & Hmade & Hp).
  destruct (Open_Seal gcm purposes _ key random (chars (li_ClientSecret input)) (purpose c) Hkey Hrandom) as (envelope' & Hseal' & Hopen & Hother).
  fold (purpose c) in Hseal. assert (envelope' = envelope) as -> by congruence.
  exists c, p. split; [done|]. split; [done|]. split.
  { unfold provider_of. rewrite Hvalid. cbn [negb]. fold (purpose c). rewrite Henv, Hopen, of_chars_chars.
    by rewrite Hmade. }
  split; [apply Hp|]. split; [apply Hp|]. split; [apply Hp|].
  intros c' Hsame Hin Hin' Hne. unfold provider_of. destruct (ValidProviderInstance (lc_provider c') _) eqn:Hvalid'; [|done].
  cbn [negb]. fold (purpose c'). rewrite Hsame, Henv, Hother; [done..|]. intros Heq.
  apply configAAD_inj in Heq as [? ?]; [naive_solver|done..].
Qed.
End Secrets.

(** ** Examples *)

Lemma signin_wellformed_witness : signin_reachable sg_sha256 sg_end ∧ signin_ok sg_end.
Proof.
  assert (Hr : signin_reachable sg_sha256 sg_end) by (apply sg_reachable, sg_possible).
  split; [exact Hr|exact (signin_wellformed sg_sha256 sg_end Hr)].
Defined.


Lemma setup_closed_for_good_witness :
  bootstrap_consumed sg_end = true ∧
  has_admin (run_ops sg_sha256 [OpRevokeSession (sg_token "t")] sg_end) = true.
Proof.
  assert (Hc : bootstrap_consumed sg_end = true) by (vm_compute; reflexivity). split; [exact Hc|].
  assert (Hh : signin_history sg_sha256 sg_end (run_ops sg_sha256 [OpRevokeSession (sg_token "t")] sg_end)).
  { apply history_run. repeat constructor. }
  exact (proj1 (proj2 (setup_closed_for_good sg_sha256 _ _ (sg_reachable _ sg_possible) Hc Hh))).
Defined.

Lemma configuration_activated_by_owner_witness :
  sg_active ∈ si_configs (execute sg_sha256 sg_finish (sg_at sg_waiting)).1 ∧
  ∃ flow config owner, flow ∈ si_flows (sg_at sg_waiting) ∧
    verified sg_sha256 flow sg_user "" (sg_token "s") (sg_at sg_waiting) config owner.
Proof.
  assert (Hc : sg_active ∈ si_configs (execute sg_sha256 sg_finish (sg_at sg_waiting)).1).
  { apply (list_elem_of_lookup_2 _ 0). vm_compute. reflexivity. }
  assert (Hold : sg_active ∉ si_configs (sg_at sg_waiting)).
  { intros Hin. apply (list_elem_of_fmap_2 lc_status) in Hin.
    assert (Hst : lc_status <$> si_configs (sg_at sg_waiting) = ["candidate"]) by (vm_compute; reflexivity).
    rewrite Hst in Hin. apply list_elem_of_singleton in Hin. discriminate Hin. }
  split; [exact Hc|].
  destruct (configuration_activated_by_owner sg_sha256 (sg_at sg_waiting) sg_finish sg_active (sg_reachable _ sg_waiting_possible)
    sg_finish_possible Hc eq_refl Hold)
    as (draws & ticket & user & currentToken & setupToken & flow & config & owner & Hop & _ & Hf & Hv & _).
  injection Hop as <- <- <- <- <-. exists flow, config, owner. split; [exact Hf|exact Hv].
Defined.

Lemma sign_in_session_witness :
  AuthenticateSession sg_sha256 (sg_token "t") (si_db sg_end) = Ok (cr_Session sg_credentials) ∧
  ∃ e, finishOAuth sg_sha256 sg_draws (sg_token "k") sg_user "" "" sg_end = (sg_end, Err e).
Proof.
  assert (Hf : finishOAuth sg_sha256 sg_draws (sg_token "k") sg_user "" (sg_token "s") (sg_at sg_waiting) = (sg_end, Ok sg_credentials)).
  { vm_compute. reflexivity. }
  destruct (sign_in_session sg_sha256 (sg_at sg_waiting) sg_draws (sg_token "k") sg_user "" (sg_token "s") sg_end sg_credentials
    (sg_reachable _ sg_waiting_possible) ltac:(discriminate) eq_refl ltac:(vm_compute; discriminate) Hf) as (_ & Ha & _ & Honce & _).
  split; [exact Ha|exact (Honce sg_draws sg_user "" "")].
Defined.

Lemma flow_consumed_once_witness :
  let request := mkCallback true [sg_token "a"] ["code"] [] [sg_token "n"] [] [] 0 "github" in
  ∃ e, finishLogin sg_sha256 (λ _ _, []) toy_gcm sg_url_Parse sg_uuid_String (λ _ _ _, Some sg_user) (ManagedLogin sg_service)
    (sg_value "j") sg_draws request sg_end = (sg_end, Err e, []).
Proof.
  cbv zeta. assert (Hc : ConsumeOAuth sg_sha256 (sg_value "k") (sg_token "a") (sg_token "n") (sg_at sg_begun)
    = (sg_at sg_waiting, Ok (sg_token "k"))) by (vm_compute; reflexivity).
  apply (flow_consumed_once sg_sha256 _ _ _ _ _ (sg_at sg_begun) (sg_value "k") (sg_token "a") (sg_token "n") (sg_at sg_waiting)
    (sg_token "k") (sg_token "a") sg_end (sg_reachable _ sg_begun_possible) eq_refl Hc); [|reflexivity].
  apply rtc_once, (step_execute sg_sha256 _ sg_finish (sg_at sg_waiting)).
  split; [exact sg_finish_possible|intros []].
Defined.

Lemma saved_secret_opens_witness :
  ∃ s' c p, Save sg_sha256 toy_gcm sg_url_Parse sg_uuid_String sg_service 20 sg_random sg_access sg_input (sg_at (take 2 sg_saved)) = (s', Ok 20%N) ∧
    find_config 20 s' = Some c ∧ provider_of toy_gcm sg_url_Parse sg_uuid_String sg_service c = Ok p ∧ op_clientSecret p = "0123456789abcdef".
Proof.
  set (r := Save sg_sha256 toy_gcm sg_url_Parse sg_uuid_String sg_service 20 sg_random sg_access sg_input (sg_at (take 2 sg_saved))).
  assert (Hs : r = (r.1, Ok 20%N)) by (vm_compute; reflexivity).
  destruct (saved_secret_opens sg_sha256 toy_gcm sg_url_Parse sg_uuid_String sg_purposes (AEADLaws0 := sg_laws) sg_key sg_service 20 sg_random sg_access sg_input
    _ _ _ eq_refl sg_sealing_ok Hs) as (c & p & Hf & _ & Hp & Hsec & _).
  exists r.1, c, p. split; [exact Hs|]. split; [exact Hf|]. split; [exact Hp|exact Hsec].
Defined.
