(* ===== verification/Projects.v ===== *)
(** internal/project/project.go and internal/store/postgres/projects.go: the list of the
    projects that a session may read, a project, and the list of its runs, in pages whose
    cursors are positions.

    The columns of a repository that only the lists show are in a table of their own here,
    joined by the identifier, and so are the names of organizations. *)

From S2P Require Import Prelude GoStd RunModel Authorization Codecs Database Identity PgStore.

(** ** package unicode/utf8 *)

Definition byte_in (lo hi : Z) (c : ascii) : bool := (lo <=? byte_value c) && (byte_value c <=? hi).
Definition continuation_byte : ascii → bool := byte_in 128 191.

(** [utf8.ValidString], on the bytes of the text: no overlong forms, no surrogates and nothing
    beyond U+10FFFF. *)
Fixpoint valid_utf8 (l : bytes) : bool :=
  match l with
  | [] => true
  | a :: l =>
    if byte_in 0 127 a then valid_utf8 l
    else match l with
    | [] => false
    | b :: l =>
      if byte_in 194 223 a then continuation_byte b && valid_utf8 l
      else match l with
      | [] => false
      | c :: l =>
        if byte_in 224 239 a then
          (if byte_value a =? 224 then byte_in 160 191 b else if byte_value a =? 237 then byte_in 128 159 b else continuation_byte b)
          && continuation_byte c && valid_utf8 l
        else match l with
        | [] => false
        | d :: l =>
          byte_in 240 244 a
          && (if byte_value a =? 240 then byte_in 144 191 b else if byte_value a =? 244 then byte_in 128 143 b else continuation_byte b)
          && continuation_byte c && continuation_byte d && valid_utf8 l
        end
      end
    end
  end.

(** ** project.go *)

Record Query := mkQuery { qu_Limit : Z; qu_Search : string; qu_After : string }.

Inductive ProjectError := ErrQuery | PrRun (e : RunError).
#[export] Instance ProjectError_eq_dec : EqDecision ProjectError.
Proof. solve_decision. Defined.

Definition Query_Validate (q : Query) : bool :=
  negb ((qu_Limit q <? 1) || (100 <? qu_Limit q) || negb (valid_utf8 (chars (qu_Search q))) || (100 <? len (qu_Search q))
    || Contains (qu_Search q) (of_chars ["000"%char])).

Record ProjectRecord := mkProject {
  po_ID : uuid;
  po_Organization : uuid * string;
  po_Provider : string;
  po_Owner : string;
  po_Name : string;
  po_DefaultBranch : string;
  po_ConnectionStatus : string;
}.

(** [Run]; the texts that may be NULL are empty then. *)
Record ProjectRun := mkProjectRun {
  pn_ID : uuid;
  pn_PipelineName : string;
  pn_Event : string;
  pn_Ref : string;
  pn_CommitSHA : string;
  pn_Status : Status;
  pn_CreatedAt : time;
  pn_StartedAt : option time;
  pn_FinishedAt : option time;
}.

Record Page (A : Type) := mkPage { pg_Items : list A; pg_NextCursor : string }.
Arguments mkPage {A} _ _.
Arguments pg_Items {A} _.
Arguments pg_NextCursor {A} _.

(** ** Tables *)

(** owner, name, default_branch and whether github_installation_id is set *)
Record repositoryColumns := mkRepositoryColumns {
  rk_owner : string;
  rk_name : string;
  rk_default_branch : string;
  rk_connected : bool;
}.

Record browser := mkBrowser {
  bw_db : database;
  bw_columns : gmap uuid repositoryColumns;
  bw_organizations : gmap uuid string;   (** display_name *)
}.

Definition repository_before (a b : ProjectRecord) : Prop := (po_ID a <= po_ID b)%N.
#[export] Instance repository_before_dec : RelDecision repository_before.
Proof. intros a b. unfold repository_before. apply _. Defined.

(** The join of the repositories with their organizations; what is missing in a table is not
    in the join. *)
Definition project_row (id : uuid) (repository : repositoryRow) (w : browser) : option ProjectRecord :=
  columns ← bw_columns w !! id;
  name ← bw_organizations w !! rp_organization_id repository;
  if rp_active repository && bool_decide (rp_organization_id repository ∈ di_organizations (db_directory (bw_db w)))
  then Some (mkProject id (rp_organization_id repository, name) (rp_provider repository) (rk_owner columns) (rk_name columns)
         (rk_default_branch columns) (if rk_connected columns then "metadata_verified" else "not_connected"))
  else None.

(** The active repositories, [ORDER BY r.id] *)
Definition project_rows (w : browser) : list ProjectRecord :=
  merge_sort repository_before
    (omap (λ x, project_row x.1 x.2 w) (map_to_list (di_repositories (db_directory (bw_db w))))).

Section Projects.
Variable sha256 : string → string.
(** [uuid.Parse] and the method [String]. *)
Variable uuid_Parse : string → option uuid.
Variable uuid_String : uuid → string.
(** [time.Parse] and [Format] of a time in UTC, with the layout [time.RFC3339Nano]. *)
Variable time_Parse : string → option time.
Variable time_Format : time → string.
(** [lower] of the database, which depends on its locale. *)
Variable lower : string → string.

Definition ProjectCursor (value : string) : result ProjectError uuid :=
  if value =? "" then Ok uuid_Nil
  else match uuid_Parse value with
  | Some id => if (id =? uuid_Nil) || (uuid_String id <>? value) then Err ErrQuery else Ok id
  | None => Err ErrQuery
  end.

Definition RunCursor (value : string) : result ProjectError (time * uuid) :=
  if value =? "" then Ok (time_zero, uuid_Nil)
  else
    fail_if 160 <? len value with ErrQuery;;
    match DecodeString (Strict RawURLEncoding) (chars value) with
    | None => Err ErrQuery
    | Some data =>
      match Split (of_chars data) "|"%char with
      | [first; second] =>
        match time_Parse first, ProjectCursor second with
        | Some stamp, Ok id => if (id =? uuid_Nil) || (stamp =? time_zero) then Err ErrQuery else Ok (stamp, id)
        | _, _ => Err ErrQuery
        end
      | _ => Err ErrQuery
      end
    end.

Definition EncodeRunCursor (stamp : time) (id : uuid) : string :=
  of_chars (encode RawURLEncoding (chars (time_Format stamp +:+ "|" +:+ uuid_String id)%string)).

(** ** projects.go *)

Definition project_lift {A} (r : result RunError A) : result ProjectError A :=
  match r with Ok a => Ok a | Err e => Err (PrRun e) end.

(** What the memberships of a user let the query find: everything, organizations, projects. *)
Definition prefilter (instance : uuid) (grants : list Grant) : bool * list uuid * list uuid :=
  let readers := List.filter (λ g, bool_decide (gr_Role g ∈ [Viewer; Developer; Maintainer; Admin])) grants in
  let scopes kind := sc_ID ∘ gr_Scope <$> List.filter (λ g, sc_Kind (gr_Scope g) =? kind) readers in
  (existsb (λ id, id =? instance) (scopes Instance_), scopes Organization, scopes Project).

Definition found_by (search : string) (item : ProjectRecord) : bool :=
  Contains (lower (po_Owner item +:+ "/" +:+ po_Name item)%string) (lower search).

(** The query of one turn of the loop. *)
Definition project_batch (after : uuid) (filters : bool * list uuid * list uuid) (search : string) (w : browser) : list ProjectRecord :=
  let '(all, organizations, projects) := filters in
  take 101 (List.filter (λ item, (after <? po_ID item)%N
    && (all || bool_decide ((po_Organization item).1 ∈ organizations) || bool_decide (po_ID item ∈ projects))
    && found_by search item) (project_rows w)).

Definition project_resource (instance : uuid) (item : ProjectRecord) : Resource :=
  mkResource [mkScope Instance_ instance; mkScope Organization (po_Organization item).1; mkScope Project (po_ID item)] "".

Definition readable (userID instance : uuid) (grants : list Grant) (item : ProjectRecord) : bool :=
  Allowed (mkPrincipal userID true) (mkAccess ResourceRead (project_resource instance item) uuid_Nil) grants.

(** The loop over the rows of a batch: the items so far, the position and the number of rows read. *)
Fixpoint scan_batch (limit : nat) (allowed : ProjectRecord → bool) (rows items : list ProjectRecord) (after : uuid) (count : nat)
    : list ProjectRecord * uuid * nat :=
  match rows with
  | [] => (items, after, count)
  | item :: rows =>
    if allowed item then
      let items := items ++ [item] in
      if (limit <? length items)%nat then (items, po_ID item, S count) else scan_batch limit allowed rows items (po_ID item) (S count)
    else scan_batch limit allowed rows items (po_ID item) (S count)
  end.

(** [None] when the fuel is used up. *)
Fixpoint list_loop (fuel : nat) (limit : nat) (allowed : ProjectRecord → bool) (filters : bool * list uuid * list uuid) (search : string)
    (w : browser) (items : list ProjectRecord) (after : uuid) : option (list ProjectRecord) :=
  match fuel with
  | O => None
  | S fuel =>
    if (limit <? length items)%nat then Some items
    else
      let '(items, after, count) := scan_batch limit allowed (project_batch after filters search w) items after 0 in
      if (count <? 101)%nat then Some items else list_loop fuel limit allowed filters search w items after
  end.

Definition project_page (limit : nat) (items : list ProjectRecord) : Page ProjectRecord :=
  if (limit <? length items)%nat
  then let items := take limit items in mkPage items (default "" (uuid_String ∘ po_ID <$> last items))
  else mkPage items "".

(** Every turn of the loop that is not the last reads 101 rows. *)
Definition list_fuel (w : browser) : nat := S (length (project_rows w)).

(** [waited] passes before the session is checked again. *)
Definition ListProjects (waited : duration) (token : string) (query : Query) (w : browser) : result ProjectError (Page ProjectRecord) :=
  fail_if negb (Query_Validate query) with ErrQuery;;
  let? after := ProjectCursor (qu_After query) in
  let? session := project_lift (authenticateSession sha256 token (bw_db w)) in
  let instance := di_instance (db_directory (bw_db w)) in
  let grants := grants_of (ss_UserID session) (bw_db w) in
  let limit := Z.to_nat (qu_Limit query) in
  match list_loop (list_fuel w) limit (readable (ss_UserID session) instance grants) (prefilter instance grants) (qu_Search query) w [] after with
  | None => Err (PrRun ErrDatabase)
  | Some items =>
    let? _ := project_lift (sessionLive session (elapse waited (bw_db w))) in
    Ok (project_page limit items)
  end.

Definition GetProject (waited : duration) (token : string) (id : uuid) (w : browser) : result ProjectError ProjectRecord :=
  let? session := project_lift (authenticateSession sha256 token (bw_db w)) in
  let? _ := project_lift (authorize session (mkScope Project id) ResourceRead (bw_db w)) in
  match di_repositories (db_directory (bw_db w)) !! id ≫= λ repository, project_row id repository w with
  | None => Err (PrRun ErrForbidden)
  | Some item => let? _ := project_lift (sessionLive session (elapse waited (bw_db w))) in Ok item
  end.

Definition project_run (r : RunRecord) : ProjectRun :=
  mkProjectRun (rn_ID r) (rn_PipelineName r) (rn_Event r) (rn_Ref r) (rn_CommitSHA r) (rn_Status r) (rn_CreatedAt r) (rn_StartedAt r)
    (rn_FinishedAt r).

(** The runs of a project behind a position, newest first. *)
Definition runs_after (id after : uuid) (stamp : time) (d : database) : list RunRecord :=
  List.filter (λ r, bool_decide (rn_ProjectID r = Some id)
      && ((after =? uuid_Nil) || before (rn_CreatedAt r) (rn_ID r) stamp after)) (newest_first (db_runs d)).

Definition run_page (limit : nat) (rows : list ProjectRun) : Page ProjectRun :=
  if (limit <? length rows)%nat
  then let items := take limit rows in
       mkPage items (default "" ((λ r, EncodeRunCursor (pn_CreatedAt r) (pn_ID r)) <$> last items))
  else mkPage rows "".

Definition ListProjectRuns (waited : duration) (token : string) (id : uuid) (query : Query) (w : browser)
    : result ProjectError (Page ProjectRun) :=
  fail_if negb (Query_Validate query) with ErrQuery;;
  fail_if qu_Search query <>? "" with ErrQuery;;
  let? '(stamp, after) := RunCursor (qu_After query) in
  let? session := project_lift (authenticateSession sha256 token (bw_db w)) in
  let? _ := project_lift (authorize session (mkScope Project id) RunRead (bw_db w)) in
  let limit := Z.to_nat (qu_Limit query) in
  let rows := project_run <$> take (S limit) (runs_after id after stamp (bw_db w)) in
  let? _ := project_lift (sessionLive session (elapse waited (bw_db w))) in
  Ok (run_page limit rows).
End Projects.
