(* ===== verification/ProjectsFacts.v ===== *)
(** Paging in general, and what the queries of Projects.v return. *)

From S2P Require Import Prelude GoStd RunModel Authorization Codecs Database Identity PgStore Projects.

(** ** Sorted lists *)

Lemma bfilter_app {A} (p : A → bool) l l' : List.filter p (l ++ l') = List.filter p l ++ List.filter p l'.
Proof. apply List.filter_app. Qed.

Lemma bfilter_bfilter {A} (p q : A → bool) l : List.filter p (List.filter q l) = List.filter (λ x, q x && p x) l.
Proof. induction l as [|x l IH]; [done|]. cbn. destruct (q x); cbn; [destruct (p x)|]; by rewrite IH. Qed.

Lemma bfilter_ext {A} (p q : A → bool) l : (∀ x, x ∈ l → p x = q x) → List.filter p l = List.filter q l.
Proof.
  intros Hpq. induction l as [|x l IH]; [done|]. cbn. rewrite (Hpq x), IH; [done| |left]. intros y Hy. apply Hpq. by right.
Qed.

Lemma elem_of_bfilter_iff {A} (p : A → bool) l (x : A) : x ∈ List.filter p l ↔ x ∈ l ∧ p x = true.
Proof. by rewrite !list_elem_of_In, filter_In. Qed.

Lemma bfilter_none {A} (p : A → bool) l : (∀ x, x ∈ l → p x = false) → List.filter p l = [].
Proof. intros Hp. rewrite (bfilter_ext _ (λ _, false) l Hp). clear Hp. by induction l. Qed.

Lemma bfilter_all {A} (p : A → bool) l : (∀ x, x ∈ l → p x = true) → List.filter p l = l.
Proof. intros Hp. rewrite (bfilter_ext _ (λ _, true) l Hp). clear Hp. induction l as [|x l IH]; [done|]. cbn. by f_equal. Qed.

Lemma StronglySorted_bfilter {A} (R : relation A) p l : StronglySorted R l → StronglySorted R (List.filter p l).
Proof.
  induction 1 as [|x l _ IH Hx]; [constructor|]. cbn. destruct (p x); [|done]. constructor; [done|].
  apply Forall_forall. intros y [Hy _]%elem_of_bfilter_iff. by eapply Forall_forall in Hx.
Qed.

(** What comes after an element of a strictly sorted list. *)
Lemma filter_after {A} (R : relation A) (after : A → A → bool) xs x ys :
  (∀ a b, after a b = true ↔ R a b) → (∀ a b, R a b → ¬ R b a) → StronglySorted R (xs ++ x :: ys) →
  List.filter (after x) (xs ++ x :: ys) = ys.
Proof.
  intros Hafter Hasym Hs. assert (Hfalse : ∀ y, ¬ R x y → after x y = false).
  { intros y Hn. apply not_true_is_false. by rewrite Hafter. }
  rewrite bfilter_app. cbn. rewrite Hfalse by (intros Hr; by apply (Hasym _ _ Hr)).
  rewrite bfilter_none.
  - cbn. apply bfilter_all. intros y Hy. apply Hafter. clear Hasym Hfalse Hafter.
    induction xs as [|z xs IH]; inversion Hs as [|? ? Hs' Hf]; subst; [by eapply Forall_forall in Hf|by apply IH].
  - intros y Hy. apply Hfalse. apply Hasym. clear Hasym Hfalse Hafter.
    induction xs as [|z xs IH]; [by apply not_elem_of_nil in Hy|]. inversion Hs as [|? ? Hs' Hf]; subst.
    apply elem_of_cons in Hy as [->|Hy]; [|by apply IH]. eapply Forall_forall; [exact Hf|]. apply elem_of_app. right. left.
Qed.

(** A sorted list without equal keys is strictly sorted. *)
Lemma StronglySorted_strict {A K} (key : A → K) (R S : relation A) l :
  NoDup (key <$> l) → (∀ a b, R a b → key a ≠ key b → S a b) → StronglySorted R l → StronglySorted S l.
Proof.
  intros Hnd Hrs. induction 1 as [|x l Hs IH Hx]; [constructor|]. cbn in Hnd. apply NoDup_cons in Hnd as [Hn Hnd].
  constructor; [by apply IH|]. apply Forall_forall. intros y Hy. apply Hrs; [by eapply Forall_forall in Hx|].
  intros Heq. apply Hn. rewrite Heq. by apply list_elem_of_fmap_2.
Qed.

(** ** Pages *)

Section Paging.
Context {A : Type}.

(** The page that begins [rest]. *)
Definition page_of (name : A → string) (limit : nat) (rest : list A) : Page A :=
  if (limit <? length rest)%nat then let items := take limit rest in mkPage items (default "" (name <$> last items)) else mkPage rest "".

Lemma page_of_take name limit rest : page_of name limit (take (S limit) rest) = page_of name limit rest.
Proof.
  unfold page_of. cbv zeta. rewrite length_take. destruct (Nat.ltb_spec limit (length rest)) as [Hl|Hl].
  - rewrite (proj2 (Nat.ltb_lt _ _)) by lia. by rewrite take_take, Nat.min_l by lia.
  - rewrite (proj2 (Nat.ltb_ge _ _)) by lia. by rewrite take_ge by lia.
Qed.

(** What a client sees that asks for the next page until there is none. *)
Fixpoint follow_pages {E} (fuel : nat) (list_page : string → result E (Page A)) (cursor : string) : option (list A) :=
  match fuel with
  | O => None
  | S fuel =>
    match list_page cursor with
    | Ok page => if pg_NextCursor page =? "" then Some (pg_Items page) else (λ l, pg_Items page ++ l) <$> follow_pages fuel list_page (pg_NextCursor page)
    | Err _ => None
    end
  end.

(** A list in pages: [rest] is what comes after a cursor. *)
Record paged {E} (name : A → string) (limit : nat) (list_page : string → result E (Page A)) (rest : string → list A) : Prop := {
  pa_limit : (0 < limit)%nat;
  pa_page cursor : cursor = "" ∨ cursor ∈ name <$> rest "" → list_page cursor = Ok (page_of name limit (rest cursor));
  pa_name x : x ∈ rest "" → name x ≠ "";
  pa_rest xs x ys : rest "" = xs ++ x :: ys → rest (name x) = ys;
}.

(** Following the cursors shows everything once, in order. *)
Lemma follow_paged {E} name limit (list_page : string → result E (Page A)) rest cursor fuel :
  paged name limit list_page rest → (cursor = "" ∨ cursor ∈ name <$> rest "") → (length (rest cursor) < fuel)%nat →
  follow_pages fuel list_page cursor = Some (rest cursor).
Proof.
  intros [Hlim Hpage Hname Hrest]. revert cursor. induction fuel as [|fuel IH]; intros cursor Hc Hfuel; [lia|].
  cbn. rewrite Hpage by done. unfold page_of. destruct (Nat.ltb_spec limit (length (rest cursor))) as [Hl|Hl]; [|done].
  cbn [pg_NextCursor pg_Items]. assert (∃ pre, rest "" = pre ++ rest cursor) as [pre Hpre].
  { destruct Hc as [-> |(x & -> & (xs & ys & Heq)%list_elem_of_split)%list_elem_of_fmap]; [by exists []|].
    rewrite (Hrest _ _ _ Heq). exists (xs ++ [x]). by rewrite <-app_assoc. }
  destruct (last (take limit (rest cursor))) as [x|] eqn:Hx.
  2:{ apply last_None in Hx. destruct limit; [lia|]. by destruct (rest cursor). }
  apply last_Some in Hx as [xs Hxs]. cbn [fmap option_fmap option_map default from_option id].
  assert (Heq : rest "" = (pre ++ xs) ++ x :: drop limit (rest cursor)).
  { rewrite Hpre, <-app_assoc. f_equal. rewrite <-(take_drop limit (rest cursor)) at 1. rewrite Hxs. by rewrite <-app_assoc. }
  assert (Hin : x ∈ rest "") by (rewrite Heq; apply elem_of_app; right; left).
  rewrite bool_decide_eq_false_2 by auto. rewrite IH.
  - cbn. f_equal. rewrite (Hrest _ _ _ Heq). apply take_drop.
  - right. by apply list_elem_of_fmap_2.
  - rewrite (Hrest _ _ _ Heq), length_drop. lia.
Qed.
End Paging.

(** ** The list of projects *)

Section ProjectList.
Variable lower : string → string.

Definition strictly_before (a b : ProjectRecord) : Prop := (po_ID a < po_ID b)%N.

Lemma project_rows_sorted w : StronglySorted strictly_before (project_rows w).
Proof.
  apply (StronglySorted_strict po_ID repository_before).
  - unfold project_rows. rewrite merge_sort_Permutation.
    assert (∀ l, NoDup (l.*1) → NoDup (po_ID <$> omap (λ x, project_row x.1 x.2 w) l) ∧
      ∀ id, id ∈ po_ID <$> omap (λ x, project_row x.1 x.2 w) l → id ∈ l.*1) as Hl.
    { induction l as [|[id r] l IH]; [intros _; split; [constructor|done]|]. cbn. intros [Hn Hnd]%NoDup_cons.
      destruct (IH Hnd) as [IH1 IH2]. destruct (project_row id r w) as [item|] eqn:Hi.
      - assert (po_ID item = id) as Hid.
        { unfold project_row in Hi. destruct (bw_columns w !! id); [|done]. cbn in Hi. destruct (bw_organizations w !! _); [|done].
          cbn in Hi. destruct (_ && _); [|done]. by injection Hi as <-. }
        cbn. rewrite Hid. split; [apply NoDup_cons; split; [|done]; intros Hin; by apply Hn, IH2|].
        intros k [->|Hk]%elem_of_cons; [left|right; by apply IH2].
      - split; [done|]. intros k Hk. right. by apply IH2. }
    apply Hl, NoDup_fst_map_to_list.
  - intros a b. unfold repository_before, strictly_before. lia.
  - assert (Transitive repository_before) by (intros a b c; unfold repository_before; lia).
    assert (Total repository_before) by (intros a b; unfold repository_before; lia).
    by apply StronglySorted_merge_sort.
Qed.

(** The rows that the queries of a list can find behind a position. *)
Definition found_rows (filters : bool * list uuid * list uuid) (search : string) (w : browser) (after : uuid) : list ProjectRecord :=
  let '(all, organizations, projects) := filters in
  List.filter (λ item, (after <? po_ID item)%N
    && (all || bool_decide ((po_Organization item).1 ∈ organizations) || bool_decide (po_ID item ∈ projects))
    && found_by lower search item) (project_rows w).

Lemma project_batch_found after filters search w : project_batch lower after filters search w = take 101 (found_rows filters search w after).
Proof. by destruct filters as [[all organizations] projects]. Qed.

Lemma found_rows_after filters search w after xs x ys :
  found_rows filters search w after = xs ++ x :: ys → found_rows filters search w (po_ID x) = ys.
Proof.
  destruct filters as [[all organizations] projects]. unfold found_rows. intros Heq.
  rewrite <-(filter_after strictly_before (λ a b, (po_ID a <? po_ID b)%N) xs x ys).
  - rewrite <-Heq, bfilter_bfilter. apply bfilter_ext. intros y _.
    assert ((after <? po_ID x)%N = true) as Hx.
    { assert (x ∈ xs ++ x :: ys) as Hin by (apply elem_of_app; right; left). rewrite <-Heq in Hin.
      apply elem_of_bfilter_iff in Hin as [_ Hin]. by bools. }
    apply N.ltb_lt in Hx. destruct (N.ltb_spec (po_ID x) (po_ID y)); [|by rewrite !andb_false_r].
    rewrite (proj2 (N.ltb_lt after (po_ID y))) by lia. by rewrite andb_true_r.
  - intros a b. apply N.ltb_lt.
  - unfold strictly_before. intros a b. lia.
  - rewrite <-Heq. apply StronglySorted_bfilter, project_rows_sorted.
Qed.

Lemma scan_batch_spec limit allowed rows items after count items' after' count' :
  (length items ≤ limit)%nat → scan_batch limit allowed rows items after count = (items', after', count') →
  items' = take (S limit) (items ++ List.filter allowed rows) ∧
  ((length items' ≤ limit)%nat → after' = default after (po_ID <$> last rows) ∧ count' = (count + length rows)%nat).
Proof.
  revert items after count. induction rows as [|item rows IH]; intros items after count Hlen; cbn [scan_batch List.filter length].
  { intros [= <- <- <-]. rewrite app_nil_r, take_ge by lia. split; [done|]. split; [done|lia]. }
  assert (Hlast : default after (po_ID <$> last (item :: rows)) = default (po_ID item) (po_ID <$> last rows)).
  { rewrite last_cons. by destruct (last rows). }
  destruct (allowed item).
  - destruct (Nat.ltb_spec limit (length (items ++ [item]))) as [Hl|Hl].
    + intros [= <- <- <-]. rewrite length_app in Hl. cbn in Hl. split.
      * assert (items ++ item :: List.filter allowed rows = (items ++ [item]) ++ List.filter allowed rows) as -> by by rewrite <-app_assoc.
        rewrite take_app_le, take_ge; [done|..]; rewrite length_app; cbn; lia.
      * rewrite length_app. cbn. lia.
    + intros [-> Hrest]%IH; [|done]. split; [by rewrite <-app_assoc|]. rewrite Hlast. intros [-> ->]%Hrest. split; [done|lia].
  - intros [-> Hrest]%IH; [|done]. split; [done|]. rewrite Hlast. intros [-> ->]%Hrest. split; [done|lia].
Qed.

(** The loop ends, with the first rows that the policy allows. *)
Lemma list_loop_spec fuel limit allowed filters search w items after :
  (length items ≤ limit)%nat → (length (found_rows filters search w after) < fuel)%nat →
  list_loop lower fuel limit allowed filters search w items after =
    Some (take (S limit) (items ++ List.filter allowed (found_rows filters search w after))).
Proof.
  revert items after. induction fuel as [|fuel IH]; intros items after Hlen Hfuel; [lia|]. cbn [list_loop].
  rewrite (proj2 (Nat.ltb_ge _ _)) by lia. rewrite project_batch_found.
  set (rows := found_rows filters search w after) in *.
  destruct (scan_batch _ _ _ _ _ _) as [[items' after'] count] eqn:Hscan.
  destruct (scan_batch_spec _ _ _ _ _ _ _ _ _ Hlen Hscan) as [Hitems Hrest].
  assert (Hsplit : items ++ List.filter allowed rows = (items ++ List.filter allowed (take 101 rows)) ++ List.filter allowed (drop 101 rows)).
  { by rewrite <-app_assoc, <-bfilter_app, take_drop. }
  destruct (decide (length items' ≤ limit)%nat) as [Hshort|Hfull].
  - destruct (Hrest Hshort) as [Hafter ->]. rewrite length_take.
    assert (Hall : items' = items ++ List.filter allowed (take 101 rows)).
    { rewrite Hitems in Hshort |- *. rewrite length_take in Hshort. apply take_ge. lia. }
    destruct (Nat.ltb_spec (0 + 101 `min` length rows) 101) as [Hlt|Hge].
    + rewrite Hsplit, (drop_ge rows) by lia. cbn. rewrite app_nil_r, <-Hall. by rewrite take_ge by lia.
    + destruct (last (take 101 rows)) as [x|] eqn:Hx.
      2:{ apply last_None, (f_equal length) in Hx. rewrite length_take in Hx. cbn [length] in Hx. lia. }
      cbn in Hafter. apply last_Some in Hx as [xs Hxs].
      assert (found_rows filters search w after' = drop 101 rows) as Hnext.
      { rewrite Hafter. apply (found_rows_after _ _ _ after xs). fold rows. rewrite <-(take_drop 101 rows) at 1. rewrite Hxs.
        by rewrite <-app_assoc. }
      rewrite IH, Hnext; [|done|rewrite Hnext, length_drop; lia]. by rewrite Hsplit, Hall.
  - assert (Htake : items' = take (S limit) (items ++ List.filter allowed rows)).
    { rewrite Hitems, Hsplit, (take_app_le (_ ++ _)); [done|]. rewrite Hitems, length_take in Hfull. lia. }
    destruct (Nat.ltb_spec count 101); [by f_equal|].
    destruct fuel as [|fuel].
    { (* a full batch needs rows *) exfalso. assert (rows = []) as Hr by (apply nil_length_inv; lia). rewrite Hr in Hscan. cbn in Hscan.
      injection Hscan as <- _ <-. lia. }
    cbn [list_loop]. rewrite (proj2 (Nat.ltb_lt _ _)) by lia. by f_equal.
Qed.

(** The query finds every project that the policy lets its user read. *)
Lemma readable_prefilter userID instance grants item :
  readable userID instance grants item = true →
  let '(all, organizations, projects) := prefilter instance grants in
  all || bool_decide ((po_Organization item).1 ∈ organizations) || bool_decide (po_ID item ∈ projects) = true.
Proof.
  unfold readable, prefilter. intros (target & g & _ & Hg & [_ Hr Hdeploy _ Hp])%Allowed_spec.
  cbn [rq_Action rq_Resource project_resource rc_Path] in Hr, Hp.
  set (readers := List.filter _ grants).
  assert (sc_Kind (gr_Scope g) ≠ Environment) as Hk.
  { rewrite !elem_of_cons, elem_of_nil in Hp. destruct Hp as [-> |[-> |[-> |[]]]]; done. }
  assert (g ∈ readers) as Hin.
  { apply elem_of_bfilter_iff. split; [done|]. apply bool_decide_eq_true_2. unfold roleAllows in Hr. rewrite !elem_of_cons.
    do 4 (case_bool_decide; [by auto|]). do 2 (case_bool_decide; [destruct Hk; by auto|]). done. }
  assert (∀ kind, sc_Kind (gr_Scope g) = kind →
    sc_ID (gr_Scope g) ∈ sc_ID ∘ gr_Scope <$> List.filter (λ g, sc_Kind (gr_Scope g) =? kind) readers) as Hscope.
  { intros kind Hkind. apply (list_elem_of_fmap_2 (sc_ID ∘ gr_Scope)). apply elem_of_bfilter_iff.
    split; [done|by apply bool_decide_eq_true_2]. }
  rewrite !elem_of_cons, elem_of_nil in Hp. apply orb_true_iff. destruct Hp as [Hs|[Hs|[Hs|[]]]].
  - left. apply orb_true_iff. left. apply existsb_exists. exists instance. split; [|by apply bool_decide_eq_true_2].
    apply list_elem_of_In. specialize (Hscope Instance_). rewrite Hs in Hscope. by apply Hscope.
  - left. apply orb_true_iff. right. apply bool_decide_eq_true_2. specialize (Hscope Organization). rewrite Hs in Hscope. by apply Hscope.
  - right. apply bool_decide_eq_true_2. specialize (Hscope Project). rewrite Hs in Hscope. by apply Hscope.
Qed.
End ProjectList.

(** A position that is printed and parsed back: what the formats of times and identifiers promise. *)
Record prints (uuid_Parse : string → option uuid) (uuid_String : uuid → string) (time_Parse : string → option time)
    (time_Format : time → string) (stamp : time) (id : uuid) : Prop := {
  pr_uuid : uuid_Parse (uuid_String id) = Some id;
  pr_time : time_Parse (time_Format stamp) = Some stamp;
  pr_bar : Forall (λ c, c ≠ "|"%char) (chars (uuid_String id)) ∧ Forall (λ c, c ≠ "|"%char) (chars (time_Format stamp));
  pr_length : len (uuid_String id) = 36 ∧ len (time_Format stamp) <= 35;
  pr_set : id ≠ uuid_Nil ∧ stamp ≠ time_zero;
}.

(** ** Cursors and the list of runs *)

Lemma split_first sep l1 l2 cur :
  Forall (λ c, c ≠ sep) l1 → split_bytes sep (l1 ++ sep :: l2) cur = of_chars (reverse cur ++ l1) :: split_bytes sep l2 [].
Proof.
  intros Hl. revert cur. induction Hl as [|c l1 Hc Hl IH]; intros cur; cbn.
  - by rewrite bool_decide_eq_true_2, app_nil_r.
  - rewrite bool_decide_eq_false_2 by done. by rewrite IH, reverse_cons, <-app_assoc.
Qed.

Lemma split_last sep l cur : Forall (λ c, c ≠ sep) l → split_bytes sep l cur = [of_chars (reverse cur ++ l)].
Proof.
  intros Hl. revert cur. induction Hl as [|c l Hc Hl IH]; intros cur; cbn; [by rewrite app_nil_r|].
  rewrite bool_decide_eq_false_2 by done. by rewrite IH, reverse_cons, <-app_assoc.
Qed.

Section Cursors.
Variable uuid_Parse : string → option uuid.
Variable uuid_String : uuid → string.
Variable time_Parse : string → option time.
Variable time_Format : time → string.

Abbreviation printed := (prints uuid_Parse uuid_String time_Parse time_Format).

Lemma ProjectCursor_String id :
  uuid_Parse (uuid_String id) = Some id → uuid_String id ≠ "" → id ≠ uuid_Nil → ProjectCursor uuid_Parse uuid_String (uuid_String id) = Ok id.
Proof.
  intros Hp Hne Hn. unfold ProjectCursor. rewrite bool_decide_eq_false_2, Hp by done.
  by rewrite (bool_decide_eq_false_2 (id = uuid_Nil)), bool_decide_eq_true_2.
Qed.

Lemma RunCursor_Encode stamp id :
  printed stamp id → RunCursor uuid_Parse uuid_String time_Parse (EncodeRunCursor uuid_String time_Format stamp id) = Ok (stamp, id).
Proof.
  intros [Hu Ht [Hbu Hbt] [Hlu Hlt] [Hid Hstamp]]. unfold RunCursor, EncodeRunCursor.
  set (text := chars (time_Format stamp +:+ "|" +:+ uuid_String id)%string).
  assert (Htext : text = chars (time_Format stamp) ++ "|"%char :: chars (uuid_String id)) by (unfold text; by rewrite !chars_app).
  assert (Hlen : Z.of_nat (length text) <= 72).
  { rewrite Htext, length_app. cbn [length]. rewrite len_chars in Hlu, Hlt. lia. }
  assert (0 < Z.of_nat (length text)) by (rewrite Htext, length_app; cbn [length]; lia).
  assert (Henc : len (of_chars (encode RawURLEncoding text)) = (4 * Z.of_nat (length text) + 2) / 3).
  { by rewrite len_chars, chars_of_chars, encode_raw, length_fmap, length_sextets. }
  rewrite bool_decide_eq_false_2.
  2:{ intros Hempty. rewrite Hempty in Henc. change (len "") with 0 in Henc. Z.to_euclidean_division_equations. lia. }
  rewrite Henc. destruct (Z.ltb_spec 160 ((4 * Z.of_nat (length text) + 2) / 3)) as [Hl|_].
  { exfalso. Z.to_euclidean_division_equations. lia. }
  rewrite chars_of_chars, encode_raw, <-(encode_raw (Strict RawURLEncoding)), decode_encode_raw by done.
  unfold Split. rewrite chars_of_chars, Htext, split_first, split_last by done. cbn [reverse rev_append app].
  rewrite !of_chars_chars, Ht, ProjectCursor_String; [|done| |done].
  - by rewrite !bool_decide_eq_false_2.
  - intros He. rewrite He in Hlu. done.
Qed.

(** The runs of a project, newest first. *)
Definition runs_of (id : uuid) (d : database) : list RunRecord :=
  List.filter (λ r, bool_decide (rn_ProjectID r = Some id)) (newest_first (db_runs d)).

Definition older (a b : RunRecord) : Prop := before (rn_CreatedAt b) (rn_ID b) (rn_CreatedAt a) (rn_ID a) = true.

Lemma before_is c1 i1 c2 i2 : before c1 i1 c2 i2 = true ↔ c1 < c2 ∨ c1 = c2 ∧ (i1 < i2)%N.
Proof. unfold before. rewrite orb_true_iff, andb_true_iff, bool_decide_eq_true, N.ltb_lt, Z.ltb_lt. done. Qed.

Lemma before_not c1 i1 c2 i2 : before c1 i1 c2 i2 = false ↔ c2 < c1 ∨ c1 = c2 ∧ (i2 <= i1)%N.
Proof. rewrite <-not_true_iff_false, before_is. lia. Qed.

Lemma newest_first_sorted runs : NoDup (rn_ID <$> runs) → StronglySorted older (newest_first runs).
Proof.
  intros Hnd. apply (StronglySorted_strict rn_ID run_newer).
  - unfold newest_first. by rewrite merge_sort_Permutation.
  - intros a b. unfold run_newer, older. rewrite before_not, before_is. lia.
  - assert (Transitive run_newer) by (intros a b c; unfold run_newer; rewrite !before_not; lia).
    assert (Total run_newer) by (intros a b; unfold run_newer; rewrite !before_not; lia).
    by apply StronglySorted_merge_sort.
Qed.

Lemma runs_of_after id d xs r ys :
  NoDup (rn_ID <$> db_runs d) → rn_ID r ≠ uuid_Nil → runs_of id d = xs ++ r :: ys → runs_after id (rn_ID r) (rn_CreatedAt r) d = ys.
Proof.
  intros Hnd Hn Heq.
  rewrite <-(filter_after older (λ a b, before (rn_CreatedAt b) (rn_ID b) (rn_CreatedAt a) (rn_ID a)) xs r ys).
  - rewrite <-Heq. unfold runs_of, runs_after. rewrite bfilter_bfilter. apply bfilter_ext. intros y _.
    by rewrite (bool_decide_eq_false_2 (rn_ID r = uuid_Nil)).
  - done.
  - intros a b. unfold older. rewrite !before_is. lia.
  - rewrite <-Heq. by apply StronglySorted_bfilter, newest_first_sorted.
Qed.
End Cursors.
