(* ===== verification/ProjectsProps.v ===== *)
(** Properties of the lists of projects and runs: following the cursors shows everything that
    the session may see, once and in order, and nothing else. *)

From S2P Require Import Prelude GoStd RunModel Authorization Codecs Database Identity PgStore Projects ProjectsFacts.

Section Lists.
Variable sha256 : string → string.
Variable uuid_Parse : string → option uuid.
Variable uuid_String : uuid → string.
Variable time_Parse : string → option time.
Variable time_Format : time → string.
Variable lower : string → string.
Variables (waited : duration) (token : string) (session : Session) (w : browser).

(** The session is live, also at the end of the transaction. *)
Hypothesis live : authenticateSession sha256 token (bw_db w) = Ok session.
Hypothesis lives_on : sessionLive session (elapse waited (bw_db w)) = Ok tt.

Abbreviation may_read := (readable (ss_UserID session) (di_instance (db_directory (bw_db w))) (grants_of (ss_UserID session) (bw_db w))).
Abbreviation instance := (di_instance (db_directory (bw_db w))).

(** The projects that the session may read and that match the search. *)
Definition visible_projects (search : string) : list ProjectRecord :=
  List.filter (λ item, may_read item && found_by lower search item) (project_rows w).

Lemma visible_found search after :
  List.filter may_read (found_rows lower (prefilter instance (grants_of (ss_UserID session) (bw_db w))) search w after)
  = List.filter (λ item, (after <? po_ID item)%N) (visible_projects search).
Proof.
  unfold found_rows, visible_projects. pose proof (readable_prefilter (ss_UserID session) instance (grants_of (ss_UserID session) (bw_db w))) as Hpre.
  destruct (prefilter _ _) as [[all organizations] projects]. rewrite !bfilter_bfilter. apply bfilter_ext. intros item _.
  specialize (Hpre item). destruct (may_read item); [|by rewrite !andb_false_r]. rewrite Hpre by done. rewrite !andb_true_r, andb_true_l. apply andb_comm.
Qed.

(** One page in terms of the projects that are visible. *)
Lemma ListProjects_page query after :
  Query_Validate query = true → ProjectCursor uuid_Parse uuid_String (qu_After query) = Ok after →
  ListProjects sha256 uuid_Parse uuid_String lower waited token query w =
    Ok (page_of (uuid_String ∘ po_ID) (Z.to_nat (qu_Limit query))
      (List.filter (λ item, (after <? po_ID item)%N) (visible_projects (qu_Search query)))).
Proof.
  intros Hq Hc. unfold ListProjects. rewrite Hq, Hc, live. cbn [negb rbind project_lift]. cbv zeta.
  rewrite list_loop_spec; [|cbn; lia|].
  - rewrite lives_on. cbn [rbind project_lift app]. f_equal. rewrite visible_found. apply page_of_take.
  - unfold list_fuel, found_rows. destruct (prefilter _ _) as [[all organizations] projects]. apply Nat.lt_succ_r, List.filter_length_le.
Qed.

Lemma visible_after search xs item ys :
  visible_projects search = xs ++ item :: ys → List.filter (λ i, (po_ID item <? po_ID i)%N) (visible_projects search) = ys.
Proof.
  intros Heq. rewrite Heq. apply (filter_after strictly_before (λ a b, (po_ID a <? po_ID b)%N)).
  - intros a b. apply N.ltb_lt.
  - unfold strictly_before. lia.
  - rewrite <-Heq. apply StronglySorted_bfilter, project_rows_sorted.
Qed.

(** Whoever may read a project, its identifier is set. *)
Lemma visible_set search item : item ∈ visible_projects search → po_ID item ≠ uuid_Nil.
Proof.
  intros [_ [Hr _]%andb_true_iff]%elem_of_bfilter_iff. apply Allowed_spec in Hr as (_ & g & [_ _ Hwf _ _ _] & _).
  apply (wf_nonnil _ Hwf (mkScope Project (po_ID item))). cbn. do 2 right. left.
Qed.

Lemma project_rows_elem item :
  item ∈ project_rows w ↔
  ∃ repository, di_repositories (db_directory (bw_db w)) !! po_ID item = Some repository ∧ project_row (po_ID item) repository w = Some item.
Proof.
  unfold project_rows. rewrite merge_sort_Permutation, list_elem_of_omap. split.
  - intros ([id r] & Hin%elem_of_map_to_list & Hrow). cbn in Hrow. assert (po_ID item = id) as ->; [|by exists r].
    unfold project_row in Hrow. destruct (bw_columns w !! id); [|done]. cbn in Hrow. destruct (bw_organizations w !! _); [|done].
    cbn in Hrow. destruct (_ && _); [|done]. by injection Hrow as <-.
  - intros (r & Hr & Hrow). exists (po_ID item, r). split; [by apply elem_of_map_to_list|done].
Qed.

(** The policy is asked the same question for a single project as for a listed one. *)
Lemma authorize_project repository item action :
  di_repositories (db_directory (bw_db w)) !! po_ID item = Some repository → project_row (po_ID item) repository w = Some item →
  po_ID item ≠ uuid_Nil →
  is_ok (authorize session (mkScope Project (po_ID item)) action (bw_db w)) =
  Allowed (mkPrincipal (ss_UserID session) true) (mkAccess action (project_resource instance item) uuid_Nil)
    (grants_of (ss_UserID session) (bw_db w)).
Proof.
  intros Hr Hrow Hn. unfold project_row in Hrow. destruct (bw_columns w !! _) as [columns|]; [|done]. cbn in Hrow.
  destruct (bw_organizations w !! _) as [name|]; [|done]. cbn in Hrow. destruct (_ && _) eqn:Hact; [|done].
  injection Hrow as Hitem. unfold authorize, scopeResource, active_repository. cbn [sc_Kind sc_ID]. cbv zeta.
  cbn [negb]. rewrite (bool_decide_eq_false_2 (Project = Instance_)), (bool_decide_eq_false_2 (Project = Organization)),
    (bool_decide_eq_true_2 (Project = Project)) by done.
  rewrite Hr. cbn [mbind option_bind]. rewrite Hact. cbn [rbind].
  assert ((po_Organization item).1 = rp_organization_id repository) as Horg by (by rewrite <-Hitem).
  assert (∀ p q, p = q → is_ok (if negb p then Err ErrForbidden else Ok tt : result RunError unit) = q) as Hok by (intros [] ? <-; done).
  apply Hok. unfold project_resource, resource_path. rewrite Horg, (bool_decide_eq_false_2 (po_ID item = uuid_Nil)) by done. cbn [negb].
  destruct (rp_organization_id repository =? uuid_Nil) eqn:Ho; cbn [negb app]; [|done]. bools. rewrite Ho.
  assert (∀ r, validResource r = false → Allowed (mkPrincipal (ss_UserID session) true) (mkAccess action r uuid_Nil)
    (grants_of (ss_UserID session) (bw_db w)) = false) as Hinvalid.
  { intros r Hv. unfold Allowed. cbn [rq_Resource]. by rewrite Hv, orb_true_r. }
  rewrite !Hinvalid; [done|..]; unfold validResource; cbn; by destruct (instance =? uuid_Nil).
Qed.

Lemma GetProject_readable id item :
  id ≠ uuid_Nil → GetProject sha256 waited token id w = Ok item ↔ po_ID item = id ∧ item ∈ project_rows w ∧ may_read item = true.
Proof.
  intros Hn. unfold GetProject. rewrite live. cbn [rbind project_lift]. rewrite project_rows_elem. split.
  - destruct (authorize _ _ _ _) as [[]|] eqn:Ha; [|done]. cbn [rbind project_lift].
    destruct (di_repositories _ !! id) as [repository|] eqn:Hr; [|done]. cbn [mbind option_bind].
    destruct (project_row id repository w) as [item'|] eqn:Hrow; [|done]. rewrite lives_on. cbn. intros [= ->].
    assert (po_ID item = id) as <-.
    { unfold project_row in Hrow. destruct (bw_columns w !! id); [|done]. cbn in Hrow. destruct (bw_organizations w !! _); [|done].
      cbn in Hrow. destruct (_ && _); [|done]. by injection Hrow as <-. }
    split; [done|]. split; [by exists repository|]. unfold readable. by rewrite <-(authorize_project repository), Ha.
  - intros (<- & (repository & Hr & Hrow) & Hread). unfold readable in Hread. rewrite <-(authorize_project repository) in Hread by done.
    destruct (authorize _ _ _ _) as [[]|]; [|done]. cbn [rbind project_lift]. rewrite Hr. cbn [mbind option_bind]. rewrite Hrow, lives_on. done.
Qed.

(** C39: a client that follows the cursors of the list of projects, from the first page on, sees the
    projects that the session may read by the access policy and that match the search: each once, by
    identifier, whatever the size of a page.  The loop of the query ends.  And a project can be shown
    exactly when it can be listed. *)
Theorem project_pages_complete limit search :
  Query_Validate (mkQuery limit search "") = true →
  (∀ item, item ∈ project_rows w → uuid_Parse (uuid_String (po_ID item)) = Some (po_ID item) ∧ uuid_String (po_ID item) ≠ "") →
  follow_pages (S (length (project_rows w)))
    (λ cursor, ListProjects sha256 uuid_Parse uuid_String lower waited token (mkQuery limit search cursor) w) ""
    = Some (visible_projects search) ∧
  StronglySorted strictly_before (visible_projects search) ∧
  ∀ id item, id ≠ uuid_Nil → GetProject sha256 waited token id w = Ok item ↔ po_ID item = id ∧ item ∈ project_rows w ∧ may_read item = true.
Proof.
  intros Hq Htext. split; [|split; [apply StronglySorted_bfilter, project_rows_sorted|intros id item; apply GetProject_readable]].
  set (rest := λ cursor, List.filter (λ item, (default uuid_Nil (uuid_Parse cursor) <? po_ID item)%N || (cursor =? "")) (visible_projects search)).
  assert (Hall : rest "" = visible_projects search) by (apply bfilter_all; intros; by rewrite orb_true_r).
  assert (Hvis : ∀ item, item ∈ visible_projects search → uuid_Parse (uuid_String (po_ID item)) = Some (po_ID item) ∧ uuid_String (po_ID item) ≠ "").
  { intros item [Hin _]%elem_of_bfilter_iff. by apply Htext. }
  assert (Hrest : ∀ item, item ∈ visible_projects search →
    rest (uuid_String (po_ID item)) = List.filter (λ i, (po_ID item <? po_ID i)%N) (visible_projects search)).
  { intros item Hin. destruct (Hvis item Hin) as [Hp Hne]. apply bfilter_ext. intros i _. rewrite Hp, bool_decide_eq_false_2 by done. by rewrite orb_false_r. }
  rewrite <-Hall. apply (follow_paged (uuid_String ∘ po_ID) (Z.to_nat limit)); [|by left|].
  - split.
    + unfold Query_Validate in Hq. cbn in Hq. bools. match goal with H : (_ <? 1) = false |- _ => apply Z.ltb_ge in H end. lia.
    + intros cursor Hc. rewrite Hall in Hc. destruct Hc as [-> |(item & -> & Hin)%list_elem_of_fmap].
      * rewrite (ListProjects_page (mkQuery limit search "") uuid_Nil) by done. cbn [qu_Limit qu_Search]. rewrite Hall. f_equal. f_equal.
        apply bfilter_all. intros item Hin. apply N.ltb_lt. pose proof (visible_set _ _ Hin). lia.
      * destruct (Hvis item Hin) as [Hp Hne]. cbn [compose]. rewrite (ListProjects_page (mkQuery limit search _) (po_ID item)); [|done|].
        -- cbn [qu_Limit qu_Search]. by rewrite Hrest.
        -- apply ProjectCursor_String; [done..|]. by eapply visible_set.
    + intros item Hin. rewrite Hall in Hin. by apply Hvis.
    + intros xs item ys Heq. rewrite Hall in Heq. cbn [compose]. rewrite Hrest; [by eapply visible_after|]. rewrite Heq. apply elem_of_app. right; left.
  - rewrite Hall. apply Nat.lt_succ_r, List.filter_length_le.
Qed.

(** A client that follows the cursors of the list of runs of a project sees the runs of the project,
    each once, newest first, whatever the size of a page. *)
Theorem run_pages_complete limit id :
  Query_Validate (mkQuery limit "" "") = true → authorize session (mkScope Project id) RunRead (bw_db w) = Ok tt →
  NoDup (rn_ID <$> db_runs (bw_db w)) →
  (∀ r, r ∈ db_runs (bw_db w) → rn_ProjectID r = Some id → prints uuid_Parse uuid_String time_Parse time_Format (rn_CreatedAt r) (rn_ID r)) →
  follow_pages (S (length (db_runs (bw_db w))))
    (λ cursor, ListProjectRuns sha256 uuid_Parse uuid_String time_Parse time_Format waited token id (mkQuery limit "" cursor) w) ""
    = Some (project_run <$> runs_of id (bw_db w)) ∧
  StronglySorted older (runs_of id (bw_db w)).
Proof.
  intros Hq Haz Hnd Htext. split; [|by apply StronglySorted_bfilter, newest_first_sorted].
  assert (Hin : ∀ r, r ∈ runs_of id (bw_db w) → prints uuid_Parse uuid_String time_Parse time_Format (rn_CreatedAt r) (rn_ID r)).
  { intros r [Hr Hp]%elem_of_bfilter_iff. bools. unfold newest_first in Hr. rewrite merge_sort_Permutation in Hr. by apply Htext. }
  set (name := λ r, EncodeRunCursor uuid_String time_Format (pn_CreatedAt r) (pn_ID r)).
  set (rest := λ cursor, match RunCursor uuid_Parse uuid_String time_Parse cursor with
    | Ok (stamp, after) => project_run <$> runs_after id after stamp (bw_db w)
    | Err _ => []
    end).
  assert (Hall : rest "" = project_run <$> runs_of id (bw_db w)).
  { unfold rest, RunCursor. cbn. f_equal. unfold runs_after, runs_of. apply bfilter_ext. intros r _. by rewrite andb_true_r. }
  rewrite <-Hall. apply (follow_paged name (Z.to_nat limit)); [|by left|].
  - split.
    + unfold Query_Validate in Hq. cbn in Hq. bools. match goal with H : (_ <? 1) = false |- _ => apply Z.ltb_ge in H end. lia.
    + intros cursor Hc. rewrite Hall in Hc. unfold ListProjectRuns, rest.
      assert (∃ stamp after, RunCursor uuid_Parse uuid_String time_Parse cursor = Ok (stamp, after)) as (stamp & after & Hcur).
      { destruct Hc as [-> |(item & -> & (r & -> & Hr)%list_elem_of_fmap)%list_elem_of_fmap]; [by do 2 eexists|].
        do 2 eexists. by apply RunCursor_Encode, Hin. }
      change (Query_Validate (mkQuery limit "" cursor)) with (Query_Validate (mkQuery limit "" "")). rewrite Hq. cbn [negb qu_Search qu_After qu_Limit].
      rewrite Hcur, live. cbn [rbind project_lift]. rewrite Haz. cbn [rbind project_lift]. rewrite lives_on. cbn [rbind project_lift].
      f_equal. rewrite fmap_take. apply page_of_take.
    + intros x Hx. rewrite Hall in Hx. apply list_elem_of_fmap in Hx as (r & -> & Hr). intros Hempty.
      pose proof (RunCursor_Encode _ _ _ _ _ _ (Hin r Hr)) as Hcur. unfold name in Hempty. cbn in Hempty. rewrite Hempty in Hcur.
      injection Hcur as _ Heq. destruct (pr_set _ _ _ _ _ _ (Hin r Hr)) as [Hne _]. by rewrite <-Heq in Hne.
    + intros xs x ys Heq. rewrite Hall in Heq. apply fmap_app_inv in Heq as (rs & rs' & -> & Heq & Hruns).
      symmetry in Heq. apply fmap_cons_inv in Heq as (r & rs'' & -> & -> & ->).
      assert (r ∈ runs_of id (bw_db w)) as Hr by (rewrite Hruns; apply elem_of_app; right; left).
      unfold rest, name. cbn. rewrite RunCursor_Encode by auto. f_equal.
      apply (runs_of_after _ _ rs); [done| |done]. apply (pr_set _ _ _ _ _ _ (Hin r Hr)).
  - rewrite Hall, length_fmap. unfold runs_of, newest_first. apply Nat.lt_succ_r.
    etransitivity; [apply List.filter_length_le|]. by rewrite merge_sort_Permutation.
Qed.
End Lists.

(** ** Examples *)

(** Three projects of an organization, of which the user is a viewer, and three runs of the first. *)
Definition ls_ids : list uuid := [3; 5; 6; 50; 51; 52]%N.
Definition ls_uuid_String (id : uuid) : string :=
  ("00000000-0000-0000-0000-0000000000" +:+ (if (id <? 10)%N then "0" else "") +:+ FormatInt (Z.of_N id))%string.
Definition ls_uuid_Parse (s : string) : option uuid := snd <$> list_find (λ id, ls_uuid_String id = s) ls_ids.
Definition ls_time_Format (t : time) : string := FormatInt t.
Definition ls_time_Parse (s : string) : option time := ParseInt s.
Definition ls_sha256 (s : string) : string := s.

Definition ls_token : string := NewToken (replicate 32 "l"%char).
Definition ls_session : Session := mkSession 30 20 "Ada" (24 * Hour).
Definition ls_run (id : uuid) (created : time) : RunRecord :=
  mkRun id (Some 3%N) None None "" "demo" "push" "refs/heads/main" "" StatusQueued "" "" created None None.

Definition ls_browser : browser :=
  let repository := mkRepositoryRow 2 "github" "77" "" true in
  let directory := mkDirectory 1 {[2%N]} (<[3%N := repository]> (<[5%N := repository]> {[6%N := repository]})) ∅
    {[20%N := mkUserRow "Ada" true]} [mkSessionRow 30 20 ls_token (24 * Hour) false]
    [mkMembershipRow 40 20 Viewer (mkScope Organization 2)] in
  let columns name := mkRepositoryColumns "acme" name "main" false in
  mkBrowser (mkDatabase [ls_run 50 1; ls_run 51 2; ls_run 52 2] ∅ [] ∅ [] [] ∅ ∅ directory Hour)
    (<[3%N := columns "api"]> (<[5%N := columns "app"]> {[6%N := columns "web"]})) {[2%N := "Acme"]}.

Lemma project_pages_complete_witness :
  po_ID <$> visible_projects (λ s, s) ls_session ls_browser "a" = [3; 5; 6]%N ∧
  follow_pages 4 (λ cursor, ListProjects ls_sha256 ls_uuid_Parse ls_uuid_String (λ s, s) Second ls_token (mkQuery 2 "a" cursor) ls_browser) ""
    = Some (visible_projects (λ s, s) ls_session ls_browser "a").
Proof.
  split; [vm_compute; reflexivity|].
  refine (proj1 (project_pages_complete ls_sha256 ls_uuid_Parse ls_uuid_String (λ s, s) Second ls_token ls_session ls_browser
    _ _ 2 "a" _ _)); [vm_compute; reflexivity..|].
  intros item Hin. apply (list_elem_of_fmap_2 po_ID) in Hin.
  assert (Hids : po_ID <$> project_rows ls_browser = [3; 5; 6]%N) by (vm_compute; reflexivity). rewrite Hids in Hin.
  generalize dependent (po_ID item). intros id Hin. rewrite !elem_of_cons, elem_of_nil in Hin.
  destruct Hin as [-> |[-> |[-> |[]]]]; (split; [vm_compute; reflexivity|vm_compute; discriminate]).
Defined.

Lemma run_pages_complete_witness :
  follow_pages 4 (λ cursor, ListProjectRuns ls_sha256 ls_uuid_Parse ls_uuid_String ls_time_Parse ls_time_Format Second ls_token 3
    (mkQuery 1 "" cursor) ls_browser) "" = Some (project_run <$> [ls_run 52 2; ls_run 51 2; ls_run 50 1]).
Proof.
  refine (proj1 (run_pages_complete ls_sha256 ls_uuid_Parse ls_uuid_String ls_time_Parse ls_time_Format Second ls_token ls_session ls_browser
    _ _ 1 3 _ _ _ _)); [vm_compute; reflexivity..| |].
  - apply (bool_decide_unpack _). vm_compute. exact I.
  - intros r Hin _. change (r ∈ [ls_run 50 1; ls_run 51 2; ls_run 52 2]) in Hin. rewrite !elem_of_cons, elem_of_nil in Hin.
    destruct Hin as [-> |[-> |[-> |[]]]];
      (split; [vm_compute; reflexivity|vm_compute; reflexivity| |split; [vm_compute; reflexivity|vm_compute; discriminate]|split; discriminate]);
      split; apply (bool_decide_unpack _); vm_compute; exact I.
Defined.
