(* ===== verification/GithubClient.v ===== *)
(** internal/integration/types.go and github.go: the client of GitHub that verifies the App,
    exchanges codes, lists installations and repositories, draws tokens that are limited to
    one repository, reads pipelines and posts commit statuses.

    [exchange] is the transport: it answers a request, or [None] when the request could not
    be made or was not answered.  The JSON decoders and what the code uses of encoding/pem,
    crypto/x509 and crypto/rsa are arguments. *)

From S2P Require Import Prelude GoStd Regex Codecs RunnerAuth Database Identity Secrets SignIn.

(** ** net/url: [PathEscape], [QueryEscape] and [Values.Encode] *)

Definition upper_hex (n : Z) : ascii := default zero (chars "0123456789ABCDEF" !! Z.to_nat n).
Definition escape_byte (c : ascii) : bytes :=
  let v := Z.of_N (N_of_ascii c) in ["%"%char; upper_hex (v / 16); upper_hex (v mod 16)%Z].
Definition unreserved (c : ascii) : bool := is_alnum c || one_of "-_.~" c.

Definition path_escape_byte (c : ascii) : bytes :=
  if unreserved c || one_of "$&+:=@" c then [c] else escape_byte c.
Definition PathEscape (s : string) : string := of_chars (mjoin (path_escape_byte <$> chars s)).

Definition query_escape_byte (c : ascii) : bytes :=
  if unreserved c then [c] else if c =? " "%char then ["+"%char] else escape_byte c.
Definition QueryEscape (s : string) : string := of_chars (mjoin (query_escape_byte <$> chars s)).

(** Sorted by key. *)
Definition key_before (a b : string * string) : Prop := String.leb a.1 b.1 = true.
#[export] Instance key_before_dec : RelDecision key_before.
Proof. intros a b. unfold key_before. apply _. Defined.
Definition Values_Encode (values : list (string * string)) : string :=
  Join ((λ x, QueryEscape x.1 +:+ "=" +:+ QueryEscape x.2)%string <$> merge_sort key_before values) "&".

(** ** types.go *)

Inductive ScmError :=
| ErrConfig | ErrStale | ErrRemote | ErrRate | ErrAccess | ErrWebhookUnavailable
| ScSignIn (e : SignInError).   (** an error of sign-in, of the run store or of the database *)
#[export] Instance ScmError_eq_dec : EqDecision ScmError.
Proof. solve_decision. Defined.

Record App := mkApp {
  ap_LoginID : uuid;
  ap_ID : uuid;
  ap_AppID : string;
  ap_Slug : string;
  ap_ClientID : string;
  ap_Key : Envelope;
  ap_WebhookSecret : Envelope;
  ap_WebhookSecretPresent : bool;
  ap_WebhookEnabled : bool;
  ap_WebhookSecretVersion : Z;
}.
#[export] Instance App_eq_dec : EqDecision App.
Proof. solve_decision. Defined.

Record Proof_ := mkProof { pf_ID : uuid; pf_Subject : string; pf_Token : Envelope; pf_ExpiresAt : time }.
#[export] Instance Proof_eq_dec : EqDecision Proof_.
Proof. solve_decision. Defined.

Record Snapshot := mkSnapshot {
  sn_FlowID : uuid;
  sn_LoginID : uuid;
  sn_ClientID : string;
  sn_Secret : Envelope;
  sn_Subjects : list string;
  sn_App : option App;
  sn_Proof : option Proof_;
}.

Record Installation := mkInstallation { in_ID : string; in_AccountID : string; in_Account : string }.
#[export] Instance Installation_eq_dec : EqDecision Installation.
Proof. solve_decision. Defined.

(** [integration.Repository] *)
Record HostRepository := mkHostRepository { hp_ID : string; hp_Owner : string; hp_Name : string; hp_DefaultBranch : string }.
#[export] Instance HostRepository_eq_dec : EqDecision HostRepository.
Proof. solve_decision. Defined.

Record RepoPage := mkRepoPage { rg_Items : list HostRepository; rg_NextPage : Z }.
Record Imported := mkImported { im_ID : uuid; im_Name : string; im_Created : bool }.
#[export] Instance Imported_eq_dec : EqDecision Imported.
Proof. solve_decision. Defined.

(** [scm.CommitStatus] *)
Record CommitStatus := mkCommitStatus {
  ct_SHA : string;
  ct_Context : string;
  ct_State : string;
  ct_Description : string;
  ct_TargetURL : string;
}.

Definition empty_envelope : Envelope := mkEnvelope [] [] [] [].

(** ** Requests *)

Record httpRequest := mkHttpRequest {
  hq_Method : string;
  hq_URL : string;
  hq_Accept : string;
  hq_Authorization : string;   (** empty when the header is not set *)
  hq_ContentType : string;     (** empty when the header is not set *)
  hq_Body : string;
}.
#[export] Instance httpRequest_eq_dec : EqDecision httpRequest.
Proof. solve_decision. Defined.

Record httpResponse := mkHttpResponse {
  hs_StatusCode : Z;
  hs_Remaining : string;       (** X-RateLimit-Remaining *)
  hs_RetryAfter : string;
  hs_Body : option bytes;      (** [None] when it cannot be read *)
}.

Definition slugPattern : regex := RSeq (RClass is_alnum) (RUpTo 99 (RClass (λ c, is_alnum c || one_of "_-" c))).
Definition repo_char (c : ascii) : bool := is_alnum c || one_of "_.-" c.
Definition repoPattern : regex := RSeq (RClass repo_char) (RUpTo 99 (RClass repo_char)).
Definition commitPattern : regex :=
  RTimes 40 (RClass (λ c, is_digit c || in_range "a" "f" c || in_range "A" "F" c)).

(** What no token may contain. *)
Definition token_breaks : string := (" " +:+ line_breaks)%string.

Definition api : string := "https://api.github.com".

Definition rate_limited (res : httpResponse) : bool :=
  (hs_StatusCode res =? 429) || ((hs_StatusCode res =? 403) && ((hs_Remaining res =? "0") || (hs_RetryAfter res <>? ""))).
Definition refused (res : httpResponse) : bool :=
  (hs_StatusCode res =? 401) || (hs_StatusCode res =? 403) || (hs_StatusCode res =? 404).

Definition runtimeResponseError (res : httpResponse) (expected : Z) : result ScmError unit :=
  if hs_StatusCode res =? expected then Ok tt
  else if rate_limited res then Err ErrRate
  else if refused res then Err ErrAccess
  else Err ErrRemote.

(** A body of at most [limit] bytes: [io.ReadAll] of an [io.LimitReader]. *)
Definition read_body (limit : Z) (res : httpResponse) : result ScmError bytes :=
  match hs_Body res with
  | Some data => if limit <? Zlen data then Err ErrRemote else Ok data
  | None => Err ErrRemote
  end.

Definition runtimeRepositoryPath (value : string) : result ScmError string :=
  if (value =? "") || HasPrefix value "/" || Contains value "\" then Err ErrConfig
  else
    let parts := Split value "/"%char in
    if existsb (λ part, (part =? "") || (part =? ".") || (part =? "..") || ContainsAny part line_breaks) parts then Err ErrConfig
    else Ok (Join (PathEscape <$> parts) "/").

(** ** Replies *)

Record appReply := mkAppReply { ay_ID : Z; ay_Slug : string; ay_ClientID : string }.
Record tokenReply := mkTokenReply { ty_Token : string; ty_Type : string; ty_Error : string; ty_Expires : Z }.
Record installationReply := mkInstallationReply {
  iy_ID : Z;
  iy_AppID : Z;
  iy_Suspended : option string;
  iy_AccountID : Z;
  iy_AccountLogin : string;
}.
Record repositoryReply := mkRepositoryReply {
  py_ID : Z;
  py_Name : string;
  py_DefaultBranch : string;
  py_OwnerLogin : string;
  py_Admin : bool;
}.
Record accessTokenReply := mkAccessTokenReply {
  cy_Token : string;
  cy_ExpiresAt : time;
  cy_Repositories : list Z;
  cy_Permissions : gmap string string;
}.

(** What the client uses of the libraries. *)
Record decoders := mkDecoders {
  dc_app : bytes → option appReply;
  dc_token : bytes → option tokenReply;
  dc_user : bytes → option Z;
  dc_installation : bytes → option installationReply;
  dc_installations : bytes → option (list installationReply);
  dc_repositories : bytes → option (Z * list repositoryReply);   (** total_count and repositories *)
  dc_access : bytes → option accessTokenReply;
  dc_commit : bytes → option string;
}.

Record rsa (Key : Type) := mkRsa {
  rs_Decode : bytes → option pemBlock * bytes;                  (** [pem.Decode] *)
  rs_PKCS1 : bytes → option Key;                                (** [x509.ParsePKCS1PrivateKey] *)
  rs_PKCS8 : bytes → option (option Key);                       (** [x509.ParsePKCS8PrivateKey], when it is of RSA *)
  rs_BitLen : Key → Z;
  rs_Validate : Key → bool;
  rs_Sign : Key → string → option bytes;                        (** [rsa.SignPKCS1v15] of a digest *)
}.
Arguments rs_Decode {Key} _.
Arguments rs_PKCS1 {Key} _.
Arguments rs_PKCS8 {Key} _.
Arguments rs_BitLen {Key} _.
Arguments rs_Validate {Key} _.
Arguments rs_Sign {Key} _.

Section Client.
Context {Key : Type}.
Variable crypto : rsa Key.
Variable sha256 : string → string.
(** A string as [json.Marshal] writes it. *)
Variable json_string : string → string.
Variable json : decoders.
Variable exchange : httpRequest → option httpResponse.

Definition json_object (fields : list (string * string)) : string :=
  ("{" +:+ Join ((λ x, json_string x.1 +:+ ":" +:+ x.2)%string <$> fields) "," +:+ "}")%string.

Definition parseKey (data : bytes) : result ScmError Key :=
  if 16 * 2 ^ 10 <? Zlen data then Err ErrConfig
  else match rs_Decode crypto data with
  | (None, _) => Err ErrConfig
  | (Some block, rest) =>
    fail_if (TrimSpace (of_chars rest) <>? "") || bool_decide (pb_Headers block ≠ ∅) with ErrConfig;;
    let key :=
      if pb_Type block =? "RSA PRIVATE KEY" then rs_PKCS1 crypto (pb_Bytes block)
      else if pb_Type block =? "PRIVATE KEY" then rs_PKCS8 crypto (pb_Bytes block) ≫= id
      else None in
    match key with
    | Some key =>
      if (rs_BitLen crypto key <? 2048) || (4096 <? rs_BitLen crypto key) || negb (rs_Validate crypto key) then Err ErrConfig
      else Ok key
    | None => Err ErrConfig
    end
  end.

(** [time.Time.Unix] *)
Definition Unix (t : time) : Z := t / Second.

Definition appJWT (now : time) (clientID : string) (data : bytes) : result ScmError string :=
  let? key := parseKey data in
  let claims := json_object [("exp", FormatInt (Unix (now + 5 * Minute))); ("iat", FormatInt (Unix (now - Minute)));
    ("iss", json_string clientID)] in
  let header := json_object [("alg", json_string "RS256"); ("typ", json_string "JWT")] in
  let part (text : bytes) := of_chars (encode RawURLEncoding text) in
  let unsigned := (part (chars header) +:+ "." +:+ part (chars claims))%string in
  match rs_Sign crypto key (sha256 unsigned) with
  | Some signature => Ok (unsigned +:+ "." +:+ part signature)%string
  | None => Err ErrConfig
  end.

Definition request {A} (decode : bytes → option A) (method path token : string) (body : option string) : result ScmError A :=
  let endpoint := if path =? "/login/oauth/access_token" then ("https://github.com" +:+ path)%string else (api +:+ path)%string in
  fail_if (token <>? "") && ((8192 <? len token) || ContainsAny token token_breaks) with ErrRemote;;
  match exchange (mkHttpRequest method endpoint "application/json"
          (if token =? "" then "" else "Bearer " +:+ token)%string
          (match body with Some _ => "application/x-www-form-urlencoded" | None => "" end) (default "" body)) with
  | None => Err ErrRemote
  | Some res =>
    fail_if rate_limited res with ErrRate;;
    fail_if refused res with ErrAccess;;
    fail_if hs_StatusCode res <>? 200 with ErrRemote;;
    let? data := read_body (2 * 2 ^ 20) res in
    match decode data with Some a => Ok a | None => Err ErrRemote end
  end.

Definition VerifyApp (now : time) (clientID : string) (key : bytes) : result ScmError App :=
  let? jwt := appJWT now clientID key in
  let? raw := request (dc_app json) "GET" "/app" jwt None in
  fail_if (ay_ID raw <=? 0) || (ay_ClientID raw <>? clientID) || negb (re_match slugPattern (ay_Slug raw)) with ErrConfig;;
  Ok (mkApp uuid_Nil uuid_Nil (FormatInt (ay_ID raw)) (ay_Slug raw) (ay_ClientID raw) empty_envelope empty_envelope false false 0).

Definition PKCEChallenge (verifier : string) : string := of_chars (encode RawURLEncoding (chars (sha256 verifier))).

Definition AuthorizationURL (clientID callback state verifier : string) : string :=
  ("https://github.com/login/oauth/authorize?" +:+
   Values_Encode [("client_id", clientID); ("redirect_uri", callback); ("state", state);
     ("code_challenge", PKCEChallenge verifier); ("code_challenge_method", "S256"); ("allow_signup", "false");
     ("prompt", "select_account")])%string.

(** [now] is the clock when the token has arrived; the subject, the token and its expiry. *)
Definition Exchange (now : time) (clientID secret callback code verifier : string) : result ScmError (string * string * time) :=
  fail_if (code =? "") || (1024 <? len code) with ErrRemote;;
  fail_if bool_decide (TokenDigest sha256 verifier = None) with ErrRemote;;
  let q := [("client_id", clientID); ("client_secret", secret); ("redirect_uri", callback); ("code", code); ("code_verifier", verifier)] in
  let? reply := request (dc_token json) "POST" "/login/oauth/access_token" "" (Some (Values_Encode q)) in
  fail_if (ty_Expires reply <? 0) || (ty_Error reply <>? "") || (ty_Token reply =? "") || negb (EqualFold (ty_Type reply) "bearer")
    || (8192 <? len (ty_Token reply)) || ContainsAny (ty_Token reply) token_breaks with ErrRemote;;
  let ttl := if (0 <? ty_Expires reply) && (ty_Expires reply <? 600) then ty_Expires reply * Second else 10 * Minute in
  let? user := request (dc_user json) "GET" "/user" (ty_Token reply) None in
  fail_if user <=? 0 with ErrAccess;;
  Ok (FormatInt user, ty_Token reply, now + ttl).

Definition listed_installation (raw : installationReply) : list Installation :=
  if (0 <? iy_ID raw) && (0 <? iy_AccountID raw) && bool_decide (iy_Suspended raw = None)
     && re_match slugPattern (iy_AccountLogin raw)
  then [mkInstallation (FormatInt (iy_ID raw)) (FormatInt (iy_AccountID raw)) (iy_AccountLogin raw)] else [].

(** The pages from [page] on, [pages] of them at most. *)
Fixpoint installation_pages (pages : nat) (page : Z) (token : string) (items : list Installation) : result ScmError (list Installation) :=
  match pages with
  | O => Err ErrRemote
  | S pages =>
    let? reply := request (dc_installations json) "GET" ("/user/installations?per_page=100&page=" +:+ FormatInt page)%string token None in
    fail_if 100 <? Z.of_nat (length reply) with ErrRemote;;
    let items := items ++ mjoin (listed_installation <$> reply) in
    if Z.of_nat (length reply) <? 100 then Ok items else installation_pages pages (page + 1) token items
  end.
Definition Installations (token : string) : result ScmError (list Installation) := installation_pages 10 1 token [].

Definition VerifyInstallation (now : time) (app : App) (key : bytes) (install : Installation) : result ScmError unit :=
  fail_if negb (ValidGitHubSubject (in_ID install)) with ErrAccess;;
  let? jwt := appJWT now (ap_ClientID app) key in
  let? raw := request (dc_installation json) "GET" ("/app/installations/" +:+ in_ID install)%string jwt None in
  fail_if (FormatInt (iy_ID raw) <>? in_ID install) || (FormatInt (iy_AppID raw) <>? ap_AppID app)
    || bool_decide (iy_Suspended raw ≠ None) || (FormatInt (iy_AccountID raw) <>? in_AccountID install)
    || (iy_AccountLogin raw <>? in_Account install) with ErrAccess;;
  Ok tt.

Definition repository_listed (raw : repositoryReply) : bool :=
  py_Admin raw && (0 <? py_ID raw) && re_match slugPattern (py_OwnerLogin raw) && re_match repoPattern (py_Name raw)
  && (py_Name raw <>? ".") && (py_Name raw <>? "..") && (len (py_DefaultBranch raw) <=? 255)
  && negb (ContainsAny (py_DefaultBranch raw) line_breaks).

Definition Repositories (token installID : string) (page : Z) : result ScmError RepoPage :=
  fail_if negb (ValidGitHubSubject installID) || (page <? 1) || (100 <? page) with ErrConfig;;
  let? '(total, items) := request (dc_repositories json) "GET"
    ("/user/installations/" +:+ installID +:+ "/repositories?per_page=100&page=" +:+ FormatInt page)%string token None in
  fail_if (total <? 0) || (100 <? Z.of_nat (length items)) with ErrRemote;;
  let listed := (λ raw, mkHostRepository (FormatInt (py_ID raw)) (py_OwnerLogin raw) (py_Name raw) (py_DefaultBranch raw))
    <$> List.filter repository_listed items in
  if page * 100 <? total then
    fail_if page =? 100 with ErrRemote;;
    Ok (mkRepoPage listed (page + 1))
  else Ok (mkRepoPage listed 0).

(** ** Access to one repository *)

Definition github_json : string := "application/vnd.github+json".

Definition repositoryToken (now : time) (clientID : string) (key : bytes) (installID repositoryID permissionName permissionValue : string)
    : result ScmError (string * time) :=
  fail_if negb (ValidGitHubSubject installID) || negb (ValidGitHubSubject repositoryID) with ErrConfig;;
  match ParseInt repositoryID with
  | None => Err ErrConfig
  | Some repositoryNumber =>
    fail_if repositoryNumber <=? 0 with ErrConfig;;
    let? jwt := appJWT now clientID key in
    let body := json_object [("permissions", json_object [(permissionName, json_string permissionValue)]);
      ("repository_ids", ("[" +:+ FormatInt repositoryNumber +:+ "]")%string)] in
    match exchange (mkHttpRequest "POST" (api +:+ "/app/installations/" +:+ installID +:+ "/access_tokens")%string github_json
            ("Bearer " +:+ jwt)%string "application/json" body) with
    | None => Err ErrRemote
    | Some response =>
      let? _ := runtimeResponseError response 201 in
      let? data := read_body (64 * 2 ^ 10) response in
      match dc_access json data with
      | None => Err ErrRemote
      | Some reply =>
        fail_if (len (cy_Token reply) <? 1) || (8192 <? len (cy_Token reply)) || ContainsAny (cy_Token reply) token_breaks
          || (cy_Repositories reply <>? [repositoryNumber])
          || (default "" (cy_Permissions reply !! permissionName) <>? permissionValue) with ErrRemote;;
        fail_if existsb (λ x, negb (((x.1 =? "metadata") && (x.2 =? "read")) || ((x.1 =? permissionName) && (x.2 =? permissionValue)))
            && ((x.1 <>? "metadata") || (x.2 <>? "read"))) (map_to_list (cy_Permissions reply)) with ErrAccess;;
        Ok (cy_Token reply, cy_ExpiresAt reply)
      end
    end
  end.

Definition InstallationToken (now : time) (clientID : string) (key : bytes) (installID repositoryID : string) :=
  repositoryToken now clientID key installID repositoryID "contents" "read".
Definition CommitStatusToken (now : time) (clientID : string) (key : bytes) (installID repositoryID : string) :=
  repositoryToken now clientID key installID repositoryID "statuses" "write".

(** The checks on a token and on the name of a repository that the requests share. *)
Definition token_refused (token : string) : bool := (len token <? 1) || (8192 <? len token) || ContainsAny token token_breaks.
Definition name_refused (owner name : string) : bool :=
  negb (re_match repoPattern owner) || negb (re_match repoPattern name) || (owner =? ".") || (owner =? "..") || (name =? ".")
  || (name =? "..").
Definition repository_url (owner name : string) : string :=
  (api +:+ "/repos/" +:+ PathEscape owner +:+ "/" +:+ PathEscape name)%string.

Definition status_request (token owner name : string) (status : CommitStatus) : result ScmError httpRequest :=
  fail_if token_refused token || name_refused owner name || negb (re_match commitPattern (ct_SHA status))
    || (len (ct_Context status) <? 1) || (100 <? len (ct_Context status)) || (len (ct_Description status) <? 1)
    || (140 <? len (ct_Description status)) || (2048 <? len (ct_TargetURL status)) with ErrConfig;;
  fail_if bool_decide (ct_State status ∉ ["pending"; "success"; "failure"; "error"]) with ErrConfig;;
  let body := json_object [("context", json_string (ct_Context status)); ("description", json_string (ct_Description status));
    ("state", json_string (ct_State status)); ("target_url", json_string (ct_TargetURL status))] in
  fail_if 4096 <? len body with ErrConfig;;
  Ok (mkHttpRequest "POST" (repository_url owner name +:+ "/statuses/" +:+ ToLower (ct_SHA status))%string github_json
        ("Bearer " +:+ token)%string "application/json" body).

Definition SetCommitStatus (token owner name : string) (status : CommitStatus) : result ScmError unit :=
  let? r := status_request token owner name status in
  match exchange r with
  | None => Err ErrRemote
  | Some response =>
    let? _ := runtimeResponseError response 201 in
    let? _ := read_body (64 * 2 ^ 10) response in
    Ok tt
  end.

(** The address has no query before [ref] is set; [sha] needs no escape. *)
Definition file_request (token owner name filePath sha : string) : result ScmError httpRequest :=
  fail_if token_refused token || name_refused owner name || negb (re_match commitPattern sha) with ErrConfig;;
  let? escapedPath := runtimeRepositoryPath filePath in
  Ok (mkHttpRequest "GET" (repository_url owner name +:+ "/contents/" +:+ escapedPath +:+ "?" +:+ Values_Encode [("ref", sha)])%string
        "application/vnd.github.raw+json" ("Bearer " +:+ token)%string "" "").

Definition RepositoryFile (token owner name filePath sha : string) : result ScmError bytes :=
  let? r := file_request token owner name filePath sha in
  match exchange r with
  | None => Err ErrRemote
  | Some response => let? _ := runtimeResponseError response 200 in read_body (2 ^ 20) response
  end.

Definition commit_request (token owner name ref : string) : result ScmError httpRequest :=
  fail_if token_refused token || name_refused owner name || (len ref <? 1) || (255 <? len ref) || HasPrefix ref "/"
    || ContainsAny ref line_breaks with ErrConfig;;
  let? _ := runtimeRepositoryPath ref in
  Ok (mkHttpRequest "GET" (repository_url owner name +:+ "/commits/" +:+ PathEscape ref)%string github_json
        ("Bearer " +:+ token)%string "" "").

Definition RepositoryCommit (token owner name ref : string) : result ScmError string :=
  let? r := commit_request token owner name ref in
  match exchange r with
  | None => Err ErrRemote
  | Some response =>
    let? _ := runtimeResponseError response 200 in
    let? data := read_body (64 * 2 ^ 10) response in
    match dc_commit json data with
    | Some sha => if negb (re_match commitPattern sha) then Err ErrRemote else Ok (ToLower sha)
    | None => Err ErrRemote
    end
  end.
End Client.
