(* ===== verification/Integration.v ===== *)
(** internal/store/postgres/integration.go and github_runtime.go: the GitHub App, the
    authorizations of administrators to import repositories, and the import itself.

    All of these transactions but [WebhookIntegration] and [ResolveGitHubRepository], which
    only read, hold the lock of [oauthLock]: they run one after the other. *)

From S2P Require Import Prelude GoStd RunModel Authorization Codecs Database Identity Secrets SignIn GithubClient.

(** ** Tables (migrations 5, 6 and 10) *)

Record appConfigRow := mkAppConfigRow {
  gc_id : uuid;
  gc_login_config_id : uuid;
  gc_app_id : Z;
  gc_client_id : string;
  gc_slug : string;
  gc_encrypted_key : Envelope;
  gc_webhook_secret : option Envelope;
  gc_webhook_enabled : bool;
  gc_webhook_secret_version : Z;
  gc_webhook_secret_updated_at : option time;
}.

Record importFlowRow := mkImportFlowRow {
  if_id : uuid;
  if_session_id : uuid;
  if_state_hash : string;
  if_nonce_hash : string;
  if_login_id : uuid;
  if_app_revision : uuid;
  if_consumed : bool;
  if_expires_at : time;
}.

Record importProofRow := mkImportProofRow {
  ip_id : uuid;
  ip_session_id : uuid;
  ip_login_id : uuid;
  ip_app_revision : uuid;
  ip_encrypted_token : Envelope;
  ip_expires_at : time;
  ip_github_subject : string;
}.

Record installationRow := mkInstallationRow { il_app_id : Z; il_account_id : Z; il_checked_at : time }.

(** The columns of [repositories] beside those of Database.v. *)
Record bindingRow := mkBindingRow {
  rb_provider_instance : string;
  rb_owner : string;
  rb_name : string;
  rb_default_branch : string;
  rb_installation_id : option Z;
}.

(** The tables of Database.v and SignIn.v, those of the integration, and the columns of
    repositories and organizations ([slug], [display_name]) that they do not hold. *)
Record integrations := mkIntegrations {
  ig_signin : signin;
  ig_app : option appConfigRow;
  ig_flows : list importFlowRow;
  ig_proofs : list importProofRow;
  ig_accounts : gmap Z uuid;                     (** account_id to organization_id *)
  ig_installations : gmap Z installationRow;
  ig_bindings : gmap uuid bindingRow;
  ig_organizations : gmap uuid (string * string);
}.

Definition ig_now (g : integrations) : time := si_now (ig_signin g).
Definition ig_db (g : integrations) : database := si_db (ig_signin g).

Definition with_signin (x : signin) (g : integrations) : integrations :=
  mkIntegrations x (ig_app g) (ig_flows g) (ig_proofs g) (ig_accounts g) (ig_installations g) (ig_bindings g) (ig_organizations g).
Definition with_app (x : option appConfigRow) (g : integrations) : integrations :=
  mkIntegrations (ig_signin g) x (ig_flows g) (ig_proofs g) (ig_accounts g) (ig_installations g) (ig_bindings g) (ig_organizations g).
Definition with_import_flows (x : list importFlowRow) (g : integrations) : integrations :=
  mkIntegrations (ig_signin g) (ig_app g) x (ig_proofs g) (ig_accounts g) (ig_installations g) (ig_bindings g) (ig_organizations g).
Definition with_proofs (x : list importProofRow) (g : integrations) : integrations :=
  mkIntegrations (ig_signin g) (ig_app g) (ig_flows g) x (ig_accounts g) (ig_installations g) (ig_bindings g) (ig_organizations g).
Definition with_accounts (x : gmap Z uuid) (g : integrations) : integrations :=
  mkIntegrations (ig_signin g) (ig_app g) (ig_flows g) (ig_proofs g) x (ig_installations g) (ig_bindings g) (ig_organizations g).
Definition with_installations (x : gmap Z installationRow) (g : integrations) : integrations :=
  mkIntegrations (ig_signin g) (ig_app g) (ig_flows g) (ig_proofs g) (ig_accounts g) x (ig_bindings g) (ig_organizations g).
Definition with_bindings (x : gmap uuid bindingRow) (g : integrations) : integrations :=
  mkIntegrations (ig_signin g) (ig_app g) (ig_flows g) (ig_proofs g) (ig_accounts g) (ig_installations g) x (ig_organizations g).
Definition with_organization_columns (x : gmap uuid (string * string)) (g : integrations) : integrations :=
  mkIntegrations (ig_signin g) (ig_app g) (ig_flows g) (ig_proofs g) (ig_accounts g) (ig_installations g) (ig_bindings g) x.
Definition with_ig_db (x : database) (g : integrations) : integrations := with_signin (with_db x (ig_signin g)) g.

Definition with_places (organizations : gset uuid) (repositories : gmap uuid repositoryRow) (d : database) : database :=
  let di := db_directory d in
  with_directory (mkDirectory (di_instance di) organizations repositories (di_environments di)
    (di_users di) (di_sessions di) (di_memberships di)) d.

Definition ig_audit (actor : settingsActor) (action resource : string) (id : uuid) (g : integrations) : integrations :=
  with_signin (audit (Some (ss_UserID (sa_session actor))) action resource id (ig_signin g)) g.

Abbreviation ErrScmDatabase := (ScSignIn (SiRun ErrDatabase)) (only parsing).

Definition sign_lift {A} (r : result SignInError A) : result ScmError A :=
  match r with Ok a => Ok a | Err e => Err (ScSignIn e) end.

(** [array_agg(external_id ORDER BY external_id)] *)
Definition text_before (a b : string) : Prop := String.leb a b = true.
#[export] Instance text_before_dec : RelDecision text_before.
Proof. intros a b. unfold text_before. apply _. Defined.
Definition subjects_of (user : uuid) (s : signin) : list string :=
  merge_sort text_before
    (ex_external_id <$> List.filter (λ x, (ex_user_id x =? user) && (ex_provider x =? "github") && (ex_instance x =? GitHubInstance))
      (si_identities s)).

(** ** Rows and values *)

(** The columns of the App as [integrationSnapshot] scans them. *)
Definition scan_app (row : appConfigRow) : App :=
  mkApp (gc_login_config_id row) (gc_id row) (FormatInt (gc_app_id row)) (gc_slug row) (gc_client_id row) (gc_encrypted_key row)
    (default empty_envelope (gc_webhook_secret row)) (bool_decide (gc_webhook_secret row ≠ None)) (gc_webhook_enabled row)
    (gc_webhook_secret_version row).

Definition scan_proof (row : importProofRow) : Proof_ :=
  mkProof (ip_id row) (ip_github_subject row) (ip_encrypted_token row) (ip_expires_at row).

Section Store.
Variable sha256 : string → string.

Definition integrationSnapshot (actor : settingsActor) (g : integrations) : result ScmError Snapshot :=
  let s := ig_signin g in
  match active_config s with
  | None => Err ErrStale
  | Some login =>
    let subjects := subjects_of (ss_UserID (sa_session actor)) s in
    fail_if bool_decide (subjects = []) with ErrAccess;;
    let proof_of (row : appConfigRow) := snd <$> list_find (λ p,
      ip_session_id p = ss_ID (sa_session actor) ∧ ip_login_id p = lc_id login ∧ ip_app_revision p = gc_id row
      ∧ ig_now g < ip_expires_at p ∧ ip_github_subject p ∈ subjects) (ig_proofs g) in
    Ok (mkSnapshot uuid_Nil (lc_id login) (lc_client_id login) (lc_encrypted_secret login) subjects
          (scan_app <$> ig_app g) (scan_proof <$> (ig_app g ≫= proof_of)))
  end.

(** [fn] returns the new tables and a value. *)
Definition integrationTx {A} (token : string) (recent : bool)
    (fn : settingsActor → Snapshot → integrations → result ScmError (integrations * A)) (g : integrations)
    : integrations * result ScmError A :=
  let body :=
    let? actor := sign_lift (settingsAccess sha256 (mkSettingsAccess token "") recent (ig_signin g)) in
    let? snap := integrationSnapshot actor g in
    let? '(g', a) := fn actor snap g in
    let? _ := sign_lift (lift (sessionLive (sa_session actor) (ig_db g'))) in
    Ok (g', a) in
  match body with Ok (g', a) => (g', Ok a) | Err e => (g, Err e) end.

Definition IntegrationContext (token : string) (recent : bool) (g : integrations) : result ScmError Snapshot :=
  (integrationTx token recent (λ _ snap g, Ok (g, snap)) g).2.

Definition sameIntegration (a b : Snapshot) (proof : bool) : result ScmError unit :=
  fail_if (sn_LoginID a <>? sn_LoginID b) || (sn_Subjects a <>? sn_Subjects b)
    || xorb (bool_decide (sn_App a = None)) (bool_decide (sn_App b = None)) with ErrStale;;
  fail_if bool_decide (sn_App a ≠ None) && (ap_ID <$> sn_App a <>? ap_ID <$> sn_App b) with ErrStale;;
  fail_if proof && match sn_App a with
    | None => true
    | Some app => (ap_LoginID app <>? sn_LoginID a) || bool_decide (sn_Proof a = None) || bool_decide (sn_Proof b = None)
                  || (pf_ID <$> sn_Proof a <>? pf_ID <$> sn_Proof b)
    end with ErrStale;;
  Ok tt.

(** The row of an App; [CASE WHEN] of its [webhook_secret_updated_at]. *)
Definition app_row (app : App) (app_id : Z) (g : integrations) : appConfigRow :=
  let secret := if ap_WebhookSecretPresent app then Some (ap_WebhookSecret app) else None in
  let updated := match ig_app g with
    | None => if bool_decide (secret = None) then None else Some (ig_now g)
    | Some old => if gc_webhook_secret_version old <>? ap_WebhookSecretVersion app then Some (ig_now g)
                  else gc_webhook_secret_updated_at old
    end in
  mkAppConfigRow (ap_ID app) (ap_LoginID app) app_id (ap_ClientID app) (ap_Slug app) (ap_Key app) secret (ap_WebhookEnabled app)
    (ap_WebhookSecretVersion app) updated.

(** The columns [app_id] and [webhook_secret_version] are positive and not negative. *)
Definition SaveIntegrationApp (token : string) (expected : Snapshot) (app : App) (g : integrations) : integrations * result ScmError unit :=
  if (ap_ID app =? uuid_Nil) || (ap_LoginID app <>? sn_LoginID expected) || (ap_ClientID app <>? sn_ClientID expected)
     || negb (ValidGitHubSubject (ap_AppID app))
  then (g, Err ErrConfig)
  else integrationTx token true (λ actor current g,
    let? _ := sameIntegration current expected false in
    match ParseInt (ap_AppID app) with
    | None => Err ErrScmDatabase
    | Some app_id =>
      fail_if (app_id <=? 0) || (ap_WebhookSecretVersion app <? 0) with ErrScmDatabase;;
      let g := with_proofs [] (with_import_flows [] (with_app (Some (app_row app app_id g)) g)) in
      Ok (ig_audit actor "github_app.configured" "github_app" (ap_ID app) g, tt)
    end) g.

Definition WebhookIntegration (g : integrations) : result ScmError App :=
  match ig_app g with
  | None => Err ErrWebhookUnavailable
  | Some row =>
    if bool_decide (lc_status <$> find_config (gc_login_config_id row) (ig_signin g) = Some "active")
       && bool_decide (gc_webhook_secret row ≠ None)
    then Ok (mkApp (gc_login_config_id row) (gc_id row) (FormatInt (gc_app_id row)) (gc_slug row) (gc_client_id row) empty_envelope
               (default empty_envelope (gc_webhook_secret row)) true (gc_webhook_enabled row) (gc_webhook_secret_version row))
    else Err ErrWebhookUnavailable
  end.

(** ** Authorizations *)

(** The digests of a state and a nonce. *)
Definition flow_digests (state nonce : string) : result ScmError (string * string) :=
  let? h := sign_lift (digest sha256 ErrOAuthFlow state) in
  let? b := sign_lift (digest sha256 ErrOAuthFlow nonce) in
  Ok (h, b).

(** The App of a snapshot, when it belongs to the active login. *)
Definition current_app (snap : Snapshot) : option App :=
  match sn_App snap with
  | Some app => if ap_LoginID app =? sn_LoginID snap then Some app else None
  | None => None
  end.

Definition BeginIntegrationFlow (id : uuid) (token : string) (expected : Snapshot) (state nonce : string) (g : integrations)
    : integrations * result ScmError unit :=
  match flow_digests state nonce with
  | Err e => (g, Err e)
  | Ok (h, b) => integrationTx token true (λ actor current g,
      let? _ := sameIntegration current expected false in
      match current_app current with
      | None => Err ErrStale
      | Some app =>
        let session := ss_ID (sa_session actor) in
        let flows := List.filter (λ f, negb ((if_expires_at f <=? ig_now g) || (if_session_id f =? session))) (ig_flows g) in
        let proofs := List.filter (λ p, negb ((ip_expires_at p <=? ig_now g) || (ip_session_id p =? session))) (ig_proofs g) in
        fail_if 1000 <=? Z.of_nat (length flows) with ScSignIn ErrFlowCapacity;;
        fail_if bool_decide (id ∈ if_id <$> flows) || bool_decide (h ∈ if_state_hash <$> flows) with ErrScmDatabase;;
        let flow := mkImportFlowRow id session h b (sn_LoginID current) (ap_ID app) false (ig_now g + 5 * Minute) in
        Ok (with_proofs proofs (with_import_flows (flows ++ [flow]) g), tt)
      end) g
  end.

(** The flow of a callback. *)
Definition flow_matches (session : uuid) (h b : string) (login revision : uuid) (now : time) (f : importFlowRow) : bool :=
  (if_session_id f =? session) && (if_state_hash f =? h) && (if_nonce_hash f =? b) && negb (if_consumed f)
  && (if_login_id f =? login) && (if_app_revision f =? revision) && (now <? if_expires_at f).
Definition consume_flow (f : importFlowRow) : importFlowRow :=
  mkImportFlowRow (if_id f) (if_session_id f) (if_state_hash f) (if_nonce_hash f) (if_login_id f) (if_app_revision f) true (if_expires_at f).
Definition with_flow_id (id : uuid) (snap : Snapshot) : Snapshot :=
  mkSnapshot id (sn_LoginID snap) (sn_ClientID snap) (sn_Secret snap) (sn_Subjects snap) (sn_App snap) (sn_Proof snap).

Definition ConsumeIntegrationFlow (token state nonce : string) (g : integrations) : integrations * result ScmError Snapshot :=
  match flow_digests state nonce with
  | Err e => (g, Err e)
  | Ok (h, b) => integrationTx token false (λ actor current g,
      match current_app current with
      | None => Err ErrStale
      | Some app =>
        let found := flow_matches (ss_ID (sa_session actor)) h b (sn_LoginID current) (ap_ID app) (ig_now g) in
        match List.filter found (ig_flows g) with
        | [] => Err (ScSignIn ErrOAuthFlow)
        | f :: _ => Ok (with_import_flows (update_all found consume_flow (ig_flows g)) g, with_flow_id (if_id f) current)
        end
      end) g
  end.

(** [flowLive], whose error the callers replace. *)
Definition deadline (expiry : time) (g : integrations) : result ScmError unit :=
  if ig_now g <? expiry then Ok tt else Err ErrStale.

(** [now] is the clock of the process. *)
Definition SaveIntegrationProof (now : time) (token : string) (expected : Snapshot) (proof : Proof_) (g : integrations)
    : integrations * result ScmError unit :=
  if (pf_ID proof =? uuid_Nil) || negb (ValidGitHubSubject (pf_Subject proof)) || (now + 10 * Minute <? pf_ExpiresAt proof)
  then (g, Err ErrConfig)
  else integrationTx token false (λ actor current g,
    let? _ := sameIntegration current expected false in
    match sn_App current with
    | None => Err ErrStale
    | Some app =>
      fail_if bool_decide (pf_Subject proof ∉ sn_Subjects current) with ErrStale;;
      let session := ss_ID (sa_session actor) in
      let used f := (if_id f =? sn_FlowID expected) && (if_session_id f =? session) && if_consumed f && (ig_now g <? if_expires_at f) in
      fail_if count used (ig_flows g) <>? 1 with ErrStale;;
      let g := with_import_flows (List.filter (λ f, negb (used f)) (ig_flows g)) g in
      let? _ := deadline (pf_ExpiresAt proof) g in
      let row := mkImportProofRow (pf_ID proof) session (sn_LoginID current) (ap_ID app) (pf_Token proof) (pf_ExpiresAt proof) (pf_Subject proof) in
      let others := List.filter (λ p, ip_session_id p <>? session) (ig_proofs g) in
      fail_if bool_decide (pf_ID proof ∈ ip_id <$> others) with ErrScmDatabase;;
      Ok (ig_audit actor "github_import.authorized" "github_app" (ap_ID app) (with_proofs (others ++ [row]) g), tt)
    end) g.

Definition CheckIntegration (token : string) (expected : Snapshot) (proof : bool) (g : integrations) : result ScmError unit :=
  (integrationTx token false (λ _ current g,
    let? _ := sameIntegration current expected proof in
    let? _ := if proof then match sn_Proof current with Some p => deadline (pf_ExpiresAt p) g | None => Err ErrStale end else Ok tt in
    Ok (g, tt)) g).2.

(** [PruneIntegrationCredentials] *)
Definition session_usable (id : uuid) (g : integrations) : bool :=
  existsb (λ se, (se_id se =? id) && negb (se_revoked se) && (ig_now g <? se_expires_at se)
    && bool_decide (us_active <$> di_users (db_directory (ig_db g)) !! se_user_id se = Some true))
    (di_sessions (db_directory (ig_db g))).
Definition revision_usable (login revision : uuid) (g : integrations) : bool :=
  match ig_app g with
  | Some row => (gc_id row =? revision) && (gc_login_config_id row =? login)
                && bool_decide (lc_status <$> find_config login (ig_signin g) = Some "active")
  | None => false
  end.
Definition usable (expires : time) (session login revision : uuid) (g : integrations) : bool :=
  (ig_now g <? expires) && session_usable session g && revision_usable login revision g.
Definition PruneIntegrationCredentials (g : integrations) : integrations :=
  with_proofs (List.filter (λ p, usable (ip_expires_at p) (ip_session_id p) (ip_login_id p) (ip_app_revision p) g) (ig_proofs g))
    (with_import_flows (List.filter (λ f, usable (if_expires_at f) (if_session_id f) (if_login_id f) (if_app_revision f) g) (ig_flows g)) g).

(** ** Import *)

(** What an import draws: the identifier of an organization and, for the external
    identifier of a repository, its identifier; and the time it waits for locks. *)
Record importDraws := mkImportDraws { di_org : uuid; di_repo : string → uuid; di_waited : duration }.

(** The organization of an account, which is created on the first import. *)
Definition account_organization (draws : importDraws) (account : Z) (install : Installation) (g : integrations)
    : result ScmError (integrations * uuid) :=
  match ig_accounts g !! account with
  | Some org => Ok (g, org)
  | None =>
    let org := di_org draws in
    let di := db_directory (ig_db g) in
    let slug := ("github-" +:+ in_AccountID install)%string in
    fail_if bool_decide (org ∈ di_organizations di) || bool_decide (slug ∈ fst <$> (map_to_list (ig_organizations g)).*2)
      || bool_decide (org ∈ (map_to_list (ig_accounts g)).*2) with ErrScmDatabase;;
    let g := with_ig_db (with_places ({[org]} ∪ di_organizations di) (di_repositories di) (ig_db g)) g in
    let g := with_organization_columns (<[org := (slug, "GitHub / " +:+ in_Account install)%string]> (ig_organizations g)) g in
    Ok (with_accounts (<[account := org]> (ig_accounts g)) g, org)
  end.

(** [ON CONFLICT(id) DO UPDATE ... WHERE]; no row is changed when it belongs to another App
    or account. *)
Definition upsert_installation (id app_id account : Z) (g : integrations) : result ScmError integrations :=
  fail_if match ig_installations g !! id with
    | Some row => (il_app_id row <>? app_id) || (il_account_id row <>? account)
    | None => false
    end with ErrStale;;
  Ok (with_installations (<[id := mkInstallationRow app_id account (ig_now g)]> (ig_installations g)) g).

(** The repository of GitHub with an external identifier. *)
Definition is_github (external : string) (g : integrations) (x : uuid * repositoryRow) : Prop :=
  rp_provider x.2 = "github" ∧ rp_external_id x.2 = external
  ∧ (rb_provider_instance <$> ig_bindings g !! x.1) = Some GitHubInstance.
#[export] Instance is_github_dec external g x : Decision (is_github external g x).
Proof. unfold is_github. apply _. Defined.
Definition find_repository (external : string) (g : integrations) : option (uuid * repositoryRow) :=
  snd <$> list_find (is_github external g) (map_to_list (di_repositories (db_directory (ig_db g)))).

Definition import_name (repo : HostRepository) : string := (hp_Owner repo +:+ "/" +:+ hp_Name repo)%string.

(** [INSERT INTO repositories] *)
Definition insert_repository (id org : uuid) (installation : Z) (repo : HostRepository) (g : integrations) : result ScmError integrations :=
  let di := db_directory (ig_db g) in
  fail_if bool_decide (is_Some (di_repositories di !! id)) with ErrScmDatabase;;
  let row := mkRepositoryRow org "github" (hp_ID repo) ("https://github.com/" +:+ import_name repo +:+ ".git")%string true in
  let binding := mkBindingRow GitHubInstance (hp_Owner repo) (hp_Name repo) (hp_DefaultBranch repo) (Some installation) in
  let g := with_ig_db (with_places (di_organizations di) (<[id := row]> (di_repositories di)) (ig_db g)) g in
  Ok (with_bindings (<[id := binding]> (ig_bindings g)) g).

Fixpoint import_repositories (draws : importDraws) (actor : settingsActor) (org : uuid) (installation : Z)
    (repos : list HostRepository) (g : integrations) : result ScmError (integrations * list Imported) :=
  match repos with
  | [] => Ok (g, [])
  | repo :: repos =>
    let? '(g, item) :=
      match find_repository (hp_ID repo) g with
      | Some (existing, row) =>
        fail_if (rp_organization_id row <>? org) || ((ig_bindings g !! existing ≫= rb_installation_id) <>? Some installation) with ErrStale;;
        Ok (g, mkImported existing (import_name repo) false)
      | None =>
        let id := di_repo draws (hp_ID repo) in
        let? g := insert_repository id org installation repo g in
        Ok (ig_audit actor "repository.imported" "repository" id g, mkImported id (import_name repo) true)
      end in
    let? '(g, items) := import_repositories draws actor org installation repos g in
    Ok (g, item :: items)
  end.

Definition ImportRepositories (draws : importDraws) (token : string) (expected : Snapshot) (install : Installation)
    (repos : list HostRepository) (g : integrations) : integrations * result ScmError (list Imported) :=
  if (Z.of_nat (length repos) =? 0) || (20 <? Z.of_nat (length repos)) || negb (ValidGitHubSubject (in_ID install))
     || negb (ValidGitHubSubject (in_AccountID install))
  then (g, Err ErrConfig)
  else integrationTx token false (λ actor current g,
    let? _ := sameIntegration current expected true in
    match ParseInt (in_AccountID install), ParseInt (in_ID install), ig_app g, sn_Proof current with
    | Some account, Some installation, Some app, Some proof =>
      let? '(g, org) := account_organization draws account install g in
      let? g := upsert_installation installation (gc_app_id app) account g in
      let? '(g, items) := import_repositories draws actor org installation repos g in
      let g := with_ig_db (elapse (di_waited draws) (ig_db g)) g in
      let? _ := deadline (pf_ExpiresAt proof) g in
      Ok (g, items)
    | _, _, _, _ => Err ErrScmDatabase
    end) g.

(** ** github_runtime.go *)

(** [githubapp.Repository] *)
Record AppRepository := mkAppRepository {
  ar_ID : uuid;
  ar_ExternalID : string;
  ar_Owner : string;
  ar_Name : string;
  ar_CloneURL : string;
  ar_DefaultBranch : string;
  ar_InstallationID : string;
  ar_AppID : uuid;
  ar_AppClientID : string;
  ar_EncryptedKey : Envelope;
}.

Definition ResolveGitHubRepository (externalID : string) (g : integrations) : option AppRepository :=
  if negb (ValidGitHubSubject externalID) then None
  else
    '(id, row) ← find_repository externalID g;
    binding ← ig_bindings g !! id;
    installation ← rb_installation_id binding;
    i ← ig_installations g !! installation;
    app ← ig_app g;
    if rp_active row && (gc_app_id app =? il_app_id i)
       && bool_decide (lc_status <$> find_config (gc_login_config_id app) (ig_signin g) = Some "active")
    then Some (mkAppRepository id (rp_external_id row) (rb_owner binding) (rb_name binding) (rp_clone_url row)
           (rb_default_branch binding) (FormatInt installation) (gc_id app) (gc_client_id app) (gc_encrypted_key app))
    else None.
End Store.
