(* ===== verification/IntegrationService.v ===== *)
(** internal/integration/service.go: the configuration of the GitHub App, the authorization
    of an administrator and the import of repositories.  The provider is an interface; the
    client of GithubClient.v is its instance. *)

From S2P Require Import Prelude GoStd Regex Codecs RunModel Database Identity Secrets SignIn SignInService GithubClient Integration.

(** [integration.Provider].  The clock of the process is an argument where it is read. *)
Record Provider := mkProvider {
  pv_VerifyApp : string → bytes → result ScmError App;
  pv_AuthorizationURL : string → string → string → string → string;
  pv_Exchange : string → string → string → string → string → result ScmError (string * string * time);
  pv_Installations : string → result ScmError (list Installation);
  pv_VerifyInstallation : App → bytes → Installation → result ScmError unit;
  pv_Repositories : string → string → Z → result ScmError RepoPage;
}.

Definition github_provider {Key} (crypto : rsa Key) (sha256 json_string : string → string) (json : decoders)
    (exchange : httpRequest → option httpResponse) (now : time) : Provider :=
  mkProvider (VerifyApp crypto sha256 json_string json exchange now) (AuthorizationURL sha256)
    (Exchange sha256 json exchange now) (Installations json exchange)
    (VerifyInstallation crypto sha256 json_string json exchange now) (Repositories json exchange).

(** [integration.Service] without the store and the provider *)
Record ScmService := mkScmService { sm_cipher : AEAD; sm_origin : string }.

Fixpoint trim_slashes (l : bytes) : bytes :=
  match l with
  | c :: l => if c =? "/"%char then trim_slashes l else c :: l
  | [] => []
  end.
(** [integration.New] *)
Definition NewScmService (cipher : AEAD) (origin : string) : ScmService :=
  mkScmService cipher (of_chars (reverse (trim_slashes (reverse (chars origin))))).

Definition IntegrationCallbackURL (sv : ScmService) : string := (sm_origin sv +:+ "/api/v1/integrations/github/callback")%string.
Definition IntegrationWebhookURL (sv : ScmService) : string := (sm_origin sv +:+ "/api/v1/webhooks/github")%string.

(** [integration.Settings] *)
Record ScmSettings := mkScmSettings {
  se_NeedsVerification : bool;
  se_App : option App;
  se_CallbackURL : string;
  se_SetupURL : string;
  se_InstallURL : string;
  se_AuthorizedUntil : option time;
  se_WebhookURL : string;
  se_WebhookSecretConfigured : bool;
  se_WebhookSecretVersion : Z;
}.

Record AppInput := mkAppInput {
  ai_AppID : string;
  ai_PrivateKey : string;
  ai_WebhookSecret : option string;
  ai_WebhookEnabled : option bool;
  ai_ExpectedRevision : option uuid;
}.

(** The next page, and what was found so far. *)
Definition wanted_items (wanted : gset string) (account : string) (items : list HostRepository) (found : gmap string HostRepository)
    : gmap string HostRepository :=
  foldl (λ found repo, if bool_decide (hp_ID repo ∈ wanted) && EqualFold (hp_Owner repo) account
                       then <[hp_ID repo := repo]> found else found) found items.

(** [for page := 1; page <= 100;]: [rounds] is [101 - page]. *)
Fixpoint import_pages (list_page : Z → result ScmError RepoPage) (wanted : gset string) (account : string)
    (rounds : nat) (page : Z) (found : gmap string HostRepository) : result ScmError (gmap string HostRepository) :=
  match rounds with
  | O => Ok found
  | S rounds =>
    let? result := list_page page in
    let found := wanted_items wanted account (rg_Items result) found in
    if bool_decide (size found = size wanted) || (rg_NextPage result =? 0) then Ok found
    else if rg_NextPage result <>? page + 1 then Err ErrRemote
    else import_pages list_page wanted account rounds (page + 1) found
  end.

Section Service.
Variable sha256 : string → string.
Variable hmac_sha256 : string → string → bytes.
Variable gcm : bytes → option AEAD.
Variable uuid_String : uuid → string.

Definition KeyAAD (id : uuid) : bytes := chars ("yuanci:github-app:" +:+ uuid_String id)%string.
Definition proofAAD (id : uuid) : bytes := chars ("yuanci:github-proof:" +:+ uuid_String id)%string.
Definition webhookAAD (id : uuid) : bytes := chars ("yuanci:github-webhook:" +:+ uuid_String id)%string.

(** [Cipher.Seal] and [Cipher.Open], whose errors the callers replace. *)
Definition seal (sv : ScmService) (random : sealing) (text data : bytes) : result ScmError Envelope :=
  match Seal gcm (sm_cipher sv) random text data with Some e => Ok e | None => Err ErrConfig end.
Definition unseal (sv : ScmService) (e : Envelope) (data : bytes) : result ScmError bytes :=
  match Open gcm (sm_cipher sv) e data with Plain text => Ok text | _ => Err ErrConfig end.

Definition IntegrationSettings (sv : ScmService) (token : string) (g : integrations) : result ScmError ScmSettings :=
  let? snap := IntegrationContext sha256 token false g in
  let app := sn_App snap in
  Ok (mkScmSettings (match app with Some a => ap_LoginID a <>? sn_LoginID snap | None => false end) app
        (IntegrationCallbackURL sv) (sm_origin sv +:+ "/settings/repositories")%string
        (match app with Some a => "https://github.com/apps/" +:+ ap_Slug a +:+ "/installations/new" | None => "" end)%string
        (pf_ExpiresAt <$> sn_Proof snap) (IntegrationWebhookURL sv)
        (match app with Some a => ap_WebhookSecretPresent a | None => false end)
        (match app with Some a => ap_WebhookSecretVersion a | None => 0 end)).

(** The secret of the webhook after a save: the new one, the one of the App before, or none. *)
Definition next_webhook_secret (sv : ScmService) (input : AppInput) (app : option App) : result ScmError bytes :=
  match ai_WebhookSecret input with
  | Some secret =>
    fail_if (len secret <? 16) || (4096 <? len secret) || ContainsAny secret line_breaks with ErrConfig;;
    Ok (chars secret)
  | None =>
    match app with
    | Some old => if ap_WebhookSecretPresent old then unseal sv (ap_WebhookSecret old) (webhookAAD (ap_ID old)) else Ok []
    | None => Ok []
    end
  end.

(** [new_id] and the random values of the key and of the webhook secret are drawn. *)
Definition new_app (sv : ScmService) (new_id : uuid) (random_key random_secret : sealing) (input : AppInput) (snap : Snapshot)
    (verified : App) : result ScmError App :=
  let? key := seal sv random_key (chars (ai_PrivateKey input)) (KeyAAD new_id) in
  let enabled := default (match sn_App snap with Some old => ap_WebhookEnabled old | None => false end) (ai_WebhookEnabled input) in
  let version := match sn_App snap with Some old => ap_WebhookSecretVersion old | None => ap_WebhookSecretVersion verified end in
  let version := match ai_WebhookSecret input with Some _ => version + 1 | None => version end in
  let? secret := next_webhook_secret sv input (sn_App snap) in
  let? '(sealed, present) :=
    match secret with
    | [] => Ok (ap_WebhookSecret verified, ap_WebhookSecretPresent verified)
    | _ => let? e := seal sv random_secret secret (webhookAAD new_id) in Ok (e, true)
    end in
  fail_if enabled && negb present with ErrConfig;;
  Ok (mkApp (sn_LoginID snap) new_id (ap_AppID verified) (ap_Slug verified) (ap_ClientID verified) key sealed present enabled version).

(** [others]: what other transactions do while the provider is asked. *)
Definition SaveIntegration (sv : ScmService) (provider : Provider) (others : integrations → integrations) (new_id : uuid)
    (random_key random_secret : sealing) (token : string) (input : AppInput) (g : integrations) : integrations * result ScmError unit :=
  let prepared :=
    fail_if negb (ValidGitHubSubject (ai_AppID input)) with ErrConfig;;
    let? snap := IntegrationContext sha256 token true g in
    fail_if ap_ID <$> sn_App snap <>? ai_ExpectedRevision input with ErrStale;;
    let? verified := pv_VerifyApp provider (sn_ClientID snap) (chars (ai_PrivateKey input)) in
    fail_if (ap_AppID verified <>? ai_AppID input) || (ap_ClientID verified <>? sn_ClientID snap) with ErrConfig;;
    let? app := new_app sv new_id random_key random_secret input snap verified in
    Ok (snap, app) in
  match prepared with
  | Err e => (g, Err e)
  | Ok (snap, app) => SaveIntegrationApp sha256 token snap app (others g)
  end.

(** [Start] *)
Definition StartIntegration (sv : ScmService) (provider : Provider) (others : integrations → integrations) (flow : uuid)
    (token state nonce : string) (g : integrations) : integrations * result ScmError string :=
  match IntegrationContext sha256 token true g with
  | Err e => (g, Err e)
  | Ok snap =>
    match current_app snap with
    | None => (g, Err ErrStale)
    | Some _ =>
      match BeginIntegrationFlow sha256 flow token snap state nonce (others g) with
      | (g, Err e) => (g, Err e)
      | (g, Ok _) => (g, Ok (pv_AuthorizationURL provider (sn_ClientID snap) (IntegrationCallbackURL sv) state (PKCEVerifier hmac_sha256 state nonce)))
      end
    end
  end.

(** [Finish]; [now] is the clock of the process, and the flow is consumed in any case. *)
Definition FinishIntegration (sv : ScmService) (provider : Provider) (others : integrations → integrations) (now : time)
    (proof_id : uuid) (random : sealing) (token state nonce code : string) (g : integrations) : integrations * result ScmError unit :=
  match ConsumeIntegrationFlow sha256 token state nonce g with
  | (g, Err e) => (g, Err e)
  | (g, Ok snap) =>
    let prepared :=
      fail_if (code =? "") || (1024 <? len code) with ErrAccess;;
      let? secret := unseal sv (sn_Secret snap) (chars ("yuanci:login:github:" +:+ uuid_String (sn_LoginID snap))%string) in
      let? '(subject, access, expiry) := pv_Exchange provider (sn_ClientID snap) (of_chars secret) (IntegrationCallbackURL sv) code
        (PKCEVerifier hmac_sha256 state nonce) in
      fail_if bool_decide (subject ∉ sn_Subjects snap) || (access =? "") || negb (now <? expiry) with ErrAccess;;
      let? sealed := seal sv random (chars access) (proofAAD proof_id) in
      Ok (mkProof proof_id subject sealed (Z.min expiry (now + 10 * Minute))) in
    match prepared with
    | Err e => (g, Err e)
    | Ok proof => SaveIntegrationProof sha256 now token snap proof (others g)
    end
  end.

Definition WebhookSecret (sv : ScmService) (g : integrations) : result ScmError bytes :=
  let? app := WebhookIntegration g in
  fail_if negb (ap_WebhookEnabled app) || negb (ap_WebhookSecretPresent app) with ErrWebhookUnavailable;;
  unseal sv (ap_WebhookSecret app) (webhookAAD (ap_ID app)).

(** ** Repositories *)

(** [authorized]: the App, and the access token of the administrator. *)
Definition authorized (sv : ScmService) (token : string) (g : integrations) : result ScmError (Snapshot * App * string) :=
  let? snap := IntegrationContext sha256 token false g in
  match sn_App snap, sn_Proof snap with
  | Some app, Some proof =>
    let? plain := unseal sv (pf_Token proof) (proofAAD (pf_ID proof)) in
    Ok (snap, app, of_chars plain)
  | _, _ => Err ErrStale
  end.

Fixpoint verify_all (provider : Provider) (app : App) (key : bytes) (items : list Installation) : result ScmError unit :=
  match items with
  | [] => Ok tt
  | item :: items => let? _ := pv_VerifyInstallation provider app key item in verify_all provider app key items
  end.

Definition verifiedInstallations (sv : ScmService) (provider : Provider) (app : App) (access : string)
    : result ScmError (list Installation) :=
  let? items := pv_Installations provider access in
  let? key := unseal sv (ap_Key app) (KeyAAD (ap_ID app)) in
  let? _ := verify_all provider app key items in
  Ok items.

Definition ListInstallations (sv : ScmService) (provider : Provider) (others : integrations → integrations) (token : string)
    (g : integrations) : result ScmError (list Installation) :=
  let? '(snap, app, access) := authorized sv token g in
  let? items := verifiedInstallations sv provider app access in
  let? _ := CheckIntegration sha256 token snap true (others g) in
  Ok items.

(** [installation] *)
Definition find_installation (sv : ScmService) (provider : Provider) (app : App) (access id : string) : result ScmError Installation :=
  fail_if negb (ValidGitHubSubject id) with ErrConfig;;
  let? items := pv_Installations provider access in
  match list_find (λ item, in_ID item = id) items with
  | None => Err ErrAccess
  | Some (_, item) =>
    let? key := unseal sv (ap_Key app) (KeyAAD (ap_ID app)) in
    let? _ := pv_VerifyInstallation provider app key item in
    Ok item
  end.

Definition ListRepositories (sv : ScmService) (provider : Provider) (others : integrations → integrations) (token installID : string)
    (page : Z) (g : integrations) : result ScmError RepoPage :=
  let? '(snap, app, access) := authorized sv token g in
  let? install := find_installation sv provider app access installID in
  let? result := pv_Repositories provider access installID page in
  fail_if existsb (λ repo, negb (EqualFold (hp_Owner repo) (in_Account install))) (rg_Items result) with ErrAccess;;
  let? _ := CheckIntegration sha256 token snap true (others g) in
  Ok result.

(** The identifiers that are asked for: valid and distinct. *)
Fixpoint wanted_ids (ids : list string) (wanted : gset string) : result ScmError (gset string) :=
  match ids with
  | [] => Ok wanted
  | id :: ids =>
    fail_if negb (ValidGitHubSubject id) || bool_decide (id ∈ wanted) with ErrConfig;;
    wanted_ids ids ({[id]} ∪ wanted)
  end.

Definition ImportSelected (sv : ScmService) (provider : Provider) (others : integrations → integrations) (draws : importDraws)
    (token installID : string) (ids : list string) (g : integrations) : integrations * result ScmError (list Imported) :=
  let prepared :=
    fail_if (Z.of_nat (length ids) =? 0) || (20 <? Z.of_nat (length ids)) with ErrConfig;;
    let? wanted := wanted_ids ids ∅ in
    let? '(snap, app, access) := authorized sv token g in
    let? install := find_installation sv provider app access installID in
    let? found := import_pages (pv_Repositories provider access installID) wanted (in_Account install) 100 1 ∅ in
    fail_if negb (size found =? size wanted)%nat with ErrAccess;;
    Ok (snap, install, omap (λ id, found !! id) ids) in
  match prepared with
  | Err e => (g, Err e)
  | Ok (snap, install, selected) => ImportRepositories sha256 draws token snap install selected (others g)
  end.
End Service.
