(* ===== verification/GithubApp.v ===== *)
(** internal/githubapp/service.go and internal/commitstatus/github.go: what the workers of the
    control plane do at GitHub in the name of the App: they read the pipeline of a commit, draw
    the credentials of a checkout and post commit statuses.  The provider is an interface whose
    instance in cmd/yuanci-server/main.go is the client of GithubClient.v. *)

From S2P Require Import Prelude GoStd Regex Codecs Pipeline Compiler RunModel Database Identity Secrets SignIn GithubHook Automation PgAutomation CommitStatus WorkServer GithubClient Integration IntegrationService.

(** [githubapp.Provider] *)
Record AppProvider := mkAppProvider {
  av_InstallationToken : string → bytes → string → string → result HookError (string * time);
  av_CommitStatusToken : string → bytes → string → string → result HookError (string * time);
  av_RepositoryCommit : string → string → string → string → result HookError string;
  av_RepositoryFile : string → string → string → string → string → result HookError bytes;
  av_SetCommitStatus : string → string → string → GithubClient.CommitStatus → result HookError unit;
}.

(** The errors of the client among those that the workers tell apart: [integration.ErrRate] is
    [scm.ErrRateLimited], and no other one is an error of the package scm. *)
Definition hook_error (e : ScmError) : HookError := match e with ErrRate => ErrRateLimited | _ => ErrOther end.
Definition hooked {A} (r : result ScmError A) : result HookError A :=
  match r with Ok a => Ok a | Err e => Err (hook_error e) end.

Definition github_app_provider {Key} (crypto : rsa Key) (sha256 json_string : string → string) (json : decoders)
    (exchange : httpRequest → option httpResponse) (now : time) : AppProvider :=
  mkAppProvider (λ client key install repository, hooked (InstallationToken crypto sha256 json_string json exchange now client key install repository))
    (λ client key install repository, hooked (CommitStatusToken crypto sha256 json_string json exchange now client key install repository))
    (λ token owner name ref, hooked (RepositoryCommit json exchange token owner name ref))
    (λ token owner name path sha, hooked (RepositoryFile exchange token owner name path sha))
    (λ token owner name status, hooked (SetCommitStatus json_string exchange token owner name status)).

Section Service.
Context `{MapOrder}.
Variable gcm : bytes → option AEAD.
Variable uuid_String : uuid → string.
Variable yaml_decode : string → option Pipeline.
Variable json_canonical : Pipeline → option string.
Variable cipher : AEAD.
Variable provider : AppProvider.
(** The clock of the process after the token was drawn. *)
Variable now : time.

Definition app_key (repository : AppRepository) : result HookError bytes :=
  match Open gcm cipher (ar_EncryptedKey repository) (KeyAAD uuid_String (ar_AppID repository)) with
  | Plain key => Ok key
  | _ => Err ErrCredentialUnavailable
  end.

Definition resolve (externalID : string) (g : integrations) : result HookError AppRepository :=
  match ResolveGitHubRepository externalID g with Some repository => Ok repository | None => Err ErrAppRepository end.

(** A token that expires neither too soon nor too late. *)
Definition expiry_refused (expiry : time) : bool := negb (now + 30 * Second <? expiry) || (now + 65 * Minute <? expiry).

Definition installation_token (repository : AppRepository) : result HookError (string * time) :=
  let? key := app_key repository in
  av_InstallationToken provider (ar_AppClientID repository) key (ar_InstallationID repository) (ar_ExternalID repository).

Definition DeliverCommitStatus (repositoryID : uuid) (externalID : string) (status : GithubClient.CommitStatus) (g : integrations)
    : result HookError unit :=
  fail_if (repositoryID =? uuid_Nil) || negb (ValidGitHubSubject externalID) with ErrAppRepository;;
  let? repository := resolve externalID g in
  fail_if (ar_ID repository <>? repositoryID) || (ar_ExternalID repository <>? externalID) with ErrAppRepository;;
  let? key := app_key repository in
  let? '(token, expiry) := av_CommitStatusToken provider (ar_AppClientID repository) key (ar_InstallationID repository)
    (ar_ExternalID repository) in
  fail_if (len token =? 0) || (8192 <? len token) || ContainsAny token token_breaks || expiry_refused expiry
    with ErrCredentialUnavailable;;
  av_SetCommitStatus provider token (ar_Owner repository) (ar_Name repository) status.

Definition IssueGitHubCredential (repositoryID : uuid) (externalID : string) (g : integrations) : result HookError CheckoutCredential :=
  fail_if (repositoryID =? uuid_Nil) || negb (ValidGitHubSubject externalID) with ErrAppRepository;;
  let? repository := resolve externalID g in
  fail_if (ar_ID repository <>? repositoryID) || (ar_ExternalID repository <>? externalID) with ErrAppRepository;;
  let? '(token, expiry) := installation_token repository in
  fail_if (len token =? 0) || (8192 <? len token) || ContainsAny token token_breaks || expiry_refused expiry
    with ErrCredentialUnavailable;;
  Ok (mkCheckoutCredential (ar_ExternalID repository) "" (chars token) expiry).

Definition FetchPipeline (event : Event) (pipelinePath : string) (g : integrations) : result HookError (AppRepository * string) :=
  fail_if (ev_Provider event <>? GitHub) || negb (ValidGitHubSubject (re_ExternalID (ev_Repository event)))
    || negb (re_match shaPattern (ev_AfterSHA event)) with ErrInvalidEvent;;
  fail_if bool_decide (ev_Type event ∉ [EventPush; EventTag; EventPullRequest]) with ErrInvalidEvent;;
  fail_if (ev_Type event =? EventPullRequest) && (metadata event "fork" <>? "false") with ErrExternalFork;;
  let? _ := ValidatePipelinePath pipelinePath in
  let? repository := resolve (re_ExternalID (ev_Repository event)) g in
  let? '(token, expiry) := installation_token repository in
  fail_if (len token =? 0) || expiry_refused expiry with ErrCredentialUnavailable;;
  let? content := av_RepositoryFile provider token (ar_Owner repository) (ar_Name repository) pipelinePath (ev_AfterSHA event) in
  Ok (repository, of_chars content).

(** [ErrInvalidPipeline] stands for the error of the compiler. *)
Definition ValidateDefaultPipeline (externalID pipelinePath : string) (g : integrations) : result HookError ValidationProof :=
  fail_if negb (ValidGitHubSubject externalID) || negb (is_ok (ValidatePipelinePath pipelinePath)) with ErrInvalidEvent;;
  let? repository := resolve externalID g in
  fail_if (ar_DefaultBranch repository =? "") || (255 <? len (ar_DefaultBranch repository))
    || ContainsAny (ar_DefaultBranch repository) line_breaks with ErrAppRepository;;
  let? '(token, expiry) := installation_token repository in
  fail_if (len token =? 0) || expiry_refused expiry with ErrCredentialUnavailable;;
  let? sha := av_RepositoryCommit provider token (ar_Owner repository) (ar_Name repository) (ar_DefaultBranch repository) in
  fail_if negb (re_match shaPattern sha) with ErrAppRepository;;
  let commitSHA := ToLower sha in
  let? content := av_RepositoryFile provider token (ar_Owner repository) (ar_Name repository) pipelinePath commitSHA in
  match Compile yaml_decode json_canonical (PayloadDigest ∘ chars) (of_chars content) now with
  | Err _ => Err ErrInvalidPipeline
  | Ok plan => Ok (mkValidationProof (ar_ID repository) (ar_AppID repository) commitSHA (pn_ConfigSHA256 plan) (pn_Name plan))
  end.

(** ** commitstatus/github.go *)

(** The answer with the classes that the worker asks for: only the checks here give
    [commitstatus.ErrInvalid]. *)
Definition Deliver (g : integrations) (item : Item) : delivery_result :=
  if (it_Provider item <>? "github") || (it_RepositoryID item =? uuid_Nil) || (it_RepositoryExternalID item =? "")
     || (len (it_CommitSHA item) <>? 40) || (it_Context item =? "") || negb (State_Valid (it_State item))
  then DeliveryError false true
  else
    match DeliverCommitStatus (it_RepositoryID item) (it_RepositoryExternalID item)
            (mkCommitStatus (it_CommitSHA item) (it_Context item) (it_State item) (it_Description item) (it_TargetURL item)) g with
    | Ok _ => Delivered
    | Err e => DeliveryError (e =? ErrRateLimited) false
    end.
End Service.

(** ** cmd/yuanci-server/scm.go: the hosts behind one interface *)

(** What [attachSourceCredential] takes for permanent. *)
Definition issue_error (e : HookError) : IssueError :=
  match e with ErrAppRepository | ErrCredentialUnavailable => PermanentIssueError | _ => TransientIssueError end.
Definition issued {A} (r : result HookError A) : result IssueError A := match r with Ok a => Ok a | Err e => Err (issue_error e) end.

Definition credentialRouter (github : option (uuid → string → result HookError CheckoutCredential))
    (gitee : option (uuid → Assignment → result HookError CheckoutCredential)) : CredentialIssuer :=
  mkCredentialIssuer
    (λ id external, issued (match github with Some issue => issue id external | None => Err ErrCredentialUnavailable end))
    (Some (λ runner a, issued (match gitee with Some issue => issue runner a | None => Err ErrCredentialUnavailable end))).

Definition statusRouter (github gitee : option (Item → delivery_result)) (item : Item) : delivery_result :=
  let target := if it_Provider item =? "gitee" then gitee else if it_Provider item =? "github" then github else None in
  match target with Some deliver => deliver item | None => DeliveryError false true end.

(** The answer of [FetchPipeline] as far as the orchestrator reads it. *)
Definition fetched (r : result HookError (AppRepository * string)) : result HookError (uuid * string) :=
  match r with Ok (repository, source) => Ok (ar_ID repository, source) | Err e => Err e end.

Definition pipelineRouter (github gitee : option (Event → string → result HookError (uuid * string))) (event : Event) (path : string)
    : result HookError (uuid * string) :=
  let target := if ev_Provider event =? GitHub then github else if ev_Provider event =? Gitee then gitee else None in
  match target with Some fetch => fetch event path | None => Err ErrInvalidEvent end.
