(* ===== verification/IntegrationFacts.v ===== *)
(** The integration with GitHub as a system, and the invariant of its states. *)

From S2P Require Import Prelude GoStd Codecs Database Identity Secrets SignIn SignInService GithubClient Integration IntegrationService RunModel Authorization SignInFacts SignInEffects.

(** * The integration with GitHub as a system: the transactions of Integration.v, those of
    SignInService.v and the pruning of credentials, in any order, with any arguments, and between
    changes of the other tables.  The operations of the service are sequences of these, with the
    transactions of others in between. *)

Inductive scm_op :=
| OpSignIn (op : signin_op)
| OpSaveApp (token : string) (expected : Snapshot) (app : App)
| OpBeginFlow (id : uuid) (token : string) (expected : Snapshot) (state nonce : string)
| OpConsumeFlow (token state nonce : string)
| OpSaveProof (now : time) (token : string) (expected : Snapshot) (proof : Proof_)
| OpImport (draws : importDraws) (token : string) (expected : Snapshot) (install : Installation) (repos : list HostRepository)
| OpPrune.

Section System.
Variable sha256 : string → string.
Variable gcm : bytes → option AEAD.
Variable uuid_String : uuid → string.

Definition perform_scm (op : scm_op) (g : integrations) : integrations :=
  match op with
  | OpSignIn op => with_signin (execute sha256 op (ig_signin g)).1 g
  | OpSaveApp token expected app => (SaveIntegrationApp sha256 token expected app g).1
  | OpBeginFlow id token expected state nonce => (BeginIntegrationFlow sha256 id token expected state nonce g).1
  | OpConsumeFlow token state nonce => (ConsumeIntegrationFlow sha256 token state nonce g).1
  | OpSaveProof now token expected proof => (SaveIntegrationProof sha256 now token expected proof g).1
  | OpImport draws token expected install repos => (ImportRepositories sha256 draws token expected install repos g).1
  | OpPrune => PruneIntegrationCredentials g
  end.

(** The App that is saved was made by the service. *)
Definition possible_scm (op : scm_op) : Prop :=
  match op with
  | OpSignIn op => possible_op op
  | OpSaveApp _ expected app => ∃ sv id random_key random_secret input verified,
      new_app gcm uuid_String sv id random_key random_secret input expected verified = Ok app
  | _ => True
  end.

(** The rest of the program: accounts stay, organizations may be added, and so may repositories
    of other hosts (whose columns [ig_bindings] leaves out). *)
Definition places_grow (d d' : database) : Prop :=
  di_organizations (db_directory d) ⊆ di_organizations (db_directory d') ∧
  di_repositories (db_directory d) ⊆ di_repositories (db_directory d') ∧
  ∀ id row, di_repositories (db_directory d') !! id = Some row → rp_provider row = "github" →
    di_repositories (db_directory d) !! id = Some row.

Inductive scm_step (allowed : scm_op → Prop) : integrations → integrations → Prop :=
| scm_perform op g : allowed op → scm_step allowed g (perform_scm op g)
| scm_elsewhere g d : same_accounts (ig_db g) d → places_grow (ig_db g) d → scm_step allowed g (with_ig_db d g).

(** A database after the migrations: no App, and no repository that was imported. *)
Definition scm_start (g : integrations) : Prop :=
  signin_start (ig_signin g) ∧ ig_app g = None ∧ ig_flows g = [] ∧ ig_proofs g = [] ∧ ig_accounts g = ∅ ∧ ig_installations g = ∅ ∧
  (∀ id b, ig_bindings g !! id = Some b → rb_installation_id b = None) ∧
  (∀ external x y, x ∈ map_to_list (di_repositories (db_directory (ig_db g))) → y ∈ map_to_list (di_repositories (db_directory (ig_db g))) →
     is_github external g x → is_github external g y → x = y).

Definition scm_history : integrations → integrations → Prop := rtc (scm_step possible_scm).
Definition scm_reachable (g : integrations) : Prop := ∃ g0, scm_start g0 ∧ scm_history g0 g.

(** ** Well-formed states *)

Definition current_revision (login revision : uuid) (g : integrations) : Prop :=
  ∃ row, ig_app g = Some row ∧ gc_id row = revision ∧ gc_login_config_id row = login.

Record scm_ok (g : integrations) : Prop := {
  go_signin : signin_ok (ig_signin g);
  (** The App has a number, and a webhook that is on has a secret. *)
  go_app : ∀ row, ig_app g = Some row → 0 < gc_app_id row ∧ 0 ≤ gc_webhook_secret_version row ∧
    (gc_webhook_enabled row = true → gc_webhook_secret row ≠ None);
  (** A session has one flow and one proof at most, a state belongs to one flow, and all of them
      belong to the present revision of the App. *)
  go_sessions : NoDup (if_session_id <$> ig_flows g) ∧ NoDup (ip_session_id <$> ig_proofs g);
  go_states : NoDup (if_state_hash <$> ig_flows g);
  go_flows : ∀ f, f ∈ ig_flows g → current_revision (if_login_id f) (if_app_revision f) g;
  go_proofs : ∀ p, p ∈ ig_proofs g → ∃ row, ig_app g = Some row ∧ gc_id row = ip_app_revision p;
  (** An organization belongs to one account, an installation to a known account. *)
  go_accounts : ∀ a a' org, ig_accounts g !! a = Some org → ig_accounts g !! a' = Some org → a = a';
  go_installations : ∀ i row, ig_installations g !! i = Some row → is_Some (ig_accounts g !! il_account_id row);
  (** An imported repository lies in the organization of the account of its installation, and
      no repository of GitHub is there twice. *)
  go_bindings : ∀ id row b i, di_repositories (db_directory (ig_db g)) !! id = Some row → rp_provider row = "github" →
    ig_bindings g !! id = Some b → rb_installation_id b = Some i →
    ∃ il, ig_installations g !! i = Some il ∧ ig_accounts g !! il_account_id il = Some (rp_organization_id row);
  go_unique : ∀ external x y, x ∈ map_to_list (di_repositories (db_directory (ig_db g))) →
    y ∈ map_to_list (di_repositories (db_directory (ig_db g))) → is_github external g x → is_github external g y → x = y;
}.
End System.

(** * Facts about the transactions of Integration.v: what each does to the tables, and that every
    state of the integration is well formed. *)

Abbreviation ig_repositories g := (di_repositories (db_directory (ig_db g))) (only parsing).

(** ** Transactions *)

Section Transactions.
Variable sha256 : string → string.

(** What a transaction that succeeds has checked. *)
Record granted (token : string) (recent : bool) (g : integrations) (actor : settingsActor) (snap : Snapshot) : Prop := {
  gr_access : settingsAccess sha256 (mkSettingsAccess token "") recent (ig_signin g) = Ok actor;
  gr_snapshot : integrationSnapshot actor g = Ok snap;
}.

Lemma integrationTx_cases {A} token recent (fn : settingsActor → Snapshot → integrations → result ScmError (integrations * A)) g g' r :
  integrationTx sha256 token recent fn g = (g', r) →
  (g' = g ∧ ∃ e, r = Err e) ∨
  ∃ actor snap a, r = Ok a ∧ granted token recent g actor snap ∧ fn actor snap g = Ok (g', a) ∧
    sessionLive (sa_session actor) (ig_db g') = Ok tt.
Proof.
  unfold integrationTx. destruct (settingsAccess _ _ _ _) as [actor|] eqn:Ha; cbn [sign_lift rbind]; [|intros [= <- <-]; left; eauto].
  destruct (integrationSnapshot _ _) as [snap|] eqn:Hs; cbn [rbind]; [|intros [= <- <-]; left; eauto].
  destruct (fn _ _ _) as [[g1 a]|] eqn:Hf; cbn [rbind]; [|intros [= <- <-]; left; eauto].
  destruct (sessionLive _ _) as [[]|] eqn:Hl; cbn [lift sign_lift rbind]; intros [= <- <-]; [|left; eauto].
  right. exists actor, snap, a. by repeat split.
Qed.

Lemma integrationTx_ok {A} token recent (fn : settingsActor → Snapshot → integrations → result ScmError (integrations * A)) g g' a :
  integrationTx sha256 token recent fn g = (g', Ok a) →
  ∃ actor snap, granted token recent g actor snap ∧ fn actor snap g = Ok (g', a) ∧ sessionLive (sa_session actor) (ig_db g') = Ok tt.
Proof. intros [[_ [e He]]|(actor & snap & a' & [= <-] & ?)]%integrationTx_cases; [done|]. by exists actor, snap. Qed.

(** A property that the body of a transaction preserves. *)
Lemma integrationTx_keeps {A} (P : integrations → Prop) token recent (fn : settingsActor → Snapshot → integrations → result ScmError (integrations * A)) g :
  P g → (∀ actor snap g' a, granted token recent g actor snap → fn actor snap g = Ok (g', a) → P g') →
  P (integrationTx sha256 token recent fn g).1.
Proof.
  intros Hg Hfn. destruct (integrationTx sha256 token recent fn g) as [g' r] eqn:Htx.
  apply integrationTx_cases in Htx as [[-> _]|(actor & snap & a & _ & Hgr & Hf & _)]; [done|by eapply Hfn].
Qed.

(** A proof of the session that is of use. *)
Definition proof_usable (session login revision : uuid) (subjects : list string) (g : integrations) (p : importProofRow) : Prop :=
  ip_session_id p = session ∧ ip_login_id p = login ∧ ip_app_revision p = revision ∧ ig_now g < ip_expires_at p ∧
  ip_github_subject p ∈ subjects.

Record shown (actor : settingsActor) (g : integrations) (snap : Snapshot) : Prop := {
  sh_login : ∃ login, active_config (ig_signin g) = Some login ∧ sn_LoginID snap = lc_id login ∧ sn_ClientID snap = lc_client_id login
    ∧ sn_Secret snap = lc_encrypted_secret login;
  sh_subjects : sn_Subjects snap = subjects_of (ss_UserID (sa_session actor)) (ig_signin g) ∧ sn_Subjects snap ≠ [];
  sh_app : sn_App snap = scan_app <$> ig_app g;
  sh_proof : ∀ p, sn_Proof snap = Some p → ∃ row app, p = scan_proof row ∧ row ∈ ig_proofs g ∧ ig_app g = Some app ∧
    proof_usable (ss_ID (sa_session actor)) (sn_LoginID snap) (gc_id app) (sn_Subjects snap) g row;
  sh_flow : sn_FlowID snap = uuid_Nil;
}.

Lemma integrationSnapshot_shown actor g snap : integrationSnapshot actor g = Ok snap → shown actor g snap.
Proof.
  unfold integrationSnapshot. destruct (active_config _) as [login|] eqn:Hl; [|done]. cbv zeta.
  destruct (bool_decide _) eqn:Hs; [done|]. intros [= <-]. bools. split; cbn; [by exists login|done|done| |done].
  intros p Hp. apply fmap_Some in Hp as (row & Hrow & ->). apply bind_Some in Hrow as (app & Happ & Hrow).
  apply fmap_Some in Hrow as ([i x] & Hf & ->). apply list_find_Some in Hf as (Hi & Hp & _).
  exists x, app. split; [done|]. split; [by eapply list_elem_of_lookup_2|]. split; [done|]. by cbn in *.
Qed.

Lemma sameIntegration_ok a b proof : sameIntegration a b proof = Ok tt →
  sn_LoginID a = sn_LoginID b ∧ sn_Subjects a = sn_Subjects b ∧ ap_ID <$> sn_App a = ap_ID <$> sn_App b ∧
  (proof = true → ∃ app p q, sn_App a = Some app ∧ ap_LoginID app = sn_LoginID a ∧ sn_Proof a = Some p ∧ sn_Proof b = Some q ∧ pf_ID p = pf_ID q).
Proof.
  unfold sameIntegration. destruct (_ || xorb _ _) eqn:H1; [done|]. destruct (_ && (_ <>? _)) eqn:H2; [done|].
  destruct (proof && _) eqn:H3; [done|]. intros _. bools.
  assert (Happ : ap_ID <$> sn_App a = ap_ID <$> sn_App b).
  { destruct (sn_App a), (sn_App b); cbn in *; try done. by destruct H2 as [H2|?%negb_false_iff%bool_decide_eq_true]. }
  split; [done|]. split; [done|]. split; [done|]. intros ->. destruct H3 as [?|H3]; [done|].
  destruct (sn_App a) as [app|]; [|done]. bools. destruct (sn_Proof a) as [p|]; [|done]. destruct (sn_Proof b) as [q|]; [|done].
  cbn in *. exists app, p, q. by simplify_eq.
Qed.

Lemma current_app_Some snap app : current_app snap = Some app ↔ sn_App snap = Some app ∧ ap_LoginID app = sn_LoginID snap.
Proof. unfold current_app. destruct (sn_App snap) as [a|]; [|naive_solver]. case_bool_decide; naive_solver. Qed.

(** ** Import *)

(** What an import may do to the tables. *)
Record grown (g g' : integrations) : Prop := {
  gw_accounts : ig_accounts g ⊆ ig_accounts g';
  gw_installations : ∀ i row, ig_installations g !! i = Some row → ∃ row', ig_installations g' !! i = Some row' ∧
    il_app_id row' = il_app_id row ∧ il_account_id row' = il_account_id row;
  gw_repositories : ig_repositories g ⊆ ig_repositories g';
  gw_bindings : ∀ id row, ig_repositories g !! id = Some row → ig_bindings g' !! id = ig_bindings g !! id;
  gw_rest : ig_app g' = ig_app g ∧ ig_flows g' = ig_flows g ∧ ig_proofs g' = ig_proofs g;
  gw_signin : ∃ d, ig_signin g' = with_db d (ig_signin g) ∧
    di_users (db_directory d) = di_users (db_directory (ig_db g)) ∧ di_sessions (db_directory d) = di_sessions (db_directory (ig_db g)) ∧
    di_memberships (db_directory d) = di_memberships (db_directory (ig_db g)) ∧ di_instance (db_directory d) = di_instance (db_directory (ig_db g));
}.

Lemma with_db_self s : with_db (si_db s) s = s.
Proof. by destruct s. Qed.

Lemma grown_refl g : grown g g.
Proof. split; try done; eauto. exists (si_db (ig_signin g)). split; [by rewrite with_db_self|done]. Qed.

Lemma grown_trans g1 g2 g3 : grown g1 g2 → grown g2 g3 → grown g1 g3.
Proof.
  intros [Ha Hi Hr Hb (?&?&?) (d & Hs & ?&?&?&?)] [Ha' Hi' Hr' Hb' (?&?&?) (d' & Hs' & ?&?&?&?)].
  assert (Hd : ig_db g2 = d) by (unfold ig_db; by rewrite Hs). split.
  - by etransitivity.
  - intros i row Hrow. destruct (Hi i row Hrow) as (row' & Hrow' & ? & ?). destruct (Hi' i row' Hrow') as (row'' & ? & ? & ?).
    exists row''. split; [done|]. split; congruence.
  - by etransitivity.
  - intros id row Hrow. rewrite <-(Hb id row Hrow). eapply Hb', lookup_weaken; [exact Hrow|exact Hr].
  - repeat split; congruence.
  - exists d'. rewrite Hs', Hs. split; [done|]. repeat split; congruence.
Qed.

Lemma is_github_grown external g g' id row : grown g g' → ig_repositories g !! id = Some row →
  is_github external g' (id, row) ↔ is_github external g (id, row).
Proof. intros Hg Hrow. unfold is_github. cbn. by rewrite (gw_bindings _ _ Hg _ _ Hrow). Qed.

Lemma find_repository_Some external g id row : find_repository external g = Some (id, row) →
  ig_repositories g !! id = Some row ∧ is_github external g (id, row).
Proof.
  unfold find_repository. intros ([i x] & Hf & Heq)%fmap_Some. cbn in Heq. subst x. apply list_find_Some in Hf as (Hi & Hp & _).
  split; [|done]. apply elem_of_map_to_list. by eapply list_elem_of_lookup_2.
Qed.

Lemma find_repository_None external g id row : find_repository external g = None → ig_repositories g !! id = Some row →
  ¬ is_github external g (id, row).
Proof.
  unfold find_repository. intros Hn%fmap_None Hrow. eapply list_find_None in Hn. rewrite Forall_forall in Hn. apply Hn.
  by apply elem_of_map_to_list.
Qed.
End Transactions.

(** *** The rows that an import leaves behind *)

(** A repository of an import: where its row lies, and what is new about it. *)
Definition imported_row (org : uuid) (installation : Z) (g g' : integrations) (repo : HostRepository) (item : Imported) : Prop :=
  im_Name item = import_name repo ∧
  ∃ row b, ig_repositories g' !! im_ID item = Some row ∧ is_github (hp_ID repo) g' (im_ID item, row) ∧ rp_organization_id row = org ∧
    ig_bindings g' !! im_ID item = Some b ∧ rb_installation_id b = Some installation ∧
    (im_Created item = true → ig_repositories g !! im_ID item = None ∧ rp_active row = true ∧ rb_owner b = hp_Owner repo ∧
       rb_name b = hp_Name repo ∧ rb_default_branch b = hp_DefaultBranch repo).

(** Every new row belongs to an item that says so. *)
Definition only_created (items : list Imported) (g g' : integrations) : Prop :=
  ∀ id row, ig_repositories g' !! id = Some row →
    ig_repositories g !! id = Some row ∨ ∃ item, item ∈ items ∧ im_ID item = id ∧ im_Created item = true.

Lemma insert_repository_spec id org installation repo g g' :
  insert_repository id org installation repo g = Ok g' →
  ig_repositories g !! id = None ∧ grown g g' ∧ ig_accounts g' = ig_accounts g ∧ ig_installations g' = ig_installations g ∧
  ig_repositories g' = <[id := mkRepositoryRow org "github" (hp_ID repo) ("https://github.com/" +:+ import_name repo +:+ ".git")%string true]>
    (ig_repositories g) ∧
  ig_bindings g' = <[id := mkBindingRow GitHubInstance (hp_Owner repo) (hp_Name repo) (hp_DefaultBranch repo) (Some installation)]> (ig_bindings g).
Proof.
  unfold insert_repository. destruct (bool_decide _) eqn:Hid; [done|]. intros [= <-]. bools.
  assert (Hn : ig_repositories g !! id = None) by by apply eq_None_not_Some.
  split; [done|]. split; [|done]. split; cbn; try done; [eauto|by apply insert_subseteq| |by eexists].
  intros id' row Hrow. rewrite lookup_insert_ne; [done|congruence].
Qed.

Lemma grown_audit actor action resource id g : grown g (ig_audit actor action resource id g).
Proof. split; try done; [cbn; eauto|by eexists]. Qed.

(** The row of an item is still there after more of the import. *)
Lemma imported_row_later org installation g g1 g2 repo item :
  imported_row org installation g g1 repo item → grown g1 g2 → imported_row org installation g g2 repo item.
Proof.
  intros (Hn & row & b & Hrow & Hgh & Ho & Hb & Hi & Hc) Hg. split; [done|]. exists row, b.
  split; [eapply lookup_weaken; [done|apply Hg]|]. split; [by apply (is_github_grown _ g1)|]. split; [done|].
  by rewrite (gw_bindings _ _ Hg _ _ Hrow).
Qed.

Lemma imported_row_earlier org installation g g1 g2 repo item :
  grown g g1 → imported_row org installation g1 g2 repo item → imported_row org installation g g2 repo item.
Proof.
  intros Hg (Hn & row & b & Hrow & Hgh & Ho & Hb & Hi & Hc). split; [done|]. exists row, b. repeat split; try done; try by apply Hgh.
  - eapply lookup_weaken_None; [by apply Hc|apply Hg].
  - by apply Hc.
  - by apply Hc.
  - by apply Hc.
  - by apply Hc.
Qed.

(** One turn of the loop. *)
Lemma import_one draws actor org installation repo g g' item :
  match find_repository (hp_ID repo) g with
  | Some (existing, row) =>
    fail_if (rp_organization_id row <>? org) || ((ig_bindings g !! existing ≫= rb_installation_id) <>? Some installation) with ErrStale;;
    Ok (g, mkImported existing (import_name repo) false)
  | None =>
    let id := di_repo draws (hp_ID repo) in
    let? g := insert_repository id org installation repo g in
    Ok (ig_audit actor "repository.imported" "repository" id g, mkImported id (import_name repo) true)
  end = Ok (g', item) →
  grown g g' ∧ ig_accounts g' = ig_accounts g ∧ ig_installations g' = ig_installations g ∧
  imported_row org installation g g' repo item ∧ only_created [item] g g'.
Proof.
  destruct (find_repository _ _) as [[existing row]|] eqn:Hf.
  - destruct (_ || _) eqn:Hc; [done|]. intros [= <- <-]. bools. apply find_repository_Some in Hf as [Hrow Hgh].
    destruct (ig_bindings g !! existing) as [b|] eqn:Hb; [|done]. cbn in *.
    split; [apply grown_refl|]. repeat split; try done; [|by left]. by exists row, b.
  - cbv zeta. destruct (insert_repository _ _ _ _ _) as [g1|] eqn:Hins; [|done]. cbn [rbind]. intros [= <- <-].
    apply insert_repository_spec in Hins as (Hn & Hg & Ha & Hi & Hr & Hb).
    split; [eapply grown_trans; [exact Hg|apply grown_audit]|]. split; [done|]. split; [done|]. split.
    + eapply imported_row_later; [|apply grown_audit]. split; [done|]. unfold is_github. cbn [im_ID im_Created fst snd].
      rewrite Hr, Hb, !lookup_insert_eq. do 2 eexists. by repeat split.
    + intros id' row' Hrow. assert (Hrow' : ig_repositories g1 !! id' = Some row') by exact Hrow. rewrite Hr in Hrow'.
      apply lookup_insert_Some in Hrow' as [[<- _]|[_ ?]]; [right|by left].
      eexists. split; [by apply list_elem_of_singleton|done].
Qed.

Lemma import_repositories_spec draws actor org installation repos g g' items :
  import_repositories draws actor org installation repos g = Ok (g', items) →
  grown g g' ∧ ig_accounts g' = ig_accounts g ∧ ig_installations g' = ig_installations g ∧
  Forall2 (imported_row org installation g g') repos items ∧ only_created items g g'.
Proof.
  revert g items. induction repos as [|repo repos IH]; intros g items; cbn [import_repositories].
  - intros [= <- <-]. split; [apply grown_refl|]. repeat split; [constructor|by left].
  - destruct (match find_repository _ _ with Some _ => _ | None => _ end) as [[g1 item]|] eqn:Hone; [|done]. cbn [rbind].
    destruct (import_repositories _ _ _ _ _ _) as [[g2 items2]|] eqn:Hrest; [|done]. cbn [rbind]. intros [= <- <-].
    apply import_one in Hone as (Hg1 & Ha1 & Hi1 & Hrow1 & Hnew1). apply IH in Hrest as (Hg2 & Ha2 & Hi2 & Hrows & Hnew2).
    split; [by eapply grown_trans|]. split; [congruence|]. split; [congruence|]. split.
    + constructor; [by eapply imported_row_later|]. eapply Forall2_impl; [exact Hrows|]. intros. by eapply imported_row_earlier.
    + intros id row Hrow. destruct (Hnew2 id row Hrow) as [H1|(item' & Hin & H1)].
      * destruct (Hnew1 id row H1) as [?|(item' & ->%list_elem_of_singleton & H2)]; [by left|]. right. exists item. split; [apply list_elem_of_here|done].
      * right. exists item'. split; [by apply list_elem_of_further|done].
Qed.

(** ** Well-formed states *)

Lemma ok_with_signin g s : scm_ok g → signin_ok s → di_repositories (si_directory s) = ig_repositories g → scm_ok (with_signin s g).
Proof. intros [? ? ? ? ? ? ? ? Hb Hu] Hs Hr. split; try done; cbn; unfold ig_db; cbn; unfold si_directory in Hr; rewrite Hr; [exact Hb|exact Hu]. Qed.

Lemma ok_with_ig_db g d : scm_ok g → di_users (db_directory d) = di_users (db_directory (ig_db g)) →
  di_memberships (db_directory d) = di_memberships (db_directory (ig_db g)) →
  di_sessions (db_directory d) = di_sessions (db_directory (ig_db g)) → di_repositories (db_directory d) = ig_repositories g →
  scm_ok (with_ig_db d g).
Proof.
  intros Hok Hu Hm Hs Hr. apply ok_with_signin; [done| |done]. apply ok_same_directory; [by apply go_signin|done..|by rewrite Hs].
Qed.

Lemma ok_ig_audit actor action resource id g : scm_ok g → scm_ok (ig_audit actor action resource id g).
Proof. intros Hok. apply ok_with_signin; [done| |done]. by apply ok_audit, go_signin. Qed.

(** Flows and proofs of the present revision may go. *)
Lemma ok_fewer_flows p g : scm_ok g → scm_ok (with_import_flows (List.filter p (ig_flows g)) g).
Proof.
  intros [? ? [Hf Hp] Hst Hcur ? ? ? ? ?]. split; try done; cbn.
  - split; [by apply NoDup_fmap_bfilter|done].
  - by apply NoDup_fmap_bfilter.
  - intros f [Hin _]%elem_of_bfilter. by apply Hcur.
Qed.

Lemma ok_fewer_proofs p g : scm_ok g → scm_ok (with_proofs (List.filter p (ig_proofs g)) g).
Proof.
  intros [? ? [Hf Hp] ? ? Hcur ? ? ? ?]. split; try done; cbn.
  - split; [done|by apply NoDup_fmap_bfilter].
  - intros q [Hin _]%elem_of_bfilter. by apply Hcur.
Qed.

Lemma ok_new_flow f g : scm_ok g → if_session_id f ∉ if_session_id <$> ig_flows g → if_state_hash f ∉ if_state_hash <$> ig_flows g →
  current_revision (if_login_id f) (if_app_revision f) g → scm_ok (with_import_flows (ig_flows g ++ [f]) g).
Proof.
  intros [? ? [Hf Hp] Hst Hcur ? ? ? ? ?] Hs Hh Hc. split; try done; cbn.
  - split; [by apply NoDup_snoc|done].
  - by apply NoDup_snoc.
  - intros f' [Hin| ->%list_elem_of_singleton]%elem_of_app; [by apply Hcur|done].
Qed.

Lemma ok_new_proof p g : scm_ok g → ip_session_id p ∉ ip_session_id <$> ig_proofs g →
  (∃ row, ig_app g = Some row ∧ gc_id row = ip_app_revision p) → scm_ok (with_proofs (ig_proofs g ++ [p]) g).
Proof.
  intros [? ? [Hf Hp] ? ? Hcur ? ? ? ?] Hs Hc. split; try done; cbn.
  - split; [done|by apply NoDup_snoc].
  - intros p' [Hin| ->%list_elem_of_singleton]%elem_of_app; [by apply Hcur|done].
Qed.

Lemma ok_consume_flow q g : scm_ok g → scm_ok (with_import_flows (update_all q consume_flow (ig_flows g)) g).
Proof.
  intros [? ? [Hf Hp] Hst Hcur ? ? ? ? ?]. split; try done; cbn.
  - by rewrite fmap_update_keep.
  - by rewrite fmap_update_keep.
  - intros f (f0 & Hin & ->)%elem_of_update_all. apply Hcur in Hin. by destruct (q f0).
Qed.

Lemma ok_with_app row g : scm_ok g → 0 < gc_app_id row ∧ 0 ≤ gc_webhook_secret_version row ∧
    (gc_webhook_enabled row = true → gc_webhook_secret row ≠ None) →
  scm_ok (with_proofs [] (with_import_flows [] (with_app (Some row) g))).
Proof.
  intros [? ? ? ? ? ? ? ? ? ?] Hrow. split; try done; cbn.
  - by intros row' [= <-].
  - split; apply NoDup_nil_2.
  - apply NoDup_nil_2.
  - by intros f ?%not_elem_of_nil.
  - by intros p ?%not_elem_of_nil.
Qed.

(** *** The stages of an import *)

Lemma account_organization_spec draws account install g g' org :
  scm_ok g → account_organization draws account install g = Ok (g', org) →
  scm_ok g' ∧ grown g g' ∧ ig_accounts g' !! account = Some org ∧ ig_repositories g' = ig_repositories g.
Proof.
  unfold account_organization. intros Hok. destruct (ig_accounts g !! account) as [o|] eqn:Ha; cbv zeta.
  - intros [= <- <-]. split; [done|]. split; [apply grown_refl|done].
  - destruct (_ || _) eqn:Hc; [done|]. intros [= <- <-]. bools.
    assert (Hnew : ∀ a org', ig_accounts g !! a = Some org' → org' ≠ di_org draws).
    { intros a org' Ho ->. apply elem_of_map_to_list, (list_elem_of_fmap_2 snd) in Ho. done. }
    split; [|split; [|split; [by apply lookup_insert_eq|done]]].
    + destruct Hok as [Hs ? ? ? ? ? Hacc Hinst Hb Hu]. split; try done; cbn.
      * by apply ok_same_directory.
      * intros a a' o [[<- <-]|[_ Hx]]%lookup_insert_Some [[<- Hy]|[_ Hy]]%lookup_insert_Some; [done|by apply Hnew in Hy|subst o; by apply Hnew in Hx|by eapply Hacc].
      * intros i row Hrow. destruct (decide (il_account_id row = account)) as [<-|Hne]; [by rewrite lookup_insert_eq|].
        rewrite lookup_insert_ne by done. by eapply Hinst.
      * intros id row b i Hrow Hp Hbind Hi. destruct (Hb id row b i Hrow Hp Hbind Hi) as (il & Hil & Ho). exists il. split; [done|].
        rewrite lookup_insert_ne; [done|congruence].
    + split; cbn; try done; [by apply insert_subseteq|eauto|by eexists].
Qed.

Lemma upsert_installation_spec id app_id account g g' org :
  scm_ok g → ig_accounts g !! account = Some org → upsert_installation id app_id account g = Ok g' →
  scm_ok g' ∧ grown g g' ∧ ig_accounts g' = ig_accounts g ∧ ig_repositories g' = ig_repositories g ∧
  ∃ il, ig_installations g' !! id = Some il ∧ il_app_id il = app_id ∧ il_account_id il = account.
Proof.
  unfold upsert_installation. intros Hok Ha. destruct (match ig_installations g !! id with Some _ => _ | None => _ end) eqn:Hc; [done|].
  intros [= <-]. assert (Hsame : ∀ row, ig_installations g !! id = Some row → il_app_id row = app_id ∧ il_account_id row = account).
  { intros row Hrow. rewrite Hrow in Hc. by bools. }
  split; [|split; [|split; [done|split; [done|eexists; split; [apply lookup_insert_eq|done]]]]].
  - destruct Hok as [? ? ? ? ? ? ? Hinst Hb ?]. split; try done; cbn.
    + intros i row [[<- <-]|[? Hrow]]%lookup_insert_Some; [cbn; rewrite Ha; by eexists|by eapply Hinst].
    + intros rid row b i Hrow Hp Hbind Hi. destruct (Hb rid row b i Hrow Hp Hbind Hi) as (il & Hil & Ho).
      destruct (decide (i = id)) as [->|Hne]; [|exists il; by rewrite lookup_insert_ne by done].
      eexists. split; [apply lookup_insert_eq|]. cbn. by destruct (Hsame il Hil) as [_ <-].
  - split; cbn; try done; [|by exists (si_db (ig_signin g)); rewrite with_db_self].
    intros i row Hrow. destruct (decide (i = id)) as [->|Hne]; [|exists row; by rewrite lookup_insert_ne by done].
    eexists. split; [apply lookup_insert_eq|]. cbn. by destruct (Hsame row Hrow) as [-> ->].
Qed.

Lemma ok_insert_repository id org installation repo g g' :
  scm_ok g → find_repository (hp_ID repo) g = None →
  (∃ il, ig_installations g !! installation = Some il ∧ ig_accounts g !! il_account_id il = Some org) →
  insert_repository id org installation repo g = Ok g' → scm_ok g'.
Proof.
  intros Hok Hf Hil Hins. apply insert_repository_spec in Hins as Hspec. destruct Hspec as (Hn & Hg & Ha & Hi & Hr & Hbi).
  assert (Hold : ∀ external id' row, ig_repositories g !! id' = Some row → is_github external g' (id', row) → is_github external g (id', row)).
  { intros external id' row Hrow. by rewrite (is_github_grown external g g' id' row Hg Hrow). }
  assert (Hs : signin_ok (ig_signin g')).
  { destruct (gw_signin _ _ Hg) as (d & -> & ? & ? & ? & ?). apply ok_same_directory; [by apply go_signin|done..|by f_equal]. }
  destruct (gw_rest _ _ Hg) as (Happ & Hfl & Hpr). destruct Hok as [_ Hap [Hns Hps] Hst Hcf Hcp Hacc Hinst Hb Hu].
  split; rewrite ?Happ, ?Hfl, ?Hpr, ?Ha, ?Hi, ?Hr, ?Hbi; try done.
  - intros f. unfold current_revision. rewrite Happ. by apply Hcf.
  - intros id' row b i Hrow Hp Hbind Hin. apply lookup_insert_Some in Hrow as [[<- <-]|[Hne Hrow]].
    + rewrite lookup_insert_eq in Hbind. injection Hbind as <-. cbn in Hin. injection Hin as <-. done.
    + rewrite lookup_insert_ne in Hbind by done. by eapply Hb.
  - assert (Hnew : ∀ external id' row, ig_repositories g !! id' = Some row → is_github external g' (id', row) →
      ¬ is_github external g' (id, mkRepositoryRow org "github" (hp_ID repo) ("https://github.com/" +:+ import_name repo +:+ ".git")%string true)).
    { intros external id' row Hrow Hgh (_ & <- & _). eapply find_repository_None; [exact Hf|exact Hrow|]. by apply Hold. }
    intros external [i row] [i' row'] Hin Hin' Hgh Hgh'. apply elem_of_map_to_list, lookup_insert_Some in Hin, Hin'.
    destruct Hin as [[<- <-]|[Hne Hin]], Hin' as [[<- <-]|[Hne' Hin']]; [done|by eapply Hnew in Hgh'|by eapply Hnew in Hgh|].
    eapply (Hu external); [by apply elem_of_map_to_list|by apply elem_of_map_to_list|by apply Hold|by apply Hold].
Qed.

Lemma ok_import_repositories draws actor org installation repos g g' items :
  scm_ok g → (∃ il, ig_installations g !! installation = Some il ∧ ig_accounts g !! il_account_id il = Some org) →
  import_repositories draws actor org installation repos g = Ok (g', items) → scm_ok g'.
Proof.
  revert g items. induction repos as [|repo repos IH]; intros g items Hok Hil; cbn [import_repositories]; [by intros [= <- _]|].
  destruct (match find_repository _ _ with Some _ => _ | None => _ end) as [[g1 item]|] eqn:Hone; [|done]. cbn [rbind].
  destruct (import_repositories _ _ _ _ _ _) as [[g2 items2]|] eqn:Hrest; [|done]. cbn [rbind]. intros [= <- _].
  apply import_one in Hone as Hspec. destruct Hspec as (_ & Ha & Hi & _).
  assert (scm_ok g1); [|by eapply IH; [..|exact Hrest]; [done|rewrite Ha, Hi]].
  destruct (find_repository _ _) as [[existing row]|] eqn:Hf.
  - destruct (_ || _); [done|]. by injection Hone as <- _.
  - cbv zeta in Hone. destruct (insert_repository _ _ _ _ _) as [g3|] eqn:Hins; [|done]. injection Hone as <- _.
    by eapply ok_ig_audit, ok_insert_repository.
Qed.

(** ** Signing in leaves repositories alone *)

Definition same_places (s s' : signin) : Prop :=
  di_repositories (si_directory s') = di_repositories (si_directory s) ∧ di_organizations (si_directory s') = di_organizations (si_directory s).

Lemma same_places_trans s1 s2 s3 : same_places s1 s2 → same_places s2 s3 → same_places s1 s3.
Proof. intros [? ?] [? ?]. split; congruence. Qed.

Lemma settings_places s s' : settings_change s s' → same_places s s'.
Proof. by induction 1. Qed.

Section Steps.
Variable sha256 : string → string.

Lemma RevokeSession_places token d : di_repositories (db_directory (RevokeSession sha256 token d).1) = di_repositories (db_directory d) ∧
  di_organizations (db_directory (RevokeSession sha256 token d).1) = di_organizations (db_directory d).
Proof. unfold RevokeSession. destruct (TokenDigest _ _); [|done]. unfold transaction. by destruct (list_find _ _) as [[i row]|]. Qed.

Lemma revoke_current_places token s : same_places s (revoke_current sha256 token s).
Proof. unfold revoke_current. destruct (TokenDigest _ _); [|done]. apply RevokeSession_places. Qed.

Lemma open_session_places id value owner s s' credentials : open_session sha256 id value owner s = Ok (s', credentials) → same_places s s'.
Proof.
  unfold open_session, issueSession. destruct (_ !! owner) as [u|]; [|done]. destruct (negb _); [done|]. cbv zeta.
  destruct (bool_decide _); [done|]. cbn [lift rbind]. by intros [= <- _].
Qed.

Lemma finish_places draws flow user currentToken setupToken s s' credentials :
  finish_flow sha256 draws flow user currentToken setupToken s = Ok (s', credentials) → same_places s s'.
Proof.
  intros (s1 & s2 & s3 & s4 & s5 & activation & before & linked & known & owner & b & Hc)%finish_flow_spec.
  destruct Hc as [(x & -> & _)%prepare_keeps _ _ _ _ Huser _ Hbind Hgrant Hsession ->].
  assert (same_places s s2) as H2.
  { destruct Huser as [(_ & _ & (users & ->)%insert_user_frame)|(_ & _ & ->)]; done. }
  assert (same_places s2 s3) as H3.
  { destruct (find_identity user _); [by subst s3|]. by apply bind_identity_frame in Hbind as (row & -> & _). }
  assert (same_places s3 s4) as H4.
  { destruct (bo_consumed b); [by subst s4|]. unfold bootstrap_instance in Hgrant. destruct (has_admin s3); [done|]. by injection Hgrant as <-. }
  apply open_session_places in Hsession as H5. eapply same_places_trans; [|apply revoke_current_places].
  assert (same_places s s5) as H6.
  { eapply same_places_trans; [exact H2|]. eapply same_places_trans; [exact H3|]. eapply same_places_trans; [exact H4|exact H5]. }
  by destruct activation.
Qed.

Lemma execute_places op s : same_places s (execute sha256 op s).1.
Proof.
  destruct (execute_change sha256 op s) as [op s' Hs|subject Hn _|op flow s' Hb _ _|value state nonce s' ticket Hc
    |draws ticket user current setup s' credentials Hf|token d r Hr|waited id token subject scope role add d r Hr].
  - by apply settings_places.
  - done.
  - revert Hb. unfold begin_flow. destruct (_ <=? _); [done|]. destruct (bool_decide _); [done|]. by intros [= <-].
  - by apply ConsumeOAuth_spec in Hc as [[-> _]|(h & b & t & g & _ & _ & _ & _ & _ & _ & _ & _ & _ & _ & ->)].
  - apply finishOAuth_spec in Hf as [[-> _]|(h & flow & c & _ & _ & _ & _ & _ & _ & Hfin)]; [done|]. by apply finish_places in Hfin.
  - pose proof (RevokeSession_places token (si_db s)) as H. by rewrite Hr in H.
  - revert Hr. unfold ChangeMembership. destruct (_ || _); [by intros [= <- _]|]. destruct (negb _); [by intros [= <- _]|].
    unfold transaction. destruct (authenticateSession _ _ _) as [session|]; cbn [rbind]; [|by intros [= <- _]].
    destruct (_ =? subject); [by intros [= <- _]|]. destruct (authorize _ _ _ _) as [[]|]; cbn [rbind]; [|by intros [= <- _]].
    destruct (_ !! subject); [|by intros [= <- _]]. destruct (_ && _); [by intros [= <- _]|]. cbv zeta.
    destruct (sessionLive _ _) as [[]|]; cbn [rbind]; [|by intros [= <- _]]. by destruct add, (List.filter _ _); intros [= <- _].
Qed.
End Steps.

(** ** Every reachable state is well formed *)

Lemma ParseInt_subject text n : ValidGitHubSubject text = true → ParseInt text = Some n → 0 < n ∧ FormatInt n = text.
Proof. unfold ValidGitHubSubject. intros Hv Hp. rewrite Hp in Hv. bools. split; [lia|done]. Qed.

Section Reachable.
Variable sha256 : string → string.
Variable gcm : bytes → option AEAD.
Variable uuid_String : uuid → string.

Lemma ok_save_app token expected app g :
  scm_ok g → (ap_WebhookEnabled app = true → ap_WebhookSecretPresent app = true) →
  scm_ok (SaveIntegrationApp sha256 token expected app g).1.
Proof.
  intros Hok Hen. unfold SaveIntegrationApp. destruct (_ || _); [done|]. apply integrationTx_keeps; [done|].
  intros actor snap g' [] _. destruct (sameIntegration _ _ _) as [[]|]; [|done]. cbn [rbind].
  destruct (ParseInt _) as [app_id|]; [|done]. destruct (_ || _) eqn:Hc; [done|]. intros [= <-]. bools.
  apply ok_ig_audit, ok_with_app; [done|]. cbn. split; [lia|]. split; [lia|]. intros He. by rewrite Hen.
Qed.

Lemma new_app_enabled sv id random_key random_secret input snap verified app :
  new_app gcm uuid_String sv id random_key random_secret input snap verified = Ok app →
  ap_WebhookEnabled app = true → ap_WebhookSecretPresent app = true.
Proof.
  unfold new_app. destruct (seal _ _ _ _ _) as [key|]; [|done]. cbn [rbind].
  destruct (next_webhook_secret _ _ _ _ _) as [secret|]; [|done]. cbn [rbind].
  destruct (match secret with [] => _ | _ => _ end) as [[sealed present]|]; [|done]. cbn [rbind].
  destruct (_ && negb present) eqn:Hc; [done|]. intros [= <-]. cbn. intros He. rewrite He in Hc. by destruct present.
Qed.

Lemma ok_begin_import id token expected state nonce g : scm_ok g → scm_ok (BeginIntegrationFlow sha256 id token expected state nonce g).1.
Proof.
  intros Hok. unfold BeginIntegrationFlow. destruct (flow_digests _ _ _) as [[h b]|]; [|done]. apply integrationTx_keeps; [done|].
  intros actor snap g' [] [_ Hsnap%integrationSnapshot_shown]. destruct (sameIntegration _ _ _) as [[]|]; [|done]. cbn [rbind].
  destruct (current_app snap) as [app|] eqn:Happ; [|done]. cbv zeta. destruct (1000 <=? _); [done|].
  destruct (_ || _) eqn:Hc; [done|]. intros [= <-]. bools. apply current_app_Some in Happ as [Happ Hlogin].
  set (session := ss_ID (sa_session actor)).
  pose proof (ok_fewer_proofs (λ p, negb ((ip_expires_at p <=? ig_now g) || (ip_session_id p =? session))) _
    (ok_fewer_flows (λ f, negb ((if_expires_at f <=? ig_now g) || (if_session_id f =? session))) g Hok)) as H1.
  refine (ok_new_flow _ _ H1 _ _ _); cbn; [|done|].
  - intros (f & Hs & [_ Hf]%elem_of_bfilter)%list_elem_of_fmap. bools. by subst session.
  - rewrite (sh_app _ _ _ Hsnap) in Happ. apply fmap_Some in Happ as (row & Hrow & ->). by exists row.
Qed.

Lemma ok_consume_import token state nonce g : scm_ok g → scm_ok (ConsumeIntegrationFlow sha256 token state nonce g).1.
Proof.
  intros Hok. unfold ConsumeIntegrationFlow. destruct (flow_digests _ _ _) as [[h b]|]; [|done]. apply integrationTx_keeps; [done|].
  intros actor snap g' a _. destruct (current_app snap) as [app|]; [|done]. cbv zeta.
  destruct (List.filter _ _); [done|]. intros [= <- _]. by apply ok_consume_flow.
Qed.

Lemma ok_save_proof now token expected proof g : scm_ok g → scm_ok (SaveIntegrationProof sha256 now token expected proof g).1.
Proof.
  intros Hok. unfold SaveIntegrationProof. destruct (_ || (_ <? _)); [done|]. apply integrationTx_keeps; [done|].
  intros actor snap g' [] [_ Hsnap%integrationSnapshot_shown]. destruct (sameIntegration _ _ _) as [[]|]; [|done]. cbn [rbind].
  destruct (sn_App snap) as [app|] eqn:Happ; [|done]. destruct (bool_decide _); [done|]. cbv zeta. destruct (_ <>? 1); [done|].
  destruct (deadline _ _) as [[]|]; [|done]. cbn [rbind]. destruct (bool_decide _); [done|]. intros [= <-].
  set (session := ss_ID (sa_session actor)). apply ok_ig_audit.
  refine (ok_new_proof _ _ (ok_fewer_proofs (λ p, ip_session_id p <>? session) _ (ok_fewer_flows _ g Hok)) _ _); cbn.
  - intros (p & Hs & [_ Hp]%elem_of_bfilter)%list_elem_of_fmap. bools. by subst session.
  - rewrite (sh_app _ _ _ Hsnap) in Happ. apply fmap_Some in Happ as (row & Hrow & ->). by exists row.
Qed.

(** What an import did, stage by stage. *)
Record import_done (draws : importDraws) (token : string) (expected : Snapshot) (install : Installation) (repos : list HostRepository)
    (g g' : integrations) (items : list Imported) (actor : settingsActor) (current : Snapshot) (account installation : Z)
    (app : appConfigRow) (proof : Proof_) (org : uuid) (g1 g2 g3 : integrations) : Prop := {
  id_granted : granted sha256 token false g actor current;
  id_same : sameIntegration current expected true = Ok tt;
  id_account : ParseInt (in_AccountID install) = Some account ∧ ParseInt (in_ID install) = Some installation;
  id_app : ig_app g = Some app;
  id_proof : sn_Proof current = Some proof;
  id_org : account_organization draws account install g = Ok (g1, org);
  id_installation : upsert_installation installation (gc_app_id app) account g1 = Ok g2;
  id_items : import_repositories draws actor org installation repos g2 = Ok (g3, items);
  id_state : g' = with_ig_db (elapse (di_waited draws) (ig_db g3)) g3;
  id_deadline : ig_now g' < pf_ExpiresAt proof;
  id_live : sessionLive (sa_session actor) (ig_db g') = Ok tt;
}.

Lemma ImportRepositories_done draws token expected install repos g g' r :
  ImportRepositories sha256 draws token expected install repos g = (g', r) →
  (g' = g ∧ ∃ e, r = Err e) ∨
  ∃ items, r = Ok items ∧ ValidGitHubSubject (in_ID install) = true ∧ ValidGitHubSubject (in_AccountID install) = true ∧
    ∃ actor current account installation app proof org g1 g2 g3,
    import_done draws token expected install repos g g' items actor current account installation app proof org g1 g2 g3.
Proof.
  unfold ImportRepositories. destruct (_ || _) eqn:Hv; [intros [= <- <-]; left; eauto|]. bools.
  intros [?|(actor & snap & items & -> & Hgr & Hf & Hl)]%integrationTx_cases; [by left|]. right. exists items.
  split; [done|]. split; [done|]. split; [done|].
  destruct (sameIntegration _ _ _) as [[]|] eqn:Hs; [|done]. cbn [rbind] in Hf.
  destruct (ParseInt (in_AccountID install)) as [account|] eqn:Ha; [|done].
  destruct (ParseInt (in_ID install)) as [installation|] eqn:Hi; [|done].
  destruct (ig_app g) as [app|] eqn:Happ; [|done]. destruct (sn_Proof snap) as [proof|] eqn:Hp; [|done].
  destruct (account_organization _ _ _ _) as [[g1 org]|] eqn:Ho; [|done]. cbn [rbind] in Hf.
  destruct (upsert_installation _ _ _ _) as [g2|] eqn:Hu; [|done]. cbn [rbind] in Hf.
  destruct (import_repositories _ _ _ _ _ _) as [[g3 items']|] eqn:Hr; [|done]. cbn [rbind] in Hf. cbv zeta in Hf.
  destruct (deadline _ _) as [[]|] eqn:Hd; [|done]. cbn [rbind] in Hf. injection Hf as <- <-.
  exists actor, snap, account, installation, app, proof, org, g1, g2, g3. split; try done.
  unfold deadline in Hd. revert Hd. destruct (Z.ltb_spec (ig_now (with_ig_db (elapse (di_waited draws) (ig_db g3)) g3)) (pf_ExpiresAt proof)); done.
Qed.

Lemma ok_import draws token expected install repos g g' items actor current account installation app proof org g1 g2 g3 :
  scm_ok g → import_done draws token expected install repos g g' items actor current account installation app proof org g1 g2 g3 →
  scm_ok g' ∧ grown g g' ∧ Forall2 (imported_row org installation g g') repos items ∧ only_created items g g' ∧
  ig_accounts g' !! account = Some org.
Proof.
  intros Hok [_ _ _ _ _ Ho Hu Hr -> _ _]. destruct (account_organization_spec _ _ _ _ _ _ Hok Ho) as (Hok1 & Hg1 & Ha1 & Hr1).
  destruct (upsert_installation_spec _ _ _ _ _ _ Hok1 Ha1 Hu) as (Hok2 & Hg2 & Ha2 & Hr2 & il & Hil & _ & Hac).
  assert (Hok3 : scm_ok g3) by (eapply ok_import_repositories; [exact Hok2| |exact Hr]; exists il; by rewrite Ha2, Hac).
  apply import_repositories_spec in Hr as (Hg3 & Ha3 & _ & Hrows & Hnew).
  assert (Hg4 : grown g3 (with_ig_db (elapse (di_waited draws) (ig_db g3)) g3)).
  { split; cbn; try done; [eauto|by eexists]. }
  assert (Hg02 : grown g g2) by by eapply grown_trans.
  split; [by apply ok_with_ig_db|]. split; [eapply grown_trans; [exact Hg02|by eapply grown_trans]|]. split; [|split].
  - eapply Forall2_impl; [exact Hrows|]. intros repo item Hrow. eapply imported_row_later; [|exact Hg4]. by eapply imported_row_earlier.
  - intros id row Hrow. rewrite <-Hr1, <-Hr2. by apply (Hnew id row).
  - cbn. by rewrite Ha3, Ha2.
Qed.

Lemma ok_perform op g : scm_ok g → possible_scm gcm uuid_String op → scm_ok (perform_scm sha256 op g).
Proof.
  intros Hok Hp. destruct op as [op|token expected app|id token expected state nonce|token state nonce|now token expected proof
    |draws token expected install repos|]; cbn [perform_scm possible_scm] in *.
  - apply ok_with_signin; [done|apply ok_execute; [by apply go_signin|done]|]. apply execute_places.
  - apply ok_save_app; [done|]. destruct Hp as (sv & id & rk & rs & input & verified & Hn). by eapply new_app_enabled.
  - by apply ok_begin_import.
  - by apply ok_consume_import.
  - by apply ok_save_proof.
  - destruct (ImportRepositories _ _ _ _ _ _ _) as [g' r] eqn:Hi.
    apply ImportRepositories_done in Hi as [[-> _]|(items & -> & _ & _ & actor & current & account & installation & app & proof & org & g1 & g2 & g3 & Hd)];
      [done|]. by eapply ok_import in Hd as [? _].
  - unfold PruneIntegrationCredentials.
    exact (ok_fewer_proofs (λ p, usable (ip_expires_at p) (ip_session_id p) (ip_login_id p) (ip_app_revision p) g) _ (ok_fewer_flows _ g Hok)).
Qed.

Lemma ok_scm_step g g' : scm_ok g → scm_step sha256 (possible_scm gcm uuid_String) g g' → scm_ok g'.
Proof.
  intros Hok Hstep. destruct Hstep as [op g0 Hp|g0 d (Hi & Hu & Hs & Hm & _) (_ & Hsub & Hnew)]; [by apply ok_perform|].
  assert (Hsig : signin_ok (ig_signin (with_ig_db d g0))) by (apply ok_same_directory; [by apply go_signin|done..|by rewrite Hs]).
  destruct Hok as [_ ? ? ? ? ? ? ? Hb Huq]. split; try done; cbn.
  - intros id row b i Hrow Hp. apply (Hb id row b i); [by apply Hnew|done].
  - intros external [id row] [id' row'] Hin Hin' Hgh Hgh'. apply elem_of_map_to_list in Hin, Hin'.
    eapply (Huq external); [| |exact Hgh|exact Hgh']; apply elem_of_map_to_list, Hnew; try done; [by apply Hgh|by apply Hgh'].
Qed.

Lemma ok_scm_history g g' : scm_ok g → scm_history sha256 gcm uuid_String g g' → scm_ok g'.
Proof. intros Hok. induction 1 as [|g1 g2 g3 Hstep _ IH]; [done|]. by apply IH; eapply ok_scm_step. Qed.

Lemma ok_scm_start g : scm_start g → scm_ok g.
Proof.
  intros (Hs & Ha & Hf & Hp & Hac & Hin & Hb & Hu). split; rewrite ?Ha, ?Hf, ?Hp, ?Hac, ?Hin; try done.
  - by apply ok_start.
  - split; apply NoDup_nil_2.
  - apply NoDup_nil_2.
  - by intros f ?%not_elem_of_nil.
  - by intros p ?%not_elem_of_nil.
  - intros id row b i _ _ Hbind Hi. by rewrite (Hb id b Hbind) in Hi.
Qed.

Lemma ok_scm_reachable g : scm_reachable sha256 gcm uuid_String g → scm_ok g.
Proof. intros (g0 & Hs & Hh). by eapply ok_scm_history; [apply ok_scm_start|]. Qed.
End Reachable.
