(* ===== verification/IntegrationProps.v ===== *)
(** The properties of the integration with GitHub, and a concrete history at which they are
    applied. *)

From S2P Require Import Prelude GoStd RunModel Codecs Database Identity Secrets SignIn SignInService SignInProps GithubClient Integration IntegrationService IntegrationFacts Authorization SignInFacts.

(** * A concrete history of IntegrationFacts.v, at which its theorems are applied: the administrator
    of SignInProps.v saves the App, proves to own an account of GitHub and imports a repository. *)

Section Run.
Variable sha256 : string → string.
Variable gcm : bytes → option AEAD.
Variable uuid_String : uuid → string.

Definition run_scm (ops : list scm_op) (g : integrations) : integrations := foldl (λ g op, perform_scm sha256 op g) g ops.

Lemma scm_history_run g ops : Forall (possible_scm gcm uuid_String) ops → scm_history sha256 gcm uuid_String g (run_scm ops g).
Proof.
  intros Hops. revert g. induction Hops as [|op ops Hp _ IH]; intros g; [apply rtc_refl|].
  eapply rtc_l; [by apply scm_perform|apply IH].
Qed.
End Run.

(** The answers of GitHub. *)
Definition sc_installation : Installation := mkInstallation "5" "6" "octocat".
Definition sc_repository : HostRepository := mkHostRepository "77" "OctoCat" "app" "main".
Definition sc_verified : App := mkApp 0 0 "99" "ci" "client" empty_envelope empty_envelope false false 0.
Definition sc_expiry : time := 1000 * Hour + 9 * Minute.
Definition sc_provider : Provider :=
  mkProvider (λ _ _, Ok sc_verified) (λ _ _ _ _, "") (λ _ _ _ _ _, Ok ("4711", "access", sc_expiry)) (λ _, Ok [sc_installation])
    (λ _ _ _, Ok tt) (λ _ _ page, Ok (if page =? 1 then mkRepoPage [mkHostRepository "76" "octocat" "other" "main"] 2 else mkRepoPage [sc_repository] 0)).

Definition sc_service : ScmService := NewScmService toy_aead "https://ci.example/".
Definition sc_input : AppInput := mkAppInput "99" "key" (Some "0123456789abcdef") (Some true) None.

Definition sc_start : integrations := mkIntegrations sg_start None [] [] ∅ ∅ ∅ ∅.
Definition sc_ops1 : list scm_op := OpSignIn <$> (sg_waiting ++ [sg_finish]).
Definition sc_at (ops : list scm_op) : integrations := run_scm sg_sha256 ops sc_start.
Definition sc_token : string := sg_token "t".

Definition sc_snapshot (g : integrations) : Snapshot :=
  match IntegrationContext sg_sha256 sc_token false g with Ok snap => snap | Err _ => mkSnapshot 0 0 "" empty_envelope [] None None end.
Definition sc_made (id : uuid) (input : AppInput) (g : integrations) : App :=
  match new_app toy_gcm sg_uuid_String sc_service id sg_random sg_random input (sc_snapshot g) sc_verified with Ok app => app | Err _ => sc_verified end.

Definition sc_signed : integrations := sc_at sc_ops1.
Definition sc_save : scm_op := OpSaveApp sc_token (sc_snapshot sc_signed) (sc_made 50 sc_input sc_signed).
Definition sc_saved : integrations := perform_scm sg_sha256 sc_save sc_signed.
Definition sc_begin : scm_op := OpBeginFlow 60 sc_token (sc_snapshot sc_saved) (sg_token "p") (sg_token "q").
Definition sc_begun : integrations := perform_scm sg_sha256 sc_begin sc_saved.
Definition sc_consume : scm_op := OpConsumeFlow sc_token (sg_token "p") (sg_token "q").
Definition sc_consumed : integrations := perform_scm sg_sha256 sc_consume sc_begun.
Definition sc_sealed : Envelope :=
  match seal toy_gcm sc_service sg_random (chars "access") (proofAAD sg_uuid_String 70) with Ok e => e | Err _ => empty_envelope end.
Definition sc_proof : Proof_ := mkProof 70 "4711" sc_sealed sc_expiry.
Definition sc_prove : scm_op := OpSaveProof (1000 * Hour) sc_token (with_flow_id 60 (sc_snapshot sc_consumed)) sc_proof.
Definition sc_proved : integrations := perform_scm sg_sha256 sc_prove sc_consumed.

Definition sc_draws : importDraws := mkImportDraws 80 (λ _, 81%N) Second.
Definition sc_imported : integrations :=
  (ImportRepositories sg_sha256 sc_draws sc_token (sc_snapshot sc_proved) sc_installation [sc_repository] sc_proved).1.
Definition sc_item : Imported := mkImported 81 "OctoCat/app" true.

(** *** The history is one of the system *)

Definition sc_steps : list scm_op := sc_ops1 ++ [sc_save; sc_begin; sc_consume; sc_prove].

Lemma sc_signed_possible : Forall (possible_scm toy_gcm sg_uuid_String) sc_ops1.
Proof. apply Forall_fmap. exact sg_possible. Qed.

Lemma sc_save_possible : possible_scm toy_gcm sg_uuid_String sc_save.
Proof. exists sc_service, 50%N, sg_random, sg_random, sc_input, sc_verified. vm_compute. reflexivity. Qed.

Lemma sc_possible : Forall (possible_scm toy_gcm sg_uuid_String) sc_steps.
Proof. apply Forall_app. split; [exact sc_signed_possible|]. by repeat (apply Forall_cons; split; [first [exact sc_save_possible|exact I]|]). Qed.

Lemma sc_start_ok : scm_start sc_start.
Proof.
  split; [done|]. do 5 (split; [done|]). split; [intros id b; cbn; by rewrite lookup_empty|].
  intros external x y Hx. assert (Hnil : map_to_list (di_repositories (db_directory (ig_db sc_start))) = []) by apply map_to_list_empty.
  rewrite Hnil in Hx. by apply not_elem_of_nil in Hx.
Qed.

Lemma sc_reachable ops : Forall (possible_scm toy_gcm sg_uuid_String) ops → scm_reachable sg_sha256 toy_gcm sg_uuid_String (sc_at ops).
Proof. intros Hops. exists sc_start. split; [exact sc_start_ok|]. by apply scm_history_run. Qed.

Lemma sc_at_steps : sc_at sc_steps = sc_proved.
Proof.
  unfold sc_at, sc_steps, run_scm. rewrite foldl_app. cbn [foldl].
  by unfold sc_proved, sc_consumed, sc_begun, sc_saved, sc_signed, sc_at, run_scm.
Qed.

Lemma sc_proved_reachable : scm_reachable sg_sha256 toy_gcm sg_uuid_String sc_proved.
Proof. rewrite <-sc_at_steps. apply sc_reachable, sc_possible. Qed.

Lemma sc_import_ok :
  ImportRepositories sg_sha256 sc_draws sc_token (sc_snapshot sc_proved) sc_installation [sc_repository] sc_proved = (sc_imported, Ok [sc_item]).
Proof. vm_compute. reflexivity. Qed.

(** * Properties of the integration with GitHub: whose authorization an import needs, what it may
    change, what a new configuration of the App ends, and how the secret of the webhook is kept. *)

Section Store.
Variable sha256 : string → string.
Variable gcm : bytes → option AEAD.
Variable uuid_String : uuid → string.

(** C34: in every reachable state a webhook that is on has a secret; flows and proofs belong to one
    session each and to the present revision of the App; an organization belongs to one account;
    every imported repository lies in the organization of the account of its installation; and no
    repository of GitHub is there twice. *)
Theorem integration_wellformed g : scm_reachable sha256 gcm uuid_String g → scm_ok g.
Proof. apply ok_scm_reachable. Qed.

(** C8: an import happens only with the session of an administrator of the instance that holds a
    proof: obtained by the same session for the active login configuration and the present revision
    of the App, of a GitHub account that is linked to the user, and still valid, like the session,
    when the import is complete. *)
Theorem imports_need_authorization g draws token expected install repos g' items :
  scm_reachable sha256 gcm uuid_String g →
  ImportRepositories sha256 draws token expected install repos g = (g', Ok items) →
  ∃ session p app login x,
    authenticateSession sha256 token (ig_db g) = Ok session ∧
    authorize session (mkScope Instance_ (di_instance (db_directory (ig_db g)))) InstanceManage (ig_db g) = Ok tt ∧
    ig_now g' < ss_ExpiresAt session ∧
    p ∈ ig_proofs g ∧ ip_session_id p = ss_ID session ∧ ig_now g' < ip_expires_at p ∧
    active_config (ig_signin g) = Some login ∧ ip_login_id p = lc_id login ∧
    ig_app g = Some app ∧ gc_login_config_id app = lc_id login ∧ ip_app_revision p = gc_id app ∧
    x ∈ si_identities (ig_signin g) ∧ ex_user_id x = ss_UserID session ∧ ex_provider x = "github" ∧ ex_instance x = GitHubInstance ∧
    ex_external_id x = ip_github_subject p.
Proof.
  intros Hreach Hi. apply ImportRepositories_done in Hi as [[_ [e He]]|(items' & _ & _ & _ & actor & current & account & installation & app & proof & org & g1 & g2 & g3 & Hd)]; [done|].
  destruct Hd as [[Ha Hs%integrationSnapshot_shown] Hsame _ Happ Hproof _ _ _ _ Hdead Hlive].
  apply settingsAccess_spec in Ha as [(Hau & _ & Haz)|[Htoken (h & expiry & Hh & _)]]; [|done].
  destruct (sh_login _ _ _ Hs) as (login & Hlogin & Hid & _). destruct (sh_proof _ _ _ Hs _ Hproof) as (p & app' & -> & Hp & Happ' & Hu).
  apply sameIntegration_ok in Hsame as (_ & _ & _ & Hpr). destruct (Hpr eq_refl) as (a & q & q' & Hsa & Hlo & _).
  rewrite (sh_app _ _ _ Hs), Happ in Hsa. injection Hsa as <-. assert (app' = app) as -> by congruence. destruct Hu as (Hses & Hlg & Hrev & _ & Hsub).
  rewrite (proj1 (sh_subjects _ _ _ Hs)) in Hsub. unfold subjects_of in Hsub.
  rewrite (merge_sort_Permutation text_before) in Hsub. apply list_elem_of_fmap in Hsub as (x & Hx & [Hin Hxs]%elem_of_bfilter). bools.
  exists (sa_session actor), p, app, login, x. split; [exact Hau|]. split; [exact Haz|]. split.
  { unfold sessionLive in Hlive. destruct (Z.ltb_spec (db_now (ig_db g')) (ss_ExpiresAt (sa_session actor))); done. }
  repeat split; try done; cbn in *; congruence.
Qed.


(** *** After a new configuration *)

Definition no_authorizations (g : integrations) : Prop := ig_flows g = [] ∧ ig_proofs g = [].

(** Nobody begins an authorization. *)
Definition no_begin (op : scm_op) : Prop :=
  possible_scm gcm uuid_String op ∧ ∀ id token expected state nonce, op ≠ OpBeginFlow id token expected state nonce.

Lemma refused_without {A} token recent (fn : settingsActor → Snapshot → integrations → result ScmError (integrations * A)) g :
  (∀ actor snap, granted sha256 token recent g actor snap → ∃ e, fn actor snap g = Err e) →
  ∃ e, integrationTx sha256 token recent fn g = (g, Err e).
Proof.
  intros Hfn. destruct (integrationTx sha256 token recent fn g) as [g' r] eqn:Htx.
  apply integrationTx_cases in Htx as [[-> [e ->]]|(actor & snap & a & _ & Hgr & Hf & _)]; [by exists e|].
  destruct (Hfn actor snap Hgr) as [e He]. congruence.
Qed.

Lemma no_proof_snapshot g actor snap : no_authorizations g → integrationSnapshot actor g = Ok snap → sn_Proof snap = None.
Proof.
  intros [_ Hp] Hs%integrationSnapshot_shown. destruct (sn_Proof snap) as [p|] eqn:He; [|done].
  destruct (sh_proof _ _ _ Hs p He) as (row & app & _ & Hin & _). rewrite Hp in Hin. by apply not_elem_of_nil in Hin.
Qed.

Lemma no_proof_same g actor snap expected : no_authorizations g → integrationSnapshot actor g = Ok snap →
  ∃ e, sameIntegration snap expected true = Err e.
Proof.
  intros Hn Hs. apply (no_proof_snapshot g) in Hs; [|done]. destruct (sameIntegration snap expected true) as [[]|e] eqn:He; [|by exists e].
  apply sameIntegration_ok in He as (_ & _ & _ & Hp). destruct (Hp eq_refl) as (app & p & q & _ & _ & Hpr & _). congruence.
Qed.

Lemma refused_consume token state nonce g : no_authorizations g → ∃ e, ConsumeIntegrationFlow sha256 token state nonce g = (g, Err e).
Proof.
  intros [Hf _]. unfold ConsumeIntegrationFlow. destruct (flow_digests _ _ _) as [[h b]|e]; [|by exists e].
  apply refused_without. intros actor snap _. rewrite Hf. destruct (current_app snap); eauto.
Qed.

Lemma refused_save_proof now token expected proof g : no_authorizations g → ∃ e, SaveIntegrationProof sha256 now token expected proof g = (g, Err e).
Proof.
  intros [Hf _]. unfold SaveIntegrationProof. destruct (_ || (_ <? _)); [by eexists|].
  apply refused_without. intros actor snap _. rewrite Hf. destruct (sameIntegration _ _ _); cbn [rbind]; [|eauto].
  destruct (sn_App snap); [|eauto]. destruct (bool_decide _); [eauto|]. cbn. eauto.
Qed.

Lemma refused_import draws token expected install repos g : no_authorizations g →
  ∃ e, ImportRepositories sha256 draws token expected install repos g = (g, Err e).
Proof.
  intros Hn. unfold ImportRepositories. destruct (_ || _); [by eexists|]. apply refused_without. intros actor snap [_ Hs].
  destruct (no_proof_same g actor snap expected Hn Hs) as [e ->]. by exists e.
Qed.

Lemma no_authorizations_step g g' : no_authorizations g → scm_step sha256 no_begin g g' → no_authorizations g'.
Proof.
  intros Hn Hstep. destruct Hstep as [op g [_ Hno]|g d _ _]; [|done]. destruct op as [op|token expected app|id token expected state nonce|token state nonce
    |now token expected proof|draws token expected install repos|]; cbn [perform_scm].
  - done.
  - unfold SaveIntegrationApp. destruct (_ || _); [done|]. apply integrationTx_keeps; [done|]. intros actor snap g' [] _.
    destruct (sameIntegration _ _ _); [|done]. cbn [rbind]. destruct (ParseInt _); [|done]. destruct (_ || _); [done|]. by intros [= <-].
  - by destruct (Hno id token expected state nonce).
  - by destruct (refused_consume token state nonce g Hn) as [e ->].
  - by destruct (refused_save_proof now token expected proof g Hn) as [e ->].
  - by destruct (refused_import draws token expected install repos g Hn) as [e ->].
  - destruct Hn as [Hf Hp]. unfold PruneIntegrationCredentials. rewrite Hf, Hp. done.
Qed.

(** C14: a new configuration of the App ends every authorization under way.  Until somebody begins
    a new one, whatever else happens, no callback is accepted, no proof is saved, and neither the
    installations can be listed nor repositories be imported. *)
Theorem configuration_ends_authorizations g token expected app g' g'' :
  SaveIntegrationApp sha256 token expected app g = (g', Ok tt) → rtc (scm_step sha256 no_begin) g' g'' →
  no_authorizations g'' ∧
  (∀ token state nonce, ∃ e, ConsumeIntegrationFlow sha256 token state nonce g'' = (g'', Err e)) ∧
  (∀ now token expected proof, ∃ e, SaveIntegrationProof sha256 now token expected proof g'' = (g'', Err e)) ∧
  (∀ token expected, ∃ e, CheckIntegration sha256 token expected true g'' = Err e) ∧
  (∀ draws token expected install repos, ∃ e, ImportRepositories sha256 draws token expected install repos g'' = (g'', Err e)).
Proof.
  intros Hsave Hh. assert (Hn : no_authorizations g').
  { revert Hsave. unfold SaveIntegrationApp. destruct (_ || _); [done|]. intros (actor & snap & _ & Hf & _)%integrationTx_ok.
    destruct (sameIntegration _ _ _); [|done]. cbn [rbind] in Hf. destruct (ParseInt _); [|done]. destruct (_ || _); [done|]. by injection Hf as <-. }
  clear Hsave. assert (Hn' : no_authorizations g'').
  { induction Hh as [|g1 g2 g3 Hstep _ IH]; [done|]. apply IH. by eapply no_authorizations_step. }
  clear Hh Hn.
  split; [done|]. split; [by intros; apply refused_consume|]. split; [by intros; apply refused_save_proof|].
  split; [|by intros; apply refused_import]. intros token' expected'. unfold CheckIntegration.
  match goal with |- context [integrationTx sha256 token' false ?fn g''] =>
    destruct (refused_without token' false fn g'') as [e He]; [|rewrite He; by exists e]
  end.
  intros actor snap [_ Hs]. destruct (no_proof_same g'' actor snap expected' Hn' Hs) as [e ->]. by exists e.
Qed.
End Store.

(** ** The secret of the webhook *)

Section Secrets.
Variable sha256 : string → string.
Variable gcm : bytes → option AEAD.
Variable uuid_String : uuid → string.
Variable purposes : list bytes.
Context `{AEADLaws gcm purposes} `{!Inj (=) (=) uuid_String}.

Lemma seal_unseal key sv random text data e :
  NewCipher gcm key = Some (sm_cipher sv) → sealing_ok gcm (sm_cipher sv) random → seal gcm sv random text data = Ok e →
  unseal gcm sv e data = Ok text ∧
  ∀ data', data ∈ purposes → data' ∈ purposes → data' ≠ data → unseal gcm sv e data' = Err ErrConfig.
Proof.
  intros Hkey Hrandom. destruct (Open_Seal gcm purposes _ key random text data Hkey Hrandom) as (e' & Hs & Ho & Hother).
  unfold seal, unseal. rewrite Hs. intros [= <-]. rewrite Ho. split; [done|]. intros data' ? ? ?. by rewrite Hother.
Qed.

(** What is sealed under the present revision of the App. *)
Definition stored_secret (sv : ScmService) (g : integrations) : result ScmError bytes :=
  match ig_app g with
  | Some row => match gc_webhook_secret row with Some e => unseal gcm sv e (webhookAAD uuid_String (gc_id row)) | None => Err ErrWebhookUnavailable end
  | None => Err ErrWebhookUnavailable
  end.

Lemma find_active login s : signin_ok s → active_config s = Some login → find_config (lc_id login) s = Some login ∧ lc_status login = "active".
Proof.
  intros Hok (x & Hf & ->)%fmap_Some. destruct x as [i c]. apply list_find_Some in Hf as (Hi & Hst & _). split; [|done].
  apply list_elem_of_lookup_2 in Hi. unfold find_config. destruct (list_find _ _) as [[j c']|] eqn:Hc; cbn.
  - apply list_find_Some in Hc as (Hj & Hid & _). apply list_elem_of_lookup_2 in Hj. f_equal.
    by apply (NoDup_key_unique lc_id (si_configs s)); [apply so_configs|..].
  - eapply list_find_None in Hc. rewrite Forall_forall in Hc. by destruct (Hc c Hi).
Qed.

Lemma SaveIntegrationApp_ok token expected app g g' :
  SaveIntegrationApp sha256 token expected app g = (g', Ok tt) →
  ∃ app_id login, ig_app g' = Some (app_row app app_id g) ∧ active_config (ig_signin g') = Some login ∧ lc_id login = ap_LoginID app ∧
    ap_ID <$> sn_App expected = gc_id <$> ig_app g ∧ ig_now g' = ig_now g.
Proof.
  unfold SaveIntegrationApp. destruct (_ || _) eqn:Hc; [done|]. bools. intros (actor & snap & [_ Hs%integrationSnapshot_shown] & Hf & _)%integrationTx_ok.
  destruct (sameIntegration _ _ _) as [[]|] eqn:Hsame; [|done]. cbn [rbind] in Hf. destruct (ParseInt _) as [app_id|]; [|done].
  destruct (_ || _); [done|]. injection Hf as <-. apply sameIntegration_ok in Hsame as (Hl & _ & Ha & _).
  destruct (sh_login _ _ _ Hs) as (login & Hlogin & Hid & _). exists app_id, login. split; [done|]. split; [exact Hlogin|]. split; [congruence|].
  split; [|done]. rewrite <-Ha, (sh_app _ _ _ Hs), <-option_fmap_compose. done.
Qed.

Lemma new_app_secret key sv id random_key random_secret input snap verified app secret :
  NewCipher gcm key = Some (sm_cipher sv) → sealing_ok gcm (sm_cipher sv) random_secret →
  new_app gcm uuid_String sv id random_key random_secret input snap verified = Ok app →
  next_webhook_secret gcm uuid_String sv input (sn_App snap) = Ok secret → secret ≠ [] →
  ap_ID app = id ∧ ap_LoginID app = sn_LoginID snap ∧ ap_WebhookSecretPresent app = true ∧
  unseal gcm sv (ap_WebhookSecret app) (webhookAAD uuid_String id) = Ok secret ∧
  ∀ data, webhookAAD uuid_String id ∈ purposes → data ∈ purposes → data ≠ webhookAAD uuid_String id →
    unseal gcm sv (ap_WebhookSecret app) data = Err ErrConfig.
Proof.
  intros Hkey Hrandom. unfold new_app. destruct (seal _ _ random_key _ _) as [k|]; [|done]. cbn [rbind]. intros Hn Hsecret Hne.
  rewrite Hsecret in Hn. cbn [rbind] in Hn. destruct secret as [|c secret]; [done|].
  destruct (seal _ _ random_secret _ _) as [e|] eqn:Hs; [|done]. cbn [rbind] in Hn. destruct (_ && _); [done|]. injection Hn as <-.
  destruct (seal_unseal key sv random_secret _ _ e Hkey Hrandom Hs) as [Ho Hother]. by repeat split.
Qed.

Lemma SaveIntegration_ok sv provider others id random_key random_secret token input g g' :
  SaveIntegration sha256 gcm uuid_String sv provider others id random_key random_secret token input g = (g', Ok tt) →
  ∃ snap verified app, sn_App snap = scan_app <$> ig_app g ∧
    new_app gcm uuid_String sv id random_key random_secret input snap verified = Ok app ∧
    SaveIntegrationApp sha256 token snap app (others g) = (g', Ok tt).
Proof.
  unfold SaveIntegration. destruct (ValidGitHubSubject _); [|done]. cbn [negb].
  destruct (IntegrationContext sha256 token true g) as [snap|] eqn:Hsnap; [|done]. cbn [rbind].
  destruct (ap_ID <$> sn_App snap <>? _); [done|]. destruct (pv_VerifyApp _ _ _) as [verified|]; [|done]. cbn [rbind].
  destruct (_ || _); [done|]. destruct (new_app _ _ _ _ _ _ _ _ _) as [app|] eqn:Hnew; [|done]. cbn [rbind]. intros Hsave.
  exists snap, verified, app. split; [|done]. unfold IntegrationContext in Hsnap.
  destruct (integrationTx _ _ _ _ _) as [g1 r] eqn:Htx. cbn in Hsnap. subst r.
  apply integrationTx_ok in Htx as (actor & snap' & [_ Hs%integrationSnapshot_shown] & [= _ ->] & _). apply Hs.
Qed.

Lemma new_app_next sv id random_key random_secret input snap verified app g s :
  new_app gcm uuid_String sv id random_key random_secret input snap verified = Ok app → sn_App snap = scan_app <$> ig_app g →
  (ai_WebhookSecret input = Some s ∨ ai_WebhookSecret input = None ∧ stored_secret sv g = Ok (chars s) ∧ s ≠ "") →
  next_webhook_secret gcm uuid_String sv input (sn_App snap) = Ok (chars s) ∧ chars s ≠ [].
Proof.
  unfold new_app. destruct (seal _ _ random_key _ _); [|done]. cbn [rbind].
  destruct (next_webhook_secret _ _ _ _ _) as [secret|] eqn:Hn; [|done]. intros _ Hctx Hinput.
  assert (secret = chars s ∧ s ≠ "") as [-> Hne].
  { revert Hn. unfold next_webhook_secret, stored_secret in *. destruct Hinput as [Hi|(Hi & Hst & Hne)]; rewrite Hi.
    - destruct (decide (s = "")) as [->|Hne]; [done|]. destruct (_ || ContainsAny _ _); [done|]. by intros [= <-].
    - rewrite Hctx. destruct (ig_app g) as [row|]; [|done]. cbn. destruct (gc_webhook_secret row); [|done]. cbn. intros Hu. split; congruence. }
  split; [done|]. intros Hnil. apply Hne. rewrite <-(of_chars_chars s), Hnil. done.
Qed.

(** The secret of the webhook is kept.  Saving the App with a secret, or without one while a
    secret is stored, leaves exactly that secret behind, sealed for the new revision and of no use
    to any other; requests are verified with it while the webhook is on, and with nothing while it
    is off.  This holds whatever other transactions do while GitHub verifies the App. *)
Theorem webhook_secret_kept key sv provider others id random_key random_secret token input g g' s :
  scm_reachable sha256 gcm uuid_String g → scm_history sha256 gcm uuid_String g (others g) →
  NewCipher gcm key = Some (sm_cipher sv) → sealing_ok gcm (sm_cipher sv) random_secret →
  SaveIntegration sha256 gcm uuid_String sv provider others id random_key random_secret token input g = (g', Ok tt) →
  (ai_WebhookSecret input = Some s ∨ ai_WebhookSecret input = None ∧ stored_secret sv g = Ok (chars s) ∧ s ≠ "") →
  stored_secret sv g' = Ok (chars s) ∧
  ∃ row e, ig_app g' = Some row ∧ gc_id row = id ∧ gc_webhook_secret row = Some e ∧
    WebhookSecret gcm uuid_String sv g' = (if gc_webhook_enabled row then Ok (chars s) else Err ErrWebhookUnavailable) ∧
    ∀ id', webhookAAD uuid_String id ∈ purposes → webhookAAD uuid_String id' ∈ purposes → id' ≠ id →
      unseal gcm sv e (webhookAAD uuid_String id') = Err ErrConfig.
Proof.
  intros Hreach Hothers Hkey Hrandom (snap & verified & app & Hctx & Hnew & Hsave)%SaveIntegration_ok Hinput.
  destruct (new_app_next _ _ _ _ _ _ _ _ _ _ Hnew Hctx Hinput) as [Hnext Hne'].
  destruct (new_app_secret _ _ _ _ _ _ _ _ _ _ Hkey Hrandom Hnew Hnext Hne') as (Hid & Hlogin & Hpres & Hun & Hother).
  destruct (SaveIntegrationApp_ok _ _ _ _ _ Hsave) as (app_id & login & Happ & Hact & Hlid & _).
  assert (Hok : scm_ok g').
  { pose proof (ok_save_app sha256 token snap app (others g)) as Hs. rewrite Hsave in Hs. apply Hs; [|by eapply new_app_enabled].
    eapply (ok_scm_history sha256 gcm uuid_String); [by eapply ok_scm_reachable|exact Hothers]. }
  destruct (find_active login _ (go_signin _ Hok) Hact) as [Hfind Hstatus].
  assert (Hrow : gc_webhook_secret (app_row app app_id (others g)) = Some (ap_WebhookSecret app)) by (cbn; by rewrite Hpres).
  split; [unfold stored_secret; rewrite Happ, Hrow; cbn; by rewrite Hid|].
  exists (app_row app app_id (others g)), (ap_WebhookSecret app). split; [done|]. split; [done|]. split; [done|]. split.
  - unfold WebhookSecret, WebhookIntegration. rewrite Happ, Hrow. cbn [app_row gc_login_config_id].
    rewrite <-Hlid, Hfind. cbn. rewrite Hstatus. cbn. destruct (ap_WebhookEnabled app); cbn; [by rewrite Hid|done].
  - intros id' Hin Hin' Hid'. apply Hother; [done..|]. unfold webhookAAD. intros Heq%(f_equal of_chars). rewrite !of_chars_chars in Heq.
    apply (inj (String.append _)) in Heq. by apply (inj uuid_String) in Heq.
Qed.
End Secrets.

(** ** The selection of repositories *)

Section Selection.
Variable list_page : Z → result ScmError RepoPage.
Variable wanted : gset string.
Variable account : string.

(** A repository that was asked for, of the account. *)
Definition selectable (repo : HostRepository) : Prop := hp_ID repo ∈ wanted ∧ EqualFold (hp_Owner repo) account = true.

Lemma wanted_items_spec items found : let found' := wanted_items wanted account items found in
  (∀ id repo, found' !! id = Some repo → found !! id = Some repo ∨ repo ∈ items ∧ hp_ID repo = id ∧ selectable repo) ∧
  (∀ id, is_Some (found !! id) → is_Some (found' !! id)) ∧
  (∀ repo, repo ∈ items → selectable repo → is_Some (found' !! hp_ID repo)).
Proof.
  cbv zeta. revert found. induction items as [|repo items IH]; intros found; unfold wanted_items in *; cbn [foldl].
  - split; [by left|]. split; [done|]. by intros repo ?%not_elem_of_nil.
  - set (found1 := if _ && _ then _ else found). destruct (IH found1) as (Hs & Hk & Hc).
    assert (H1 : ∀ id r, found1 !! id = Some r → found !! id = Some r ∨ r = repo ∧ hp_ID repo = id ∧ selectable repo).
    { subst found1. destruct (_ && _) eqn:Hm; [|by left]. bools. intros id r [[<- <-]|[_ ?]]%lookup_insert_Some; [right|by left]. by repeat split. }
    assert (H2 : ∀ id, is_Some (found !! id) → is_Some (found1 !! id)).
    { subst found1. destruct (_ && _); [|done]. intros id. destruct (decide (id = hp_ID repo)) as [->|Hne]; [by rewrite lookup_insert_eq|].
      by rewrite lookup_insert_ne. }
    split; [|split].
    + intros id r [Hr|(Hin & ? & ?)]%Hs; [|right; split; [by apply list_elem_of_further|done]].
      destruct (H1 id r Hr) as [?|(-> & ? & ?)]; [by left|]. right. split; [apply list_elem_of_here|done].
    + intros id Hid. by apply Hk, H2.
    + intros r [->|Hin]%elem_of_cons Hsel; [|by apply Hc]. apply Hk. subst found1. destruct Hsel as [Hw He].
      rewrite (bool_decide_eq_true_2 _ Hw), He. cbn. by rewrite lookup_insert_eq.
Qed.

(** Every repository that is found was on a page. *)
Lemma import_pages_sound rounds page found found' id repo :
  import_pages list_page wanted account rounds page found = Ok found' → found' !! id = Some repo →
  found !! id = Some repo ∨ hp_ID repo = id ∧ selectable repo ∧ ∃ n result, list_page n = Ok result ∧ repo ∈ rg_Items result.
Proof.
  revert page found. induction rounds as [|rounds IH]; intros page found; cbn [import_pages]; [by intros [= <-]; left|].
  destruct (list_page page) as [result|] eqn:Hp; [|done]. cbn [rbind]. cbv zeta.
  destruct (wanted_items_spec (rg_Items result) found) as (Hs & _ & _).
  assert (Hone : wanted_items wanted account (rg_Items result) found !! id = Some repo →
    found !! id = Some repo ∨ hp_ID repo = id ∧ selectable repo ∧ ∃ n result, list_page n = Ok result ∧ repo ∈ rg_Items result).
  { intros [?|(? & ? & ?)]%Hs; [by left|]. right. split; [done|]. split; [done|]. by exists page, result. }
  destruct (_ || _); [by intros [= <-]|]. destruct (_ <>? _); [done|]. intros Himp Hid.
  destruct (IH _ _ Himp Hid) as [?|?]; [by apply Hone|by right].
Qed.

(** The pages of a listing from a number on, each of which names the next. *)
Fixpoint listing (page : Z) (pages : list RepoPage) : Prop :=
  match pages with
  | [] => True
  | p :: rest => list_page page = Ok p ∧ rg_NextPage p = (match rest with [] => 0 | _ => page + 1 end) ∧ listing (page + 1) rest
  end.

(** On one of the pages. *)
Definition listed_on (pages : list RepoPage) (repo : HostRepository) : Prop := ∃ p, p ∈ pages ∧ repo ∈ rg_Items p.

Lemma import_pages_listing pages : ∀ page rounds found,
  0 < page → listing page pages → (length pages <= rounds)%nat → pages ≠ [] → dom found ⊆ wanted →
  ∃ found', import_pages list_page wanted account rounds page found = Ok found' ∧ dom found' ⊆ wanted ∧
    (∀ id, is_Some (found !! id) → is_Some (found' !! id)) ∧
    (∀ id repo, found' !! id = Some repo → found !! id = Some repo ∨ hp_ID repo = id ∧ selectable repo ∧ listed_on pages repo) ∧
    (dom found' = wanted ∨ ∀ repo, listed_on pages repo → selectable repo → is_Some (found' !! hp_ID repo)).
Proof.
  induction pages as [|p rest IH]; intros page rounds found Hpage Hl Hr Hne Hdom; [done|].
  destruct rounds as [|rounds]; [cbn in Hr; lia|]. destruct Hl as (Hp & Hnext & Hl). cbn [import_pages]. rewrite Hp. cbn [rbind]. cbv zeta.
  destruct (wanted_items_spec (rg_Items p) found) as (Hs & Hk & Hc). set (found1 := wanted_items _ _ _ found) in *.
  assert (Hdom1 : dom found1 ⊆ wanted).
  { intros id [repo Hid]%elem_of_dom. apply Hs in Hid as [Hid|(_ & <- & Hw & _)]; [|done]. apply Hdom, elem_of_dom. by exists repo. }
  assert (Hs1 : ∀ id repo, found1 !! id = Some repo → found !! id = Some repo ∨ hp_ID repo = id ∧ selectable repo ∧ listed_on (p :: rest) repo).
  { intros id repo [?|(Hin & ? & ?)]%Hs; [by left|right]. split; [done|]. split; [done|]. exists p. split; [apply list_elem_of_here|done]. }
  destruct (_ || _) eqn:Hstop.
  - exists found1. split; [done|]. split; [done|]. split; [done|]. split; [done|]. bools. destruct Hstop as [Hsize|Hz]; bools.
    + left. apply set_subseteq_size_eq; [done|]. rewrite size_dom, Hsize. done.
    + right. rewrite Hnext in Hz. destruct rest as [|q rest]; [|lia]. intros repo (q & ->%list_elem_of_singleton & Hin). by apply Hc.
  - bools. rewrite Hnext in *. destruct rest as [|q rest]; [done|]. rewrite bool_decide_eq_true_2 by done. cbn [negb].
    destruct (IH (page + 1) rounds found1) as (found' & Himp & Hd & Hk' & Hs' & Hall); [lia|done|cbn in *; lia|done|done|].
    exists found'. split; [done|]. split; [done|]. split; [by intros; apply Hk', Hk|]. split.
    + intros id repo [Hid|(? & ? & r & Hr' & Hin)]%Hs'; [by apply Hs1|right]. split; [done|]. split; [done|].
      exists r. split; [by apply list_elem_of_further|done].
    + destruct Hall as [?|Hall]; [by left|]. right. intros repo (p' & Hp' & Hin) Hsel. apply elem_of_cons in Hp' as [->|Hp'].
      * by apply Hk', Hc.
      * apply Hall; [by exists p'|done].
Qed.

(** The selection of an import ends and is complete.  Against a listing of at most a hundred
    pages, it finds a repository for every identifier that was asked for exactly when the listing
    has one of the account for each of them, on whatever page, and it finds nothing else. *)
Theorem import_selection_complete pages :
  listing 1 pages → (0 < length pages <= 100)%nat →
  ∃ found, import_pages list_page wanted account 100 1 ∅ = Ok found ∧
    (∀ id repo, found !! id = Some repo → hp_ID repo = id ∧ selectable repo ∧ listed_on pages repo) ∧
    (size found = size wanted ↔ ∀ id, id ∈ wanted → ∃ repo, hp_ID repo = id ∧ selectable repo ∧ listed_on pages repo).
Proof.
  intros Hl Hlen. destruct (import_pages_listing pages 1 100 ∅) as (found & Himp & Hdom & _ & Hs & Hall);
    [lia|done|lia|by intros ->; cbn in Hlen; lia|by rewrite dom_empty_L|].
  assert (Hsound : ∀ id repo, found !! id = Some repo → hp_ID repo = id ∧ selectable repo ∧ listed_on pages repo).
  { intros id repo Hid. destruct (Hs id repo Hid) as [He|?]; [by rewrite lookup_empty in He|done]. }
  exists found. split; [done|]. split; [done|]. split.
  - intros Hsize id Hid. assert (Heq : dom found = wanted) by (apply set_subseteq_size_eq; [done|by rewrite size_dom, Hsize]).
    rewrite <-Heq in Hid. apply elem_of_dom in Hid as [repo Hid]. exists repo. by apply Hsound.
  - intros Havail. rewrite <-size_dom. f_equal. destruct Hall as [?|Hall]; [done|]. apply set_eq. intros id. split; [by apply Hdom|].
    intros Hid. destruct (Havail id Hid) as (repo & <- & Hsel & Hlist). by apply elem_of_dom, Hall.
Qed.
End Selection.

Section Imports.
Variable sha256 : string → string.
Variable gcm : bytes → option AEAD.
Variable uuid_String : uuid → string.

Lemma wanted_ids_ok ids : ∀ wanted wanted', wanted_ids ids wanted = Ok wanted' →
  NoDup ids ∧ (∀ id, id ∈ ids → id ∉ wanted) ∧ wanted' = list_to_set ids ∪ wanted ∧ Forall (λ id, ValidGitHubSubject id = true) ids.
Proof.
  induction ids as [|id ids IH]; intros wanted wanted'; cbn [wanted_ids].
  - intros [= <-]. split; [apply NoDup_nil_2|]. split; [by intros ? ?%not_elem_of_nil|]. split; [set_solver|done].
  - destruct (_ || _) eqn:Hc; [done|]. bools. intros Hw. destruct (IH _ _ Hw) as (Hnd & Hnew & -> & Hv).
    split; [|split; [|split]].
    + apply NoDup_cons_2; [|done]. intros Hin. by apply (Hnew id Hin), elem_of_union_l, elem_of_singleton.
    + intros id' [->|Hin]%elem_of_cons; [done|]. intros Hold. by apply (Hnew id' Hin), elem_of_union_r.
    + cbn. set_solver.
    + by constructor.
Qed.

(** A selection that has one repository for each identifier. *)
Lemma selection_all ids (wanted : gset string) (found : gmap string HostRepository) :
  NoDup ids → wanted = list_to_set ids → dom found ⊆ wanted → size found = size wanted →
  Forall2 (λ id repo, found !! id = Some repo) ids (omap (λ id, found !! id) ids).
Proof.
  intros Hnd -> Hdom Hsize. assert (Heq : dom found = list_to_set ids) by (apply set_subseteq_size_eq; [done|by rewrite size_dom, Hsize]).
  assert (Hall : ∀ id, id ∈ ids → is_Some (found !! id)) by (intros id Hid; apply elem_of_dom; rewrite Heq; by apply elem_of_list_to_set).
  clear Hnd Hdom Hsize Heq. induction ids as [|id ids IH]; [constructor|]. cbn.
  destruct (Hall id (list_elem_of_here _ _)) as [repo Hr]. rewrite Hr. constructor; [done|]. apply IH. intros id' Hin. by apply Hall, list_elem_of_further.
Qed.

Lemma find_installation_ok sv provider app access id install : find_installation gcm uuid_String sv provider app access id = Ok install →
  in_ID install = id ∧ (∃ items, pv_Installations provider access = Ok items ∧ install ∈ items) ∧
  ∃ key, pv_VerifyInstallation provider app key install = Ok tt.
Proof.
  unfold find_installation. destruct (negb _); [done|]. destruct (pv_Installations _ _) as [items|] eqn:Hi; [|done]. cbn [rbind].
  destruct (list_find _ _) as [[i item]|] eqn:Hf; [|done]. apply list_find_Some in Hf as (Hl & Hid & _).
  destruct (unseal _ _ _ _) as [key|]; [|done]. cbn [rbind]. destruct (pv_VerifyInstallation _ _ _ _) as [[]|] eqn:Hv; [|done]. intros [= <-].
  split; [done|]. split; [exists items; split; [done|by eapply list_elem_of_lookup_2]|by exists key].
Qed.

(** What a user is shown at GitHub: a repository with an identifier, of the account of an installation. *)
Definition offered (provider : Provider) (access : string) (install : Installation) (id : string) (repo : HostRepository) : Prop :=
  hp_ID repo = id ∧ EqualFold (hp_Owner repo) (in_Account install) = true ∧
  ∃ page result, pv_Repositories provider access (in_ID install) page = Ok result ∧ repo ∈ rg_Items result.

Lemma ImportSelected_ok sv provider others draws token installID ids g g' items :
  ImportSelected sha256 gcm uuid_String sv provider others draws token installID ids g = (g', Ok items) →
  ∃ access install app key snap selected, (∃ l, pv_Installations provider access = Ok l ∧ install ∈ l) ∧
    pv_VerifyInstallation provider app key install = Ok tt ∧ in_ID install = installID ∧ NoDup ids ∧
    Forall2 (offered provider access install) ids selected ∧
    ImportRepositories sha256 draws token snap install selected (others g) = (g', Ok items).
Proof.
  unfold ImportSelected. destruct (_ || _); [done|]. destruct (wanted_ids ids ∅) as [wanted|] eqn:Hw; [|done]. cbn [rbind].
  destruct (authorized _ _ _ _ _ _) as [[[snap app] access]|]; [|done]. cbn [rbind].
  destruct (find_installation _ _ _ _ _ _ _) as [install|] eqn:Hinst; [|done]. cbn [rbind].
  destruct (import_pages _ _ _ _ _ _) as [found|] eqn:Hf; [|done]. cbn [rbind]. destruct (Nat.eqb_spec (size found) (size wanted)) as [Hsize|]; [|done].
  cbn [negb]. intros Himp. apply find_installation_ok in Hinst as (<- & Hlist & key & Hver).
  apply wanted_ids_ok in Hw as (Hnd & _ & Hwanted & _). rewrite union_empty_r_L in Hwanted.
  assert (Hs : ∀ id repo, found !! id = Some repo → offered provider access install id repo ∧ hp_ID repo ∈ wanted).
  { intros id repo Hfid. destruct (import_pages_sound _ wanted (in_Account install) 100 1 ∅ found id repo Hf Hfid) as [He|(? & [? ?] & ?)];
      [by rewrite lookup_empty in He|done]. }
  assert (Hdom : dom found ⊆ wanted).
  { intros id [repo Hfid]%elem_of_dom. by destruct (Hs id repo Hfid) as [(<- & _) ?]. }
  exists access, install, app, key, snap, (omap (λ id, found !! id) ids). repeat split; try done.
  eapply Forall2_impl; [exact (selection_all ids wanted found Hnd Hwanted Hdom Hsize)|]. intros id repo Hfid. by apply Hs.
Qed.

End Imports.

(** ** Examples *)

Lemma integration_wellformed_witness : scm_reachable sg_sha256 toy_gcm sg_uuid_String sc_proved ∧ scm_ok sc_proved.
Proof. split; [exact sc_proved_reachable|exact (integration_wellformed sg_sha256 toy_gcm sg_uuid_String sc_proved sc_proved_reachable)]. Defined.

Lemma imports_need_authorization_witness : ∃ p, p ∈ ig_proofs sc_proved ∧ ip_github_subject p = "4711" ∧ ig_now sc_imported < ip_expires_at p.
Proof.
  destruct (imports_need_authorization sg_sha256 toy_gcm sg_uuid_String sc_proved sc_draws sc_token (sc_snapshot sc_proved) sc_installation
    [sc_repository] sc_imported [sc_item] sc_proved_reachable sc_import_ok)
    as (session & p & app & login & x & _ & _ & _ & Hp & _ & Hexp & _ & _ & _ & _ & _ & Hx & _ & _ & _ & Hsub).
  exists p. split; [exact Hp|]. split; [|exact Hexp].
  assert (Hids : ex_external_id <$> si_identities (ig_signin sc_proved) = ["4711"]) by (vm_compute; reflexivity).
  apply (list_elem_of_fmap_2 ex_external_id) in Hx. rewrite Hids in Hx. apply list_elem_of_singleton in Hx. rewrite <-Hsub. exact Hx.
Defined.


Definition sc_later : AppInput := mkAppInput "99" "key" None None (Some 50%N).
Definition sc_replaced : integrations :=
  (SaveIntegrationApp sg_sha256 sc_token (sc_snapshot sc_proved) (sc_made 51 sc_later sc_proved) sc_proved).1.

Lemma configuration_ends_authorizations_witness :
  ∃ e, ImportRepositories sg_sha256 sc_draws sc_token (sc_snapshot sc_proved) sc_installation [sc_repository] sc_replaced = (sc_replaced, Err e).
Proof.
  assert (Hs : SaveIntegrationApp sg_sha256 sc_token (sc_snapshot sc_proved) (sc_made 51 sc_later sc_proved) sc_proved = (sc_replaced, Ok tt)).
  { vm_compute. reflexivity. }
  destruct (configuration_ends_authorizations sg_sha256 toy_gcm sg_uuid_String _ _ _ _ _ _ Hs (rtc_refl _ _)) as (_ & _ & _ & _ & Hi). apply Hi.
Defined.

Definition sc_purposes : list bytes := [webhookAAD sg_uuid_String 50; webhookAAD sg_uuid_String 51].
Lemma sc_laws : AEADLaws toy_gcm sc_purposes.
Proof. apply toy_laws. by apply (bool_decide_unpack _), I. Qed.

Lemma webhook_secret_kept_witness :
  let r := SaveIntegration sg_sha256 toy_gcm sg_uuid_String sc_service sc_provider id 51 sg_random sg_random sc_token sc_later sc_proved in
  r.2 = Ok tt ∧ WebhookSecret toy_gcm sg_uuid_String sc_service r.1 = Ok (chars "0123456789abcdef").
Proof.
  cbv zeta. set (r := SaveIntegration _ _ _ _ _ _ _ _ _ _ _ _). assert (Hr : r = (r.1, Ok tt)) by (vm_compute; reflexivity).
  split; [vm_compute; reflexivity|].
  destruct (webhook_secret_kept sg_sha256 toy_gcm sg_uuid_String sc_purposes (H := sc_laws) sg_key sc_service sc_provider id 51 sg_random sg_random
    sc_token sc_later sc_proved r.1 "0123456789abcdef" sc_proved_reachable (rtc_refl _ _) eq_refl sg_sealing_ok Hr)
    as (_ & row & e & Hrow & _ & _ & Hw & _).
  { right. vm_compute. split; [reflexivity|]. split; [reflexivity|discriminate]. }
  rewrite Hw. assert (Hen : gc_webhook_enabled <$> ig_app r.1 = Some true) by (vm_compute; reflexivity).
  rewrite Hrow in Hen. injection Hen as ->. reflexivity.
Defined.

Definition sc_pages : list RepoPage := [mkRepoPage [mkHostRepository "76" "octocat" "other" "main"] 2; mkRepoPage [sc_repository] 0].

Lemma import_selection_complete_witness :
  ∃ found, import_pages (pv_Repositories sc_provider "access" "5") {["77"]} "octocat" 100 1 ∅ = Ok found ∧ size found = 1%nat.
Proof.
  destruct (import_selection_complete (pv_Repositories sc_provider "access" "5") {["77"]} "octocat" sc_pages) as (found & Hf & _ & Hsize).
  { split; [reflexivity|]. split; [reflexivity|]. split; [reflexivity|]. split; [reflexivity|exact I]. }
  { cbn [length sc_pages]. lia. }
  exists found. split; [exact Hf|]. apply Hsize. intros id ->%elem_of_singleton. exists sc_repository. split; [reflexivity|].
  split; [split; [apply elem_of_singleton; reflexivity|reflexivity]|].
  exists (mkRepoPage [sc_repository] 0). split; [apply list_elem_of_further, list_elem_of_here|apply list_elem_of_here].
Defined.

