(* ===== verification/GithubAppProps.v ===== *)
(** Properties of what the control plane does at GitHub: its requests stay inside of one
    repository, its tokens are limited to it, and what becomes of a pipeline that is missing. *)

From S2P Require Import Prelude GoStd Regex Codecs RunnerAuth Pipeline Compiler RunModel Database Identity Secrets SignIn GithubHook Automation Hub PgAutomation GithubCI CommitStatus WorkServer SignInFacts SignInProps GithubClient.
From S2P Require Import Integration IntegrationService IntegrationFacts IntegrationProps GithubApp HubScenario PgScenario.

(** ** Addresses *)

Lemma upper_hex_cases n : 0 ≤ n < 16 → is_alnum (upper_hex n) = true.
Proof.
  intros Hn. assert (Hall : Forall (λ k, is_alnum (upper_hex (Z.of_nat k)) = true) (seq 0 16)) by (vm_compute; repeat constructor).
  rewrite Forall_forall in Hall. rewrite <-(Z2Nat.id n) by lia. apply Hall. apply elem_of_seq. lia.
Qed.

(** A byte that means nothing in an address: no separator, and no begin of a query or fragment. *)
Definition plain_byte (c : ascii) : bool := negb (one_of "/?#" c).

Definition all_bytes : list ascii := ascii_of_nat <$> seq 0 256.
Lemma elem_of_all_bytes c : c ∈ all_bytes.
Proof.
  apply list_elem_of_fmap. exists (nat_of_ascii c). split; [by rewrite ascii_nat_embedding|].
  apply elem_of_seq. pose proof (nat_ascii_bounded c). lia.
Qed.

(** A fact about all bytes is decided by trying them. *)
Lemma for_all_bytes (P : ascii → bool) : forallb P all_bytes = true → ∀ c, P c = true.
Proof. intros Hall c. rewrite forallb_forall in Hall. apply Hall, list_elem_of_In, elem_of_all_bytes. Qed.

Lemma all_bytes_imply (P Q : ascii → bool) : forallb (λ c, implb (P c) (Q c)) all_bytes = true → ∀ c, P c = true → Q c = true.
Proof. intros Hall c Hp. pose proof (for_all_bytes _ Hall c) as Hc. cbv beta in Hc. by rewrite Hp in Hc. Qed.

Lemma path_escape_byte_plain c : forallb plain_byte (path_escape_byte c) = true.
Proof. revert c. apply for_all_bytes. vm_compute. reflexivity. Qed.

Lemma PathEscape_plain s : forallb plain_byte (chars (PathEscape s)) = true.
Proof.
  unfold PathEscape. rewrite chars_of_chars. induction (chars s) as [|c l IH]; [done|]. cbn [fmap list_fmap mjoin list_join].
  rewrite forallb_app. by rewrite path_escape_byte_plain.
Qed.

Lemma path_escape_byte_nil c : path_escape_byte c ≠ [].
Proof. unfold path_escape_byte, escape_byte. by destruct (_ || _). Qed.

Definition kept (c : ascii) : bool := unreserved c || one_of "$&+:=@" c.
Lemma path_escape_kept c : kept c = true → path_escape_byte c = [c].
Proof. unfold kept, path_escape_byte. by intros ->. Qed.
Lemma path_escape_long c : kept c = false → (3 <= length (path_escape_byte c))%nat.
Proof. unfold kept, path_escape_byte. intros ->. cbn. lia. Qed.

Lemma escape_length l : (length l <= length (mjoin (path_escape_byte <$> l)))%nat.
Proof.
  induction l as [|c l IH]; [done|]. cbn. rewrite length_app. destruct (path_escape_byte c) eqn:He; [by apply path_escape_byte_nil in He|].
  cbn. unfold mjoin in *. lia.
Qed.

(** Escaping shortens nothing and keeps what is harmless, so a text of at most two bytes that are
    harmless comes from itself. *)
Lemma escape_short l t : mjoin (path_escape_byte <$> l) = t → (length t < 3)%nat → l = t.
Proof.
  revert t. induction l as [|c l IH]; intros t <- Hlen; [done|]. cbn [fmap list_fmap] in *. rewrite mjoin_cons in *.
  destruct (kept c) eqn:Hk.
  - rewrite (path_escape_kept c Hk) in *. cbn [app] in *. f_equal. apply IH; [done|]. cbn in Hlen. lia.
  - pose proof (path_escape_long c Hk). rewrite length_app in Hlen. lia.
Qed.

Lemma PathEscape_short s t : PathEscape s = t → len t < 3 → s = t.
Proof.
  unfold PathEscape. intros He%(f_equal chars) Hlen. rewrite chars_of_chars in He. rewrite len_chars in Hlen.
  apply escape_short in He; [|lia]. by rewrite <-(of_chars_chars s), He, of_chars_chars.
Qed.

(** A part of an address that can only name something below what comes before it. *)
Definition safe_segment (s : string) : Prop := s ≠ "" ∧ s ≠ "." ∧ s ≠ ".." ∧ forallb plain_byte (chars s) = true.

Lemma PathEscape_safe s : s ≠ "" → s ≠ "." → s ≠ ".." → safe_segment (PathEscape s).
Proof.
  intros H0 H1 H2. split; [|split; [|split; [|apply PathEscape_plain]]]; intros He;
    [destruct H0|destruct H1|destruct H2]; by apply PathEscape_short in He.
Qed.

Lemma runtimeRepositoryPath_safe value path : runtimeRepositoryPath value = Ok path →
  ∃ segments, path = Join segments "/" ∧ segments = PathEscape <$> Split value "/"%char ∧ Forall safe_segment segments.
Proof.
  unfold runtimeRepositoryPath. destruct (_ || _); [done|]. cbv zeta. destruct (existsb _ _) eqn:He; [done|]. intros [= <-].
  eexists. split; [done|]. split; [done|]. apply Forall_fmap, Forall_forall. intros part Hin. cbn.
  assert (Hp : ((part =? "") || (part =? ".") || (part =? "..") || ContainsAny part line_breaks) = false).
  { destruct (_ || ContainsAny part line_breaks) eqn:Hb; [|done]. exfalso. apply Bool.not_true_iff_false in He. apply He, existsb_exists.
    exists part. split; [by apply list_elem_of_In|done]. }
  bools. by apply PathEscape_safe.
Qed.

Lemma pattern_over P r s : over P r → re_match r s = true → Forall P (chars s).
Proof. intros Ho Hm%re_match_spec. by eapply matches_over. Qed.

Lemma escape_kept l : Forall (λ c, kept c = true) l → mjoin (path_escape_byte <$> l) = l.
Proof. induction 1 as [|c l Hc _ IH]; [done|]. cbn [fmap list_fmap]. rewrite mjoin_cons, (path_escape_kept c Hc). cbn. by f_equal. Qed.

Lemma PathEscape_kept s : Forall (λ c, kept c = true) (chars s) → PathEscape s = s.
Proof. intros Hk. unfold PathEscape. by rewrite escape_kept, of_chars_chars. Qed.

Lemma repo_char_kept c : repo_char c = true → kept c = true.
Proof. revert c. apply all_bytes_imply. by vm_compute. Qed.

Lemma name_safe owner name : name_refused owner name = false →
  PathEscape owner = owner ∧ PathEscape name = name ∧ safe_segment owner ∧ safe_segment name.
Proof.
  unfold name_refused. intros Hr. bools.
  assert (Hkeep : ∀ s, re_match repoPattern s = true → PathEscape s = s ∧ s ≠ "").
  { intros s Hm. split; [|by intros ->]. apply PathEscape_kept. apply (pattern_over _ repoPattern); [|done].
    split; [exact repo_char_kept|]. apply over_upto, repo_char_kept. }
  destruct (Hkeep owner) as [Ho Ho']; [done|]. destruct (Hkeep name) as [Hn Hn']; [done|].
  split; [done|]. split; [done|]. split; [rewrite <-Ho|rewrite <-Hn]; by apply PathEscape_safe.
Qed.

Definition hex_char (c : ascii) : bool := is_digit c || in_range "a" "f" c || in_range "A" "F" c.
Lemma hex_unreserved c : hex_char c = true → unreserved c = true.
Proof. revert c. apply all_bytes_imply. by vm_compute. Qed.

Lemma QueryEscape_sha sha : re_match commitPattern sha = true → QueryEscape sha = sha.
Proof.
  intros Hm. assert (Hall : Forall (λ c, unreserved c = true) (chars sha)).
  { apply (pattern_over _ commitPattern); [|done]. apply over_times, hex_unreserved. }
  unfold QueryEscape. rewrite <-(of_chars_chars sha) at 2. f_equal. induction Hall as [|c l Hc _ IH]; [done|].
  cbn [fmap list_fmap]. rewrite mjoin_cons, IH. unfold query_escape_byte. by rewrite Hc.
Qed.

Lemma Values_Encode_one key value : Values_Encode [(key, value)] = (QueryEscape key +:+ "=" +:+ QueryEscape value)%string.
Proof. reflexivity. Qed.

Lemma text_assoc (a b c : string) : ((a +:+ b) +:+ c = a +:+ (b +:+ c))%string.
Proof. rewrite <-(of_chars_chars ((a +:+ b) +:+ c)), <-(of_chars_chars (a +:+ (b +:+ c))). by rewrite !chars_app, app_assoc. Qed.

(** Reading a pipeline stays inside of the repository and the commit.  Whatever the path of the
    pipeline, the control plane asks nothing, or it asks exactly one address: under the contents of
    the repository, one segment for each part of the path, none of them a step upwards or able to
    begin a query, at the commit of the event. *)
Theorem pipeline_request_stays_in_repository token owner name path sha :
  match file_request token owner name path sha with
  | Err e => ∀ exchange, RepositoryFile exchange token owner name path sha = Err e
  | Ok r => ∃ segments, hq_Method r = "GET" ∧
      hq_URL r = ("https://api.github.com/repos/" +:+ owner +:+ "/" +:+ name +:+ "/contents/" +:+ Join segments "/" +:+ "?ref=" +:+ sha)%string ∧
      length segments = length (Split path "/"%char) ∧ Forall safe_segment (owner :: name :: segments) ∧
      ∀ exchange exchange', exchange r = exchange' r →
        RepositoryFile exchange token owner name path sha = RepositoryFile exchange' token owner name path sha
  end.
Proof.
  destruct (file_request token owner name path sha) as [r|e] eqn:Hr; [|intros exchange; unfold RepositoryFile; by rewrite Hr].
  assert (Hreq := Hr). unfold file_request in Hreq. destruct (_ || negb _) eqn:Hc; [done|].
  destruct (runtimeRepositoryPath path) as [escaped|] eqn:Hp; [|done]. cbn [rbind] in Hreq. injection Hreq as <-. bools.
  apply runtimeRepositoryPath_safe in Hp as (segments & -> & Hseg & Hsafe). destruct (name_safe owner name) as (Ho & Hn & ? & ?); [done|].
  exists segments. split; [done|]. split.
  { cbn [hq_URL]. unfold repository_url. rewrite Ho, Hn, Values_Encode_one, (QueryEscape_sha sha), !text_assoc by done. reflexivity. }
  split; [by rewrite Hseg, length_fmap|]. split; [by do 2 (apply Forall_cons; split; [done|])|].
  intros exchange exchange' He. unfold RepositoryFile. rewrite Hr. cbn [rbind]. by rewrite He.
Qed.

(** ** Tokens *)

Lemma Resolve_Some external g repository : ResolveGitHubRepository external g = Some repository →
  ∃ row b i il app, ig_repositories g !! ar_ID repository = Some row ∧ is_github external g (ar_ID repository, row) ∧ rp_active row = true ∧
    ig_bindings g !! ar_ID repository = Some b ∧ rb_installation_id b = Some i ∧ ar_InstallationID repository = FormatInt i ∧
    ar_ExternalID repository = external ∧ ar_Owner repository = rb_owner b ∧ ar_Name repository = rb_name b ∧
    ig_installations g !! i = Some il ∧ ig_app g = Some app ∧ gc_app_id app = il_app_id il ∧ ar_AppID repository = gc_id app ∧
    lc_status <$> find_config (gc_login_config_id app) (ig_signin g) = Some "active".
Proof.
  unfold ResolveGitHubRepository. destruct (negb _); [done|]. intros Hr.
  apply bind_Some in Hr as ([id row] & Hf & Hr). apply find_repository_Some in Hf as [Hrow Hgh].
  apply bind_Some in Hr as (b & Hb & Hr). apply bind_Some in Hr as (i & Hi & Hr). apply bind_Some in Hr as (il & Hil & Hr).
  apply bind_Some in Hr as (app & Happ & Hr). destruct (_ && _) eqn:Hc; [|done]. injection Hr as <-. bools. cbn.
  exists row, b, i, il, app. repeat split; try done; apply Hgh.
Qed.

Section Tokens.
Context {Key : Type}.
Variable crypto : rsa Key.
Variable sha256 : string → string.
Variable json_string : string → string.
Variable json : decoders.
Variable exchange : httpRequest → option httpResponse.
Variable gcm : bytes → option AEAD.
Variable uuid_String : uuid → string.
Variable cipher : AEAD.
Variable now : time.

Abbreviation provider := (github_app_provider crypto sha256 json_string json exchange now).

(** GitHub limited the token of a reply to one repository and one permission. *)
Record limited (install external name value : string) (reply : accessTokenReply) : Prop := {
  lt_asked : ∃ request response data, exchange request = Some response ∧ hq_Method request = "POST" ∧
    hq_URL request = (api +:+ "/app/installations/" +:+ install +:+ "/access_tokens")%string ∧
    hs_StatusCode response = 201 ∧ hs_Body response = Some data ∧ dc_access json data = Some reply;
  lt_repository : ∃ n, cy_Repositories reply = [n] ∧ FormatInt n = external;
  lt_permission : default "" (cy_Permissions reply !! name) = value;
  lt_others : ∀ k v, cy_Permissions reply !! k = Some v → (k = name ∧ v = value) ∨ (k = "metadata" ∧ v = "read");
}.

Lemma repositoryToken_limited clientID key install external name value token expiry :
  repositoryToken crypto sha256 json_string json exchange now clientID key install external name value = Ok (token, expiry) →
  ∃ reply, limited install external name value reply ∧ cy_Token reply = token ∧ cy_ExpiresAt reply = expiry.
Proof.
  unfold repositoryToken. destruct (_ || negb _) eqn:Hv; [done|]. destruct (ParseInt external) as [n|] eqn:Hn; [|done].
  destruct (n <=? 0); [done|]. destruct (appJWT _ _ _ _ _ _) as [jwt|]; [|done]. cbn [rbind]. cbv zeta.
  set (r := mkHttpRequest _ _ _ _ _ _). destruct (exchange r) as [response|] eqn:Hex; [|done].
  unfold runtimeResponseError. destruct (hs_StatusCode response =? 201) eqn:Hst; [|by destruct (rate_limited _); [|destruct (refused _)]].
  cbn [rbind]. unfold read_body. destruct (hs_Body response) as [data|] eqn:Hb; [|done]. destruct (_ <? Zlen data); [done|]. cbn [rbind].
  destruct (dc_access json data) as [reply|] eqn:Hd; [|done]. destruct (_ || (_ <>? value)) eqn:Hc; [done|].
  destruct (existsb _ _) eqn:He; [done|]. intros [= <- <-]. bools. exists reply. split; [|done]. split.
  - by exists r, response, data.
  - exists n. split; [done|]. by eapply ParseInt_subject.
  - done.
  - intros k v Hkv%elem_of_map_to_list%list_elem_of_In. apply Bool.not_true_iff_false in He. rewrite existsb_exists in He.
    destruct (decide (k = "metadata" ∧ v = "read")) as [?|Hm]; [by right|left]. apply dec_stable. intros Hne. apply He.
    exists (k, v). split; [done|]. cbn [fst snd].
    clear -Hm Hne. repeat case_bool_decide; cbn; try done; exfalso; tauto.
Qed.

(** C15: a checkout credential is limited.  It is issued only for an active repository whose binding
    has both identifiers that were asked for, through the installation it was imported from and the
    present App; GitHub limited the token to that one repository and to reading its contents; and it
    lives for more than thirty seconds and at most sixty-five minutes. *)
Theorem checkout_credential_is_limited repositoryID external g credential :
  IssueGitHubCredential gcm uuid_String cipher provider now repositoryID external g = Ok credential →
  ∃ row b i il app reply, ig_repositories g !! repositoryID = Some row ∧ is_github external g (repositoryID, row) ∧ rp_active row = true ∧
    ig_bindings g !! repositoryID = Some b ∧ rb_installation_id b = Some i ∧ ig_installations g !! i = Some il ∧
    ig_app g = Some app ∧ gc_app_id app = il_app_id il ∧
    limited (FormatInt i) external "contents" "read" reply ∧
    cc_RepositoryID credential = external ∧ cc_Token credential = chars (cy_Token reply) ∧
    0 < Zlen (cc_Token credential) <= 8192 ∧ now + 30 * Second < cc_ExpiresAt credential <= now + 65 * Minute.
Proof.
  unfold IssueGitHubCredential. destruct (_ || negb _); [done|]. unfold resolve.
  destruct (ResolveGitHubRepository external g) as [repository|] eqn:Hr; [|done]. cbn [rbind]. destruct (_ || (_ <>? external)) eqn:Hid; [done|].
  unfold installation_token. destruct (app_key _ _ _ _) as [key|]; [|done]. cbn [rbind].
  destruct (av_InstallationToken provider _ _ _ _) as [[token expiry]|] eqn:Ht; [|done]. cbn [rbind].
  destruct (_ || expiry_refused now expiry) eqn:Hc; [done|]. intros [= <-]. bools.
  cbn [github_app_provider av_InstallationToken] in Ht. unfold hooked, InstallationToken in Ht.
  destruct (repositoryToken _ _ _ _ _ _ _ _ _ _ _ _) as [[t e]|] eqn:Htoken; [|done]. injection Ht as -> ->.
  apply repositoryToken_limited in Htoken as (reply & Hlim & <- & <-).
  destruct (Resolve_Some _ _ _ Hr) as (row & b & i & il & app & Hrow & Hgh & Hact & Hb & Hi & Hin & Hext & _ & _ & Hil & Happ & Hai & _).
  exists row, b, i, il, app, reply. assert (ar_ID repository = repositoryID) as Hid' by done. rewrite Hid' in *.
  rewrite Hin, Hext in Hlim. cbn. unfold expiry_refused in *. bools.
  assert (Zlen (chars (cy_Token reply)) = len (cy_Token reply)) as -> by (by rewrite len_chars).
  assert (0 <= len (cy_Token reply)) by (unfold len; lia). repeat split; try done; try apply Hgh; try apply Hlim; lia.
Qed.
End Tokens.

(** ** A pipeline that is missing *)

Section Missing.
Context `{MapOrder} {Key : Type}.
Variable crypto : rsa Key.
Variable sha256 : string → string.
Variable json_string : string → string.
Variable json : decoders.
Variable exchange : httpRequest → option httpResponse.
Variable gcm : bytes → option AEAD.
Variable uuid_String : uuid → string.
Variable cipher : AEAD.
Variable clock : time.
Variable g : integrations.
Variable gitee : option (Event → string → result HookError (uuid * string)).

Abbreviation provider := (github_app_provider crypto sha256 json_string json exchange clock).

(** The fetcher of the control plane, as cmd/yuanci-server/main.go puts it together. *)
Definition server_fetch : Event → string → result HookError (uuid * string) :=
  pipelineRouter (Some (λ event path, fetched (FetchPipeline gcm uuid_String cipher provider clock event path g))) gitee.

(** GitHub has no file at any path of any commit. *)
Definition no_file : Prop :=
  ∀ r, hq_Accept r = "application/vnd.github.raw+json" → ∃ res, exchange r = Some res ∧ hs_StatusCode res = 404.

Lemma missing_file token owner name path sha : no_file → is_ok (file_request token owner name path sha) = true →
  RepositoryFile exchange token owner name path sha = Err ErrAccess.
Proof.
  intros Hno. unfold RepositoryFile. destruct (file_request _ _ _ _ _) as [r|] eqn:Hr; [|done]. intros _. cbn [rbind].
  unfold file_request in Hr. destruct (_ || _); [done|]. destruct (runtimeRepositoryPath _); [|done].
  destruct (Hno r) as (res & -> & Hst); [by injection Hr as <-|]. unfold runtimeResponseError, rate_limited, refused. by rewrite Hst.
Qed.

(** No error of the client is one of those that the orchestrator takes for a missing file. *)
Lemma hook_error_cases e : hook_error e = ErrRateLimited ∨ hook_error e = ErrOther.
Proof. destruct e; auto. Qed.

Lemma RepositoryFile_no_file token owner name path sha : no_file → ∃ e, RepositoryFile exchange token owner name path sha = Err e.
Proof.
  intros Hno. destruct (file_request token owner name path sha) as [r|e] eqn:Hr; [|unfold RepositoryFile; rewrite Hr; by exists e].
  exists ErrAccess. apply missing_file; [done|by rewrite Hr].
Qed.

Lemma ValidatePipelinePath_error path e : ValidatePipelinePath path = Err e → e = ErrAutomationInvalid.
Proof. unfold ValidatePipelinePath. destruct (_ || contains_control _); [by intros [= <-]|done]. Qed.

Lemma fetch_without_file event path : no_file → ev_Provider event = GitHub →
  ∃ e, server_fetch event path = Err e ∧ e ≠ ErrNotFound.
Proof.
  intros Hno Hev. unfold server_fetch, pipelineRouter. rewrite Hev, bool_decide_eq_true_2 by done. unfold FetchPipeline.
  destruct (_ || negb _); [by eexists|]. destruct (bool_decide _); [by eexists|]. destruct (_ && _); [by eexists|].
  destruct (ValidatePipelinePath path) as [[]|e] eqn:Hp; cbn [rbind]; [|exists e; by apply ValidatePipelinePath_error in Hp as ->].
  unfold resolve. destruct (ResolveGitHubRepository _ _) as [repository|]; cbn [rbind]; [|by eexists].
  unfold installation_token, app_key. destruct (Open _ _ _ _); cbn [rbind]; [|by eexists..].
  cbn [github_app_provider av_InstallationToken av_RepositoryFile].
  destruct (InstallationToken _ _ _ _ _ _ _ _ _ _) as [[token expiry]|e]; cbn [hooked rbind];
    [|exists (hook_error e); split; [done|]; by destruct (hook_error_cases e) as [-> | ->]].
  destruct (_ || _); [by eexists|]. destruct (RepositoryFile_no_file token (ar_Owner repository) (ar_Name repository) path (ev_AfterSHA event) Hno) as [e ->].
  exists (hook_error e). split; [done|]. by destruct (hook_error_cases e) as [-> | ->].
Qed.

(** The steps before the file is read succeed. *)
Record file_reached (event : Event) (path : string) (repository : AppRepository) (token : string) (expiry : time) : Prop := {
  fr_event : ev_Provider event = GitHub ∧ ValidGitHubSubject (re_ExternalID (ev_Repository event)) = true ∧
    re_match shaPattern (ev_AfterSHA event) = true ∧ ev_Type event ∈ [EventPush; EventTag; EventPullRequest] ∧
    (ev_Type event = EventPullRequest → metadata event "fork" = "false");
  fr_path : ValidatePipelinePath path = Ok tt;
  fr_repository : ResolveGitHubRepository (re_ExternalID (ev_Repository event)) g = Some repository;
  fr_token : installation_token gcm uuid_String cipher provider repository = Ok (token, expiry);
  fr_live : len token ≠ 0 ∧ expiry_refused clock expiry = false;
  fr_request : is_ok (file_request token (ar_Owner repository) (ar_Name repository) path (ev_AfterSHA event)) = true;
}.

Lemma fetch_missing event path repository token expiry : no_file → file_reached event path repository token expiry →
  server_fetch event path = Err ErrOther.
Proof.
  intros Hno [(Hev & Hv & Hsha & Hty & Hfork) Hp Hr Ht [Hlen Hlive] Hreq]. unfold server_fetch, pipelineRouter.
  rewrite Hev, bool_decide_eq_true_2 by done. unfold FetchPipeline.
  rewrite Hev, Hv, Hsha, (bool_decide_eq_true_2 (GitHub = GitHub)), (bool_decide_eq_false_2 (ev_Type event ∉ _)) by (try done; by intros ?).
  cbn [negb orb]. replace (_ && _) with false; cycle 1.
  { symmetry. apply andb_false_iff. destruct (decide (ev_Type event = EventPullRequest)) as [Heq|Hne]; [right|left; by apply bool_decide_eq_false_2].
    by rewrite Hfork, bool_decide_eq_true_2. }
  rewrite Hp. cbn [rbind]. unfold resolve. rewrite Hr. cbn [rbind]. rewrite Ht. cbn [rbind].
  rewrite Hlive, bool_decide_eq_false_2 by done. cbn [orb github_app_provider av_RepositoryFile]. by rewrite missing_file.
Qed.

Variable json_marshal : Plan → string.
Variable json_unmarshal : string → option Plan.
Variable yaml_decode : string → option Pipeline.
Variable json_canonical : Pipeline → option string.

Lemma ignore_outcome now delivery outcome code summary h h' outcome' :
  ignore now delivery outcome code summary h = (h', Ok outcome') → outcome' = outcome.
Proof. unfold ignore. by destruct (FinalizeWebhook _ _ _) as [h1 []]; [intros [= _ ->]|]. Qed.

Lemma process_without_file ids others now delivery h h' outcome :
  no_file → ev_Provider (wi_Event delivery) = GitHub →
  process uuid_String json_marshal json_unmarshal yaml_decode json_canonical server_fetch ids others now delivery h = (h', Ok outcome) →
  outcome ∈ [OutcomeIgnoredDisabled; OutcomeIgnoredFork; OutcomeIgnoredTrigger].
Proof.
  intros Hno Hev. unfold process. cbv zeta. destruct (_ || (_ <? 1)); [done|].
  destruct (if _ =? Gitee then _ else _) as [[repositoryID settings]|]; [|done].
  destruct (as_Enabled settings); cbn [negb]; [|intros ->%ignore_outcome; set_solver].
  destruct (_ && _); [intros ->%ignore_outcome; set_solver|].
  destruct (triggerEnabled _ _); cbn [negb]; [|intros ->%ignore_outcome; set_solver].
  destruct (fetch_without_file (wi_Event delivery) (as_PipelinePath settings) Hno Hev) as (e & -> & Hne).
  by rewrite bool_decide_eq_false_2.
Qed.

End Missing.

(** ** Examples *)

Definition toy_rsa : rsa unit :=
  mkRsa unit (λ data, (Some (mkPemBlock "RSA PRIVATE KEY" ∅ data), [])) (λ _, Some tt) (λ _, None) (λ _, 2048) (λ _, true) (λ _ _, Some []).
Definition toy_reply : accessTokenReply := mkAccessTokenReply "secret" (1000 * Hour) [77] {["contents" := "read"]}.
Definition toy_json : decoders :=
  mkDecoders (λ _, None) (λ _, None) (λ _, None) (λ _, None) (λ _, None) (λ _, None) (λ _, Some toy_reply) (λ _, None).
(** GitHub draws tokens and has no file. *)
Definition toy_exchange (r : httpRequest) : option httpResponse :=
  Some (mkHttpResponse (if hq_Method r =? "POST" then (if hq_Accept r =? github_json then 201 else 404) else 404) "" "" (Some [])).
Definition toy_clock : time := 999 * Hour + 30 * Minute.
Definition toy_provider : AppProvider := github_app_provider toy_rsa sg_sha256 id toy_json toy_exchange toy_clock.

Lemma pipeline_request_stays_in_repository_witness :
  ∃ r, file_request "secret" "octocat" "app" ".ci/a b.yml" demo_sha = Ok r ∧
    hq_URL r = ("https://api.github.com/repos/octocat/app/contents/.ci/a%20b.yml?ref=" +:+ demo_sha)%string ∧
    ∃ segments, Forall safe_segment ("octocat" :: "app" :: segments).
Proof.
  pose proof (pipeline_request_stays_in_repository "secret" "octocat" "app" ".ci/a b.yml" demo_sha) as Hstays.
  destruct (file_request "secret" "octocat" "app" ".ci/a b.yml" demo_sha) as [r|] eqn:Hr; [|discriminate Hr].
  exists r. split; [reflexivity|]. split; [injection Hr as <-; reflexivity|]. destruct Hstays as (segments & _ & _ & _ & Hs & _). exists segments. exact Hs.
Defined.

Lemma checkout_credential_is_limited_witness :
  ∃ credential, IssueGitHubCredential toy_gcm sg_uuid_String toy_aead toy_provider toy_clock 81 "77" sc_imported = Ok credential ∧
    ∃ reply, cc_Token credential = chars (cy_Token reply) ∧ ∀ k v, cy_Permissions reply !! k = Some v → (k = "contents" ∧ v = "read") ∨ (k = "metadata" ∧ v = "read").
Proof.
  assert (Hi : IssueGitHubCredential toy_gcm sg_uuid_String toy_aead toy_provider toy_clock 81 "77" sc_imported
    = Ok (mkCheckoutCredential "77" "" (chars "secret") (1000 * Hour))) by (vm_compute; reflexivity).
  eexists. split; [exact Hi|].
  destruct (checkout_credential_is_limited toy_rsa sg_sha256 id toy_json toy_exchange toy_gcm sg_uuid_String toy_aead toy_clock 81 "77" sc_imported _ Hi)
    as (row & b & i & il & app & reply & _ & _ & _ & _ & _ & _ & _ & _ & Hlim & _ & Htoken & _).
  exists reply. split; [exact Htoken|exact (lt_others _ _ _ _ _ _ _ Hlim)].
Defined.

#[local] Existing Instance library_order.

Lemma toy_no_file : no_file toy_exchange.
Proof.
  intros r Hr. eexists. split; [reflexivity|]. cbn. rewrite Hr. by destruct (_ =? "POST").
Qed.

#[local] Abbreviation toy_process_of fetch :=
  (Process sg_uuid_String demo_marshal hub_unmarshal demo_decode demo_canonical fetch (demo_ids_of 80) keep
    (2 * Second) (2 * Second) (2 * Second) demo_item hub_claimed).
#[local] Abbreviation toy_server_fetch :=
  (server_fetch toy_rsa sg_sha256 id toy_json toy_exchange toy_gcm sg_uuid_String toy_aead toy_clock sc_imported None).

Definition toy_missing : hub := (toy_process_of toy_server_fetch).1.

Lemma toy_outcome : toy_process_of toy_server_fetch = (toy_missing, Ok OutcomeRetryScheduled).
Proof. vm_compute. reflexivity. Qed.

