(* ===== verification/FileSystem.v ===== *)
(** Files and directories, and the programs that work on them: what internal/runner/credentials.go
    uses of os and path/filepath.

    A program is a tree of calls to the operating system.  Each call is answered from a list of
    draws, which say whether it fails and what is random about it; when the draws are used up the
    process has crashed.  So what holds for every list of draws holds for every failure and at
    every moment at which the process may die.  What was written stays: the loss of power is not
    modelled.  No link is followed, and a name whose random part is taken already is an error. *)

From S2P Require Import Prelude GoStd RunnerAuth.

(** ** Paths *)

(** A name with a random part ([os.MkdirTemp], [os.CreateTemp], [uuid.NewString]) differs from all
    other names. *)
Inductive component :=
| Name (name : string)
| RandomName (prefix base suffix random : string).
#[export] Instance component_eq_dec : EqDecision component.
Proof. solve_decision. Defined.
#[export] Instance component_countable : Countable component.
Proof.
  apply (inj_countable' (λ c, match c with Name s => inl s | RandomName p b s r => inr (p, b, s, r) end)
    (λ x, match x with inl s => Name s | inr (p, b, s, r) => RandomName p b s r end)).
  by intros [].
Defined.

(** An absolute and cleaned path. *)
Abbreviation path := (list component).

(** Below or at [p]. *)
Definition under (p q : path) : Prop := p `prefix_of` q.
#[export] Instance under_dec p q : Decision (under p q).
Proof. unfold under. apply _. Defined.
#[global] Typeclasses Opaque under.
#[export] Instance under_refl : Reflexive under.
Proof. intros p. unfold under. done. Qed.

(** ** The tree *)

Inductive node :=
| File (perm : Z) (body : bytes)
| Dir (perm : Z)
| Other (symlink : bool).   (** a link, a device, ... *)
#[export] Instance node_eq_dec : EqDecision node.
Proof. solve_decision. Defined.

Abbreviation files := (gmap path node).

Definition strip (p q : path) : option path := if decide (under p q) then Some (drop (length p) q) else None.
(** What is at and below [p], by the rest of its path. *)
Definition subtree (p : path) (fs : files) : files :=
  list_to_map (omap (λ x, rest ← strip p x.1; Some (rest, x.2)) (map_to_list fs)).
Definition cut (p : path) (fs : files) : files := filter (λ x, ¬ under p x.1) fs.
(** Nothing is there, or an empty directory. *)
Definition vacant (p : path) (fs : files) : bool :=
  bool_decide (subtree p fs = ∅) || match fs !! p with Some (Dir _) => bool_decide (dom (subtree p fs) = {[ [] ]}) | _ => false end.
Definition is_dir (p : path) (fs : files) : bool :=
  match p with [] => true | _ => match fs !! p with Some (Dir _) => true | _ => false end end.
Definition move (a b : path) (fs : files) : files := kmap (app b) (subtree a fs) ∪ cut a (cut b fs).

(** ** Lookups *)

Lemma strip_Some p q rest : strip p q = Some rest ↔ q = p ++ rest.
Proof.
  unfold strip, under. case_decide as Hp.
  - destruct Hp as [k ->]. rewrite drop_app_length. split; [by intros [= ->]|by intros ->%app_inv_head].
  - split; [done|]. intros ->. destruct Hp. by exists rest.
Qed.

Lemma under_app p rest : under p (p ++ rest).
Proof. by exists rest. Qed.
Lemma under_trans p q r : under p q → under q r → under p r.
Proof. unfold under. by intros ->. Qed.

Lemma subtree_lookup p fs rest : subtree p fs !! rest = fs !! (p ++ rest).
Proof.
  unfold subtree. set (l := omap _ _).
  assert (Hl : ∀ r n, (r, n) ∈ l ↔ fs !! (p ++ r) = Some n).
  { intros r n. unfold l. rewrite list_elem_of_omap. setoid_rewrite bind_Some. split.
    - intros ([q m] & Hq%elem_of_map_to_list & r' & Hr & [= -> ->]). cbn in Hr. by apply strip_Some in Hr as ->.
    - intros Hn. exists (p ++ r, n). split; [by apply elem_of_map_to_list|]. exists r. split; [by apply strip_Some|done]. }
  assert (Hnd : NoDup l.*1).
  { unfold l. clear Hl l. assert (Hn := NoDup_fst_map_to_list fs). induction (map_to_list fs) as [|[q m] t IH]; [by constructor|].
    inversion Hn as [|? ? Hq Ht]; subst. cbn. destruct (strip p q) as [r|] eqn:Hr; cbn; [|by apply IH]. apply strip_Some in Hr as ->.
    constructor; [|by apply IH]. rewrite list_elem_of_fmap. intros ([r' m'] & Heq & ([q' m''] & Hx & Hs)%list_elem_of_omap). cbn in Heq. subst r'.
    apply bind_Some in Hs as (r' & Hs%strip_Some & [= -> ->]). cbn in Hs. subst q'. apply Hq. rewrite list_elem_of_fmap. by exists (p ++ r, m'). }
  apply option_eq. intros n. by rewrite <-elem_of_list_to_map, Hl.
Qed.

Lemma subtree_empty p fs : subtree p fs = ∅ ↔ ∀ q, under p q → fs !! q = None.
Proof.
  split.
  - intros He q [rest ->]. by rewrite <-subtree_lookup, He.
  - intros Hq. apply map_eq. intros rest. by rewrite subtree_lookup, lookup_empty, Hq by apply under_app.
Qed.

Lemma cut_lookup p fs q : cut p fs !! q = if decide (under p q) then None else fs !! q.
Proof.
  unfold cut. apply option_eq. intros n. rewrite map_lookup_filter_Some. cbn. case_decide; naive_solver.
Qed.

(** Two paths neither of which is below the other. *)
Definition apart (a b : path) : Prop := ¬ under a b ∧ ¬ under b a.

Lemma apart_sym a b : apart a b → apart b a.
Proof. by intros []. Qed.
Lemma apart_under a b q : apart a b → under a q → ¬ under b q.
Proof. intros [Hab Hba] Ha Hb. destruct (prefix_weak_total a b q Ha Hb); auto. Qed.
Lemma apart_names p c c' : c ≠ c' → apart (p ++ [c]) (p ++ [c']).
Proof. intros Hne. by split; intros [k Hk]; rewrite <-app_assoc in Hk; apply app_inv_head in Hk; injection Hk as Hc _. Qed.

Lemma move_lookup a b fs q : apart a b →
  move a b fs !! q = if decide (under b q) then fs !! (a ++ drop (length b) q) else if decide (under a q) then None else fs !! q.
Proof.
  intros Hab. unfold move. case_decide as Hb.
  - destruct Hb as [rest ->]. rewrite drop_app_length, lookup_union, lookup_kmap by apply _. rewrite subtree_lookup, !cut_lookup.
    rewrite (decide_False (P := under a _)) by (eapply apart_under; [by apply apart_sym|apply under_app]).
    rewrite decide_True by apply under_app. by destruct (fs !! _).
  - rewrite lookup_union_r; [by rewrite !cut_lookup, (decide_False (P := under b q))|]. apply lookup_kmap_None; [apply _|].
    intros rest ->. destruct Hb. apply under_app.
Qed.

(** [fs.FileInfo] *)
Record fileInfo := mkFileInfo { fi_IsDir : bool; fi_IsRegular : bool; fi_IsSymlink : bool; fi_Perm : Z; fi_Size : Z }.
Definition info_of (n : node) : fileInfo :=
  match n with
  | File perm body => mkFileInfo false true false perm (Z.of_nat (length body))
  | Dir perm => mkFileInfo true false false perm 4096
  | Other symlink => mkFileInfo false false symlink 511 0
  end.

Inductive FileError := ErrNotExist | ErrFile.
#[export] Instance FileError_eq_dec : EqDecision FileError.
Proof. solve_decision. Defined.

(** ** Programs *)

Section Programs.
(** Private keys, what is sent to the control plane and what it answers. *)
Context {Key Request Reply : Type}.

Inductive call : Type → Type :=
| Lstat (p : path) : call (result FileError fileInfo)
| ReadFile (p : path) : call (result FileError bytes)
| MkdirAll (p : path) (perm : Z) : call (result FileError unit)
| Mkdir (p : path) (perm : Z) : call (result FileError unit)
| MkdirTemp (p : path) (prefix : string) : call (result FileError path)
| Chmod (p : path) (perm : Z) : call (result FileError unit)
| ChmodFile (p : path) (perm : Z) : call (result FileError unit)         (** [File.Chmod] *)
| CreateTemp (p : path) (prefix base suffix : string) : call (result FileError path)
| OpenExclusive (p : path) (perm : Z) : call (result FileError unit)    (** [os.O_CREATE|os.O_EXCL] *)
| Open (p : path) : call (result FileError unit)
| StatFile (p : path) : call (result FileError fileInfo)              (** [File.Stat] *)
| WriteFile (p : path) (body : bytes) : call (result FileError unit)   (** [File.Write] to an empty file *)
| Sync (p : path) : call (result FileError unit)
| Close (p : path) : call (result FileError unit)
| Rename (a b : path) : call (result FileError unit)
| Remove (p : path) : call (result FileError unit)
| RemoveAll (p : path) : call (result FileError unit)
| GenerateKey : call (option Key)
| ReadRandom (n : nat) : call (option bytes)                          (** [io.ReadFull(rand.Reader, ...)] *)
| NewString : call string                                             (** [uuid.NewString] *)
| Now : call Z
| NewClient : call bool
| Send (r : Request) : call (option Reply).

(** What a call meets. *)
Record draw := mkDraw {
  dr_ok : bool;                   (** the call succeeds, if it can *)
  dr_short : option nat;          (** a write fails after that many bytes, [File.Chmod] at once *)
  dr_part : nat;                  (** of a failing [MkdirAll]: the directories made *)
  dr_gone : option (list path);   (** [RemoveAll] fails after it removed these *)
  dr_random : string;
  dr_key : option Key;
  dr_now : Z;
  dr_reply : option Reply;
}.

(** The files, and what was sent so far. *)
Record world := mkWorld { w_files : files; w_sent : list Request }.

Definition on_files {B} (w : world) (r : files * B) : world * B := (mkWorld r.1 (w_sent w), r.2).

Definition parent (p : path) : path := take (pred (length p)) p.

Definition create (p : path) (n : node) (fs : files) : files * result FileError path :=
  if is_dir (parent p) fs && bool_decide (subtree p fs = ∅) then (<[p := n]> fs, Ok p) else (fs, Err ErrFile).

(** [os.Rename] refuses a directory in the place of [b], also an empty one. *)
Definition rename (a b : path) (fs : files) : files * result FileError unit :=
  if bool_decide (under a b) || bool_decide (under b a) || negb (is_dir (parent b) fs) then (fs, Err ErrFile)
  else match fs !! a with
  | None => (fs, Err ErrNotExist)
  | Some n => match n, fs !! b with
    | _, Some (Dir _) | Dir _, Some _ => (fs, Err ErrFile)
    | _, _ => (move a b fs, Ok tt)
    end
  end.

(** The directories from [above] on along [rest]. *)
Fixpoint make_dirs (above rest : path) (perm : Z) (fs : files) : files * result FileError unit :=
  match rest with
  | [] => (fs, Ok tt)
  | c :: rest =>
    let p := above ++ [c] in
    match fs !! p with
    | Some (Dir _) => make_dirs p rest perm fs
    | Some _ => (fs, Err ErrFile)
    | None => make_dirs p rest perm (<[p := Dir perm]> fs)
    end
  end.

Definition set_perm (p : path) (perm : Z) (fs : files) : files * result FileError unit :=
  match fs !! p with
  | Some (File _ body) => (<[p := File perm body]> fs, Ok tt)
  | Some (Dir _) => (<[p := Dir perm]> fs, Ok tt)
  | _ => (fs, Err ErrFile)
  end.

Definition set_body (p : path) (body : bytes) (fs : files) : files :=
  match fs !! p with Some (File perm _) => <[p := File perm body]> fs | _ => fs end.

Definition remove (p : path) (fs : files) : files * result FileError unit :=
  match fs !! p with
  | None => (fs, Err ErrNotExist)
  | Some (Dir _) => if vacant p fs then (delete p fs, Ok tt) else (fs, Err ErrFile)
  | Some _ => (delete p fs, Ok tt)
  end.

Definition discard {A} (r : result FileError A) : result FileError unit := match r with Ok _ => Ok tt | Err e => Err e end.

Definition perform (d : draw) {B} (c : call B) (w : world) : world * B :=
  let fs := w_files w in
  match c in call B return world * B with
  | Lstat p | StatFile p => (w, if dr_ok d then match fs !! p with Some n => Ok (info_of n) | None => Err ErrNotExist end else Err ErrFile)
  | ReadFile p => (w, match fs !! p with
      | Some (File _ body) => if dr_ok d then Ok body else Err ErrFile
      | Some _ => Err ErrFile
      | None => Err ErrNotExist
      end)
  | MkdirAll p perm =>
      let r := on_files w (make_dirs [] (if dr_ok d then p else take (dr_part d) p) perm fs) in
      (r.1, if dr_ok d then r.2 else Err ErrFile)
  | Mkdir p perm => if dr_ok d then let r := on_files w (create p (Dir perm) fs) in (r.1, discard r.2) else (w, Err ErrFile)
  | MkdirTemp p prefix => if dr_ok d then on_files w (create (p ++ [RandomName prefix "" "" (dr_random d)]) (Dir 448) fs) else (w, Err ErrFile)
  | Chmod p perm => if dr_ok d then on_files w (set_perm p perm fs) else (w, Err ErrFile)
  | ChmodFile p perm => match dr_short d with None => on_files w (set_perm p perm fs) | Some _ => (w, Err ErrFile) end
  | CreateTemp p prefix base suffix =>
      if dr_ok d then on_files w (create (p ++ [RandomName prefix base suffix (dr_random d)]) (File 384 []) fs) else (w, Err ErrFile)
  | OpenExclusive p perm => if dr_ok d then let r := on_files w (create p (File perm []) fs) in (r.1, discard r.2) else (w, Err ErrFile)
  | Open p => (w, match fs !! p with Some _ => if dr_ok d then Ok tt else Err ErrFile | None => Err ErrNotExist end)
  | WriteFile p body => match dr_short d with
      | None => on_files w (set_body p body fs, Ok tt)
      | Some n => on_files w (set_body p (take n body) fs, Err ErrFile)
      end
  | Sync _ | Close _ => (w, if dr_ok d then Ok tt else Err ErrFile)
  | Rename a b => if dr_ok d then on_files w (rename a b fs) else (w, Err ErrFile)
  | Remove p => if dr_ok d then on_files w (remove p fs) else (w, Err ErrFile)
  | RemoveAll p => match dr_gone d with
      | None => on_files w (cut p fs, Ok tt)
      | Some gone => on_files w (filter (λ x, ¬ (under p x.1 ∧ x.1 ∈ gone)) fs, Err ErrFile)
      end
  | GenerateKey => (w, if dr_ok d then dr_key d else None)
  | ReadRandom n => (w, if dr_ok d then Some (resize n Ascii.zero (chars (dr_random d))) else None)
  | NewString => (w, dr_random d)
  | Now => (w, dr_now d)
  | NewClient => (w, dr_ok d)
  | Send r => (mkWorld fs (w_sent w ++ [r]), if dr_ok d then dr_reply d else None)
  end.

Inductive prog (A : Type) : Type :=
| Ret (a : A)
| Do {B} (c : call B) (k : B → prog A).
Arguments Ret {A} a.
Arguments Do {A B} c k.

Fixpoint bind {A B} (p : prog A) (f : A → prog B) : prog B :=
  match p with Ret a => f a | Do c k => Do c (λ b, bind (k b) f) end.

(** [defer]: the call is made when [p] is done, not when the process crashes. *)
Definition defer {A B} (c : call B) (p : prog A) : prog A := bind p (λ a, Do c (λ _, Ret a)).

(** A program that can fail, and a call whose error is replaced. *)
Definition try {E A B} (p : prog (result E A)) (f : A → prog (result E B)) : prog (result E B) :=
  bind p (λ r, match r with Ok a => f a | Err e => Ret (Err e) end).
Definition attempt {E F A B} (c : call (result F A)) (e : E) (f : A → prog (result E B)) : prog (result E B) :=
  Do c (λ r, match r with Ok a => f a | Err _ => Ret (Err e) end).

(** [None]: the process has crashed. *)
Fixpoint run {A} (ds : list draw) (p : prog A) (w : world) {struct p} : world * option A :=
  match p with
  | Ret a => (w, Some a)
  | Do c k => match ds with
    | [] => (w, None)
    | d :: ds => let r := perform d c w in run ds (k r.2) r.1
    end
  end.

(** With these draws [p] ends as [w'] and [a], whatever comes next. *)
Definition runs {A} (ds : list draw) (p : prog A) (w w' : world) (a : A) : Prop :=
  ∀ B (f : A → prog B) rest, run (ds ++ rest) (bind p f) w = run rest (f a) w'.

Lemma run_bind_assoc {A B C} (p : prog A) (f : A → prog B) (g : B → prog C) ds w :
  run ds (bind (bind p f) g) w = run ds (bind p (λ a, bind (f a) g)) w.
Proof. revert ds w. induction p as [a|B' c k IH]; intros ds w; cbn; [done|]. destruct ds as [|d ds]; [done|]. apply IH. Qed.

Lemma run_bind_Ret {A} (p : prog A) ds w : run ds (bind p Ret) w = run ds p w.
Proof. revert ds w. induction p as [a|B c k IH]; intros ds w; cbn; [done|]. destruct ds as [|d ds]; [done|]. apply IH. Qed.

Lemma runs_Ret {A} (a : A) w : runs [] (Ret a) w w a.
Proof. done. Qed.

Lemma runs_Do {A B} (c : call B) (k : B → prog A) d ds w w' a :
  runs ds (k (perform d c w).2) (perform d c w).1 w' a → runs (d :: ds) (Do c k) w w' a.
Proof. intros Hr C f rest. apply Hr. Qed.

Lemma runs_bind {A B} ds ds' (p : prog A) (f : A → prog B) w w' w'' a b :
  runs ds p w w' a → runs ds' (f a) w' w'' b → runs (ds ++ ds') (bind p f) w w'' b.
Proof. intros Hp Hf C g rest. by rewrite run_bind_assoc, <-app_assoc, Hp, Hf. Qed.

Lemma runs_defer {A B} (c : call B) ds d (p : prog A) w w' a :
  runs ds p w w' a → runs (ds ++ [d]) (defer c p) w (perform d c w').1 a.
Proof. intros Hp. eapply runs_bind; [exact Hp|]. apply runs_Do, runs_Ret. Qed.

Lemma runs_run {A} ds rest (p : prog A) w w' a : runs ds p w w' a → run (ds ++ rest) p w = (w', Some a).
Proof. intros Hr. rewrite <-run_bind_Ret. apply Hr. Qed.

(** What a run leaves is read off the run. *)
Lemma run_result {A} ds (p : prog A) w a : (run ds p w).2 = Some a → run ds p w = ((run ds p w).1, Some a).
Proof. destruct (run ds p w) as [w' r]. cbn. by intros ->. Qed.

(** ** What holds whatever fails *)

(** No write stops short, and [File.Chmod] succeeds. *)
Definition writes_hold (d : draw) : Prop := dr_short d = None.
(** [RemoveAll] succeeds. *)
Definition removals_hold (d : draw) : Prop := dr_gone d = None.

(** [I] holds at every moment, and [Q] of the result, if the draws are in [W]. *)
Fixpoint always {A} (W : draw → Prop) (I : world → Prop) (p : prog A) (Q : A → world → Prop) (w : world) : Prop :=
  match p with
  | Ret a => I w ∧ Q a w
  | Do c k => I w ∧ ∀ d, W d → let r := perform d c w in always W I (k r.2) Q r.1
  end.

Section Always.
Context (W : draw → Prop).

Lemma always_run {A} I (p : prog A) Q w ds : always W I p Q w → Forall W ds →
  I (run ds p w).1 ∧ ∀ a, (run ds p w).2 = Some a → Q a (run ds p w).1.
Proof.
  intros Ha Hds. revert w ds Ha Hds. induction p as [a|B c k IH]; intros w ds; cbn.
  - intros [HI HQ] _. split; [done|]. by intros ? [= <-].
  - intros [HI Hd] Hds. destruct Hds as [|d ds Hw Hds]; [done|]. apply IH; [by apply Hd|done].
Qed.

Lemma always_bind {A B} I (p : prog A) (f : A → prog B) Q w :
  always W I p (λ a w', always W I (f a) Q w') w → always W I (bind p f) Q w.
Proof.
  revert w. induction p as [a|B' c k IH]; intros w; cbn; [by intros [_ ?]|].
  intros [HI Hd]. split; [done|]. intros d Hw. by apply IH, Hd.
Qed.

Lemma always_mono {A} (I I' : world → Prop) (p : prog A) (Q Q' : A → world → Prop) w :
  always W I p Q w → (∀ w, I w → I' w) → (∀ a w, I w → Q a w → Q' a w) → always W I' p Q' w.
Proof.
  intros Ha HI HQ. revert w Ha. induction p as [a|B c k IH]; intros w; cbn; [intros [? ?]; auto|].
  intros [? Hd]. split; [auto|]. intros d Hw. by apply IH, Hd.
Qed.

Lemma always_defer {A B} I (c : call B) (p : prog A) Q w :
  always W I p (λ a w', I w' ∧ ∀ d, W d → I (perform d c w').1 ∧ Q a (perform d c w').1) w → always W I (defer c p) Q w.
Proof. intros Ha. apply always_bind. eapply always_mono; [exact Ha|done|]. cbn. intros a w' _ [HI Hd]. split; [done|]. intros d Hw. by apply Hd. Qed.

Lemma always_do {A B} I (c : call B) (k : B → prog A) Q w :
  I w → (∀ d, W d → always W I (k (perform d c w).2) Q (perform d c w).1) → always W I (Do c k) Q w.
Proof. by split. Qed.

Lemma always_try {E A B} I (p : prog (result E A)) (f : A → prog (result E B)) Q w :
  always W I p (λ r w', match r with Ok a => always W I (f a) Q w' | Err e => I w' ∧ Q (Err e) w' end) w → always W I (try p f) Q w.
Proof. intros Ha. apply always_bind. eapply always_mono; [exact Ha|done|]. by intros [a|e] w' _. Qed.

Lemma always_attempt {E F A B} I (c : call (result F A)) (e : E) (f : A → prog (result E B)) Q w :
  I w → (∀ d, W d → let r := perform d c w in
           match r.2 with Ok a => always W I (f a) Q r.1 | Err _ => I r.1 ∧ Q (Err e) r.1 end) →
  always W I (attempt c e f) Q w.
Proof. intros HI Hd. split; [done|]. intros d Hw. specialize (Hd d Hw). cbn in *. by destruct (perform d c w).2. Qed.
End Always.

(** ** What calls leave alone *)

Lemma create_cases p n fs :
  (create p n fs = (<[p := n]> fs, Ok p) ∧ subtree p fs = ∅) ∨ create p n fs = (fs, Err ErrFile).
Proof. unfold create. destruct (is_dir _ _); cbn; [|by right]. case_bool_decide; [by left|by right]. Qed.

Lemma rename_cases a b fs :
  (rename a b fs = (move a b fs, Ok tt) ∧ apart a b ∧ is_Some (fs !! a)) ∨ ∃ e, rename a b fs = (fs, Err e).
Proof.
  unfold rename. do 2 (case_bool_decide; [right; by eexists|]). destruct (is_dir _ _); cbn; [|right; by eexists].
  destruct (fs !! a) as [[]|] eqn:Ha; [destruct (fs !! b) as [[]|]..|]; first [right; by eexists|left; by eauto].
Qed.

(** What a call may change: what is below these paths; [None] for calls that do more. *)
Definition area (d : draw) {B} (c : call B) : option (list path) :=
  match c with
  | Mkdir p _ | OpenExclusive p _ => Some [p]
  | MkdirTemp p prefix => Some [p ++ [RandomName prefix "" "" (dr_random d)]]
  | CreateTemp p prefix base suffix => Some [p ++ [RandomName prefix base suffix (dr_random d)]]
  | Chmod p _ | ChmodFile p _ | WriteFile p _ | Remove p | RemoveAll p => Some [p]
  | Rename a b => Some [a; b]
  | MkdirAll _ _ | Send _ => None
  | _ => Some []
  end.

Definition keeps (P : path → Prop) (w w' : world) : Prop :=
  w_sent w' = w_sent w ∧ ∀ q, P q → w_files w' !! q = w_files w !! q.

Lemma keeps_refl P w : keeps P w w.
Proof. done. Qed.
Lemma keeps_trans P w w' w'' : keeps P w w' → keeps P w' w'' → keeps P w w''.
Proof. intros [Hs Hq] [Hs' Hq']. split; [by rewrite Hs'|]. intros q HP. by rewrite Hq', Hq. Qed.
Lemma keeps_weaken (P P' : path → Prop) w w' : (∀ q, P' q → P q) → keeps P w w' → keeps P' w w'.
Proof. intros Hp [Hs Hq]. split; [done|]. intros q HP. by apply Hq, Hp. Qed.

Lemma insert_frame (p q : path) (n : node) fs : ¬ under p q → (<[p := n]> fs : files) !! q = fs !! q.
Proof. intros Hne. apply lookup_insert_ne. intros ->. by apply Hne. Qed.

Lemma set_perm_frame p q perm fs : ¬ under p q → (set_perm p perm fs).1 !! q = fs !! q.
Proof. intros Hne. unfold set_perm. destruct (fs !! p) as [[]|]; cbn; [by apply insert_frame|by apply insert_frame|done..]. Qed.

Lemma set_body_frame p q body fs : ¬ under p q → set_body p body fs !! q = fs !! q.
Proof. intros Hne. unfold set_body. destruct (fs !! p) as [[]|]; [by apply insert_frame|done..]. Qed.

Lemma remove_frame p q fs : ¬ under p q → (remove p fs).1 !! q = fs !! q.
Proof.
  intros Hne. unfold remove. assert (p ≠ q) by (intros ->; by apply Hne).
  destruct (fs !! p) as [[]|]; [|destruct (vacant _ _)|..]; cbn; try done; by apply lookup_delete_ne.
Qed.

Lemma rename_frame a b q fs : ¬ under a q → ¬ under b q → (rename a b fs).1 !! q = fs !! q.
Proof.
  intros Ha Hb. destruct (rename_cases a b fs) as [(-> & Hab & _)|[e ->]]; [|done]. cbn.
  by rewrite move_lookup, !decide_False.
Qed.

Lemma gone_frame p q (gone : list path) fs : ¬ under p q → (filter (λ x, ¬ (under p x.1 ∧ x.1 ∈ gone)) fs : files) !! q = fs !! q.
Proof. intros Hne. apply option_eq. intros n. rewrite map_lookup_filter_Some. cbn. naive_solver. Qed.

Lemma create_frame p q n fs : ¬ under p q → (create p n fs).1 !! q = fs !! q.
Proof. intros Hne. destruct (create_cases p n fs) as [[-> _]| ->]; [by apply insert_frame|done]. Qed.

Lemma perform_keeps d {B} (c : call B) w l : area d c = Some l →
  keeps (λ q, ∀ a, a ∈ l → ¬ under a q) w (perform d c w).1.
Proof.
  intros Hl. split; [destruct c; cbn; try done; by repeat case_match|]. intros q Hq.
  assert (Hin : ∀ a l', l = a :: l' → ¬ under a q) by (intros a l' ->; apply Hq, list_elem_of_here).
  destruct c; cbn in *; try discriminate Hl; injection Hl as <-; try done;
    try (specialize (Hin _ _ eq_refl));
    try match goal with |- context [dr_ok ?d] => destruct (dr_ok d) | |- context [dr_short ?d] => destruct (dr_short d)
      | |- context [dr_gone ?d] => destruct (dr_gone d) end; cbn;
    try done; eauto using create_frame, set_perm_frame, set_body_frame, remove_frame, gone_frame.
  - apply rename_frame; [done|]. apply Hq, list_elem_of_further, list_elem_of_here.
  - by rewrite cut_lookup, decide_False.
Qed.

(** A call whose area lies outside of [P]. *)
Lemma keeps_perform (P : path → Prop) w0 w d {B} (c : call B) l :
  area d c = Some l → (∀ a q, a ∈ l → P q → ¬ under a q) → keeps P w0 w → keeps P w0 (perform d c w).1.
Proof.
  intros Hl Ha Hk. eapply keeps_trans; [exact Hk|]. eapply keeps_weaken; [|by eapply perform_keeps]. intros q HP a Hin. by eapply Ha.
Qed.

Lemma make_dirs_keeps above rest perm fs q : is_Some (fs !! q) → (make_dirs above rest perm fs).1 !! q = fs !! q.
Proof.
  revert above fs. induction rest as [|c rest IH]; intros above fs Hq; cbn; [done|].
  destruct (fs !! (above ++ [c])) as [[]|] eqn:Hc; cbn; [done|by apply IH|done|].
  rewrite IH; rewrite lookup_insert_ne; try done; intros <-; destruct Hq; congruence.
Qed.

Lemma make_dirs_outside above rest perm fs q : ¬ under q (above ++ rest) → (make_dirs above rest perm fs).1 !! q = fs !! q.
Proof.
  revert above fs. induction rest as [|c rest IH]; intros above fs Hq; cbn; [done|].
  assert (Hq' : ¬ under q ((above ++ [c]) ++ rest)) by (by rewrite <-app_assoc).
  destruct (fs !! (above ++ [c])) as [[]|] eqn:Hc; cbn; [done|by apply IH|done|].
  rewrite IH by done. apply lookup_insert_ne. intros <-. apply Hq'. apply under_app.
Qed.

(** [MkdirAll] adds missing directories on its path. *)
Lemma MkdirAll_keeps d p perm w : keeps (λ q, is_Some (w_files w !! q) ∨ ¬ under q p) w (perform d (MkdirAll p perm) w).1.
Proof.
  split; [done|]. intros q Hq. cbn. destruct Hq as [Hq|Hq]; [by apply make_dirs_keeps|]. apply make_dirs_outside. cbn.
  destruct (dr_ok d); [done|]. intros Hu. apply Hq. eapply under_trans; [exact Hu|]. exists (drop (dr_part d) p). by rewrite take_drop.
Qed.
End Programs.
Arguments Ret {Key Request Reply A} a.
Arguments Do {Key Request Reply A B} c k.
