(* ===== verification/RunnerFiles.v ===== *)
(** internal/runner/credentials.go: the key and the certificate of a runner on its disk, its
    enrolment with a registration token and the rotation of its certificate.

    Private keys, the encodings of crypto/x509, encoding/pem and encoding/json, and what
    tls.X509KeyPair and x509.Certificate.Verify decide are arguments; the answers of the control
    plane are part of the draws of FileSystem.v.  Permissions are those of a system that is not
    Windows, without the mask of the process; the state directory is not the root directory, and
    wiping buffers has no effect. *)

From S2P Require Import Prelude GoStd RunnerAuth WorkProtocol WorkClient FileSystem.

Definition credentialKeyFile : component := Name "runner-key.pem".
Definition credentialCertFile : component := Name "runner-chain.pem".
Definition credentialRootFile : component := Name "root-cert.pem".
Definition credentialIdentityFile : component := Name "identity.json".
Definition credentialPendingDir : component := Name ".rotation-pending".
Definition pendingKeyFile : component := Name "runner-key.pem".
Definition pendingCSRFile : component := Name "runner.csr.pem".

(** An error of the operating system as it is returned, or one with a text. *)
Inductive CredentialError := OsError (e : FileError) | Message (text : string).
#[export] Instance CredentialError_eq_dec : EqDecision CredentialError.
Proof. solve_decision. Defined.

(** The state directory: [filepath.Dir] and [filepath.Base] of an absolute path. *)
Record stateDir := mkStateDir { sd_parent : path; sd_base : string }.
Definition directory_of (s : stateDir) : path := sd_parent s ++ [Name (sd_base s)].

(** The requests of enrolment and rotation, and what is read of the answers. *)
Inductive RunnerRequest :=
| RegisterRequest (OneTimeToken Name : string) (capabilities : RunnerCapabilities) (CsrPem : bytes) (ProtocolVersion : Z)
| RotateCertificateRequest (CsrPem : bytes) (ProtocolVersion : Z).
Record RunnerReply := mkRunnerReply { rp_RunnerId : string; rp_CertificateChainPem : bytes; rp_CaCertificatePem : bytes }.

(** Paths are absolute: a state directory that is not is [None], other paths are completed with the
    working directory and [None] when they are empty. *)
Record EnrollmentConfig := mkEnrollmentConfig {
  ec_Address : string;
  ec_ServerName : string;
  ec_RootCAFile : option path;
  ec_StateDir : option stateDir;
  ec_Token : string;
  ec_TokenFile : option path;
  ec_Name : string;
  ec_Capabilities : option RunnerCapabilities;
}.

Definition TrimSpaceBytes (b : bytes) : bytes := chars (TrimSpace (of_chars b)).

(** 0077 *)
Definition others_bits : Z := 63.
Definition open_to_others (info : fileInfo) : bool := negb (Z.land (fi_Perm info) others_bits =? 0).

(** Private keys and pools of trusted certificates, with what the program uses of crypto/x509,
    crypto/tls, encoding/pem, encoding/json and google/uuid. *)
Class Pki (Key Pool : Type) := {
  pem_Decode : bytes → option pemBlock * bytes;
  pem_EncodeToMemory : string → bytes → bytes;
  MarshalPKCS8 : Key → option bytes;
  ParsePKCS8 : bytes → option Key;                       (** the key, when it is one of Ed25519 *)
  CreateRequest : Key → option bytes;                    (** the request for a certificate of a key *)
  PublicPart : Key → bytes;
  ParseCertificateRequest : bytes → option CertificateRequest;
  MarshalPKIXPublicKey : PublicKey → option bytes;
  X509KeyPair : bytes → bytes → option (list bytes);     (** the certificates, from the chain and the key *)
  ParseCertificate : bytes → option Certificate;
  AppendCertsFromPEM : bytes → option Pool;
  Verify : Certificate → Pool → list Certificate → time → bool;
  uuid_String : uuid → string;
  uuid_Parse : string → option uuid;
  json_Marshal : string → time → bytes;
  json_Decode : bytes → option (string * time);
}.

Section Credentials.
Context {Key Pool : Type} `{L : Pki Key Pool}.

Abbreviation prog := (@prog Key RunnerRequest RunnerReply).
(** A program that can fail. *)
Abbreviation io A := (prog (result CredentialError A)).

Definition ok {A} (a : A) : io A := Ret (Ok a).
Definition failed {A} (text : string) : io A := Ret (Err (Message text)).

(** [Credentials], with the private key of its [tls.Certificate] and a pool that is set. *)
Record RunnerCredentials := mkRunnerCredentials {
  cd_RunnerID : uuid;
  cd_Certificate : list bytes;
  cd_Leaf : Certificate;
  cd_Private : Key;
  cd_RootPool : Pool;
  cd_RootPEM : bytes;
  cd_NotAfter : time;
}.

Record RotationConfig := mkRotationConfig {
  rc_Address : string;
  rc_ServerName : string;
  rc_StateDir : option stateDir;
  rc_Current : RunnerCredentials;
}.

(** ** Files *)

Definition validateStateDirectory (p : path) : io unit :=
  Do (Lstat p) (λ r, match r with
  | Err e => Ret (Err (OsError e))
  | Ok info =>
    if negb (fi_IsDir info) || fi_IsSymlink info || open_to_others info then failed "Runner state directory is insecure" else ok tt
  end).

Definition readBoundedRegular (p : path) (limit : Z) (private : bool) : io bytes :=
  Do (Lstat p) (λ r, match r with
  | Err e => Ret (Err (OsError e))
  | Ok info =>
    if negb (fi_IsRegular info) || fi_IsSymlink info || (fi_Size info <? 1) || (limit <? fi_Size info) || (private && open_to_others info)
    then failed "Runner credential file is insecure"
    else Do (ReadFile p) (λ r, Ret match r with Ok body => Ok body | Err e => Err (OsError e) end)
  end).

(** The error of [Chmod] and of [Write] stays in the scope of the first [if]: the variable that is
    looked at afterwards is that of [CreateTemp]. *)
Definition writeExclusiveAtomic (dir : path) (name : string) (body : bytes) (mode : Z) : io unit :=
  attempt (CreateTemp dir "." name "-") (Message "cannot create Runner credential file") (λ temporary,
    defer (Remove temporary)
      (bind (Do (ChmodFile temporary mode) (λ r, match r with
               | Ok _ => Do (WriteFile temporary body) (λ _, Ret tt)
               | Err _ => Ret tt
               end)) (λ _,
       let target := dir ++ [Name name] in
       let persist : io unit :=
         Do (Lstat target) (λ r, match r with
         | Ok _ | Err ErrFile => failed "cannot persist Runner credentials"
         | Err ErrNotExist => attempt (Rename temporary target) (Message "cannot persist Runner credentials") ok
         end) in
       Do (Sync temporary) (λ synced,
         Do (Close temporary) (λ closed,
           match synced, closed with Ok _, Ok _ => persist | _, _ => failed "cannot persist Runner credentials" end))))).

Fixpoint write_files (dir : path) (files : list (string * bytes * Z)) : io unit :=
  match files with
  | [] => ok tt
  | (name, body, mode) :: files => try (writeExclusiveAtomic dir name body mode) (λ _, write_files dir files)
  end.

(** ** Credentials *)

Definition private_pem (key : Key) : option bytes := pem_EncodeToMemory "PRIVATE KEY" <$> MarshalPKCS8 key.

(** [now], [now'] and [now'']: the clock at its three readings. *)
Definition check_chain (rawID : string) (chainPEM rootPEM : bytes) (private : Key) (now now' now'' : time) : result CredentialError RunnerCredentials :=
  match uuid_Parse rawID with
  | None => Err (Message "invalid Runner certificate identity")
  | Some runnerID =>
    fail_if runnerID =? uuid_Nil with Message "invalid Runner certificate identity";;
    match private_pem private with
    | None => Err (Message "cannot encode Runner identity key")
    | Some privatePEM =>
      match X509KeyPair chainPEM privatePEM with
      | Some ((der :: _ :: _) as ders) =>
        match ParseCertificate der with
        | None => Err (Message "invalid Runner certificate")
        | Some leaf =>
          fail_if match CertificateIdentity uuid_String uuid_Parse (Some leaf) with Ok (identityID, _) => identityID <>? runnerID | Err _ => true end
            || (now <? ce_NotBefore leaf) || negb (now' <? ce_NotAfter leaf) with Message "invalid Runner certificate identity or validity";;
          match AppendCertsFromPEM rootPEM with
          | None => Err (Message "invalid Runner trust root")
          | Some roots =>
            match mapM ParseCertificate (tail ders) with
            | None => Err (Message "invalid Runner certificate chain")
            | Some intermediates =>
              fail_if negb (Verify leaf roots intermediates now'') with Message "Runner certificate chain verification failed";;
              Ok (mkRunnerCredentials runnerID ders leaf private roots rootPEM (ce_NotAfter leaf))
            end
          end
        end
      | _ => Err (Message "Runner certificate does not match local key")
      end
    end
  end.

Definition credentialsFromPEM (rawID : string) (chainPEM rootPEM : bytes) (private : Key) : io RunnerCredentials :=
  Do Now (λ now, Do Now (λ now', Do Now (λ now'', Ret (check_chain rawID chainPEM rootPEM private now now' now'')))).

Definition parseEd25519PrivateKey (keyPEM : bytes) : result CredentialError Key :=
  match pem_Decode keyPEM with
  | (None, _) => Err (Message "invalid Runner private key")
  | (Some block, rest) =>
    fail_if (pb_Type block <>? "PRIVATE KEY") || negb (length (TrimSpaceBytes rest) =? 0)%nat with Message "invalid Runner private key";;
    match ParsePKCS8 (pb_Bytes block) with Some key => Ok key | None => Err (Message "invalid Runner private key") end
  end.

(** [directory] is absolute. *)
Definition LoadCredentials (s : stateDir) : io RunnerCredentials :=
  let dir := directory_of s in
  try (validateStateDirectory dir) (λ _,
  try (readBoundedRegular (dir ++ [credentialKeyFile]) (16 * 2 ^ 10) true) (λ keyPEM,
  try (readBoundedRegular (dir ++ [credentialCertFile]) (64 * 2 ^ 10) false) (λ chainPEM,
  try (readBoundedRegular (dir ++ [credentialRootFile]) (64 * 2 ^ 10) false) (λ rootPEM,
  try (readBoundedRegular (dir ++ [credentialIdentityFile]) (4 * 2 ^ 10) false) (λ metadataJSON,
  match json_Decode metadataJSON with
  | None => failed "invalid Runner credential metadata"
  | Some (runnerID, notAfter) =>
    match parseEd25519PrivateKey keyPEM with
    | Err e => Ret (Err e)
    | Ok private =>
      bind (credentialsFromPEM runnerID chainPEM rootPEM private) (λ r, match r with
      | Ok credential =>
        if cd_NotAfter credential =? notAfter then ok credential
        else failed "Runner credential metadata does not match certificate"
      | Err _ => failed "Runner credential metadata does not match certificate"
      end)
    end
  end))))).

(** The four files of a state directory. *)
Definition credential_files (keyPEM : bytes) (credential : RunnerCredentials) : list (string * bytes * Z) :=
  [("runner-key.pem", keyPEM, 384);
   ("runner-chain.pem", mjoin (pem_EncodeToMemory "CERTIFICATE" <$> cd_Certificate credential), 420);
   ("root-cert.pem", cd_RootPEM credential, 420);
   ("identity.json", json_Marshal (uuid_String (cd_RunnerID credential)) (cd_NotAfter credential), 420)].

(** [dir] is in [above], its [filepath.Dir]. *)
Definition persistCredentials (above dir : path) (credential : RunnerCredentials) (private : Key) : io unit :=
  attempt (MkdirAll above 448) (Message "cannot create Runner state parent directory") (λ _,
  Do (Lstat dir) (λ r, match r with
  | Ok _ | Err ErrFile => failed "Runner credential state appeared during enrollment"
  | Err ErrNotExist =>
    attempt (MkdirTemp above ".yuanci-runner-state-") (Message "cannot create temporary Runner state directory") (λ temporary,
    defer (RemoveAll temporary)
      (attempt (Chmod temporary 448) (Message "cannot secure temporary Runner state directory") (λ _,
       match private_pem private with
       | None => failed "cannot encode Runner identity key"
       | Some keyPEM =>
         try (write_files temporary (credential_files keyPEM credential)) (λ _,
         attempt (Rename temporary dir) (Message "cannot publish Runner credential state") (λ _, ok tt))
       end)))
  end)).

(** ** Enrolment *)

Definition validateEnrollmentConfig (config : EnrollmentConfig) : option (path * stateDir * RunnerCapabilities) :=
  match ec_RootCAFile config, ec_StateDir config, ec_Capabilities config with
  | Some root, Some state, Some capabilities =>
    if (ec_Address config =? "") || (ec_ServerName config =? "") || (ec_Name config =? "") then None
    else Some (root, state, capabilities)
  | _, _, _ => None
  end.

Definition enrollmentToken (config : EnrollmentConfig) : io string :=
  match ec_TokenFile config with
  | None =>
    if ec_Token config =? "" then failed "exactly one Runner registration token source is required" else ok (ec_Token config)
  | Some file =>
    if ec_Token config <>? "" then failed "exactly one Runner registration token source is required"
    else bind (readBoundedRegular file 4096 true) (λ r, match r with
      | Ok value => ok (TrimSpace (of_chars value))
      | Err _ => failed "cannot read Runner registration token"
      end)
  end.

(** A new key with its request for a certificate. *)
Definition new_request {A} (no_key no_request : string) (f : Key → bytes → io A) : io A :=
  Do GenerateKey (λ key, match key with
  | None => failed no_key
  | Some private =>
    match CreateRequest private with
    | None => failed no_request
    | Some csrDER => f private (pem_EncodeToMemory "CERTIFICATE REQUEST" csrDER)
    end
  end).

Definition enroll (config : EnrollmentConfig) (root : path) (s : stateDir) (capabilities : RunnerCapabilities) : io RunnerCredentials :=
  try (enrollmentToken config) (λ token,
  bind (readBoundedRegular root (64 * 2 ^ 10) false) (λ r, match r with
  | Err _ => failed "cannot read Runner root certificate"
  | Ok rootPEM =>
    match AppendCertsFromPEM rootPEM with
    | None => failed "invalid Runner root certificate"
    | Some _ =>
      new_request "cannot generate Runner identity key" "cannot generate Runner certificate request" (λ private csrPEM,
      Do NewClient (λ connected, if negb connected then failed "cannot create Runner enrollment connection" else
      Do (Send (RegisterRequest token (ec_Name config) capabilities csrPEM runnerProtocolVersion)) (λ response, match response with
      | None => failed "Runner enrollment failed"
      | Some response =>
        if TrimSpaceBytes (rp_CaCertificatePem response) <>? TrimSpaceBytes rootPEM
        then failed "Runner enrollment returned an unexpected trust root"
        else
          try (credentialsFromPEM (rp_RunnerId response) (rp_CertificateChainPem response) rootPEM private) (λ credential,
          try (persistCredentials (sd_parent s) (directory_of s) credential private) (λ _,
          match ec_TokenFile config with
          | None => ok credential
          | Some file =>
            Do (Remove file) (λ r, match r with
            | Err ErrFile => failed "Runner enrolled but registration token file could not be removed"
            | _ => ok credential
            end)
          end))
      end)))
    end
  end)).

Definition LoadOrEnroll (config : EnrollmentConfig) : io RunnerCredentials :=
  match validateEnrollmentConfig config with
  | None => failed "invalid Runner enrollment configuration"
  | Some (root, state, capabilities) =>
    bind (LoadCredentials state) (λ r, match r with
    | Ok loaded => ok loaded
    | Err (OsError ErrNotExist) => enroll config root state capabilities
    | Err _ => failed "Runner credential state is invalid"
    end)
  end.

(** ** Rotation *)

(** Whether [TLSConfig] accepts. *)
Definition TLSConfig (credential : RunnerCredentials) (serverName : string) : bool :=
  negb ((cd_RunnerID credential =? uuid_Nil) || (length (cd_Certificate credential) =? 0)%nat || (serverName =? "")).

Definition load_pending (pending : path) : io (Key * bytes) :=
  bind (readBoundedRegular (pending ++ [pendingKeyFile]) (16 * 2 ^ 10) true) (λ rk,
  bind (readBoundedRegular (pending ++ [pendingCSRFile]) MaxCSRBytes false) (λ rc,
  match rk, rc with
  | Ok keyPEM, Ok csrPEM =>
    match parseEd25519PrivateKey keyPEM with
    | Err e => Ret (Err e)
    | Ok private =>
      match ValidateRunnerCSR pem_Decode ParseCertificateRequest MarshalPKIXPublicKey csrPEM with
      | Err _ => failed "Runner pending rotation request is invalid"
      | Ok request =>
        if cq_PublicKey (ci_Request request) =? Ed25519Key (PublicPart private) then ok (private, csrPEM)
        else failed "Runner pending rotation key and request do not match"
      end
    end
  | _, _ => failed "Runner pending rotation state is invalid"
  end)).

Definition create_pending (dir pending : path) : io (Key * bytes) :=
  new_request "cannot generate Runner rotation key" "cannot generate Runner rotation request" (λ private csrPEM,
  match private_pem private with
  | None => failed "cannot encode Runner rotation key"
  | Some keyPEM =>
    attempt (MkdirTemp dir ".rotation-pending-") (Message "cannot create Runner pending rotation state") (λ temporary,
    defer (RemoveAll temporary)
      (attempt (Chmod temporary 448) (Message "cannot secure Runner pending rotation state") (λ _,
       try (write_files temporary [("runner-key.pem", keyPEM, 384); ("runner.csr.pem", csrPEM, 420)]) (λ _,
       attempt (Rename temporary pending) (Message "cannot publish Runner pending rotation state") (λ _, ok (private, csrPEM))))))
  end).

Definition loadOrCreatePendingRotation (dir : path) : io (Key * bytes) :=
  bind (validateStateDirectory dir) (λ r, match r with
  | Err _ => failed "Runner credential state is invalid"
  | Ok _ =>
    let pending := dir ++ [credentialPendingDir] in
    Do (Lstat pending) (λ r, match r with
    | Ok info =>
      if negb (fi_IsDir info) || fi_IsSymlink info || open_to_others info then failed "Runner pending rotation state is insecure"
      else load_pending pending
    | Err ErrNotExist => create_pending dir pending
    | Err ErrFile => failed "cannot inspect Runner pending rotation state"
    end)
  end).

(** [s.parent]/.base-next-... and .base-previous-... *)
Definition replaceCredentials (s : stateDir) (credential : RunnerCredentials) (private : Key) : io unit :=
  Do NewString (λ next,
  let staging := sd_parent s ++ [RandomName "." (sd_base s) "-next-" next] in
  try (persistCredentials (sd_parent s) staging credential private) (λ _,
  defer (RemoveAll staging)
    (Do NewString (λ previous,
     let backup := sd_parent s ++ [RandomName "." (sd_base s) "-previous-" previous] in
     attempt (Rename (directory_of s) backup) (Message "cannot stage existing Runner credentials") (λ _,
     Do (Rename staging (directory_of s)) (λ r, match r with
     | Err _ => Do (Rename backup (directory_of s)) (λ _, failed "cannot activate rotated Runner credentials")
     | Ok _ => attempt (RemoveAll backup) (Message "rotated Runner credentials activated but old state could not be removed") ok
     end)))))).

Definition RotateCredentials (config : RotationConfig) : io RunnerCredentials :=
  match rc_StateDir config with
  | None => failed "invalid Runner rotation configuration"
  | Some s =>
    if (rc_Address config =? "") || (rc_ServerName config =? "") then failed "invalid Runner rotation configuration"
    else if negb (TLSConfig (rc_Current config) (rc_ServerName config)) then failed "invalid Runner credentials"
    else
      try (loadOrCreatePendingRotation (directory_of s)) (λ '(private, csrPEM),
      Do NewClient (λ connected, if negb connected then failed "cannot create Runner rotation connection" else
      Do (Send (RotateCertificateRequest csrPEM runnerProtocolVersion)) (λ response, match response with
      | None => failed "Runner certificate rotation failed"
      | Some response =>
        if (length (rp_CertificateChainPem response) =? 0)%nat then failed "Runner certificate rotation returned an invalid response"
        else
          try (credentialsFromPEM (uuid_String (cd_RunnerID (rc_Current config))) (rp_CertificateChainPem response)
                 (cd_RootPEM (rc_Current config)) private) (λ rotated,
          try (replaceCredentials s rotated private) (λ _, ok rotated))
      end)))
  end.
End Credentials.
Arguments RunnerCredentials Key Pool : clear implicits.
Arguments RotationConfig Key Pool : clear implicits.
