(* ===== verification/RunnerFilesFacts.v ===== *)
(** What the programs of RunnerFiles.v do to the files, whatever fails and whenever the process
    dies: lemmas on [always], from single files up to the exchange of the credentials. *)

From S2P Require Import Prelude GoStd RunnerAuth WorkProtocol WorkClient FileSystem RunnerFiles.

#[local] Arguments FileSystem.always : simpl never.
#[local] Arguments attempt : simpl never.
#[local] Arguments try : simpl never.
#[local] Arguments defer : simpl never.
#[local] Arguments failed : simpl never.
#[local] Arguments writeExclusiveAtomic : simpl never.

(** Names next to and in a state directory. *)
Abbreviation state_temp above r := (above ++ [RandomName ".yuanci-runner-state-" "" "" r]).
Abbreviation pending dir := (dir ++ [credentialPendingDir]).
Abbreviation pending_temp dir r := (dir ++ [RandomName ".rotation-pending-" "" "" r]).
Abbreviation staging_of s r := (sd_parent s ++ [RandomName "." (sd_base s) "-next-" r]).
Abbreviation backup_of s r := (sd_parent s ++ [RandomName "." (sd_base s) "-previous-" r]).

Section Files.
Context {Key Pool : Type} `{L : Pki Key Pool}.
Abbreviation prog := (@prog Key RunnerRequest RunnerReply).
Abbreviation always := (FileSystem.always writes_hold).
Abbreviation io A := (prog (result CredentialError A)).
Abbreviation world := (@world RunnerRequest).
Abbreviation call := (@call Key RunnerRequest RunnerReply).
Abbreviation draw := (@draw Key RunnerReply).

(** ** Combinators *)

Lemma always_failed {A} I text Q (w : world) : I w → Q (Err (Message text)) w → always I (failed text : io A) Q w.
Proof. by split. Qed.

(** ** One file *)

Definition elsewhere (dir : path) (name : string) (q : path) : Prop :=
  ¬ under (dir ++ [Name name]) q ∧ ∀ r, ¬ under (dir ++ [RandomName "." name "-" r]) q.

Lemma write_spec dir name body mode (w : world) :
  always (keeps (elsewhere dir name) w) (writeExclusiveAtomic dir name body mode : io unit)
    (λ r w', r = Ok tt → w_files w' !! (dir ++ [Name name]) = Some (File mode body)) w.
Proof.
  apply always_attempt; [done|]. intros d Hw. cbn. destruct (dr_ok d); [|done].
  set (t := dir ++ [RandomName "." name "-" (dr_random d)]). set (target := dir ++ [Name name]).
  set (I := keeps (elsewhere dir name) w).
  destruct (create_cases t (File 384 []) (w_files w)) as [[-> _]| ->]; [|done]. cbn.
  assert (HI : ∀ B (c : call B) d' w' l, area d' c = Some l → l ⊆ [t; target] → I w' → I (perform d' c w').1).
  { intros B c d' w' l Hl Hsub. apply (keeps_perform _ _ _ _ _ l Hl). intros a q Ha%Hsub [Htq Hq].
    assert (a = t ∨ a = target) as [-> | ->] by set_solver; [apply Hq|done]. }
  assert (Hsub : [t] ⊆ [t; target]) by set_solver.
  assert (Hnt : t ≠ target) by (intros [=]%app_inv_head).
  assert (Hins : ∀ n, I (mkWorld (<[t := n]> (w_files w)) (w_sent w))).
  { intros n. split; [done|]. intros q [_ Hq]. apply insert_frame, Hq. }
  apply always_defer. split; [apply Hins|]. intros d1 Hw1. cbn. rewrite Hw1.
  unfold set_perm. rewrite lookup_insert_eq. cbn. rewrite insert_insert_eq.
  split; [apply Hins|]. intros d2 Hw2. cbn. rewrite Hw2. unfold set_body. rewrite lookup_insert_eq. cbn. rewrite insert_insert_eq.
  assert (Hins3 := Hins (File mode body)).
  set (fs3 := <[t := File mode body]> (w_files w)) in *. set (w3 := mkWorld fs3 (w_sent w)) in *.
  assert (Hrm : ∀ d w', I w' → I (perform d (Remove t) w').1) by (intros; by apply (HI _ (Remove t) _ _ [t])).
  match goal with |- always _ _ ?Q _ => set (post := Q) end.
  assert (Hfail : ∀ text w', I w' → always I (failed text : io unit) post w').
  { intros text w' Hw'. split; [done|]. split; [done|]. intros d5 _. split; [by apply Hrm|done]. }
  split; [apply Hins3|]. intros d3 _. split; [apply Hins3|]. intros d4 _. cbn.
  destruct (dr_ok d3), (dr_ok d4); cbn; try apply Hfail, Hins3.
  split; [apply Hins3|]. intros d5 _. cbn. destruct (dr_ok d5); cbn; [|apply Hfail, Hins3].
  destruct (fs3 !! target); cbn; [apply Hfail, Hins3|].
  apply always_attempt; [apply Hins3|]. intros d6 _. cbn. destruct (dr_ok d6); [|apply (Hfail _ w3), Hins].
  assert (Hmv : I (on_files w3 (rename t target fs3)).1).
  { pose proof (HI _ (Rename t target) (mkDraw true None 0 None "" None 0 None) w3 [t; target] eq_refl) as Hr. apply Hr; [set_solver|apply Hins3]. }
  destruct (rename_cases t target fs3) as [(Hr & Hap & _)|[e Hr]]; rewrite Hr in *; cbn in *; [|by apply Hfail].
  split; [done|]. split; [done|]. intros d7 _. split; [by apply Hrm|]. intros _.
  assert (Hm : move t target fs3 !! target = Some (File mode body)).
  { rewrite move_lookup, decide_True, drop_all, app_nil_r by done. apply lookup_insert_eq. }
  destruct (dr_ok d7); [|done]. cbn. rewrite remove_frame; [done|]. apply Hap.
Qed.

Lemma elsewhere_dir dir name : elsewhere dir name dir.
Proof. split; [|intros r]; intros [k Hk%(f_equal length)]; rewrite !length_app in Hk; cbn in Hk; lia. Qed.

Lemma elsewhere_name dir name name' : name ≠ name' → elsewhere dir name (dir ++ [Name name']).
Proof. intros Hne. split; [|intros r]; by apply apart_names; [intros [=]|..]. Qed.

Definition written (dir : path) (fs : files) (x : string * bytes * Z) : Prop :=
  fs !! (dir ++ [Name x.1.1]) = Some (File x.2 x.1.2).

Lemma write_files_spec dir l (w : world) : NoDup (l.*1.*1) →
  always (keeps (λ q, Forall (λ x, elsewhere dir x.1.1 q) l) w) (write_files dir l : io unit)
    (λ r w', r = Ok tt → Forall (written dir (w_files w')) l) w.
Proof.
  revert w. induction l as [|[[name body] mode] l IH]; intros w; cbn; [intros _; split; [done|]; by constructor|].
  intros [Hname Hl]%NoDup_cons. apply always_try. eapply always_mono; [apply write_spec|..].
  { intros w'. apply keeps_weaken. by intros q [? _]%Forall_cons. }
  intros [[]|e] w' Hk Hq; [|split; [|done]; eapply keeps_weaken; [|exact Hk]; by intros q [? _]%Forall_cons].
  eapply always_mono; [by apply IH|..].
  { intros w'' Hk'. eapply keeps_trans; (eapply keeps_weaken; [|eassumption]); by intros q [? ?]%Forall_cons. }
  intros [[]|e] w'' [_ Hk'] Hq'; [|done]. intros _. constructor; [|by apply Hq']. unfold written. cbn. rewrite Hk'; [by apply Hq|].
  apply Forall_forall. intros [[name' body'] mode'] Hx. apply elsewhere_name. cbn. intros ->. apply Hname.
  apply list_elem_of_fmap. exists (name, body'). split; [done|]. apply list_elem_of_fmap. by exists (name, body', mode').
Qed.

(** ** A directory that is filled and then published under its name *)

Record published (dir : path) (l : list (string * bytes * Z)) (fs : files) : Prop := {
  pb_dir : fs !! dir = Some (Dir 448);
  pb_files : Forall (written dir fs) l;
  pb_others : ∀ name, name ∉ l.*1.*1 → fs !! (dir ++ [Name name]) = None;
}.

Lemma published_keeps dir l (w w' : world) : keeps (under dir) w w' → published dir l (w_files w) → published dir l (w_files w').
Proof.
  intros [_ Hk] [Hd Hf Ho]. split; [by rewrite Hk|..].
  - eapply Forall_impl; [exact Hf|]. intros x Hx. unfold written. rewrite Hk; [done|apply under_app].
  - intros name Hn. rewrite Hk; [by apply Ho|apply under_app].
Qed.

Definition stage {A} (t dir : path) (l : list (string * bytes * Z)) (m1 m2 : string) (a : A) : io A :=
  attempt (Chmod t 448) (Message m1) (λ _, try (write_files t l) (λ _, attempt (Rename t dir) (Message m2) (λ _, ok a))).

(** Nothing but the two directories changes, and the second one is as it was or published. *)
Definition staging (t dir : path) (l : list (string * bytes * Z)) (w w' : world) : Prop :=
  keeps (λ q, ¬ under t q ∧ ¬ under dir q) w w' ∧ (keeps (under dir) w w' ∨ published dir l (w_files w')).

Lemma keeps_staging t dir l (w w' : world) : apart t dir → keeps (λ q, ¬ under t q) w w' → staging t dir l w w'.
Proof.
  intros Hap Hk. split; [eapply keeps_weaken; [|exact Hk]; naive_solver|]. left. eapply keeps_weaken; [|exact Hk].
  intros q Hq. eapply apart_under; [by apply apart_sym|done].
Qed.

Lemma staging_outside t dir l (w w' w'' : world) : apart t dir → staging t dir l w w' → keeps (λ q, ¬ under t q) w' w'' → staging t dir l w w''.
Proof.
  intros Hap [Hk Hp] Hk'. assert (Hd : keeps (under dir) w' w'').
  { eapply keeps_weaken; [|exact Hk']. intros q Hq. eapply apart_under; [by apply apart_sym|done]. }
  split; [eapply keeps_trans; [exact Hk|]; eapply keeps_weaken; [|exact Hk']; by intros q []|].
  destruct Hp as [Hp|Hp]; [left; by eapply keeps_trans|right; by eapply published_keeps].
Qed.

Lemma move_published t dir l perm fs : apart t dir → fs !! t = Some (Dir perm) → perm = 448 → Forall (written t fs) l →
  (∀ name, name ∉ l.*1.*1 → fs !! (t ++ [Name name]) = None) → published dir l (move t dir fs).
Proof.
  intros Hap Ht -> Hw Ho.
  assert (Hm : ∀ rest, move t dir fs !! (dir ++ rest) = fs !! (t ++ rest)).
  { intros rest. by rewrite move_lookup, decide_True, drop_app_length by (done || apply under_app). }
  split.
  - specialize (Hm []). rewrite !app_nil_r in Hm. by rewrite Hm.
  - eapply Forall_impl; [exact Hw|]. intros x Hx. unfold written. by rewrite Hm.
  - intros name Hn. rewrite Hm. by apply Ho.
Qed.

Lemma stage_run {A} t dir l m1 m2 (a : A) (w : world) : apart t dir → NoDup (l.*1.*1) →
  (∃ perm, w_files w !! t = Some (Dir perm)) → (∀ c, w_files w !! (t ++ [c]) = None) →
  always (staging t dir l w) (stage t dir l m1 m2 a : io A) (λ r w', ∀ x, r = Ok x → x = a ∧ published dir l (w_files w')) w.
Proof.
  intros Hap Hnd [perm Ht] Hnone.
  assert (Hst : ∀ w', keeps (λ q, ¬ under t q) w w' → staging t dir l w w') by (intros; by apply keeps_staging).
  apply always_attempt; [by apply Hst|]. intros d _. cbn. destruct (dr_ok d); [|split; [by apply Hst|done]].
  unfold set_perm. rewrite Ht. cbn. set (w1 := mkWorld (<[t := Dir 448]> (w_files w)) (w_sent w)).
  assert (Hk1 : keeps (λ q, ¬ under t q) w w1) by (split; [done|]; intros q; apply insert_frame).
  assert (Hels : ∀ w', keeps (λ q, Forall (λ x, elsewhere t x.1.1 q) l) w1 w' → keeps (λ q, ¬ under t q) w w').
  { intros w' Hk. eapply keeps_trans; [exact Hk1|]. eapply keeps_weaken; [|exact Hk]. intros q Hq. apply Forall_true. intros x.
    split; [|intros r]; intros Hu; apply Hq; (eapply under_trans; [apply under_app|exact Hu]). }
  apply always_try. eapply always_mono; [by apply write_files_spec|by intros; apply Hst, Hels|].
  intros [[]|e] w2 Hk2 Hq; [|split; [by apply Hst, Hels|done]]. pose proof (Hels w2 Hk2) as Hk.
  apply always_attempt; [by apply Hst|]. intros d2 _. cbn. destruct (dr_ok d2); [|split; [by apply Hst|done]].
  destruct (rename_cases t dir (w_files w2)) as [(Hr & _ & _)|[e Hr]]; unfold on_files; rewrite Hr; cbn; [|split; [|done]; by apply Hst].
  assert (Hp : published dir l (move t dir (w_files w2))).
  { destruct Hk2 as [_ Hk2]. eapply move_published; [done| |done|by apply Hq|].
    - rewrite Hk2; [apply lookup_insert_eq|]. apply Forall_true. intros x. apply elsewhere_dir.
    - intros name Hn. rewrite Hk2; [|].
      + cbn. rewrite lookup_insert_ne; [apply Hnone|]. intros Heq%(f_equal length). rewrite length_app in Heq. cbn in Heq. lia.
      + apply Forall_forall. intros x Hx. apply elsewhere_name. intros <-. apply Hn. by do 2 apply list_elem_of_fmap_2. }
  assert (Hmv : staging t dir l w (mkWorld (move t dir (w_files w2)) (w_sent w2))).
  { split; [|by right]. split; [apply Hk|]. intros q [Htq Hdq]. cbn. rewrite move_lookup, !decide_False by done. by apply Hk. }
  split; [done|]. by intros x [= <-].
Qed.

Lemma stage_spec {A} t dir l m1 m2 (a : A) (w : world) : apart t dir → NoDup (l.*1.*1) →
  (∃ perm, w_files w !! t = Some (Dir perm)) → (∀ c, w_files w !! (t ++ [c]) = None) →
  always (staging t dir l w) (defer (RemoveAll t) (stage t dir l m1 m2 a))
    (λ r w', staging t dir l w w' ∧ ∀ x, r = Ok x → x = a ∧ published dir l (w_files w')) w.
Proof.
  intros Hap Hnd Ht Hnone.
  apply always_defer. eapply always_mono; [by apply stage_run|done|].
  assert (Hrm : ∀ (d : draw) w', staging t dir l w w' → staging t dir l w (perform d (RemoveAll t) w').1).
  { intros d w' Hw'. eapply staging_outside; [exact Hap|exact Hw'|]. eapply keeps_weaken; [|exact (perform_keeps d (RemoveAll t) w' [t] eq_refl)].
    intros q Hq a' ->%list_elem_of_singleton. done. }
  assert (Hpub : ∀ (d : draw) (w' : world), published dir l (w_files w') → published dir l (w_files (perform d (RemoveAll t) w').1)).
  { intros d w' Hp. eapply published_keeps; [|exact Hp]. eapply keeps_weaken; [|exact (perform_keeps d (RemoveAll t) w' [t] eq_refl)].
    intros q Hq a' ->%list_elem_of_singleton. eapply apart_under; [by apply apart_sym|done]. }
  intros r w' Hst Hq. split; [done|]. intros d _. split; [by apply Hrm|]. split; [by apply Hrm|]. intros x Hx.
  destruct (Hq x Hx). split; [done|by apply Hpub].
Qed.

(** ** Persisting *)


(** What persisting to [dir] in [above] leaves alone. *)
Definition untouched (above dir : path) (w : world) (q : path) : Prop :=
  ¬ under dir q ∧ (is_Some (w_files w !! q) ∨ ¬ under q above ∧ ∀ r, ¬ under (state_temp above r) q).

(** The files of credentials with their key. *)
Definition stored (dir : path) (credential : RunnerCredentials Key Pool) (private : Key) (fs : files) : Prop :=
  ∃ keyPEM, private_pem private = Some keyPEM ∧ published dir (credential_files keyPEM credential) fs.

Definition persisting (above dir : path) (credential : RunnerCredentials Key Pool) (private : Key) (w w' : world) : Prop :=
  keeps (untouched above dir w) w w' ∧
  (keeps (under dir) w w' ∨ w_files w !! dir = None ∧ stored dir credential private (w_files w')).

Lemma not_above above c q : under (above ++ [c]) q → ¬ under q above.
Proof. intros [k ->] [k' Hk%(f_equal length)]. rewrite !length_app in Hk. cbn in Hk. lia. Qed.

Lemma credential_names keyPEM (credential : RunnerCredentials Key Pool) : NoDup ((credential_files keyPEM credential).*1.*1).
Proof. cbn. repeat (apply NoDup_cons; split; [set_solver|]). by apply NoDup_nil. Qed.

(** From the creation of the temporary directory on. *)
Lemma persist_staged above c credential private (w w1 : world) rand :
  let dir := above ++ [c] in let t := state_temp above rand in
  c ≠ RandomName ".yuanci-runner-state-" "" "" rand → w_files w !! dir = None →
  keeps (untouched above dir w) w w1 → keeps (under dir) w w1 → subtree t (w_files w1) = ∅ →
  always (persisting above dir credential private w)
    (defer (RemoveAll t)
      (attempt (Chmod t 448) (Message "cannot secure temporary Runner state directory") (λ _,
       match private_pem private with
       | None => failed "cannot encode Runner identity key"
       | Some keyPEM =>
         try (write_files t (credential_files keyPEM credential)) (λ _,
         attempt (Rename t dir) (Message "cannot publish Runner credential state") (λ _, ok tt))
       end)) : io unit)
    (λ r w', r = Ok tt → stored dir credential private (w_files w')) (mkWorld (<[t := Dir 448]> (w_files w1)) (w_sent w1)).
Proof.
  intros dir t Hc Hnone Hu Hd Ht. rewrite subtree_empty in Ht. set (w2 := mkWorld _ _).
  assert (Hap : apart t dir) by (apply apart_names; congruence).
  assert (Hout : ∀ q, untouched above dir w q → ¬ under t q).
  { intros q Hq Htq. pose proof (proj2 Hu q Hq) as Heq. destruct Hq as [_ [[n Hn]|[_ Hq]]]; [|by eapply Hq].
    rewrite Ht in Heq by done. congruence. }
  assert (Hins : ∀ P : path → Prop, (∀ q, P q → ¬ under t q) → keeps P w1 w2).
  { intros P HP. split; [done|]. intros q Hq. by apply insert_frame, HP. }
  assert (Hdt : ∀ q, under dir q → ¬ under t q) by (intros q; by apply apart_under, apart_sym).
  assert (HI : ∀ keyPEM w', private_pem private = Some keyPEM → staging t dir (credential_files keyPEM credential) w2 w' →
    persisting above dir credential private w w').
  { intros keyPEM w' Hkey [Hk Hp]. split.
    - eapply keeps_trans; [exact Hu|]. eapply keeps_trans; [by apply Hins|]. eapply keeps_weaken; [|exact Hk]. intros q Hq. split; [by apply Hout|apply Hq].
    - destruct Hp as [Hp|Hp]; [left|right; split; [done|by eexists]]. eapply keeps_trans; [exact Hd|]. eapply keeps_trans; [by apply Hins|exact Hp]. }
  destruct (private_pem private) as [keyPEM|] eqn:Hkey.
  - eapply always_mono; [apply (stage_spec (A := ()) t dir (credential_files keyPEM credential)); [done|apply credential_names|..]| |].
    + eexists. apply lookup_insert_eq.
    + intros c'. cbn. rewrite lookup_insert_ne; [apply Ht, under_app|]. intros Heq%(f_equal length). rewrite length_app in Heq. cbn in Heq. lia.
    + intros w'. by apply HI.
    + intros [[]|e] w' _ [_ Hq]; [|done]. intros _. exists keyPEM. split; [done|]. by destruct (Hq tt).
  - assert (Hkeep : ∀ w', keeps (λ q, ¬ under t q) w2 w' → persisting above dir credential private w w').
    { intros w' Hk. split; [|left].
      - eapply keeps_trans; [exact Hu|]. eapply keeps_trans; [by apply Hins|]. by eapply keeps_weaken; [|exact Hk].
      - eapply keeps_trans; [exact Hd|]. eapply keeps_trans; [by apply Hins|]. by eapply keeps_weaken; [|exact Hk]. }
    assert (Hcall : ∀ d w' B (c' : call B), area d c' = Some [t] → keeps (λ q, ¬ under t q) w2 w' → keeps (λ q, ¬ under t q) w2 (perform d c' w').1).
    { intros d w' B c' Ha. apply (keeps_perform _ _ _ _ _ [t] Ha). intros a q ->%list_elem_of_singleton. done. }
    apply always_defer, always_attempt; [by apply Hkeep|]. intros d1 _. cbv zeta. pose proof (Hcall d1 w2 _ (Chmod t 448) eq_refl (keeps_refl _ _)) as H1.
    destruct (perform d1 (Chmod t 448) w2).2; (split; [by apply Hkeep|]); (split; [by apply Hkeep|]); intros d2 _;
      (split; [apply Hkeep; by apply (Hcall d2 _ _ (RemoveAll t))|done]).
Qed.

Lemma persist_spec above c credential private (w : world) :
  (∀ r, c ≠ RandomName ".yuanci-runner-state-" "" "" r) →
  always (persisting above (above ++ [c]) credential private w) (persistCredentials above (above ++ [c]) credential private)
    (λ r w', r = Ok tt → w_files w !! (above ++ [c]) = None ∧ stored (above ++ [c]) credential private (w_files w')) w.
Proof.
  intros Hc. set (dir := above ++ [c]).
  assert (HI : ∀ w', keeps (untouched above dir w) w w' → keeps (under dir) w w' → persisting above dir credential private w w') by (split; auto).
  apply always_attempt; [by apply HI|]. intros d1 _. pose proof (MkdirAll_keeps d1 above 448 w) as Hk1. cbv zeta.
  set (w1 := (perform d1 (MkdirAll above 448) w).1) in *.
  assert (Hu1 : keeps (untouched above dir w) w w1) by (eapply keeps_weaken; [|exact Hk1]; intros q [_ [?|[? _]]]; [by left|by right]).
  assert (Hd1 : keeps (under dir) w w1) by (eapply keeps_weaken; [|exact Hk1]; intros q ?%not_above; by right).
  destruct (perform d1 (MkdirAll above 448) w).2; [|split; [by apply HI|done]]. clearbody w1.
  apply always_do; [by apply HI|]. intros d2 _. cbn. destruct (dr_ok d2); [|apply always_failed; [by apply HI|done]].
  destruct (w_files w1 !! dir) eqn:Hn; [apply always_failed; [by apply HI|done]|]. rewrite (proj2 Hd1) in Hn by done.
  apply always_attempt; [by apply HI|]. intros d3 _. cbn. destruct (dr_ok d3); [|split; [by apply HI|done]].
  destruct (create_cases (state_temp above (dr_random d3)) (Dir 448) (w_files w1)) as [[-> Ht]| ->]; [|cbn; split; [by apply HI|done]].
  eapply always_mono; [by apply persist_staged|done|]. intros r w' _ Hr ->. split; [done|by apply Hr].
Qed.

(** ** Reading *)

Lemma validate_spec p (w : world) :
  always (eq w) (validateStateDirectory p : io unit)
    (λ r w', (r = Err (OsError ErrNotExist) → w_files w !! p = None) ∧ (r = Ok tt → is_Some (w_files w !! p))) w.
Proof.
  apply always_do; [done|]. intros d _. cbn. destruct (dr_ok d); [|done]. destruct (w_files w !! p) as [n|]; cbn; [|done].
  destruct (_ || _); [done|]. split; [done|]. by split.
Qed.

Lemma read_spec p limit private (w : world) :
  always (eq w) (readBoundedRegular p limit private : io bytes)
    (λ r w', (∀ body, r = Ok body → ∃ perm, w_files w !! p = Some (File perm body)) ∧ (r = Err (OsError ErrNotExist) → w_files w !! p = None)) w.
Proof.
  apply always_do; [done|]. intros d _. cbn. destruct (dr_ok d); [|done]. destruct (w_files w !! p) as [n|] eqn:Hp; cbn; [|done].
  destruct (_ || _); [done|]. apply always_do; [done|]. intros d2 _. cbn. rewrite Hp. split; [done|].
  destruct n as [perm body|perm|symlink]; [|done..]. destruct (dr_ok d2); [|done]. split; [|done]. intros ? [= <-]. by eexists.
Qed.

Lemma load_pending_spec p (w : world) :
  always (eq w) (load_pending p : io (Key * bytes))
    (λ r w', ∀ k csr, r = Ok (k, csr) → ∃ perm, w_files w !! (p ++ [pendingCSRFile]) = Some (File perm csr)) w.
Proof.
  apply always_bind. eapply always_mono; [apply read_spec|done|]. intros rk w' <- _.
  apply always_bind. eapply always_mono; [apply read_spec|done|]. intros rc w' <- [Hc _].
  destruct rk as [keyPEM|]; [|by split]. destruct rc as [csrPEM|]; [|by split].
  destruct (parseEd25519PrivateKey keyPEM); [|by split]. destruct (ValidateRunnerCSR _ _ _ _); [|by split].
  case_bool_decide; [|by split]. split; [done|]. intros k csr [= _ <-]. by apply Hc.
Qed.

(** ** The pending rotation *)

Definition pending_files (keyPEM csrPEM : bytes) : list (string * bytes * Z) :=
  [("runner-key.pem", keyPEM, 384); ("runner.csr.pem", csrPEM, 420)].

Definition new_pending (dir : path) (fs : files) : Prop :=
  ∃ private keyPEM csrPEM, private_pem private = Some keyPEM ∧ published (pending dir) (pending_files keyPEM csrPEM) fs.

(** The rest stays, and a pending rotation is as it was or, when there was none, complete. *)
Definition preparing (dir : path) (w w' : world) : Prop :=
  keeps (λ q, ¬ under (pending dir) q ∧ ∀ r, ¬ under (pending_temp dir r) q) w w' ∧
  (keeps (under (pending dir)) w w' ∨ w_files w !! pending dir = None ∧ new_pending dir (w_files w')).

Definition requested (dir : path) (csr : bytes) (fs : files) : Prop :=
  is_Some (fs !! pending dir) ∧ ∃ perm, fs !! (pending dir ++ [pendingCSRFile]) = Some (File perm csr).

Lemma preparing_refl dir w : preparing dir w w.
Proof. split; [done|by left]. Qed.

Lemma create_pending_spec dir (w : world) : w_files w !! pending dir = None →
  always (preparing dir w) (create_pending dir (pending dir)) (λ r w', ∀ k csr, r = Ok (k, csr) → requested dir csr (w_files w')) w.
Proof.
  intros Hnone. apply always_do; [apply preparing_refl|]. intros d1 _. cbn. destruct (if dr_ok d1 then dr_key d1 else None) as [private|];
    [|by apply always_failed; [apply preparing_refl|]].
  destruct (CreateRequest private) as [csrDER|]; [|by apply always_failed; [apply preparing_refl|]].
  set (csrPEM := pem_EncodeToMemory _ csrDER).
  destruct (private_pem private) as [keyPEM|] eqn:Hkey; [|by apply always_failed; [apply preparing_refl|]].
  apply always_attempt; [apply preparing_refl|]. intros d2 _. cbn. destruct (dr_ok d2); [|split; [apply preparing_refl|done]].
  set (t := pending_temp dir (dr_random d2)).
  destruct (create_cases t (Dir 448) (w_files w)) as [[-> Ht]| ->]; [|cbn; split; [split; [done|by left]|done]]. cbn.
  rewrite subtree_empty in Ht. set (w1 := mkWorld _ _).
  assert (Hap : apart t (pending dir)) by (by apply apart_names).
  assert (Hk : keeps (λ q, ¬ under t q) w w1) by (split; [done|]; intros q; apply insert_frame).
  assert (HI : ∀ w', staging t (pending dir) (pending_files keyPEM csrPEM) w1 w' → preparing dir w w').
  { intros w' [Hs Hp]. split.
    - eapply keeps_trans; (eapply keeps_weaken; [|eassumption]); intros q [Hq Hq']; [apply Hq'|split; [apply Hq'|done]].
    - destruct Hp as [Hp|Hp]; [left|right; split; [done|]; by exists private, keyPEM, csrPEM]. eapply keeps_trans; [|exact Hp].
      eapply keeps_weaken; [|exact Hk]. intros q. apply apart_under. by apply apart_sym. }
  eapply always_mono; [apply (stage_spec t (pending dir) (pending_files keyPEM csrPEM) _ _ (private, csrPEM)); [done|..]|by intros w'; apply HI|].
  - cbn. repeat (apply NoDup_cons; split; [set_solver|]). by apply NoDup_nil.
  - eexists. apply lookup_insert_eq.
  - intros c. cbn. rewrite lookup_insert_ne; [apply Ht, under_app|]. intros Heq%(f_equal length). rewrite length_app in Heq. cbn in Heq. lia.
  - intros r w' _ [_ Hq] k csr Hr. destruct (Hq _ Hr) as [[= -> ->] [Hd Hf _]]. split; [by eexists|].
    apply Forall_cons in Hf as [_ [Hf _]%Forall_cons]. by eexists.
Qed.

Lemma prepare_spec dir (w : world) :
  always (preparing dir w) (loadOrCreatePendingRotation dir)
    (λ r w', ∀ k csr, r = Ok (k, csr) → requested dir csr (w_files w') ∧ (is_Some (w_files w !! pending dir) → w' = w)) w.
Proof.
  apply always_bind. eapply always_mono; [apply validate_spec|intros w' <-; apply preparing_refl|]. intros r w' <- _.
  destruct r as [[]|]; [|by apply always_failed; [apply preparing_refl|]].
  apply always_do; [apply preparing_refl|]. intros d _. cbn. destruct (dr_ok d); [|by apply always_failed; [apply preparing_refl|]].
  destruct (w_files w !! pending dir) as [n|] eqn:Hp.
  - destruct (_ || _); [by apply always_failed; [apply preparing_refl|]|].
    eapply always_mono; [apply load_pending_spec|intros w' <-; apply preparing_refl|]. intros r w' <- Hr k csr Hk. split; [|done].
    split; [by rewrite Hp|by eapply Hr].
  - eapply always_mono; [by apply create_pending_spec|done|]. intros r w' _ Hr k csr Hk. split; [by eapply Hr|by intros []].
Qed.

(** ** The exchange of the credentials *)


(** Between the two renames: there is no state directory, and its contents are elsewhere. *)
Definition in_backup (s : stateDir) (fs fs' : files) : Prop :=
  fs' !! directory_of s = None ∧ ∃ r, ∀ rest, fs' !! (backup_of s r ++ rest) = fs !! (directory_of s ++ rest).

Definition replacing (s : stateDir) (credential : RunnerCredentials Key Pool) (private : Key) (w w' : world) : Prop :=
  w_sent w' = w_sent w ∧
  (keeps (under (directory_of s)) w w' ∨ in_backup s (w_files w) (w_files w') ∨ stored (directory_of s) credential private (w_files w')).

Lemma stored_keeps dir credential private (w w' : world) :
  keeps (under dir) w w' → stored dir credential private (w_files w) → stored dir credential private (w_files w').
Proof. intros Hk (keyPEM & Hkey & Hp). exists keyPEM. split; [done|]. by eapply published_keeps. Qed.

Lemma stored_move a b credential private fs : apart a b → stored a credential private fs → stored b credential private (move a b fs).
Proof. intros Hap (keyPEM & Hkey & [Hd Hf Ho]). exists keyPEM. split; [done|]. by eapply move_published. Qed.

(** Calls that touch nothing of the state directory and of its backups. *)
Lemma replacing_keeps s credential private (w w' w'' : world) :
  replacing s credential private w w' → keeps (λ q, under (directory_of s) q ∨ ∃ r, under (backup_of s r) q) w' w'' →
  replacing s credential private w w''.
Proof.
  intros [Hs Hr] Hk. assert (Hd : keeps (under (directory_of s)) w' w'') by (eapply keeps_weaken; [|exact Hk]; intros q ?; by left).
  split; [by rewrite (proj1 Hk)|]. destruct Hr as [Hr|[[Hn [r Hr]]|Hr]].
  - left. by eapply keeps_trans.
  - right. left. split; [rewrite (proj2 Hk); [done|by left]|]. exists r. intros rest. rewrite (proj2 Hk); [done|]. right. exists r. apply under_app.
  - right. right. by eapply stored_keeps.
Qed.

Lemma persisting_directory s r credential private (w w' : world) :
  persisting (sd_parent s) (staging_of s r) credential private w w' → keeps (under (directory_of s)) w w'.
Proof.
  intros [Hk _]. eapply keeps_weaken; [|exact Hk]. intros q Hq. split; [|right; split; [by eapply not_above|intros r']];
    (eapply apart_under; [|exact Hq]; by apply apart_names).
Qed.

Lemma rename_backup s r (w : world) (d : draw) :
  let p := perform d (Rename (directory_of s) (backup_of s r)) w in
  (∃ e, p.2 = Err e ∧ keeps (λ _, True) w p.1) ∨
  p.2 = Ok tt ∧ w_sent p.1 = w_sent w ∧ w_files p.1 !! directory_of s = None ∧
  (∀ rest, w_files p.1 !! (backup_of s r ++ rest) = w_files w !! (directory_of s ++ rest)) ∧
  ∀ r', keeps (under (staging_of s r')) w p.1.
Proof.
  assert (Hap : apart (directory_of s) (backup_of s r)) by (by apply apart_names).
  cbn. destruct (dr_ok d); [|left; by eexists].
  destruct (rename_cases (directory_of s) (backup_of s r) (w_files w)) as [(-> & _ & _)|[e ->]]; cbn; [right|left; by eexists].
  split; [done|]. split; [done|]. split; [|split].
  - rewrite move_lookup by done. rewrite decide_False by apply Hap. by rewrite decide_True.
  - intros rest. by rewrite move_lookup, decide_True, drop_app_length by (done || apply under_app).
  - intros r'. split; [done|]. intros q Hq. cbn.
    rewrite move_lookup, !decide_False; [done|..|done]; (eapply apart_under; [|exact Hq]; by apply apart_names).
Qed.

Lemma replacing_after s credential private (w w1 w2 : world) :
  keeps (under (directory_of s)) w w1 → replacing s credential private w1 w2 → replacing s credential private w w2.
Proof.
  intros Hk [Hs Hr]. split; [by rewrite Hs, (proj1 Hk)|]. destruct Hr as [Hr|[[Hn [r Hr]]|Hr]]; [left; by eapply keeps_trans|right; left|auto].
  split; [done|]. exists r. intros rest. rewrite Hr. apply Hk, under_app.
Qed.

Lemma replacing_same s credential private (w w' w'' : world) :
  w_files w'' = w_files w' → w_sent w'' = w_sent w' → replacing s credential private w w' → replacing s credential private w w''.
Proof. intros Hf Hs H. eapply replacing_keeps; [exact H|]. split; [done|]. by rewrite Hf. Qed.

(** The second half of the exchange: the old directory is in the backup. *)
Lemma activate_spec s r r' credential private (w w3 : world) :
  w_sent w3 = w_sent w → w_files w3 !! directory_of s = None →
  (∀ rest, w_files w3 !! (backup_of s r ++ rest) = w_files w !! (directory_of s ++ rest)) →
  stored (staging_of s r') credential private (w_files w3) →
  always (replacing s credential private w)
    (Do (Rename (staging_of s r') (directory_of s)) (λ x, match x with
     | Err _ => Do (Rename (backup_of s r) (directory_of s)) (λ _, failed "cannot activate rotated Runner credentials")
     | Ok _ => attempt (RemoveAll (backup_of s r)) (Message "rotated Runner credentials activated but old state could not be removed") ok
     end) : io unit)
    (λ x w', x = Ok tt → stored (directory_of s) credential private (w_files w')) w3.
Proof.
  intros Hsent Hnone Hback Hst.
  assert (H3 : replacing s credential private w w3) by (split; [done|]; right; left; split; [done|by exists r]).
  assert (Hap : apart (staging_of s r') (directory_of s)) by (by apply apart_names).
  assert (Hap' : apart (backup_of s r) (directory_of s)) by (by apply apart_names).
  apply always_do; [done|]. intros d1 _.
  assert (Hback' : ∀ w4, w_files w4 = w_files w3 → w_sent w4 = w_sent w3 →
    always (replacing s credential private w) (Do (Rename (backup_of s r) (directory_of s)) (λ _, failed "cannot activate rotated Runner credentials") : io unit)
      (λ x w', x = Ok tt → stored (directory_of s) credential private (w_files w')) w4).
  { intros w4 Hf Hs. pose proof (replacing_same _ _ _ _ _ _ Hf Hs H3) as H4.
    apply always_do; [done|]. intros d2 _. apply always_failed; [|done]. cbn. destruct (dr_ok d2); [|done].
    destruct (rename_cases (backup_of s r) (directory_of s) (w_files w4)) as [(-> & _ & _)|[e ->]]; cbn; [|by eapply replacing_same; [..|exact H3]].
    split; [by rewrite <-Hsent, <-Hs|]. left. split; [by rewrite <-Hsent, <-Hs|]. intros q [rest ->]. cbn.
    rewrite move_lookup, decide_True, drop_app_length by (done || apply under_app). by rewrite Hf, Hback. }
  cbn. destruct (dr_ok d1); [|by apply Hback'].
  destruct (rename_cases (staging_of s r') (directory_of s) (w_files w3)) as [(-> & _ & _)|[e ->]]; cbn; [|by apply Hback'].
  set (w4 := mkWorld _ _). assert (Hb : stored (directory_of s) credential private (w_files w4)) by (by apply stored_move with (a := staging_of s r')).
  assert (H4 : replacing s credential private w w4) by (split; [done|auto]).
  apply always_attempt; [done|]. intros d2 _. cbv zeta.
  assert (Hk : keeps (under (directory_of s)) w4 (perform d2 (RemoveAll (backup_of s r)) w4).1).
  { eapply keeps_weaken; [|exact (perform_keeps d2 (RemoveAll (backup_of s r)) w4 [backup_of s r] eq_refl)].
    intros q Hq a ->%list_elem_of_singleton. eapply apart_under; [by apply apart_sym|done]. }
  apply (stored_keeps _ _ _ _ _ Hk) in Hb.
  assert (H5 : replacing s credential private w (perform d2 (RemoveAll (backup_of s r)) w4).1) by (split; [rewrite (proj1 Hk); apply H4|auto]).
  destruct (perform d2 _ w4).2; by split.
Qed.

Lemma replace_spec s credential private (w : world) :
  always (replacing s credential private w) (replaceCredentials s credential private : io unit)
    (λ r w', r = Ok tt → stored (directory_of s) credential private (w_files w')) w.
Proof.
  assert (Hrefl : ∀ w', keeps (under (directory_of s)) w w' → replacing s credential private w w') by (intros w' Hk; split; [apply Hk|auto]).
  apply always_do; [by apply Hrefl|]. intros d1 _. cbn. set (r1 := dr_random d1).
  apply always_try. eapply always_mono; [by apply persist_spec|by intros w' Hp%persisting_directory; apply Hrefl|].
  intros [[]|e] w2 Hp%persisting_directory Hst; [|split; [by apply Hrefl|done]]. destruct (Hst eq_refl) as [_ Hst2]; clear Hst; rename Hst2 into Hst.
  assert (Hrm : ∀ (d : draw) (w' : world), keeps (λ q, under (directory_of s) q ∨ ∃ r, under (backup_of s r) q) w' (perform d (RemoveAll (staging_of s r1)) w').1).
  { intros d w'. eapply keeps_weaken; [|exact (perform_keeps d (RemoveAll (staging_of s r1)) w' [staging_of s r1] eq_refl)].
    intros q Hq a ->%list_elem_of_singleton. destruct Hq as [Hq|[r Hq]]; (eapply apart_under; [|exact Hq]); by apply apart_names. }
  apply always_defer.
  eapply (always_mono writes_hold (replacing s credential private w) _ _ (λ x w', x = Ok tt → stored (directory_of s) credential private (w_files w'))); [|done|].
  2: { intros x w' Hw' Hx. split; [done|]. intros d _. split; [by eapply replacing_keeps|].
       intros ->. eapply stored_keeps; [|by apply Hx]. eapply keeps_weaken; [|apply Hrm]. intros q ?; by left. }
  apply always_do; [by apply Hrefl|]. intros d2 _. cbn [perform snd fst]. set (r2 := dr_random d2).
  apply always_attempt; [by apply Hrefl|]. intros d3 _. cbv zeta.
  destruct (rename_backup s r2 w2 d3) as [(e & -> & Hk)|(-> & Hs & Hn & Hb & Hk)].
  - split; [|done]. apply Hrefl. eapply keeps_trans; [exact Hp|]. by eapply keeps_weaken; [|exact Hk].
  - eapply always_mono; [eapply (activate_spec s r2 r1 credential private w2); [exact Hs|exact Hn|exact Hb|by eapply stored_keeps]|intros w' Hw'; by eapply replacing_after|intros x w' _ Hx; exact Hx].
Qed.
End Files.
