(* ===== verification/RunnerFilesProps.v ===== *)
(** The credentials of a runner on its disk: enrolment publishes them at once or not at all and the
    next start finds them; a rotation repeats one request until its answer is in place and keeps an
    identity, apart from the moment between the two renames; and a write that fails is not
    noticed. *)

From S2P Require Import Prelude GoStd RunnerAuth PgScenario RunnerIdentityProps WorkProtocol WorkClient FileSystem RunnerFiles RunnerFilesFacts.

#[local] Arguments FileSystem.always : simpl never.
#[local] Arguments attempt : simpl never.
#[local] Arguments try : simpl never.
#[local] Arguments failed : simpl never.
#[local] Arguments CertificateIdentity : simpl never.

(** What the standard library documents of its encoders and decoders. *)
Class PkiLaws {Key Pool : Type} (L : Pki Key Pool) := {
  pem_round : ∀ ty b, pem_Decode (pem_EncodeToMemory ty b) = (Some (mkPemBlock ty ∅ b), []);
  pkcs8_round : ∀ key der, MarshalPKCS8 key = Some der → ParsePKCS8 der = Some key;
  keypair_round : ∀ chain key ders, X509KeyPair chain key = Some ders →
    X509KeyPair (mjoin (pem_EncodeToMemory "CERTIFICATE" <$> ders)) key = Some ders;
  uuid_round : ∀ id, uuid_Parse (uuid_String id) = Some id;
  json_round : ∀ id der leaf, ParseCertificate der = Some leaf →
    json_Decode (json_Marshal (uuid_String id) (ce_NotAfter leaf)) = Some (uuid_String id, ce_NotAfter leaf);
}.

Section Enrolment.
Context {Key Pool : Type} `{L : Pki Key Pool}.
Abbreviation always := (FileSystem.always writes_hold).
Abbreviation io A := (@prog Key RunnerRequest RunnerReply (result CredentialError A)).
Abbreviation world := (@world RunnerRequest).
Abbreviation draw := (@draw Key RunnerReply).

(** Checked at some time as the credentials of an answer. *)
Definition checked_once (c : RunnerCredentials Key Pool) : Prop :=
  ∃ raw chain root now now' now'', check_chain raw chain root (cd_Private c) now now' now'' = Ok c.

Definition enrolled (s : stateDir) (fs : files) : Prop := ∃ c, checked_once c ∧ stored (directory_of s) c (cd_Private c) fs.

Definition registration (config : EnrollmentConfig) (capabilities : RunnerCapabilities) (token : string) (csr : bytes) : RunnerRequest :=
  RegisterRequest token (ec_Name config) capabilities csr runnerProtocolVersion.

(** What an enrolment has done so far. *)
Record enrolling (config : EnrollmentConfig) (s : stateDir) (capabilities : RunnerCapabilities) (w w' : world) : Prop := {
  en_state : (∀ q, under (directory_of s) q → w_files w' !! q = w_files w !! q) ∨ w_files w !! directory_of s = None ∧ enrolled s (w_files w');
  en_token : ∀ file, ec_TokenFile config = Some file → w_files w' !! file = w_files w !! file ∨ enrolled s (w_files w') ∨ w_files w !! file = None;
  en_others : ∀ q, is_Some (w_files w !! q) → ¬ under (directory_of s) q → (∀ file, ec_TokenFile config = Some file → ¬ under file q) →
    w_files w' !! q = w_files w !! q;
  en_sent : w_sent w' = w_sent w ∨ ∃ token csr, w_sent w' = w_sent w ++ [registration config capabilities token csr];
}.

(** How an enrolment ends. *)
Definition enrolment_result (config : EnrollmentConfig) (s : stateDir) (capabilities : RunnerCapabilities) (w : world)
    (r : result CredentialError (RunnerCredentials Key Pool)) (w' : world) : Prop :=
  ∀ c, r = Ok c → w_files w !! directory_of s = None ∧ checked_once c ∧ stored (directory_of s) c (cd_Private c) (w_files w') ∧
    ∃ token csr, w_sent w' = w_sent w ++ [registration config capabilities token csr].

(** What was checked of a leaf at the three readings of the clock. *)
Definition leaf_valid (runnerID : uuid) (leaf : Certificate) (intermediates : list Certificate) (roots : Pool) (now now' now'' : time) : bool :=
  match CertificateIdentity uuid_String uuid_Parse (Some leaf) with Ok (identityID, _) => identityID =? runnerID | Err _ => false end
  && (ce_NotBefore leaf <=? now) && (now' <? ce_NotAfter leaf) && Verify leaf roots intermediates now''.

Record checked raw chain root private now now' now'' (c : RunnerCredentials Key Pool) : Prop := {
  ch_id : uuid_Parse raw = Some (cd_RunnerID c) ∧ cd_RunnerID c ≠ uuid_Nil;
  ch_key : cd_Private c = private;
  ch_pair : ∃ keyPEM, private_pem private = Some keyPEM ∧ X509KeyPair chain keyPEM = Some (cd_Certificate c);
  ch_length : (2 ≤ length (cd_Certificate c))%nat;
  ch_leaf : (head (cd_Certificate c) ≫= ParseCertificate) = Some (cd_Leaf c);
  ch_valid : ∃ intermediates, mapM ParseCertificate (tail (cd_Certificate c)) = Some intermediates ∧
    leaf_valid (cd_RunnerID c) (cd_Leaf c) intermediates (cd_RootPool c) now now' now'' = true;
  ch_root : AppendCertsFromPEM root = Some (cd_RootPool c) ∧ cd_RootPEM c = root;
  ch_end : cd_NotAfter c = ce_NotAfter (cd_Leaf c);
}.

Lemma check_chain_Ok raw chain root private now now' now'' (c : RunnerCredentials Key Pool) :
  check_chain raw chain root private now now' now'' = Ok c ↔ checked raw chain root private now now' now'' c.
Proof.
  unfold check_chain. split.
  - intros H. destruct (uuid_Parse raw) as [id|] eqn:Hid; [|done]. case_bool_decide; [done|].
    destruct (private_pem private) as [keyPEM|] eqn:Hkey; [|done]. destruct (X509KeyPair chain keyPEM) as [[|der [|der' ders]]|] eqn:Hpair; try done.
    destruct (ParseCertificate der) as [leaf|] eqn:Hleaf; [|done]. destruct (_ || _ || _) eqn:Hv; [done|].
    destruct (AppendCertsFromPEM root) as [roots|] eqn:Hroot; [|done]. destruct (mapM _ _) as [intermediates|] eqn:Hi; [|done].
    destruct (Verify _ _ _ _) eqn:Hver; [|done]. injection H as <-. split; cbn; try first [done|by exists keyPEM|lia].
    exists intermediates. split; [done|]. unfold leaf_valid. rewrite Hver, andb_true_r.
    apply orb_false_iff in Hv as [[Hv ?]%orb_false_iff ?]. destruct (CertificateIdentity _ _ _) as [[]|]; [|done].
    case_bool_decide; [|done]. cbn. lia.
  - intros [[Hid Hnil] Hk (keyPEM & Hkey & Hpair) Hlen Hleaf (intermediates & Hi & Hv) [Hroot Hrp] Hend].
    destruct c as [id ders leaf key roots rootPEM until]; cbn in *. subst. destruct ders as [|der [|der' ders]]; cbn in *; [lia..|].
    rewrite Hid, bool_decide_false by done. rewrite Hkey, Hpair, Hleaf. unfold leaf_valid in Hv.
    apply andb_true_iff in Hv as [[[Hv ?]%andb_true_iff ?]%andb_true_iff Hver].
    destruct (CertificateIdentity _ _ _) as [[]|]; [|done]. apply bool_decide_eq_true in Hv as ->. rewrite bool_decide_true by done. cbn.
    replace (now <? ce_NotBefore leaf) with false by lia. replace (now' <? ce_NotAfter leaf) with true by lia. cbn.
    by rewrite Hroot, Hi, Hver.
Qed.

Lemma credentialsFromPEM_spec raw chain root private (w : world) :
  always (eq w) (credentialsFromPEM raw chain root private)
    (λ r w', ∀ c, r = Ok c → cd_Private c = private ∧ checked_once c ∧ uuid_Parse raw = Some (cd_RunnerID c)) w.
Proof.
  apply always_do; [done|]. intros d1 _. apply always_do; [done|]. intros d2 _. apply always_do; [done|]. intros d3 _. cbn.
  split; [done|]. intros c Hc. pose proof (proj1 (check_chain_Ok _ _ _ _ _ _ _ _) Hc) as [[Hid _] Hp _ _ _ _ _ _].
  split; [done|]. split; [|done]. repeat eexists. rewrite Hp. exact Hc.
Qed.

Lemma enrollmentToken_spec config (w : world) : always (eq w) (enrollmentToken config : io string) (λ _ _, True) w.
Proof.
  unfold enrollmentToken. destruct (ec_TokenFile config) as [file|]; [|by case_bool_decide; (split; [done|])].
  case_bool_decide; cbn [negb]; [|by split]. apply always_bind. eapply always_mono; [apply read_spec|done|]. by intros [value|e] w' <- _; split.
Qed.

Lemma LoadCredentials_spec s (w : world) :
  always (eq w) (LoadCredentials s) (λ r w', ∀ c, r = Ok c → is_Some (w_files w !! directory_of s)) w.
Proof.
  assert (Hread : ∀ p limit private (f : bytes → io (RunnerCredentials Key Pool)),
    (∀ body, always (eq w) (f body) (λ _ _, True) w) → always (eq w) (try (readBoundedRegular p limit private) f) (λ _ _, True) w).
  { intros p limit private f Hf. apply always_try. eapply always_mono; [apply read_spec|done|]. by intros [body|e] w' <- _; [apply Hf|]. }
  apply always_try. eapply always_mono; [apply validate_spec|done|]. intros [[]|e] w' <- [_ Hv]; [|by split].
  eapply always_mono; [|done|by intros r w' _ _ c _; apply Hv]. do 4 (apply Hread; intros ?).
  destruct (json_Decode _) as [[runnerID notAfter]|]; [|by split]. destruct (parseEd25519PrivateKey _) as [private|e]; [|by split].
  apply always_bind. eapply always_mono; [apply credentialsFromPEM_spec|done|]. intros [c|e] w' <- _; [|by split]. by case_bool_decide.
Qed.

(** ** Enrolment *)

Section Enrol.
Context (config : EnrollmentConfig) (root : path) (s : stateDir) (capabilities : RunnerCapabilities).
Context (Htoken : ∀ file, ec_TokenFile config = Some file → apart file (directory_of s)).

Lemma enrolling_refl (w : world) : enrolling config s capabilities w w.
Proof. split; auto. Qed.

(** Storing the answer, in front of the token file. *)
Lemma enrolling_persist token csr c (w w' : world) : checked_once c →
  let w1 := mkWorld (w_files w) (w_sent w ++ [registration config capabilities token csr]) in
  persisting (sd_parent s) (directory_of s) c (cd_Private c) w1 w' → enrolling config s capabilities w w'.
Proof.
  intros Hv w1 [[Hsent Hk] Hd]. assert (Hst : keeps (under (directory_of s)) w1 w' ∨ w_files w !! directory_of s = None ∧ enrolled s (w_files w')).
  { destruct Hd as [Hd|[Hn Hd]]; [by left|right]. split; [done|by exists c]. }
  split.
  - destruct Hst as [[_ Hst]|Hst]; [by left|by right].
  - intros file Hf. destruct (w_files w !! file) as [n|] eqn:Hn; [|auto]. left. rewrite <-Hn. apply Hk. split; [apply (Htoken file Hf)|].
    left. cbn. by rewrite Hn.
  - intros q Hq Hne _. apply Hk. by split; [|left].
  - right. by exists token, csr.
Qed.

(** The removal of the token file. *)
Lemma enrolling_remove file (d : draw) (w w' : world) : ec_TokenFile config = Some file → enrolled s (w_files w') →
  enrolling config s capabilities w w' → enrolling config s capabilities w (perform d (Remove file) w').1.
Proof.
  intros Hf (c & Hv & Hst) [Hstate Htok Hothers Hsent].
  assert (Hk : keeps (λ q, ¬ under file q) w' (perform d (Remove file) w').1).
  { eapply keeps_weaken; [|exact (perform_keeps d (Remove file) w' [file] eq_refl)]. by intros q Hq a ->%list_elem_of_singleton. }
  assert (Hdir : keeps (under (directory_of s)) w' (perform d (Remove file) w').1).
  { eapply keeps_weaken; [|exact Hk]. intros q. apply apart_under, apart_sym. by apply Htoken. }
  assert (He : enrolled s (w_files (perform d (Remove file) w').1)) by (exists c; split; [done|]; by eapply stored_keeps).
  split; [|by auto|..].
  - destruct Hstate as [Hstate|[? _]]; [left|by right]. intros q Hq. rewrite (proj2 Hdir) by done. by apply Hstate.
  - intros q Hq Hne Hnf. rewrite (proj2 Hk) by by apply Hnf. by apply Hothers.
  - by rewrite (proj1 Hk).
Qed.

(** From the answer on. *)
Lemma install_spec token csr c (w : world) : checked_once c →
  let w1 := mkWorld (w_files w) (w_sent w ++ [registration config capabilities token csr]) in
  always (enrolling config s capabilities w)
    (try (persistCredentials (sd_parent s) (directory_of s) c (cd_Private c)) (λ _,
       match ec_TokenFile config with
       | None => ok c
       | Some file =>
         Do (Remove file) (λ r, match r with
         | Err ErrFile => failed "Runner enrolled but registration token file could not be removed"
         | _ => ok c
         end)
       end) : io (RunnerCredentials Key Pool))
    (enrolment_result config s capabilities w) w1.
Proof.
  intros Hv w1. apply always_try. eapply always_mono; [by apply persist_spec|intros w'; by apply enrolling_persist|].
  intros [[]|e] w2 Hp Hr; [|split; [by eapply enrolling_persist|done]]. destruct (Hr eq_refl) as [Hn Hst]. clear Hr.
  assert (He := enrolling_persist _ _ _ _ _ Hv Hp). assert (Hsent : w_sent w2 = w_sent w1) by apply Hp.
  assert (Hdone : ∀ w', w_sent w' = w_sent w1 → stored (directory_of s) c (cd_Private c) (w_files w') → enrolment_result config s capabilities w (Ok c) w').
  { intros w' Hs Hst' c' [= <-]. do 3 (split; [done|]). exists token, csr. by rewrite Hs. }
  case_eq (ec_TokenFile config); [intros file Hf|split; [done|by apply Hdone]].
  apply always_do; [done|]. intros d _.
  pose proof (enrolling_remove file d w w2 Hf (ex_intro _ c (conj Hv Hst)) He) as Hrm.
  assert (Hk : keeps (under (directory_of s)) w2 (perform d (Remove file) w2).1).
  { eapply keeps_weaken; [|exact (perform_keeps d (Remove file) w2 [file] eq_refl)]. intros q Hq a ->%list_elem_of_singleton.
    eapply apart_under; [apply apart_sym, Htoken, Hf|done]. }
  apply (stored_keeps _ _ _ _ _ Hk) in Hst. destruct Hk as [Hk _]. rewrite Hsent in Hk.
  destruct (perform d (Remove file) w2).2 as [|[]]; split; try done; by apply Hdone.
Qed.

Lemma enroll_outcome (w : world) :
  always (enrolling config s capabilities w) (enroll config root s capabilities : io (RunnerCredentials Key Pool)) (enrolment_result config s capabilities w) w.
Proof.
  assert (Hr := enrolling_refl). assert (Hfail : ∀ text, always (enrolling config s capabilities w) (failed text : io (RunnerCredentials Key Pool))
    (enrolment_result config s capabilities w) w) by (intros; by split).
  apply always_try. eapply always_mono; [apply enrollmentToken_spec|by intros w' <-|]. intros [token|e] w' <- _; [|by split].
  apply always_bind. eapply always_mono; [apply read_spec|by intros w' <-|]. intros [rootPEM|e] w' <- _; [|apply Hfail].
  destruct (AppendCertsFromPEM rootPEM); [|apply Hfail].
  apply always_do; [done|]. intros d1 _. cbn [perform snd fst]. destruct (if dr_ok d1 then dr_key d1 else None) as [private|]; [|apply Hfail].
  destruct (CreateRequest private) as [csrDER|]; [|apply Hfail]. set (csr := pem_EncodeToMemory _ csrDER).
  apply always_do; [done|]. intros d2 _. cbn [perform snd fst]. destruct (dr_ok d2); cbn [negb]; [|apply Hfail].
  apply always_do; [done|]. intros d3 _. cbn [perform snd fst]. fold (registration config capabilities token csr).
  set (w1 := mkWorld _ _). assert (H1 : enrolling config s capabilities w w1) by (split; auto; right; by exists token, csr).
  destruct (if dr_ok d3 then dr_reply d3 else None) as [response|]; [|by split]. case_bool_decide; cbn [negb]; [|by split].
  apply always_try. eapply always_mono; [apply credentialsFromPEM_spec|by intros w' <-|]. intros [c|e] w' <- Hc; [|by split].
  destruct (Hc c eq_refl) as (<- & Hv & _). by apply install_spec.
Qed.

Lemma LoadOrEnroll_spec (w : world) : validateEnrollmentConfig config = Some (root, s, capabilities) →
  always (enrolling config s capabilities w) (LoadOrEnroll config : io (RunnerCredentials Key Pool))
    (λ r w', enrolment_result config s capabilities w r w' ∨ w' = w ∧ (w_files w !! directory_of s = None → ∀ c, r ≠ Ok c)) w.
Proof.
  unfold LoadOrEnroll. intros ->. apply always_bind.
  eapply always_mono; [apply LoadCredentials_spec|intros w' <-; apply enrolling_refl|].
  intros [c|e] w' <- Hc.
  - split; [apply enrolling_refl|]. right. split; [done|]. destruct (Hc c eq_refl) as [n ->]. done.
  - assert (He : always (enrolling config s capabilities w) (enroll config root s capabilities : io (RunnerCredentials Key Pool))
      (λ r w', enrolment_result config s capabilities w r w' ∨ w' = w ∧ (w_files w !! directory_of s = None → ∀ c, r ≠ Ok c)) w).
    { eapply always_mono; [apply enroll_outcome|done|]. intros; by left. }
    destruct e as [[]|text]; [exact He|..]; (split; [apply enrolling_refl|by right]).
Qed.
End Enrol.


(** ** Loading *)

(** No file is larger than it may be. *)
Definition fits (c : RunnerCredentials Key Pool) : Prop :=
  ∀ keyPEM, private_pem (cd_Private c) = Some keyPEM →
    Forall2 (λ x limit, 1 ≤ Z.of_nat (length x.1.2) ≤ limit * 2 ^ 10) (credential_files keyPEM c) [16; 64; 64; 4].

Definition valid_at (now : time) (c : RunnerCredentials Key Pool) : Prop :=
  ∃ intermediates, mapM ParseCertificate (tail (cd_Certificate c)) = Some intermediates ∧
    leaf_valid (cd_RunnerID c) (cd_Leaf c) intermediates (cd_RootPool c) now now now = true.

(** No call fails at that time. *)
Definition calm (now : time) (d : draw) : Prop := dr_ok d = true ∧ dr_now d = now.

Lemma read_runs p limit private perm body d1 d2 (w : world) :
  w_files w !! p = Some (File perm body) → 1 ≤ Z.of_nat (length body) ≤ limit → private = false ∨ Z.land perm others_bits = 0 →
  dr_ok d1 = true → dr_ok d2 = true → runs [d1; d2] (readBoundedRegular p limit private : io bytes) w w (Ok body).
Proof.
  intros Hp Hl Hperm H1 H2. apply runs_Do. cbn. rewrite H1, Hp. unfold open_to_others. cbn.
  replace (Z.of_nat (length body) <? 1) with false by lia. replace (limit <? Z.of_nat (length body)) with false by lia.
  assert (private && negb (Z.land perm others_bits =? 0) = false) as ->.
  { destruct Hperm as [-> | ->]; [done|by destruct private]. }
  apply runs_Do. cbn. rewrite Hp, H2. apply runs_Ret.
Qed.

Context (HL : PkiLaws L).

Lemma private_pem_parse (private : Key) keyPEM : private_pem private = Some keyPEM → parseEd25519PrivateKey keyPEM = Ok private.
Proof.
  unfold private_pem, parseEd25519PrivateKey. intros (der & Hder & ->)%fmap_Some. rewrite pem_round. cbn.
  by rewrite (pkcs8_round _ _ Hder).
Qed.

(** The stored chain is checked as the one it was taken from. *)
Lemma check_stored (c : RunnerCredentials Key Pool) now : checked_once c → valid_at now c →
  check_chain (uuid_String (cd_RunnerID c)) (mjoin (pem_EncodeToMemory "CERTIFICATE" <$> cd_Certificate c)) (cd_RootPEM c)
    (cd_Private c) now now now = Ok c.
Proof.
  intros (raw & chain & root & n & n' & n'' & Hc%check_chain_Ok) Hv. apply check_chain_Ok.
  destruct Hc as [[Hid Hnil] Hk (keyPEM & Hkey & Hpair) Hlen Hleaf _ [Hroot <-] Hend].
  split; try done. { split; [apply uuid_round|done]. }
  exists keyPEM. split; [done|]. by eapply keypair_round.
Qed.

Lemma json_stored (c : RunnerCredentials Key Pool) : checked_once c →
  json_Decode (json_Marshal (uuid_String (cd_RunnerID c)) (cd_NotAfter c)) = Some (uuid_String (cd_RunnerID c), cd_NotAfter c).
Proof.
  intros (raw & chain & root & n & n' & n'' & [_ _ _ _ (der & _ & Hleaf)%bind_Some _ _ ->]%check_chain_Ok). by eapply json_round.
Qed.

Lemma check_runs now raw chain root private d1 d2 d3 (w : world) : Forall (calm now) [d1; d2; d3] →
  runs [d1; d2; d3] (credentialsFromPEM raw chain root private) w w (check_chain raw chain root private now now now).
Proof.
  rewrite !Forall_cons. intros ([_ H1] & [_ H2] & [_ H3] & _). do 3 apply runs_Do. cbn. rewrite H1, H2, H3. apply runs_Ret.
Qed.

Lemma load_runs s c now ds (w : world) :
  checked_once c → fits c → valid_at now c → stored (directory_of s) c (cd_Private c) (w_files w) →
  Forall (calm now) ds → length ds = 12%nat → runs ds (LoadCredentials s) w w (Ok c).
Proof.
  intros Hv Hfit Hval (keyPEM & Hkey & [Hdir Hfiles _]) Hds Hlen.
  specialize (Hfit keyPEM Hkey). unfold credential_files in Hfit, Hfiles. rewrite !Forall_cons in Hfiles. rewrite !Forall2_cons in Hfit. cbn in Hfit.
  destruct Hfit as (L1 & L2 & L3 & L4 & _), Hfiles as (F1 & F2 & F3 & F4 & _).
  destruct ds as [|d0 [|d1 [|d2 [|d3 [|d4 [|d5 [|d6 [|d7 [|d8 [|d9 [|d10 [|d11 [|]]]]]]]]]]]]]; try discriminate Hlen.
  assert (Hnow : Forall (calm now) [d9; d10; d11]) by (rewrite !Forall_cons in *; tauto).
  rewrite !Forall_cons in Hds. unfold calm in Hds. destruct Hds as ([H _] & Hds). destruct_and! Hds.
  change (runs ([d0] ++ [d1; d2] ++ [d3; d4] ++ [d5; d6] ++ [d7; d8] ++ [d9; d10; d11] ++ []) (LoadCredentials s) w w (Ok c)).
  eapply runs_bind. { apply runs_Do. cbn. rewrite H, Hdir. apply runs_Ret. }
  eapply runs_bind; [eapply read_runs; [exact F1|exact L1|by right|done..]|].
  eapply runs_bind; [eapply read_runs; [exact F2|exact L2|by left|done..]|].
  eapply runs_bind; [eapply read_runs; [exact F3|exact L3|by left|done..]|].
  eapply runs_bind; [eapply read_runs; [exact F4|exact L4|by left|done..]|].
  cbn [snd fst]. rewrite (json_stored c Hv), (private_pem_parse _ _ Hkey).
  eapply runs_bind; [by apply (check_runs now)|]. rewrite (check_stored c now Hv Hval), bool_decide_true by done. apply runs_Ret.
Qed.


(** ** Rotation *)

(** The contents of the state directory, apart from pending rotations. *)
Definition identity_path (s : stateDir) (q : path) : Prop :=
  under (directory_of s) q ∧ ¬ under (pending (directory_of s)) q ∧ ∀ r, ¬ under (pending_temp (directory_of s) r) q.

Definition rotation (csr : bytes) : RunnerRequest := RotateCertificateRequest csr runnerProtocolVersion.

(** Credentials of the same runner under a new key are in place. *)
Definition activated (id : uuid) (s : stateDir) (fs : files) : Prop :=
  ∃ c, checked_once c ∧ cd_RunnerID c = id ∧ stored (directory_of s) c (cd_Private c) fs.

(** The request on the disk, unless it is of no more use. *)
Definition pending_or_gone (id : uuid) (s : stateDir) (csr : bytes) (fs : files) : Prop :=
  requested (directory_of s) csr fs ∨ fs !! directory_of s = None ∨ activated id s fs.

(** What a rotation has done so far. *)
Record rotating (id : uuid) (s : stateDir) (w w' : world) : Prop := {
  ro_state :
    (∀ q, identity_path s q → w_files w' !! q = w_files w !! q) ∨
    (w_files w' !! directory_of s = None ∧
      ∃ r, ∀ rest, identity_path s (directory_of s ++ rest) → w_files w' !! (backup_of s r ++ rest) = w_files w !! (directory_of s ++ rest)) ∨
    activated id s (w_files w');
  ro_pending : ∀ csr, requested (directory_of s) csr (w_files w) → pending_or_gone id s csr (w_files w');
  ro_sent : w_sent w' = w_sent w ∨ ∃ csr, w_sent w' = w_sent w ++ [rotation csr] ∧ pending_or_gone id s csr (w_files w') ∧
    (is_Some (w_files w !! pending (directory_of s)) → requested (directory_of s) csr (w_files w));
}.

Lemma requested_keeps (dir : path) (csr : bytes) (fs fs' : files) : (∀ q, under (pending dir) q → fs' !! q = fs !! q) → requested dir csr fs → requested dir csr fs'.
Proof. intros Hk [Hp [perm Hf]]. split; [by rewrite Hk|]. exists perm. rewrite Hk; [done|apply under_app]. Qed.

Lemma preparing_requested dir csr (w w' : world) : preparing dir w w' → requested dir csr (w_files w) → requested dir csr (w_files w').
Proof. intros [_ [Hk|[Hn _]]] Hr; [eapply requested_keeps, Hr; apply Hk|]. destruct Hr as [[n Hr] _]. congruence. Qed.

Lemma preparing_identity s (w w' : world) q : preparing (directory_of s) w w' → identity_path s q → w_files w' !! q = w_files w !! q.
Proof. intros [[_ Hk] _] (_ & Hq). by apply Hk. Qed.

Lemma preparing_rotating id s (w w' : world) : preparing (directory_of s) w w' → rotating id s w w'.
Proof.
  intros Hp. split; [left|..].
  - intros q. by eapply preparing_identity.
  - intros csr Hr. left. by eapply preparing_requested.
  - left. apply Hp.
Qed.

(** The files of [w2], with the request sent. *)
Lemma replacing_rotating id s csr c (w w2 w' : world) :
  checked_once c → cd_RunnerID c = id → preparing (directory_of s) w w2 → requested (directory_of s) csr (w_files w2) →
  (is_Some (w_files w !! pending (directory_of s)) → w2 = w) →
  replacing s c (cd_Private c) (mkWorld (w_files w2) (w_sent w2 ++ [rotation csr])) w' → rotating id s w w'.
Proof.
  intros Hv Hid Hprep Hreq Hsame [Hsent Hr]. cbn in Hsent.
  assert (Hgone : ∀ csr', requested (directory_of s) csr' (w_files w2) → pending_or_gone id s csr' (w_files w')).
  { intros csr' Hreq'. destruct Hr as [[_ Hk]|[[Hn _]|Hst]]; [left|by right; left|right; right; by exists c].
    eapply requested_keeps, Hreq'. intros q Hq. apply Hk. eapply under_trans; [apply under_app|exact Hq]. }
  split.
  - destruct Hr as [[_ Hk]|[[Hn [r Hr]]|Hst]]; [left|right; left|right; right; by exists c].
    + intros q Hq. rewrite Hk by apply Hq. exact (preparing_identity _ _ _ _ Hprep Hq).
    + split; [done|]. exists r. intros rest Hq. rewrite Hr. exact (preparing_identity _ _ _ _ Hprep Hq).
  - intros csr' Hreq'. apply Hgone. by eapply preparing_requested.
  - right. exists csr. split; [by rewrite Hsent, (proj1 (proj1 Hprep))|]. split; [by apply Hgone|]. intros Hp. by rewrite <-Hsame.
Qed.

Lemma RotateCredentials_spec config s (w : world) : rc_StateDir config = Some s →
  let id := cd_RunnerID (rc_Current config) in
  always (rotating id s w) (RotateCredentials config : io (RunnerCredentials Key Pool))
    (λ r w', ∀ c, r = Ok c → checked_once c ∧ cd_RunnerID c = id ∧ stored (directory_of s) c (cd_Private c) (w_files w')) w.
Proof.
  intros Hs id. unfold RotateCredentials. rewrite Hs.
  assert (Hrefl : rotating id s w w) by apply preparing_rotating, preparing_refl.
  destruct (_ || _); [by split|]. destruct (negb _); [by split|].
  apply always_try. eapply always_mono; [apply prepare_spec|intros w'; apply preparing_rotating|].
  intros [[private csr]|e] w2 Hprep Hr; [|split; [by apply preparing_rotating|done]]. destruct (Hr _ _ eq_refl) as [Hreq Hsame].
  assert (H2 := preparing_rotating id s _ _ Hprep).
  apply always_do; [done|]. intros d1 _. cbn [perform snd fst]. destruct (dr_ok d1); cbn [negb]; [|by apply always_failed].
  apply always_do; [done|]. intros d2 _. cbn [perform snd fst]. fold (rotation csr). set (w3 := mkWorld _ _).
  assert (H3 : rotating id s w w3).
  { destruct H2 as [Hst Hp _]. split; [done|done|]. right. exists csr. split; [by rewrite <-(proj1 (proj1 Hprep))|]. split; [by left|].
    intros Hpend. by rewrite <-Hsame. }
  destruct (if dr_ok d2 then dr_reply d2 else None) as [response|]; [|by apply always_failed].
  destruct (_ =? 0)%nat; [by apply always_failed|].
  apply always_try. eapply always_mono; [apply credentialsFromPEM_spec|by intros w' <-|]. intros [c|e] w' <- Hc; [|by split].
  destruct (Hc c eq_refl) as (Hk & Hv & Hid). rewrite uuid_round in Hid. injection Hid as Hid. fold id in Hid. rewrite <-Hk.
  apply always_try. eapply always_mono; [apply replace_spec|intros w'; by eapply replacing_rotating|].
  intros [[]|e] w' Hrep Hst; (split; [by eapply replacing_rotating|]); [|done]. intros c' [= <-]. auto.
Qed.


(** Rotations one after another, each with what its calls meet. *)
Fixpoint retry (l : list (RotationConfig Key Pool * list draw)) (w : world) : world :=
  match l with [] => w | (config, ds) :: l => retry l (run ds (RotateCredentials config) w).1 end.

Definition retries (id : uuid) (s : stateDir) : list (RotationConfig Key Pool * list draw) → Prop :=
  Forall (λ x, rc_StateDir x.1 = Some s ∧ cd_RunnerID (rc_Current x.1) = id ∧ Forall writes_hold x.2).

Lemma retry_rotating id s config ds l (w : world) : retries id s ((config, ds) :: l) →
  rotating id s w (run ds (RotateCredentials config) w).1 ∧ retries id s l.
Proof.
  intros [(Hs & <- & Hds) Hl]%Forall_cons. split; [|done]. pose proof (RotateCredentials_spec config s w Hs) as Ha.
  by apply always_run with (ds := ds) in Ha as [HI _].
Qed.

Lemma gone_rotates config s (w : world) : rc_StateDir config = Some s → w_files w !! directory_of s = None →
  always (eq w) (RotateCredentials config : io (RunnerCredentials Key Pool)) (λ _ _, True) w.
Proof.
  intros Hs Hn. unfold RotateCredentials. rewrite Hs. destruct (_ || _); [by split|]. destruct (negb _); [by split|].
  apply always_try, always_bind. eapply always_mono; [apply validate_spec|done|]. intros [[]|e] w' <- [_ Hv]; [|by split].
  destruct (Hv eq_refl). congruence.
Qed.

Lemma requested_functional (dir : path) (csr csr' : bytes) (fs : files) : requested dir csr fs → requested dir csr' fs → csr' = csr.
Proof. intros [_ [perm Hf]] [_ [perm' Hf']]. congruence. Qed.

(** One more attempt while the request is on the disk, or the directory is gone. *)
Lemma retry_step id s csr config ds l (w : world) : retries id s ((config, ds) :: l) →
  requested (directory_of s) csr (w_files w) ∨ w_files w !! directory_of s = None →
  let w1 := (run ds (RotateCredentials config) w).1 in
  (∃ n, w_sent w1 = w_sent w ++ replicate n (rotation csr)) ∧ pending_or_gone id s csr (w_files w1).
Proof.
  intros Hl [Hp|Hn] w1.
  - destruct (retry_rotating _ _ _ _ _ w Hl) as [[_ Hpend Hsent] _]. fold w1 in Hpend, Hsent. split; [|by apply Hpend].
    destruct Hsent as [Hsent|(csr' & Hsent & _ & Hsame)]; [exists 0%nat; by rewrite app_nil_r|exists 1%nat].
    by rewrite <-(requested_functional _ _ _ _ Hp (Hsame (proj1 Hp))).
  - apply Forall_cons in Hl as [(Hs & _ & Hds) _]. pose proof (gone_rotates config s w Hs Hn) as Ha.
    apply always_run with (ds := ds) in Ha as [HI _]; [|done]. fold w1 in HI. rewrite <-HI.
    split; [exists 0%nat; by rewrite app_nil_r|by right; left].
Qed.

Lemma retry_pending id s csr l (w : world) : retries id s l →
  requested (directory_of s) csr (w_files w) ∨ w_files w !! directory_of s = None →
  ∃ l1 l2 n, l = l1 ++ l2 ∧ w_sent (retry l1 w) = w_sent w ++ replicate n (rotation csr) ∧ (l2 = [] ∨ activated id s (w_files (retry l1 w))).
Proof.
  revert w. induction l as [|[config ds] l IH]; intros w Hl Hp; [exists [], [], 0%nat; cbn; rewrite app_nil_r; auto|].
  destruct (retry_step _ _ _ _ _ _ w Hl Hp) as [[n Hsent] Hgone]. destruct (retry_rotating _ _ _ _ _ w Hl) as [_ Hl'].
  set (w1 := (run ds (RotateCredentials config) w).1) in *. destruct Hgone as [Hg|[Hg|Hg]].
  3: { exists [(config, ds)], l, n. auto. }
  all: destruct (IH w1 Hl' ltac:(auto)) as (l1 & l2 & m & -> & Hs & He); exists ((config, ds) :: l1), l2, (n + m)%nat;
    (split; [done|]); cbn [retry]; fold w1; (split; [|exact He]); by rewrite Hs, Hsent, <-app_assoc, replicate_add.
Qed.


(** ** What goes wrong *)

(** Without the state directory a runner enrols anew or does not start: nothing looks into the
    backup that a rotation leaves when the process dies between its two renames. *)
Lemma lost_directory_enrols_anew config root s capabilities ds (w w' : world) c :
  validateEnrollmentConfig config = Some (root, s, capabilities) →
  (∀ file, ec_TokenFile config = Some file → apart file (directory_of s)) →
  Forall writes_hold ds → w_files w !! directory_of s = None → run ds (LoadOrEnroll config : io (RunnerCredentials Key Pool)) w = (w', Some (Ok c)) →
  ∃ token csr, w_sent w' = w_sent w ++ [registration config capabilities token csr].
Proof.
  intros Hc Ht Hds Hn Hr. pose proof (LoadOrEnroll_spec config root s capabilities Ht w Hc) as Ha.
  apply always_run with (ds := ds) in Ha as [_ HQ]; [|done]. rewrite Hr in HQ. destruct (HQ _ eq_refl) as [Hres|[_ Hne]]; [|by destruct (Hne Hn c)].
  by destruct (Hres c eq_refl) as (_ & _ & _ & ?).
Qed.

(** A write that stops after [n] bytes is not noticed: what was written is published as the file. *)
Lemma short_write_is_published dir name body mode n random (w : world) :
  is_dir dir (w_files w) = true → w_files w !! (dir ++ [Name name]) = None →
  subtree (dir ++ [RandomName "." name "-" random]) (w_files w) = ∅ →
  let d := mkDraw true None 0 None random None 0 None : draw in
  let (w', r) := run [d; d; mkDraw true (Some n) 0 None random None 0 None; d; d; d; d; d]
                   (writeExclusiveAtomic dir name body mode : io unit) w in
  r = Some (Ok tt) ∧ w_files w' !! (dir ++ [Name name]) = Some (File mode (take n body)).
Proof.
  intros Hd Ht Hr d. set (t := dir ++ [_]) in Hr. set (target := dir ++ [Name name]) in *.
  assert (Hpar : ∀ c, parent (dir ++ [c]) = dir).
  { intros c. unfold parent. rewrite length_app, Nat.add_1_r. apply take_app_length. }
  assert (Hap : apart t target) by by apply apart_names.
  assert (Hnt : t ≠ target) by (intros [=]%app_inv_head). assert (Hdt : dir ≠ t) by (intros Heq%(f_equal length); unfold t in Heq; rewrite length_app in Heq; cbn in Heq; lia).
  unfold writeExclusiveAtomic, attempt, defer. cbn -[create rename set_perm set_body remove].
  unfold create. fold t. rewrite (Hpar _ : parent t = dir), Hd, bool_decide_true by done. cbn -[rename set_perm set_body remove].
  unfold set_perm. rewrite lookup_insert_eq. cbn -[rename set_body remove]. rewrite insert_insert_eq.
  unfold set_body. rewrite lookup_insert_eq. cbn -[rename remove]. rewrite insert_insert_eq.
  fold target. rewrite lookup_insert_ne, Ht by done. cbn -[rename remove].
  set (fs := <[t := _]> (w_files w)). assert (Hfs : fs !! t = Some (File mode (take n body))) by apply lookup_insert_eq.
  assert (rename t target fs = (move t target fs, Ok tt)) as ->.
  { unfold rename. rewrite !bool_decide_false by apply Hap. rewrite (Hpar _ : parent target = dir), Hfs.
    replace (fs !! target) with (None (A := node)) by (unfold fs; by rewrite lookup_insert_ne).
    assert (is_dir dir fs = true) as ->; [|done]. unfold is_dir in *. destruct dir; [done|]. unfold fs. by rewrite lookup_insert_ne. }
  cbn -[remove]. split; [done|]. rewrite remove_frame by apply Hap. rewrite move_lookup, decide_True, drop_all, app_nil_r by done. exact Hfs.
Qed.
End Enrolment.

(** ** A concrete runner *)

(** Keys and requests are their bytes, every chain is the same certificate and its issuer, that of
    RunnerIdentityProps.v for runner 7, and an encoding starts with the length of its type. *)
Definition toy_pem (ty : string) (b : bytes) : bytes := replicate (length (chars ty)) one ++ zero :: chars ty ++ b.
Fixpoint leading_ones (l : bytes) : nat := match l with c :: l => if c =? one then S (leading_ones l) else 0%nat | [] => 0%nat end.
Definition toy_unpem (l : bytes) : option pemBlock * bytes :=
  let n := leading_ones l in
  match drop n l with _ :: rest => (Some (mkPemBlock (of_chars (take n rest)) ∅ (drop n rest)), []) | [] => (None, l) end.

Definition toy_csr (key : bytes) : CertificateRequest := mkCertificateRequest true "" [] [] [] [] [] [] [] (Ed25519Key key).
#[export] Instance toy_pki : Pki bytes bytes := {|
  pem_Decode := toy_unpem; pem_EncodeToMemory := toy_pem; MarshalPKCS8 := Some; ParsePKCS8 := Some; CreateRequest := Some; PublicPart := id;
  ParseCertificateRequest l := Some (toy_csr l); MarshalPKIXPublicKey := plain_marshal; X509KeyPair _ _ := Some [[one]; [zero]];
  ParseCertificate _ := Some plain_template; AppendCertsFromPEM := Some; Verify _ _ _ _ := true; uuid_String := demo_uuid;
  uuid_Parse := plain_parse; json_Marshal id _ := chars id; json_Decode l := Some (of_chars l, 36 * Hour);
|}.

Lemma toy_unpem_pem ty b : toy_unpem (toy_pem ty b) = (Some (mkPemBlock ty ∅ b), []).
Proof.
  unfold toy_unpem, toy_pem.
  assert (Hl : ∀ n r, leading_ones (replicate n one ++ zero :: r) = n) by (intros n r; induction n as [|n IH]; cbn; [done|by rewrite IH]).
  rewrite Hl, drop_app_length' by by rewrite length_replicate. rewrite take_app_length, drop_app_length. by rewrite of_chars_chars.
Qed.

Lemma toy_pki_laws : PkiLaws toy_pki.
Proof.
  split; try done.
  - apply toy_unpem_pem.
  - apply plain_round_trip.
  - intros id der leaf [= <-]. cbn. by rewrite of_chars_chars.
Qed.

Definition toy_key : bytes := replicate 32 one.
Definition toy_state : stateDir := mkStateDir [Name "var"] "runner".
Definition toy_root_file : path := [Name "etc"; Name "root.pem"].
Definition toy_token_file : path := [Name "etc"; Name "token"].
Definition toy_config : EnrollmentConfig := mkEnrollmentConfig "control:443" "control" (Some toy_root_file) (Some toy_state) "" (Some toy_token_file)
  "builder-1" (Some (mkRunnerCapabilities "linux" "amd64" "docker" LevelStandard ∅ 2 1000)).
Definition toy_draw (random : string) : draw (Key := bytes) (Reply := RunnerReply) :=
  mkDraw true None 0 None random (Some toy_key) (13 * Hour) (Some (mkRunnerReply (demo_uuid 7) [one] [zero])).
Definition toy_machine : world (Request := RunnerRequest) :=
  mkWorld (<[toy_root_file := File 420 [zero]]> (<[toy_token_file := File 384 (chars "token")]> {[[Name "etc"] := Dir 493]})) [].

Definition toy_calm : list draw := replicate 70 (toy_draw "1").
Definition toy_capabilities : RunnerCapabilities := mkRunnerCapabilities "linux" "amd64" "docker" LevelStandard ∅ 2 1000.
Definition toy_identity : RunnerCredentials bytes bytes := mkRunnerCredentials 7 [[one]; [zero]] plain_template toy_key [zero] [zero] (36 * Hour).
Definition toy_enrolled : world := (run toy_calm (LoadOrEnroll toy_config) toy_machine).1.

Lemma toy_enrolment : run toy_calm (LoadOrEnroll toy_config) toy_machine = (toy_enrolled, Some (Ok toy_identity)).
Proof. refine (run_result _ _ _ _ _). vm_compute. reflexivity. Qed.

Lemma toy_token_apart file : ec_TokenFile toy_config = Some file → apart file (directory_of toy_state).
Proof. intros [= <-]. by split; intros [k Hk]. Qed.

Lemma toy_holds n random : Forall writes_hold (replicate n (toy_draw random)).
Proof. by apply Forall_replicate. Qed.


Lemma toy_fits : fits toy_identity.
Proof. intros keyPEM [= <-]. repeat constructor; vm_compute; congruence. Qed.


(** A rotation whose process dies between the two renames. *)
Definition toy_rotation : RotationConfig bytes bytes := mkRotationConfig "control:443" "control" (Some toy_state) toy_identity.
Definition toy_dying : list draw := replicate 69 (toy_draw "4").
Definition toy_crashed : world := (run toy_dying (RotateCredentials toy_rotation) toy_enrolled).1.


(** A runner that had an identity cannot start any more: it is in the backup, and the registration
    token was used up. *)
Lemma crash_between_renames_strands_runner :
  w_files toy_crashed !! directory_of toy_state = None ∧
  w_files toy_crashed !! (backup_of toy_state "4" ++ [credentialKeyFile]) = Some (File 384 (toy_pem "PRIVATE KEY" toy_key)) ∧
  (run toy_calm (LoadOrEnroll toy_config) toy_crashed).2 = Some (Err (Message "cannot read Runner registration token")).
Proof. vm_compute. auto. Qed.

(** The answer to the first rotation is lost, the second one dies before it sends anything, and
    the third one succeeds. *)
Definition toy_lost : draw (Key := bytes) (Reply := RunnerReply) := mkDraw true None 0 None "3" (Some (replicate 32 zero)) (14 * Hour) None.
Definition toy_attempts : list (RotationConfig bytes bytes * list draw) :=
  [(toy_rotation, replicate 40 toy_lost); (toy_rotation, replicate 5 toy_lost); (toy_rotation, toy_calm)].

