(* ===== verification/RunnerPki.v ===== *)
(** The certificates of the runner connection: internal/runnerauth/pki.go (InitializePKI, which
    yuancictl runner-pki init calls) makes a root, an intermediate and a server certificate and
    writes them to a new directory; internal/runnergrpc/pki.go (LoadPKI) reads those of the server.

    Private keys, what crypto/x509, encoding/pem and crypto/tls do with certificates and keys, the
    texts of IP addresses and the JSON of the manifest are arguments. *)

From S2P Require Import Prelude GoStd Regex Codecs RunnerAuth FileSystem.

Definition defaultRootLifetime : duration := 10 * 365 * 24 * Hour.
Definition defaultIntermediateLife : duration := 5 * 365 * 24 * Hour.
Definition defaultServerLifetime : duration := 365 * 24 * Hour.
Definition certificateClockBackdate : duration := 5 * Minute.
Definition KeyUsageCRLSign : Z := 64.
Definition ExtKeyUsageServerAuth : Z := 1.

(** The output directory is absolute; [None] is a blank one. *)
Record PKIOptions := mkPKIOptions {
  po_OutputDir : option path;
  po_ServerNames : list string;
  po_Now : time;
  po_RootLifetime : duration;
  po_IntermediateLifetime : duration;
  po_ServerLifetime : duration;
}.

Record CertificateSummary := mkCertificateSummary { sm_SHA256Fingerprint : string; sm_NotAfter : time }.

Record Manifest := mkManifest {
  mf_Version : Z;
  mf_CreatedAt : time;
  mf_ServerNames : list string;
  mf_Root : CertificateSummary;
  mf_Intermediate : CertificateSummary;
  mf_Server : CertificateSummary;
}.

(** What [x509.CreateCertificate] also looks at. *)
Record template := mkTemplate { tp_Certificate : Certificate; tp_MaxPathLen : Z; tp_MaxPathLenZero : bool }.

Definition certificate_template (serial : Z) (subject : string) (notBefore notAfter : time) (usage : Z) (extended : list Z) (ca : bool)
    (dnsNames : list string) (ipAddresses : list bytes) (subjectKey authorityKey : bytes) : Certificate := {|
  ce_SerialNumber := Some serial; ce_Subject := subject; ce_NotBefore := notBefore; ce_NotAfter := notAfter;
  ce_KeyUsage := usage; ce_ExtKeyUsage := extended; ce_UnknownExtKeyUsage := []; ce_BasicConstraintsValid := true; ce_IsCA := ca;
  ce_DNSNames := dnsNames; ce_EmailAddresses := []; ce_IPAddresses := ipAddresses; ce_URIs := [];
  ce_SubjectKeyId := subjectKey; ce_AuthorityKeyId := authorityKey; ce_PublicKey := OtherKey; ce_Raw := [] |}.

Record generatedCertificate (Signer : Type) := mkGeneratedCertificate {
  gc_certificate : Certificate;
  gc_certificatePEM : bytes;
  gc_privateKeyPEM : bytes;
  gc_signer : Signer;
}.
Arguments mkGeneratedCertificate {Signer}.
Arguments gc_certificate {Signer}.
Arguments gc_certificatePEM {Signer}.
Arguments gc_privateKeyPEM {Signer}.
Arguments gc_signer {Signer}.

(** The files of the server; [None] is an empty path. *)
Record PKIFiles := mkPKIFiles {
  pf_ServerCertificate : option path;
  pf_ServerKey : option path;
  pf_ClientCA : option path;
  pf_IssuerCertificate : option path;
  pf_IssuerKey : option path;
}.

(** [PKI]; of its [tls.Config] the certificates and the pool of the clients. *)
Record PKI (Signer Pool : Type) := mkPKI {
  pk_Certificates : list bytes;
  pk_ClientCAs : Pool;
  pk_Issuer : Certificate;
  pk_IssuerKey : Signer;
  pk_RootPEM : bytes;
}.
Arguments mkPKI {Signer Pool}.
Arguments pk_Certificates {Signer Pool}.
Arguments pk_ClientCAs {Signer Pool}.
Arguments pk_Issuer {Signer Pool}.
Arguments pk_IssuerKey {Signer Pool}.
Arguments pk_RootPEM {Signer Pool}.

Class PkiTools (Signer Pool : Type) := {
  pt_Public : Signer → PublicKey;
  pt_MarshalPKIXPublicKey : PublicKey → option bytes;
  (** [x509.CreateCertificate(rand.Reader, template, parent, public, key)] *)
  pt_CreateCertificate : template → Certificate → PublicKey → Signer → option bytes;
  pt_ParseCertificate : bytes → option Certificate;
  pt_MarshalPKCS8PrivateKey : Signer → option bytes;
  pt_ParsePKCS8PrivateKey : bytes → option Signer;          (** the key, when it can sign *)
  pt_pem_Decode : bytes → option pemBlock * bytes;
  pt_pem_EncodeToMemory : string → bytes → bytes;
  pt_X509KeyPair : bytes → bytes → option (list bytes);     (** the certificates, from the chain and the key *)
  pt_AppendCertsFromPEM : bytes → option Pool;
  pt_ParseIP : string → option bytes;
  pt_IP_String : bytes → string;
  pt_json_MarshalIndent : Manifest → option bytes;
}.

Section Pki.
Context {Signer Pool : Type} `{T : PkiTools Signer Pool}.

Abbreviation prog := (@prog Signer Empty_set Empty_set).
Abbreviation io A := (prog (result string A)).
Abbreviation generated := (generatedCertificate Signer).

Definition ok {A} (a : A) : io A := Ret (Ok a).
Definition failed {A} (text : string) : io A := Ret (Err text).

(** ** Names of the server *)

(** [sort.Strings] and the order of [bytes.Compare] *)
Definition at_most (a b : string) : Prop := String.leb a b = true.
#[export] Instance at_most_dec : RelDecision at_most.
Proof. intros a b. unfold at_most. apply _. Defined.
Definition bytes_at_most (a b : bytes) : Prop := at_most (of_chars a) (of_chars b).
#[export] Instance bytes_at_most_dec : RelDecision bytes_at_most.
Proof. intros a b. unfold bytes_at_most. apply _. Defined.

Definition valid_label (label : string) : bool :=
  negb ((len label =? 0) || (63 <? len label) || HasPrefix label "-" || HasSuffix label "-")
  && forallb (λ c, is_lower c || is_digit c || (c =? "-"%char)) (chars label).

Definition validDNSName (name : string) : bool :=
  negb ((len name =? 0) || (253 <? len name) || Contains name "*" || HasPrefix name "." || HasSuffix name ".")
  && forallb valid_label (Split name ".").

(** The loop; the names so far are those that were seen. *)
Fixpoint server_names (input : list string) (dnsNames : list string) (ipAddresses : list bytes) (names : list string)
    : result string (list string * list bytes * list string) :=
  match input with
  | [] => Ok (dnsNames, ipAddresses, names)
  | raw :: input =>
    let name := TrimSpace raw in
    match pt_ParseIP name with
    | Some ip =>
      let name := pt_IP_String ip in
      if bool_decide (name ∈ names) then server_names input dnsNames ipAddresses names
      else server_names input dnsNames (ipAddresses ++ [ip]) (names ++ [name])
    | None =>
      let name := ToLower name in
      fail_if negb (validDNSName name) with "invalid Server DNS/IP name";;
      if bool_decide (name ∈ names) then server_names input dnsNames ipAddresses names
      else server_names input (dnsNames ++ [name]) ipAddresses (names ++ [name])
    end
  end.

Definition validateServerNames (input : list string) : result string (list string * list bytes * list string) :=
  fail_if (length input =? 0)%nat || (32 <? Z.of_nat (length input)) with "one to 32 Server DNS/IP names are required";;
  match server_names input [] [] [] with
  | Err e => Err e
  | Ok (dnsNames, ipAddresses, names) =>
    fail_if (length names =? 0)%nat with "one to 32 Server DNS/IP names are required";;
    Ok (merge_sort at_most dnsNames, merge_sort bytes_at_most ipAddresses, merge_sort at_most names)
  end.

(** ** Options *)

Definition or_default (d standard : duration) : duration := if d =? 0 then standard else d.

(** [now]: [time.Now()], or the time of the options. *)
Definition normalized (options : PKIOptions) (now : time) : result string (PKIOptions * list string * list bytes * list string) :=
  let root := or_default (po_RootLifetime options) defaultRootLifetime in
  let intermediate := or_default (po_IntermediateLifetime options) defaultIntermediateLife in
  let server := or_default (po_ServerLifetime options) defaultServerLifetime in
  fail_if (root <? 365 * 24 * Hour) || (20 * 365 * 24 * Hour <? root) || (intermediate <? 30 * 24 * Hour) || (root <=? intermediate)
    || (server <? Hour) || (intermediate <=? server) || (397 * 24 * Hour <? server) with "invalid PKI certificate lifetimes";;
  match validateServerNames (po_ServerNames options) with
  | Err e => Err e
  | Ok (dnsNames, ipAddresses, names) =>
    Ok (mkPKIOptions (po_OutputDir options) (po_ServerNames options) now root intermediate server, dnsNames, ipAddresses, names)
  end.

Definition normalizePKIOptions (options : PKIOptions) : io (PKIOptions * list string * list bytes * list string) :=
  match po_OutputDir options with
  | None => failed "PKI output directory is required"
  | Some _ =>
    if po_Now options =? time_zero then Do Now (λ now, Ret (normalized options now))
    else Ret (normalized options (po_Now options))
  end.

(** [os.Stat] of the directory above. *)
Definition safeNewOutputPath (output : option path) : io path :=
  match output with
  | None | Some [] => failed "PKI output must be a new child directory"
  | Some output =>
    Do (Lstat (parent output)) (λ r, match r with
    | Ok info => if fi_IsDir info then ok output else failed "PKI output parent must be a directory"
    | Err _ => failed "PKI output parent must be a directory"
    end)
  end.

(** ** Certificates *)

Definition createCertificate (t : template) (issuer : Certificate) (subjectSigner issuerSigner : Signer) : option generated :=
  der ← pt_CreateCertificate t issuer (pt_Public subjectSigner) issuerSigner;
  certificate ← pt_ParseCertificate der;
  privateDER ← pt_MarshalPKCS8PrivateKey subjectSigner;
  Some (mkGeneratedCertificate certificate (pt_pem_EncodeToMemory "CERTIFICATE" der) (pt_pem_EncodeToMemory "PRIVATE KEY" privateDER) subjectSigner).

Definition publicKeyFingerprint (public : PublicKey) : option bytes := Sum256 <$> pt_MarshalPKIXPublicKey public.

(** A new key and serial number, and a certificate for them. *)
Definition new_certificate (f : Z → bytes → Signer → option generated) : prog (option generated) :=
  Do GenerateKey (λ key, match key with
  | None => Ret None
  | Some private =>
    Do (ReadRandom 20) (λ value, match value with
    | None => Ret None
    | Some value => Ret (subjectKeyID ← publicKeyFingerprint (pt_Public private); f (randomSerial value) subjectKeyID private)
    end)
  end).

Definition root_template (now : time) (lifetime : duration) (serial : Z) (subjectKeyID : bytes) : template :=
  mkTemplate (certificate_template serial "CN=YuanCI Runner Root CA,O=YuanCI" (now - certificateClockBackdate) (now + lifetime)
    (Z.lor KeyUsageCertSign KeyUsageCRLSign) [] true [] [] subjectKeyID []) 1 false.
Definition newRootCertificate (now : time) (lifetime : duration) : prog (option generated) :=
  new_certificate (λ serial subjectKeyID private,
    let t := root_template now lifetime serial subjectKeyID in createCertificate t (tp_Certificate t) private private).

Definition intermediate_template (now : time) (lifetime : duration) (issuer : generated) (serial : Z) (subjectKeyID : bytes) : template :=
  mkTemplate (certificate_template serial "CN=YuanCI Runner Intermediate CA,O=YuanCI" (now - certificateClockBackdate) (now + lifetime)
    (Z.lor KeyUsageCertSign KeyUsageCRLSign) [] true [] [] subjectKeyID (ce_SubjectKeyId (gc_certificate issuer))) 0 true.
Definition newIntermediateCertificate (now : time) (lifetime : duration) (issuer : generated) : prog (option generated) :=
  new_certificate (λ serial subjectKeyID private,
    createCertificate (intermediate_template now lifetime issuer serial subjectKeyID) (gc_certificate issuer) private (gc_signer issuer)).

Definition server_template (now : time) (lifetime : duration) (dnsNames : list string) (ipAddresses : list bytes) (issuer : generated)
    (serial : Z) (subjectKeyID : bytes) : template :=
  mkTemplate (certificate_template serial "O=YuanCI" (now - certificateClockBackdate) (now + lifetime)
    KeyUsageDigitalSignature [ExtKeyUsageServerAuth] false dnsNames ipAddresses subjectKeyID (ce_SubjectKeyId (gc_certificate issuer))) 0 false.
Definition newServerCertificate (now : time) (lifetime : duration) (dnsNames : list string) (ipAddresses : list bytes)
    (issuer : generated) : prog (option generated) :=
  new_certificate (λ serial subjectKeyID private,
    createCertificate (server_template now lifetime dnsNames ipAddresses issuer serial subjectKeyID) (gc_certificate issuer) private (gc_signer issuer)).

Definition summarize (certificate : Certificate) : CertificateSummary :=
  mkCertificateSummary (of_chars (hex_encode (Sum256 (ce_Raw certificate)))) (ce_NotAfter certificate).

(** ** Writing *)

(** Every error is replaced by its callers. *)
Definition writeAtomic (dir : path) (name : string) (data : bytes) (mode : Z) : io unit :=
  Do (ReadRandom 8) (λ token, match token with
  | None => failed ""
  | Some token =>
    let temporary := dir ++ [RandomName "." name "." (of_chars (hex_encode token) +:+ ".tmp")] in
    attempt (OpenExclusive temporary mode) "" (λ _,
    bind (attempt (ChmodFile temporary mode) "" (λ _,
          attempt (WriteFile temporary data) "" (λ _,
          attempt (Sync temporary) "" (λ _,
          attempt (Close temporary) "" (λ _,
          attempt (Rename temporary (dir ++ [Name name])) "" ok)))))
      (λ r, Do (Close temporary) (λ _, match r with
       | Ok _ => Ret r
       | Err _ => Do (Remove temporary) (λ _, Ret r)
       end)))
  end).

(** [syncDirectory] and [syncHostDirectory] *)
Definition syncDirectory (dir : path) : io unit :=
  attempt (Open dir) "" (λ _, defer (Close dir) (attempt (Sync dir) "" ok)).

(** An error gets a text. *)
Definition explain {A} (text : string) (p : io A) : io A :=
  bind p (λ r, Ret match r with Ok a => Ok a | Err _ => Err text end).

Fixpoint write_pki_files (out : path) (files : list (string * string * Z * bytes)) : io unit :=
  match files with
  | [] => ok tt
  | (dir, name, mode, data) :: files => try (writeAtomic (out ++ [Name dir]) name data mode) (λ _, write_pki_files out files)
  end.

Fixpoint sync_all (dirs : list path) : io unit :=
  match dirs with [] => ok tt | dir :: dirs => try (syncDirectory dir) (λ _, sync_all dirs) end.

Definition pki_files (root intermediate server : generated) (manifestJSON : bytes) : list (string * string * Z * bytes) :=
  [("offline-root", "root-key.pem", 384, gc_privateKeyPEM root);
   ("offline-root", "root-cert.pem", 420, gc_certificatePEM root);
   ("server", "root-cert.pem", 420, gc_certificatePEM root);
   ("server", "intermediate-key.pem", 384, gc_privateKeyPEM intermediate);
   ("server", "intermediate-cert.pem", 420, gc_certificatePEM intermediate);
   ("server", "server-key.pem", 384, gc_privateKeyPEM server);
   ("server", "server-chain.pem", 420, gc_certificatePEM server ++ gc_certificatePEM intermediate);
   ("server", "manifest.json", 420, manifestJSON ++ ["010"%char])].

Definition require {A B} (text : string) (p : prog (option A)) (f : A → io B) : io B :=
  bind p (λ r, match r with Some a => f a | None => failed text end).

(** In the new directory [out]. *)
Definition fill_pki (options : PKIOptions) (dnsNames : list string) (ipAddresses : list bytes) (names : list string) (out : path) : io Manifest :=
  attempt (Mkdir (out ++ [Name "offline-root"]) 448) "cannot create offline root directory" (λ _,
  attempt (Mkdir (out ++ [Name "server"]) 448) "cannot create Server PKI directory" (λ _,
  let now := Truncate (po_Now options) Second in
  require "cannot generate root certificate" (newRootCertificate now (po_RootLifetime options)) (λ root,
  require "cannot generate intermediate certificate" (newIntermediateCertificate now (po_IntermediateLifetime options) root) (λ intermediate,
  require "cannot generate Server certificate" (newServerCertificate now (po_ServerLifetime options) dnsNames ipAddresses intermediate) (λ server,
  let manifest := mkManifest 1 now names (summarize (gc_certificate root)) (summarize (gc_certificate intermediate)) (summarize (gc_certificate server)) in
  match pt_json_MarshalIndent manifest with
  | None => failed "cannot encode PKI manifest"
  | Some manifestJSON =>
    try (explain "cannot persist PKI; partial output was removed" (write_pki_files out (pki_files root intermediate server manifestJSON))) (λ _,
    try (explain "cannot sync PKI; partial output was removed" (sync_all [out ++ [Name "offline-root"]; out ++ [Name "server"]; out])) (λ _,
    try (explain "cannot sync PKI parent; partial output was removed" (syncDirectory (parent out))) (λ _, ok manifest)))
  end))))).

Definition InitializePKI (options : PKIOptions) : io Manifest :=
  try (normalizePKIOptions options) (λ '(options, dnsNames, ipAddresses, names),
  try (safeNewOutputPath (po_OutputDir options)) (λ out,
  attempt (Mkdir out 448) "PKI output must have an existing parent and a new target directory" (λ _,
  bind (attempt (Open out) "cannot secure PKI output directory" (λ _, defer (Close out) (fill_pki options dnsNames ipAddresses names out)))
    (λ r, match r with
     | Ok manifest => ok manifest
     | Err e => Do (RemoveAll out) (λ _, Ret (Err e))
     end)))).

(** ** Loading *)

Definition readRegular (p : option path) (limit : Z) (private : bool) : io bytes :=
  match p with
  | None => failed "path missing"
  | Some p =>
    Do (Lstat p) (λ r, match r with
    | Err _ => failed "not a regular file"
    | Ok linkInfo =>
      if fi_IsSymlink linkInfo then failed "not a regular file" else
      attempt (Open p) "" (λ _, defer (Close p)
        (Do (StatFile p) (λ r, match r with
         | Err _ => failed "invalid file"
         | Ok info =>
           if negb (fi_IsRegular info) || (fi_Size info <? 1) || (limit <? fi_Size info) then failed "invalid file"
           else if private && negb (Z.land (fi_Perm info) 63 =? 0) then failed "private file permissions are too broad"
           else Do (ReadFile p) (λ r, match r with
           | Err _ => failed "file too large"
           | Ok body =>
             let data := take (Z.to_nat (limit + 1)) body in
             if limit <? Z.of_nat (length data) then failed "file too large" else ok data
           end)
         end)))
    end)
  end.

Definition one_block (ty : string) (data : bytes) : option bytes :=
  match pt_pem_Decode data with
  | (Some block, rest) =>
    if (pb_Type block =? ty) && (len (TrimSpace (of_chars rest)) =? 0) then Some (pb_Bytes block) else None
  | (None, _) => None
  end.
Definition parseOneCertificate (data : bytes) : option Certificate := one_block "CERTIFICATE" data ≫= pt_ParseCertificate.
Definition parseSigner (data : bytes) : option Signer := one_block "PRIVATE KEY" data ≫= pt_ParsePKCS8PrivateKey.

Definition usable_issuer (issuer : Certificate) : bool := ce_IsCA issuer && (Z.land (ce_KeyUsage issuer) KeyUsageCertSign <>? 0).

Definition or_fail {A B} (text : string) (a : option A) (f : A → io B) : io B := match a with Some a => f a | None => failed text end.

Definition LoadPKI (files : PKIFiles) : io (PKI Signer Pool) :=
  try (explain "invalid Runner Server certificate file" (readRegular (pf_ServerCertificate files) (64 * 2 ^ 10) false)) (λ serverCertificate,
  try (explain "invalid Runner Server key file" (readRegular (pf_ServerKey files) (32 * 2 ^ 10) true)) (λ serverKey,
  or_fail "invalid Runner Server certificate pair" (pt_X509KeyPair serverCertificate serverKey) (λ serverPair,
  try (explain "invalid Runner client CA file" (readRegular (pf_ClientCA files) (32 * 2 ^ 10) false)) (λ rootPEM,
  or_fail "invalid Runner client CA certificate" (pt_AppendCertsFromPEM rootPEM) (λ roots,
  try (explain "invalid Runner issuer certificate file" (readRegular (pf_IssuerCertificate files) (32 * 2 ^ 10) false)) (λ issuerPEM,
  or_fail "invalid Runner issuer certificate" (parseOneCertificate issuerPEM) (λ issuer,
  if negb (usable_issuer issuer) then failed "invalid Runner issuer certificate" else
  try (explain "invalid Runner issuer key file" (readRegular (pf_IssuerKey files) (32 * 2 ^ 10) true)) (λ issuerKeyPEM,
  or_fail "invalid Runner issuer certificate pair" (parseSigner issuerKeyPEM) (λ issuerKey,
  if negb (publicKeysEqual pt_MarshalPKIXPublicKey (ce_PublicKey issuer) (pt_Public issuerKey)) then failed "invalid Runner issuer certificate pair" else
  ok (mkPKI serverPair roots issuer issuerKey rootPEM)))))))))).
End Pki.
