(* ===== verification/RunnerPkiProps.v ===== *)
(** The certificates of the runner connection: a new PKI is complete or there is nothing of it,
    and what was made is what the server loads. *)

From S2P Require Import Prelude GoStd Regex Codecs RunnerAuth FileSystem RunnerFilesProps RunnerPki.

#[local] Arguments always : simpl never.
#[local] Arguments attempt : simpl never.
#[local] Arguments try : simpl never.
#[local] Arguments failed : simpl never.
#[local] Arguments defer : simpl never.
#[local] Arguments explain : simpl never.
#[local] Arguments writeAtomic : simpl never.
#[local] Arguments syncDirectory : simpl never.

Section Files.
Context {Signer Pool : Type} `{T : PkiTools Signer Pool}.
Abbreviation io A := (@prog Signer Empty_set Empty_set (result string A)).
Abbreviation world := (@world Empty_set).
Abbreviation draw := (@draw Signer Empty_set).
Abbreviation call := (@call Signer Empty_set Empty_set).
Abbreviation always := (always removals_hold).

(** ** What a program may touch *)

Definition outside (out q : path) : Prop := ¬ under out q.

(** The program changes nothing but what is below [out]; [Q] holds of the result. *)
Definition inside {A} (out : path) (p : io A) (Q : A → world → Prop) (w : world) : Prop :=
  always (keeps (outside out) w) p (λ r w', ∀ a, r = Ok a → Q a w') w.

Lemma inside_mono {A} out (p : io A) (Q Q' : A → world → Prop) w :
  inside out p Q w → (∀ a w', keeps (outside out) w w' → Q a w' → Q' a w') → inside out p Q' w.
Proof. intros Hp HQ. eapply always_mono; [exact Hp|done|]. intros r w' Hk Hr a Ha. by apply HQ, Hr. Qed.

Lemma inside_ok {A} out (a : A) (Q : A → world → Prop) w : Q a w → inside out (ok a) Q w.
Proof. split; [done|]. by intros ? [= <-]. Qed.

Lemma inside_failed {A} out text (Q : A → world → Prop) w : inside out (failed text) Q w.
Proof. by split. Qed.

Lemma inside_from {A} out (p : io A) (Q : A → world → Prop) w w' : keeps (outside out) w w' → inside out p Q w' →
  always (keeps (outside out) w) p (λ r w', ∀ a, r = Ok a → Q a w') w'.
Proof. intros Hk Hp. eapply always_mono; [exact Hp| |done]. intros w''. by apply keeps_trans. Qed.

Lemma inside_try {A B} out (p : io A) (f : A → io B) (Q : B → world → Prop) w :
  inside out p (λ a w', inside out (f a) Q w') w → inside out (try p f) Q w.
Proof.
  intros Hp. apply always_try. eapply always_mono; [exact Hp|done|]. intros [a|e] w' Hk Hr; [|done].
  apply inside_from; [done|by apply Hr].
Qed.

Lemma inside_explain {A} out text (p : io A) (Q : A → world → Prop) w : inside out p Q w → inside out (explain text p) Q w.
Proof. intros Hp. apply always_bind. eapply always_mono; [exact Hp|done|]. intros [a|e] w' Hk Hr; split; try done. Qed.

(** A call inside of [out]. *)
Definition within (out : path) (d : draw) {B} (c : call B) : Prop :=
  match area d c with Some l => Forall (under out) l | None => False end.

Lemma within_keeps out d {B} (c : call B) w : within out d c → keeps (outside out) w (perform d c w).1.
Proof.
  unfold within. destruct (area d c) as [l|] eqn:Hl; [|done]. intros Hout. eapply keeps_weaken; [|by eapply perform_keeps].
  intros q Hq a Ha Hu. rewrite Forall_forall in Hout. apply Hq. by eapply under_trans; [apply Hout|].
Qed.

Lemma inside_attempt {A B} out (c : call (result FileError A)) text (f : A → io B) (Q : B → world → Prop) w :
  (∀ d, within out d c) →
  (∀ d, removals_hold d → let r := perform d c w in match r.2 with Ok a => inside out (f a) Q r.1 | Err _ => True end) →
  inside out (attempt c text f) Q w.
Proof.
  intros Hc Hd. apply always_attempt; [done|]. intros d Hw. specialize (Hd d Hw). cbn in *. pose proof (within_keeps out d c w (Hc d)) as Hk.
  destruct (perform d c w) as [w' [a|e]]; cbn in *; [by apply inside_from|done].
Qed.

Lemma inside_do {A B} out (c : call B) (k : B → io A) (Q : A → world → Prop) w :
  (∀ d, within out d c) → (∀ d, removals_hold d → inside out (k (perform d c w).2) Q (perform d c w).1) → inside out (Do c k) Q w.
Proof. intros Hc Hd. apply always_do; [done|]. intros d Hw. apply inside_from; [by apply within_keeps|by apply Hd]. Qed.

(** A program and what is done with its result, which changes nothing. *)
Lemma inside_after {A B} out (p : io A) (f : result string A → io B) (Q : A → world → Prop) (Q' : B → world → Prop) w :
  inside out p Q w → (∀ a w', keeps (outside out) w w' → Q a w' → inside out (f (Ok a)) Q' w') →
  (∀ e w', inside out (f (Err e)) Q' w') → inside out (bind p f) Q' w.
Proof.
  intros Hp Ha He. apply always_bind. eapply always_mono; [exact Hp|done|]. intros [a|e] w' Hk Hr; apply inside_from; auto.
Qed.

Lemma inside_defer {A B} out (c : call B) (p : io A) (Q : A → world → Prop) w :
  (∀ d w', (perform d c w').1 = w') → inside out p Q w → inside out (defer c p) Q w.
Proof.
  intros Hc Hp. apply always_defer. eapply always_mono; [exact Hp|done|]. intros r w' Hk Hr. split; [done|]. intros d _. by rewrite Hc.
Qed.

Lemma inside_mkdir {A} out p perm text (f : () → io A) (Q : A → world → Prop) w : under out p →
  inside out (f tt) Q (mkWorld (<[p := Dir perm]> (w_files w)) (w_sent w)) → inside out (attempt (Mkdir p perm) text f) Q w.
Proof.
  intros Hp Hf. apply inside_attempt; [by repeat constructor|]. intros d _. cbn. destruct (dr_ok d); [|done].
  by destruct (create_cases p (Dir perm) (w_files w)) as [[-> _]| ->].
Qed.

(** ** One file *)

Lemma rename_insert (t target : path) (n : node) (fs : files) : apart t target → (∀ q, under t q → fs !! q = None) → (∀ q, under target q → fs !! q = None) →
  move t target (<[t := n]> fs) = <[target := n]> fs.
Proof.
  intros Hap Ht Htarget. apply map_eq. intros q. rewrite move_lookup by done. destruct (decide (q = target)) as [->|Hq].
  - by rewrite decide_True, drop_all, app_nil_r, !lookup_insert_eq by done.
  - rewrite (lookup_insert_ne _ target) by done. case_decide as Hu; [|case_decide as Ht'; [by rewrite Ht|]].
    + destruct Hu as [rest ->]. rewrite drop_app_length, Htarget by apply under_app. rewrite lookup_insert_ne; [apply Ht, under_app|].
      intros Heq. apply Hq. assert (rest = []) as ->; [|by rewrite app_nil_r]. apply (f_equal length) in Heq. rewrite length_app in Heq.
      apply length_zero_iff_nil. lia.
    + apply lookup_insert_ne. by intros ->.
Qed.

Lemma writeAtomic_spec out dir name data mode w : under out dir → (∀ q, under (dir ++ [Name name]) q → w_files w !! q = None) →
  inside out (writeAtomic dir name data mode) (λ _ w', w_files w' = <[dir ++ [Name name] := File mode data]> (w_files w)) w.
Proof.
  intros Hout Htarget. apply inside_do; [by intros d; apply Forall_nil|]. intros d0 _. cbn [perform snd fst].
  destruct (if dr_ok d0 then Some _ else None) as [token|]; [|apply inside_failed]. set (t := dir ++ [RandomName _ _ _ _]). set (target := dir ++ [Name name]) in *.
  assert (Hin : under out t ∧ under out target) by (split; (eapply under_trans; [exact Hout|apply under_app])). destruct Hin as [Hint Hintarget].
  assert (Hap : apart t target) by (by apply apart_names).
  apply inside_attempt; [by repeat constructor|]. intros d1 _. cbn. destruct (dr_ok d1); [|done].
  destruct (create_cases t (File mode []) (w_files w)) as [[-> Ht]| ->]; [|done]. cbn. rewrite subtree_empty in Ht.
  assert (Hclean : ∀ r w' (Q : () → world → Prop), (r = Ok tt → Q tt w') →
    inside out (Do (Close t) (λ _, match r with Ok _ => Ret r | Err _ => Do (Remove t) (λ _, Ret r) end)) Q w').
  { intros r w' Q HQ. apply inside_do; [by intros d; apply Forall_nil|]. intros d _. cbn [perform fst]. destruct r as [[]|e].
    - apply inside_ok. by apply HQ.
    - apply inside_do; [by repeat constructor|]. intros d' _. by split. }
  eapply (inside_after _ _ _ (λ _ w', w_files w' = <[target := File mode data]> (w_files w))); [|intros [] w' _ Hw'; by apply (Hclean (Ok tt))|intros e w'; by apply (Hclean (Err e))].
  apply inside_attempt; [by repeat constructor|]. intros d2 _. cbn. destruct (dr_short d2); [done|].
  unfold set_perm. rewrite lookup_insert_eq. cbn. rewrite insert_insert_eq.
  apply inside_attempt; [by repeat constructor|]. intros d3 _. cbn. destruct (dr_short d3); [done|].
  unfold set_body. rewrite lookup_insert_eq. cbn. rewrite insert_insert_eq.
  apply inside_attempt; [by intros d; apply Forall_nil|]. intros d4 _. cbn. destruct (dr_ok d4); [|done].
  apply inside_attempt; [by intros d; apply Forall_nil|]. intros d5 _. cbn. destruct (dr_ok d5); [|done].
  apply inside_attempt; [by repeat constructor|]. intros d6 _. cbn. destruct (dr_ok d6); [|done].
  destruct (rename_cases t target (<[t := File mode data]> (w_files w))) as [(-> & _ & _)|[e ->]]; [|done]. cbn. apply inside_ok. cbn. by apply rename_insert.
Qed.

(** ** All files *)

Definition file_path (out : path) (x : string * string * Z * bytes) : path := out ++ [Name x.1.1.1; Name x.1.1.2].
Definition put (out : path) (fs : files) (x : string * string * Z * bytes) : files := <[file_path out x := File x.1.2 x.2]> fs.

Lemma write_pki_files_spec out l w : NoDup (l.*1.*1) → (∀ x q, x ∈ l → under (file_path out x) q → w_files w !! q = None) →
  inside out (write_pki_files out l) (λ _ w', w_files w' = foldl (put out) (w_files w) l) w.
Proof.
  revert w. induction l as [|[[[dir name] mode] data] l IH]; intros w; cbn [write_pki_files foldl]; [intros _ _; by apply inside_ok|].
  intros [Hname Hnd]%NoDup_cons Hempty. apply inside_try. eapply inside_mono; [apply writeAtomic_spec|].
  - apply under_app.
  - intros q Hq. eapply (Hempty (dir, name, mode, data)); [apply list_elem_of_here|]. unfold file_path. cbn. by rewrite <-app_assoc in Hq.
  - intros [] w' _ Hw'. rewrite <-app_assoc in Hw'. cbn in Hw'. fold (put out (w_files w) (dir, name, mode, data)) in Hw'.
    eapply inside_mono; [apply IH; [done|]|by intros a w'' _ ->; rewrite Hw'].
    intros x q Hx Hq. rewrite Hw'. unfold put. rewrite lookup_insert_ne; [eapply Hempty; [by apply list_elem_of_further|done]|].
    intros Heq. destruct Hq as [k Hk]. rewrite <-Heq in Hk. unfold file_path in Hk. rewrite <-app_assoc in Hk. apply app_inv_head in Hk.
    cbn in Hk. injection Hk as H1 H2 _. apply Hname. apply list_elem_of_fmap. exists x.1. split; [|by apply list_elem_of_fmap_2].
    destruct x as [[[? ?] ?] ?]. cbn in *. congruence.
Qed.

Lemma syncDirectory_spec out dir w : inside out (syncDirectory dir) (λ _ w', w' = w) w.
Proof.
  apply inside_attempt; [by intros d; apply Forall_nil|]. intros d _. cbn. destruct (w_files w !! dir); [|done]. destruct (dr_ok d); [|done].
  apply inside_defer; [done|]. apply inside_attempt; [by intros d'; apply Forall_nil|]. intros d' _. cbn. destruct (dr_ok d'); [|done].
  by apply inside_ok.
Qed.

Lemma sync_all_spec out dirs w : inside out (sync_all dirs) (λ _ w', w' = w) w.
Proof.
  induction dirs as [|dir dirs IH]; [by apply inside_ok|]. apply inside_try. eapply inside_mono; [apply syncDirectory_spec|].
  by intros [] w' _ ->.
Qed.

(** ** Certificates *)

Lemma new_certificate_spec {A} out text f (g : generatedCertificate Signer → io A) (Q : A → world → Prop) w :
  (∀ serial private subjectKeyID c, publicKeyFingerprint (pt_Public private) = Some subjectKeyID → f serial subjectKeyID private = Some c →
     inside out (g c) Q w) →
  inside out (require text (new_certificate f) g) Q w.
Proof.
  intros Hg. apply inside_do; [by intros d; apply Forall_nil|]. intros d _. cbn [perform snd fst].
  destruct (if dr_ok d then dr_key d else None) as [private|]; [|apply inside_failed].
  apply inside_do; [by intros d'; apply Forall_nil|]. intros d' _. cbn [perform snd fst].
  destruct (if dr_ok d' then Some _ else None) as [value|]; [|apply inside_failed].
  destruct (publicKeyFingerprint _) as [subjectKeyID|] eqn:Hfp; [|apply inside_failed]. cbn.
  destruct (f _ _ _) as [c|] eqn:Hc; [by eapply Hg|apply inside_failed].
Qed.

(** What was made: the three certificates with their keys, and the manifest. *)
Record made (options : PKIOptions) (dnsNames : list string) (ipAddresses : list bytes) (names : list string)
    (root intermediate server : generatedCertificate Signer) (manifest : Manifest) (manifestJSON : bytes) : Prop := {
  ma_root : ∃ serial subjectKeyID private,
    let t := root_template (Truncate (po_Now options) Second) (po_RootLifetime options) serial subjectKeyID in
    createCertificate t (tp_Certificate t) private private = Some root;
  ma_intermediate : ∃ serial subjectKeyID private, publicKeyFingerprint (pt_Public private) = Some subjectKeyID ∧
    createCertificate (intermediate_template (Truncate (po_Now options) Second) (po_IntermediateLifetime options) root serial subjectKeyID)
      (gc_certificate root) private (gc_signer root) = Some intermediate;
  ma_server : ∃ serial subjectKeyID private,
    createCertificate (server_template (Truncate (po_Now options) Second) (po_ServerLifetime options) dnsNames ipAddresses intermediate serial subjectKeyID)
      (gc_certificate intermediate) private (gc_signer intermediate) = Some server;
  ma_manifest : manifest = mkManifest 1 (Truncate (po_Now options) Second) names (summarize (gc_certificate root))
    (summarize (gc_certificate intermediate)) (summarize (gc_certificate server));
  ma_json : pt_json_MarshalIndent manifest = Some manifestJSON;
}.

(** The directories of a PKI in [fs], and all of its files. *)
Definition pki_directories (out : path) (fs : files) : files :=
  <[out ++ [Name "server"] := Dir 448]> (<[out ++ [Name "offline-root"] := Dir 448]> (<[out := Dir 448]> fs)).
Definition pki_tree (out : path) (root intermediate server : generatedCertificate Signer) (manifestJSON : bytes) (fs : files) : files :=
  foldl (put out) (pki_directories out fs) (pki_files root intermediate server manifestJSON).

Definition pki_made (options : PKIOptions) (dnsNames : list string) (ipAddresses : list bytes) (names : list string) (out : path)
    (fs : files) (manifest : Manifest) (fs' : files) : Prop :=
  ∃ root intermediate server manifestJSON,
    made options dnsNames ipAddresses names root intermediate server manifest manifestJSON ∧
    fs' = pki_tree out root intermediate server manifestJSON fs.

Lemma pki_directories_deep out fs a b k : (∀ q, under out q → fs !! q = None) → pki_directories out fs !! (out ++ a :: b :: k) = None.
Proof.
  intros Hempty. unfold pki_directories. rewrite !lookup_insert_ne; [apply Hempty, under_app|..]; intros Heq%(f_equal length);
    rewrite ?length_app in Heq; cbn in Heq; lia.
Qed.

Lemma pki_names (root intermediate server : generatedCertificate Signer) manifestJSON :
  NoDup ((pki_files root intermediate server manifestJSON).*1.*1).
Proof. cbn. repeat (apply NoDup_cons; split; [set_solver|]). by apply NoDup_nil. Qed.

Lemma fill_pki_spec options dnsNames ipAddresses names out fs w :
  w_files w = <[out := Dir 448]> fs → (∀ q, under out q → fs !! q = None) →
  inside out (fill_pki options dnsNames ipAddresses names out)
    (λ manifest w', pki_made options dnsNames ipAddresses names out fs manifest (w_files w')) w.
Proof.
  intros Hw Hempty. apply inside_mkdir; [apply under_app|]. apply inside_mkdir; [apply under_app|]. cbn [w_files w_sent]. rewrite Hw.
  fold (pki_directories out fs). set (w2 := mkWorld _ _).
  apply new_certificate_spec. intros serial private key root _ Hroot.
  apply new_certificate_spec. intros serial' private' key' intermediate Hfp Hintermediate.
  apply new_certificate_spec. intros serial'' private'' key'' server _ Hserver.
  cbv zeta. match goal with |- context [pt_json_MarshalIndent ?m] => destruct (pt_json_MarshalIndent m) as [manifestJSON|] eqn:Hjson end; [|eapply inside_failed].
  apply inside_try, inside_explain. eapply inside_mono; [apply write_pki_files_spec|].
  - apply pki_names.
  - intros x q _ [k ->]. unfold file_path. rewrite <-app_assoc. by apply pki_directories_deep.
  - intros [] w3 _ Hw3. apply inside_try, inside_explain. eapply inside_mono; [apply sync_all_spec|]. intros [] w4 _ ->.
    apply inside_try, inside_explain. eapply inside_mono; [apply syncDirectory_spec|]. intros [] w5 _ ->. apply inside_ok.
    exists root, intermediate, server, manifestJSON. split; [|done]. split; eauto 10.
Qed.

(** ** The whole *)

(** The normalisation of the options: its result for some time. *)
Lemma normalize_spec options (w : world) :
  always (eq w) (normalizePKIOptions options : io _) (λ r w', ∀ a, r = Ok a → po_OutputDir a.1.1.1 = po_OutputDir options ∧ ∃ now, normalized options now = Ok a) w.
Proof.
  assert (Hn : ∀ now a, normalized options now = Ok a → po_OutputDir a.1.1.1 = po_OutputDir options ∧ ∃ now, normalized options now = Ok a).
  { intros now a Ha. split; [|by exists now]. unfold normalized in Ha. destruct (_ || _); [done|].
    destruct (validateServerNames _) as [[[dns ips] names]|]; [|done]. by injection Ha as <-. }
  unfold normalizePKIOptions. destruct (po_OutputDir options); [|by split]. case_bool_decide.
  - apply always_do; [done|]. intros d _. cbn [perform snd fst]. split; [done|]. intros a. apply Hn.
  - split; [done|]. intros a. apply Hn.
Qed.

Lemma output_spec output (w : world) : always (eq w) (safeNewOutputPath output : io path) (λ r w', ∀ out, r = Ok out → output = Some out) w.
Proof.
  unfold safeNewOutputPath. destruct output as [[|c p]|]; [by split| |by split]. apply always_do; [done|]. intros d _. cbn [perform snd fst].
  destruct (dr_ok d); [|by split]. destruct (w_files w !! _) as [n|]; [|by split]. destruct (fi_IsDir _); [|by split].
  split; [done|]. by intros out [= <-].
Qed.

(** All that a run of InitializePKI has done when it ends. *)
Definition initialized (options : PKIOptions) (w : world) (r : result string Manifest) (w' : world) : Prop :=
  (∀ e, r = Err e → w_files w' = w_files w) ∧
  ∀ manifest, r = Ok manifest → ∃ now settings dnsNames ipAddresses names out,
    normalized options now = Ok (settings, dnsNames, ipAddresses, names) ∧ po_OutputDir options = Some out ∧
    (∀ q, under out q → w_files w !! q = None) ∧
    pki_made settings dnsNames ipAddresses names out (w_files w) manifest (w_files w').

Lemma InitializePKI_spec options (w : world) :
  always (keeps (λ q, ∀ out, po_OutputDir options = Some out → outside out q) w) (InitializePKI options : io Manifest) (initialized options w) w.
Proof.
  assert (Hsame : ∀ e, initialized options w (Err e) w) by done.
  apply always_try. eapply always_mono; [apply normalize_spec|by intros w' <-|]. intros [[[[settings dns] ips] names]|e] w' <- Hn; [|by split].
  destruct (Hn _ eq_refl) as [Hdir [now Hnow]]. cbn in Hdir. clear Hn. rewrite Hdir.
  apply always_try. eapply always_mono; [apply output_spec|by intros w' <-|]. intros [out|e] w' <- Hout; [|by split].
  specialize (Hout _ eq_refl). apply always_attempt; [done|]. intros d1 _. cbn. destruct (dr_ok d1); [|by split].
  destruct (create_cases out (Dir 448) (w_files w)) as [[-> Hempty]| ->]; [|by split]. cbn. rewrite subtree_empty in Hempty. set (w1 := mkWorld _ _).
  assert (H1 : keeps (outside out) w w1) by (split; [done|]; intros q; apply insert_frame).
  assert (HI : ∀ w', keeps (outside out) w1 w' → keeps (λ q, ∀ out, po_OutputDir options = Some out → outside out q) w w').
  { intros w' Hk. eapply keeps_weaken; [|eapply keeps_trans; [exact H1|exact Hk]]. intros q Hq. by apply Hq. }
  apply always_bind. eapply (always_mono _ (keeps (outside out) w1)); [|exact HI|].
  - eapply (inside_attempt out (Open out) _ _ (λ manifest w', pki_made settings dns ips names out (w_files w) manifest (w_files w'))); [by intros d; apply Forall_nil|].
    intros d2 _. cbn. destruct (_ !! out); [|done]. destruct (dr_ok d2); [|done]. apply inside_defer; [done|]. by apply fill_pki_spec.
  - intros [manifest|e] w2 Hk Hr; cbn.
    + split; [by apply HI|]. split; [done|]. intros m [= <-]. exists now, settings, dns, ips, names, out. split; [done|]. split; [done|].
      split; [done|]. by apply Hr.
    + split; [by apply HI|]. intros d3 Hgone. cbn. rewrite Hgone. cbn. assert (Hcut : ∀ q, cut out (w_files w2) !! q = w_files w !! q).
      { intros q. rewrite cut_lookup. case_decide as Hq; [by rewrite Hempty|]. rewrite (proj2 Hk) by done. by apply H1. }
      split.
      * split; [cbn; by rewrite (proj1 Hk)|]. intros q _. apply Hcut.
      * split; [|done]. intros _ _. by apply map_eq.
Qed.


(** ** Loading *)

(** What the standard library documents of its encoders, of the certificates that it creates and
    of the pairs and pools that it reads. *)
Record pki_laws : Prop := {
  pl_pem : ∀ ty b, pt_pem_Decode (pt_pem_EncodeToMemory ty b) = (Some (mkPemBlock ty ∅ b), []);
  pl_pkcs8 : ∀ key der, pt_MarshalPKCS8PrivateKey key = Some der → pt_ParsePKCS8PrivateKey der = Some key;
  pl_created : ∀ t issuer public key der c, pt_CreateCertificate t issuer public key = Some der → pt_ParseCertificate der = Some c →
    ce_PublicKey c = public ∧ ce_IsCA c = ce_IsCA (tp_Certificate t) ∧ ce_KeyUsage c = ce_KeyUsage (tp_Certificate t);
  pl_pair : ∀ der der' c key keyDER, pt_ParseCertificate der = Some c → ce_PublicKey c = pt_Public key →
    pt_MarshalPKCS8PrivateKey key = Some keyDER →
    is_Some (pt_X509KeyPair (pt_pem_EncodeToMemory "CERTIFICATE" der ++ pt_pem_EncodeToMemory "CERTIFICATE" der')
               (pt_pem_EncodeToMemory "PRIVATE KEY" keyDER));
  pl_pool : ∀ der c, pt_ParseCertificate der = Some c → is_Some (pt_AppendCertsFromPEM (pt_pem_EncodeToMemory "CERTIFICATE" der));
}.

Lemma put_lookup (out : path) (l : list (string * string * Z * bytes)) (x : string * string * Z * bytes) (fs : files) : NoDup (l.*1.*1) → x ∈ l →
  foldl (put out) fs l !! file_path out x = Some (File x.1.2 x.2).
Proof.
  revert fs. induction l as [|y l IH] using rev_ind; intros fs Hnd Hx; [by apply elem_of_nil in Hx|]. rewrite foldl_app. cbn. unfold put at 1.
  rewrite !fmap_app in Hnd. apply NoDup_app in Hnd as (Hnd & Hdis & _). apply elem_of_app in Hx as [Hx| ->%list_elem_of_singleton]; [|apply lookup_insert_eq].
  rewrite lookup_insert_ne; [by apply IH|]. intros Heq%app_inv_head. injection Heq as H1 H2. apply (Hdis x.1.1).
  - by apply list_elem_of_fmap_2, list_elem_of_fmap_2.
  - apply list_elem_of_singleton. destruct x as [[[? ?] ?] ?], y as [[[? ?] ?] ?]. cbn in *. congruence.
Qed.

Lemma readRegular_runs (p : path) limit private perm body ds (w : world) :
  w_files w !! p = Some (File perm body) → 1 ≤ Z.of_nat (length body) ≤ limit → private = false ∨ Z.land perm 63 = 0 →
  Forall (λ d, dr_ok d = true) ds → length ds = 5%nat → runs ds (readRegular (Some p) limit private : io bytes) w w (Ok body).
Proof.
  intros Hp Hl Hperm Hds Hlen. destruct ds as [|d1 [|d2 [|d3 [|d4 [|d5 [|]]]]]]; try discriminate Hlen.
  rewrite !Forall_cons in Hds. destruct Hds as (H1 & H2 & H3 & H4 & H5 & _).
  apply runs_Do. cbn. rewrite H1, Hp. cbn. apply runs_Do. cbn. rewrite H2, Hp.
  apply (runs_defer (Close p) [d3; d4] d5 _ w w (Ok body)).
  apply runs_Do. cbn. rewrite H3, Hp. cbn.
  replace (Z.of_nat (length body) <? 1) with false by lia. replace (limit <? Z.of_nat (length body)) with false by lia. cbn.
  assert (private && negb (Z.land perm 63 =? 0) = false) as ->. { destruct Hperm as [-> | ->]; [done|by destruct private]. }
  apply runs_Do. cbn. rewrite H4, Hp. rewrite take_ge by lia. replace (limit <? Z.of_nat (length body)) with false by lia. apply runs_Ret.
Qed.

Lemma explain_runs {A} text (p : io A) ds (w w' : world) a : runs ds p w w' (Ok a) → runs ds (explain text p) w w' (Ok a).
Proof. intros Hp. rewrite <-(app_nil_r ds). eapply runs_bind; [exact Hp|]. apply runs_Ret. Qed.

(** The files that the documentation hands to the server. *)
Definition server_files (out : path) : PKIFiles :=
  let dir := out ++ [Name "server"] in
  mkPKIFiles (Some (dir ++ [Name "server-chain.pem"])) (Some (dir ++ [Name "server-key.pem"])) (Some (dir ++ [Name "root-cert.pem"]))
    (Some (dir ++ [Name "intermediate-cert.pem"])) (Some (dir ++ [Name "intermediate-key.pem"])).

(** A created certificate with its key, as they are encoded. *)
Record created (t : template) (c : generatedCertificate Signer) : Prop := {
  cr_pem : ∃ der, gc_certificatePEM c = pt_pem_EncodeToMemory "CERTIFICATE" der ∧ pt_ParseCertificate der = Some (gc_certificate c);
  cr_key : ∃ keyDER, gc_privateKeyPEM c = pt_pem_EncodeToMemory "PRIVATE KEY" keyDER ∧ pt_MarshalPKCS8PrivateKey (gc_signer c) = Some keyDER;
  cr_public : ce_PublicKey (gc_certificate c) = pt_Public (gc_signer c);
  cr_usable : usable_issuer (gc_certificate c) = usable_issuer (tp_Certificate t);
}.

Context (HL : pki_laws).

Lemma createCertificate_spec t issuer private key c : createCertificate t issuer private key = Some c → created t c ∧ gc_signer c = private.
Proof.
  unfold createCertificate. intros (der & Hder & (cert & Hcert & (keyDER & Hkey & [= <-])%bind_Some)%bind_Some)%bind_Some.
  destruct (pl_created HL _ _ _ _ _ _ Hder Hcert) as (Hp & Hca & Hu). split; [|done]. split; cbn; [by exists der|by exists keyDER|done|].
  unfold usable_issuer. by rewrite Hca, Hu.
Qed.

Lemma parseOne_encoded t c : created t c → parseOneCertificate (gc_certificatePEM c) = Some (gc_certificate c).
Proof. intros [(der & -> & Hp) _ _ _]. unfold parseOneCertificate, one_block. rewrite (pl_pem HL). exact Hp. Qed.

Lemma parseSigner_encoded t c : created t c → parseSigner (gc_privateKeyPEM c) = Some (gc_signer c).
Proof. intros [_ (der & -> & Hp) _ _]. unfold parseSigner, one_block. rewrite (pl_pem HL). exact (pl_pkcs8 HL _ _ Hp). Qed.

Lemma split_draws (l : list draw) n : (n ≤ length l)%nat → Forall (λ d, dr_ok d = true) l →
  ∃ a b, l = a ++ b ∧ length a = n ∧ Forall (λ d, dr_ok d = true) a ∧ Forall (λ d, dr_ok d = true) b ∧ length b = (length l - n)%nat.
Proof.
  intros Hn Hl. exists (take n l), (drop n l). rewrite take_drop, length_take, length_drop. split_and!; [done|lia|by apply Forall_take|by apply Forall_drop|done].
Qed.

Lemma LoadPKI_runs out (root intermediate server : generatedCertificate Signer) t1 t2 t3 manifestJSON fs ds (w : world) :
  created t1 root → created t2 intermediate → created t3 server → usable_issuer (tp_Certificate t2) = true →
  is_Some (pt_MarshalPKIXPublicKey (pt_Public (gc_signer intermediate))) →
  w_files w = pki_tree out root intermediate server manifestJSON fs →
  Forall (λ x, 1 ≤ Z.of_nat (length x.2) ≤ 32 * 2 ^ 10) (pki_files root intermediate server manifestJSON) →
  Forall (λ d, dr_ok d = true) ds → length ds = 25%nat →
  ∃ pair roots, runs ds (LoadPKI (server_files out)) w w
    (Ok (mkPKI pair roots (gc_certificate intermediate) (gc_signer intermediate) (gc_certificatePEM root))).
Proof.
  intros Hroot Hint Hserver Husable [public Hpublic] Hw Hsmall Hds Hlen.
  assert (Hfile : ∀ n dir name mode data, pki_files root intermediate server manifestJSON !! n = Some (dir, name, mode, data) →
    w_files w !! ((out ++ [Name dir]) ++ [Name name]) = Some (File mode data) ∧ 1 ≤ Z.of_nat (length data) ≤ 32 * 2 ^ 10).
  { intros n dir name mode data Hx%list_elem_of_lookup_2. split; [|rewrite Forall_forall in Hsmall; exact (Hsmall _ Hx)].
    rewrite Hw, <-app_assoc. exact (put_lookup out _ _ _ (pki_names _ _ _ _) Hx). }
  destruct (Hfile 6%nat _ _ _ _ eq_refl) as [F1 L1], (Hfile 5%nat _ _ _ _ eq_refl) as [F2 L2], (Hfile 2%nat _ _ _ _ eq_refl) as [F3 L3],
    (Hfile 4%nat _ _ _ _ eq_refl) as [F4 L4], (Hfile 3%nat _ _ _ _ eq_refl) as [F5 L5].
  assert (is_Some (pt_X509KeyPair (gc_certificatePEM server ++ gc_certificatePEM intermediate) (gc_privateKeyPEM server))) as [pair Hpair].
  { destruct Hserver as [(der & -> & Hp) (keyDER & -> & Hk) Hpub _], Hint as [(der' & -> & _) _ _ _]. by eapply (pl_pair HL). }
  assert (is_Some (pt_AppendCertsFromPEM (gc_certificatePEM root))) as [roots Hroots].
  { destruct Hroot as [(der & -> & Hp) _ _ _]. by eapply (pl_pool HL). }
  exists pair, roots.
  destruct (split_draws ds 5) as (a1 & ds1 & -> & Ha1 & Hok1 & Hds1 & Hlen1); [lia|done|].
  destruct (split_draws ds1 5) as (a2 & ds2 & -> & Ha2 & Hok2 & Hds2 & Hlen2); [lia|done|].
  destruct (split_draws ds2 5) as (a3 & ds3 & -> & Ha3 & Hok3 & Hds3 & Hlen3); [lia|done|].
  destruct (split_draws ds3 5) as (a4 & ds4 & -> & Ha4 & Hok4 & Hds4 & Hlen4); [lia|done|].
  unfold LoadPKI. cbn [server_files pf_ServerCertificate pf_ServerKey pf_ClientCA pf_IssuerCertificate pf_IssuerKey].
  eapply runs_bind; [apply explain_runs; eapply readRegular_runs; [exact F1|lia|by left|done..]|]. cbv beta iota.
  eapply runs_bind; [apply explain_runs; eapply readRegular_runs; [exact F2|lia|by right|done..]|]. cbv beta iota. rewrite Hpair. cbn [or_fail].
  eapply runs_bind; [apply explain_runs; eapply readRegular_runs; [exact F3|lia|by left|done..]|]. cbv beta iota. rewrite Hroots. cbn [or_fail].
  eapply runs_bind; [apply explain_runs; eapply readRegular_runs; [exact F4|lia|by left|done..]|]. cbv beta iota.
  rewrite (parseOne_encoded _ _ Hint). cbn [or_fail]. rewrite (cr_usable _ _ Hint), Husable. cbn [negb].
  rewrite <-(app_nil_r ds4).
  eapply runs_bind; [apply explain_runs; eapply readRegular_runs; [exact F5|lia|by right|done|lia]|]. cbv beta iota.
  rewrite (parseSigner_encoded _ _ Hint). cbn [or_fail]. unfold publicKeysEqual. rewrite (cr_public _ _ Hint), Hpublic, bool_decide_true by done.
  apply runs_Ret.
Qed.

(** C23: A PKI that was made is what the server loads: the issuer that the manifest names, which may
    sign and belongs to the key next to it, with the root that the manifest names. *)
Theorem initialized_pki_loads options ds (w w' : world) manifest out later :
  Forall removals_hold ds → po_OutputDir options = Some out → run ds (InitializePKI options) w = (w', Some (Ok manifest)) →
  (∀ q perm body, under out q → w_files w' !! q = Some (File perm body) → 1 ≤ Z.of_nat (length body) ≤ 32 * 2 ^ 10) →
  Forall (λ d, dr_ok d = true) later → (25 ≤ length later)%nat →
  ∃ pki root, run later (LoadPKI (server_files out)) w' = (w', Some (Ok pki)) ∧
    summarize (pk_Issuer pki) = mf_Intermediate manifest ∧ usable_issuer (pk_Issuer pki) = true ∧
    publicKeysEqual pt_MarshalPKIXPublicKey (ce_PublicKey (pk_Issuer pki)) (pt_Public (pk_IssuerKey pki)) = true ∧
    parseOneCertificate (pk_RootPEM pki) = Some root ∧ summarize root = mf_Root manifest.
Proof.
  intros Hds Hdir Hr Hsmall Hlater Hlen. pose proof (InitializePKI_spec options w) as Ha.
  apply always_run with (ds := ds) in Ha as [_ HQ]; [|done]. rewrite Hr in HQ. destruct (HQ _ eq_refl) as [_ Hok].
  destruct (Hok _ eq_refl) as (now & settings & dns & ips & names & out' & _ & Hdir' & _ & root & intermediate & server & json & Hmade & Hfiles).
  rewrite Hdir in Hdir'. injection Hdir' as <-. cbn [fst] in Hfiles.
  destruct Hmade as [(s1 & k1 & p1 & Hroot) (s2 & k2 & p2 & Hfp & Hint) (s3 & k3 & p3 & Hserver) -> _]. cbv zeta in Hroot.
  destruct (createCertificate_spec _ _ _ _ _ Hroot) as [Croot _], (createCertificate_spec _ _ _ _ _ Hint) as [Cint Hkey],
    (createCertificate_spec _ _ _ _ _ Hserver) as [Cserver _].
  assert (Hpublic : is_Some (pt_MarshalPKIXPublicKey (pt_Public (gc_signer intermediate)))).
  { rewrite Hkey. unfold publicKeyFingerprint in Hfp. apply fmap_Some in Hfp as (public & -> & _). done. }
  destruct (LoadPKI_runs out root intermediate server _ _ _ json (w_files w) (take 25 later) w' Croot Cint Cserver) as (pair & roots & Hload);
    [done|done|done| |by apply Forall_take|rewrite length_take; lia|].
  { apply Forall_forall. intros x Hx. eapply (Hsmall (file_path out x)); [apply under_app|]. rewrite Hfiles. exact (put_lookup out _ _ _ (pki_names _ _ _ _) Hx). }
  eexists _, (gc_certificate root). split_and!.
  - rewrite <-(take_drop 25 later). apply runs_run. exact Hload.
  - done.
  - cbn. by rewrite (cr_usable _ _ Cint).
  - cbn. unfold publicKeysEqual. rewrite (cr_public _ _ Cint). destruct Hpublic as [public ->]. by apply bool_decide_true.
  - by eapply parseOne_encoded.
  - done.
Qed.
End Files.

(** ** A concrete PKI *)

(** An encoded certificate is the flag of an authority, its usage and its public key. *)
Definition kit_create (t : template) (issuer : Certificate) (public : PublicKey) (key : bytes) : option bytes :=
  let usage := ce_KeyUsage (tp_Certificate t) in
  if (0 <=? usage) && (usage <? 256) then
    match public with
    | Ed25519Key l => Some ((if ce_IsCA (tp_Certificate t) then one else zero) :: value_byte usage :: l)
    | _ => None
    end
  else None.
Definition kit_parse (l : bytes) : option Certificate :=
  match l with
  | ca :: usage :: key => Some {|
      ce_SerialNumber := Some 1; ce_Subject := ""; ce_NotBefore := 0; ce_NotAfter := 0; ce_KeyUsage := byte_value usage; ce_ExtKeyUsage := [];
      ce_UnknownExtKeyUsage := []; ce_BasicConstraintsValid := true; ce_IsCA := bool_decide (ca = one); ce_DNSNames := []; ce_EmailAddresses := [];
      ce_IPAddresses := []; ce_URIs := []; ce_SubjectKeyId := []; ce_AuthorityKeyId := []; ce_PublicKey := Ed25519Key key; ce_Raw := l |}
  | _ => None
  end.

#[export] Instance kit_tools : PkiTools bytes bytes := {|
  pt_Public := Ed25519Key; pt_MarshalPKIXPublicKey k := match k with Ed25519Key l => Some l | _ => None end;
  pt_CreateCertificate := kit_create; pt_ParseCertificate := kit_parse; pt_MarshalPKCS8PrivateKey := Some; pt_ParsePKCS8PrivateKey := Some;
  pt_pem_Decode := toy_unpem; pt_pem_EncodeToMemory := toy_pem; pt_X509KeyPair chain _ := Some [chain]; pt_AppendCertsFromPEM := Some;
  pt_ParseIP _ := None; pt_IP_String := of_chars; pt_json_MarshalIndent _ := Some [zero];
|}.

Lemma kit_laws : pki_laws (T := kit_tools).
Proof.
  split; try done; [apply toy_unpem_pem|].
  intros t issuer public key der c. cbn. unfold kit_create. destruct (_ && _) eqn:Hu; [|done]. destruct public; try done.
  intros [= <-] [= <-]. cbn. split_and!; [done|by destruct (ce_IsCA _)|]. unfold byte_value, value_byte. rewrite Ascii.N_ascii_embedding; lia.
Qed.

Definition kit_out : path := [Name "srv"; Name "pki"].
Definition kit_options : PKIOptions := mkPKIOptions (Some kit_out) ["server"] (240 * Hour) 0 0 0.
Definition kit_machine : world (Request := Empty_set) := mkWorld {[[Name "srv"] := Dir 493]} [].
Definition kit_draw : draw (Key := bytes) (Reply := Empty_set) := mkDraw true None 0 None "random" (Some (replicate 32 one)) 0 None.
Definition kit_draws : list draw := replicate 90 kit_draw.
Definition kit_made : world := (run kit_draws (InitializePKI kit_options) kit_machine).1.
Definition kit_manifest : Manifest :=
  let summary c := from_option summarize (mkCertificateSummary "" 0) (kit_parse c) in
  let authority := summary (one :: value_byte 96 :: replicate 32 one) in
  mkManifest 1 (240 * Hour) ["server"] authority authority (summary (zero :: value_byte 1 :: replicate 32 one)).

Lemma kit_run : run kit_draws (InitializePKI kit_options) kit_machine = (kit_made, Some (Ok kit_manifest)).
Proof. refine (run_result _ _ _ _ _). vm_compute. reflexivity. Qed.

Lemma kit_holds : Forall removals_hold kit_draws.
Proof. by apply Forall_replicate. Qed.


Definition small_file (n : node) : bool :=
  match n with File _ body => (1 <=? Z.of_nat (length body)) && (Z.of_nat (length body) <=? 32 * 2 ^ 10) | _ => true end.

Lemma kit_small q perm body : w_files kit_made !! q = Some (File perm body) → 1 ≤ Z.of_nat (length body) ≤ 32 * 2 ^ 10.
Proof.
  assert (Hall : bool_decide (map_Forall (λ _ n, small_file n = true) (w_files kit_made)) = true) by (vm_compute; reflexivity).
  apply bool_decide_eq_true in Hall. intros Hq. pose proof (Hall _ _ Hq) as Hn. cbn in Hn. lia.
Qed.

Lemma initialized_pki_loads_witness :
  ∃ pki root, run (replicate 25 kit_draw) (LoadPKI (server_files kit_out)) kit_made = (kit_made, Some (Ok pki)) ∧
    summarize (pk_Issuer pki) = mf_Intermediate kit_manifest ∧ usable_issuer (pk_Issuer pki) = true ∧
    publicKeysEqual pt_MarshalPKIXPublicKey (ce_PublicKey (pk_Issuer pki)) (pt_Public (pk_IssuerKey pki)) = true ∧
    parseOneCertificate (pk_RootPEM pki) = Some root ∧ summarize root = mf_Root kit_manifest.
Proof.
  apply (initialized_pki_loads kit_laws kit_options kit_draws kit_machine kit_made kit_manifest kit_out (replicate 25 kit_draw));
    [exact kit_holds|reflexivity|exact kit_run|intros q perm body _; apply kit_small|by apply Forall_replicate|by rewrite length_replicate].
Defined.
